(* ===== verification/_CoqProject ===== *)
-Q . S2P
Prelude.v
Ordering.v
Json.v
Retry.v
ErrGroup.v
Domain.v
Identity.v
Store.v
Ledger.v
Cache.v
IngesterRules.v
Effects.v
Replay.v
Ingester.v
IngesterProofs.v
IngesterDelivery.v
Interleaver.v
Breaker.v
AddressIndex.v
Sha256.v
NormalizerRules.v
NormalizerEvents.v
NormalizerProofs.v
EventIdentity.v
NormalizerDecode.v
CoverageProofs.v
Normalizer.v
NormalizerBatch.v
AutoTune.v
PolicyLineage.v
RuntimeSignals.v
AutoTuneProofs.v
PolicyProofs.v
Coordinator.v
ReorgDetector.v
FetcherRules.v
Fetcher.v
FetcherProofs.v
FetcherScan.v
JsonTree.v
SolanaAdapter.v
SolanaProofs.v
EvmAdapter.v
EvmAdapterProofs.v
BtcAdapter.v
BtcAdapterProofs.v
PipelineHealth.v
ConfigWatcher.v
Lifecycle.v
LifecycleProofs.v
Alerter.v
Float64.v
Config.v
ConfigProofs.v
ConfigReload.v
Startup.v
StartupProofs.v
Reconciliation.v
ReconciliationProofs.v
Net.v
AdminServer.v
AdminRateLimit.v
AdminRateLimitProofs.v
AdminStack.v
AdminProofs.v
Registry.v
RegistryProofs.v
Database.v
Dashboard.v
DashboardProofs.v
RpcClient.v
EvmRpc.v
EvmRpcProofs.v
BtcRpc.v
SolanaRpc.v
RpcProofs.v
Wiring.v
WiringProofs.v
