(* ===== verification/Prelude.v ===== *)
(** * multichain-indexer: a verification library

    The indexer follows several blockchains.  For each one a pipeline of stages turns the
    blocks of the chain into balance events of watched addresses and keeps balances in
    PostgreSQL.  This library translates the Go sources under [src/] into Rocq definitions
    and proves what makes them correct.  File names below are those of this directory; paths
    are relative to [src/internal/] unless they start with [cmd/].

    ** How the program works

    [cmd/indexer/main.go] loads the configuration, connects to the database and runs its
    migrations, selects the chains it can build, and starts one pipeline for each, together
    with the reconciliation and the admin API.  [pipeline/pipeline.go] runs the stages
    of a chain again and again: the coordinator decides the next range of blocks and its size
    (with an auto-tune controller), the fetcher asks the chain adapter for transactions, the
    normalizer has a sidecar decode them and makes canonical balance events, and the ingester
    writes them in one database transaction per batch.  A reorg detector and a finalizer send
    the ingester events of their own.  Ingesters of several chains take turns by a shared
    interleaver.  The loop stops the stages to replay from a block, to backfill a new address,
    and when the chain is deactivated.

    ** The files

    Foundations.
    - [Prelude]: machine integers, [result], strings of Go, shared lemmas and tactics;
      [Ordering], [Json], [JsonTree], [Sha256], [Float64], [Net], [ErrGroup]: what the source
      uses of Go's standard library and [errgroup].
    - [Retry]: [pipeline/retry/retry.go], errors as chains and their classification.
    - [Domain], [Identity]: [domain/model], [domain/event], [pipeline/identity/identity.go].

    Storage.
    - [Store]: the tables and the statements of [store/postgres]; [Ledger]: the abstract
      specification of the balances, the sum of the stored events.
    - [Database]: [store/postgres/db.go], connection and migrations.
    - [Dashboard], [DashboardProofs]: [dashboard_repo.go], [runtime_config_repo.go].
    - [Cache]: [cache/lru.go], [cache/sharded_lru.go], with the interface [Cache] and its
      laws; [AddressIndex]: [addressindex] and [watched_address_repo.go].

    Writing.
    - [Effects]: transactions, faults and clocks as a state and error monad.
    - [Ingester], [IngesterRules]: [pipeline/ingester/ingester.go]; [IngesterProofs] (ledger,
      atomicity, retries), [IngesterDelivery] (no event is lost).
    - [Interleaver]: [pipeline/ingester/interleaver.go]; [Replay]:
      [pipeline/replay/service.go].

    Reading.
    - [Coordinator]: [pipeline/coordinator/coordinator.go]; [AutoTune], [PolicyLineage],
      [RuntimeSignals], [AutoTuneProofs], [PolicyProofs]: [coordinator/autotune].
    - [FetcherRules], [Fetcher], [FetcherProofs], [FetcherScan]: [pipeline/fetcher/fetcher.go];
      [Breaker]: [circuitbreaker/breaker.go].
    - [NormalizerRules], [NormalizerEvents], [NormalizerDecode], [Normalizer]:
      [pipeline/normalizer]; [NormalizerProofs], [EventIdentity] (independent definitions of
      what identifies an event), [CoverageProofs], [NormalizerBatch]: events, coverage floor,
      batches.
    - [ReorgDetector]: [pipeline/reorgdetector/detector.go], [pipeline/finalizer/finalizer.go].

    Chains.
    - [EvmAdapter], [BtcAdapter], [SolanaAdapter] and their [Proofs] files:
      [chain/base/adapter.go], [chain/btc/adapter.go], [chain/solana/adapter.go].
    - [RpcClient], [EvmRpc], [BtcRpc], [SolanaRpc], [RpcProofs], [EvmRpcProofs]: the JSON-RPC
      clients [chain/*/rpc] and the waiting of [chain/ratelimit/limiter.go].

    Running.
    - [Config], [ConfigProofs], [ConfigReload]: [config/config.go]; [Startup],
      [StartupProofs]: what [cmd/indexer/main.go] decides before pipelines run.
    - [Wiring], [WiringProofs]: the stages [runPipeline] builds.
    - [Lifecycle], [LifecycleProofs]: [Pipeline.Run] as a step relation; [PipelineHealth]:
      [pipeline/health.go]; [ConfigWatcher]: [pipeline/config_watcher.go].
    - [Alerter]: [alert/alerter.go]; [Reconciliation], [ReconciliationProofs]:
      [reconciliation/service.go].

    Administration.
    - [AdminServer]: [admin/server.go], [admin/dashboard.go]; [AdminRateLimit],
      [AdminRateLimitProofs]: [admin/ratelimit.go]; [AdminStack]: [admin/audit.go], the
      middleware of [cmd/indexer/main.go], [address_book_repo.go]; [AdminProofs].
    - [Registry], [RegistryProofs]: [pipeline/registry.go],
      [pipeline/registry_replay_adapter.go].

    ** How components meet

    - The ingester, replays, promotions and the admin API are verified against [ledger_ok] of
      [Ledger]: balances are the sum of the applied events.  [RegistryProofs] carries it from
      an HTTP request through [AdminServer], [Registry] and [Replay] to the tables.
    - The clients of a cache use the class [Cache] and its laws; [LRU] and [ShardedLRU] are
      instances.  The watcher uses the classes [CoordinatorUpdater] and
      [ActivationController].
    - An adapter takes the record of its RPC client, the answer to each request; [RpcProofs]
      shows of the clients that their batches are their single requests.
    - [Startup] takes the configuration of [Config]; [Wiring] its pipelines and gives each
      stage the settings that the theorems about it ask for; [Lifecycle] runs the stages.
    - [Coordinator] closes the loop with a fetcher and an ingester that finish a job before
      the next tick: the watermark then stands at the block of the last signature of the
      range, or at its end when it has none.

    ** What the theorems show

    - Ledger: whatever call fails, a batch keeps balances the sum of events; so do a reorg, a
      purge and a finality promotion that meet at most one event of an address and token (what
      they do otherwise is stated too).  A failed batch changes nothing; retries apply a batch
      that is not only a rollback at most once; a batch whose commit held stores every event;
      watermarks do not go back.
    - Concurrency: one thread commits at a time, and out of turn only after the skew; stages
      of an earlier run are gone when tables are purged; the other workers of a fetcher act
      between any two of its steps.
    - Completeness of reading: scans of the three kinds of chains return exactly the
      transactions that touch watched addresses, by what the node answers; jobs cover every
      block, and a block with signatures once; paging and splitting terminate and lose nothing.
    - Canonical events: identifiers are functions of the fields, order does not matter, and
      what one decode has shown stays.
    - Refinement: the pointer structure of the LRU, the controller, the health tracker, the
      alert cooldown and the table of limiters implement short specifications.
    - Start: loaded configurations are well formed and load again to themselves; a start that
      succeeds runs pipelines whose stages can work; migrations run in order.
    - Administration: no call without the token, none that changes data by a GET, checked
      arguments, hidden errors.
    - Where the code does not do what it means to, a theorem states what it does instead.

    ** Modelling choices

    - [int] and [int64] are [Z]; where a value can leave the range the operation wraps.  A
      [float64] is a [spec_float] of precision 53.  Strings are their bytes.
    - A Go error is a chain of wrappers ([Retry.go_error]); a panic is a value where one can
      happen.  Contexts that end are errors of the calls they end.
    - In [Effects] faults and clock are indexed by a counter that each external call raises, so
      every call can fail on its own, and a commit be lost or stay unanswered.  In [Fetcher]
      each access to shared state is a tick before which others act.  [Interleaver] and [Lifecycle] are step
      relations; ghost numbers of runs say which run a message or a stage belongs to.
      Handlers of the admin API are programs over calls, run against any answers.
    - The order in which Go visits a map, the row PostgreSQL picks when several match, and the
      order of rows that a query leaves open are arguments.
    - Parameters: the YAML decoder, golang.org/x/time/rate (class [RateLimiter] with the law
      that an idle limiter is like a new one), the decoding sidecar, HTTP posts, the sizes of a
      Bloom filter, PEM and key files.  Hypotheses on them have witnesses with concrete
      functions.

    ** Fuel

    Recursion that is not structural takes fuel that the definitions choose large enough:
    paging of rollbacks one more than the stored events ([rollback_paging_complete]), splitting
    of a log query one more than its blocks ([logs_every_block]), block scans the number of
    their batches, chunks the length of the list, retries the number of attempts, SHA-256 the
    length of its input, IPv6 addresses their groups, numbers in hexadecimal 16 digits.
    Paging of Solana signatures takes its fuel as an argument and ends when it exceeds the
    signatures since the cursor ([newest_signatures]).

    ** Not modelled

    - Logging, metrics ([metrics]) and tracing ([tracing]): they have no effect on state.
    - HTTP servers and their shutdown, signals and the goroutines that sample pools in
      [cmd/indexer/main.go]; the gauge of channel depths in [runPipeline].
    - Generated code ([src/pkg/generated]) beyond its messages, mocks, and the tools under
      [src/test]: not part of the running program.
    - [GetByAddress] and [FindByID] of the repositories, whose answers are arguments of the
      reconciliation; [GetByBlockRange], which a tool uses; columns of creation and update
      times.
    - Tickers: loops that call a check or a poll periodically are sequences of them.
    - The sidecar ([src/sidecar]) is another program. *)

From Stdlib Require Import ZArith Lia Ascii String DecimalString DecimalZ DecimalN.
From stdpp Require Import base option list strings gmap fin_maps.

Open Scope Z_scope.

Declare Scope go_scope.
Delimit Scope go_scope with go.

(** ** Go machine integers

    Go's [int] and [int64] are 64-bit two's complement on the supported
    platforms; a value is a [Z], and every operation that can overflow goes
    through [wrap64]. *)

Definition min_int64 : Z := - 2 ^ 63.
Definition max_int64 : Z := 2 ^ 63 - 1.

Definition wrap64 (z : Z) : Z := (z + 2 ^ 63) mod 2 ^ 64 - 2 ^ 63.
Definition wrap32 (z : Z) : Z := (z + 2 ^ 31) mod 2 ^ 32 - 2 ^ 31.
Definition wrap_u64 (z : Z) : Z := z mod 2 ^ 64.
Definition wrap_u32 (z : Z) : Z := z mod 2 ^ 32.

Definition in_int64 (z : Z) : Prop := min_int64 <= z <= max_int64.

Notation "x ⊕ y" := (wrap64 (x + y)) (at level 50, left associativity) : go_scope.
Notation "x ⊖ y" := (wrap64 (x - y)) (at level 50, left associativity) : go_scope.
Notation "x ⊗ y" := (wrap64 (x * y)) (at level 40, left associativity) : go_scope.

(** ** Results of fallible Go calls: a value or an error *)

Inductive result (E A : Type) : Type :=
| Ok (a : A)
| Err (e : E).
Arguments Ok {E A} a.
Arguments Err {E A} e.

Definition rbind {E A B : Type} (m : result E A) (k : A -> result E B) : result E B :=
  match m with
  | Ok a => k a
  | Err e => Err e
  end.

Notation "'let!' x ':=' m 'in' k" := (rbind m (fun x => k))
  (at level 10, x name, m at level 100, k at level 200) : go_scope.
Notation "'let!' ' p ':=' m 'in' k" := (rbind m (fun x => match x with p => k end))
  (at level 10, p pattern, m at level 100, k at level 200) : go_scope.

Definition is_ok {E A} (r : result E A) : bool :=
  match r with Ok _ => true | Err _ => false end.

Fixpoint rfoldl {E A B : Type} (f : B -> A -> result E B) (acc : B) (l : list A) : result E B :=
  match l with
  | [] => Ok acc
  | x :: l' => rbind (f acc x) (fun acc' => rfoldl f acc' l')
  end.

(** ** Go strings

    A Go string is a sequence of bytes, here [string] (a list of 8-bit
    [ascii]).  [ToLower] and [TrimSpace] follow package [strings] on ASCII
    input; bytes from 0x80 on are left alone, so Unicode case folding and
    Unicode spaces are outside the model. *)

Definition byte_of (c : ascii) : Z := Z.of_N (N_of_ascii c).

Definition is_space (c : ascii) : bool :=
  let b := byte_of c in (b =? 32) || ((9 <=? b) && (b <=? 13)).

Definition lower_ascii (c : ascii) : ascii :=
  let b := N_of_ascii c in
  if (N.leb 65 b && N.leb b 90)%bool then ascii_of_N (b + 32) else c.

Fixpoint to_lower (s : string) : string :=
  match s with
  | EmptyString => EmptyString
  | String c s' => String (lower_ascii c) (to_lower s')
  end.

Definition upper_ascii (c : ascii) : ascii :=
  let b := N_of_ascii c in
  if (N.leb 97 b && N.leb b 122)%bool then ascii_of_N (b - 32) else c.

Fixpoint to_upper (s : string) : string :=
  match s with
  | EmptyString => EmptyString
  | String c s' => String (upper_ascii c) (to_upper s')
  end.

(** [strings.EqualFold] on ASCII. *)
Definition equal_fold (s t : string) : bool := String.eqb (to_lower s) (to_lower t).

Fixpoint trim_left (s : string) : string :=
  match s with
  | EmptyString => EmptyString
  | String c s' => if is_space c then trim_left s' else s
  end.

Fixpoint trim_right (s : string) : string :=
  match s with
  | EmptyString => EmptyString
  | String c s' =>
      match trim_right s' with
      | EmptyString => if is_space c then EmptyString else String c EmptyString
      | r => String c r
      end
  end.

Definition trim_space (s : string) : string := trim_right (trim_left s).

Definition has_prefix (s p : string) : bool := String.prefix p s.

Fixpoint drop_bytes (n : nat) (s : string) : string :=
  match n, s with
  | O, _ => s
  | S n', String _ s' => drop_bytes n' s'
  | S _, EmptyString => EmptyString
  end.

Definition trim_prefix (s p : string) : string :=
  if has_prefix s p then drop_bytes (String.length p) s else s.

(** [strings.Split] on a one-byte separator. *)
Fixpoint split_on (sep : ascii) (s : string) : list string :=
  match s with
  | EmptyString => [EmptyString]
  | String c s' =>
      if Ascii.eqb c sep then EmptyString :: split_on sep s'
      else match split_on sep s' with
           | [] => [String c EmptyString]
           | t :: ts => String c t :: ts
           end
  end.

(** [strings.Cut] on a one-byte separator: [None] when it is absent. *)
Fixpoint cut_on (sep : ascii) (s : string) : option (string * string) :=
  match s with
  | EmptyString => None
  | String c s' =>
      if Ascii.eqb c sep then Some (EmptyString, s')
      else match cut_on sep s' with
           | Some (k, v) => Some (String c k, v)
           | None => None
           end
  end.

(** [strings.Contains]. *)
Fixpoint contains (s sub : string) : bool :=
  String.prefix sub s ||
  match s with
  | EmptyString => false
  | String _ s' => contains s' sub
  end.

Definition contains_any (s : string) (tokens : list string) : bool :=
  existsb (contains s) tokens.

Definition str_eqb : string -> string -> bool := String.eqb.
Definition str_empty (s : string) : bool := String.eqb s EmptyString.
Definition str_in (s : string) (l : list string) : bool := existsb (String.eqb s) l.

Lemma str_empty_spec s : str_empty s = true <-> s = EmptyString.
Proof. apply String.eqb_eq. Qed.
Lemma str_empty_false s : str_empty s = false <-> s <> EmptyString.
Proof. apply String.eqb_neq. Qed.

(** ** Decimal integers: [big.Int.SetString(s, 10)], [strconv.ParseInt(s, 10, 64)]
    and the decimal printing of [fmt] and [big.Int.String]. *)

Definition is_digit (c : ascii) : bool := (48 <=? byte_of c) && (byte_of c <=? 57).
Definition digit_val (c : ascii) : Z := byte_of c - 48.

Fixpoint digits_val (acc : Z) (s : string) : option Z :=
  match s with
  | EmptyString => Some acc
  | String c s' => if is_digit c then digits_val (acc * 10 + digit_val c) s' else None
  end.

Definition parse_unsigned (s : string) : option Z :=
  match s with
  | EmptyString => None
  | _ => digits_val 0 s
  end.

Lemma digits_val_nonneg s acc v : 0 <= acc -> digits_val acc s = Some v -> 0 <= v.
Proof.
  revert acc. induction s as [|c s IH]; intros acc Ha; simpl; [by intros [= <-]|].
  destruct (is_digit c) eqn:E; [|done]. apply IH. unfold is_digit in E. unfold digit_val. lia.
Qed.

Lemma parse_unsigned_nonneg s v : parse_unsigned s = Some v -> 0 <= v.
Proof. destruct s as [|c s]; [done|]. apply digits_val_nonneg. lia. Qed.

Definition parse_decimal (s : string) : option Z :=
  match s with
  | String "-" s' => Z.opp <$> parse_unsigned s'
  | String "+" s' => parse_unsigned s'
  | _ => parse_unsigned s
  end.

Definition parse_int64 (s : string) : option Z :=
  match parse_decimal s with
  | Some z => if (min_int64 <=? z) && (z <=? max_int64) then Some z else None
  | None => None
  end.

Definition show_Z (z : Z) : string := NilZero.string_of_int (Z.to_int z).

(** ** Lemmas on machine integers *)

Lemma wrap64_id z : in_int64 z -> wrap64 z = z.
Proof. unfold in_int64, min_int64, max_int64, wrap64. intros H. rewrite Z.mod_small; lia. Qed.

Lemma wrap64_range z : in_int64 (wrap64 z).
Proof.
  unfold in_int64, min_int64, max_int64, wrap64.
  pose proof (Z.mod_pos_bound (z + 2 ^ 63) (2 ^ 64) ltac:(lia)). lia.
Qed.

(** ** Lemmas on decimal printing and parsing *)

Fixpoint uint_val (acc : Z) (d : Decimal.uint) : Z :=
  match d with
  | Decimal.Nil => acc
  | Decimal.D0 d => uint_val (acc * 10 + 0) d
  | Decimal.D1 d => uint_val (acc * 10 + 1) d
  | Decimal.D2 d => uint_val (acc * 10 + 2) d
  | Decimal.D3 d => uint_val (acc * 10 + 3) d
  | Decimal.D4 d => uint_val (acc * 10 + 4) d
  | Decimal.D5 d => uint_val (acc * 10 + 5) d
  | Decimal.D6 d => uint_val (acc * 10 + 6) d
  | Decimal.D7 d => uint_val (acc * 10 + 7) d
  | Decimal.D8 d => uint_val (acc * 10 + 8) d
  | Decimal.D9 d => uint_val (acc * 10 + 9) d
  end.

Lemma digits_val_string_of_uint d acc :
  digits_val acc (NilEmpty.string_of_uint d) = Some (uint_val acc d).
Proof. revert acc; induction d; intros acc; [done|..]; simpl; apply IHd. Qed.

Lemma uint_val_pos_acc d p :
  uint_val (Zpos p) d = Zpos (Pos.of_uint_acc d p).
Proof. revert p; induction d; intros p; simpl; [done|..]; rewrite <- IHd; f_equal; lia. Qed.

Lemma uint_val_of_uint d : uint_val 0 d = Z.of_N (Pos.of_uint d).
Proof. induction d; simpl; try done; apply uint_val_pos_acc. Qed.

Lemma parse_unsigned_show d :
  parse_unsigned (NilZero.string_of_uint d) = Some (Z.of_N (Pos.of_uint d)).
Proof.
  rewrite <- uint_val_of_uint.
  destruct d; simpl; try done; apply digits_val_string_of_uint.
Qed.

Lemma parse_decimal_unsigned d :
  parse_decimal (NilZero.string_of_uint d) = parse_unsigned (NilZero.string_of_uint d).
Proof. destruct d; done. Qed.

(** Printing an integer in decimal and parsing it back gives the integer. *)
Lemma parse_show z : parse_decimal (show_Z z) = Some z.
Proof.
  unfold show_Z. rewrite <- (DecimalZ.of_to z) at 2.
  destruct (Z.to_int z) as [d|d]; simpl.
  - rewrite parse_decimal_unsigned. apply parse_unsigned_show.
  - rewrite parse_unsigned_show. done.
Qed.

(** ** Lists *)

Lemma filter_none {A} (P : A -> Prop) `{!forall x, Decision (P x)} (l : list A) :
  (forall x, x ∈ l -> ~ P x) -> filter P l = [].
Proof.
  induction l as [|x l IH]; intros Hl; [done|].
  rewrite filter_cons_False by (apply Hl; set_solver). apply IH. set_solver.
Qed.

Lemma elem_of_concat {A} (x : A) (ll : list (list A)) : x ∈ concat ll <-> exists l, l ∈ ll /\ x ∈ l.
Proof.
  rewrite !list_elem_of_In, in_concat. by setoid_rewrite list_elem_of_In.
Qed.

Lemma filter_all {A} (P : A -> Prop) `{!forall x, Decision (P x)} (l : list A) :
  (forall x, x ∈ l -> P x) -> filter P l = l.
Proof.
  induction l as [|x l IH]; intros Hl; [done|].
  rewrite filter_cons_True by (apply Hl; set_solver). f_equal. apply IH. set_solver.
Qed.

(** ** Maps *)

(** A map cut down to the keys of another one. *)
Lemma lookup_restrict `{Countable K} {V W} (t : gmap K V) (t' : gmap K W) k :
  filter (fun kv => is_Some (t !! kv.1)) t' !! k =
    match t !! k with Some _ => t' !! k | None => None end.
Proof.
  destruct (t' !! k) as [w|] eqn:E'; destruct (t !! k) as [v|] eqn:E.
  - apply map_lookup_filter_Some. split; [done|]. simpl. by rewrite E.
  - apply map_lookup_filter_None. right. intros w' _. simpl. rewrite E. by intros [? ?].
  - apply map_lookup_filter_None. by left.
  - apply map_lookup_filter_None. by left.
Qed.

(** ** Folds of fallible steps *)

Lemma rbind_ok {E A B} (m : result E A) (k : A -> result E B) b :
  rbind m k = Ok b <-> exists a, m = Ok a /\ k a = Ok b.
Proof. destruct m as [a|e]; simpl; split; [eauto|by intros (? & [= <-] & ?)|done|by intros (? & ? & ?)]. Qed.

Lemma rfoldl_app {E A B} (f : B -> A -> result E B) acc l1 l2 :
  rfoldl f acc (l1 ++ l2) = rbind (rfoldl f acc l1) (fun acc' => rfoldl f acc' l2).
Proof. revert acc; induction l1 as [|x l1 IH]; intros acc; simpl; [done|]. by destruct (f acc x); simpl. Qed.

Lemma rfoldl_ext {E A B} (f g : B -> A -> result E B) acc l :
  (forall b a, a ∈ l -> f b a = g b a) -> rfoldl f acc l = rfoldl g acc l.
Proof.
  revert acc; induction l as [|x l IH]; intros acc Hfg; simpl; [done|].
  rewrite Hfg by set_solver. destruct (g acc x); simpl; [|done]. apply IH. set_solver.
Qed.

(** A fold whose step reads and writes the entry of its own key only, over
    pairwise distinct keys, acts on each entry independently. *)
Section PointwiseFold.
Context {E A K V : Type} `{Countable K}.
Variable key : A -> K.
Variable g : option V -> A -> result E (option V).

Definition point_step (t : gmap K V) (a : A) : result E (gmap K V) :=
  match g (t !! key a) a with
  | Ok (Some r) => Ok (<[key a := r]> t)
  | Ok None => Ok t
  | Err e => Err e
  end.

Definition pointwise (t : gmap K V) (l : list A) (t' : gmap K V) : Prop :=
  (forall a, a ∈ l -> exists o, g (t !! key a) a = Ok o /\
                        t' !! key a = match o with Some r => Some r | None => t !! key a end) /\
  (forall k, k ∉ key <$> l -> t' !! k = t !! k).

Lemma rfoldl_pointwise l t t' :
  NoDup ((key <$> l)) -> rfoldl point_step t l = Ok t' <-> pointwise t l t'.
Proof.
  revert t; induction l as [|a l IH]; intros t Hnd; simpl.
  - split.
    + intros [= ->]. split; [set_solver|done].
    + intros [_ Hk]. f_equal. apply map_eq. intros k. rewrite Hk; [done|set_solver].
  - apply NoDup_cons in Hnd as [Hna Hnd]. rewrite rbind_ok. unfold point_step at 1.
    assert (Hne : forall b, b ∈ l -> key a <> key b).
    { intros b Hb Heq. apply Hna. rewrite Heq. apply list_elem_of_fmap. eauto. }
    split.
    + intros (t1 & Ht1 & Hrest). apply IH in Hrest as [Hl Hk]; [|done].
      destruct (g (t !! key a) a) as [[r|]|e] eqn:Hg; simplify_eq; split.
      * intros b [->|Hb]%elem_of_cons.
        { exists (Some r). split; [done|]. rewrite Hk by done. by rewrite lookup_insert_eq. }
        specialize (Hl b Hb). by rewrite lookup_insert_ne in Hl by eauto.
      * intros k [Hka Hkl]%not_elem_of_cons. rewrite Hk by done. by rewrite lookup_insert_ne.
      * intros b [->|Hb]%elem_of_cons; [|eauto]. exists None. by rewrite Hk.
      * intros k [Hka Hkl]%not_elem_of_cons. by apply Hk.
    + intros [Hl Hk]. destruct (Hl a) as (o & Hg & Ht'); [set_solver|].
      rewrite Hg. destruct o as [r|]; eexists; (split; [done|]); apply IH; try done; split.
      * intros b Hb. rewrite lookup_insert_ne by eauto. apply Hl. set_solver.
      * intros k Hkl. destruct (decide (k = key a)) as [->|Hn].
        { by rewrite Ht', lookup_insert_eq. }
        rewrite lookup_insert_ne by done. apply Hk. set_solver.
      * intros b Hb. apply Hl. set_solver.
      * intros k Hkl. destruct (decide (k = key a)) as [->|Hn]; [done|]. apply Hk. set_solver.
Qed.
End PointwiseFold.

Lemma append_cancel (s a b : string) : s +:+ a = s +:+ b -> a = b.
Proof. induction s as [|c s IH]; [done|]. intros [= Heq]. by apply IH. Qed.

Lemma append_assoc_string (a b c : string) : (a +:+ b) +:+ c = a +:+ (b +:+ c).
Proof. induction a as [|x a IH]; [done|]. change (String x ((a +:+ b) +:+ c) = String x (a +:+ (b +:+ c))). by rewrite IH. Qed.

Lemma cut_on_app c s t :
  cut_on c s = None -> cut_on c (s +:+ String c t) = Some (s, t).
Proof.
  induction s as [|a s IH]; simpl.
  - intros _. by rewrite Ascii.eqb_refl.
  - destruct (Ascii.eqb a c); [done|]. destruct (cut_on c s) as [[k v]|]; [done|].
    intros _. by rewrite IH.
Qed.

(** ** The length of a decimal numeral *)

Lemma uint_val_bounds d acc :
  0 <= acc ->
  acc * 10 ^ Z.of_nat (Decimal.nb_digits d) <= uint_val acc d
    < (acc + 1) * 10 ^ Z.of_nat (Decimal.nb_digits d).
Proof.
  revert acc; induction d; intros acc Hacc; simpl uint_val; simpl Decimal.nb_digits; [lia|..];
    rewrite Nat2Z.inj_succ, Z.pow_succ_r by lia;
    match goal with |- context [uint_val (acc * 10 + ?k) d] =>
      specialize (IHd (acc * 10 + k) ltac:(lia)) end; nia.
Qed.

Lemma length_string_of_uint d : String.length (NilEmpty.string_of_uint d) = Decimal.nb_digits d.
Proof. induction d; simpl; auto. Qed.

Lemma pos_to_uint_head p u : Pos.to_uint p <> Decimal.D0 u.
Proof.
  intros Hd. pose proof (DecimalPos.Unsigned.to_of (Pos.to_uint p)) as Hto.
  rewrite (DecimalPos.Unsigned.of_to p) in Hto. simpl in Hto. rewrite Hd in Hto.
  rewrite DecimalFacts.unorm_D0 in Hto. destruct u.
  - pose proof (DecimalPos.Unsigned.of_to p) as Hp. rewrite Hd in Hp. done.
  - pose proof (DecimalFacts.nb_digits_unorm (Decimal.D0 u) ltac:(done)) as Hn.
    rewrite <- Hto in Hn. simpl in Hn. lia.
  - done.
  - done.
  - done.
  - done.
  - done.
  - done.
  - done.
  - done.
  - done.
Qed.

Lemma pos_to_uint_digits p :
  10 ^ (Z.of_nat (Decimal.nb_digits (Pos.to_uint p)) - 1) <= Zpos p
    < 10 ^ Z.of_nat (Decimal.nb_digits (Pos.to_uint p)).
Proof.
  pose proof (pos_to_uint_head p) as Hhead. pose proof (DecimalPos.Unsigned.of_to p) as Hof.
  pose proof (uint_val_of_uint (Pos.to_uint p)) as Hval. rewrite Hof in Hval. simpl in Hval.
  destruct (Pos.to_uint p) as [|u|u|u|u|u|u|u|u|u|u]; [done|by destruct (Hhead u)|..];
    simpl uint_val in Hval; simpl Decimal.nb_digits;
    rewrite Nat2Z.inj_succ, Z.pow_succ_r by lia;
    replace (Z.succ (Z.of_nat (Decimal.nb_digits u)) - 1) with (Z.of_nat (Decimal.nb_digits u)) by lia;
    rewrite <- Hval;
    match goal with |- context [uint_val ?k u] =>
      pose proof (uint_val_bounds u k ltac:(lia)) end; nia.
Qed.

(** The digits of [z] without its sign. *)
Definition show_abs (z : Z) : string := NilZero.string_of_uint (N.to_uint (Z.abs_N z)).

Lemma show_Z_nonneg z : 0 <= z -> show_Z z = show_abs z.
Proof. by destruct z. Qed.

Lemma show_Z_neg z : z < 0 -> show_Z z = String "-" (show_abs z).
Proof. by destruct z. Qed.

Lemma show_abs_length z (n : nat) :
  (0 < n)%nat -> (String.length (show_abs z) <= n)%nat <-> Z.abs z < 10 ^ Z.of_nat n.
Proof.
  intros Hn. assert (Hpos : forall p, (String.length (NilZero.string_of_uint (Pos.to_uint p)) <= n)%nat
                                       <-> Zpos p < 10 ^ Z.of_nat n).
  { intros p. pose proof (pos_to_uint_digits p) as Hd. pose proof (DecimalPos.Unsigned.to_uint_nonnil p) as Hnn.
    assert (Hl : String.length (NilZero.string_of_uint (Pos.to_uint p)) = Decimal.nb_digits (Pos.to_uint p)).
    { rewrite <- length_string_of_uint. by destruct (Pos.to_uint p). }
    rewrite Hl. split; intros H.
    - apply (Z.lt_le_trans _ _ _ (proj2 Hd)). apply Z.pow_le_mono_r; lia.
    - destruct (Nat.le_gt_cases (Decimal.nb_digits (Pos.to_uint p)) n) as [|Hgt]; [done|].
      assert (10 ^ Z.of_nat n <= 10 ^ (Z.of_nat (Decimal.nb_digits (Pos.to_uint p)) - 1))
        by (apply Z.pow_le_mono_r; lia). lia. }
  destruct z as [|p|p]; [|apply Hpos..].
  unfold show_abs. simpl. split; [intros _|intros _; lia]. apply Z.pow_pos_nonneg; lia.
Qed.

(** ** Trimming and case *)

Fixpoint all_chars (p : ascii -> bool) (s : string) : bool :=
  match s with
  | EmptyString => true
  | String c s' => p c && all_chars p s'
  end.

Definition no_space : string -> bool := all_chars (fun c => negb (is_space c)).

Lemma trim_left_no_space s : no_space s = true -> trim_left s = s.
Proof. destruct s as [|c s]; [done|]. unfold no_space. simpl. by destruct (is_space c). Qed.

Lemma trim_right_no_space s : no_space s = true -> trim_right s = s.
Proof.
  unfold no_space. induction s as [|c s IH]; [done|]. simpl. intros [Hc Hs]%andb_prop.
  rewrite IH by done. destruct s; [|done]. by destruct (is_space c).
Qed.

Lemma trim_space_no_space s : no_space s = true -> trim_space s = s.
Proof. intros Hs. unfold trim_space. by rewrite trim_left_no_space, trim_right_no_space. Qed.

Lemma string_of_uint_no_space d : no_space (NilEmpty.string_of_uint d) = true.
Proof. induction d; done. Qed.

Lemma show_Z_no_space z : no_space (show_Z z) = true.
Proof.
  assert (H : forall d, no_space (NilZero.string_of_uint d) = true).
  { intros d. pose proof (string_of_uint_no_space d). by destruct d. }
  unfold show_Z. destruct (Z.to_int z); simpl; [apply H|]. unfold no_space in *. simpl. apply H.
Qed.

Lemma trim_show_Z z : trim_space (show_Z z) = show_Z z.
Proof. apply trim_space_no_space, show_Z_no_space. Qed.

Lemma show_Z_nonempty z : str_empty (show_Z z) = false.
Proof.
  unfold show_Z. destruct (Z.to_int z) as [d|d]; [|done]. by destruct d.
Qed.

Lemma digits_no_space s acc z : digits_val acc s = Some z -> no_space s = true.
Proof.
  unfold no_space. revert acc; induction s as [|c s IH]; intros acc; [done|]. simpl.
  destruct (is_digit c) eqn:Ec; [|done]. intros Hs. rewrite (IH _ Hs), andb_true_r.
  unfold is_digit in Ec. unfold is_space. destruct (byte_of c) as [|p|p]; [done| |done].
  apply andb_true_iff in Ec as [?%Z.leb_le ?%Z.leb_le].
  destruct (_ || _) eqn:E; [lia|done].
Qed.

Lemma parse_unsigned_no_space s z : parse_unsigned s = Some z -> no_space s = true.
Proof. unfold parse_unsigned. destruct s; [done|]. apply digits_no_space. Qed.

(** A string [SetString] accepts carries no blanks. *)
Lemma parse_decimal_no_space s z : parse_decimal s = Some z -> no_space s = true.
Proof.
  destruct s as [|c s]; [done|]. unfold parse_decimal.
  destruct (Ascii.eqb_spec c "-") as [->|Hm]; [|destruct (Ascii.eqb_spec c "+") as [->|Hp]].
  - intros (z' & Hz & _)%fmap_Some. unfold no_space in *. simpl.
    by apply parse_unsigned_no_space in Hz.
  - intros Hz. unfold no_space in *. simpl. by apply parse_unsigned_no_space in Hz.
  - intros Hz. apply (parse_unsigned_no_space _ z).
    destruct c as [[] [] [] [] [] [] [] []]; try exact Hz; congruence.
Qed.

Lemma parse_decimal_trim s z : parse_decimal s = Some z -> trim_space s = s.
Proof. intros H. apply trim_space_no_space. by eapply parse_decimal_no_space. Qed.

(** ** Sums over lists and maps *)

(** [z] when the condition holds, else nothing. *)
Definition when (b : bool) (z : Z) : Z := if b then z else 0.

Definition sum_of {A} (f : A -> Z) (l : list A) : Z := foldr (fun x acc => f x + acc) 0 l.

Section Sums.
Context {A : Type}.
Implicit Types (f g : A -> Z) (l : list A).

Lemma sum_of_app f l1 l2 : sum_of f (l1 ++ l2) = sum_of f l1 + sum_of f l2.
Proof. induction l1 as [|x l1 IH]; simpl; lia. Qed.

Lemma sum_of_ext f g l : (forall x, x ∈ l -> f x = g x) -> sum_of f l = sum_of g l.
Proof.
  induction l as [|x l IH]; intros Hfg; [done|]. simpl. rewrite Hfg by set_solver.
  by rewrite IH by (intros; apply Hfg; set_solver).
Qed.

Lemma sum_of_zero f l : (forall x, x ∈ l -> f x = 0) -> sum_of f l = 0.
Proof. induction l as [|x l IH]; intros Hz; [done|]. simpl. rewrite Hz, IH; set_solver. Qed.

Lemma sum_of_filter (p : A -> bool) f l :
  sum_of f l = sum_of f (filter (fun x => p x = true) l) + sum_of f (filter (fun x => p x = false) l).
Proof.
  induction l as [|x l IH]; [done|].
  destruct (p x) eqn:Ep.
  - rewrite (filter_cons_True (fun x => p x = true)) by done.
    rewrite (filter_cons_False (fun x => p x = false)) by congruence. simpl. lia.
  - rewrite (filter_cons_False (fun x => p x = true)) by congruence.
    rewrite (filter_cons_True (fun x => p x = false)) by done. simpl. lia.
Qed.

Lemma sum_of_add f g l : sum_of (fun x => f x + g x) l = sum_of f l + sum_of g l.
Proof. induction l as [|x l IH]; simpl; lia. Qed.

Lemma sum_of_opp f l : sum_of (fun x => - f x) l = - sum_of f l.
Proof. induction l as [|x l IH]; simpl; lia. Qed.

#[export] Instance sum_of_proper f : Proper ((≡ₚ) ==> (=)) (sum_of f).
Proof. intros l1 l2 HP. induction HP; simpl; lia. Qed.
End Sums.

Lemma sum_of_fmap {A B} (h : A -> B) (f : B -> Z) l : sum_of f (h <$> l) = sum_of (f ∘ h) l.
Proof. induction l as [|x l IH]; [done|]. csimpl. by rewrite IH. Qed.

Lemma sum_of_fmap_filter {A} (p : A -> bool) (f : A -> Z) l :
  sum_of f (filter (fun x => p x = true) l) = sum_of (fun x => when (p x) (f x)) l.
Proof.
  induction l as [|x l IH]; [done|]. simpl. destruct (p x) eqn:E.
  - rewrite filter_cons_True by done. simpl. by rewrite IH.
  - rewrite filter_cons_False by congruence. by rewrite IH.
Qed.

Section MapSums.
Context {V : Type}.

(** The sum of [f] over the values of a map. *)
Definition map_sum (f : V -> Z) (m : gmap nat V) : Z := sum_of (fun kv => f kv.2) (map_to_list m).

Lemma map_sum_insert_new f m i x : m !! i = None -> map_sum f (<[i := x]> m) = map_sum f m + f x.
Proof. intros Hm. unfold map_sum. rewrite map_to_list_insert by done. simpl. lia. Qed.

Lemma map_sum_delete f m i x : m !! i = Some x -> map_sum f (delete i m) = map_sum f m - f x.
Proof.
  intros Hm. rewrite <- (insert_delete_id m i x Hm) at 2.
  rewrite map_sum_insert_new by apply lookup_delete_eq. lia.
Qed.

Lemma map_sum_insert f m i x y :
  m !! i = Some x -> map_sum f (<[i := y]> m) = map_sum f m - f x + f y.
Proof.
  intros Hm. rewrite <- insert_delete_eq, map_sum_insert_new by apply lookup_delete_eq.
  by rewrite (map_sum_delete f m i x Hm).
Qed.

Lemma map_sum_nonneg f m : (forall x, 0 <= f x) -> 0 <= map_sum f m.
Proof.
  intros Hf. unfold map_sum. induction (map_to_list m) as [|[i x] l IH]; simpl; [lia|].
  pose proof (Hf x). lia.
Qed.

Lemma map_sum_pos f m i x : (forall x, 0 <= f x) -> m !! i = Some x -> 0 < f x -> 0 < map_sum f m.
Proof.
  intros Hf Hi Hx. pose proof (map_sum_delete f m i x Hi) as Hd.
  pose proof (map_sum_nonneg f (delete i m) Hf). lia.
Qed.

Lemma map_sum_zero_pos f m : (forall x, 0 <= f x) -> 0 < map_sum f m -> exists i x, m !! i = Some x /\ 0 < f x.
Proof.
  intros Hf Hp. unfold map_sum in Hp.
  assert (Hin : forall kv, kv ∈ map_to_list m -> m !! kv.1 = Some kv.2)
    by (intros [k v]; apply elem_of_map_to_list).
  induction (map_to_list m) as [|[i x] l IH]; simpl in Hp; [lia|].
  destruct (decide (0 < f x)); [exists i, x; split; [apply (Hin (i, x)); set_solver|done]|].
  apply IH; [pose proof (Hf x); lia|intros; apply Hin; set_solver].
Qed.
End MapSums.

(** ** Lower case and trimming *)

Lemma lower_ascii_idem c : lower_ascii (lower_ascii c) = lower_ascii c.
Proof. by destruct c as [[] [] [] [] [] [] [] []]. Qed.

Lemma is_space_lower c : is_space (lower_ascii c) = is_space c.
Proof. by destruct c as [[] [] [] [] [] [] [] []]. Qed.

Lemma to_lower_idem s : to_lower (to_lower s) = to_lower s.
Proof. induction s as [|c s IH]; [done|]. simpl. by rewrite lower_ascii_idem, IH. Qed.

Lemma to_lower_trim_left s : to_lower (trim_left s) = trim_left (to_lower s).
Proof. induction s as [|c s IH]; [done|]. simpl. rewrite is_space_lower. by destruct (is_space c). Qed.

Lemma to_lower_trim_right s : to_lower (trim_right s) = trim_right (to_lower s).
Proof.
  induction s as [|c s IH]; [done|]. simpl. rewrite is_space_lower, <- IH.
  destruct (trim_right s); simpl; by destruct (is_space c).
Qed.

Lemma to_lower_trim s : to_lower (trim_space s) = trim_space (to_lower s).
Proof. unfold trim_space. by rewrite to_lower_trim_right, to_lower_trim_left. Qed.

Lemma trim_left_idem s : trim_left (trim_left s) = trim_left s.
Proof. induction s as [|c s IH]; [done|]. simpl. destruct (is_space c) eqn:E; [done|]. simpl. by rewrite E. Qed.

Lemma trim_right_idem s : trim_right (trim_right s) = trim_right s.
Proof.
  induction s as [|c s IH]; [done|]. simpl. destruct (trim_right s) as [|c' s'] eqn:E.
  - destruct (is_space c) eqn:Ec; [done|]. simpl. by rewrite Ec.
  - change (trim_right (String c (String c' s'))) with
      (match trim_right (String c' s') with EmptyString => if is_space c then EmptyString else String c EmptyString
       | r => String c r end). by rewrite IH.
Qed.

Lemma trim_left_trim_right s : trim_left s = s -> trim_left (trim_right s) = trim_right s.
Proof.
  destruct s as [|c s]; [done|]. simpl. destruct (is_space c) eqn:E.
  - intros H. exfalso. assert (String.length (trim_left s) <= String.length s)%nat as Hle.
    { clear. induction s as [|c' s IH]; simpl; [lia|]. destruct (is_space c'); simpl; lia. }
    rewrite H in Hle. simpl in Hle. lia.
  - intros _. destruct (trim_right s); simpl; by rewrite E.
Qed.

Lemma trim_space_idem s : trim_space (trim_space s) = trim_space s.
Proof.
  unfold trim_space. rewrite (trim_left_trim_right (trim_left s)) by apply trim_left_idem.
  apply trim_right_idem.
Qed.

(** Lower case and trimmed: what the normalisers of the code leave. *)
Lemma lower_trim_idem s : trim_space (to_lower (trim_space (to_lower s))) = trim_space (to_lower s).
Proof. by rewrite to_lower_trim, to_lower_idem, trim_space_idem. Qed.

(** ** Hints: the normal forms of printed numbers, and results *)

Create HintDb go discriminated.
Create Rewrite HintDb go.
#[export] Hint Rewrite @parse_show @trim_show_Z @show_Z_nonempty : go.
#[export] Hint Resolve wrap64_range : go.

(** Splits a hypothesis that a chain of fallible calls succeeded. *)
Ltac inv_ok H :=
  lazymatch type of H with
  | rbind _ _ = Ok _ =>
      let a := fresh "a" in let Ha := fresh "Ha" in
      apply rbind_ok in H; destruct H as (a & Ha & H)
  end.
