(* ===== verification/Ordering.v ===== *)
(** * Orders: Go's [<] on strings, [sort.Strings], [sort.SliceStable] and [json.Marshal] of a string map

    Strings are ordered by their bytes.  The sort is a stable insertion sort, which equals
    every stable sort by the same order and every sort of elements with distinct keys.
    Comparisons composed lexicographically keep the laws of a total preorder. *)

From Stdlib Require Import ZArith String Ascii Lia.
From stdpp Require Import base option list strings gmap sorting.
From S2P Require Import Prelude.

Open Scope Z_scope.

(** ** Comparisons *)

(** A total preorder given by a three-way comparison. *)
Class TotalCompare {A} (cmp : A -> A -> comparison) : Prop := {
  cmp_sym : forall x y, cmp y x = CompOpp (cmp x y);
  cmp_le_trans : forall x y z, cmp x y <> Gt -> cmp y z <> Gt -> cmp x z <> Gt
}.

Definition is_lt (c : comparison) : bool := match c with Lt => true | _ => false end.
Definition is_gt (c : comparison) : bool := match c with Gt => true | _ => false end.

(** The second comparison decides when the first one does not. *)
Definition lex {A} (c1 c2 : A -> A -> comparison) (x y : A) : comparison :=
  match c1 x y with Eq => c2 x y | c => c end.

Definition on {A B} (f : A -> B) (cmp : B -> B -> comparison) (x y : A) : comparison := cmp (f x) (f y).

(** [false] before [true]. *)
Definition bool_compare (x y : bool) : comparison :=
  match x, y with false, true => Lt | true, false => Gt | _, _ => Eq end.

Section Laws.
Context {A : Type} (cmp : A -> A -> comparison) `{!TotalCompare cmp}.

Lemma cmp_refl x : cmp x x = Eq.
Proof. pose proof (cmp_sym (cmp:=cmp) x x) as H. by destruct (cmp x x). Qed.

Lemma cmp_gt_lt x y : cmp x y = Gt <-> cmp y x = Lt.
Proof. rewrite (cmp_sym (cmp:=cmp) x y). by destruct (cmp x y). Qed.

Lemma cmp_eq_sym x y : cmp x y = Eq -> cmp y x = Eq.
Proof. rewrite (cmp_sym (cmp:=cmp) x y). by intros ->. Qed.

Lemma cmp_eq_l x y z : cmp x y = Eq -> cmp x z = cmp y z.
Proof.
  intros Hxy. pose proof (cmp_eq_sym _ _ Hxy) as Hyx.
  assert (forall u v w, cmp u v = Eq -> cmp v u = Eq -> cmp u w <> Gt -> cmp v w <> Gt) as Hle.
  { intros u v w Huv Hvu Huw. apply (cmp_le_trans (cmp:=cmp) v u w); [by rewrite Hvu|done]. }
  assert (forall u v w, cmp u v = Eq -> cmp v u = Eq -> cmp w u <> Gt -> cmp w v <> Gt) as Hge.
  { intros u v w Huv Hvu Hwu. apply (cmp_le_trans (cmp:=cmp) w u v); [done|by rewrite Huv]. }
  pose proof (Hle x y z Hxy Hyx) as H1. pose proof (Hle y x z Hyx Hxy) as H2.
  pose proof (Hge x y z Hxy Hyx) as H3. pose proof (Hge y x z Hyx Hxy) as H4.
  rewrite (cmp_sym (cmp:=cmp) x z) in H3, H4. rewrite (cmp_sym (cmp:=cmp) y z) in H3, H4.
  destruct (cmp x z), (cmp y z); simpl in *; try done; exfalso; auto;
    solve [by apply H1|by apply H2|by apply H3|by apply H4].
Qed.

Lemma cmp_eq_r x y z : cmp y z = Eq -> cmp x z = cmp x y.
Proof.
  intros Hyz. rewrite (cmp_sym (cmp:=cmp) z x), (cmp_sym (cmp:=cmp) y x).
  by rewrite (cmp_eq_l y z x Hyz).
Qed.

Lemma cmp_eq_trans x y z : cmp x y = Eq -> cmp y z = Eq -> cmp x z = Eq.
Proof. intros Hxy <-. by apply cmp_eq_l. Qed.

Lemma cmp_lt_trans x y z : cmp x y = Lt -> cmp y z = Lt -> cmp x z = Lt.
Proof.
  intros Hxy Hyz. destruct (cmp x z) eqn:E; [|done|].
  - apply cmp_eq_sym in E. apply (cmp_eq_l _ _ y) in E. rewrite Hxy in E.
    apply cmp_gt_lt in Hyz. by rewrite E in Hyz.
  - by destruct (cmp_le_trans (cmp:=cmp) x y z); [rewrite Hxy|rewrite Hyz|].
Qed.
End Laws.

#[export] Instance lex_total {A} (c1 c2 : A -> A -> comparison) :
  TotalCompare c1 -> TotalCompare c2 -> TotalCompare (lex c1 c2).
Proof.
  intros H1 H2. split.
  - intros x y. unfold lex. rewrite (cmp_sym (cmp:=c1) x y). destruct (c1 x y) eqn:E; simpl; try done. by apply cmp_sym.
  - intros x y z. unfold lex. destruct (c1 x y) eqn:Exy; [|intros _|done].
    + rewrite (cmp_eq_l c1 x y z Exy). destruct (c1 y z); [by apply cmp_le_trans|done|done].
    + destruct (c1 y z) eqn:Eyz; [intros _|intros _|done].
      * by rewrite (cmp_eq_r c1 x y z Eyz), Exy.
      * by rewrite (cmp_lt_trans c1 x y z).
Qed.

#[export] Instance on_total {A B} (f : A -> B) (cmp : B -> B -> comparison) :
  TotalCompare cmp -> TotalCompare (on f cmp).
Proof. intros H. split; unfold on; intros; [by apply cmp_sym|by eapply cmp_le_trans]. Qed.

#[export] Instance Z_compare_total : TotalCompare Z.compare.
Proof. split; intros x y; [by rewrite Z.compare_antisym|]. intros z. rewrite !Z.compare_le_iff. lia. Qed.

#[export] Instance bool_compare_total : TotalCompare bool_compare.
Proof. split; [by intros [] []|by intros [] [] []]. Qed.

Lemma ascii_compare_sym a b : Ascii.compare b a = CompOpp (Ascii.compare a b).
Proof. unfold Ascii.compare. apply N.compare_antisym. Qed.

Lemma ascii_compare_eq a b : Ascii.compare a b = Eq -> a = b.
Proof.
  unfold Ascii.compare. intros H%N.compare_eq.
  by rewrite <- (ascii_N_embedding a), <- (ascii_N_embedding b), H.
Qed.

#[export] Instance String_compare_total : TotalCompare String.compare.
Proof.
  split; [intros; apply String.compare_antisym|].
  intros x. induction x as [|a x IH]; intros [|b y] [|c z]; simpl; try done.
  destruct (Ascii.compare a b) eqn:Eab; [|intros _|done].
  - apply ascii_compare_eq in Eab as ->. destruct (Ascii.compare b c); [by apply IH|done|done].
  - destruct (Ascii.compare b c) eqn:Ebc; [intros _|intros _|done].
    + apply ascii_compare_eq in Ebc as ->. by rewrite Eab.
    + assert (Ascii.compare a c = Lt) as ->; [|done]. unfold Ascii.compare in *.
      rewrite N.compare_lt_iff in *. lia.
Qed.

(** ** Stable sort *)

Section Sort.
Context {A : Type} (cmp : A -> A -> comparison).

Fixpoint insert_sorted (x : A) (l : list A) : list A :=
  match l with
  | [] => [x]
  | y :: l' => if is_lt (cmp y x) then y :: insert_sorted x l' else x :: l
  end.

Definition stable_sort (l : list A) : list A := foldr insert_sorted [] l.

Lemma insert_sorted_perm x l : insert_sorted x l ≡ₚ x :: l.
Proof. induction l as [|y l IH]; simpl; [done|]. destruct (is_lt _); [|done]. rewrite IH. constructor. Qed.

Lemma stable_sort_perm l : stable_sort l ≡ₚ l.
Proof. induction l as [|x l IH]; simpl; [done|]. by rewrite insert_sorted_perm, IH. Qed.

Context `{!TotalCompare cmp}.

Definition cmp_le (x y : A) : Prop := cmp x y <> Gt.
Definition cmp_lt (x y : A) : Prop := cmp x y = Lt.

Lemma insert_sorted_sorted x l : StronglySorted cmp_le l -> StronglySorted cmp_le (insert_sorted x l).
Proof.
  induction 1 as [|y l Hl IH Hy]; simpl; [repeat constructor|].
  destruct (cmp y x) eqn:E; simpl.
  2: { constructor; [done|]. rewrite insert_sorted_perm. constructor; [by unfold cmp_le; rewrite E|done]. }
  all: assert (cmp_le x y) as Hxy by (unfold cmp_le; rewrite (cmp_sym (cmp:=cmp) y x), E; done).
  all: constructor; [by constructor|]; constructor; [done|]; eapply Forall_impl; [exact Hy|]; intros z Hz;
    by eapply cmp_le_trans.
Qed.

Lemma stable_sort_sorted l : StronglySorted cmp_le (stable_sort l).
Proof. induction l as [|x l IH]; simpl; [constructor|by apply insert_sorted_sorted]. Qed.

(** Distinct under the comparison: the sort is strict. *)
Lemma sorted_strict l : StronglySorted cmp_le l -> (forall x y, x ∈ l -> y ∈ l -> cmp x y = Eq -> x = y) ->
  NoDup l -> StronglySorted cmp_lt l.
Proof.
  induction 1 as [|x l Hl IH Hx]; intros Heq Hnd; [constructor|].
  apply NoDup_cons in Hnd as [Hni Hnd]. constructor.
  - apply IH; [|done]. intros. apply Heq; [set_solver|set_solver|done].
  - rewrite Forall_forall in *. intros y Hy. specialize (Hx y Hy). unfold cmp_le, cmp_lt in *.
    destruct (cmp x y) eqn:E; [|done|done]. exfalso. apply Hni. rewrite (Heq x y); [done|set_solver|set_solver|done].
Qed.

(** A strictly sorted list is determined by its elements. *)
Lemma sorted_unique l1 l2 : StronglySorted cmp_lt l1 -> StronglySorted cmp_lt l2 -> l1 ≡ₚ l2 -> l1 = l2.
Proof.
  intros H1. revert l2. induction H1 as [|x l1 H1 IH Hx]; intros l2 H2 Hp.
  { by apply Permutation_nil in Hp. }
  destruct H2 as [|y l2 H2 Hy]; [by symmetry in Hp; apply Permutation_nil in Hp|].
  assert (x = y) as ->.
  { assert (x ∈ y :: l2) as Hxy by (rewrite <- Hp; set_solver).
    assert (y ∈ x :: l1) as Hyx by (rewrite Hp; set_solver).
    apply elem_of_cons in Hxy as [|Hxy]; [done|]. apply elem_of_cons in Hyx as [|Hyx]; [done|].
    rewrite Forall_forall in Hx, Hy. pose proof (Hx y Hyx) as E1. pose proof (Hy x Hxy) as E2.
    unfold cmp_lt in *. rewrite (cmp_sym (cmp:=cmp) x y), E1 in E2. done. }
  f_equal. apply IH; [done|]. by apply Permutation_cons_inv in Hp.
Qed.

Lemma stable_sort_unique l l' : l ≡ₚ l' -> StronglySorted cmp_lt l' -> stable_sort l = l'.
Proof.
  intros Hp H2. rewrite <- (stable_sort_perm l) in Hp. pose proof (stable_sort_sorted l) as H1. revert l' Hp H2.
  induction H1 as [|x l1 H1 IH Hx]; intros l2 Hp H2; [by apply Permutation_nil in Hp|].
  destruct H2 as [|y l2 H2 Hy]; [by symmetry in Hp; apply Permutation_nil in Hp|].
  assert (x = y) as ->.
  { assert (x ∈ y :: l2) as Hxy by (rewrite <- Hp; set_solver).
    assert (y ∈ x :: l1) as Hyx by (rewrite Hp; set_solver).
    apply elem_of_cons in Hxy as [|Hxy]; [done|]. apply elem_of_cons in Hyx as [|Hyx]; [done|].
    rewrite Forall_forall in Hx, Hy. pose proof (Hx y Hyx) as E1. pose proof (Hy x Hxy) as E2.
    unfold cmp_lt, cmp_le in *. by rewrite (cmp_sym (cmp:=cmp) y x), E2 in E1. }
  f_equal. apply IH; [|done]. by apply Permutation_cons_inv in Hp.
Qed.

Lemma stable_sort_id l : StronglySorted cmp_lt l -> stable_sort l = l.
Proof. by apply stable_sort_unique. Qed.
End Sort.

Lemma StronglySorted_sublist {A} (R : A -> A -> Prop) l l' :
  sublist l l' -> StronglySorted R l' -> StronglySorted R l.
Proof.
  induction 1 as [|x l l' Hs IH|x l l' Hs IH]; intros Hl; [done| |]; apply StronglySorted_cons in Hl as [Hx Hl].
  - constructor; [by apply IH|]. rewrite Forall_forall in Hx |- *. intros y Hy. apply Hx. eapply elem_of_submseteq; [exact Hy|by apply sublist_submseteq].
  - by apply IH.
Qed.

Lemma StronglySorted_reverse {A} (R : A -> A -> Prop) l :
  StronglySorted R l -> StronglySorted (fun x y => R y x) (reverse l).
Proof.
  induction 1 as [|x l Hl IH Hx]; [constructor|]. rewrite reverse_cons. apply StronglySorted_app.
  split; [|split; [done|repeat constructor]]. intros y z Hy Hz. rewrite elem_of_reverse in Hy.
  apply list_elem_of_singleton in Hz as ->. rewrite Forall_forall in Hx. exact (Hx y Hy).
Qed.

(** ** Strings *)

Definition str_ltb (x y : string) : bool := is_lt (String.compare x y).

(** [sort.Strings]. *)
Definition sort_strings : list string -> list string := stable_sort String.compare.

(** The entries of a map by ascending key. *)
Definition key_compare {A} : string * A -> string * A -> comparison := on fst String.compare.
Definition sorted_entries {A} (m : gmap string A) : list (string * A) := stable_sort key_compare (map_to_list m).
Definition sorted_keys {A} (m : gmap string A) : list string := (sorted_entries m).*1.
Definition sorted_values {A} (m : gmap string A) : list A := (sorted_entries m).*2.

#[export] Instance key_compare_total {A} : TotalCompare (@key_compare A).
Proof. apply _. Qed.

Definition str_lt : string -> string -> Prop := cmp_lt String.compare.

Lemma sorted_entries_elem {A} (m : gmap string A) k x : (k, x) ∈ sorted_entries m <-> m !! k = Some x.
Proof. unfold sorted_entries. by rewrite stable_sort_perm, elem_of_map_to_list. Qed.

Lemma sorted_entries_strict {A} (m : gmap string A) : StronglySorted (cmp_lt key_compare) (sorted_entries m).
Proof.
  apply sorted_strict; [apply _|apply stable_sort_sorted; apply _| |].
  - intros [k x] [k' x']. unfold key_compare, on. rewrite !sorted_entries_elem. simpl.
    intros H1 H2 E%String.compare_eq_iff. congruence.
  - unfold sorted_entries. rewrite stable_sort_perm. apply NoDup_map_to_list.
Qed.

Lemma StronglySorted_fmap {A B} (R : B -> B -> Prop) (f : A -> B) l :
  StronglySorted (fun x y => R (f x) (f y)) l -> StronglySorted R (f <$> l).
Proof. induction 1 as [|x l Hl IH Hx]; simpl; constructor; [done|]. by rewrite Forall_fmap. Qed.

Lemma sorted_keys_strict {A} (m : gmap string A) : StronglySorted str_lt (sorted_keys m).
Proof. apply StronglySorted_fmap, (sorted_entries_strict m). Qed.

Lemma sorted_values_elem {A} (m : gmap string A) x : x ∈ sorted_values m <-> exists k, m !! k = Some x.
Proof.
  unfold sorted_values. rewrite list_elem_of_fmap. split.
  - intros ([k y] & -> & Hk). exists k. by apply sorted_entries_elem.
  - intros [k Hk]. exists (k, x). by rewrite sorted_entries_elem.
Qed.

Lemma str_lt_irrefl s : ~ str_lt s s.
Proof. unfold str_lt, cmp_lt. by rewrite (cmp_refl String.compare). Qed.

Lemma str_sorted_NoDup l : StronglySorted str_lt l -> NoDup l.
Proof.
  induction 1 as [|x l Hl IH Hx]; constructor; [|done]. intros Hin. rewrite Forall_forall in Hx.
  by apply (str_lt_irrefl x), Hx.
Qed.

Lemma list_to_map_sorted_entries {A} (m : gmap string A) : list_to_map (sorted_entries m) = m.
Proof.
  rewrite <- (list_to_map_to_list m) at 2. apply list_to_map_proper; [|apply stable_sort_perm].
  apply (str_sorted_NoDup (sorted_entries m).*1), sorted_keys_strict.
Qed.

(** ** Comparisons the source writes as nested conditionals *)

Definition opposite {A} (cmp : A -> A -> comparison) (x y : A) : comparison := cmp y x.
#[global] Typeclasses Opaque opposite lex on.

#[export] Instance opposite_total {A} (cmp : A -> A -> comparison) : TotalCompare cmp -> TotalCompare (opposite cmp).
Proof.
  intros H. split; unfold opposite; [intros x y; by apply cmp_sym|intros x y z Hxy Hyz; by eapply cmp_le_trans].
Qed.

Lemma lex_string_gt (a b : string) (r : bool) (c : comparison) : r = is_gt c ->
  (if negb (String.eqb a b) then str_ltb b a else r) =
  is_gt (match String.compare a b with Eq => c | x => x end).
Proof.
  intros ->. unfold str_ltb. rewrite (cmp_sym (cmp:=String.compare) a b).
  destruct (String.eqb_spec a b) as [->|Hne]; simpl.
  - by rewrite (cmp_refl String.compare).
  - destruct (String.compare a b) eqn:E; [by apply String.compare_eq_iff in E|done|done].
Qed.

Lemma lex_Z_gt (a b : Z) (r : bool) (c : comparison) : r = is_gt c ->
  (if negb (a =? b) then b <? a else r) = is_gt (match Z.compare a b with Eq => c | x => x end).
Proof.
  intros ->. destruct (Z.eqb_spec a b) as [->|Hne]; simpl; [by rewrite Z.compare_refl|].
  destruct (Z.compare_spec a b); simpl; lia.
Qed.
