(* ===== verification/Json.v ===== *)
(** * Maps of strings as JSON: what the source uses of [encoding/json]

    [json.Marshal] of a [map[string]string] writes the keys in ascending order and escapes
    quotes, backslashes, control characters and the three HTML characters;
    [json.Unmarshal] into such a map reads an object of strings.  The strings are valid
    UTF-8 without U+2028 and U+2029, as the bytes from 0x80 on are copied.  Texts with
    other values than strings, which the pipeline never marshals, are not read. *)

From Stdlib Require Import ZArith String Ascii Lia.
From stdpp Require Import base option list strings gmap.
From S2P Require Import Prelude Ordering.

Open Scope Z_scope.

(** ** Characters *)

Definition chr (n : Z) : ascii := ascii_of_N (Z.to_N n).
Definition dquote : ascii := chr 34.
Definition backslash : ascii := chr 92.

Definition hex_lower (n : Z) : ascii := chr (if n <? 10 then 48 + n else 87 + n).

Definition hex_value (c : ascii) : option Z :=
  let b := byte_of c in
  if (48 <=? b) && (b <=? 57) then Some (b - 48)
  else if (97 <=? b) && (b <=? 102) then Some (b - 87)
  else if (65 <=? b) && (b <=? 70) then Some (b - 55)
  else None.

(** ** Marshal *)

Definition escape_char (c : ascii) : string :=
  let b := byte_of c in
  let esc x := String backslash (String x EmptyString) in
  if b =? 34 then esc dquote
  else if b =? 92 then esc backslash
  else if b =? 8 then esc (chr 98)
  else if b =? 12 then esc (chr 102)
  else if b =? 10 then esc (chr 110)
  else if b =? 13 then esc (chr 114)
  else if b =? 9 then esc (chr 116)
  else if (b <? 32) || (b =? 60) || (b =? 62) || (b =? 38)
       then String backslash (String (chr 117) (String (chr 48) (String (chr 48)
              (String (hex_lower (b / 16)) (String (hex_lower (b mod 16)) EmptyString)))))
  else String c EmptyString.

Fixpoint escape (s : string) : string :=
  match s with
  | EmptyString => EmptyString
  | String c s' => escape_char c +:+ escape s'
  end.

Definition quoted (s rest : string) : string := String dquote (escape s +:+ String dquote rest).

Definition member (kv : string * string) (rest : string) : string :=
  quoted kv.1 (String (chr 58) (quoted kv.2 rest)).

Fixpoint members (l : list (string * string)) : string :=
  match l with
  | [] => String (chr 125) EmptyString
  | [kv] => member kv (String (chr 125) EmptyString)
  | kv :: l' => member kv (String (chr 44) (members l'))
  end.

Definition json_object (l : list (string * string)) : string := String (chr 123) (members l).

(** [json.Marshal] of a map that is not nil. *)
Definition marshal_map (m : gmap string string) : string := json_object (sorted_entries m).

(** [json.Marshal] of a map that may be nil; the maps of the sidecar's messages are nil when
    they are empty. *)
Definition marshal_metadata (m : gmap string string) : string :=
  if decide (m = ∅) then "null" else marshal_map m.

(** ** Objects and arrays: [json.Marshal] of structs and slices *)

Definition json_field (name value : string) : string := quoted name (":" +:+ value)%string.
Definition json_str (v : string) : string := quoted v "".
Definition json_opt (v : option string) : string := match v with Some v => json_str v | None => "null" end.
Definition json_fields (l : list string) : string := ("{" +:+ String.concat "," l +:+ "}")%string.
Definition json_array {A} (f : A -> string) (l : list A) : string := ("[" +:+ String.concat "," (f <$> l) +:+ "]")%string.

(** A field with [omitempty]. *)
Definition json_omit (empty : bool) (name value : string) : list string := if empty then [] else [json_field name value].

(** ** Unmarshal *)

Definition is_json_space (c : ascii) : bool :=
  let b := byte_of c in (b =? 32) || (b =? 9) || (b =? 10) || (b =? 13).

Fixpoint skip_space (s : string) : string :=
  match s with
  | String c s' => if is_json_space c then skip_space s' else s
  | EmptyString => EmptyString
  end.

(** The UTF-8 bytes of a code point of the basic plane. *)
Definition utf8 (n : Z) : string :=
  if n <? 128 then String (chr n) EmptyString
  else if n <? 2048 then String (chr (192 + n / 64)) (String (chr (128 + n mod 64)) EmptyString)
  else String (chr (224 + n / 4096))
         (String (chr (128 + n / 64 mod 64)) (String (chr (128 + n mod 64)) EmptyString)).

Definition hex4 (a b c d : ascii) : option Z :=
  match hex_value a, hex_value b, hex_value c, hex_value d with
  | Some a, Some b, Some c, Some d =>
      let n := 4096 * a + 256 * b + 16 * c + d in
      if (55296 <=? n) && (n <? 57344) then None (* surrogates are not read *) else Some n
  | _, _, _, _ => None
  end.

Definition simple_escape (c : ascii) : option ascii :=
  let b := byte_of c in
  if (b =? 34) || (b =? 92) || (b =? 47) then Some c
  else if b =? 98 then Some (chr 8)
  else if b =? 102 then Some (chr 12)
  else if b =? 110 then Some (chr 10)
  else if b =? 114 then Some (chr 13)
  else if b =? 116 then Some (chr 9)
  else None.

Definition prepend (p : string) (r : option (string * string)) : option (string * string) :=
  match r with Some (s, rest) => Some (p +:+ s, rest) | None => None end.

(** A string after its opening quote: its value and what follows the closing quote. *)
Fixpoint parse_string (s : string) : option (string * string) :=
  match s with
  | EmptyString => None
  | String c s' =>
      if byte_of c =? 34 then Some (EmptyString, s')
      else if byte_of c =? 92 then
        match s' with
        | EmptyString => None
        | String e s'' =>
            if byte_of e =? 117 then
              match s'' with
              | String h1 (String h2 (String h3 (String h4 s''')))  =>
                  match hex4 h1 h2 h3 h4 with
                  | Some n => prepend (utf8 n) (parse_string s''')
                  | None => None
                  end
              | _ => None
              end
            else match simple_escape e with
                 | Some x => prepend (String x EmptyString) (parse_string s'')
                 | None => None
                 end
        end
      else if byte_of c <? 32 then None
      else prepend (String c EmptyString) (parse_string s')
  end.

Definition expect (b : Z) (s : string) : option string :=
  match skip_space s with
  | String c s' => if byte_of c =? b then Some s' else None
  | EmptyString => None
  end.

Definition parse_quoted (s : string) : option (string * string) :=
  match expect 34 s with Some s' => parse_string s' | None => None end.

Definition parse_member (s : string) : option (string * string * string) :=
  match parse_quoted s with
  | Some (k, s1) =>
      match expect 58 s1 with
      | Some s2 => match parse_quoted s2 with Some (v, s3) => Some (k, v, s3) | None => None end
      | None => None
      end
  | None => None
  end.

(** The members up to the closing brace; the fuel bounds their number. *)
Fixpoint parse_members (fuel : nat) (s : string) : option (list (string * string) * string) :=
  match fuel with
  | O => None
  | S fuel' =>
      match parse_member s with
      | Some (k, v, s1) =>
          match expect 44 s1 with
          | Some s2 =>
              match parse_members fuel' s2 with
              | Some (l, s3) => Some ((k, v) :: l, s3)
              | None => None
              end
          | None => match expect 125 s1 with Some s2 => Some ([(k, v)], s2) | None => None end
          end
      | None => None
      end
  end.

Definition parse_object (s : string) : option (list (string * string)) :=
  match expect 123 s with
  | None => None
  | Some s1 =>
      let body :=
        match expect 125 s1 with
        | Some s2 => Some ([], s2)
        | None => parse_members (String.length s1) s1
        end in
      match body with
      | Some (l, s2) => if str_empty (skip_space s2) then Some l else None
      | None => None
      end
  end.

(** [json.Unmarshal] into an empty map: a later member of a name wins; a text that is not
    an object leaves the map empty. *)
Definition unmarshal_map (s : string) : gmap string string :=
  match parse_object s with
  | Some l => foldl (fun m kv => <[kv.1 := kv.2]> m) ∅ l
  | None => ∅
  end.

(** ** Round trip *)

Lemma prepend_prepend a b r : prepend a (prepend b r) = prepend (a +:+ b) r.
Proof. destruct r as [[s rest]|]; simpl; [by rewrite append_assoc_string|done]. Qed.

Lemma parse_escape_char c t : parse_string (escape_char c +:+ t) = prepend (String c EmptyString) (parse_string t).
Proof. destruct c as [[] [] [] [] [] [] [] []]; reflexivity. Qed.

Lemma parse_escape s rest : parse_string (escape s +:+ String dquote rest) = Some (s, rest).
Proof.
  induction s as [|c s IH]; [done|]. cbn [escape]. rewrite append_assoc_string, parse_escape_char, IH. done.
Qed.

Lemma parse_quoted_quoted s rest : parse_quoted (quoted s rest) = Some (s, rest).
Proof. unfold parse_quoted, quoted. apply parse_escape. Qed.

Lemma parse_member_member kv rest : parse_member (member kv rest) = Some (kv.1, kv.2, rest).
Proof.
  unfold parse_member, member. rewrite parse_quoted_quoted.
  change (expect 58 (String (chr 58) (quoted kv.2 rest))) with (Some (quoted kv.2 rest)).
  cbv iota. by rewrite parse_quoted_quoted.
Qed.

Lemma parse_members_members l : l <> [] -> forall fuel, (length l <= fuel)%nat ->
  parse_members fuel (members l) = Some (l, EmptyString).
Proof.
  induction l as [|[k v] l IH]; [done|]. intros _ [|fuel] Hf; simpl in Hf; [lia|].
  destruct l as [|kv l].
  - cbn [members parse_members]. by rewrite parse_member_member.
  - change (members ((k, v) :: kv :: l)) with (member (k, v) (String (chr 44) (members (kv :: l)))).
    cbn [parse_members]. rewrite parse_member_member.
    change (expect 44 (String (chr 44) (members (kv :: l)))) with (Some (members (kv :: l))).
    cbv iota. rewrite IH; [done|done|simpl in *; lia].
Qed.

Lemma length_append_string (a b : string) : String.length (a +:+ b) = (String.length a + String.length b)%nat.
Proof. induction a as [|x a IH]; [done|]. change (S (String.length (a +:+ b)) = S (String.length a + String.length b)). by rewrite IH. Qed.

Lemma member_length kv rest : (S (String.length rest) <= String.length (member kv rest))%nat.
Proof.
  unfold member, quoted. cbn [String.length]. rewrite length_append_string. cbn [String.length].
  rewrite length_append_string. cbn [String.length]. lia.
Qed.

Lemma members_length l : (length l <= String.length (members l))%nat.
Proof.
  induction l as [|kv l IH]; [simpl; lia|]. destruct l as [|kv' l].
  - cbn [members length]. pose proof (member_length kv (String (chr 125) EmptyString)). cbn [String.length] in *. lia.
  - change (members (kv :: kv' :: l)) with (member kv (String (chr 44) (members (kv' :: l)))).
    pose proof (member_length kv (String (chr 44) (members (kv' :: l)))). cbn [String.length length] in *. lia.
Qed.

Lemma parse_json_object l : parse_object (json_object l) = Some l.
Proof.
  unfold parse_object, json_object.
  change (expect 123 (String (chr 123) (members l))) with (Some (members l)). cbv iota.
  destruct l as [|kv l]; [done|].
  assert (expect 125 (members (kv :: l)) = None) as ->.
  { destruct l; reflexivity. }
  rewrite parse_members_members; [done|done|apply members_length].
Qed.

Lemma foldl_insert_list_to_map (l : list (string * string)) (m : gmap string string) : NoDup l.*1 ->
  foldl (fun m kv => <[kv.1 := kv.2]> m) m l = list_to_map l ∪ m.
Proof.
  revert m. induction l as [|[k v] l IH]; intros m Hnd; simpl; [by rewrite (left_id_L ∅ (∪))|].
  apply NoDup_cons in Hnd as [Hk Hnd]. rewrite IH by done.
  rewrite <- insert_union_l, insert_union_r; [done|]. by apply not_elem_of_list_to_map_1.
Qed.

Lemma unmarshal_marshal m : unmarshal_map (marshal_map m) = m.
Proof.
  unfold unmarshal_map, marshal_map. rewrite parse_json_object, foldl_insert_list_to_map.
  - by rewrite list_to_map_sorted_entries, (right_id_L ∅ (∪)).
  - apply (str_sorted_NoDup (sorted_entries m).*1), sorted_keys_strict.
Qed.

Lemma unmarshal_metadata m : unmarshal_map (marshal_metadata m) = m.
Proof. unfold marshal_metadata. destruct (decide (m = ∅)) as [->|]; [reflexivity|apply unmarshal_marshal]. Qed.
