(* ===== verification/Retry.v ===== *)
(** * Error classification: [internal/pipeline/retry/retry.go]

    A Go error is a chain of wrappers that ends in a leaf.  [Classify] looks
    for typed errors anywhere in the chain ([errors.As], [errors.Is],
    [status.FromError]) and then at the text of the whole error. *)

From Stdlib Require Import ZArith String Lia.
From stdpp Require Import base option list strings.
From S2P Require Import Prelude.

Open Scope Z_scope.

Inductive Class_ := ClassTerminal | ClassTransient.

Record RetryDecision := { d_Class : Class_; d_Reason : string }.

Definition IsTransient (d : RetryDecision) : bool :=
  match d_Class d with ClassTransient => true | ClassTerminal => false end.

(** [google.golang.org/grpc/codes] *)
Inductive grpc_code :=
| OK | Canceled | Unknown | InvalidArgument | DeadlineExceeded | NotFound | AlreadyExists
| PermissionDenied | ResourceExhausted | FailedPrecondition | Aborted | OutOfRange
| Unimplemented | Internal | Unavailable | DataLoss | Unauthenticated.

Definition grpc_code_string (c : grpc_code) : string :=
  match c with
  | OK => "OK" | Canceled => "Canceled" | Unknown => "Unknown"
  | InvalidArgument => "InvalidArgument" | DeadlineExceeded => "DeadlineExceeded"
  | NotFound => "NotFound" | AlreadyExists => "AlreadyExists"
  | PermissionDenied => "PermissionDenied" | ResourceExhausted => "ResourceExhausted"
  | FailedPrecondition => "FailedPrecondition" | Aborted => "Aborted"
  | OutOfRange => "OutOfRange" | Unimplemented => "Unimplemented" | Internal => "Internal"
  | Unavailable => "Unavailable" | DataLoss => "DataLoss" | Unauthenticated => "Unauthenticated"
  end.

(** A chain of errors. [EWrap] is [fmt.Errorf("<text>: %w", err)], [EWrapf] is
    [fmt.Errorf("<text>%w", err)]. *)
Inductive go_error :=
| EMsg (text : string)
| ECanceled
| EDeadlineExceeded
| EGrpc (code : grpc_code) (text : string)
| ENet (timeout : bool) (text : string)
| ESolanaRPC (code : Z) (text : string)
| EBaseRPC (code : Z) (text : string)
| EClassified (class : Class_) (reason : string) (err : go_error)
| EWrap (text : string) (err : go_error)
| EWrapf (text : string) (err : go_error).

Fixpoint error_text (e : go_error) : string :=
  match e with
  | EMsg t => t
  | ECanceled => "context canceled"
  | EDeadlineExceeded => "context deadline exceeded"
  | EGrpc _ t | ENet _ t | ESolanaRPC _ t | EBaseRPC _ t => t
  | EClassified _ _ e' => error_text e'
  | EWrap t e' => t +:+ ": " +:+ error_text e'
  | EWrapf t e' => t +:+ error_text e'
  end.

(** The errors of a chain, outermost first. *)
Fixpoint chain_of (e : go_error) : list go_error :=
  e :: match e with
       | EClassified _ _ e' | EWrap _ e' | EWrapf _ e' => chain_of e'
       | _ => []
       end.

(** [errors.As]: the first error of the chain that the projection accepts. *)
Definition errors_as {A} (f : go_error -> option A) (e : go_error) : option A :=
  head (omap f (chain_of e)).

Definition as_classified (e : go_error) : option (Class_ * string) :=
  match e with EClassified c r _ => Some (c, r) | _ => None end.
Definition as_grpc (e : go_error) : option grpc_code :=
  match e with EGrpc c _ => Some c | _ => None end.
(** [context.deadlineExceededError] also implements [net.Error]; the chain is
    searched for it only after [errors.Is(err, DeadlineExceeded)] failed. *)
Definition as_net (e : go_error) : option bool :=
  match e with ENet t _ => Some t | EDeadlineExceeded => Some true | _ => None end.
Definition as_solana (e : go_error) : option Z :=
  match e with ESolanaRPC c _ => Some c | _ => None end.
Definition as_base (e : go_error) : option Z :=
  match e with EBaseRPC c _ => Some c | _ => None end.
Definition is_canceled (e : go_error) : bool :=
  existsb (fun x => match x with ECanceled => true | _ => false end) (chain_of e).
Definition is_deadline (e : go_error) : bool :=
  existsb (fun x => match x with EDeadlineExceeded => true | _ => false end) (chain_of e).

Definition Transient (err : option go_error) : option go_error :=
  EClassified ClassTransient "explicit_transient" <$> err.
Definition Terminal (err : option go_error) : option go_error :=
  EClassified ClassTerminal "explicit_terminal" <$> err.

Definition transientMessageTokens : list string :=
  ["timeout"; "timed out"; "temporar"; "temporary"; "unavailable"; "connection reset";
   "connection refused"; "broken pipe"; "econnreset"; "econnrefused"; "too many requests";
   "rate limit"; "payload too large"; "http status 429"; "http status 502"; "http status 503";
   "http status 504"; "server closed idle connection"].

Definition terminalMessageTokens : list string :=
  ["decode blocked"; "length mismatch"; "no decodable transactions"; "invalid argument";
   "invalid params"; "method not found"; "parse error"; "schema mismatch"; "execution reverted";
   "insufficient funds"; "not found"; "constraint violation"].

Definition containsAny : string -> list string -> bool := contains_any.

Definition transient (reason : string) : RetryDecision := {| d_Class := ClassTransient; d_Reason := reason |}.
Definition terminal (reason : string) : RetryDecision := {| d_Class := ClassTerminal; d_Reason := reason |}.

Definition classifyJSONRPCCode (code : Z) : RetryDecision :=
  if (code =? -32603) || (code =? -32005) then transient "jsonrpc_server_transient"
  else if (code <=? -32000) && (-32099 <=? code) then transient "jsonrpc_server_range"
  else terminal "jsonrpc_terminal".

Definition classify_grpc (c : grpc_code) : RetryDecision :=
  let reason := "grpc_" +:+ to_lower (grpc_code_string c) in
  match c with
  | Canceled => terminal "grpc_canceled"
  | Unavailable | DeadlineExceeded | ResourceExhausted | Aborted | Internal => transient reason
  | _ => terminal reason
  end.

Definition classify_text (err : go_error) : RetryDecision :=
  let lower := to_lower (error_text err) in
  if containsAny lower terminalMessageTokens then terminal "message_terminal"
  else if containsAny lower transientMessageTokens then transient "message_transient"
  else terminal "unknown_terminal_default".

Definition classify_rpc_or_text (err : go_error) : RetryDecision :=
  match errors_as as_solana err with
  | Some code => classifyJSONRPCCode code
  | None =>
      match errors_as as_base err with
      | Some code => classifyJSONRPCCode code
      | None => classify_text err
      end
  end.

Definition Classify (err : option go_error) : RetryDecision :=
  match err with
  | None => terminal "nil_error"
  | Some err =>
      match errors_as as_classified err with
      | Some (class, reason) => {| d_Class := class; d_Reason := reason |}
      | None =>
          if is_canceled err then terminal "context_canceled"
          else if is_deadline err then transient "context_deadline_exceeded"
          else match errors_as as_grpc err with
               | Some code => classify_grpc code
               | None =>
                   match errors_as as_net err with
                   | Some true => transient "net_timeout"
                   | _ => classify_rpc_or_text err
                   end
               end
      end
  end.

(** ** Lemmas *)

Lemma errors_as_wrap {A} (f : go_error -> option A) t e :
  f (EWrap t e) = None -> errors_as f (EWrap t e) = errors_as f e.
Proof. unfold errors_as. simpl. by intros ->. Qed.

Fixpoint wrap_all (ts : list string) (e : go_error) : go_error :=
  match ts with [] => e | t :: ts' => EWrap t (wrap_all ts' e) end.

Lemma errors_as_wrap_all {A} (f : go_error -> option A) ts e :
  (forall t e', f (EWrap t e') = None) -> errors_as f (wrap_all ts e) = errors_as f e.
Proof. intros Hf. induction ts as [|t ts IH]; [done|]. simpl. by rewrite errors_as_wrap. Qed.

(** Also: An explicit [Terminal] or [Transient] mark decides the class however
    many layers of [fmt.Errorf("...: %w")] are put around it, whatever the
    marked error itself would classify as and whatever the texts say; the
    outermost mark wins. *)
Theorem classify_mark_wins (ts : list string) (e : go_error) :
  (forall e', Terminal (Some e) = Some e' ->
     Classify (Some (wrap_all ts e')) = terminal "explicit_terminal") /\
  (forall e', Transient (Some e) = Some e' ->
     Classify (Some (wrap_all ts e')) = transient "explicit_transient").
Proof.
  split; intros e' [= <-]; unfold Classify; by rewrite errors_as_wrap_all.
Qed.
