(* ===== verification/ErrGroup.v ===== *)
(** * Groups of concurrent calls: how the adapters use [errgroup]

    [Group.Wait] waits for every call and returns the error that came first, if any; the
    results are written to their own slots.  The schedule that decides which error comes
    first is an argument. *)

From Stdlib Require Import List.
From stdpp Require Import base list.
From S2P Require Import Prelude Retry.

Fixpoint all_or_errors {A} (l : list (result go_error A)) : result (list go_error) (list A) :=
  match l with
  | [] => Ok []
  | r :: l' =>
      match r, all_or_errors l' with
      | Ok a, Ok as_ => Ok (a :: as_)
      | Ok _, Err es => Err es
      | Err e, Ok _ => Err [e]
      | Err e, Err es => Err (e :: es)
      end
  end.

Definition wait_all (first_error : list go_error -> go_error) {A} (l : list (result go_error A))
    : result go_error (list A) :=
  match all_or_errors l with Ok as_ => Ok as_ | Err es => Err (first_error es) end.

(** A group succeeds exactly when every call does, with the results in order. *)
Lemma all_or_errors_ok {A} (l : list (result go_error A)) as_ : all_or_errors l = Ok as_ <-> l = Ok <$> as_.
Proof.
  revert as_. induction l as [|r l IH]; intros as_; simpl.
  { destruct as_; simpl; split; congruence. }
  destruct as_ as [|a as_]; simpl.
  { destruct r, (all_or_errors l); split; congruence. }
  specialize (IH as_). destruct r as [x|e], (all_or_errors l) as [xs|es]; split; intros H; try congruence.
  - injection H as -> ->. f_equal. by apply IH.
  - injection H as -> H. f_equal. f_equal. apply IH in H. congruence.
  - injection H as -> H. apply IH in H. congruence.
Qed.

Lemma wait_all_ok first_error {A} (l : list (result go_error A)) as_ :
  wait_all first_error l = Ok as_ <-> l = Ok <$> as_.
Proof. rewrite <- all_or_errors_ok. unfold wait_all. destruct (all_or_errors l); split; congruence. Qed.

(** The error of a group is that of one of its calls, when the schedule picks one. *)
Lemma all_or_errors_err {A} (l : list (result go_error A)) es e : all_or_errors l = Err es -> e ∈ es -> Err e ∈ l.
Proof.
  revert es. induction l as [|r l IH]; intros es; simpl; [done|].
  destruct r as [x|e'], (all_or_errors l) as [xs|es']; intros [= <-] He.
  - apply list_elem_of_further. by eapply IH.
  - apply list_elem_of_singleton in He as ->. apply list_elem_of_here.
  - apply elem_of_cons in He as [->|He]; [apply list_elem_of_here|].
    apply list_elem_of_further. by eapply IH.
Qed.
