(* ===== verification/Domain.v ===== *)
(** * Domain model: [internal/domain/model] and [internal/domain/event]

    The named string types (chains, networks, statuses, token and activity
    types) stay strings, as in the source: every switch on them has a default
    branch that unknown values take.  Structs are records with the source's
    fields; [*string] is [option string], [json.RawMessage] is [option string]
    (nil or the raw bytes), [*time.Time] is [option Z] (nanoseconds), a UUID
    is the [N] of its 128 bits. *)

From Stdlib Require Import ZArith String.
From stdpp Require Import base option list strings.
From S2P Require Import Prelude.

Open Scope Z_scope.

Definition uuid : Type := N.
Definition raw_json : Type := option string.

(** ** Named string types *)

Definition Chain : Type := string.
Definition ChainSolana : Chain := "solana".
Definition ChainEthereum : Chain := "ethereum".
Definition ChainBase : Chain := "base".
Definition ChainBTC : Chain := "btc".
Definition ChainPolygon : Chain := "polygon".
Definition ChainArbitrum : Chain := "arbitrum".
Definition ChainBSC : Chain := "bsc".

Definition Network : Type := string.
Definition NetworkMainnet : Network := "mainnet".
Definition NetworkDevnet : Network := "devnet".
Definition NetworkTestnet : Network := "testnet".
Definition NetworkSepolia : Network := "sepolia".
Definition NetworkAmoy : Network := "amoy".

Definition TxStatus : Type := string.
Definition TxStatusSuccess : TxStatus := "SUCCESS".
Definition TxStatusFailed : TxStatus := "FAILED".

Definition TokenType : Type := string.
Definition TokenTypeNative : TokenType := "NATIVE".
Definition TokenTypeFungible : TokenType := "FUNGIBLE".
Definition TokenTypeNFT : TokenType := "NFT".

Definition EventCategory : Type := string.
Definition EventCategoryTransfer : EventCategory := "TRANSFER".
Definition EventCategoryStake : EventCategory := "STAKE".
Definition EventCategorySwap : EventCategory := "SWAP".
Definition EventCategoryMint : EventCategory := "MINT".
Definition EventCategoryBurn : EventCategory := "BURN".
Definition EventCategoryReward : EventCategory := "REWARD".
Definition EventCategoryFee : EventCategory := "FEE".
Definition EventCategoryFeeExecutionL2 : EventCategory := "fee_execution_l2".
Definition EventCategoryFeeDataL1 : EventCategory := "fee_data_l1".

Definition ActivityType : Type := string.
Definition ActivityDeposit : ActivityType := "DEPOSIT".
Definition ActivityWithdrawal : ActivityType := "WITHDRAWAL".
Definition ActivityStake : ActivityType := "STAKE".
Definition ActivityUnstake : ActivityType := "UNSTAKE".
Definition ActivityClaimReward : ActivityType := "CLAIM_REWARD".
Definition ActivityFee : ActivityType := "FEE".
Definition ActivityFeeExecutionL2 : ActivityType := "FEE_EXECUTION_L2".
Definition ActivityFeeDataL1 : ActivityType := "FEE_DATA_L1".
Definition ActivitySwap : ActivityType := "SWAP".
Definition ActivityMint : ActivityType := "MINT".
Definition ActivityBurn : ActivityType := "BURN".
Definition ActivityOther : ActivityType := "OTHER".
Definition ActivitySelfTransfer : ActivityType := "SELF_TRANSFER".

(** ** Stored rows *)

Record BalanceEvent := {
  be_Chain : Chain;
  be_Network : Network;
  be_TransactionID : uuid;
  be_TxHash : string;
  be_OuterInstructionIndex : Z;
  be_InnerInstructionIndex : Z;
  be_TokenID : uuid;
  be_ActivityType : ActivityType;
  be_EventAction : string;
  be_ProgramID : string;
  be_Address : string;
  be_CounterpartyAddress : string;
  be_Delta : string;
  be_BalanceBefore : option string;
  be_BalanceAfter : option string;
  be_WatchedAddress : option string;
  be_WalletID : option string;
  be_OrganizationID : option string;
  be_BlockCursor : Z;
  be_BlockTime : option Z;
  be_ChainData : raw_json;
  be_BalanceApplied : bool;
  be_EventID : string;
  be_BlockHash : string;
  be_TxIndex : Z;
  be_EventPath : string;
  be_EventPathType : string;
  be_ActorAddress : string;
  be_AssetType : string;
  be_AssetID : string;
  be_FinalityState : string;
  be_DecoderVersion : string;
  be_SchemaVersion : string
}.

Record Transaction := {
  tx_Chain : Chain;
  tx_Network : Network;
  tx_TxHash : string;
  tx_BlockCursor : Z;
  tx_BlockTime : option Z;
  tx_FeeAmount : string;
  tx_FeePayer : string;
  tx_Status : TxStatus;
  tx_Err : option string;
  tx_ChainData : raw_json;
  tx_BlockHash : string;
  tx_ParentHash : string
}.

Record Token := {
  tk_Chain : Chain;
  tk_Network : Network;
  tk_ContractAddress : string;
  tk_Symbol : string;
  tk_Name : string;
  tk_Decimals : Z;
  tk_TokenType : TokenType;
  tk_ChainData : raw_json
}.

Record IndexedBlock := {
  ib_Chain : Chain;
  ib_Network : Network;
  ib_BlockNumber : Z;
  ib_BlockHash : string;
  ib_ParentHash : string;
  ib_FinalityState : string;
  ib_BlockTime : option Z
}.

(** Identifier and clock columns left out. *)
Record WatchedAddress := {
  wa_Chain : Chain;
  wa_Network : Network;
  wa_Address : string;
  wa_WalletID : option string;
  wa_OrganizationID : option string;
  wa_Label : option string;
  wa_IsActive : bool;
  wa_Source : string;
  wa_BackfillFromBlock : option Z
}.

(** ** Pipeline events *)

Record NormalizedBalanceEvent := {
  nbe_OuterInstructionIndex : Z;
  nbe_InnerInstructionIndex : Z;
  nbe_ActivityType : ActivityType;
  nbe_EventAction : string;
  nbe_ProgramID : string;
  nbe_ContractAddress : string;
  nbe_Address : string;
  nbe_CounterpartyAddress : string;
  nbe_Delta : string;
  nbe_ChainData : raw_json;
  nbe_TokenSymbol : string;
  nbe_TokenName : string;
  nbe_TokenDecimals : Z;
  nbe_TokenType : TokenType;
  nbe_EventID : string;
  nbe_BlockHash : string;
  nbe_TxIndex : Z;
  nbe_EventPath : string;
  nbe_EventPathType : string;
  nbe_ActorAddress : string;
  nbe_AssetType : string;
  nbe_AssetID : string;
  nbe_FinalityState : string;
  nbe_DecoderVersion : string;
  nbe_SchemaVersion : string
}.

Record NormalizedTransaction := {
  ntx_TxHash : string;
  ntx_BlockCursor : Z;
  ntx_BlockTime : option Z;
  ntx_FeeAmount : string;
  ntx_FeePayer : string;
  ntx_Status : TxStatus;
  ntx_Err : option string;
  ntx_ChainData : raw_json;
  ntx_BlockHash : string;
  ntx_ParentHash : string;
  ntx_BalanceEvents : list NormalizedBalanceEvent
}.

Record NormalizedBatch := {
  nb_Chain : Chain;
  nb_Network : Network;
  nb_Address : string;
  nb_WalletID : option string;
  nb_OrgID : option string;
  nb_PreviousCursorValue : option string;
  nb_PreviousCursorSequence : Z;
  nb_Transactions : list NormalizedTransaction;
  nb_NewCursorValue : option string;
  nb_NewCursorSequence : Z;
  nb_BlockScanMode : bool;
  nb_WatchedAddresses : list string
}.

(** The fork point a reorg detector or an operator hands to the ingester. *)
Record ReorgEvent := {
  re_Chain : Chain;
  re_Network : Network;
  re_ForkBlockNumber : Z;
  re_ExpectedHash : string;
  re_ActualHash : string
}.

Record FinalityPromotion := {
  fp_Chain : Chain;
  fp_Network : Network;
  fp_NewFinalizedBlock : Z
}.

(** ** Activity classification ([activity_classifier.go]) *)

Definition deltaIsPositive (delta : string) : bool :=
  let trimmed := trim_space delta in
  if str_empty trimmed then false
  else match parse_decimal trimmed with
       | Some v => 0 <? v
       | None => false
       end.

Definition ClassifyActivity (category : EventCategory) (delta : string)
    (addressIsWatched : bool) : ActivityType :=
  if String.eqb category EventCategoryTransfer then
    if negb addressIsWatched then ActivityOther
    else if deltaIsPositive delta then ActivityDeposit
    else ActivityWithdrawal
  else if String.eqb category EventCategoryStake then
    if deltaIsPositive delta then ActivityUnstake else ActivityStake
  else if String.eqb category EventCategoryReward then ActivityClaimReward
  else if String.eqb category EventCategoryFee then ActivityFee
  else if String.eqb category EventCategoryFeeExecutionL2 then ActivityFeeExecutionL2
  else if String.eqb category EventCategoryFeeDataL1 then ActivityFeeDataL1
  else if String.eqb category EventCategorySwap then ActivitySwap
  else if String.eqb category EventCategoryMint then ActivityMint
  else if String.eqb category EventCategoryBurn then ActivityBurn
  else ActivityOther.
