(* ===== verification/Identity.v ===== *)
(** * Canonical identities: [internal/pipeline/identity/identity.go]

    Transaction hashes, cursors and addresses reach the pipeline in several
    spellings (mixed case, with or without a [0x] prefix).  The functions here
    map each to one canonical spelling, which the ingester uses as its key. *)

From Stdlib Require Import ZArith String Ascii Lia.
From stdpp Require Import base option list strings.
From S2P Require Import Prelude Domain.

Open Scope Z_scope.

Definition IsEVMChain (chainID : Chain) : bool :=
  str_in chainID [ChainBase; ChainEthereum; ChainPolygon; ChainArbitrum; ChainBSC].

Definition is_hex_char (c : ascii) : bool :=
  let b := byte_of c in
  ((48 <=? b) && (b <=? 57)) || ((97 <=? b) && (b <=? 102)) || ((65 <=? b) && (b <=? 70)).

Fixpoint IsHexString (v : string) : bool :=
  match v with
  | EmptyString => true
  | String c v' => is_hex_char c && IsHexString v'
  end.

(** [strings.TrimPrefix(strings.TrimPrefix(s, "0x"), "0X")] *)
Definition strip_0x (s : string) : string := trim_prefix (trim_prefix s "0x") "0X".

Definition CanonicalSignatureIdentity (chainID : Chain) (hash : string) : string :=
  let trimmed := trim_space hash in
  if str_empty trimmed then ""
  else if String.eqb chainID ChainBTC then
    let withoutPrefix := strip_0x trimmed in
    if str_empty withoutPrefix then "" else to_lower withoutPrefix
  else if negb (IsEVMChain chainID) then trimmed
  else
    let withoutPrefix := strip_0x trimmed in
    if str_empty withoutPrefix then ""
    else if IsHexString withoutPrefix then "0x" +:+ to_lower withoutPrefix
    else if has_prefix trimmed "0x" || has_prefix trimmed "0X"
         then "0x" +:+ to_lower withoutPrefix
    else trimmed.

Definition CanonicalizeCursorValue (chainID : Chain) (cursor : option string) : option string :=
  match cursor with
  | None => None
  | Some c =>
      let id := CanonicalSignatureIdentity chainID c in
      if str_empty id then None else Some id
  end.

Definition CanonicalAddressIdentity (chainID : Chain) (address : string) : string :=
  let trimmed := trim_space address in
  if str_empty trimmed then ""
  else if negb (IsEVMChain chainID) then trimmed
  else
    let withoutPrefix := strip_0x trimmed in
    if str_empty withoutPrefix then trimmed
    else if IsHexString withoutPrefix then "0x" +:+ to_lower withoutPrefix
    else if has_prefix trimmed "0x" || has_prefix trimmed "0X"
         then "0x" +:+ to_lower withoutPrefix
    else trimmed.

Definition NegateDecimalString (value : string) : result string string :=
  match parse_decimal value with
  | None => Err ("invalid decimal value: " +:+ value)
  | Some d => Ok (show_Z (- d))
  end.

Definition IsStakingActivity (activityType : ActivityType) : bool :=
  String.eqb activityType ActivityStake || String.eqb activityType ActivityUnstake.
