(* ===== verification/Store.v ===== *)
(** * The relational store: [internal/store/postgres]

    The tables the pipeline writes and the statements its repositories run on
    them.  A table is a finite map from its unique key to its row, or a list of
    rows where no column set is a total key ([balance_events], whose unique
    index covers non-empty [event_id]s only).  A repository method is a function
    from the tables to a [result]: the new tables (and the rows it returns) or
    the error PostgreSQL raises.  The clock columns ([created_at],
    [updated_at], [last_heartbeat_at]) are not modelled.

    What PostgreSQL leaves open is a parameter: [pick], which of several joined
    input rows an [UPDATE ... FROM] uses for one target row, and [gen_uuid],
    the stream of generated identifiers. *)

From Stdlib Require Import ZArith String Ascii Lia.
From stdpp Require Import base option list strings gmap fin_maps sorting.
From S2P Require Import Prelude Retry Domain Identity.

Open Scope Z_scope.
Open Scope go_scope.

(** ** SQL values and errors *)

Inductive sql_error :=
| InvalidNumeric        (* 22P02: text that is no number *)
| NumericOverflow       (* 22003: value outside numeric(78,0) *)
| UniqueViolation       (* 23505 *)
| CardinalityViolation  (* 21000: ON CONFLICT hits one row twice *)
| EventIDRequired       (* raised by UpsertTx before any query *)
| Fault (e : go_error). (* connection, timeout, cancelled context, ... *)

(** [text::numeric] on the integers the pipeline writes; the fractional and
    exponent forms PostgreSQL also accepts do not occur, since every amount is
    checked with [big.Int.SetString] before it is written. *)
Definition pg_numeric (s : string) : result sql_error Z :=
  match parse_decimal (trim_space s) with
  | Some z => Ok z
  | None => Err InvalidNumeric
  end.

(** The range check of a [numeric(78,0)] column. *)
Definition numeric78 (z : Z) : result sql_error Z :=
  if Z.abs z <? 10 ^ 78 then Ok z else Err NumericOverflow.

(** SQL [TRIM], which removes spaces only. *)
Fixpoint pg_trim_left (s : string) : string :=
  match s with
  | String " " s' => pg_trim_left s'
  | _ => s
  end.
Fixpoint pg_trim_right (s : string) : string :=
  match s with
  | EmptyString => EmptyString
  | String c s' =>
      match pg_trim_right s' with
      | EmptyString => if Ascii.eqb c " " then EmptyString else String c EmptyString
      | r => String c r
      end
  end.
Definition pg_trim (s : string) : string := pg_trim_right (pg_trim_left s).

(** The SQL function of migration 020. *)
Definition finality_rank (state : string) : Z :=
  let s := to_lower (pg_trim state) in
  if String.eqb s "finalized" then 4
  else if String.eqb s "safe" then 3
  else if String.eqb s "confirmed" then 2
  else if String.eqb s "pending" then 1
  else 0.

(** ** Repository argument types ([store/repository.go]) *)

Record BulkAdjustItem := {
  ba_Address : string;
  ba_TokenID : uuid;
  ba_WalletID : option string;
  ba_OrgID : option string;
  ba_Delta : string;
  ba_Cursor : Z;
  ba_TxHash : string;
  ba_BalanceType : string
}.

(** The unique key of [balances]: chain, network, address, token, type. *)
Definition balance_pk : Type := Chain * Network * string * uuid * string.

(** [store.BalanceKey], the part of it below one chain and network. *)
Definition BalanceKey : Type := string * uuid * string.

Definition pk_of (chain : Chain) (network : Network) (bk : BalanceKey) : balance_pk :=
  let '(address, tokenID, balanceType) := bk in
  (chain, network, address, tokenID, balanceType).

Definition ba_key (i : BulkAdjustItem) : BalanceKey :=
  (ba_Address i, ba_TokenID i, ba_BalanceType i).

Record balance_row := {
  bal_wallet_id : option string;
  bal_organization_id : option string;
  bal_amount : Z;
  bal_last_updated_cursor : Z;
  bal_last_updated_tx_hash : string
}.

Definition balances : Type := gmap balance_pk balance_row.

(** ** BalanceRepo *)

Module BalanceRepo.

(** [amount = b.amount + delta], [GREATEST] of the cursors, the new tx hash. *)
Definition adjust_row (row : balance_row) (delta cursor : Z) (txHash : string)
    : result sql_error balance_row :=
  let! amount := numeric78 (bal_amount row + delta) in
  Ok {| bal_wallet_id := bal_wallet_id row;
        bal_organization_id := bal_organization_id row;
        bal_amount := amount;
        bal_last_updated_cursor := Z.max (bal_last_updated_cursor row) cursor;
        bal_last_updated_tx_hash := txHash |}.

Definition new_row (i : BulkAdjustItem) (delta : Z) : result sql_error balance_row :=
  let! amount := numeric78 delta in
  Ok {| bal_wallet_id := ba_WalletID i;
        bal_organization_id := ba_OrgID i;
        bal_amount := amount;
        bal_last_updated_cursor := ba_Cursor i;
        bal_last_updated_tx_hash := ba_TxHash i |}.

(** One [INSERT ... ON CONFLICT (chain, network, address, token_id,
    balance_type) DO UPDATE]. *)
Definition AdjustBalanceTx (chain : Chain) (network : Network) (t : gmap balance_pk balance_row)
    (req : BulkAdjustItem) : result sql_error (gmap balance_pk balance_row) :=
  let! delta := pg_numeric (ba_Delta req) in
  let key := pk_of chain network (ba_key req) in
  match t !! key with
  | Some row =>
      let! row' := adjust_row row delta (ba_Cursor req) (ba_TxHash req) in
      Ok (<[key := row']> t)
  | None =>
      let! row' := new_row req delta in
      Ok (<[key := row']> t)
  end.

Section BulkAdjust.
(** Which of the joined input rows the [UPDATE] uses for a target row.
    PostgreSQL: "only one of the join rows will be used to update the target
    row, but which one will be used is not readily predictable". *)
Variable pick : BulkAdjustItem -> list BulkAdjustItem -> BulkAdjustItem.

(** The input rows that join a balance row. *)
Definition joined (chain : Chain) (network : Network) (items : list BulkAdjustItem)
    (key : balance_pk) : list BulkAdjustItem :=
  filter (fun i => pk_of chain network (ba_key i) = key) items.

(** CTE [updated]: every balance row that joins some input row is updated
    once.  The keys are those of the input rows, each visited once. *)
Definition update_one (chain : Chain) (network : Network) (items : list BulkAdjustItem)
    (t : gmap balance_pk balance_row) (key : balance_pk)
    : result sql_error (gmap balance_pk balance_row) :=
  match t !! key, joined chain network items key with
  | Some row, i :: rest =>
      let j := pick i rest in
      let! delta := pg_numeric (ba_Delta j) in
      let! row' := adjust_row row delta (ba_Cursor j) (ba_TxHash j) in
      Ok (<[key := row']> t)
  | _, _ => Ok t
  end.

(** The [INSERT ... SELECT] of the input rows no updated row joins. *)
Definition insert_one (chain : Chain) (network : Network)
    (snapshot t : gmap balance_pk balance_row) (i : BulkAdjustItem)
    : result sql_error (gmap balance_pk balance_row) :=
  let key := pk_of chain network (ba_key i) in
  match snapshot !! key with
  | Some _ => Ok t
  | None =>
      match t !! key with
      | Some _ => Err UniqueViolation
      | None =>
          let! delta := pg_numeric (ba_Delta i) in
          let! row := new_row i delta in
          Ok (<[key := row]> t)
      end
  end.

(** [$7::numeric[]] is cast before the statement runs. *)
Definition cast_deltas (items : list BulkAdjustItem) : result sql_error unit :=
  rfoldl (fun _ i => let! _ := pg_numeric (ba_Delta i) in Ok tt) tt items.

Definition BulkAdjustBalanceTx (chain : Chain) (network : Network)
    (t : gmap balance_pk balance_row) (items : list BulkAdjustItem)
    : result sql_error (gmap balance_pk balance_row) :=
  match items with
  | [] => Ok t
  | _ =>
      let! _ := cast_deltas items in
      let keys := remove_dups ((fun i => pk_of chain network (ba_key i)) <$> items) in
      let! updated := rfoldl (update_one chain network items) t keys in
      rfoldl (insert_one chain network t) updated items
  end.
End BulkAdjust.

(** The balance of a key that has no row reads as 0, and as not existing. *)
Definition BulkGetAmountWithExistsTx (chain : Chain) (network : Network)
    (t : gmap balance_pk balance_row) (keys : list BalanceKey)
    : gmap BalanceKey (string * bool) :=
  foldl (fun m k =>
    <[k := match t !! pk_of chain network k with
           | Some row =>
               let trimmed := trim_space (show_Z (bal_amount row)) in
               (if str_empty trimmed then "0" else trimmed, true)
           | None => ("0", false)
           end]> m) ∅ keys.

End BalanceRepo.

(** ** BalanceEventRepo

    A stored event is its identifier and its columns.  [block_time] is never
    null ([coalesceBlockTime]); the numeric columns hold canonical decimal
    text, which is what the driver scans back into a Go string. *)

Record event_row := {
  ev_id : uuid;
  ev_cols : BalanceEvent
}.

(** The mutable state of the tables, and the position in the identifier
    stream. *)
Record db := {
  db_balances : gmap balance_pk balance_row;
  db_events : list event_row;
  db_watermarks : gmap (Chain * Network) Z;
  db_blocks : gmap (Chain * Network * Z) IndexedBlock;
  db_transactions : gmap (Chain * Network * string) (uuid * Transaction);
  db_tokens : gmap (Chain * Network * string) (uuid * Token * bool);
  db_deny_log : list (uuid * string * string);
  db_next_uuid : nat
}.

Definition set_balances (b : gmap balance_pk balance_row) (d : db) : db :=
  {| db_balances := b; db_events := db_events d; db_watermarks := db_watermarks d;
     db_blocks := db_blocks d; db_transactions := db_transactions d;
     db_tokens := db_tokens d; db_deny_log := db_deny_log d; db_next_uuid := db_next_uuid d |}.
Definition set_events (e : list event_row) (n : nat) (d : db) : db :=
  {| db_balances := db_balances d; db_events := e; db_watermarks := db_watermarks d;
     db_blocks := db_blocks d; db_transactions := db_transactions d;
     db_tokens := db_tokens d; db_deny_log := db_deny_log d; db_next_uuid := n |}.
Definition set_watermarks (w : gmap (Chain * Network) Z) (d : db) : db :=
  {| db_balances := db_balances d; db_events := db_events d; db_watermarks := w;
     db_blocks := db_blocks d; db_transactions := db_transactions d;
     db_tokens := db_tokens d; db_deny_log := db_deny_log d; db_next_uuid := db_next_uuid d |}.
Definition set_blocks (b : gmap (Chain * Network * Z) IndexedBlock) (d : db) : db :=
  {| db_balances := db_balances d; db_events := db_events d; db_watermarks := db_watermarks d;
     db_blocks := b; db_transactions := db_transactions d;
     db_tokens := db_tokens d; db_deny_log := db_deny_log d; db_next_uuid := db_next_uuid d |}.
Definition set_transactions (t : gmap (Chain * Network * string) (uuid * Transaction)) (n : nat)
    (d : db) : db :=
  {| db_balances := db_balances d; db_events := db_events d; db_watermarks := db_watermarks d;
     db_blocks := db_blocks d; db_transactions := t;
     db_tokens := db_tokens d; db_deny_log := db_deny_log d; db_next_uuid := n |}.
Definition set_tokens (t : gmap (Chain * Network * string) (uuid * Token * bool)) (n : nat)
    (log : list (uuid * string * string)) (d : db) : db :=
  {| db_balances := db_balances d; db_events := db_events d; db_watermarks := db_watermarks d;
     db_blocks := db_blocks d; db_transactions := db_transactions d;
     db_tokens := t; db_deny_log := log; db_next_uuid := n |}.

Module BalanceEventRepo.
Section Repo.
(** [gen_random_uuid()] and the clock of [coalesceBlockTime]. *)
Variable gen_uuid : nat -> uuid.
Variable now : Z.

Definition smallBatchThreshold : nat := 5.
Definition bulkChunkSize : nat := 1500.

Definition coalesceBlockTime (blockTime : option Z) : Z := default now blockTime.

Definition pg_numeric_opt (o : option string) : result sql_error (option string) :=
  match o with
  | None => Ok None
  | Some s => let! z := pg_numeric s in let! z' := numeric78 z in Ok (Some (show_Z z'))
  end.

(** The values a row is inserted with. *)
Definition insert_values (be : BalanceEvent) : result sql_error BalanceEvent :=
  let! delta := pg_numeric (be_Delta be) in
  let! delta := numeric78 delta in
  let! before := pg_numeric_opt (be_BalanceBefore be) in
  let! after := pg_numeric_opt (be_BalanceAfter be) in
  Ok {| be_Chain := be_Chain be; be_Network := be_Network be;
        be_TransactionID := be_TransactionID be; be_TxHash := be_TxHash be;
        be_OuterInstructionIndex := be_OuterInstructionIndex be;
        be_InnerInstructionIndex := be_InnerInstructionIndex be;
        be_TokenID := be_TokenID be; be_ActivityType := be_ActivityType be;
        be_EventAction := be_EventAction be; be_ProgramID := be_ProgramID be;
        be_Address := be_Address be; be_CounterpartyAddress := be_CounterpartyAddress be;
        be_Delta := show_Z delta; be_BalanceBefore := before; be_BalanceAfter := after;
        be_WatchedAddress := be_WatchedAddress be; be_WalletID := be_WalletID be;
        be_OrganizationID := be_OrganizationID be; be_BlockCursor := be_BlockCursor be;
        be_BlockTime := Some (coalesceBlockTime (be_BlockTime be));
        be_ChainData := be_ChainData be; be_BalanceApplied := be_BalanceApplied be;
        be_EventID := be_EventID be; be_BlockHash := be_BlockHash be;
        be_TxIndex := be_TxIndex be; be_EventPath := be_EventPath be;
        be_EventPathType := be_EventPathType be; be_ActorAddress := be_ActorAddress be;
        be_AssetType := be_AssetType be; be_AssetID := be_AssetID be;
        be_FinalityState := be_FinalityState be; be_DecoderVersion := be_DecoderVersion be;
        be_SchemaVersion := be_SchemaVersion be |}.

(** [COALESCE(NULLIF(new, ''), old)] *)
Definition coalesce_nonempty (new old : string) : string := if str_empty new then old else new.

(** The [DO UPDATE SET] clause, [new] being [EXCLUDED]. *)
Definition merge_event (old new : BalanceEvent) : BalanceEvent :=
  {| be_Chain := be_Chain old; be_Network := be_Network old;
     be_TransactionID := be_TransactionID old; be_TxHash := be_TxHash old;
     be_OuterInstructionIndex := be_OuterInstructionIndex old;
     be_InnerInstructionIndex := be_InnerInstructionIndex old;
     be_TokenID := be_TokenID old; be_ActivityType := be_ActivityType old;
     be_EventAction := be_EventAction old; be_ProgramID := be_ProgramID old;
     be_Address := be_Address old; be_CounterpartyAddress := be_CounterpartyAddress old;
     be_Delta := be_Delta old; be_BalanceBefore := be_BalanceBefore old;
     be_BalanceAfter := be_BalanceAfter old; be_WatchedAddress := be_WatchedAddress old;
     be_WalletID := be_WalletID old; be_OrganizationID := be_OrganizationID old;
     be_BlockCursor := Z.max (be_BlockCursor old) (be_BlockCursor new);
     be_BlockTime := Some (Z.max (default 0 (be_BlockTime old))
                                 (default (default 0 (be_BlockTime old)) (be_BlockTime new)));
     be_ChainData := match be_ChainData new with Some j => Some j | None => be_ChainData old end;
     be_BalanceApplied :=
       if be_BalanceApplied new && negb (be_BalanceApplied old) then true
       else be_BalanceApplied old;
     be_EventID := be_EventID old;
     be_BlockHash := coalesce_nonempty (be_BlockHash new) (be_BlockHash old);
     be_TxIndex := if be_TxIndex new =? 0 then be_TxIndex old else be_TxIndex new;
     be_EventPath := be_EventPath old; be_EventPathType := be_EventPathType old;
     be_ActorAddress := be_ActorAddress old; be_AssetType := be_AssetType old;
     be_AssetID := be_AssetID old; be_FinalityState := be_FinalityState new;
     be_DecoderVersion := coalesce_nonempty (be_DecoderVersion new) (be_DecoderVersion old);
     be_SchemaVersion := coalesce_nonempty (be_SchemaVersion new) (be_SchemaVersion old) |}.

(** The row a new event conflicts with: the unique index covers non-empty
    [event_id]s. *)
Definition conflicts (be : BalanceEvent) (r : event_row) : bool :=
  negb (str_empty (be_EventID be)) && String.eqb (be_EventID (ev_cols r)) (be_EventID be).

Definition find_conflict (rows : list event_row) (be : BalanceEvent) : option event_row :=
  head (filter (fun r => conflicts be r = true) rows).

(** The [WHERE] of the [DO UPDATE]. *)
Definition finality_not_lower (old new : BalanceEvent) : bool :=
  finality_rank (be_FinalityState old) <=? finality_rank (be_FinalityState new).

Definition update_conflict (new : BalanceEvent) (r : event_row) : event_row :=
  if conflicts new r then
    if finality_not_lower (ev_cols r) new
    then {| ev_id := ev_id r; ev_cols := merge_event (ev_cols r) new |}
    else r
  else r.

(** What [RETURNING] yields for one row: nothing when the [WHERE] rejects
    the update, else whether it was inserted, and [balance_applied] before
    and after. *)
Definition upsert_row (st : list event_row * nat) (be : BalanceEvent)
    : result sql_error ((list event_row * nat) * option (bool * bool * bool)) :=
  let '(rows, n) := st in
  let! v := insert_values be in
  match find_conflict rows v with
  | None => Ok ((rows ++ [{| ev_id := gen_uuid n; ev_cols := v |}], S n),
                Some (true, false, be_BalanceApplied v))
  | Some r =>
      if finality_not_lower (ev_cols r) v
      then Ok ((update_conflict v <$> rows, n),
               Some (false, be_BalanceApplied (ev_cols r),
                     be_BalanceApplied (merge_event (ev_cols r) v)))
      else Ok ((rows, n), None)
  end.

Record UpsertResult := { ur_Inserted : bool; ur_FinalityCrossed : bool }.

Definition UpsertTx (d : db) (be : BalanceEvent) : result sql_error (db * UpsertResult) :=
  if str_empty (be_EventID be) then Err EventIDRequired
  else
    let existing := find_conflict (db_events d) be in
    let! '((rows, n), returned) := upsert_row (db_events d, db_next_uuid d) be in
    Ok (set_events rows n d,
        match returned with
        | None => {| ur_Inserted := false; ur_FinalityCrossed := false |}
        | Some (true, _, _) => {| ur_Inserted := true; ur_FinalityCrossed := false |}
        | Some (false, _, _) =>
            {| ur_Inserted := false;
               ur_FinalityCrossed :=
                 match existing with
                 | Some r => negb (be_BalanceApplied (ev_cols r)) && be_BalanceApplied be
                 | None => false
                 end |}
        end).

(** One multi-row [INSERT ... ON CONFLICT DO UPDATE].  PostgreSQL refuses a
    statement that would touch one row twice. *)
Definition nonempty_ids (evs : list BalanceEvent) : list string :=
  filter (fun e => negb (str_empty e) = true) (be_EventID <$> evs).

Fixpoint upsert_rows (st : list event_row * nat) (evs : list BalanceEvent)
    : result sql_error ((list event_row * nat) * list (bool * bool * bool)) :=
  match evs with
  | [] => Ok (st, [])
  | be :: evs' =>
      let! '(st', returned) := upsert_row st be in
      let! '(st'', rest) := upsert_rows st' evs' in
      Ok (st'', match returned with Some x => x :: rest | None => rest end)
  end.

Definition upsert_statement (st : list event_row * nat) (evs : list BalanceEvent)
    : result sql_error ((list event_row * nat) * list (bool * bool * bool)) :=
  if bool_decide (NoDup (nonempty_ids evs)) then upsert_rows st evs
  else Err CardinalityViolation.

Definition count_inserted (returned : list (bool * bool * bool)) : Z :=
  Z.of_nat (length (filter (fun '(inserted, _, _) => inserted = true) returned)).
Definition count_crossed (returned : list (bool * bool * bool)) : Z :=
  Z.of_nat (length (filter (fun '(inserted, was, nowApplied) =>
    negb inserted && negb was && nowApplied = true) returned)).

Record BulkUpsertEventResult := { bu_InsertedCount : Z; bu_FinalityCrossedCount : Z }.

Definition bulkUpsertPerEvent (st : list event_row * nat) (evs : list BalanceEvent)
    : result sql_error ((list event_row * nat) * BulkUpsertEventResult) :=
  match evs with
  | [] => Ok (st, {| bu_InsertedCount := 0; bu_FinalityCrossedCount := 0 |})
  | _ =>
      let! '(st', returned) := upsert_statement st evs in
      Ok (st', {| bu_InsertedCount := count_inserted returned;
                  bu_FinalityCrossedCount := count_crossed returned |})
  end.

Definition execBulkChunk (st : list event_row * nat) (chunk : list BalanceEvent)
    : result sql_error ((list event_row * nat) * Z) :=
  let! '(st', returned) := upsert_statement st chunk in
  Ok (st', count_inserted returned).

(** The chunk loop, bounded by the number of chunks. *)
Fixpoint chunk_loop (fuel : nat) (st : list event_row * nat) (evs : list BalanceEvent) (acc : Z)
    : result sql_error ((list event_row * nat) * Z) :=
  match fuel with
  | O => Ok (st, acc)
  | S fuel' =>
      match evs with
      | [] => Ok (st, acc)
      | _ =>
          let! '(st', inserted) := execBulkChunk st (take bulkChunkSize evs) in
          chunk_loop fuel' st' (drop bulkChunkSize evs) (acc + inserted)
      end
  end.

Definition bulkUpsertMultiValues (st : list event_row * nat) (evs : list BalanceEvent)
    : result sql_error ((list event_row * nat) * BulkUpsertEventResult) :=
  let! '(st', inserted) := chunk_loop (length evs) st evs 0 in
  Ok (st', {| bu_InsertedCount := inserted; bu_FinalityCrossedCount := 0 |}).

Definition BulkUpsertTx (d : db) (evs : list BalanceEvent)
    : result sql_error (db * BulkUpsertEventResult) :=
  let st := (db_events d, db_next_uuid d) in
  let! '((rows, n), res) :=
    match evs with
    | [] => Ok (st, {| bu_InsertedCount := 0; bu_FinalityCrossedCount := 0 |})
    | _ => if (length evs <=? smallBatchThreshold)%nat
           then bulkUpsertPerEvent st evs
           else bulkUpsertMultiValues st evs
    end in
  Ok (set_events rows n d, res).
End Repo.
End BalanceEventRepo.

(** ** WatermarkRepo *)

Module WatermarkRepo.

Definition GetWatermark (d : db) (chain : Chain) (network : Network) : option Z :=
  db_watermarks d !! (chain, network).

Definition UpdateWatermarkTx (d : db) (chain : Chain) (network : Network)
    (ingestedSequence : Z) : db :=
  let v := match db_watermarks d !! (chain, network) with
           | Some old => Z.max old ingestedSequence
           | None => ingestedSequence
           end in
  set_watermarks (<[(chain, network) := v]> (db_watermarks d)) d.

Definition RewindWatermarkTx (d : db) (chain : Chain) (network : Network)
    (ingestedSequence : Z) : db :=
  set_watermarks (<[(chain, network) := ingestedSequence]> (db_watermarks d)) d.

End WatermarkRepo.

(** ** IndexedBlockRepo *)

Module IndexedBlockRepo.

Definition block_pk (b : IndexedBlock) : Chain * Network * Z :=
  (ib_Chain b, ib_Network b, ib_BlockNumber b).

Definition UpsertTx (d : db) (b : IndexedBlock) : db :=
  set_blocks (<[block_pk b := b]> (db_blocks d)) d.

(** A statement whose rows repeat a key is refused. *)
Definition BulkUpsertTx (d : db) (bs : list IndexedBlock) : result sql_error db :=
  match bs with
  | [] => Ok d
  | _ => if bool_decide (NoDup (block_pk <$> bs))
         then Ok (foldl UpsertTx d bs)
         else Err CardinalityViolation
  end.

Definition of_chain (chain : Chain) (network : Network) (b : IndexedBlock) : bool :=
  String.eqb (ib_Chain b) chain && String.eqb (ib_Network b) network.

Definition GetByBlockNumber (d : db) (chain : Chain) (network : Network) (n : Z)
    : option IndexedBlock := db_blocks d !! (chain, network, n).

Definition set_finality (st : string) (b : IndexedBlock) : IndexedBlock :=
  {| ib_Chain := ib_Chain b; ib_Network := ib_Network b; ib_BlockNumber := ib_BlockNumber b;
     ib_BlockHash := ib_BlockHash b; ib_ParentHash := ib_ParentHash b;
     ib_FinalityState := st; ib_BlockTime := ib_BlockTime b |}.

Definition UpdateFinalityTx (d : db) (chain : Chain) (network : Network)
    (upToBlock : Z) (newState : string) : db :=
  set_blocks ((fun b => if of_chain chain network b && (ib_BlockNumber b <=? upToBlock) &&
                           negb (String.eqb (ib_FinalityState b) newState)
                        then set_finality newState b else b) <$> db_blocks d) d.

Definition from_block (chain : Chain) (network : Network) (n : Z)
    (kv : (Chain * Network * Z) * IndexedBlock) : bool :=
  let '((c, nw), bn) := kv.1 in
  String.eqb c chain && String.eqb nw network && (n <=? bn).

Definition DeleteFromBlockTx (d : db) (chain : Chain) (network : Network) (fromBlock : Z)
    : db * Z :=
  (set_blocks (filter (fun kv => from_block chain network fromBlock kv = false) (db_blocks d)) d,
   Z.of_nat (size (filter (fun kv => from_block chain network fromBlock kv = true) (db_blocks d)))).

(** [finality_state = 'finalized' AND block_number < beforeBlock] *)
Definition purgeable (chain : Chain) (network : Network) (beforeBlock : Z)
    (kv : (Chain * Network * Z) * IndexedBlock) : bool :=
  let '((c, nw), bn) := kv.1 in
  String.eqb c chain && String.eqb nw network &&
  String.eqb (ib_FinalityState kv.2) "finalized" && (bn <? beforeBlock).

Definition PurgeFinalizedBefore (d : db) (chain : Chain) (network : Network) (beforeBlock : Z)
    : db * Z :=
  (set_blocks (filter (fun kv => purgeable chain network beforeBlock kv = false) (db_blocks d)) d,
   Z.of_nat (size (filter (fun kv => purgeable chain network beforeBlock kv = true) (db_blocks d)))).

(** [ORDER BY block_number DESC LIMIT 1000], then ascending. *)
Definition block_le (a b : IndexedBlock) : Prop := ib_BlockNumber a <= ib_BlockNumber b.
#[export] Instance block_le_dec a b : Decision (block_le a b) := Z_le_dec _ _.

Definition GetUnfinalized (d : db) (chain : Chain) (network : Network) : list IndexedBlock :=
  let rows := filter (fun b => of_chain chain network b &&
                               negb (String.eqb (ib_FinalityState b) "finalized") = true)
                     (map snd (map_to_list (db_blocks d))) in
  let sorted := merge_sort block_le rows in
  drop (length sorted - 1000) sorted.

End IndexedBlockRepo.

(** ** TransactionRepo and TokenRepo *)

Module TransactionRepo.
Section Repo.
Variable gen_uuid : nat -> uuid.

Definition tx_pk (t : Transaction) : Chain * Network * string :=
  (tx_Chain t, tx_Network t, tx_TxHash t).

(** An existing row keeps all its columns ([chain = transactions.chain]). *)
Definition UpsertTx (d : db) (t : Transaction) : db * uuid :=
  match db_transactions d !! tx_pk t with
  | Some (id, _) => (d, id)
  | None =>
      let id := gen_uuid (db_next_uuid d) in
      (set_transactions (<[tx_pk t := (id, t)]> (db_transactions d)) (S (db_next_uuid d)) d, id)
  end.

Fixpoint upsert_all (d : db) (acc : gmap string uuid) (ts : list Transaction)
    : db * gmap string uuid :=
  match ts with
  | [] => (d, acc)
  | t :: ts' =>
      let '(d', id) := UpsertTx d t in
      upsert_all d' (<[tx_TxHash t := id]> acc) ts'
  end.

Definition BulkUpsertTx (d : db) (ts : list Transaction)
    : result sql_error (db * gmap string uuid) :=
  if bool_decide (NoDup (tx_pk <$> ts)) then Ok (upsert_all d ∅ ts)
  else Err CardinalityViolation.
End Repo.
End TransactionRepo.

Module TokenRepo.
Section Repo.
Variable gen_uuid : nat -> uuid.

Definition token_pk (t : Token) : Chain * Network * string :=
  (tk_Chain t, tk_Network t, tk_ContractAddress t).

Definition UpsertTx (d : db) (t : Token) : db * uuid :=
  match db_tokens d !! token_pk t with
  | Some (id, _, _) => (d, id)
  | None =>
      let id := gen_uuid (db_next_uuid d) in
      (set_tokens (<[token_pk t := (id, t, false)]> (db_tokens d)) (S (db_next_uuid d))
                  (db_deny_log d) d, id)
  end.

Fixpoint upsert_all (d : db) (acc : gmap string uuid) (ts : list Token)
    : db * gmap string uuid :=
  match ts with
  | [] => (d, acc)
  | t :: ts' =>
      let '(d', id) := UpsertTx d t in
      upsert_all d' (<[tk_ContractAddress t := id]> acc) ts'
  end.

Definition BulkUpsertTx (d : db) (ts : list Token)
    : result sql_error (db * gmap string uuid) :=
  if bool_decide (NoDup (token_pk <$> ts)) then Ok (upsert_all d ∅ ts)
  else Err CardinalityViolation.
End Repo.

(** [denied_at], [scam_score] and [scam_signals] are written with the flag and
    read by nobody; the audit row keeps the token, the contract and the reason. *)
Definition DenyTokenTx (d : db) (chain : Chain) (network : Network)
    (contractAddress reason : string) : db :=
  match db_tokens d !! (chain, network, contractAddress) with
  | None => d
  | Some (id, t, _) =>
      set_tokens (<[(chain, network, contractAddress) := (id, t, true)]> (db_tokens d))
                 (db_next_uuid d) (db_deny_log d ++ [(id, contractAddress, reason)]) d
  end.

(** Contracts without a token row are absent from the result. *)
Definition BulkIsDeniedTx (d : db) (chain : Chain) (network : Network)
    (contracts : list string) : gmap string bool :=
  foldl (fun m c =>
    match db_tokens d !! (chain, network, c) with
    | Some (_, _, denied) => <[c := denied]> m
    | None => m
    end) ∅ contracts.

End TokenRepo.

(** ** Balance adjustment: what a bulk statement does to the amounts *)

Section BalanceFacts.
Import BalanceRepo.
Context (chain : Chain) (network : Network).

Definition item_pk (i : BulkAdjustItem) : balance_pk := pk_of chain network (ba_key i).

Lemma pk_of_inj k1 k2 : pk_of chain network k1 = pk_of chain network k2 -> k1 = k2.
Proof. destruct k1 as [[??]?], k2 as [[??]?]; simpl. congruence. Qed.

(** The effect of one adjustment on the row of its key. *)
Definition adjust_entry (o : option balance_row) (i : BulkAdjustItem)
    : result sql_error (option balance_row) :=
  let! delta := pg_numeric (ba_Delta i) in
  match o with
  | Some row => let! row' := adjust_row row delta (ba_Cursor i) (ba_TxHash i) in Ok (Some row')
  | None => let! row' := new_row i delta in Ok (Some row')
  end.

Lemma AdjustBalanceTx_point t i :
  AdjustBalanceTx chain network t i = point_step item_pk adjust_entry t i.
Proof.
  unfold AdjustBalanceTx, point_step, adjust_entry, item_pk. simpl.
  destruct (pg_numeric _) as [delta|e]; simpl; [|done].
  destruct (t !! _) as [row|]; simpl.
  - by destruct (adjust_row _ _ _ _).
  - by destruct (new_row _ _).
Qed.

Definition amount (t : gmap balance_pk balance_row) (k : balance_pk) : Z :=
  match t !! k with Some row => bal_amount row | None => 0 end.

(** The amount an item adds; 0 for text PostgreSQL refuses. *)
Definition item_delta (i : BulkAdjustItem) : Z :=
  match pg_numeric (ba_Delta i) with Ok z => z | Err _ => 0 end.

Definition total_delta (items : list BulkAdjustItem) (k : balance_pk) : Z :=
  foldr (fun i acc => (if decide (item_pk i = k) then item_delta i else 0) + acc) 0 items.

Lemma adjust_row_ok row delta cursor h row' :
  adjust_row row delta cursor h = Ok row' -> bal_amount row' = bal_amount row + delta.
Proof. unfold adjust_row, numeric78. destruct (_ <? _); simpl; [|done]. by intros [= <-]. Qed.

Lemma new_row_ok i delta row : new_row i delta = Ok row -> bal_amount row = delta.
Proof. unfold new_row, numeric78. destruct (_ <? _); simpl; [|done]. by intros [= <-]. Qed.

Lemma adjust_entry_ok o i o' :
  adjust_entry o i = Ok o' ->
  exists row, o' = Some row /\
    bal_amount row = match o with Some r => bal_amount r | None => 0 end + item_delta i.
Proof.
  unfold adjust_entry, item_delta. destruct (pg_numeric _) as [delta|]; simpl; [|done].
  destruct o as [r|]; intros (row & Hrow & [= <-])%rbind_ok; exists row; (split; [done|]).
  - by apply adjust_row_ok in Hrow.
  - by apply new_row_ok in Hrow.
Qed.

Lemma AdjustBalanceTx_amount t i t' k :
  AdjustBalanceTx chain network t i = Ok t' ->
  amount t' k = amount t k + (if decide (item_pk i = k) then item_delta i else 0).
Proof.
  rewrite AdjustBalanceTx_point. unfold point_step, amount.
  destruct (adjust_entry _ _) as [o'|] eqn:He; [|done].
  apply adjust_entry_ok in He as (row & -> & Hrow). intros [= <-].
  case_decide as Hk; [subst k|].
  - by rewrite lookup_insert_eq.
  - rewrite lookup_insert_ne by done. lia.
Qed.

(** Adjusting one by one adds every delta. *)
Lemma adjust_each_amount items t t' k :
  rfoldl (AdjustBalanceTx chain network) t items = Ok t' ->
  amount t' k = amount t k + total_delta items k.
Proof.
  revert t; induction items as [|i items IH]; intros t; simpl.
  - intros [= <-]. lia.
  - intros (t1 & H1 & H2)%rbind_ok. rewrite (IH _ H2).
    apply (AdjustBalanceTx_amount _ _ _ k) in H1. lia.
Qed.

Section WithPick.
Context (pick : BulkAdjustItem -> list BulkAdjustItem -> BulkAdjustItem).
Context (Hpick : forall i l, pick i l ∈ i :: l).

Definition update_entry (items : list BulkAdjustItem) (o : option balance_row)
    (key : balance_pk) : result sql_error (option balance_row) :=
  match o, joined chain network items key with
  | Some row, i :: rest => adjust_entry (Some row) (pick i rest)
  | _, _ => Ok None
  end.

Lemma update_one_point items t key :
  update_one pick chain network items t key = point_step id (update_entry items) t key.
Proof.
  unfold update_one, point_step, update_entry, adjust_entry. simpl.
  destruct (t !! key) as [row|]; [|done]. destruct (joined _ _ _ _) as [|i rest]; [done|].
  destruct (pg_numeric _); simpl; [|done]. by destruct (adjust_row _ _ _ _).
Qed.

Definition insert_entry (snapshot : gmap balance_pk balance_row) (o : option balance_row)
    (i : BulkAdjustItem) : result sql_error (option balance_row) :=
  match snapshot !! item_pk i with
  | Some _ => Ok None
  | None => match o with
            | Some _ => Err UniqueViolation
            | None => adjust_entry None i
            end
  end.

Lemma insert_one_point snapshot t i :
  insert_one chain network snapshot t i = point_step item_pk (insert_entry snapshot) t i.
Proof.
  unfold insert_one, point_step, insert_entry, adjust_entry, item_pk. simpl.
  destruct (snapshot !! _); [done|]. destruct (t !! _); [done|].
  destruct (pg_numeric _); simpl; [|done]. by destruct (new_row _ _).
Qed.

Lemma joined_NoDup items i :
  NoDup (item_pk <$> items) -> i ∈ items -> joined chain network items (item_pk i) = [i].
Proof.
  unfold joined. induction items as [|j items IH]; [set_solver|].
  rewrite fmap_cons. intros [Hj Hnd]%NoDup_cons [->|Hi]%elem_of_cons.
  - rewrite filter_cons_True by done. f_equal. apply filter_none. intros j' Hj' Heq. apply Hj.
    change (item_pk j' = item_pk j) in Heq. rewrite <- Heq. by apply list_elem_of_fmap_2.
  - rewrite filter_cons_False; [by apply IH|]. intros Heq. apply Hj.
    change (item_pk j = item_pk i) in Heq. rewrite Heq. by apply list_elem_of_fmap_2.
Qed.

Lemma cast_deltas_ok items :
  cast_deltas items = Ok tt <-> Forall (fun i => is_ok (pg_numeric (ba_Delta i)) = true) items.
Proof.
  unfold cast_deltas. induction items as [|i items IH]; simpl; [by rewrite Forall_nil|].
  rewrite Forall_cons. destruct (pg_numeric _); simpl; naive_solver.
Qed.

Lemma remove_dups_NoDup {A} `{EqDecision A} (l : list A) : NoDup l -> remove_dups l = l.
Proof.
  induction l as [|x l IH]; [done|]. intros [Hx Hl]%NoDup_cons. simpl.
  case_decide; [done|]. by rewrite IH.
Qed.

Lemma item_pk_NoDup items : NoDup (ba_key <$> items) -> NoDup (item_pk <$> items).
Proof.
  intros Hnd. change (NoDup ((pk_of chain network ∘ ba_key) <$> items)).
  rewrite list_fmap_compose. by apply (NoDup_fmap_2_strong _ _ (fun k1 k2 _ _ => pk_of_inj k1 k2)).
Qed.

Lemma update_pass items t t1 :
  rfoldl (update_one pick chain network items) t (remove_dups (item_pk <$> items)) = Ok t1 <->
  pointwise id (update_entry items) t (remove_dups (item_pk <$> items)) t1.
Proof.
  rewrite <- rfoldl_pointwise by (rewrite list_fmap_id; apply NoDup_remove_dups).
  by rewrite (rfoldl_ext _ (point_step id (update_entry items)))
    by (intros; apply update_one_point).
Qed.

Lemma insert_pass items t t1 t' :
  NoDup (item_pk <$> items) ->
  rfoldl (insert_one chain network t) t1 items = Ok t' <->
  pointwise item_pk (insert_entry t) t1 items t'.
Proof.
  intros Hnd. rewrite <- rfoldl_pointwise by done.
  by rewrite (rfoldl_ext _ (point_step item_pk (insert_entry t)))
    by (intros; apply insert_one_point).
Qed.

Lemma adjust_pass items t t' :
  NoDup (item_pk <$> items) ->
  rfoldl (AdjustBalanceTx chain network) t items = Ok t' <->
  pointwise item_pk adjust_entry t items t'.
Proof.
  intros Hnd. rewrite <- rfoldl_pointwise by done.
  by rewrite (rfoldl_ext _ (point_step item_pk adjust_entry))
    by (intros; apply AdjustBalanceTx_point).
Qed.

Lemma pick_single i : pick i [] = i.
Proof. specialize (Hpick i []). set_solver. Qed.

Lemma update_entry_NoDup items i o :
  NoDup (item_pk <$> items) -> i ∈ items ->
  update_entry items o (item_pk i) =
    match o with Some row => adjust_entry (Some row) i | None => Ok None end.
Proof.
  intros Hnd Hi. unfold update_entry. rewrite joined_NoDup by done.
  destruct o; [by rewrite pick_single|done].
Qed.

Lemma elem_of_pks items k :
  k ∈ remove_dups (item_pk <$> items) <-> exists i, k = item_pk i /\ i ∈ items.
Proof. by rewrite elem_of_remove_dups, list_elem_of_fmap. Qed.

Lemma bulk_passes_pointwise items t t' :
  NoDup (item_pk <$> items) ->
  (exists t1, pointwise id (update_entry items) t (remove_dups (item_pk <$> items)) t1 /\
              pointwise item_pk (insert_entry t) t1 items t') <->
  pointwise item_pk adjust_entry t items t'.
Proof.
  intros Hnd. split.
  - intros (t1 & [Hu Huo] & [Hi Hio]). split.
    + intros i Hin. destruct (Hu (item_pk i)) as (o1 & Ho1 & Ht1); [apply elem_of_pks; eauto|].
      rewrite update_entry_NoDup in Ho1 by done. destruct (Hi i Hin) as (o2 & Ho2 & Ht2).
      unfold insert_entry in Ho2. simpl in *. destruct (t !! item_pk i) as [row|] eqn:Et.
      * simplify_eq. exists o1. split; [done|]. by rewrite Ht2, Ht1.
      * simplify_eq. rewrite Ht1 in *. exists o2. split; [done|]. by rewrite Ht2.
    + intros k Hk. rewrite Hio by done. apply Huo.
      rewrite list_fmap_id, elem_of_pks. intros (i & -> & Hin). apply Hk. by apply list_elem_of_fmap_2.
  - intros [Ha Hao]. exists (filter (fun kv => is_Some (t !! kv.1)) t'). split; split.
    + intros k (i & -> & Hin)%elem_of_pks. simpl.
      rewrite update_entry_NoDup, lookup_restrict by done.
      destruct (Ha i Hin) as (o & Ho & Ht'). by destruct (t !! item_pk i); eauto.
    + intros k Hk. rewrite list_fmap_id, elem_of_pks in Hk. rewrite lookup_restrict, Hao.
      2:{ intros (i & -> & ?)%list_elem_of_fmap. apply Hk. eauto. }
      by destruct (t !! k).
    + intros i Hin. rewrite lookup_restrict. unfold insert_entry.
      destruct (Ha i Hin) as (o & Ho & Ht'). destruct (t !! item_pk i) as [row|] eqn:Et; [by eauto|].
      destruct (adjust_entry_ok _ _ _ Ho) as (r & -> & _). eauto.
    + intros k Hk. rewrite lookup_restrict, Hao by done. by destruct (t !! k).
Qed.

Lemma bulk_adjust_unfold items t t' :
  BulkAdjustBalanceTx pick chain network t items = Ok t' <->
  (items = [] /\ t' = t) \/
  (items <> [] /\ cast_deltas items = Ok tt /\
   exists t1, rfoldl (update_one pick chain network items) t
                     (remove_dups (item_pk <$> items)) = Ok t1 /\
              rfoldl (insert_one chain network t) t1 items = Ok t').
Proof.
  unfold BulkAdjustBalanceTx. fold item_pk. destruct items as [|i items].
  - split; [intros [= ->]; by left|]. by intros [[_ ->]|(? & _)].
  - split.
    + intros ([] & Hc & (t1 & ? & ?)%rbind_ok)%rbind_ok. right. split; [done|]. eauto.
    + intros [[??]|(_ & Hc & t1 & Hu & Hi)]; [done|]. rewrite Hc. cbn [rbind].
      apply rbind_ok. eauto.
Qed.

Lemma adjust_entry_cast t items t' :
  pointwise item_pk adjust_entry t items t' -> cast_deltas items = Ok tt.
Proof.
  intros [Ha _]. apply cast_deltas_ok, Forall_forall. intros i Hi.
  destruct (Ha i Hi) as (o & Ho & _). unfold adjust_entry in Ho.
  by destruct (pg_numeric _).
Qed.

(** On items with pairwise distinct keys the bulk statement is the
    sequence of single adjustments, whatever the joins pick. *)
Lemma bulk_adjust_sequential items t t' :
  NoDup (ba_key <$> items) ->
  BulkAdjustBalanceTx pick chain network t items = Ok t' <->
  rfoldl (AdjustBalanceTx chain network) t items = Ok t'.
Proof.
  intros Hnd%item_pk_NoDup. rewrite adjust_pass, <- bulk_passes_pointwise by done.
  rewrite bulk_adjust_unfold. setoid_rewrite update_pass. split.
  - intros [[-> ->]|(_ & _ & t1 & Hu & Hi)].
    + exists t. split; split; set_solver.
    + exists t1. by rewrite insert_pass in Hi.
  - intros Hp. pose proof (proj1 (bulk_passes_pointwise _ _ _ Hnd) Hp) as Hpt.
    destruct Hp as (t1 & Hu & Hi). destruct items as [|i items].
    + left. split; [done|]. apply map_eq. intros k. apply Hpt. set_solver.
    + right. split; [done|]. split; [by eapply adjust_entry_cast|].
      exists t1. by rewrite insert_pass.
Qed.

(** The insert pass leaves alone the keys that had a row, and those no item has. *)
Lemma insert_pass_keeps t l ta tb k :
  rfoldl (insert_one chain network t) ta l = Ok tb ->
  is_Some (t !! k) \/ k ∉ item_pk <$> l -> tb !! k = ta !! k.
Proof.
  revert ta; induction l as [|x l IH]; intros ta; simpl; [by intros [= ->]|].
  intros (tm & H1 & H2)%rbind_ok Hk. rewrite (IH _ H2) by (csimpl in *; set_solver).
  unfold insert_one in H1. fold (item_pk x) in H1.
  destruct (t !! item_pk x) eqn:Ex; simplify_eq; [done|].
  destruct (ta !! item_pk x); [done|].
  apply rbind_ok in H1 as (? & _ & (? & _ & [= <-])%rbind_ok).
  apply lookup_insert_ne. intros <-. destruct Hk as [[? ?]|Hk]; [congruence|]. csimpl in Hk. set_solver.
Qed.

(** A key of no item keeps its row. *)
Lemma bulk_adjust_other items t t' k :
  BulkAdjustBalanceTx pick chain network t items = Ok t' ->
  k ∉ item_pk <$> items -> t' !! k = t !! k.
Proof.
  rewrite bulk_adjust_unfold. intros [[-> ->]|(_ & _ & t1 & Hu & Hi)] Hk; [done|].
  apply update_pass in Hu as [_ Hu]. rewrite (insert_pass_keeps _ _ _ _ _ Hi) by auto.
  apply Hu. by rewrite list_fmap_id, elem_of_remove_dups.
Qed.

(** A key that has a row receives the delta of exactly one of its items,
    however many there are. *)
Lemma bulk_adjust_one_delta items t t' i row :
  BulkAdjustBalanceTx pick chain network t items = Ok t' ->
  i ∈ items -> t !! item_pk i = Some row ->
  exists j, j ∈ items /\ item_pk j = item_pk i /\
    amount t' (item_pk i) = bal_amount row + item_delta j.
Proof.
  rewrite bulk_adjust_unfold. intros [[-> _]|(_ & _ & t1 & Hu & Hi)] Hin Hrow; [set_solver|].
  apply update_pass in Hu as [Hu _].
  destruct (Hu (item_pk i)) as (o & Ho & Ht1); [apply elem_of_pks; eauto|].
  unfold update_entry in Ho. simpl in *. rewrite Hrow in *.
  assert (Hj : i ∈ joined chain network items (item_pk i)) by (by apply list_elem_of_filter).
  destruct (joined chain network items (item_pk i)) as [|i0 rest] eqn:Ejoin; [set_solver|].
  destruct (adjust_entry_ok _ _ _ Ho) as (row' & -> & Hamt).
  assert (Hp : pick i0 rest ∈ joined chain network items (item_pk i)) by (rewrite Ejoin; apply Hpick).
  apply list_elem_of_filter in Hp as [Hpk Hpi]. exists (pick i0 rest). split; [done|].
  split; [done|]. unfold amount.
  rewrite (insert_pass_keeps _ _ _ _ _ Hi), Ht1, Hamt; [done|]. by rewrite Hrow; left.
Qed.
End WithPick.
End BalanceFacts.

(** ** Event upserts: chunks, and fresh events *)

Section EventFacts.
Import BalanceEventRepo.
Context (gen_uuid : nat -> uuid) (now : Z).

Lemma upsert_rows_app st l1 l2 st' ret :
  upsert_rows gen_uuid now st (l1 ++ l2) = Ok (st', ret) <->
  exists st1 r1 r2, upsert_rows gen_uuid now st l1 = Ok (st1, r1) /\
    upsert_rows gen_uuid now st1 l2 = Ok (st', r2) /\ ret = r1 ++ r2.
Proof.
  revert st ret; induction l1 as [|be l1 IH]; intros st ret; simpl.
  - split; [|naive_solver]. intros H. by exists st, [], ret.
  - destruct (upsert_row gen_uuid now st be) as [[st0 o]|]; simpl; [|naive_solver].
    split.
    + intros ([st2 r] & H1 & [= -> <-])%rbind_ok. apply IH in H1. destruct H1 as (st1 & r1 & r2 & Ha & Hb & ->).
      exists st1, (match o with Some x => x :: r1 | None => r1 end), r2. rewrite Ha. simpl.
      by destruct o.
    + intros (st1 & r1 & r2 & ([sa ra] & Ha & [= -> <-])%rbind_ok & Hb & ->).
      assert (H2 : upsert_rows gen_uuid now st0 (l1 ++ l2) = Ok (st', ra ++ r2)) by (apply IH; by exists st1, ra, r2).
      rewrite H2. simpl. by destruct o.
Qed.

Lemma count_inserted_app r1 r2 : count_inserted (r1 ++ r2) = count_inserted r1 + count_inserted r2.
Proof. unfold count_inserted. rewrite filter_app, length_app. lia. Qed.

(** The chunk loop is one pass over the events. *)
Lemma chunk_loop_pass fuel st evs acc st' n :
  (length evs <= fuel)%nat -> chunk_loop gen_uuid now fuel st evs acc = Ok (st', n) ->
  exists ret, upsert_rows gen_uuid now st evs = Ok (st', ret) /\ n = acc + count_inserted ret.
Proof.
  revert st evs acc; induction fuel as [|fuel IH]; intros st evs acc Hlen; simpl.
  - destruct evs; [|simpl in Hlen; lia]. intros [= -> <-]. exists []. split; [done|]. unfold count_inserted. simpl. lia.
  - destruct evs as [|e evs]; [intros [= -> <-]; exists []; split; [done|]; unfold count_inserted; simpl; lia|].
    set (l := e :: evs) in *. intros ([st1 ins] & Hc & Hrest)%rbind_ok.
    unfold execBulkChunk, upsert_statement in Hc. destruct (bool_decide _); [|done].
    apply rbind_ok in Hc as ([st2 r1] & Hr1 & [= -> <-]).
    apply IH in Hrest as (r2 & Hr2 & ->).
    2:{ rewrite length_drop. unfold bulkChunkSize. subst l. simpl in *. lia. }
    exists (r1 ++ r2). rewrite <- (take_drop bulkChunkSize l). split; [apply upsert_rows_app; by exists st1, r1, r2|].
    rewrite count_inserted_app. lia.
Qed.

Lemma BulkUpsertTx_pass d evs d' res :
  BulkUpsertTx gen_uuid now d evs = Ok (d', res) ->
  exists rows n ret, upsert_rows gen_uuid now (db_events d, db_next_uuid d) evs = Ok ((rows, n), ret) /\
    d' = set_events rows n d /\ bu_InsertedCount res = count_inserted ret.
Proof.
  unfold BulkUpsertTx. intros ([[rows n] r] & H & [= <- <-])%rbind_ok.
  destruct evs as [|e evs]; [injection H as <- <- <-; by exists (db_events d), (db_next_uuid d), []|].
  destruct (_ <=? _)%nat.
  - apply rbind_ok in H as ([[rows1 n1] ret] & H1 & [= <- <- <-]).
    unfold upsert_statement in H1. destruct (bool_decide _); [|done]. eauto 10.
  - apply rbind_ok in H as ([[rows1 n1] ins] & H1 & [= <- <- <-]).
    apply chunk_loop_pass in H1 as (ret & Hret & ->); [|done]. eauto 10.
Qed.

(** No event conflicts with a row or with another event. *)
Definition fresh_events (rows : list event_row) (evs : list BalanceEvent) : Prop :=
  NoDup (nonempty_ids evs) /\
  forall be, be ∈ evs -> str_empty (be_EventID be) = false ->
    be_EventID be ∉ (fun r => be_EventID (ev_cols r)) <$> rows.

Lemma insert_values_keeps be v :
  insert_values now be = Ok v ->
  be_EventID v = be_EventID be /\ be_Chain v = be_Chain be /\ be_Network v = be_Network be /\
  be_Address v = be_Address be /\ be_TokenID v = be_TokenID be /\
  be_ActivityType v = be_ActivityType be /\ be_BalanceApplied v = be_BalanceApplied be /\
  be_BlockCursor v = be_BlockCursor be /\
  exists z, parse_decimal (trim_space (be_Delta be)) = Some z /\ be_Delta v = show_Z z.
Proof.
  unfold insert_values, pg_numeric. destruct (parse_decimal _) as [z|]; simpl; [|done].
  unfold numeric78 at 1. destruct (_ <? _); simpl; [|done].
  intros (b & _ & (a & _ & [= <-])%rbind_ok)%rbind_ok. simpl. eauto 15.
Qed.

Lemma find_conflict_none rows be :
  (str_empty (be_EventID be) = false -> be_EventID be ∉ (fun r => be_EventID (ev_cols r)) <$> rows) ->
  find_conflict rows be = None.
Proof.
  intros Hf. unfold find_conflict. rewrite filter_none; [done|]. intros r Hr [He Heq]%andb_true_iff.
  apply negb_true_iff in He. apply (Hf He). apply String.eqb_eq in Heq. rewrite <- Heq.
  by apply (list_elem_of_fmap_2 (fun r => be_EventID (ev_cols r))).
Qed.

(** Fresh events are appended, each with the values of its model. *)
Lemma upsert_rows_fresh evs rows n rows' n' ret :
  fresh_events rows evs ->
  upsert_rows gen_uuid now (rows, n) evs = Ok ((rows', n'), ret) ->
  exists news, rows' = rows ++ news /\
    Forall2 (fun be r => insert_values now be = Ok (ev_cols r)) evs news.
Proof.
  revert rows n ret; induction evs as [|be evs IH]; intros rows n ret [Hnd Hfresh]; simpl.
  - intros [= <- <- _]. exists []. by rewrite app_nil_r.
  - intros ([st1 o] & H1 & ([st2 rest] & H2 & [= -> _])%rbind_ok)%rbind_ok.
    unfold upsert_row in H1. destruct (insert_values now be) as [v|] eqn:Ev; simpl in H1; [|done].
    pose proof (insert_values_keeps _ _ Ev) as (Hid & _).
    rewrite find_conflict_none in H1 by (rewrite Hid; apply Hfresh; set_solver).
    injection H1 as <- <-. unfold nonempty_ids in Hnd. csimpl in Hnd.
    apply IH in H2 as (news & -> & Hnews).
    { rewrite <- app_assoc. eexists. split; [done|]. by constructor. }
    split.
    + eapply sublist_NoDup; [exact Hnd|]. rewrite filter_cons. case_decide; [by constructor|done].
    + intros b Hb Hne. rewrite fmap_app. csimpl. rewrite Hid. intros [Hin|Heq%list_elem_of_singleton]%elem_of_app.
      * by apply (Hfresh b); [set_solver|done|].
      * rewrite filter_cons_True in Hnd by (rewrite <- Heq, Hne; done).
        apply NoDup_cons in Hnd as [Hnotin _]. apply Hnotin. apply list_elem_of_filter.
        split; [by rewrite <- Heq, Hne|]. rewrite <- Heq. by apply list_elem_of_fmap_2.
Qed.
End EventFacts.
