(* ===== verification/Ledger.v ===== *)
(** * The ledger: what the balances mean

    [balances] is a running sum of [balance_events]: an applied event adds its
    delta to the liquid balance of its (chain, network, address, token), and a
    staking event also subtracts it from the staked balance.  [ledger] is that
    sum computed from the stored events; [ledger_ok] says the two tables agree.
    The ingester, the finality promotion and the replay service are verified
    against it. *)

From Stdlib Require Import ZArith String Lia.
From stdpp Require Import base option list strings gmap fin_maps.
From S2P Require Import Prelude Retry Domain Identity Store.

Open Scope Z_scope.

Definition delta_of (be : BalanceEvent) : Z := default 0 (parse_decimal (trim_space (be_Delta be))).

Definition liquid_pk (be : BalanceEvent) : balance_pk :=
  (be_Chain be, be_Network be, be_Address be, be_TokenID be, "").
Definition staked_pk (be : BalanceEvent) : balance_pk :=
  (be_Chain be, be_Network be, be_Address be, be_TokenID be, "staked").

(** What an event adds to balance [k], were it applied. *)
Definition full_contribution (be : BalanceEvent) (k : balance_pk) : Z :=
  when (bool_decide (liquid_pk be = k)) (delta_of be) +
  when (IsStakingActivity (be_ActivityType be) && bool_decide (staked_pk be = k)) (- delta_of be).

Definition contribution (be : BalanceEvent) (k : balance_pk) : Z :=
  when (be_BalanceApplied be) (full_contribution be k).

Definition ledger (rows : list event_row) (k : balance_pk) : Z :=
  sum_of (fun r => contribution (ev_cols r) k) rows.

Definition ledger_ok (d : db) : Prop :=
  forall k, amount (db_balances d) k = ledger (db_events d) k.

(** Stored deltas are canonical decimals ([insert_values] writes them so). *)
Definition row_canonical (r : event_row) : Prop :=
  exists z, be_Delta (ev_cols r) = show_Z z.

Lemma row_canonical_delta r :
  row_canonical r -> be_Delta (ev_cols r) = show_Z (delta_of (ev_cols r)).
Proof. intros [z Hz]. unfold delta_of. by rewrite Hz, trim_show_Z, parse_show. Qed.

Lemma ledger_perm rows rows' k : rows ≡ₚ rows' -> ledger rows k = ledger rows' k.
Proof. intros HP. unfold ledger. by rewrite HP. Qed.

(** ** Bulk adjustment, against the ledger *)

(** What an item adds to balance [k]. *)
Definition item_effect (chain : Chain) (network : Network) (k : balance_pk) (i : BulkAdjustItem) : Z :=
  when (bool_decide (item_pk chain network i = k)) (item_delta i).

Lemma total_delta_sum chain network items k :
  total_delta chain network items k = sum_of (item_effect chain network k) items.
Proof.
  unfold total_delta, sum_of, item_effect, when. induction items as [|i items IH]; [done|]. simpl.
  rewrite IH. case_decide; [by rewrite bool_decide_true|by rewrite bool_decide_false].
Qed.

(** A bulk statement whose items have distinct keys adds every delta. *)
Lemma bulk_adjust_amount pick chain network items t t' k :
  (forall i l, pick i l ∈ i :: l) -> NoDup (ba_key <$> items) ->
  BalanceRepo.BulkAdjustBalanceTx pick chain network t items = Ok t' ->
  amount t' k = amount t k + sum_of (item_effect chain network k) items.
Proof.
  intros Hpick Hnd Hb. apply bulk_adjust_sequential in Hb; [|done..].
  apply (adjust_each_amount _ _ _ _ _ k) in Hb. by rewrite Hb, total_delta_sum.
Qed.

Lemma item_delta_show i z : ba_Delta i = show_Z z -> item_delta i = z.
Proof. intros Hz. unfold item_delta, pg_numeric. by rewrite Hz, trim_show_Z, parse_show. Qed.

Lemma Negate_show z : NegateDecimalString (show_Z z) = Ok (show_Z (- z)).
Proof. unfold NegateDecimalString. by rewrite parse_show. Qed.

(** ** Sample rows, for examples *)

Definition sample_event (chain : Chain) (network : Network) (address : string) (token : uuid)
    (activity : ActivityType) (delta : Z) (block : Z) (applied : bool) (eventID : string)
    : BalanceEvent :=
  {| be_Chain := chain; be_Network := network; be_TransactionID := 1%N; be_TxHash := "tx";
     be_OuterInstructionIndex := 0; be_InnerInstructionIndex := 0; be_TokenID := token;
     be_ActivityType := activity; be_EventAction := ""; be_ProgramID := "";
     be_Address := address; be_CounterpartyAddress := ""; be_Delta := show_Z delta;
     be_BalanceBefore := None; be_BalanceAfter := None; be_WatchedAddress := Some address;
     be_WalletID := None; be_OrganizationID := None; be_BlockCursor := block;
     be_BlockTime := None; be_ChainData := None; be_BalanceApplied := applied;
     be_EventID := eventID; be_BlockHash := ""; be_TxIndex := 0; be_EventPath := "";
     be_EventPathType := ""; be_ActorAddress := ""; be_AssetType := ""; be_AssetID := "";
     be_FinalityState := "confirmed"; be_DecoderVersion := ""; be_SchemaVersion := "" |}.

Definition sample_balance (amount : Z) : balance_row :=
  {| bal_wallet_id := None; bal_organization_id := None; bal_amount := amount;
     bal_last_updated_cursor := 0; bal_last_updated_tx_hash := "" |}.
