(* ===== verification/Cache.v ===== *)
(** * Caches: [internal/cache/lru.go] and [internal/cache/sharded_lru.go]

    [LRU] is modelled with its pointers: a list element is an address into a
    heap of entries, [order] is the linked list of addresses (front first) and
    [items] the map from keys to addresses.  [Spec] is the abstract cache, a
    list of entries with the most recently used first; [lru_refines] shows that
    every operation of the pointer structure implements the abstract one.
    [ShardedLRU] routes a key by FNV-32a to one of its shards.

    [Cache] is the interface of the Go source with the laws its clients use;
    both caches are instances.  Time is passed to the operations that read
    [nowFn]. *)

From Stdlib Require Import ZArith String Ascii Lia.
From stdpp Require Import base option list strings gmap fin_maps.
From S2P Require Import Prelude.

Open Scope Z_scope.
Open Scope go_scope.

(** ** The interface *)

Class Cache (C K V : Type) := {
  Get : Z -> C -> K -> option V * C;
  Put : Z -> C -> K -> V -> C;
  Len : C -> Z;
  Stats : C -> Z * Z
}.

(** What a client may rely on.  [holds now c k] is the value [k] has in [c] at
    time [now], if it is cached and not expired. *)
Class CacheLaws (C K V : Type) `{Cache C K V} := {
  cache_ok : C -> Prop;
  holds : Z -> C -> K -> option V;
  get_ok now c k : cache_ok c -> cache_ok (Get now c k).2;
  put_ok now c k v : cache_ok c -> cache_ok (Put now c k v);
  get_holds now c k : cache_ok c -> (Get now c k).1 = holds now c k;
  get_keeps now now' c k k' :
    cache_ok c -> now <= now' -> holds now' (Get now c k).2 k' = holds now' c k';
  get_no_invention now now' c k k' w :
    cache_ok c -> holds now' (Get now c k).2 k' = Some w -> holds now' c k' = Some w;
  put_no_invention now now' c k v k' w :
    cache_ok c -> holds now' (Put now c k v) k' = Some w ->
    (k' = k /\ w = v) \/ (k' <> k /\ holds now' c k' = Some w);
  put_fresh now c k v w : cache_ok c -> holds now (Put now c k v) k = Some w -> w = v
}.

(** ** The abstract cache *)

Section Lru.
Context {K V : Type} `{Countable K}.

Record entry := { e_key : K; e_value : V; e_expiresAt : Z }.


(** Most recently used first; keys are distinct. *)
Definition spec_find (l : list entry) (k : K) : option entry :=
  head (filter (fun e => e_key e = k) l).

Definition spec_remove (l : list entry) (k : K) : list entry :=
  filter (fun e => e_key e <> k) l.

Definition expired (now : Z) (e : entry) : bool := e_expiresAt e <? now.

Definition spec_get (now : Z) (l : list entry) (k : K) : option V * list entry :=
  match spec_find l k with
  | None => (None, l)
  | Some e => if expired now e then (None, spec_remove l k)
              else (Some (e_value e), e :: spec_remove l k)
  end.

Definition spec_put (capacity ttl now : Z) (l : list entry) (k : K) (v : V) : list entry :=
  let e := {| e_key := k; e_value := v; e_expiresAt := now + ttl |} in
  match spec_find l k with
  | Some _ => e :: spec_remove l k
  | None => e :: (if capacity <=? Z.of_nat (length l) then removelast l else l)
  end.

(** ** The pointer structure *)

Record LRU := {
  capacity : Z;
  ttl : Z;
  items : gmap K positive;
  order : list positive;
  heap : gmap positive entry;
  next_elem : positive;
  hits : Z;
  misses : Z
}.

Definition NewLRU (cap t : Z) : LRU :=
  {| capacity := cap; ttl := t; items := ∅; order := []; heap := ∅;
     next_elem := 1; hits := 0; misses := 0 |}.

(** [container/list]: [Remove] and [MoveToFront] of an element of the list. *)
Definition list_remove (elem : positive) (o : list positive) : list positive :=
  filter (fun x => x <> elem) o.
Definition list_move_to_front (elem : positive) (o : list positive) : list positive :=
  elem :: list_remove elem o.

Definition removeElement (c : LRU) (elem : positive) : LRU :=
  {| capacity := capacity c; ttl := ttl c;
     items := match heap c !! elem with
              | Some e => delete (e_key e) (items c)
              | None => items c
              end;
     order := list_remove elem (order c); heap := heap c; next_elem := next_elem c;
     hits := hits c; misses := misses c |}.

Definition evictOldest (c : LRU) : LRU :=
  match last (order c) with
  | None => c
  | Some elem => removeElement c elem
  end.

Definition count_miss (c : LRU) : LRU :=
  {| capacity := capacity c; ttl := ttl c; items := items c; order := order c;
     heap := heap c; next_elem := next_elem c; hits := hits c; misses := misses c ⊕ 1 |}.
Definition count_hit (c : LRU) : LRU :=
  {| capacity := capacity c; ttl := ttl c; items := items c; order := order c;
     heap := heap c; next_elem := next_elem c; hits := hits c ⊕ 1; misses := misses c |}.
Definition set_order (o : list positive) (c : LRU) : LRU :=
  {| capacity := capacity c; ttl := ttl c; items := items c; order := o;
     heap := heap c; next_elem := next_elem c; hits := hits c; misses := misses c |}.

Definition LRU_Get (now : Z) (c : LRU) (k : K) : option V * LRU :=
  match items c !! k with
  | None => (None, count_miss c)
  | Some elem =>
      match heap c !! elem with
      | None => (None, c) (* no element without an entry: [lru_inv] *)
      | Some e =>
          if expired now e then (None, count_miss (removeElement c elem))
          else (Some (e_value e), count_hit (set_order (list_move_to_front elem (order c)) c))
      end
  end.

Definition LRU_Put (now : Z) (c : LRU) (k : K) (v : V) : LRU :=
  let e := {| e_key := k; e_value := v; e_expiresAt := now + ttl c |} in
  match items c !! k with
  | Some elem =>
      {| capacity := capacity c; ttl := ttl c; items := items c;
         order := list_move_to_front elem (order c); heap := <[elem := e]> (heap c);
         next_elem := next_elem c; hits := hits c; misses := misses c |}
  | None =>
      let c' := if capacity c <=? Z.of_nat (length (order c)) then evictOldest c else c in
      let elem := next_elem c' in
      {| capacity := capacity c'; ttl := ttl c'; items := <[k := elem]> (items c');
         order := elem :: order c'; heap := <[elem := e]> (heap c');
         next_elem := Pos.succ elem; hits := hits c'; misses := misses c' |}
  end.

Definition LRU_Len (c : LRU) : Z := Z.of_nat (length (order c)).
Definition LRU_Stats (c : LRU) : Z * Z := (hits c, misses c).

#[export] Instance LRU_Cache : Cache LRU K V :=
  {| Get := LRU_Get; Put := LRU_Put; Len := LRU_Len; Stats := LRU_Stats |}.

(** The list a pointer structure stands for. *)
Definition entries (c : LRU) : list entry := omap (fun x => heap c !! x) (order c).

(** [items], [order] and [heap] describe the same set of entries. *)
Record lru_inv (c : LRU) : Prop := {
  inv_order : NoDup (order c);
  inv_heap x : x ∈ order c -> exists e, heap c !! x = Some e /\ items c !! e_key e = Some x;
  inv_items k x : items c !! k = Some x ->
    x ∈ order c /\ exists e, heap c !! x = Some e /\ e_key e = k;
  inv_next x : x ∈ order c -> (x < next_elem c)%positive
}.
End Lru.
Arguments entry : clear implicits.
Arguments LRU K V {_ _}.

(** ** The pointer structure implements the abstract cache *)

Section LruFacts.
Context {K V : Type} `{Countable K}.
Implicit Types (c : LRU K V) (hp : gmap positive (entry K V)) (l : list (entry K V)).

Lemma elem_of_list_remove (x y : positive) o : y ∈ list_remove x o <-> y ∈ o /\ y <> x.
Proof. unfold list_remove. rewrite list_elem_of_filter. tauto. Qed.

Lemma list_remove_NoDup x o : NoDup o -> NoDup (list_remove x o).
Proof. apply NoDup_filter. Qed.

Lemma list_remove_last o x : NoDup (o ++ [x]) -> list_remove x (o ++ [x]) = o.
Proof.
  intros (_ & Hx & _)%NoDup_app. unfold list_remove. rewrite filter_app.
  rewrite filter_all, filter_none; [apply app_nil_r|set_solver|].
  intros y Hy ->. apply (Hx x); [done|set_solver].
Qed.

Lemma omap_insert_notin hp x e (o : list positive) :
  x ∉ o -> omap (fun y => <[x := e]> hp !! y) o = omap (fun y => hp !! y) o.
Proof.
  induction o as [|y o IH]; [done|]. intros [Hn Ho]%not_elem_of_cons. csimpl.
  rewrite lookup_insert_ne by done. by rewrite IH.
Qed.

Section Inv.
Context (c : LRU K V) (Hinv : lru_inv c).

Lemma inv_key_of k x : items c !! k = Some x ->
  exists e, heap c !! x = Some e /\ e_key e = k /\ x ∈ order c.
Proof. intros Hk. destruct (inv_items _ Hinv _ _ Hk) as (? & e & ? & ?). eauto. Qed.

Lemma find_aux (o : list positive) k :
  (forall y, y ∈ o -> y ∈ order c) ->
  spec_find (omap (fun y => heap c !! y) o) k =
    match items c !! k with
    | Some x => if decide (x ∈ o) then heap c !! x else None
    | None => None
    end.
Proof.
  unfold spec_find. induction o as [|y o IH]; intros Ho; csimpl.
  - by destruct (items c !! k).
  - destruct (inv_heap _ Hinv y) as (e & He & Hit); [apply Ho; set_solver|]. rewrite He.
    destruct (decide (e_key e = k)) as [<-|Hk].
    + rewrite filter_cons_True by done. rewrite Hit, decide_True by set_solver. done.
    + rewrite filter_cons_False, IH by (done || set_solver).
      destruct (items c !! k) as [x|] eqn:Ek; [|done].
      destruct (inv_key_of _ _ Ek) as (e' & He' & Hk' & _).
      assert (x <> y) by naive_solver.
      destruct (decide (x ∈ o)); [rewrite decide_True by set_solver|rewrite decide_False by set_solver]; done.
Qed.

Lemma entries_find k :
  spec_find (entries c) k = match items c !! k with Some x => heap c !! x | None => None end.
Proof.
  unfold entries. rewrite find_aux by done. destruct (items c !! k) as [x|] eqn:Ek; [|done].
  destruct (inv_key_of _ _ Ek) as (_ & _ & _ & Hx). by rewrite decide_True.
Qed.

Lemma remove_aux (o : list positive) k x :
  (forall y, y ∈ o -> y ∈ order c) -> items c !! k = Some x ->
  spec_remove (omap (fun y => heap c !! y) o) k = omap (fun y => heap c !! y) (list_remove x o).
Proof.
  intros Ho Ek. unfold spec_remove, list_remove. induction o as [|y o IH]; [done|]. csimpl.
  destruct (inv_heap _ Hinv y) as (e & He & Hit); [apply Ho; set_solver|]. rewrite He.
  destruct (inv_key_of _ _ Ek) as (e' & He' & Hk' & _).
  destruct (decide (y = x)) as [->|Hne].
  - rewrite (filter_cons_False (fun x0 => x0 <> x)) by naive_solver.
    rewrite filter_cons_False by naive_solver. apply IH. set_solver.
  - rewrite (filter_cons_True (fun x0 => x0 <> x)) by done. csimpl. rewrite He, filter_cons_True.
    + f_equal. apply IH. set_solver.
    + intros Hk. rewrite Hk in Hit. naive_solver.
Qed.

Lemma entries_length : length (entries c) = length (order c).
Proof.
  unfold entries. pose proof (inv_heap _ Hinv) as Hh. induction (order c) as [|y o IH]; [done|].
  csimpl. destruct (Hh y) as (e & -> & _); [set_solver|]. csimpl. f_equal. apply IH. set_solver.
Qed.

Lemma removeElement_inv x : x ∈ order c -> lru_inv (removeElement c x).
Proof.
  intros Hx. destruct (inv_heap _ Hinv x Hx) as (e & He & Hit).
  split; simpl; try rewrite He.
  - apply list_remove_NoDup, Hinv.
  - intros y [Hy Hne]%elem_of_list_remove. destruct (inv_heap _ Hinv y Hy) as (e' & He' & Hit').
    exists e'. split; [done|]. rewrite lookup_delete_ne; [done|]. intros Hk. rewrite Hk in Hit. congruence.
  - intros k y (Hne & Hk)%lookup_delete_Some. destruct (inv_items _ Hinv _ _ Hk) as (Hy & e' & He' & Hek).
    split; [|eauto]. apply elem_of_list_remove. split; [done|]. intros ->. congruence.
  - intros y [Hy _]%elem_of_list_remove. by apply Hinv.
Qed.

Lemma evictOldest_spec :
  lru_inv (evictOldest c) /\ entries (evictOldest c) = removelast (entries c) /\
  next_elem (evictOldest c) = next_elem c /\
  (forall k, items c !! k = None -> items (evictOldest c) !! k = None).
Proof.
  unfold evictOldest. destruct (last (order c)) as [x|] eqn:Elast.
  - apply last_Some in Elast as [o Ho].
    assert (Hx : x ∈ order c) by (rewrite Ho; set_solver).
    split; [by apply removeElement_inv|]. split; [|split; [done|]].
    + unfold entries. csimpl. rewrite Ho. pose proof (inv_order _ Hinv) as Hnd. rewrite Ho in Hnd.
      rewrite list_remove_last, omap_app by done. destruct (inv_heap _ Hinv x Hx) as (e & He & _).
      csimpl. rewrite He. by rewrite removelast_last.
    + intros k Hk. csimpl. destruct (heap c !! x); [|done]. by apply lookup_delete_None; right.
  - apply last_None in Elast. unfold entries. rewrite Elast. auto.
Qed.

Lemma LRU_Get_refines now k :
  lru_inv (LRU_Get now c k).2 /\
  ((LRU_Get now c k).1, entries (LRU_Get now c k).2) = spec_get now (entries c) k.
Proof.
  unfold LRU_Get, spec_get. rewrite entries_find. destruct (items c !! k) as [x|] eqn:Ek.
  - destruct (inv_key_of _ _ Ek) as (e & He & Hek & Hx). rewrite He. destruct (expired now e); csimpl.
    + split; [by destruct (removeElement_inv x Hx)|].
      f_equal. unfold entries at 1. csimpl. by rewrite <- (remove_aux _ k x).
    + split.
      * destruct Hinv as [Hnd Hh Hit Hn]. split; csimpl.
        -- apply NoDup_cons. split; [rewrite elem_of_list_remove; tauto|by apply list_remove_NoDup].
        -- intros y [->|[Hy _]%elem_of_list_remove]%elem_of_cons; auto.
        -- intros k' y Hk'. destruct (Hit _ _ Hk') as [Hy ?]. split; [|done].
           unfold list_move_to_front. rewrite elem_of_cons, elem_of_list_remove.
           destruct (decide (y = x)); tauto.
        -- intros y [->|[Hy _]%elem_of_list_remove]%elem_of_cons; auto.
      * f_equal. unfold entries at 1. csimpl. rewrite He. f_equal. by rewrite <- (remove_aux _ k x).
  - split; [|done]. by destruct Hinv; split.
Qed.

Lemma put_existing_refines now k v x :
  items c !! k = Some x ->
  lru_inv (LRU_Put now c k v) /\
  entries (LRU_Put now c k v) = spec_put (capacity c) (ttl c) now (entries c) k v.
Proof.
  intros Ek. destruct (inv_key_of _ _ Ek) as (e & He & Hek & Hx).
  unfold LRU_Put, spec_put. rewrite entries_find, Ek, He. split.
  - destruct Hinv as [Hnd Hh Hit Hn]. split; csimpl.
    + apply NoDup_cons. split; [rewrite elem_of_list_remove; tauto|by apply list_remove_NoDup].
    + intros y [->|[Hy Hne]%elem_of_list_remove]%elem_of_cons.
      * rewrite lookup_insert_eq. eexists. split; [done|]. done.
      * rewrite lookup_insert_ne by done. auto.
    + intros k' y Hk'. destruct (Hit _ _ Hk') as (Hy & e' & He' & Hek').
      unfold list_move_to_front. rewrite elem_of_cons, elem_of_list_remove.
      destruct (decide (y = x)) as [->|Hne].
      * split; [tauto|]. rewrite lookup_insert_eq. eexists. split; [done|]. csimpl. congruence.
      * split; [tauto|]. rewrite lookup_insert_ne by done. eauto.
    + intros y [->|[Hy _]%elem_of_list_remove]%elem_of_cons; auto.
  - unfold entries at 1. csimpl. rewrite lookup_insert_eq. f_equal.
    rewrite omap_insert_notin by (rewrite elem_of_list_remove; tauto).
    by rewrite <- (remove_aux _ k x).
Qed.
End Inv.
End LruFacts.

Section LruRefinement.
Context {K V : Type} `{Countable K}.
Implicit Types (c : LRU K V) (l : list (entry K V)).

(** Adding an element for a key that has none. *)
Lemma push_inv c k e :
  lru_inv c -> items c !! k = None -> e_key e = k ->
  lru_inv {| capacity := capacity c; ttl := ttl c; items := <[k := next_elem c]> (items c);
             order := next_elem c :: order c; heap := <[next_elem c := e]> (heap c);
             next_elem := Pos.succ (next_elem c); hits := hits c; misses := misses c |}.
Proof.
  intros [Hnd Hh Hit Hn] Hk He.
  assert (Hfresh : next_elem c ∉ order c) by (intros Hin%Hn; lia). split; csimpl.
  - by apply NoDup_cons.
  - intros y [->|Hy]%elem_of_cons.
    + rewrite lookup_insert_eq. exists e. split; [done|]. by rewrite He, lookup_insert_eq.
    + rewrite lookup_insert_ne by (intros <-; done). destruct (Hh y Hy) as (e' & He' & Hk').
      exists e'. split; [done|]. rewrite lookup_insert_ne by congruence. done.
  - intros k' y [[<- <-]|[Hne Hk']]%lookup_insert_Some.
    + split; [set_solver|]. rewrite lookup_insert_eq. eauto.
    + destruct (Hit _ _ Hk') as (Hy & e' & He' & Hek). split; [set_solver|].
      rewrite lookup_insert_ne by (intros <-; done). eauto.
  - intros y [->|Hy%Hn]%elem_of_cons; lia.
Qed.

Lemma put_new_refines now c k v :
  lru_inv c -> items c !! k = None ->
  lru_inv (LRU_Put now c k v) /\
  entries (LRU_Put now c k v) = spec_put (capacity c) (ttl c) now (entries c) k v.
Proof.
  intros Hinv Hk. unfold LRU_Put, spec_put. rewrite entries_find, Hk, entries_length by done.
  destruct (evictOldest_spec c Hinv) as (Hi & He & Hn & Hkeep).
  assert (Hgo : forall c', lru_inv c' -> items c' !! k = None ->
    entries {| capacity := capacity c'; ttl := ttl c'; items := <[k := next_elem c']> (items c');
               order := next_elem c' :: order c';
               heap := <[next_elem c' := {| e_key := k; e_value := v; e_expiresAt := now + ttl c |}]> (heap c');
               next_elem := Pos.succ (next_elem c'); hits := hits c'; misses := misses c' |}
    = {| e_key := k; e_value := v; e_expiresAt := now + ttl c |} :: entries c').
  { intros c' Hc' _. unfold entries. csimpl. rewrite lookup_insert_eq. f_equal.
    apply omap_insert_notin. intros Hin%(inv_next _ Hc'). lia. }
  destruct (capacity c <=? _).
  - split; [by apply push_inv; auto|]. rewrite Hgo by auto. by rewrite He.
  - split; [by apply push_inv|]. by rewrite Hgo.
Qed.

Lemma LRU_Put_refines now c k v :
  lru_inv c ->
  lru_inv (LRU_Put now c k v) /\
  entries (LRU_Put now c k v) = spec_put (capacity c) (ttl c) now (entries c) k v.
Proof.
  intros Hinv. destruct (items c !! k) as [x|] eqn:Ek.
  - by eapply put_existing_refines.
  - by apply put_new_refines.
Qed.

Lemma LRU_Put_config now c k v :
  capacity (LRU_Put now c k v) = capacity c /\ ttl (LRU_Put now c k v) = ttl c.
Proof.
  unfold LRU_Put, evictOldest. destruct (items c !! k); [done|].
  destruct (_ <=? _); [|done]. by destruct (last (order c)).
Qed.

Lemma LRU_Get_config now c k :
  capacity (LRU_Get now c k).2 = capacity c /\ ttl (LRU_Get now c k).2 = ttl c.
Proof.
  unfold LRU_Get. destruct (items c !! k); [|done]. destruct (heap c !! _); [|done].
  by destruct (expired _ _).
Qed.

(** *** The abstract cache *)

Lemma spec_find_cons e l k :
  spec_find (e :: l) k = if decide (e_key e = k) then Some e else spec_find l k.
Proof.
  unfold spec_find. case_decide; [by rewrite filter_cons_True|by rewrite filter_cons_False].
Qed.

Lemma spec_find_remove l k k' :
  spec_find (spec_remove l k) k' = if decide (k = k') then None else spec_find l k'.
Proof.
  unfold spec_remove. induction l as [|e l IH]; [by case_decide|].
  destruct (decide (e_key e <> k)) as [Hne|Heq%dec_stable].
  - rewrite filter_cons_True, !spec_find_cons, IH by done. repeat case_decide; congruence.
  - rewrite filter_cons_False, spec_find_cons, IH by auto. repeat case_decide; congruence.
Qed.

Lemma spec_find_key l k e : spec_find l k = Some e -> e_key e = k /\ e ∈ l.
Proof.
  induction l as [|e' l IH]; [done|]. rewrite spec_find_cons.
  case_decide; [intros [= <-]; set_solver|]. intros [? ?]%IH. set_solver.
Qed.

Lemma spec_find_removelast l k e :
  spec_find (removelast l) k = Some e -> spec_find l k = Some e.
Proof.
  induction l as [|e' l IH]; [done|]. destruct l as [|e'' l]; [done|].
  change (removelast (e' :: e'' :: l)) with (e' :: removelast (e'' :: l)).
  rewrite !(spec_find_cons e'). case_decide; [done|]. apply IH.
Qed.

Lemma length_removelast l : (length (removelast l) = length l - 1)%nat.
Proof. induction l as [|e [|e' l] IH]; [done..|]. simpl in *. lia. Qed.

Lemma spec_remove_length l k : (length (spec_remove l k) <= length l)%nat.
Proof. apply length_filter. Qed.

Lemma spec_remove_found l k e :
  spec_find l k = Some e -> (S (length (spec_remove l k)) <= length l)%nat.
Proof.
  unfold spec_remove. induction l as [|e' l IH]; [done|]. rewrite spec_find_cons.
  destruct (decide (e_key e' = k)) as [Hk|Hk].
  - intros _. rewrite filter_cons_False by auto. simpl.
    pose proof (length_filter (fun e => e_key e <> k) l). lia.
  - intros Hf%IH. rewrite filter_cons_True by done. simpl. lia.
Qed.

Lemma spec_put_length cap t now l k v :
  Z.of_nat (length l) <= Z.max 1 cap ->
  Z.of_nat (length (spec_put cap t now l k v)) <= Z.max 1 cap.
Proof.
  unfold spec_put. destruct (spec_find l k) eqn:Ef; simpl.
  - apply spec_remove_found in Ef. lia.
  - destruct (cap <=? _) eqn:E; simpl; [rewrite length_removelast|]; lia.
Qed.

Lemma spec_get_length now l k : (length (spec_get now l k).2 <= length l)%nat.
Proof.
  unfold spec_get. destruct (spec_find l k) eqn:Ef; [|done].
  pose proof (spec_remove_found _ _ _ Ef). destruct (expired _ _); simpl; lia.
Qed.

Definition lru_ok (c : LRU K V) : Prop :=
  lru_inv c /\ LRU_Len c <= Z.max 1 (capacity c).

Definition lru_holds (now : Z) (c : LRU K V) (k : K) : option V :=
  match spec_find (entries c) k with
  | Some e => if expired now e then None else Some (e_value e)
  | None => None
  end.
End LruRefinement.

(** *** Operation sequences *)

Section LruTraces.
Context {K V : Type} `{Countable K}.

Inductive lru_op :=
| OpGet (now : Z) (k : K)
| OpPut (now : Z) (k : K) (v : V).

Definition op_key (o : lru_op) : K := match o with OpGet _ k => k | OpPut _ k _ => k end.

Definition lru_step (c : LRU K V) (o : lru_op) : option V * LRU K V :=
  match o with
  | OpGet now k => LRU_Get now c k
  | OpPut now k v => (None, LRU_Put now c k v)
  end.

Definition spec_step (cap t : Z) (l : list (entry K V)) (o : lru_op)
    : option V * list (entry K V) :=
  match o with
  | OpGet now k => spec_get now l k
  | OpPut now k v => (None, spec_put cap t now l k v)
  end.

Fixpoint run {S : Type} (step : S -> lru_op -> option V * S) (s : S) (ops : list lru_op)
    : list (option V) * S :=
  match ops with
  | [] => ([], s)
  | o :: ops' => let '(r, s') := step s o in
                 let '(rs, s'') := run step s' ops' in (r :: rs, s'')
  end.

Lemma lru_step_refines c o :
  lru_ok c ->
  lru_ok (lru_step c o).2 /\
  ((lru_step c o).1, entries (lru_step c o).2) = spec_step (capacity c) (ttl c) (entries c) o /\
  capacity (lru_step c o).2 = capacity c /\ ttl (lru_step c o).2 = ttl c.
Proof.
  intros [Hinv Hlen]. unfold lru_ok, LRU_Len in *. destruct o as [now k|now k v]; simpl.
  - destruct (LRU_Get_refines c Hinv now k) as [Hi He]. destruct (LRU_Get_config now c k) as [-> ->].
    split; [|done]. split; [done|]. rewrite <- entries_length by done.
    pose proof (spec_get_length now (entries c) k) as Hl. rewrite <- He in Hl. simpl in Hl.
    rewrite (entries_length c Hinv) in Hl. lia.
  - destruct (LRU_Put_refines now c k v Hinv) as [Hi He]. destruct (LRU_Put_config now c k v) as [-> ->].
    split; [|by rewrite He]. split; [done|]. rewrite <- entries_length, He by done.
    apply spec_put_length. by rewrite entries_length.
Qed.

Lemma run_refines ops c :
  lru_ok c ->
  lru_ok (run lru_step c ops).2 /\
  ((run lru_step c ops).1, entries (run lru_step c ops).2) =
    run (spec_step (capacity c) (ttl c)) (entries c) ops.
Proof.
  revert c; induction ops as [|o ops IH]; intros c Hok; [done|]. simpl.
  destruct (lru_step_refines c o Hok) as (Hok' & He & Hc & Ht). rewrite <- He.
  destruct (lru_step c o) as [r c'] eqn:Es. simpl in *. destruct (IH c' Hok') as [Hok'' Hr].
  rewrite Hc, Ht in Hr. rewrite <- Hr. by destruct (run lru_step c' ops).
Qed.

Lemma NewLRU_ok cap t : lru_ok (NewLRU cap t : LRU K V).
Proof.
  split; [|unfold LRU_Len; simpl; lia].
  split; simpl; [constructor|set_solver|by intros ?? ?%lookup_empty_Some|set_solver].
Qed.

(** How many entries stand before the first entry of [k]. *)
Definition within (n : nat) (l : list (entry K V)) (k : K) (e : entry K V) : Prop :=
  exists l1 l2, l = l1 ++ e :: l2 /\ e_key e = k /\ spec_find l1 k = None /\ (length l1 <= n)%nat.

Lemma spec_find_app l1 l2 k :
  spec_find (l1 ++ l2) k =
    match spec_find (l1 : list (entry K V)) k with Some e => Some e | None => spec_find l2 k end.
Proof.
  induction l1 as [|e l1 IH]; [done|]. rewrite <- app_comm_cons, !spec_find_cons.
  by case_decide.
Qed.

Lemma within_find n l k e : within n l k e -> spec_find l k = Some e.
Proof.
  intros (l1 & l2 & -> & Hk & Hnone & _). rewrite spec_find_app, Hnone, spec_find_cons.
  by rewrite decide_True.
Qed.

Lemma within_remove n l k e k' :
  within n l k e -> k' <> k -> within n (spec_remove l k') k e.
Proof.
  intros (l1 & l2 & -> & Hk & Hnone & Hlen) Hne.
  exists (spec_remove l1 k'), (spec_remove l2 k'). unfold spec_remove at 1.
  rewrite filter_app, filter_cons_True by congruence.
  repeat split; [done|by rewrite spec_find_remove, decide_False|].
  pose proof (spec_remove_length l1 k'). lia.
Qed.

Lemma within_cons n l k e e' :
  within n l k e -> e_key e' <> k -> within (S n) (e' :: l) k e.
Proof.
  intros (l1 & l2 & -> & Hk & Hnone & Hlen) Hne. exists (e' :: l1), l2.
  rewrite spec_find_cons, decide_False by done. simpl. repeat split; auto with lia.
Qed.

Lemma within_removelast n l k e :
  within n l k e -> (S n < length l)%nat -> within n (removelast l) k e.
Proof.
  intros (l1 & l2 & -> & Hk & Hnone & Hlen) Hn. rewrite length_app in Hn. simpl in Hn.
  assert (l2 <> []) by (intros ->; simpl in Hn; lia).
  exists l1, (removelast l2). repeat split; try done.
  rewrite removelast_app by done. f_equal. by destruct l2.
Qed.

Lemma spec_step_within cap t l o k e n :
  within n l k e -> op_key o <> k -> Z.of_nat (S n) < cap ->
  within (S n) (spec_step cap t l o).2 k e.
Proof.
  intros Hw Hne Hcap.
  assert (Hmono : forall l', within n l' k e -> within (S n) l' k e)
    by (intros l' (a & b & ? & ? & ? & ?); exists a, b; auto with lia).
  destruct o as [now k'|now k' v]; simpl in *.
  - unfold spec_get. destruct (spec_find l k') as [e'|] eqn:Ef; [|by apply Hmono].
    apply spec_find_key in Ef as [Hk' _]. destruct (expired now e'); simpl.
    + by apply Hmono, within_remove.
    + apply within_cons; [by apply within_remove|congruence].
  - unfold spec_put. destruct (spec_find l k'); apply within_cons; try done.
    + by apply within_remove.
    + destruct (cap <=? _) eqn:E; [|done]. apply within_removelast; [done|lia].
Qed.

Lemma run_within cap t ops l k e n :
  within n l k e -> Forall (fun o => op_key o <> k) ops ->
  Z.of_nat (n + length ops) < cap ->
  within (n + length ops) (run (spec_step cap t) l ops).2 k e.
Proof.
  revert l n; induction ops as [|o ops IH]; intros l n Hw Hall Hcap; simpl in *.
  - by rewrite Nat.add_0_r.
  - apply Forall_cons in Hall as [Ho Hall].
    assert (Hw' : within (S n) (spec_step cap t l o).2 k e)
      by (apply spec_step_within; [done|done|lia]).
    destruct (spec_step cap t l o) as [r l'] eqn:Es. simpl in *.
    specialize (IH l' (S n) Hw' Hall ltac:(lia)).
    destruct (run (spec_step cap t) l' ops) as [rs l'']. simpl in *.
    by replace (n + S (length ops))%nat with (S n + length ops)%nat by lia.
Qed.

Lemma spec_put_within cap t now l k v :
  within 0 (spec_put cap t now l k v) k
    {| e_key := k; e_value := v; e_expiresAt := now + t |}.
Proof.
  unfold spec_put. destruct (spec_find l k); eexists [], _; by repeat split.
Qed.
End LruTraces.

(** ** ShardedLRU *)

Section Sharded.
Context {K V : Type} `{Countable K}.

Definition defaultShardCount : Z := 16.

Record ShardedLRU := {
  shards : list (LRU K V);
  count : Z;
  keyToStr : K -> string
}.

Definition NewShardedLRUWithCount (totalCapacity t : Z) (keyFn : K -> string)
    (shardCount : Z) : ShardedLRU :=
  let shardCount := if shardCount <=? 0 then defaultShardCount else shardCount in
  let perShard := Z.quot totalCapacity shardCount in
  let perShard := if perShard <? 1 then 1 else perShard in
  {| shards := replicate (Z.to_nat shardCount) (NewLRU perShard t);
     count := shardCount; keyToStr := keyFn |}.

Definition NewShardedLRU (totalCapacity t : Z) (keyFn : K -> string) : ShardedLRU :=
  NewShardedLRUWithCount totalCapacity t keyFn defaultShardCount.

(** FNV-32a over the bytes of the key, on [uint32]. *)
Fixpoint fnv32a (h : Z) (s : string) : Z :=
  match s with
  | EmptyString => h
  | String b s' => fnv32a (wrap_u32 (Z.lxor h (byte_of b) * 16777619)) s'
  end.

Definition shard_index (s : ShardedLRU) (k : K) : nat :=
  Z.to_nat (fnv32a 2166136261 (keyToStr s k) mod count s).

Definition Sharded_Get (now : Z) (s : ShardedLRU) (k : K) : option V * ShardedLRU :=
  match shards s !! shard_index s k with
  | None => (None, s) (* the index is in range: [sharded_ok] *)
  | Some c =>
      let '(r, c') := LRU_Get now c k in
      (r, {| shards := <[shard_index s k := c']> (shards s); count := count s;
             keyToStr := keyToStr s |})
  end.

Definition Sharded_Put (now : Z) (s : ShardedLRU) (k : K) (v : V) : ShardedLRU :=
  match shards s !! shard_index s k with
  | None => s
  | Some c =>
      {| shards := <[shard_index s k := LRU_Put now c k v]> (shards s); count := count s;
         keyToStr := keyToStr s |}
  end.

Definition Sharded_Len (s : ShardedLRU) : Z :=
  foldl (fun total sh => total + LRU_Len sh) 0 (shards s).

Definition Sharded_Stats (s : ShardedLRU) : Z * Z :=
  foldl (fun '(h, m) sh => (h ⊕ hits sh, m ⊕ misses sh)) (0, 0) (shards s).

#[export] Instance Sharded_Cache : Cache ShardedLRU K V :=
  {| Get := Sharded_Get; Put := Sharded_Put; Len := Sharded_Len; Stats := Sharded_Stats |}.

Definition sharded_ok (s : ShardedLRU) : Prop :=
  0 < count s /\ length (shards s) = Z.to_nat (count s) /\ Forall lru_ok (shards s).

Definition sharded_holds (now : Z) (s : ShardedLRU) (k : K) : option V :=
  match shards s !! shard_index s k with
  | Some c => lru_holds now c k
  | None => None
  end.
End Sharded.
Arguments ShardedLRU K V {_ _}.

(** ** The caches keep the laws of the interface *)

Section Laws.
Context {K V : Type} `{Countable K}.

Lemma expired_mono now now' (e : entry K V) :
  now <= now' -> expired now e = true -> expired now' e = true.
Proof. unfold expired. lia. Qed.

Lemma lru_get_ok now (c : LRU K V) k : lru_ok c -> lru_ok (LRU_Get now c k).2.
Proof. intros Hok. apply (lru_step_refines c (OpGet now k) Hok). Qed.

Lemma lru_put_ok now (c : LRU K V) k v : lru_ok c -> lru_ok (LRU_Put now c k v).
Proof. intros Hok. apply (lru_step_refines c (OpPut now k v) Hok). Qed.

Lemma lru_get_holds now (c : LRU K V) k : lru_ok c -> (LRU_Get now c k).1 = lru_holds now c k.
Proof.
  intros [Hinv _]. destruct (LRU_Get_refines c Hinv now k) as [_ He].
  apply (f_equal fst) in He. simpl in He. rewrite He. unfold spec_get, lru_holds.
  destruct (spec_find _ _) as [e|]; [|done]. by destruct (expired now e).
Qed.

Lemma lru_get_keeps now now' (c : LRU K V) k k' :
  lru_ok c -> now <= now' -> lru_holds now' (LRU_Get now c k).2 k' = lru_holds now' c k'.
Proof.
  intros [Hinv _] Hle. destruct (LRU_Get_refines c Hinv now k) as [_ He].
  apply (f_equal snd) in He. simpl in He. unfold lru_holds. rewrite He. unfold spec_get.
  destruct (spec_find (entries c) k) as [e|] eqn:Ef; [|done].
  destruct (expired now e) eqn:Ex; simpl.
  - rewrite spec_find_remove. case_decide; [subst k'|done].
    by rewrite Ef, (expired_mono _ _ _ Hle Ex).
  - rewrite spec_find_cons, spec_find_remove. destruct (spec_find_key _ _ _ Ef) as [Hk _].
    case_decide; [by subst k k'; rewrite Ef|]. rewrite decide_False by congruence. done.
Qed.

Lemma lru_get_no_invention now now' (c : LRU K V) k k' w :
  lru_ok c -> lru_holds now' (LRU_Get now c k).2 k' = Some w -> lru_holds now' c k' = Some w.
Proof.
  intros [Hinv _]. destruct (LRU_Get_refines c Hinv now k) as [_ He].
  apply (f_equal snd) in He. simpl in He. unfold lru_holds. rewrite He. unfold spec_get.
  destruct (spec_find (entries c) k) as [e|] eqn:Ef; [|done].
  destruct (expired now e) eqn:Ex; simpl.
  - rewrite spec_find_remove. by case_decide.
  - rewrite spec_find_cons, spec_find_remove. destruct (spec_find_key _ _ _ Ef) as [Hk _].
    case_decide; [by subst k k'; rewrite Ef|]. rewrite decide_False by congruence. done.
Qed.

Lemma lru_put_find now (c : LRU K V) k v k' e :
  lru_ok c -> spec_find (entries (LRU_Put now c k v)) k' = Some e ->
  (k' = k /\ e_value e = v) \/ (k' <> k /\ spec_find (entries c) k' = Some e).
Proof.
  intros [Hinv _]. destruct (LRU_Put_refines now c k v Hinv) as [_ ->]. unfold spec_put.
  destruct (spec_find (entries c) k) as [e0|]; rewrite spec_find_cons; simpl.
  - case_decide; [intros [= <-]; by left|]. rewrite spec_find_remove, decide_False by done. by right.
  - case_decide; [intros [= <-]; by left|]. intros Hf. right. split; [done|].
    destruct (_ <=? _); [by apply spec_find_removelast|done].
Qed.

Lemma lru_put_no_invention now now' (c : LRU K V) k v k' w :
  lru_ok c -> lru_holds now' (LRU_Put now c k v) k' = Some w ->
  (k' = k /\ w = v) \/ (k' <> k /\ lru_holds now' c k' = Some w).
Proof.
  intros Hok. unfold lru_holds.
  destruct (spec_find (entries (LRU_Put now c k v)) k') as [e|] eqn:Ef; [|done].
  destruct (expired now' e) eqn:Ex; [done|]. intros [= <-].
  destruct (lru_put_find _ _ _ _ _ _ Hok Ef) as [[-> <-]|[Hne ->]]; [by left|right].
  by rewrite Ex.
Qed.

#[export, program] Instance LRU_CacheLaws : CacheLaws (LRU K V) K V :=
  {| cache_ok := lru_ok; holds := lru_holds |}.
Next Obligation. apply lru_get_ok. Qed.
Next Obligation. apply lru_put_ok. Qed.
Next Obligation. apply lru_get_holds. Qed.
Next Obligation. apply lru_get_keeps. Qed.
Next Obligation. apply lru_get_no_invention. Qed.
Next Obligation. apply lru_put_no_invention. Qed.
Next Obligation.
  intros now c k v w Hok Hw. by destruct (lru_put_no_invention _ _ _ _ _ _ _ Hok Hw) as [[_ ->]|[? _]].
Qed.

Lemma shard_lookup (s : ShardedLRU K V) k :
  sharded_ok s -> exists c, shards s !! shard_index s k = Some c /\ lru_ok c.
Proof.
  intros (Hc & Hl & Hall).
  destruct (lookup_lt_is_Some_2 (shards s) (shard_index s k)) as [c Hk].
  - rewrite Hl. unfold shard_index.
    pose proof (Z.mod_pos_bound (fnv32a 2166136261 (keyToStr s k)) (count s) Hc). lia.
  - exists c. split; [done|]. by eapply Forall_lookup_1.
Qed.

Lemma shard_index_lt (s : ShardedLRU K V) k : sharded_ok s -> (shard_index s k < length (shards s))%nat.
Proof. intros Hok. destruct (shard_lookup s k Hok) as (c & Hc & _). by eapply lookup_lt_Some. Qed.

Lemma sharded_update_ok (s : ShardedLRU K V) k c :
  sharded_ok s -> lru_ok c ->
  sharded_ok {| shards := <[shard_index s k := c]> (shards s); count := count s; keyToStr := keyToStr s |}.
Proof.
  intros (Hc & Hl & Hall) Hok. split; [done|]. simpl. split; [by rewrite length_insert|].
  by apply Forall_insert.
Qed.

(** An update of one shard as seen by any key. *)
Lemma sharded_update_holds (s : ShardedLRU K V) k k' c now :
  sharded_ok s ->
  sharded_holds now {| shards := <[shard_index s k := c]> (shards s); count := count s;
                       keyToStr := keyToStr s |} k' =
    if decide (shard_index s k = shard_index s k') then lru_holds now c k'
    else sharded_holds now s k'.
Proof.
  intros Hok. unfold sharded_holds at 1. simpl.
  change (shard_index _ k') with (shard_index s k') at 1. case_decide as Hi.
  - rewrite <- Hi, list_lookup_insert_eq by (by apply shard_index_lt). done.
  - by rewrite list_lookup_insert_ne.
Qed.

#[export, program] Instance Sharded_CacheLaws : CacheLaws (ShardedLRU K V) K V :=
  {| cache_ok := sharded_ok; holds := sharded_holds |}.
Next Obligation.
  intros now s k Hok. simpl. unfold Sharded_Get. destruct (shard_lookup s k Hok) as (c & -> & Hc).
  pose proof (lru_get_ok now c k Hc). destruct (LRU_Get now c k). by apply sharded_update_ok.
Qed.
Next Obligation.
  intros now s k v Hok. simpl. unfold Sharded_Put. destruct (shard_lookup s k Hok) as (c & -> & Hc).
  by apply sharded_update_ok, lru_put_ok.
Qed.
Next Obligation.
  intros now s k Hok. simpl. unfold Sharded_Get, sharded_holds.
  destruct (shard_lookup s k Hok) as (c & -> & Hc).
  rewrite <- (lru_get_holds now c k Hc). by destruct (LRU_Get now c k).
Qed.
Next Obligation.
  intros now now' s k k' Hok Hle. simpl. unfold Sharded_Get.
  destruct (shard_lookup s k Hok) as (c & Hl & Hc). rewrite Hl.
  pose proof (lru_get_keeps now now' c k k' Hc Hle) as Hk. destruct (LRU_Get now c k) as [r c'].
  simpl in *. rewrite sharded_update_holds by done. case_decide as Hi; [|done].
  unfold sharded_holds. by rewrite <- Hi, Hl.
Qed.
Next Obligation.
  intros now now' s k k' w Hok. simpl. unfold Sharded_Get.
  destruct (shard_lookup s k Hok) as (c & Hl & Hc). rewrite Hl.
  pose proof (lru_get_no_invention now now' c k k' w Hc) as Hk. destruct (LRU_Get now c k) as [r c'].
  simpl in *. rewrite sharded_update_holds by done. case_decide as Hi; [|done].
  intros Hw%Hk. unfold sharded_holds. by rewrite <- Hi, Hl.
Qed.
Next Obligation.
  intros now now' s k v k' w Hok. simpl. unfold Sharded_Put.
  destruct (shard_lookup s k Hok) as (c & Hl & Hc). rewrite Hl, sharded_update_holds by done.
  case_decide as Hi.
  - intros Hw. destruct (lru_put_no_invention _ _ _ _ _ _ _ Hc Hw) as [?|[Hne Hh]]; [by left|right].
    split; [done|]. unfold sharded_holds. by rewrite <- Hi, Hl.
  - intros Hw. right. split; [|done]. by intros ->.
Qed.
Next Obligation.
  intros now s k v w Hok. simpl. unfold Sharded_Put.
  destruct (shard_lookup s k Hok) as (c & Hl & Hc). rewrite Hl, sharded_update_holds by done.
  rewrite decide_True by done. intros Hw.
  by destruct (lru_put_no_invention _ _ _ _ _ _ _ Hc Hw) as [[_ ->]|[? _]].
Qed.

Lemma NewShardedLRUWithCount_ok cap t f n :
  sharded_ok (NewShardedLRUWithCount cap t f n : ShardedLRU K V).
Proof.
  unfold NewShardedLRUWithCount, sharded_ok. simpl. rewrite length_replicate.
  split; [destruct (n <=? 0) eqn:E; unfold defaultShardCount; lia|]. split; [done|].
  apply Forall_replicate, NewLRU_ok.
Qed.
End Laws.

(** ** Properties *)

(** C19: Any sequence of [Get]s and [Put]s on a new LRU, which keeps a map of
    pointers into a linked list, returns exactly what the abstract
    most-recently-used-first list returns and ends in a state that stands for
    the same entries; the three data structures stay consistent and the number
    of entries never exceeds the capacity (1 for a capacity below 1). *)
Theorem lru_refines_spec {K V : Type} `{Countable K} (cap t : Z) (ops : list (lru_op (K:=K) (V:=V))) :
  let c := run lru_step (NewLRU cap t) ops in
  (c.1, entries c.2) = run (spec_step cap t) [] ops /\
  lru_inv c.2 /\ LRU_Len c.2 <= Z.max 1 cap.
Proof.
  destruct (run_refines ops (NewLRU cap t) (NewLRU_ok cap t)) as [[Hi Hl] He].
  split; [done|]. split; [done|]. clear -Hl.
  enough (Hc : capacity (run lru_step (NewLRU cap t : LRU K V) ops).2 = cap) by by rewrite Hc in Hl.
  clear Hl. generalize (NewLRU_ok (K:=K) (V:=V) cap t).
  assert (H0 : capacity (NewLRU cap t : LRU K V) = cap) by done.
  revert H0. generalize (NewLRU cap t : LRU K V) as c.
  induction ops as [|o ops IH]; intros c Hc Hok; [done|]. simpl.
  destruct (lru_step_refines c o Hok) as (Hok' & _ & Hcap & _).
  destruct (lru_step c o) as [r c']. simpl in *. specialize (IH c' ltac:(congruence) Hok').
  by destruct (run lru_step c' ops).
Qed.

(** Also: A value that was put stays readable: as long as fewer than [capacity]
    operations have touched other keys since, and the entry has not expired, a
    [Get] of the key returns it. *)
Theorem lru_recent_hit {K V : Type} `{Countable K} (c : LRU K V) (k : K) (v : V)
    (now now' : Z) (ops : list lru_op) :
  lru_ok c ->
  Forall (fun o => op_key o <> k) ops ->
  Z.of_nat (length ops) < capacity c ->
  now' <= now + ttl c ->
  (LRU_Get now' (run lru_step (LRU_Put now c k v) ops).2 k).1 = Some v.
Proof.
  intros Hok Hall Hlen Hnow. pose proof (lru_put_ok now c k v Hok) as Hok1.
  destruct (run_refines ops _ Hok1) as [Hok2 He]. rewrite lru_get_holds by done.
  destruct (LRU_Put_config now c k v) as [Hcap Httl]. destruct Hok as [Hinv _].
  destruct (LRU_Put_refines now c k v Hinv) as [_ Hput].
  apply (f_equal snd) in He. simpl in He. unfold lru_holds. rewrite He, Hcap, Httl, Hput.
  rewrite (within_find (0 + length ops) _ k {| e_key := k; e_value := v; e_expiresAt := now + ttl c |}).
  - unfold expired. simpl. destruct (_ <? _) eqn:E; [lia|done].
  - apply run_within; [apply spec_put_within|done|lia].
Qed.

Lemma lru_recent_hit_witness :
  (LRU_Get 12 (run lru_step (LRU_Put 10 (NewLRU 2 5) 1%nat "a"%string)
                  [OpPut 11 2%nat "b"%string]).2 1%nat).1 = Some "a"%string.
Proof.
  apply lru_recent_hit; [apply NewLRU_ok| |simpl; lia|simpl; lia].
  repeat constructor. simpl. lia.
Defined.

(** Also: Sharding is transparent: seen through the interface, a sharded cache
    answers a [Get] exactly like the LRU its key is routed to, so a value read
    was put last under that key and is not expired, whatever operations the
    other keys see. *)
Theorem sharded_get_after_put {K V : Type} `{Countable K} (s : ShardedLRU K V) (k : K) (v w : V)
    (now now' : Z) :
  sharded_ok s ->
  (Sharded_Get now' (Sharded_Put now s k v) k).1 = Some w ->
  w = v /\ exists c, shards s !! shard_index s k = Some c /\
                    (LRU_Get now' (LRU_Put now c k v) k).1 = Some w.
Proof.
  intros Hok Hget. destruct (shard_lookup s k Hok) as (c & Hl & Hc).
  assert (Hw : (LRU_Get now' (LRU_Put now c k v) k).1 = Some w).
  { unfold Sharded_Get, Sharded_Put in Hget. rewrite Hl in Hget. simpl in Hget.
    change (shard_index _ k) with (shard_index s k) in Hget.
    rewrite list_lookup_insert_eq in Hget by (by apply shard_index_lt).
    by destruct (LRU_Get now' (LRU_Put now c k v) k). }
  split; [|eauto]. rewrite lru_get_holds in Hw by (by apply lru_put_ok).
  by destruct (lru_put_no_invention _ _ _ _ _ _ _ Hc Hw) as [[_ ->]|[? _]].
Qed.

Lemma sharded_get_after_put_witness :
  true = true /\ exists c,
    shards (NewShardedLRUWithCount 8 5 id 4 : ShardedLRU string bool)
      !! shard_index (NewShardedLRUWithCount 8 5 id 4 : ShardedLRU string bool) "solana:usdc"%string = Some c /\
    (LRU_Get 12 (LRU_Put 10 c "solana:usdc"%string true) "solana:usdc"%string).1 = Some true.
Proof.
  apply sharded_get_after_put.
  - apply NewShardedLRUWithCount_ok.
  - vm_compute. reflexivity.
Defined.
