(* ===== verification/IngesterRules.v ===== *)
(** * Decision rules of the ingester: the pure functions of
    [internal/pipeline/ingester/ingester.go]

    When a batch is a reorganisation and from where it rolls back, which events
    change a balance, exact decimal arithmetic on amounts, scam signals, native
    tokens and the retry backoff. *)

From Stdlib Require Import ZArith String Ascii Lia.
From stdpp Require Import base option list strings gmap.
From S2P Require Import Prelude Retry Domain Identity.

Open Scope Z_scope.
Open Scope go_scope.

(** ** Canonicality drift and rollback *)

(** [CanonicalSignatureIdentity], or the trimmed value when that is empty. *)
Definition cursor_identity (chain : Chain) (v : string) : string :=
  let id := CanonicalSignatureIdentity chain v in
  if str_empty id then trim_space v else id.

Definition isCanonicalityDrift (batch : NormalizedBatch) : bool :=
  match nb_PreviousCursorValue batch, nb_NewCursorValue batch with
  | Some prev, Some new =>
      if nb_PreviousCursorSequence batch =? 0 then false
      else
        let prevIdentity := cursor_identity (nb_Chain batch) prev in
        let newIdentity := cursor_identity (nb_Chain batch) new in
        if nb_NewCursorSequence batch <? nb_PreviousCursorSequence batch then true
        else if (nb_NewCursorSequence batch =? nb_PreviousCursorSequence batch) &&
                negb (String.eqb prevIdentity newIdentity)
        then match nb_Transactions batch with [] => true | _ => false end
        else false
  | _, _ => false
  end.

Definition isBTCRestartAnchorReplay (batch : NormalizedBatch) : bool :=
  if negb (String.eqb (nb_Chain batch) ChainBTC) then false
  else
    match nb_PreviousCursorValue batch, nb_NewCursorValue batch with
    | Some prev, Some new =>
        if negb (nb_PreviousCursorSequence batch =? nb_NewCursorSequence batch) ||
           (nb_NewCursorSequence batch <=? 0) then false
        else
          match nb_Transactions batch with
          | [] =>
              let previousCursor := cursor_identity (nb_Chain batch) prev in
              let newCursor := cursor_identity (nb_Chain batch) new in
              if str_empty previousCursor || str_empty newCursor then false
              else negb (String.eqb previousCursor newCursor)
          | _ => false
          end
    | _, _ => false
    end.

(** The loop over [batch.Transactions]: the smallest positive block cursor, 0
    when there is none. *)
Definition earliest_cursor (txs : list NormalizedTransaction) : Z :=
  foldl (fun earliest tx =>
    if ntx_BlockCursor tx <=? 0 then earliest
    else if (earliest =? 0) || (ntx_BlockCursor tx <? earliest) then ntx_BlockCursor tx
    else earliest) 0 txs.

Definition rollbackBTCEarliestCompetingSequence (batch : NormalizedBatch) : option Z :=
  if negb (String.eqb (nb_Chain batch) ChainBTC) ||
     match nb_Transactions batch with [] => true | _ => false end then None
  else
    let earliest := earliest_cursor (nb_Transactions batch) in
    if (earliest =? 0) || (nb_NewCursorSequence batch <=? earliest) then None
    else Some earliest.

Definition rollbackForkCursorSequence (batch : NormalizedBatch) : Z :=
  if nb_NewCursorSequence batch <? nb_PreviousCursorSequence batch then
    match rollbackBTCEarliestCompetingSequence batch with
    | Some btcFloor => btcFloor
    | None => nb_NewCursorSequence batch
    end
  else nb_PreviousCursorSequence batch.

Definition withRollbackForkCursor (batch : NormalizedBatch) : NormalizedBatch :=
  {| nb_Chain := nb_Chain batch; nb_Network := nb_Network batch; nb_Address := nb_Address batch;
     nb_WalletID := nb_WalletID batch; nb_OrgID := nb_OrgID batch;
     nb_PreviousCursorValue := nb_PreviousCursorValue batch;
     nb_PreviousCursorSequence := rollbackForkCursorSequence batch;
     nb_Transactions := nb_Transactions batch; nb_NewCursorValue := nb_NewCursorValue batch;
     nb_NewCursorSequence := nb_NewCursorSequence batch; nb_BlockScanMode := nb_BlockScanMode batch;
     nb_WatchedAddresses := nb_WatchedAddresses batch |}.

Definition shouldContinueCompetingBranchReplay (batch : NormalizedBatch) : bool :=
  String.eqb (nb_Chain batch) ChainBTC &&
  match nb_Transactions batch with [] => false | _ => true end.

Definition shouldAdvanceCommitCheckpoint (batch : NormalizedBatch) : bool :=
  match nb_Transactions batch with
  | _ :: _ => true
  | [] =>
      if negb (nb_NewCursorSequence batch =? nb_PreviousCursorSequence batch) then true
      else match nb_PreviousCursorValue batch, nb_NewCursorValue batch with
           | None, None => false
           | None, Some _ | Some _, None => true
           | Some p, Some n => negb (String.eqb p n)
           end
  end.

(** ** Amounts *)

Definition strip_minus (s : string) : string :=
  match s with String "-" s' => s' | _ => s end.

Definition addDecimalStrings (a b : string) : result string string :=
  match parse_decimal (trim_space a) with
  | None => Err ("invalid decimal value: " +:+ a)
  | Some leftv =>
      match parse_decimal (trim_space b) with
      | None => Err ("invalid decimal value: " +:+ b)
      | Some rightv =>
          let res := show_Z (leftv + rightv) in
          let digits := strip_minus res in
          if (78 <? String.length digits)%nat
          then Err ("balance overflow: result has " +:+
                    show_Z (Z.of_nat (String.length digits)) +:+ " digits (max 78)")
          else Ok res
      end
  end.

(** ** Which events change a balance *)

Definition finalityStateRank (state : string) : Z :=
  let s := to_lower (trim_space state) in
  if str_empty s then 4
  else if str_in s ["processed"; "pending"; "latest"; "unsafe"] then 1
  else if str_in s ["confirmed"; "accepted"] then 2
  else if String.eqb s "safe" then 3
  else if String.eqb s "finalized" then 4
  else 0.

Definition meetsBalanceThreshold (chain : Chain) (finality : string) (tokenType : TokenType)
    (amount : string) : bool :=
  let finalityOK :=
    if String.eqb chain ChainSolana then true else 2 <=? finalityStateRank finality in
  if negb finalityOK then false
  else if String.eqb tokenType TokenTypeNative then true
  else match parse_decimal (trim_space amount) with
       | None => false
       | Some v => negb (v =? 0)
       end.

(** ** Scam signals

    [unmarshal] is [json.Unmarshal] into a [map[string]string]: [None] when the
    document is no such map. *)
Section Scam.
Variable unmarshal : string -> option (gmap string string).

Definition quote_char : ascii := ascii_of_N 34.
Definition scam_signal_literal : string :=
  String quote_char ("scam_signal" +:+ String quote_char "").

Definition propagated_signal (chainData : raw_json) : option string :=
  match chainData with
  | Some bytes =>
      if contains bytes scam_signal_literal then
        match unmarshal bytes with
        | Some metadata =>
            match metadata !! "scam_signal" with
            | Some signal => if str_empty signal then None else Some signal
            | None => None
            end
        | None => None
        end
      else None
  | None => None
  end.

(** [len(trimmed) > 1 && trimmed[0] == '-' && trimmed[1:] != "0"] *)
Definition looks_negative (trimmed : string) : bool :=
  match trimmed with
  | String "-" (String c rest) => negb (String.eqb (String c rest) "0")
  | _ => false
  end.

Definition detectScamSignal (chain : Chain) (be : NormalizedBalanceEvent)
    (balanceBefore : string) (balanceExists : bool) : string :=
  if String.eqb (nbe_TokenType be) TokenTypeNative then ""
  else if String.eqb chain ChainBTC then ""
  else match propagated_signal (nbe_ChainData be) with
       | Some signal => signal
       | None =>
           if looks_negative (trim_space (nbe_Delta be)) && negb balanceExists
           then "zero_balance_withdrawal" else ""
       end.
End Scam.

(** ** Tokens *)

Definition defaultTokenSymbol (be : NormalizedBalanceEvent) : string :=
  if negb (str_empty (nbe_TokenSymbol be)) then nbe_TokenSymbol be
  else if String.eqb (nbe_TokenType be) TokenTypeNative then "SOL" else "UNKNOWN".

Definition defaultTokenName (be : NormalizedBalanceEvent) : string :=
  if negb (str_empty (nbe_TokenName be)) then nbe_TokenName be
  else if String.eqb (nbe_TokenType be) TokenTypeNative then "Solana" else "Unknown Token".

Definition nativeTokenContract (ch : Chain) : string :=
  if String.eqb ch ChainSolana then "So11111111111111111111111111111111111111112"
  else if String.eqb ch ChainBTC then "btc_native"
  else "0x0000000000000000000000000000000000000000".

Definition nativeTokenSymbol (ch : Chain) : string :=
  if String.eqb ch ChainSolana then "SOL"
  else if str_in ch [ChainEthereum; ChainBase; ChainArbitrum] then "ETH"
  else if String.eqb ch ChainPolygon then "MATIC"
  else if String.eqb ch ChainBSC then "BNB"
  else if String.eqb ch ChainBTC then "BTC"
  else "NATIVE".

Definition nativeTokenName (ch : Chain) : string :=
  if String.eqb ch ChainSolana then "Solana"
  else if String.eqb ch ChainEthereum then "Ether"
  else if String.eqb ch ChainBase then "Ether"
  else if String.eqb ch ChainArbitrum then "Ether"
  else if String.eqb ch ChainPolygon then "MATIC"
  else if String.eqb ch ChainBSC then "BNB"
  else if String.eqb ch ChainBTC then "Bitcoin"
  else "Native Token".

Definition nativeTokenDecimals (ch : Chain) : Z :=
  if String.eqb ch ChainSolana then 9
  else if String.eqb ch ChainBTC then 8
  else 18.

Definition emptyJSONObject : raw_json := Some "{}".

Definition buildFeeOnlyEvent (ntx : NormalizedTransaction) (batch : NormalizedBatch)
    : NormalizedBalanceEvent :=
  let negFee := if has_prefix (ntx_FeeAmount ntx) "-" then ntx_FeeAmount ntx
                else "-" +:+ ntx_FeeAmount ntx in
  {| nbe_OuterInstructionIndex := 0; nbe_InnerInstructionIndex := 0;
     nbe_ActivityType := ActivityFee; nbe_EventAction := "fee_only_failed_tx";
     nbe_ProgramID := ""; nbe_ContractAddress := nativeTokenContract (nb_Chain batch);
     nbe_Address := ntx_FeePayer ntx; nbe_CounterpartyAddress := ""; nbe_Delta := negFee;
     nbe_ChainData := emptyJSONObject; nbe_TokenSymbol := nativeTokenSymbol (nb_Chain batch);
     nbe_TokenName := nativeTokenName (nb_Chain batch);
     nbe_TokenDecimals := nativeTokenDecimals (nb_Chain batch);
     nbe_TokenType := TokenTypeNative;
     nbe_EventID := "fee:" +:+ nb_Chain batch +:+ ":" +:+ ntx_TxHash ntx;
     nbe_BlockHash := ntx_BlockHash ntx; nbe_TxIndex := 0; nbe_EventPath := "fee_only";
     nbe_EventPathType := "synthetic"; nbe_ActorAddress := ""; nbe_AssetType := "";
     nbe_AssetID := ""; nbe_FinalityState := ""; nbe_DecoderVersion := ""; nbe_SchemaVersion := "" |}.

Definition derefStr (p : option string) : string := match p with Some s => s | None => "" end.
Definition strPtrOrNil (s : string) : option string := if str_empty s then None else Some s.

(** [oldestBlockTime] *)
Definition oldestBlockTime (txs : list NormalizedTransaction) : option Z :=
  foldl (fun oldest tx =>
    match ntx_BlockTime tx with
    | None => oldest
    | Some t => match oldest with
                | None => Some t
                | Some o => if t <? o then Some t else oldest
                end
    end) None txs.

(** ** Ambiguous commits *)

Definition ambiguousCommitTokens : list string :=
  ["driver: bad connection"; "connection reset"; "broken pipe"; "unexpected eof"; "eof";
   "i/o timeout"; "timed out"; "timeout"; "network is unreachable"; "connection aborted";
   "connection closed"; "transport is closing"].

Definition isAmbiguousCommitAckError (err : option go_error) : bool :=
  match err with
  | None => false
  | Some e => IsTransient (Classify (Some e)) ||
              contains_any (to_lower (error_text e)) ambiguousCommitTokens
  end.

(** ** Retry backoff *)

Definition effectiveRetryMaxAttempts (retryMaxAttempts : Z) : Z :=
  if retryMaxAttempts <=? 0 then 1 else retryMaxAttempts.

(** [for i := 1; i < attempt; i++ { delay *= 2; ... }], [n] iterations left. *)
Fixpoint double_delay (n : nat) (delay retryDelayMax : Z) : Z :=
  match n with
  | O => delay
  | S n' =>
      let delay := delay ⊗ 2 in
      if (0 <? retryDelayMax) && (retryDelayMax <=? delay) then retryDelayMax
      else double_delay n' delay retryDelayMax
  end.

(** [rand.Int64N(n)] panics when [n <= 0]: [rand n] is the value drawn, and
    [None] the panic. *)
Definition retryDelay (rand : Z -> Z) (retryDelayStart retryDelayMax attempt : Z) : option Z :=
  if retryDelayStart <=? 0 then Some 0
  else
    let delay :=
      if attempt <=? 1 then
        if (0 <? retryDelayMax) && (retryDelayMax <? retryDelayStart) then retryDelayMax
        else retryDelayStart
      else double_delay (Z.to_nat (attempt - 1)) retryDelayStart retryDelayMax in
    if 0 <? delay then
      let n := Z.quot delay 4 in
      if n <=? 0 then None else Some (delay ⊕ rand n)
    else Some delay.

(** ** Lemmas *)

Lemma strip_minus_show z : strip_minus (show_Z z) = show_abs z.
Proof.
  destruct (Z.lt_ge_cases z 0).
  - by rewrite show_Z_neg.
  - rewrite show_Z_nonneg by done. unfold show_abs. by destruct (N.to_uint _).
Qed.

Lemma earliest_cursor_fold txs acc :
  0 <= acc ->
  let e := foldl (fun earliest tx =>
    if ntx_BlockCursor tx <=? 0 then earliest
    else if (earliest =? 0) || (ntx_BlockCursor tx <? earliest) then ntx_BlockCursor tx
    else earliest) acc txs in
  0 <= e /\ (acc <> 0 -> 0 < e <= acc) /\
  (forall tx, tx ∈ txs -> 0 < ntx_BlockCursor tx -> 0 < e <= ntx_BlockCursor tx) /\
  (e <> 0 -> e = acc \/ exists tx, tx ∈ txs /\ ntx_BlockCursor tx = e).
Proof.
  revert acc; induction txs as [|tx txs IH]; intros acc Hacc; simpl.
  - split_and!; try lia. intros tx Htx; set_solver.
  - set (acc' := if ntx_BlockCursor tx <=? 0 then acc
                 else if (acc =? 0) || (ntx_BlockCursor tx <? acc) then ntx_BlockCursor tx else acc).
    assert (Hacc' : 0 <= acc' /\ (acc <> 0 -> 0 < acc' <= acc) /\
                    (0 < ntx_BlockCursor tx -> 0 < acc' <= ntx_BlockCursor tx) /\
                    (acc' = acc \/ acc' = ntx_BlockCursor tx)).
    { unfold acc'. destruct (ntx_BlockCursor tx <=? 0) eqn:?; [repeat split; auto; lia|].
      destruct ((acc =? 0) || (ntx_BlockCursor tx <? acc)) eqn:?; repeat split; auto; lia. }
    specialize (IH acc' ltac:(lia)). simpl in IH. destruct IH as (H1 & H2 & H3 & H4).
    split_and!; try lia.
    + intros t [->|Ht]%elem_of_cons Hp; [lia|by apply H3].
    + intros He. destruct (H4 He) as [->|(t & Ht & Hte)]; [|right; exists t; set_solver].
      destruct Hacc' as (_ & _ & _ & [->| ->]); [by left|right]. exists tx. set_solver.
Qed.

Lemma btc_floor_spec batch f :
  rollbackBTCEarliestCompetingSequence batch = Some f ->
  0 < f < nb_NewCursorSequence batch /\
  (forall tx, tx ∈ nb_Transactions batch -> 0 < ntx_BlockCursor tx -> f <= ntx_BlockCursor tx) /\
  exists tx, tx ∈ nb_Transactions batch /\ ntx_BlockCursor tx = f.
Proof.
  unfold rollbackBTCEarliestCompetingSequence. destruct (_ || _); [done|].
  destruct (earliest_cursor_fold (nb_Transactions batch) 0 ltac:(lia)) as (H0 & _ & Hall & Hex).
  fold (earliest_cursor (nb_Transactions batch)) in *.
  destruct (_ || _) eqn:E; [done|]. intros [= <-].
  split; [lia|]. split; [intros; by apply Hall|]. destruct Hex as [?|?]; [lia|lia|done].
Qed.

(** Also: The block a rollback starts from: it never lies above the batch's old
    or new cursor, every positive block of the competing BTC branch is at or
    above it, and recomputing it on the batch [withRollbackForkCursor] hands to
    the reorg handler gives the same block. *)
Theorem rollback_fork_cursor_sound (batch : NormalizedBatch) :
  let fork := rollbackForkCursorSequence batch in
  (nb_NewCursorSequence batch <= nb_PreviousCursorSequence batch ->
     fork <= nb_NewCursorSequence batch) /\
  fork <= nb_PreviousCursorSequence batch /\
  (nb_NewCursorSequence batch < nb_PreviousCursorSequence batch -> nb_Chain batch = ChainBTC ->
     forall tx, tx ∈ nb_Transactions batch -> 0 < ntx_BlockCursor tx ->
       fork <= Z.min (ntx_BlockCursor tx) (nb_NewCursorSequence batch) \/ fork = nb_NewCursorSequence batch /\
       nb_NewCursorSequence batch <= ntx_BlockCursor tx) /\
  rollbackForkCursorSequence (withRollbackForkCursor batch) = fork.
Proof.
  unfold rollbackForkCursorSequence at 1. simpl.
  assert (Hfloor : forall f, rollbackBTCEarliestCompetingSequence batch = Some f ->
                     f < nb_NewCursorSequence batch) by (intros f Hf; apply btc_floor_spec in Hf; lia).
  split; [|split; [|split]].
  - intros Hle. unfold rollbackForkCursorSequence. destruct (_ <? _) eqn:E; [|lia].
    destruct (rollbackBTCEarliestCompetingSequence batch) eqn:Ef; [|lia]. specialize (Hfloor _ eq_refl). lia.
  - unfold rollbackForkCursorSequence. destruct (_ <? _) eqn:E; [|lia].
    destruct (rollbackBTCEarliestCompetingSequence batch) eqn:Ef; [|lia]. specialize (Hfloor _ eq_refl). lia.
  - intros Hlt Hbtc tx Htx Hpos. unfold rollbackForkCursorSequence.
    destruct (_ <? _) eqn:E; [|lia].
    destruct (rollbackBTCEarliestCompetingSequence batch) as [f|] eqn:Ef.
    + left. apply btc_floor_spec in Ef as (? & Hall & _). specialize (Hall tx Htx Hpos). lia.
    + right. split; [done|]. unfold rollbackBTCEarliestCompetingSequence in Ef. rewrite Hbtc in Ef.
      simpl in Ef. destruct (nb_Transactions batch) as [|t0 ts] eqn:Etx; [set_solver|]. rewrite <- Etx in *.
      destruct (earliest_cursor_fold (nb_Transactions batch) 0 ltac:(lia)) as (H0 & _ & Hall & _).
      fold (earliest_cursor (nb_Transactions batch)) in *. specialize (Hall tx Htx Hpos).
      destruct (_ || _) eqn:E2; [lia|done].
  - unfold rollbackForkCursorSequence.
    change (rollbackBTCEarliestCompetingSequence (withRollbackForkCursor batch))
      with (rollbackBTCEarliestCompetingSequence batch). simpl.
    unfold rollbackForkCursorSequence. destruct (_ <? nb_PreviousCursorSequence batch) eqn:E; [|by rewrite E].
    destruct (rollbackBTCEarliestCompetingSequence batch) as [f|] eqn:Ef.
    + specialize (Hfloor _ eq_refl). by replace (_ <? f) with false by lia.
    + by rewrite Z.ltb_irrefl.
Qed.

(** Also: [addDecimalStrings] is exact integer addition guarded by the width of
    the amount column: it succeeds exactly when both operands are decimal
    integers (surrounding blanks allowed) and the sum has at most 78 digits; the
    result then is the canonical decimal of the sum, which parses back to it. *)
Theorem addDecimalStrings_exact (a b : string) :
  match addDecimalStrings a b with
  | Ok s => exists x y,
      parse_decimal (trim_space a) = Some x /\ parse_decimal (trim_space b) = Some y /\
      Z.abs (x + y) < 10 ^ 78 /\ s = show_Z (x + y) /\ parse_decimal s = Some (x + y)
  | Err _ =>
      parse_decimal (trim_space a) = None \/ parse_decimal (trim_space b) = None \/
      exists x y, parse_decimal (trim_space a) = Some x /\ parse_decimal (trim_space b) = Some y /\
        10 ^ 78 <= Z.abs (x + y)
  end.
Proof.
  unfold addDecimalStrings.
  destruct (parse_decimal (trim_space a)) as [x|]; [|by left].
  destruct (parse_decimal (trim_space b)) as [y|]; [|by right; left].
  rewrite strip_minus_show. pose proof (show_abs_length (x + y) 78 ltac:(lia)) as Hlen.
  destruct (78 <? _)%nat eqn:E.
  - right; right. exists x, y. apply Nat.ltb_lt in E. split_and!; [done..|lia].
  - exists x, y. apply Nat.ltb_ge in E. split_and!; [done..|lia|done|apply parse_show].
Qed.

(** Doubling capped at [m] is a power of two capped at [m], while [2 * m] fits. *)
Lemma double_delay_spec n d m :
  0 < d <= m -> m < 2 ^ 62 ->
  double_delay n d m = Z.min m (d * 2 ^ Z.of_nat n).
Proof.
  revert d; induction n as [|n IH]; intros d Hd Hm; cbn [double_delay].
  - rewrite Z.mul_1_r. lia.
  - rewrite wrap64_id by (unfold in_int64, min_int64, max_int64; lia).
    replace (d * 2 ^ Z.of_nat (S n)) with (d * 2 * 2 ^ Z.of_nat n).
    2:{ rewrite Nat2Z.inj_succ, Z.pow_succ_r; lia. }
    assert (0 < 2 ^ Z.of_nat n) by lia.
    destruct (_ && _) eqn:E; [|apply IH; lia].
    rewrite Z.min_l; [done|]. nia.
Qed.

(** Also: The retry backoff: with a start delay of at least 4ns and a cap below
    [2^62] ns, every attempt sleeps the start delay doubled once per earlier
    attempt, capped, plus a jitter of less than a quarter of it. *)
Theorem retryDelay_bounds (rand : Z -> Z) (start max attempt : Z)
    (Hrand : forall n, 0 < n -> 0 <= rand n < n)
    (Hstart : 4 <= start) (Hmax : start <= max) (Hfit : max < 2 ^ 62) (Hatt : 1 <= attempt) :
  let base := Z.min max (start * 2 ^ (attempt - 1)) in
  exists d, retryDelay rand start max attempt = Some d /\ base <= d < base + base / 4.
Proof.
  intros base. unfold retryDelay. destruct (start <=? 0) eqn:E0; [lia|].
  assert (Hbase : (if attempt <=? 1
                   then if (0 <? max) && (max <? start) then max else start
                   else double_delay (Z.to_nat (attempt - 1)) start max) = base).
  { unfold base. destruct (attempt <=? 1) eqn:E1.
    - replace (attempt - 1) with 0 by lia. rewrite Z.mul_1_r. destruct (_ && _) eqn:E2; lia.
    - rewrite double_delay_spec by lia. by rewrite Z2Nat.id by lia. }
  rewrite Hbase. assert (Hb : 4 <= base < 2 ^ 62).
  { unfold base. assert (0 < 2 ^ (attempt - 1)) by lia. nia. }
  destruct (0 <? base) eqn:E1; [|lia]. rewrite Z.quot_div_nonneg by lia.
  assert (1 <= base / 4) by (apply Z.div_le_lower_bound; lia).
  destruct (base / 4 <=? 0) eqn:E2; [lia|].
  pose proof (Hrand (base / 4) ltac:(lia)) as Hr.
  assert (base / 4 <= base) by (apply Z.div_le_upper_bound; lia).
  exists (base + rand (base / 4)). split; [|lia].
  f_equal. apply wrap64_id. unfold in_int64, min_int64, max_int64. lia.
Qed.

Lemma retryDelay_bounds_witness :
  exists d, retryDelay (fun _ => 0) 1000 8000 3 = Some d /\ 4000 <= d < 5000.
Proof.
  apply (retryDelay_bounds (fun _ => 0) 1000 8000 3); lia.
Defined.

(** A start delay below 4ns makes [rand.Int64N] panic on the first retry. *)
Lemma retryDelay_small_panics rand start max :
  1 <= start < 4 -> max <= 0 \/ start <= max -> retryDelay rand start max 1 = None.
Proof.
  intros Hs Hm. unfold retryDelay. destruct (start <=? 0) eqn:E; [lia|]. cbn [Z.leb Z.compare Pos.compare Pos.compare_cont].
  destruct (_ && _) eqn:E1; [lia|]. destruct (0 <? start) eqn:E2; [|lia].
  replace (Z.quot start 4) with 0; [done|]. symmetry. apply Z.quot_small. lia.
Qed.
