(* ===== verification/Effects.v ===== *)
(** * Effects of the pipeline: transactions, faults, caches, clocks

    The pipeline's stateful code runs in [M]: a computation that reads and
    writes a [world] and returns a value or a Go error.  The world holds the
    committed database, the working copy of the open transaction, the denied
    token cache, the block-scan address cache and the trace of interleaver
    releases.  [env] is what the code does not control: which call to the
    database fails and with what error, what becomes of a commit, the clock,
    the iteration order of Go maps, and the configured collaborators.

    Faults and the clock are indexed by a counter ([w_tick]) that every external
    call increments, so an environment may answer each call differently. *)

From Stdlib Require Import ZArith String Lia.
From stdpp Require Import base option list strings gmap.
From S2P Require Import Prelude Retry Domain Store Cache.

Open Scope Z_scope.

(** What a [COMMIT] does: it succeeds; it fails and the transaction is lost; it
    is applied but its acknowledgement is lost, so the driver returns an error. *)
Inductive commit_outcome :=
| CommitOk
| CommitLost (e : go_error)
| CommitUnacked (e : go_error).

Record addrMeta := { am_walletID : option string; am_orgID : option string }.

Record env := {
  (** The error the [n]th external call returns, if it fails. *)
  env_fault : nat -> option go_error;
  env_commit : nat -> commit_outcome;
  env_clock : nat -> Z;
  (** [ctx.Err()] when asked for at the [n]th call. *)
  env_ctx_err : nat -> option go_error;
  (** PostgreSQL's and the driver's rendering of an SQL error. *)
  env_pg_error : sql_error -> go_error;
  (** The row an [UPDATE ... FROM] picks; see [BulkAdjustBalanceTx]. *)
  env_pick : BulkAdjustItem -> list BulkAdjustItem -> BulkAdjustItem;
  env_uuid : nat -> uuid;
  (** [json.Unmarshal] into a [map[string]string]. *)
  env_unmarshal : string -> option (gmap string string);
  (** The order in which Go iterates over a map of these entries. *)
  env_shuffle : forall A : Type, list A -> list A;
  env_rand : Z -> Z;
  (** Collaborators: nil is [None] or [false]. *)
  env_addressIndex : option (nat -> Chain -> Network -> string -> option addrMeta);
  env_watchedAddrRepo : option (nat -> Chain -> Network -> list WatchedAddress);
  env_blockRepo : bool;
  env_interleaver : bool;
  env_replayService : bool;
  (** Configuration of the retry loop and of the address cache. *)
  env_retryMaxAttempts : Z;
  env_retryDelayStart : Z;
  env_retryDelayMax : Z;
  env_blockScanAddrCacheTTL : Z
}.

(** The laws of an environment: picks come from the joined rows, iteration
    visits every entry once, random draws are in range. *)
Class EnvOk (E : env) := {
  env_pick_in i l : env_pick E i l ∈ i :: l;
  env_shuffle_perm (A : Type) (l : list A) : env_shuffle E A l ≡ₚ l;
  env_rand_range n : 0 < n -> 0 <= env_rand E n < n
}.

Record world (C : Type) := {
  w_db : db;
  w_tx : db;
  w_denied : C;
  w_addrs : gmap string (gmap string addrMeta * Z);
  w_released : list bool;
  w_tick : nat
}.
Arguments w_db {C} _.
Arguments w_tx {C} _.
Arguments w_denied {C} _.
Arguments w_addrs {C} _.
Arguments w_released {C} _.
Arguments w_tick {C} _.

Section Monad.
Context {C : Type}.

Definition set_db (d : db) (w : world C) : world C :=
  {| w_db := d; w_tx := w_tx w; w_denied := w_denied w; w_addrs := w_addrs w;
     w_released := w_released w; w_tick := w_tick w |}.
Definition set_tx (d : db) (w : world C) : world C :=
  {| w_db := w_db w; w_tx := d; w_denied := w_denied w; w_addrs := w_addrs w;
     w_released := w_released w; w_tick := w_tick w |}.
Definition set_denied (c : C) (w : world C) : world C :=
  {| w_db := w_db w; w_tx := w_tx w; w_denied := c; w_addrs := w_addrs w;
     w_released := w_released w; w_tick := w_tick w |}.
Definition set_addrs (a : gmap string (gmap string addrMeta * Z)) (w : world C) : world C :=
  {| w_db := w_db w; w_tx := w_tx w; w_denied := w_denied w; w_addrs := a;
     w_released := w_released w; w_tick := w_tick w |}.
Definition set_released (r : list bool) (w : world C) : world C :=
  {| w_db := w_db w; w_tx := w_tx w; w_denied := w_denied w; w_addrs := w_addrs w;
     w_released := r; w_tick := w_tick w |}.
Definition tick (w : world C) : world C :=
  {| w_db := w_db w; w_tx := w_tx w; w_denied := w_denied w; w_addrs := w_addrs w;
     w_released := w_released w; w_tick := S (w_tick w) |}.

Definition M (A : Type) : Type := world C -> result go_error A * world C.

Definition ret {A} (a : A) : M A := fun w => (Ok a, w).
Definition fail {A} (e : go_error) : M A := fun w => (Err e, w).
Definition bind {A B} (m : M A) (k : A -> M B) : M B := fun w =>
  match m w with
  | (Ok a, w') => k a w'
  | (Err e, w') => (Err e, w')
  end.
(** [if err := ...; err != nil { return fmt.Errorf("text: %w", err) }] *)
Definition wrap_err {A} (text : string) (m : M A) : M A := fun w =>
  match m w with
  | (Ok a, w') => (Ok a, w')
  | (Err e, w') => (Err (EWrap text e), w')
  end.

(** A [for range] loop that may return early. *)
Fixpoint mfold {A B} (f : B -> A -> M B) (acc : B) (l : list A) : M B :=
  match l with
  | [] => ret acc
  | x :: l' => bind (f acc x) (fun acc' => mfold f acc' l')
  end.
End Monad.
Arguments M : clear implicits.

Declare Scope eff_scope.
Delimit Scope eff_scope with eff.
Notation "'do!' x <- m ; k" := (bind m (fun x => k))
  (at level 10, x name, m at level 100, k at level 200) : eff_scope.
Notation "'do!' ' p <- m ; k" := (bind m (fun x => match x with p => k end))
  (at level 10, p pattern, m at level 100, k at level 200) : eff_scope.
Open Scope eff_scope.

Section Calls.
Context {C : Type} (E : env).

(** One statement on the open transaction. *)
Definition call {A} (f : db -> result sql_error (db * A)) : M C A := fun w =>
  match env_fault E (w_tick w) with
  | Some e => (Err e, tick w)
  | None =>
      match f (w_tx w) with
      | Ok (d, a) => (Ok a, set_tx d (tick w))
      | Err e => (Err (env_pg_error E e), tick w)
      end
  end.

Definition exec (f : db -> result sql_error db) : M C unit :=
  call (fun d => let! d' := f d in Ok (d', tt)).
Definition query {A} (f : db -> A) : M C A := call (fun d => Ok (d, f d)).

(** A read outside the transaction. *)
Definition query_committed {A} (f : db -> A) : M C A := fun w =>
  match env_fault E (w_tick w) with
  | Some e => (Err e, tick w)
  | None => (Ok (f (w_db w)), tick w)
  end.

(** [db.BeginTx]: the working copy starts as the committed state. *)
Definition BeginTx : M C unit := fun w =>
  match env_fault E (w_tick w) with
  | Some e => (Err e, tick w)
  | None => (Ok tt, set_tx (w_db w) (tick w))
  end.

(** [dbTx.Commit()], whose error the caller inspects. *)
Definition Commit : M C (option go_error) := fun w =>
  match env_commit E (w_tick w) with
  | CommitOk => (Ok None, set_db (w_tx w) (tick w))
  | CommitLost e => (Ok (Some e), tick w)
  | CommitUnacked e => (Ok (Some e), set_db (w_tx w) (tick w))
  end.
End Calls.

(** ** Frame reasoning *)

Section Frame.
Context {C : Type}.

(** [m] never touches the committed database or the releases. *)
Definition in_tx {A} (m : M C A) : Prop := forall w,
  w_db (m w).2 = w_db w /\ w_released (m w).2 = w_released w.

Lemma in_tx_ret {A} (a : A) : in_tx (ret a).
Proof. by intros w. Qed.
Lemma in_tx_fail {A} e : in_tx (fail (A:=A) e).
Proof. by intros w. Qed.
Lemma in_tx_bind {A B} (m : M C A) (k : A -> M C B) :
  in_tx m -> (forall a, in_tx (k a)) -> in_tx (bind m k).
Proof.
  intros Hm Hk w. unfold bind. specialize (Hm w).
  destruct (m w) as [[a|e] w'] eqn:Ew; simpl in *; [|done].
  destruct (Hk a w'), Hm. split; congruence.
Qed.
Lemma in_tx_wrap {A} t (m : M C A) : in_tx m -> in_tx (wrap_err t m).
Proof.
  intros Hm w. specialize (Hm w). unfold wrap_err. by destruct (m w) as [[a|e] w'].
Qed.
Lemma in_tx_mfold {A B} (f : B -> A -> M C B) acc l :
  (forall b a, in_tx (f b a)) -> in_tx (mfold f acc l).
Proof.
  intros Hf. revert acc; induction l as [|x l IH]; intros acc; simpl;
    [apply in_tx_ret|by apply in_tx_bind].
Qed.
Lemma in_tx_call {A} E (f : db -> result sql_error (db * A)) : in_tx (call E f).
Proof.
  intros w. unfold call. destruct (env_fault _ _); [done|].
  by destruct (f _) as [[??]|].
Qed.
Lemma in_tx_query_committed {A} E (f : db -> A) : in_tx (query_committed E f).
Proof. intros w. unfold query_committed. by destruct (env_fault _ _). Qed.
Lemma in_tx_BeginTx E : in_tx (BeginTx E).
Proof. intros w. unfold BeginTx. by destruct (env_fault _ _). Qed.
End Frame.

Create HintDb eff discriminated.
#[export] Hint Constants Opaque : eff.
#[export] Hint Resolve in_tx_ret in_tx_fail in_tx_bind in_tx_wrap in_tx_mfold in_tx_call
  in_tx_query_committed in_tx_BeginTx : eff.

(** Inverting successful computations. *)
Lemma bind_ok {C A B} (m : M C A) (k : A -> M C B) w b w' :
  bind m k w = (Ok b, w') <-> exists a w1, m w = (Ok a, w1) /\ k a w1 = (Ok b, w').
Proof.
  unfold bind. destruct (m w) as [[a|e] w1]; split; try naive_solver.
Qed.
Lemma wrap_ok {C A} t (m : M C A) w a w' : wrap_err t m w = (Ok a, w') <-> m w = (Ok a, w').
Proof. unfold wrap_err. destruct (m w) as [[?|?] ?]; naive_solver. Qed.
Lemma call_ok {C A} E (f : db -> result sql_error (db * A)) (w : world C) a w' :
  call E f w = (Ok a, w') ->
  exists d, f (w_tx w) = Ok (d, a) /\ w' = set_tx d (tick w).
Proof.
  unfold call. destruct (env_fault _ _); [done|]. destruct (f _) as [[d a']|]; [|done].
  intros [= <- <-]. eauto.
Qed.
Lemma exec_ok {C} E (f : db -> result sql_error db) (w : world C) u w' :
  exec E f w = (Ok u, w') -> exists d, f (w_tx w) = Ok d /\ w' = set_tx d (tick w).
Proof.
  intros (d & Hd & ->)%call_ok. apply rbind_ok in Hd as (d' & ? & [= <- <-]). eauto.
Qed.
Lemma query_ok {C A} E (f : db -> A) (w : world C) a w' :
  query E f w = (Ok a, w') -> a = f (w_tx w) /\ w' = set_tx (w_tx w) (tick w).
Proof. intros (d & [= <- <-] & ->)%call_ok. done. Qed.

Lemma BeginTx_ok {C} E (w : world C) u w' :
  BeginTx E w = (Ok u, w') -> w' = set_tx (w_db w) (tick w).
Proof. unfold BeginTx. destruct (env_fault _ _); [done|]. by intros [= _ <-]. Qed.
Lemma Commit_ok {C} E (w : world C) w' :
  Commit E w = (Ok None, w') -> w' = set_db (w_tx w) (tick w).
Proof. unfold Commit. destruct (env_commit _ _); try done. by intros [= <-]. Qed.

(** The committed database after a commit that reports an error. *)
Lemma Commit_err {C} E (w : world C) e w' :
  Commit E w = (Ok (Some e), w') ->
  w_db w' = w_db w \/ w_db w' = w_tx w /\ env_commit E (w_tick w) = CommitUnacked e.
Proof.
  unfold Commit. destruct (env_commit _ _) eqn:Ec; try done; intros [= <- <-]; simpl; auto.
Qed.
Lemma Commit_total {C} E (w : world C) : exists o w', Commit E w = (Ok o, w').
Proof. unfold Commit. destruct (env_commit _ _); eauto. Qed.

(** Takes a hypothesis that a sequence of steps succeeded apart, step by step. *)
Ltac inv_do H :=
  lazymatch type of H with
  | bind _ _ _ = (Ok _, _) =>
      let a := fresh "a" in let w := fresh "w" in let H1 := fresh "H" in
      apply bind_ok in H as (a & w & H1 & H); inv_do H1; inv_do H
  | wrap_err _ _ _ = (Ok _, _) => apply wrap_ok in H; inv_do H
  | exec _ _ _ = (Ok _, _) =>
      let d := fresh "d" in let Hd := fresh "Hd" in apply exec_ok in H as (d & Hd & ->)
  | query _ _ _ = (Ok _, _) => apply query_ok in H as [-> ->]
  | call _ _ _ = (Ok _, _) =>
      let d := fresh "d" in let Hd := fresh "Hd" in apply call_ok in H as (d & Hd & ->)
  | BeginTx _ _ = (Ok _, _) => apply BeginTx_ok in H as ->
  | ret _ _ = (Ok _, _) => injection H as <- <-
  | fail _ _ = (Ok _, _) => discriminate H
  | _ => idtac
  end.

(** ** Where a computation can leave the committed database

    [lands Pre m P]: from a world that satisfies [Pre], [m] leaves the committed
    database as it was, or in a state [P] relates to it, whether it succeeds or
    fails. *)
Section Lands.
Context {C : Type}.

Definition lands {A} (Pre : world C -> Prop) (m : M C A) (P : db -> Prop) : Prop :=
  forall w, Pre w -> w_db (m w).2 = w_db w \/ P (w_db (m w).2).

Lemma lands_in_tx {A} Pre (m : M C A) P : in_tx m -> lands Pre m P.
Proof. intros Hm w _. left. apply Hm. Qed.

Lemma lands_bind {A B} (Pre : world C -> Prop) (Mid : A -> world C -> Prop) (m : M C A)
    (k : A -> M C B) P :
  in_tx m -> (forall w a w', Pre w -> m w = (Ok a, w') -> Mid a w') ->
  (forall a, lands (Mid a) (k a) P) -> lands Pre (bind m k) P.
Proof.
  intros Hm Hmid Hk w Hw. unfold bind. pose proof (Hm w) as [Hdb _].
  destruct (m w) as [[a|e] w1] eqn:Em; simpl in *; [|by left].
  destruct (Hk a w1) as [H|H]; [by eapply Hmid| |by right]. left. congruence.
Qed.

Lemma lands_wrap {A} t Pre (m : M C A) P : lands Pre m P -> lands Pre (wrap_err t m) P.
Proof. intros Hm w Hw. specialize (Hm w Hw). unfold wrap_err. by destruct (m w) as [[?|?] ?]. Qed.

Lemma lands_seq_ret {A B} Pre (m : M C A) (f : A -> B) P :
  lands Pre m P -> lands Pre (bind m (fun a => ret (f a))) P.
Proof. intros Hm w Hw. specialize (Hm w Hw). unfold bind. by destruct (m w) as [[?|?] ?]. Qed.

Lemma lands_commit {A} E (Pre : world C -> Prop) (k : option go_error -> M C A) (P : db -> Prop) :
  (forall w, Pre w -> P (w_tx w)) -> (forall o, in_tx (k o)) -> lands Pre (bind (Commit E) k) P.
Proof.
  intros HP Hk w Hw. unfold bind. destruct (Commit_total E w) as (o & w1 & Hc). rewrite Hc.
  destruct (Hk o w1) as [-> _]. destruct o as [e|].
  - destruct (Commit_err _ _ _ _ Hc) as [->|[-> _]]; auto.
  - apply Commit_ok in Hc as ->. right. by apply HP.
Qed.
End Lands.

(** ** Errors that leave no trace

    [safe_err T m]: an error of [m] means that the committed database is
    unchanged, or the error satisfies [T]. *)
Section SafeErr.
Context {C : Type} (T : go_error -> Prop).

Definition safe_err {A} (m : M C A) : Prop := forall w e w',
  m w = (Err e, w') -> w_db w' = w_db w \/ T e.

Lemma safe_err_in_tx {A} (m : M C A) : in_tx m -> safe_err m.
Proof. intros Hm w e w' H. left. specialize (Hm w). rewrite H in Hm. apply Hm. Qed.

Lemma safe_err_bind {A B} (m : M C A) (k : A -> M C B) :
  in_tx m -> (forall a, safe_err (k a)) -> safe_err (bind m k).
Proof.
  intros Hm Hk w e w'. unfold bind. pose proof (Hm w) as [Hdb _].
  destruct (m w) as [[a|e1] w1]; simpl in *.
  - intros [?|?]%Hk; [left; congruence|by right].
  - intros [= <- <-]. by left.
Qed.

Lemma safe_err_ret {A B} (m : M C A) (f : A -> B) : safe_err m -> safe_err (bind m (fun a => ret (f a))).
Proof.
  intros Hm w e w'. unfold bind. specialize (Hm w). destruct (m w) as [[a|e1] w1]; [done|].
  intros [= <- <-]. by apply Hm.
Qed.

(** A commit that reports an error must be answered with an error in [T]. *)
Lemma safe_err_commit {A} E (k : option go_error -> M C A) :
  (forall w, exists a w', k None w = (Ok a, w')) ->
  (forall err w1 e w', k (Some err) w1 = (Err e, w') ->
     (exists n, env_commit E n = CommitUnacked err) -> T e) ->
  (forall err, in_tx (k (Some err))) ->
  safe_err (bind (Commit E) k).
Proof.
  intros Hok Hbad Hin w e w'. unfold bind. destruct (Commit_total E w) as ([err|] & w1 & Hc); rewrite Hc.
  - intros H. pose proof (Hin err w1) as [Hdb _]. rewrite H in Hdb. simpl in Hdb.
    destruct (Commit_err _ _ _ _ Hc) as [Hsame|[_ Hun]]; [left; congruence|right]. eauto.
  - destruct (Hok w1) as (a & w2 & ->). done.
Qed.
End SafeErr.

Lemma ran_ok {C A} (p : result go_error A * world C) :
  is_ok p.1 = true -> exists a, p = (Ok a, p.2).
Proof. destruct p as [[a|e] w]; [by exists a|done]. Qed.

(** ** A calm environment

    Nothing fails, maps iterate in the order of [map_to_list], joins use their
    first row, identifiers count from 1; no collaborator but the block
    repository is configured.  Examples and witnesses run in it. *)
Definition calm : env := {|
  env_fault := fun _ => None; env_commit := fun _ => CommitOk; env_clock := fun n => Z.of_nat n;
  env_ctx_err := fun _ => None; env_pg_error := fun _ => EMsg "pq: error";
  env_pick := fun i _ => i; env_uuid := fun n => N.of_nat (S n); env_unmarshal := fun _ => None;
  env_shuffle := fun _ l => l; env_rand := fun _ => 0; env_addressIndex := None;
  env_watchedAddrRepo := None; env_blockRepo := true; env_interleaver := false;
  env_replayService := false; env_retryMaxAttempts := 3; env_retryDelayStart := 100000000;
  env_retryDelayMax := 1000000000; env_blockScanAddrCacheTTL := 30000000000 |}.

#[export] Instance calm_ok : EnvOk calm.
Proof. split; intros; simpl; [set_solver|done|lia]. Qed.

Definition empty_db : db :=
  {| db_balances := ∅; db_events := []; db_watermarks := ∅; db_blocks := ∅;
     db_transactions := ∅; db_tokens := ∅; db_deny_log := []; db_next_uuid := 0 |}.

Definition world_of {C} (denied : C) (d : db) : world C :=
  {| w_db := d; w_tx := d; w_denied := denied; w_addrs := ∅; w_released := []; w_tick := 0 |}.
