(* ===== verification/Replay.v ===== *)
(** * Purge and replay: [internal/pipeline/replay/service.go]

    [PurgeFromBlock] removes what was indexed from a block on: it reads the
    events in pages of 1000 ordered by identifier, reverses their balance
    deltas, deletes events, transactions and blocks, and rewinds the watermark,
    all in one transaction.  The reorg path of the ingester and the admin API
    both use it. *)

From Stdlib Require Import ZArith String Lia.
From stdpp Require Import base option list strings gmap fin_maps sorting.
From S2P Require Import Prelude Retry Domain Identity Store Ledger Cache Effects.

Open Scope Z_scope.

(** ** Statements on the rows of one chain from a block on *)

Definition row_of (chain : Chain) (network : Network) (r : event_row) : bool :=
  String.eqb (be_Chain (ev_cols r)) chain && String.eqb (be_Network (ev_cols r)) network.

(** [chain = $1 AND network = $2 AND block_cursor >= $3] *)
Definition row_from (chain : Chain) (network : Network) (block : Z) (r : event_row) : bool :=
  row_of chain network r && (block <=? be_BlockCursor (ev_cols r)).

Definition delete_events (p : event_row -> bool) (d : db) : db :=
  set_events (filter (fun r => p r = false) (db_events d)) (db_next_uuid d) d.

Definition tx_from (chain : Chain) (network : Network) (block : Z)
    (kv : (Chain * Network * string) * (uuid * Transaction)) : bool :=
  let '((c, nw), _) := kv.1 in
  String.eqb c chain && String.eqb nw network && (block <=? tx_BlockCursor kv.2.2).

Definition delete_transactions (chain : Chain) (network : Network) (block : Z) (d : db) : db :=
  set_transactions (filter (fun kv => tx_from chain network block kv = false) (db_transactions d))
                   (db_next_uuid d) d.

Definition count_events (chain : Chain) (network : Network) (block : Z) (d : db) : Z :=
  Z.of_nat (length (filter (fun r => row_from chain network block r = true) (db_events d))).
Definition count_transactions (chain : Chain) (network : Network) (block : Z) (d : db) : Z :=
  Z.of_nat (size (filter (fun kv => tx_from chain network block kv = true) (db_transactions d))).
Definition count_blocks (chain : Chain) (network : Network) (block : Z) (d : db) : Z :=
  Z.of_nat (size (filter (fun kv => IndexedBlockRepo.from_block chain network block kv = true)
                         (db_blocks d))).

(** [newWatermark := fromBlock - 1; if newWatermark < 0 { newWatermark = 0 }] *)
Definition rewind_target (fromBlock : Z) : Z :=
  let v := wrap64 (fromBlock - 1) in if v <? 0 then 0 else v.

(** ** Requests and results *)

(** Without [BlockScanMode], which nothing sets or reads. *)
Record PurgeRequest := {
  pr_Chain : Chain;
  pr_Network : Network;
  pr_FromBlock : Z;
  pr_DryRun : bool;
  pr_Force : bool;
  pr_Reason : string
}.

Record PurgeResult := {
  pu_PurgedEvents : Z;
  pu_PurgedTransactions : Z;
  pu_PurgedBlocks : Z;
  pu_ReversedBalances : Z;
  pu_NewWatermark : Z;
  pu_CursorsRewound : Z;
  pu_DryRun : bool
}.

Definition ErrFinalizedBlock : go_error :=
  EMsg "target block is finalized; set force=true to override".

Record rollbackEvent := {
  rb_id : uuid;
  rb_tokenID : uuid;
  rb_address : string;
  rb_delta : string;
  rb_blockCursor : Z;
  rb_txHash : string;
  rb_walletID : option string;
  rb_organizationID : option string;
  rb_activityType : ActivityType;
  rb_balanceApplied : bool
}.

Definition scan_row (r : event_row) : rollbackEvent :=
  let be := ev_cols r in
  {| rb_id := ev_id r; rb_tokenID := be_TokenID be; rb_address := be_Address be;
     rb_delta := be_Delta be; rb_blockCursor := be_BlockCursor be; rb_txHash := be_TxHash be;
     rb_walletID := be_WalletID be; rb_organizationID := be_OrganizationID be;
     rb_activityType := be_ActivityType be; rb_balanceApplied := be_BalanceApplied be |}.

(** ** Reversing deltas *)

Definition liquid_item (be : rollbackEvent) (invertedDelta : string) : BulkAdjustItem :=
  {| ba_Address := rb_address be; ba_TokenID := rb_tokenID be; ba_WalletID := rb_walletID be;
     ba_OrgID := rb_organizationID be; ba_Delta := invertedDelta; ba_Cursor := rb_blockCursor be;
     ba_TxHash := rb_txHash be; ba_BalanceType := "" |}.

(** The original delta reverses the staked balance. *)
Definition staked_item (be : rollbackEvent) : BulkAdjustItem :=
  {| ba_Address := rb_address be; ba_TokenID := rb_tokenID be; ba_WalletID := rb_walletID be;
     ba_OrgID := rb_organizationID be; ba_Delta := rb_delta be; ba_Cursor := rb_blockCursor be;
     ba_TxHash := rb_txHash be; ba_BalanceType := "staked" |}.

Definition reversal_step (acc : list BulkAdjustItem * list BulkAdjustItem) (be : rollbackEvent)
    : result go_error (list BulkAdjustItem * list BulkAdjustItem) :=
  let '(liquidItems, stakedItems) := acc in
  if negb (rb_balanceApplied be) then Ok acc
  else match NegateDecimalString (rb_delta be) with
       | Err e => Err (EWrap ("negate delta for " +:+ rb_txHash be) (EMsg e))
       | Ok invertedDelta =>
           Ok (liquidItems ++ [liquid_item be invertedDelta],
               if IsStakingActivity (rb_activityType be) then stakedItems ++ [staked_item be]
               else stakedItems)
       end.

Definition reversal_items (events : list rollbackEvent)
    : result go_error (list BulkAdjustItem * list BulkAdjustItem) :=
  rfoldl reversal_step ([], []) events.

(** ** Paging *)

Definition id_le (a b : event_row) : Prop := (ev_id a <= ev_id b)%N.
#[export] Instance id_le_dec a b : Decision (id_le a b) := N.le_dec _ _.

(** The rows the unpaged query would return, by ascending identifier. *)
Definition rollback_rows (chain : Chain) (network : Network) (fromBlock : Z) (d : db)
    : list event_row :=
  merge_sort id_le (filter (fun r => row_from chain network fromBlock r = true) (db_events d)).

Definition rollbackBatchSize : nat := 1000.

(** [... AND id > $4 ORDER BY id ASC LIMIT $5] *)
Definition fetch_page (chain : Chain) (network : Network) (fromBlock : Z) (afterID : uuid)
    (limit : nat) (d : db) : list rollbackEvent :=
  scan_row <$> take limit (filter (fun r => (afterID < ev_id r)%N)
                                  (rollback_rows chain network fromBlock d)).

Section Service.
Context {C : Type} (E : env).

Definition fetchRollbackBatch (chain : Chain) (network : Network) (fromBlock : Z)
    (afterID : uuid) (limit : nat) : M C (list rollbackEvent) :=
  wrap_err "query rollback events" (query E (fetch_page chain network fromBlock afterID limit)).

(** The paging loop; [fuel] bounds the number of pages. *)
Fixpoint fetch_loop (fuel : nat) (chain : Chain) (network : Network) (fromBlock : Z)
    (lastID : uuid) (all : list rollbackEvent) : M C (option (list rollbackEvent)) :=
  match fuel with
  | O => ret None
  | S fuel' =>
      do! batch <- fetchRollbackBatch chain network fromBlock lastID rollbackBatchSize;
      let all := all ++ batch in
      if (length batch <? rollbackBatchSize)%nat then ret (Some all)
      else match last batch with
           | Some e => fetch_loop fuel' chain network fromBlock (rb_id e) all
           | None => ret (Some all)
           end
  end.

(** One page more than there are events is always enough
    ([fetch_loop_complete]); [uuid.Nil] is 0. *)
Definition fetchRollbackEvents (chain : Chain) (network : Network) (fromBlock : Z)
    : M C (list rollbackEvent) := fun w =>
  match fetch_loop (S (length (db_events (w_tx w)))) chain network fromBlock 0%N [] w with
  | (Ok (Some evs), w') => (Ok evs, w')
  | (Ok None, w') => (Err (EMsg "page bound exceeded"), w')
  | (Err e, w') => (Err e, w')
  end.

Definition dryRun (req : PurgeRequest) : M C PurgeResult :=
  do! _ <- wrap_err "dry run begin tx" (BeginTx E);
  do! ' (ev, tx, bl) <- wrap_err "dry run counts" (query E (fun d =>
    (count_events (pr_Chain req) (pr_Network req) (pr_FromBlock req) d,
     count_transactions (pr_Chain req) (pr_Network req) (pr_FromBlock req) d,
     count_blocks (pr_Chain req) (pr_Network req) (pr_FromBlock req) d)));
  ret {| pu_PurgedEvents := ev; pu_PurgedTransactions := tx; pu_PurgedBlocks := bl;
         pu_ReversedBalances := ev; pu_NewWatermark := rewind_target (pr_FromBlock req);
         pu_CursorsRewound := 0; pu_DryRun := true |}.

Definition adjust (text : string) (chain : Chain) (network : Network)
    (items : list BulkAdjustItem) : M C unit :=
  match items with
  | [] => ret tt
  | _ => wrap_err text (exec E (fun d =>
           let! b := BalanceRepo.BulkAdjustBalanceTx (env_pick E) chain network
                       (db_balances d) items in
           Ok (set_balances b d)))
  end.

Definition lift {A} (r : result go_error A) : M C A :=
  match r with Ok a => ret a | Err e => fail e end.

Definition executePurge (req : PurgeRequest) : M C PurgeResult :=
  let chain := pr_Chain req in
  let network := pr_Network req in
  let fromBlock := pr_FromBlock req in
  do! _ <- wrap_err "begin purge tx" (BeginTx E);
  do! rollbackEvents <- wrap_err "fetch rollback events"
                          (fetchRollbackEvents chain network fromBlock);
  do! ' (liquidItems, stakedItems) <- lift (reversal_items rollbackEvents);
  do! _ <- adjust "revert balances" chain network liquidItems;
  do! _ <- adjust "revert staked balances" chain network stakedItems;
  do! evDeleted <- wrap_err "delete balance events" (call E (fun d =>
    Ok (delete_events (row_from chain network fromBlock) d,
        count_events chain network fromBlock d)));
  do! txDeleted <- wrap_err "delete transactions" (call E (fun d =>
    Ok (delete_transactions chain network fromBlock d,
        count_transactions chain network fromBlock d)));
  do! blocksDeleted <-
    (if env_blockRepo E
     then wrap_err "delete indexed blocks" (call E (fun d =>
            Ok (IndexedBlockRepo.DeleteFromBlockTx d chain network fromBlock)))
     else ret 0);
  do! _ <- wrap_err "rewind watermark" (exec E (fun d =>
    Ok (WatermarkRepo.RewindWatermarkTx d chain network (rewind_target fromBlock))));
  do! commitErr <- Commit E;
  match commitErr with
  | Some e => fail (EWrap "commit purge" e)
  | None =>
      ret {| pu_PurgedEvents := evDeleted; pu_PurgedTransactions := txDeleted;
             pu_PurgedBlocks := blocksDeleted;
             pu_ReversedBalances := Z.of_nat (length liquidItems);
             pu_NewWatermark := rewind_target fromBlock;
             pu_CursorsRewound := 0; pu_DryRun := false |}
  end.

(** The finality check reads outside any transaction; a missing row is no
    error. *)
Definition PurgeFromBlock (req : PurgeRequest) : M C PurgeResult :=
  let run := if pr_DryRun req then dryRun req else executePurge req in
  if negb (pr_Force req) && env_blockRepo E then
    do! block <- wrap_err "finality check" (query_committed E (fun d =>
      IndexedBlockRepo.GetByBlockNumber d (pr_Chain req) (pr_Network req) (pr_FromBlock req)));
    match block with
    | Some b => if String.eqb (ib_FinalityState b) "finalized" then fail ErrFinalizedBlock else run
    | None => run
    end
  else run.
End Service.

(** ** Paging returns every row once *)

Section Paging.
Implicit Types (L : list event_row).

Definition id_lt (a b : event_row) : Prop := (ev_id a < ev_id b)%N.

Lemma rollback_rows_perm chain network fromBlock d :
  rollback_rows chain network fromBlock d ≡ₚ
  filter (fun r => row_from chain network fromBlock r = true) (db_events d).
Proof. apply merge_sort_Permutation. Qed.

Lemma strictly_sorted L :
  NoDup (ev_id <$> L) -> StronglySorted id_le L -> StronglySorted id_lt L.
Proof.
  induction L as [|a L IH]; intros Hnd Hs; [constructor|].
  rewrite fmap_cons in Hnd. apply NoDup_cons in Hnd as [Ha Hnd].
  apply StronglySorted_inv in Hs as [Hs Hf].
  constructor; [by apply IH|]. apply Forall_forall. intros b Hb.
  rewrite Forall_forall in Hf. specialize (Hf b Hb). unfold id_le, id_lt in *.
  assert (ev_id a <> ev_id b) by (intros Heq; apply Ha; rewrite Heq; by apply list_elem_of_fmap_2).
  lia.
Qed.

Lemma rollback_rows_sorted chain network fromBlock d :
  NoDup (ev_id <$> db_events d) ->
  StronglySorted id_lt (rollback_rows chain network fromBlock d).
Proof.
  intros Hnd. apply strictly_sorted.
  - rewrite rollback_rows_perm. eapply sublist_NoDup; [exact Hnd|].
    apply fmap_sublist, sublist_filter.
  - apply StronglySorted_merge_sort; [intros a b c|intros a b]; unfold id_le; lia.
Qed.

(** Skipping past the last row of a prefix leaves the rest. *)
Lemma filter_after L1 x L2 :
  StronglySorted id_lt (L1 ++ x :: L2) ->
  filter (fun r => (ev_id x < ev_id r)%N) (L1 ++ x :: L2) = L2.
Proof.
  induction L1 as [|a L1 IH]; simpl; intros Hs; apply StronglySorted_inv in Hs as [Hs Hf].
  - rewrite filter_cons_False by lia. apply filter_all.
    intros r Hr. rewrite Forall_forall in Hf. by apply Hf.
  - rewrite Forall_forall in Hf. specialize (Hf x ltac:(set_solver)). unfold id_lt in Hf.
    rewrite filter_cons_False by lia. by apply IH.
Qed.
End Paging.

Section PagingLoop.
Context {C : Type} (E : env).

(** The loop, from a point where [done_] has been read and [rest] is left. *)
Lemma fetch_loop_spec chain network fromBlock fuel lastID done_ rest (w : world C) :
  (forall r, r ∈ db_events (w_tx w) -> ev_id r <> 0%N) ->
  NoDup (ev_id <$> db_events (w_tx w)) ->
  rollback_rows chain network fromBlock (w_tx w) = done_ ++ rest ->
  lastID = default 0%N (ev_id <$> last done_) -> (length rest < fuel)%nat ->
  match fetch_loop E fuel chain network fromBlock lastID (scan_row <$> done_) w with
  | (Ok (Some evs), w') =>
      evs = scan_row <$> rollback_rows chain network fromBlock (w_tx w) /\ w_tx w' = w_tx w
  | (Ok None, _) => False
  | (Err e, _) => exists n f, env_fault E n = Some f /\ e = EWrap "query rollback events" f
  end.
Proof.
  revert lastID done_ rest w; induction fuel as [|fuel IH];
    intros lastID done_ rest w Hpos Hnd Hrows Hlast Hfuel; [lia|]. cbn [fetch_loop].
  unfold bind, fetchRollbackBatch, wrap_err, query, call.
  destruct (env_fault E (w_tick w)) as [f|] eqn:Ef; [by eauto|]. cbv beta iota zeta.
  assert (Hpage : fetch_page chain network fromBlock lastID rollbackBatchSize (w_tx w) =
                  scan_row <$> take rollbackBatchSize rest).
  { unfold fetch_page. do 2 f_equal. rewrite Hrows. pose proof (rollback_rows_sorted chain network fromBlock _ Hnd) as Hs.
    rewrite Hrows in Hs. subst lastID. destruct done_ as [|x done_ _] using rev_ind; simpl.
    - apply filter_all. intros r Hr.
      assert (Hin : r ∈ rollback_rows chain network fromBlock (w_tx w)) by (rewrite Hrows; set_solver).
      rewrite rollback_rows_perm, list_elem_of_filter in Hin. specialize (Hpos r ltac:(naive_solver)). lia.
    - rewrite last_snoc. simpl. rewrite <- app_assoc in *. by apply filter_after. }
  rewrite Hpage, <- fmap_app, length_fmap, length_take.
  destruct (_ <? _)%nat eqn:Elt.
  - apply Nat.ltb_lt in Elt. rewrite take_ge by lia. rewrite Hrows. done.
  - apply Nat.ltb_ge in Elt. rewrite fmap_last.
    assert (Hlt : (rollbackBatchSize <= length rest)%nat) by lia.
    destruct (take rollbackBatchSize rest) as [|x pg _] eqn:Etake using rev_ind.
    { apply (f_equal length) in Etake. rewrite length_take, Nat.min_l in Etake by lia. done. }
    rewrite last_snoc. simpl.
    assert (Hsplit : rest = (pg ++ [x]) ++ drop rollbackBatchSize rest) by (rewrite <- Etake; symmetry; apply take_drop).
    specialize (IH (ev_id x) (done_ ++ pg ++ [x]) (drop rollbackBatchSize rest) (set_tx (w_tx w) (tick w))).
    apply IH; try done.
    + cbn [w_tx set_tx]. rewrite Hrows, <- !app_assoc. f_equal. by rewrite app_assoc.
    + by rewrite app_assoc, last_snoc.
    + rewrite length_drop. unfold rollbackBatchSize in *. lia.
Qed.
End PagingLoop.

(** ** Reversal and the ledger *)

Definition applied (r : event_row) : bool := be_BalanceApplied (ev_cols r).
Definition staking (r : event_row) : bool := IsStakingActivity (be_ActivityType (ev_cols r)).

(** The items that undo one event. *)
Definition undo_liquid (r : event_row) : BulkAdjustItem :=
  liquid_item (scan_row r) (show_Z (- delta_of (ev_cols r))).
Definition undo_staked (r : event_row) : BulkAdjustItem := staked_item (scan_row r).

Lemma filter_snoc {A} (P : A -> Prop) `{!forall x, Decision (P x)} (l : list A) x :
  filter P (l ++ [x]) = filter P l ++ (if decide (P x) then [x] else []).
Proof. by rewrite filter_app. Qed.

Lemma reversal_items_spec rows :
  Forall row_canonical rows ->
  reversal_items (scan_row <$> rows) =
    Ok (undo_liquid <$> filter (fun r => applied r = true) rows,
        undo_staked <$> filter (fun r => applied r && staking r = true) rows).
Proof.
  unfold reversal_items. induction rows as [|r rows IH] using rev_ind; intros Hc; [done|].
  apply Forall_app in Hc as [Hc Hr]. rewrite Forall_singleton in Hr.
  rewrite fmap_app, rfoldl_app, (IH Hc), !filter_snoc, !fmap_app. cbn [rbind rfoldl fmap list_fmap].
  unfold reversal_step at 1. cbn [rb_balanceApplied scan_row rb_delta rb_activityType].
  fold (applied r). fold (staking r). destruct (applied r) eqn:Ea; simpl.
  - rewrite row_canonical_delta, Negate_show by done. simpl.
    destruct (staking r); simpl; by rewrite ?app_nil_r.
  - by rewrite !app_nil_r.
Qed.

Section Reversal.
Context (chain : Chain) (network : Network).

Lemma undo_liquid_effect r k :
  row_of chain network r = true -> row_canonical r ->
  item_effect chain network k (undo_liquid r) =
  when (bool_decide (liquid_pk (ev_cols r) = k)) (- delta_of (ev_cols r)).
Proof.
  unfold row_of. intros [<-%String.eqb_eq <-%String.eqb_eq]%andb_true_iff _.
  unfold item_effect. by rewrite (item_delta_show (undo_liquid r) (- delta_of (ev_cols r))).
Qed.

Lemma undo_staked_effect r k :
  row_of chain network r = true -> row_canonical r ->
  item_effect chain network k (undo_staked r) =
  when (bool_decide (staked_pk (ev_cols r) = k)) (delta_of (ev_cols r)).
Proof.
  unfold row_of. intros [<-%String.eqb_eq <-%String.eqb_eq]%andb_true_iff Hc.
  unfold item_effect. by rewrite (item_delta_show (undo_staked r) (delta_of (ev_cols r)))
    by (by apply row_canonical_delta).
Qed.

(** Undoing a set of rows subtracts exactly their ledger. *)
Lemma undo_effect rows k :
  Forall (fun r => row_of chain network r = true) rows -> Forall row_canonical rows ->
  sum_of (item_effect chain network k)
         (undo_liquid <$> filter (fun r => applied r = true) rows) +
  sum_of (item_effect chain network k)
         (undo_staked <$> filter (fun r => applied r && staking r = true) rows)
  = - ledger rows k.
Proof.
  intros Hrow Hc. rewrite !sum_of_fmap, !sum_of_fmap_filter, <- sum_of_add.
  unfold ledger. rewrite <- sum_of_opp. apply sum_of_ext. intros r Hr.
  rewrite Forall_forall in Hrow, Hc. simpl.
  rewrite undo_liquid_effect, undo_staked_effect by auto.
  unfold contribution, full_contribution. fold (applied r) (staking r).
  unfold when. destruct (applied r), (staking r), (bool_decide (liquid_pk (ev_cols r) = k)),
    (bool_decide (staked_pk (ev_cols r) = k)); simpl; lia.
Qed.
End Reversal.

(** ** What a purge does *)

(** Event identifiers are distinct and none is the nil UUID. *)
Definition ids_ok (d : db) : Prop :=
  NoDup (ev_id <$> db_events d) /\ forall r, r ∈ db_events d -> ev_id r <> 0%N.

(** The committed state after a purge that leaves balances [t]. *)
Definition purged (blockRepo : bool) (chain : Chain) (network : Network) (fromBlock : Z)
    (t : gmap balance_pk balance_row) (d : db) : db :=
  let d := set_balances t d in
  let d := delete_events (row_from chain network fromBlock) d in
  let d := delete_transactions chain network fromBlock d in
  let d := if blockRepo then (IndexedBlockRepo.DeleteFromBlockTx d chain network fromBlock).1 else d in
  WatermarkRepo.RewindWatermarkTx d chain network (rewind_target fromBlock).

Section PurgeFacts.
Context {C : Type} (E : env).

Lemma set_balances_id d : set_balances (db_balances d) d = d.
Proof. by destruct d. Qed.

Lemma adjust_ok text chain network items (w : world C) u w' :
  adjust E text chain network items w = (Ok u, w') ->
  exists b, BalanceRepo.BulkAdjustBalanceTx (env_pick E) chain network
              (db_balances (w_tx w)) items = Ok b /\
    w_tx w' = set_balances b (w_tx w) /\ w_db w' = w_db w.
Proof.
  unfold adjust. destruct items as [|i items]; intros H; inv_do H.
  - exists (db_balances (w_tx w)). by rewrite set_balances_id.
  - apply rbind_ok in Hd as (b & Hb & [= <-]). eauto.
Qed.

Lemma fetchRollbackEvents_ok chain network fromBlock (w : world C) evs w' :
  ids_ok (w_tx w) ->
  fetchRollbackEvents E chain network fromBlock w = (Ok evs, w') ->
  evs = scan_row <$> rollback_rows chain network fromBlock (w_tx w) /\ w_tx w' = w_tx w.
Proof.
  intros [Hnd Hpos]. unfold fetchRollbackEvents.
  assert (Hlen : (length (rollback_rows chain network fromBlock (w_tx w)) <
                  S (length (db_events (w_tx w))))%nat).
  { rewrite rollback_rows_perm. pose proof (length_filter (fun r => row_from chain network fromBlock r = true) (db_events (w_tx w))). lia. }
  pose proof (fetch_loop_spec E chain network fromBlock _ 0%N [] _ w Hpos Hnd eq_refl eq_refl Hlen) as Hspec.
  cbn [fmap list_fmap] in Hspec.
  destruct (fetch_loop _ _ _ _ _ _ _ w) as [[[evs'|]|e] w1]; [|done..].
  intros [= <- <-]. done.
Qed.

Lemma lift_ok {A} (r : result go_error A) (w : world C) a w' :
  lift r w = (Ok a, w') -> r = Ok a /\ w' = w.
Proof. destruct r; simpl; [|done]. by intros [= <- <-]. Qed.

Lemma in_tx_fetch chain network fromBlock : in_tx (C:=C) (fetchRollbackEvents E chain network fromBlock).
Proof.
  intros w. unfold fetchRollbackEvents.
  assert (H : forall fuel lastID all, in_tx (C:=C) (fetch_loop E fuel chain network fromBlock lastID all)).
  { induction fuel as [|fuel IH]; intros; simpl; [auto with eff|].
    apply in_tx_bind; [unfold fetchRollbackBatch, query; auto with eff|]. intros b.
    destruct (_ <? _)%nat; [auto with eff|]. destruct (last b); auto with eff. }
  specialize (H (S (length (db_events (w_tx w)))) 0%N [] w).
  by destruct (fetch_loop _ _ _ _ _ _ _ w) as [[[?|]|] ?].
Qed.

Lemma executePurge_ok req (w : world C) res w' :
  ids_ok (w_db w) ->
  executePurge E req w = (Ok res, w') ->
  let rows := rollback_rows (pr_Chain req) (pr_Network req) (pr_FromBlock req) (w_db w) in
  exists liquid staked t1 t2,
    reversal_items (scan_row <$> rows) = Ok (liquid, staked) /\
    BalanceRepo.BulkAdjustBalanceTx (env_pick E) (pr_Chain req) (pr_Network req)
      (db_balances (w_db w)) liquid = Ok t1 /\
    BalanceRepo.BulkAdjustBalanceTx (env_pick E) (pr_Chain req) (pr_Network req) t1 staked = Ok t2 /\
    w_db w' = purged (env_blockRepo E) (pr_Chain req) (pr_Network req) (pr_FromBlock req) t2 (w_db w) /\
    pu_PurgedEvents res = count_events (pr_Chain req) (pr_Network req) (pr_FromBlock req) (w_db w) /\
    pu_PurgedTransactions res =
      count_transactions (pr_Chain req) (pr_Network req) (pr_FromBlock req) (w_db w) /\
    pu_PurgedBlocks res =
      (if env_blockRepo E
       then count_blocks (pr_Chain req) (pr_Network req) (pr_FromBlock req) (w_db w) else 0) /\
    pu_NewWatermark res = rewind_target (pr_FromBlock req).
Proof.
  intros Hids H rows. unfold executePurge in H. inv_do H.
  apply fetchRollbackEvents_ok in H0 as [-> Htx]; [|done]. cbn [w_tx set_tx] in *.
  apply lift_ok in H1 as [Hrev ->]. destruct a1 as [liquid staked]. inv_do H.
  apply adjust_ok in H0 as (t1 & Ht1 & Htx1 & _). apply adjust_ok in H1 as (t2 & Ht2 & Htx2 & _).
  rewrite Htx in *. rewrite Htx1 in *. cbn [db_balances set_balances] in *.
  destruct a6 as [e|]; [done|]. inv_do H. apply Commit_ok in H3 as ->.
  exists liquid, staked, t1, t2. injection Hd as <- <-. injection Hd0 as <- <-. injection Hd1 as <-.
  cbn [w_db w_tx set_tx set_db tick] in *. rewrite Htx2 in *. unfold purged.
  destruct (env_blockRepo E); inv_do H2; [injection Hd as <- <-|];
    cbn [w_db w_tx set_tx set_db tick] in *; rewrite ?Htx2; by split_and!.
Qed.
End PurgeFacts.

Section PurgeLemmas.
Context {C : Type} (E : env).

Lemma PurgeFromBlock_execute req (w : world C) res w' :
  pr_DryRun req = false -> PurgeFromBlock E req w = (Ok res, w') ->
  exists w0, w_db w0 = w_db w /\ executePurge E req w0 = (Ok res, w').
Proof.
  intros Hdry. unfold PurgeFromBlock. rewrite Hdry. destruct (_ && _); [|by eauto].
  intros H. inv_do H. exists w0.
  pose proof (in_tx_query_committed E (fun d => IndexedBlockRepo.GetByBlockNumber d
    (pr_Chain req) (pr_Network req) (pr_FromBlock req)) w) as [Hdb _].
  rewrite H0 in Hdb. split; [done|].
  destruct a as [b|]; [|done]. by destruct (String.eqb _ _).
Qed.

Lemma rows_from_chain req d :
  Forall (fun r => row_of (pr_Chain req) (pr_Network req) r = true)
    (rollback_rows (pr_Chain req) (pr_Network req) (pr_FromBlock req) d).
Proof.
  rewrite rollback_rows_perm. apply Forall_forall. intros r [Hr _]%list_elem_of_filter.
  by apply andb_true_iff in Hr as [? _].
Qed.

Lemma in_tx_dryRun req : in_tx (C:=C) (dryRun E req).
Proof.
  unfold dryRun, query. apply in_tx_bind; [auto with eff|]. intros _.
  apply in_tx_bind; [auto with eff|]. intros [[??]?]. auto with eff.
Qed.

Lemma in_tx_adjust t chain network items : in_tx (C:=C) (adjust E t chain network items).
Proof. unfold adjust, exec. destruct items; auto with eff. Qed.

Lemma in_tx_lift {A} (r : result go_error A) : in_tx (C:=C) (lift r).
Proof. destruct r; simpl; auto with eff. Qed.
End PurgeLemmas.
#[export] Hint Resolve in_tx_fetch in_tx_adjust in_tx_lift in_tx_dryRun : eff.

Definition event_key (r : event_row) : string * uuid :=
  (be_Address (ev_cols r), be_TokenID (ev_cols r)).

Lemma typed_keys_NoDup {A} (f : A -> string * uuid) (ty : string) (l : list A) :
  NoDup (f <$> l) -> NoDup ((fun x => ((f x).1, (f x).2, ty)) <$> l).
Proof.
  intros Hnd. apply (NoDup_fmap_2_strong (fun p : string * uuid => (p.1, p.2, ty))) in Hnd.
  - by rewrite <- list_fmap_compose in Hnd.
  - intros [??] [??] _ _. simpl. congruence.
Qed.

Lemma filter_sublist_impl {A} (P Q : A -> Prop) `{!forall x, Decision (P x), !forall x, Decision (Q x)}
    (l : list A) : (forall x, P x -> Q x) -> filter P l `sublist_of` filter Q l.
Proof.
  intros HPQ. induction l as [|x l IH]; [done|]. rewrite !filter_cons.
  destruct (decide (P x)) as [HP|]; [rewrite decide_True by auto; by constructor|].
  case_decide; [by constructor|done].
Qed.

Lemma keys_liquid (rows : list event_row) :
  NoDup (event_key <$> filter (fun r => applied r = true) rows) ->
  NoDup (ba_key <$> (undo_liquid <$> filter (fun r => applied r = true) rows)).
Proof. intros Hnd. rewrite <- list_fmap_compose. by apply (typed_keys_NoDup event_key ""). Qed.

Lemma keys_staked (rows : list event_row) :
  NoDup (event_key <$> filter (fun r => applied r = true) rows) ->
  NoDup (ba_key <$> (undo_staked <$> filter (fun r => applied r && staking r = true) rows)).
Proof.
  intros Hnd. rewrite <- list_fmap_compose. apply (typed_keys_NoDup event_key "staked").
  eapply sublist_NoDup; [exact Hnd|]. apply fmap_sublist, filter_sublist_impl.
  by intros r [? _]%andb_true_iff.
Qed.

(** Atomicity: an error leaves the committed state as it was, unless a commit was
    applied and its acknowledgement lost. *)
Definition unacked (E : env) (_ : go_error) : Prop := exists n e, env_commit E n = CommitUnacked e.

(** C9: Paging by identifier loses no event and repeats none: however many
    pages it takes, [fetchRollbackEvents] returns exactly the rows of the chain
    from the block on, in identifier order; the only other outcome is the error
    of a query that failed. *)
Theorem rollback_paging_complete {C} (E : env) (chain : Chain) (network : Network)
    (fromBlock : Z) (w : world C) (Hids : ids_ok (w_tx w)) :
  match (fetchRollbackEvents E chain network fromBlock w).1 with
  | Ok evs =>
      evs = scan_row <$> rollback_rows chain network fromBlock (w_tx w) /\
      rollback_rows chain network fromBlock (w_tx w) ≡ₚ
        filter (fun r => row_from chain network fromBlock r = true) (db_events (w_tx w))
  | Err e => exists n f, env_fault E n = Some f /\ e = EWrap "query rollback events" f
  end.
Proof.
  pose proof (rollback_rows_perm chain network fromBlock (w_tx w)) as Hperm.
  destruct Hids as [Hnd Hpos]. unfold fetchRollbackEvents.
  assert (Hlen : (length (rollback_rows chain network fromBlock (w_tx w)) <
                  S (length (db_events (w_tx w))))%nat).
  { rewrite Hperm. pose proof (length_filter (fun r => row_from chain network fromBlock r = true)
      (db_events (w_tx w))). lia. }
  pose proof (fetch_loop_spec E chain network fromBlock _ 0%N [] _ w Hpos Hnd eq_refl eq_refl Hlen) as H.
  cbn [fmap list_fmap] in H. destruct (fetch_loop _ _ _ _ _ _ _ w) as [[[evs|]|e] w1]; naive_solver.
Qed.

Section PurgeLedger.
Context {C : Type} (E : env) `{!EnvOk E} (req : PurgeRequest) (d0 : db).
Let chain := pr_Chain req.
Let network := pr_Network req.
Let fromBlock := pr_FromBlock req.
Let rows := rollback_rows chain network fromBlock d0.

Context (Hids : ids_ok d0) (Hcanon : Forall row_canonical (db_events d0)) (Hledger : ledger_ok d0).
Context (Hkeys : NoDup (event_key <$> filter (fun r => applied r = true) rows)).

Lemma rollback_rows_canonical : Forall row_canonical rows.
Proof.
  unfold rows. rewrite rollback_rows_perm. rewrite Forall_forall in *.
  intros r [_ Hr]%list_elem_of_filter. auto.
Qed.

(** Both reversal statements done: the balances are those of the rows that stay. *)
Definition reversed (w : world C) : Prop :=
  w_db w = d0 /\ db_events (w_tx w) = db_events d0 /\
  forall k, amount (db_balances (w_tx w)) k =
    ledger (filter (fun r => row_from chain network fromBlock r = false) (db_events d0)) k.

Lemma reversal_reversed w u1 w1 u2 w2 :
  w_db w = d0 -> w_tx w = d0 ->
  adjust (C:=C) E "revert balances" chain network
    (undo_liquid <$> filter (fun r => applied r = true) rows) w = (Ok u1, w1) ->
  adjust E "revert staked balances" chain network
    (undo_staked <$> filter (fun r => applied r && staking r = true) rows) w1 = (Ok u2, w2) ->
  reversed w2.
Proof.
  intros Hdb Htx (t1 & Ht1 & Htx1 & Hdb1)%adjust_ok (t2 & Ht2 & Htx2 & Hdb2)%adjust_ok.
  rewrite Htx in *. rewrite Htx1 in Ht2. cbn in Ht2.
  unfold reversed. rewrite Htx2, Htx1. split_and!; [congruence|done|]. cbn. intros k.
  rewrite (bulk_adjust_amount _ _ _ _ _ _ k env_pick_in (keys_staked _ Hkeys) Ht2).
  rewrite (bulk_adjust_amount _ _ _ _ _ _ k env_pick_in (keys_liquid _ Hkeys) Ht1).
  rewrite (Hledger k), <- Z.add_assoc, undo_effect
    by (apply rollback_rows_canonical || apply (rows_from_chain req d0)).
  unfold rows. rewrite (ledger_perm _ _ k (rollback_rows_perm _ _ _ _)).
  unfold ledger. rewrite (sum_of_filter (row_from chain network fromBlock) _ (db_events d0)). lia.
Qed.

Lemma executePurge_lands : lands (C:=C) (fun w => w_db w = d0) (executePurge E req) ledger_ok.
Proof.
  unfold executePurge, exec. fold chain network fromBlock.
  apply (lands_bind _ (fun _ w => w_db w = d0 /\ w_tx w = d0)); [auto with eff| |intros _].
  { intros w u w' <- H. inv_do H. done. }
  apply (lands_bind _ (fun evs w => (w_db w = d0 /\ w_tx w = d0) /\ evs = scan_row <$> rows));
    [auto with eff| |intros evs].
  { intros w evs w' [Hdb Htx] H%wrap_ok. pose proof (in_tx_fetch E chain network fromBlock w) as [Hdb' _].
    rewrite H in Hdb'. apply fetchRollbackEvents_ok in H as [-> Htx']; [|by rewrite Htx].
    simpl in Hdb'. rewrite Htx in *. split; [split; congruence|done]. }
  apply (lands_bind _ (fun p w => (w_db w = d0 /\ w_tx w = d0) /\
    p = (undo_liquid <$> filter (fun r => applied r = true) rows,
         undo_staked <$> filter (fun r => applied r && staking r = true) rows)));
    [auto with eff| |intros [liquid staked]].
  { intros w p w' [Hw ->] [Hr ->]%lift_ok.
    rewrite reversal_items_spec in Hr by apply rollback_rows_canonical. split; [done|congruence]. }
  apply (lands_bind _ (fun _ w1 => exists w, w_db w = d0 /\ w_tx w = d0 /\
    adjust E "revert balances" chain network liquid w = (Ok tt, w1) /\
    (liquid, staked) = (undo_liquid <$> filter (fun r => applied r = true) rows,
         undo_staked <$> filter (fun r => applied r && staking r = true) rows))); [auto with eff| |intros _].
  { intros w [] w' [[Hdb Htx] Heq] H. by exists w. }
  apply (lands_bind _ (fun _ => reversed)); [auto with eff| |intros _].
  { intros w1 u w2 (w & Hdb & Htx & H1 & [= -> ->]) H2. by eapply reversal_reversed. }
  apply (lands_bind _ (fun _ w => ledger_ok (w_tx w))); [auto with eff| |intros n1].
  { intros w n w' (_ & He & Hk) H. inv_do H. injection Hd as <- _. intros k. simpl. by rewrite He. }
  apply (lands_bind _ (fun _ w => ledger_ok (w_tx w))); [auto with eff| |intros n2].
  { intros w n w' Hw H. inv_do H. injection Hd as <- _. exact Hw. }
  apply (lands_bind _ (fun _ w => ledger_ok (w_tx w))); [destruct (env_blockRepo E); auto with eff| |intros n3].
  { intros w n w' Hw H. destruct (env_blockRepo E); inv_do H; [injection Hd as <- _|]; exact Hw. }
  apply (lands_bind _ (fun _ w => ledger_ok (w_tx w))); [auto with eff| |intros _].
  { intros w n w' Hw H. inv_do H. injection Hd as <- _. exact Hw. }
  apply lands_commit; [auto|]. intros [e|]; auto with eff.
Qed.
End PurgeLedger.

Lemma PurgeFromBlock_lands {C} (E : env) req (P : db -> Prop) d0 :
  lands (C:=C) (fun w => w_db w = d0) (executePurge E req) P ->
  lands (C:=C) (fun w => w_db w = d0) (PurgeFromBlock E req) P.
Proof.
  intros H. unfold PurgeFromBlock.
  assert (Hrun : lands (C:=C) (fun w => w_db w = d0)
    (if pr_DryRun req then dryRun E req else executePurge E req) P).
  { destruct (pr_DryRun req); [|done]. apply lands_in_tx. auto with eff. }
  destruct (_ && _); [|done].
  apply (lands_bind _ (fun _ w => w_db w = d0)); [auto with eff| |].
  - intros w b w' <- Hq%wrap_ok. pose proof (in_tx_query_committed E (fun d => IndexedBlockRepo.GetByBlockNumber d
      (pr_Chain req) (pr_Network req) (pr_FromBlock req)) w) as [Hdb _]. by rewrite Hq in Hdb.
  - intros [b|]; [|done]. destruct (String.eqb _ _); [apply lands_in_tx; auto with eff|done].
Qed.

(** C5: A purge undoes exactly what ingestion did: if the balances are the sum
    of the stored events, and no two applied events from the block on belong to
    one (address, token), then whatever fails on the way the committed balances
    are the sum of the events that remain. *)
Theorem purge_keeps_ledger {C} (E : env) `{!EnvOk E} (req : PurgeRequest) (w : world C)
    (Hids : ids_ok (w_db w))
    (Hcanon : Forall row_canonical (db_events (w_db w)))
    (Hledger : ledger_ok (w_db w))
    (Hkeys : NoDup (event_key <$>
        filter (fun r => applied r = true)
          (rollback_rows (pr_Chain req) (pr_Network req) (pr_FromBlock req) (w_db w)))) :
  ledger_ok (w_db (PurgeFromBlock E req w).2).
Proof.
  destruct (PurgeFromBlock_lands E req ledger_ok (w_db w)
    (executePurge_lands E req (w_db w) Hids Hcanon Hledger Hkeys) w eq_refl) as [->|?]; done.
Qed.

(** A chain with two events of one address: 7 at block 5, 3 at block 9. *)
Definition sample_rows : list event_row :=
  [{| ev_id := 1%N; ev_cols := sample_event "base" "mainnet" "alice" 1%N ActivityDeposit 7 5 true "e1" |};
   {| ev_id := 2%N; ev_cols := sample_event "base" "mainnet" "alice" 1%N ActivityDeposit 3 9 true "e2" |}].

Definition sample_pk : balance_pk := ("base", "mainnet", "alice", 1%N, "").

Definition sample_db (rows : list event_row) (total : Z) : db :=
  set_balances {[ sample_pk := sample_balance total ]} (set_events rows 2 empty_db).

Definition purge_request (fromBlock : Z) : PurgeRequest :=
  {| pr_Chain := "base"; pr_Network := "mainnet"; pr_FromBlock := fromBlock; pr_DryRun := false;
     pr_Force := true; pr_Reason := "" |}.

Lemma sample_ledger_ok : ledger_ok (sample_db sample_rows 10).
Proof.
  intros k. unfold ledger, sum_of, amount. simpl. unfold contribution, full_contribution. simpl.
  change (liquid_pk _) with sample_pk. destruct (decide (sample_pk = k)) as [<-|Hk].
  - by rewrite bool_decide_true, lookup_singleton_eq.
  - by rewrite bool_decide_false, lookup_singleton_ne.
Qed.

Lemma sample_ids_ok total : ids_ok (sample_db sample_rows total).
Proof.
  split; [by apply (bool_decide_unpack _); vm_compute|]. intros r [->|[->|[]%elem_of_nil]%elem_of_cons]%elem_of_cons; done.
Qed.

Lemma sample_canonical total : Forall row_canonical (db_events (sample_db sample_rows total)).
Proof. repeat constructor; [by exists 7|by exists 3]. Qed.

Lemma purge_keeps_ledger_witness :
  is_ok (PurgeFromBlock calm (purge_request 9) (world_of tt (sample_db sample_rows 10))).1 = true /\
  ledger_ok (w_db (PurgeFromBlock calm (purge_request 9) (world_of tt (sample_db sample_rows 10))).2).
Proof.
  split; [vm_compute; reflexivity|].
  refine (purge_keeps_ledger calm (purge_request 9) (world_of tt (sample_db sample_rows 10))
    (sample_ids_ok 10) (sample_canonical 10) sample_ledger_ok _).
  apply (bool_decide_unpack _). vm_compute. exact I.
Defined.

Lemma rollback_paging_complete_witness :
  is_ok (fetchRollbackEvents calm "base" "mainnet" 5 (world_of tt (sample_db sample_rows 10))).1 = true /\
  match (fetchRollbackEvents calm "base" "mainnet" 5 (world_of tt (sample_db sample_rows 10))).1 with
  | Ok evs =>
      evs = scan_row <$> rollback_rows "base" "mainnet" 5 (sample_db sample_rows 10) /\
      rollback_rows "base" "mainnet" 5 (sample_db sample_rows 10) ≡ₚ
        filter (fun r => row_from "base" "mainnet" 5 r = true) sample_rows
  | Err e => exists n f, env_fault calm n = Some f /\ e = EWrap "query rollback events" f
  end.
Proof.
  split; [vm_compute; reflexivity|].
  exact (rollback_paging_complete calm "base" "mainnet" 5 (world_of tt (sample_db sample_rows 10))
           (sample_ids_ok 10)).
Defined.

Section PurgeAtomic.
Context {C : Type} (E : env).

Lemma executePurge_atomic req : safe_err (unacked E) (executePurge (C:=C) E req).
Proof.
  unfold executePurge, exec. repeat (apply safe_err_bind; [solve [auto with eff]|intros ?]).
  destruct a1 as [liquid staked]. repeat (apply safe_err_bind; [solve [auto with eff]|intros ?]).
  apply safe_err_bind; [destruct (env_blockRepo E); auto with eff|intros ?].
  apply safe_err_bind; [auto with eff|intros ?].
  apply safe_err_commit; [eauto| |auto with eff]. intros err w1 e w' _ [n Hn]. by exists n, err.
Qed.

Lemma dryRun_flag req (w : world C) res w' :
  dryRun E req w = (Ok res, w') -> pu_DryRun res = true.
Proof.
  unfold dryRun. intros H. by inv_do H.
Qed.

Lemma PurgeFromBlock_by (P : M C PurgeResult -> Prop) req :
  (forall e, P (fail e)) -> (forall A (m : M C A) k, in_tx m -> (forall a, P (k a)) -> P (bind m k)) ->
  P (if pr_DryRun req then dryRun E req else executePurge E req) -> P (PurgeFromBlock E req).
Proof.
  intros Hfail Hbind Hrun. unfold PurgeFromBlock. destruct (_ && _); [|done].
  apply Hbind; [auto with eff|]. intros [b|]; [|done]. by destruct (String.eqb _ _).
Qed.
End PurgeAtomic.

(** Also: A purge is all or nothing: whatever call fails, an error means the
    committed tables are untouched (unless a commit was applied and only its
    acknowledgement lost); a dry run never writes, and a purge that refuses a
    finalized block has not written either. *)
Theorem purge_atomic {C} (E : env) (req : PurgeRequest) (w : world C) :
  match PurgeFromBlock E req w with
  | (Ok res, w') => pr_DryRun req = true -> w_db w' = w_db w /\ pu_DryRun res = true
  | (Err e, w') =>
      w_db w' = w_db w \/ exists n e', env_commit E n = CommitUnacked e'
  end.
Proof.
  pose proof (PurgeFromBlock_by (C:=C) E (safe_err (unacked E)) req) as Hat.
  pose proof (PurgeFromBlock_by (C:=C) E (fun m => pr_DryRun req = true -> in_tx m /\
    forall w res w', m w = (Ok res, w') -> pu_DryRun res = true) req) as Hdry.
  destruct (PurgeFromBlock E req w) as [[res|e] w'] eqn:Hrun.
  - intros Hd. destruct Hdry as [Hin Hflag]; [| | |done|].
    + intros e _. split; [auto with eff|done].
    + intros A m k Hm Hk _. split; [apply in_tx_bind; [done|intros a; by apply Hk]|].
      intros w1 res1 w1' (a & w2 & _ & H)%bind_ok. by eapply Hk.
    + intros _. rewrite Hd. split; [auto with eff|]. intros. by eapply dryRun_flag.
    + split; [|by eapply Hflag]. specialize (Hin w). rewrite Hrun in Hin. apply Hin.
  - assert (Ha : safe_err (unacked E) (PurgeFromBlock (C:=C) E req)).
    { apply Hat; [auto using safe_err_in_tx with eff|by intros; apply safe_err_bind|].
      destruct (pr_DryRun req); [auto using safe_err_in_tx with eff|apply executePurge_atomic]. }
    by apply Ha in Hrun.
Qed.

Lemma length_filter_split {A} (p : A -> bool) (l : list A) :
  length l = (length (filter (fun x => p x = true) l) + length (filter (fun x => p x = false) l))%nat.
Proof.
  induction l as [|x l IH]; [done|]. rewrite !filter_cons. destruct (p x); simpl; lia.
Qed.

Lemma size_filter_split `{Countable K} {V} (p : K * V -> bool) (m : gmap K V) :
  size m = (size (filter (fun kv => p kv = true) m) + size (filter (fun kv => p kv = false) m))%nat.
Proof.
  rewrite <- (map_filter_union_complement (fun kv => p kv = true) m) at 1.
  rewrite map_size_disj_union by apply map_disjoint_filter_complement. do 2 f_equal.
  apply map_filter_ext. intros k v _. by destruct (p (k, v)).
Qed.

Lemma rewind_target_max n : min_int64 < n <= max_int64 -> rewind_target n = Z.max 0 (n - 1).
Proof.
  unfold min_int64, max_int64, rewind_target. intros Hn. rewrite wrap64_id by (unfold in_int64, min_int64, max_int64; lia).
  destruct (Z.ltb_spec (n - 1) 0); lia.
Qed.

(** What a purge leaves of the indexed blocks, and how many it counts. *)
Lemma purged_blocks repo (req : PurgeRequest) balances d :
  let d' := purged repo (pr_Chain req) (pr_Network req) (pr_FromBlock req) balances d in
  (forall c nw n b, db_blocks d' !! (c, nw, n) = Some b <-> db_blocks d !! (c, nw, n) = Some b /\
     ~ (repo = true /\ c = pr_Chain req /\ nw = pr_Network req /\ pr_FromBlock req <= n)) /\
  (if repo then count_blocks (pr_Chain req) (pr_Network req) (pr_FromBlock req) d else 0) =
    Z.of_nat (size (db_blocks d)) - Z.of_nat (size (db_blocks d')).
Proof.
  unfold purged, count_blocks. destruct repo; cbn [db_blocks set_blocks].
  - split.
    + intros c nw n b. simpl. rewrite map_lookup_filter_Some. unfold IndexedBlockRepo.from_block. cbn [fst].
      rewrite <- not_true_iff_false, !andb_true_iff, !String.eqb_eq, Z.leb_le. tauto.
    + simpl. rewrite (size_filter_split (IndexedBlockRepo.from_block (pr_Chain req) (pr_Network req) (pr_FromBlock req)) (db_blocks d)). lia.
  - split; [|simpl; lia]. intros c nw n b. simpl. split; [|tauto]. intros H. split; [done|]. by intros [? _].
Qed.

(** C10: What a successful purge leaves: of the events, the transactions and, with a
    repository of blocks, the indexed blocks of the chain exactly those below the block, and
    all of other chains; without that repository every block stays.  The counts reported are
    the numbers of rows removed.  The watermark of the chain stands one below the block, never
    below zero, and no other chain's watermark moved. *)
Theorem purge_effect {C} (E : env) (req : PurgeRequest) (w w' : world C) (res : PurgeResult)
    (Hids : ids_ok (w_db w)) (Hdry : pr_DryRun req = false)
    (Hrun : PurgeFromBlock E req w = (Ok res, w')) :
  let d := w_db w in let d' := w_db w' in
  let purged c nw n := c = pr_Chain req /\ nw = pr_Network req /\ pr_FromBlock req <= n in
  (forall r, r ∈ db_events d' <->
     r ∈ db_events d /\ ~ purged (be_Chain (ev_cols r)) (be_Network (ev_cols r)) (be_BlockCursor (ev_cols r))) /\
  pu_PurgedEvents res = Z.of_nat (length (db_events d)) - Z.of_nat (length (db_events d')) /\
  (forall c nw h t, db_transactions d' !! (c, nw, h) = Some t <->
     db_transactions d !! (c, nw, h) = Some t /\ ~ purged c nw (tx_BlockCursor t.2)) /\
  pu_PurgedTransactions res = Z.of_nat (size (db_transactions d)) - Z.of_nat (size (db_transactions d')) /\
  (forall c nw n b, db_blocks d' !! (c, nw, n) = Some b <->
     db_blocks d !! (c, nw, n) = Some b /\ ~ (env_blockRepo E = true /\ purged c nw n)) /\
  pu_PurgedBlocks res = Z.of_nat (size (db_blocks d)) - Z.of_nat (size (db_blocks d')) /\
  db_watermarks d' !! (pr_Chain req, pr_Network req) = Some (pu_NewWatermark res) /\
  (min_int64 < pr_FromBlock req <= max_int64 -> pu_NewWatermark res = Z.max 0 (pr_FromBlock req - 1)) /\
  (forall k, k <> (pr_Chain req, pr_Network req) -> db_watermarks d' !! k = db_watermarks d !! k).
Proof.
  apply PurgeFromBlock_execute in Hrun as (w0 & Hdb & Hrun); [|done]. rewrite <- Hdb in *. clear Hdb.
  apply executePurge_ok in Hrun as (l & st & t1 & t2 & _ & _ & _ & -> & Hev & Htx & Hbl & Hwm); [|done].
  intros d d' from. subst d. unfold count_events in Hev. unfold count_transactions in Htx.
  assert (Hfields : db_events d' = filter (fun r => row_from (pr_Chain req) (pr_Network req)
                      (pr_FromBlock req) r = false) (db_events (w_db w0)) /\
                    db_transactions d' = filter (fun kv => tx_from (pr_Chain req) (pr_Network req)
                      (pr_FromBlock req) kv = false) (db_transactions (w_db w0)) /\
                    db_watermarks d' = <[(pr_Chain req, pr_Network req) := rewind_target (pr_FromBlock req)]>
                      (db_watermarks (w_db w0))).
  { unfold d', purged. by destruct (env_blockRepo E). }
  destruct Hfields as (Hfe & Hft & Hfw). rewrite Hfe, Hft, Hfw, Hev, Htx, Hwm.
  rewrite (length_filter_split (row_from (pr_Chain req) (pr_Network req) (pr_FromBlock req)) (db_events (w_db w0))).
  rewrite (size_filter_split (tx_from (pr_Chain req) (pr_Network req) (pr_FromBlock req)) (db_transactions (w_db w0))).
  destruct (purged_blocks (env_blockRepo E) req t2 (w_db w0)) as [Hblocks Hcount]. rewrite Hbl, Hcount.
  split_and!; [| lia | | lia | exact Hblocks | done | by rewrite lookup_insert_eq | by apply rewind_target_max
              | by intros; rewrite lookup_insert_ne].
  - intros r. rewrite list_elem_of_filter. unfold row_from, row_of, from.
    rewrite <- not_true_iff_false, !andb_true_iff, !String.eqb_eq, Z.leb_le. tauto.
  - intros c nw h t. rewrite map_lookup_filter_Some. unfold tx_from, from. cbn [fst snd].
    rewrite <- not_true_iff_false, !andb_true_iff, !String.eqb_eq, Z.leb_le. tauto.
Qed.

Lemma purge_effect_witness :
  db_watermarks (w_db (PurgeFromBlock calm (purge_request 9) (world_of tt (sample_db sample_rows 10))).2)
    !! ("base", "mainnet") = Some 8.
Proof.
  destruct (ran_ok (PurgeFromBlock calm (purge_request 9) (world_of tt (sample_db sample_rows 10))))
    as [res Hrun]; [vm_compute; reflexivity|].
  pose proof (purge_effect calm (purge_request 9) (world_of tt (sample_db sample_rows 10)) _ res
    (sample_ids_ok 10) eq_refl Hrun) as (_ & _ & _ & _ & _ & _ & H & Hwm & _).
  rewrite Hwm in H; [exact H|]. split; vm_compute; (reflexivity || discriminate).
Defined.

(** Also: The limit of the reversal: a balance that has a row gets back the delta
    of exactly one of the purged events of its (address, token), however many
    there are, because the bulk statement updates a row once. *)
Theorem purge_reverses_one_delta {C} (E : env) `{!EnvOk E} (req : PurgeRequest) (w w' : world C)
    (res : PurgeResult) (r : event_row) (row : balance_row)
    (Hids : ids_ok (w_db w))
    (Hcanon : Forall row_canonical (db_events (w_db w)))
    (Hr : r ∈ rollback_rows (pr_Chain req) (pr_Network req) (pr_FromBlock req) (w_db w))
    (Happlied : applied r = true)
    (Hrow : db_balances (w_db w) !! liquid_pk (ev_cols r) = Some row)
    (Hdry : pr_DryRun req = false)
    (Hrun : PurgeFromBlock E req w = (Ok res, w')) :
  exists r', r' ∈ db_events (w_db w) /\ liquid_pk (ev_cols r') = liquid_pk (ev_cols r) /\
    amount (db_balances (w_db w')) (liquid_pk (ev_cols r)) = bal_amount row - delta_of (ev_cols r').
Proof.
  apply PurgeFromBlock_execute in Hrun as (w0 & Hdb & Hrun); [|done]. rewrite <- Hdb in *.
  set (rows := rollback_rows _ _ _ _) in Hr.
  assert (Hc : Forall row_canonical rows).
  { unfold rows. rewrite rollback_rows_perm. rewrite Forall_forall in *.
    intros x [_ Hx]%list_elem_of_filter. auto. }
  pose proof (rows_from_chain req (w_db w0)) as Hchain. fold rows in Hchain. rewrite Forall_forall in Hchain.
  apply executePurge_ok in Hrun as (liquid & staked & t1 & t2 & Hrev & Ht1 & Ht2 & -> & _); [|done].
  fold rows in Hrev. rewrite reversal_items_spec in Hrev by done. injection Hrev as <- <-.
  assert (Hpk : forall x, x ∈ rows ->
    item_pk (pr_Chain req) (pr_Network req) (undo_liquid x) = liquid_pk (ev_cols x)).
  { intros x Hx. specialize (Hchain x Hx). unfold row_of in Hchain.
    by apply andb_true_iff in Hchain as [<-%String.eqb_eq <-%String.eqb_eq]. }
  destruct (bulk_adjust_one_delta _ _ _ env_pick_in _ _ _ (undo_liquid r) row Ht1)
    as (j & (r' & -> & Hr')%list_elem_of_fmap & Hjpk & Hamt).
  { apply list_elem_of_fmap_2. by apply list_elem_of_filter. }
  { by rewrite Hpk. }
  apply list_elem_of_filter in Hr' as [_ Hr']. rewrite (Hpk r'), (Hpk r) in Hjpk by done. rewrite (Hpk r) in Hamt by done.
  exists r'. split_and!; [|done|].
  - unfold rows in Hr'. rewrite rollback_rows_perm, list_elem_of_filter in Hr'. apply Hr'.
  - transitivity (amount t2 (liquid_pk (ev_cols r))); [by unfold purged; destruct (env_blockRepo E)|].
    unfold amount in *. rewrite (bulk_adjust_other _ _ _ env_pick_in _ _ _ _ Ht2).
    2:{ intros (x & Hx & (y & -> & _)%list_elem_of_fmap)%list_elem_of_fmap. by inversion Hx. }
    rewrite Hamt, (item_delta_show _ (- delta_of (ev_cols r'))) by done. lia.
Qed.

Lemma purge_reverses_one_delta_witness :
  exists r', r' ∈ sample_rows /\ liquid_pk (ev_cols r') = sample_pk /\
    amount (db_balances (w_db (PurgeFromBlock calm (purge_request 5)
      (world_of tt (sample_db sample_rows 10))).2)) sample_pk = 10 - delta_of (ev_cols r').
Proof.
  destruct (ran_ok (PurgeFromBlock calm (purge_request 5) (world_of tt (sample_db sample_rows 10))))
    as [res Hrun]; [vm_compute; reflexivity|].
  refine (purge_reverses_one_delta calm (purge_request 5) (world_of tt (sample_db sample_rows 10)) _ res
    {| ev_id := 1%N; ev_cols := sample_event "base" "mainnet" "alice" 1%N ActivityDeposit 7 5 true "e1" |}
    (sample_balance 10) (sample_ids_ok 10) (sample_canonical 10) _ eq_refl _ eq_refl Hrun).
  - rewrite rollback_rows_perm. apply list_elem_of_filter. split; [reflexivity|apply elem_of_cons; by left].
  - apply lookup_singleton_eq.
Defined.
