(* ===== verification/Ingester.v ===== *)
(** * The ingester: [internal/pipeline/ingester/ingester.go]

    The single writer of the pipeline.  [processBatch] turns a normalized batch
    into transactions, tokens, balance events and balance deltas in four phases
    inside one database transaction; a batch whose cursor moved backwards first
    rolls the chain back.  [handleReorg] and [handleFinalityPromotion] serve the
    two other inputs of its loop, and [processBatchWithRetry] repeats failed
    batches.

    The phases of [batchContext] are the records [phase1], [phase2] and
    [phase3].  Logging, metrics and tracing are left out. *)

From Stdlib Require Import ZArith String Lia.
From stdpp Require Import base option list strings gmap fin_maps sorting.
From S2P Require Import Prelude Retry Domain Identity Store Ledger Cache IngesterRules Effects Replay.

Open Scope Z_scope.

(** ** [batchContext] *)

Record eventContext := {
  ec_ntx : NormalizedTransaction;
  ec_be : NormalizedBalanceEvent;
  ec_canonicalTxHash : string
}.

(** [store.BalanceKey], wallet and organisation. *)
Definition adjustmentKey : Type := BalanceKey * string * string.

Record adjustmentAccum := { acc_delta : Z; acc_cursor : Z; acc_txHash : string }.

Record balanceAccum := { bacc_amount : string; bacc_exists : bool }.

Record phase1 := {
  p1_txModels : list Transaction;
  p1_tokenModels : list Token;
  p1_contractsToCheck : gset string;
  p1_allEvents : list eventContext
}.

Record phase2 := {
  p2_txIDMap : gmap string uuid;
  p2_tokenIDMap : gmap string uuid;
  p2_cachedDenied : gmap string bool;
  p2_balanceMap : gmap BalanceKey (string * bool)
}.

Record phase3 := {
  p3_inMemoryBalances : gmap BalanceKey balanceAccum;
  p3_cachedDenied : gmap string bool;
  p3_eventModels : list BalanceEvent;
  p3_aggregatedDeltas : gmap adjustmentKey adjustmentAccum
}.

(** ** Phase 1: [collectEvents]

    [txModelsByHash] and [tokenModelsByContract] hold the keys of the models
    collected so far. *)

Definition canonical_tx_hash (chain : Chain) (hash : string) : string :=
  let h := CanonicalSignatureIdentity chain hash in if str_empty h then hash else h.

Definition tx_model (batch : NormalizedBatch) (ntx : NormalizedTransaction) (hash : string)
    : Transaction :=
  {| tx_Chain := nb_Chain batch; tx_Network := nb_Network batch; tx_TxHash := hash;
     tx_BlockCursor := ntx_BlockCursor ntx; tx_BlockTime := ntx_BlockTime ntx;
     tx_FeeAmount := ntx_FeeAmount ntx; tx_FeePayer := ntx_FeePayer ntx;
     tx_Status := ntx_Status ntx; tx_Err := ntx_Err ntx;
     tx_ChainData := match ntx_ChainData ntx with Some j => Some j | None => emptyJSONObject end;
     tx_BlockHash := ntx_BlockHash ntx; tx_ParentHash := ntx_ParentHash ntx |}.

Definition token_model (batch : NormalizedBatch) (be : NormalizedBalanceEvent) : Token :=
  {| tk_Chain := nb_Chain batch; tk_Network := nb_Network batch;
     tk_ContractAddress := nbe_ContractAddress be; tk_Symbol := defaultTokenSymbol be;
     tk_Name := defaultTokenName be; tk_Decimals := nbe_TokenDecimals be;
     tk_TokenType := nbe_TokenType be; tk_ChainData := emptyJSONObject |}.

Definition native_token_model (batch : NormalizedBatch) : Token :=
  {| tk_Chain := nb_Chain batch; tk_Network := nb_Network batch;
     tk_ContractAddress := nativeTokenContract (nb_Chain batch);
     tk_Symbol := nativeTokenSymbol (nb_Chain batch);
     tk_Name := nativeTokenName (nb_Chain batch);
     tk_Decimals := nativeTokenDecimals (nb_Chain batch);
     tk_TokenType := TokenTypeNative; tk_ChainData := emptyJSONObject |}.

Definition add_tx_model (p : phase1) (t : Transaction) : phase1 :=
  if bool_decide (tx_TxHash t ∈ tx_TxHash <$> p1_txModels p) then p
  else {| p1_txModels := p1_txModels p ++ [t]; p1_tokenModels := p1_tokenModels p;
          p1_contractsToCheck := p1_contractsToCheck p; p1_allEvents := p1_allEvents p |}.

(** The token model of an event, its contract and the event itself. *)
Definition add_event (p : phase1) (t : Token) (ec : eventContext) : phase1 :=
  let contract := tk_ContractAddress t in
  {| p1_txModels := p1_txModels p;
     p1_tokenModels :=
       if bool_decide (contract ∈ tk_ContractAddress <$> p1_tokenModels p) then p1_tokenModels p
       else p1_tokenModels p ++ [t];
     p1_contractsToCheck := {[ contract ]} ∪ p1_contractsToCheck p;
     p1_allEvents := p1_allEvents p ++ [ec] |}.

(** Is a fee-only event due?  Failed, no events, a fee and a payer. *)
Definition fee_only_due (ntx : NormalizedTransaction) : bool :=
  String.eqb (ntx_Status ntx) TxStatusFailed &&
  match ntx_BalanceEvents ntx with [] => true | _ => false end &&
  negb (str_empty (ntx_FeeAmount ntx)) && negb (String.eqb (ntx_FeeAmount ntx) "0") &&
  negb (str_empty (ntx_FeePayer ntx)).

(** [feeVal.SetString(...)] succeeds and the fee is not negative. *)
Definition fee_valid (ntx : NormalizedTransaction) : bool :=
  match parse_decimal (trim_space (ntx_FeeAmount ntx)) with
  | Some v => 0 <=? v
  | None => false
  end.

Definition collect_tx (batch : NormalizedBatch) (p : phase1) (ntx : NormalizedTransaction) : phase1 :=
  let hash := canonical_tx_hash (nb_Chain batch) (ntx_TxHash ntx) in
  let p := add_tx_model p (tx_model batch ntx hash) in
  let p := foldl (fun p be =>
             add_event p (token_model batch be)
               {| ec_ntx := ntx; ec_be := be; ec_canonicalTxHash := hash |})
             p (ntx_BalanceEvents ntx) in
  if fee_only_due ntx && fee_valid ntx
  then add_event p (native_token_model batch)
         {| ec_ntx := ntx; ec_be := buildFeeOnlyEvent ntx batch; ec_canonicalTxHash := hash |}
  else p.

Definition empty_phase1 : phase1 :=
  {| p1_txModels := []; p1_tokenModels := []; p1_contractsToCheck := ∅; p1_allEvents := [] |}.

Definition collectEvents (batch : NormalizedBatch) : phase1 :=
  foldl (collect_tx batch) empty_phase1 (nb_Transactions batch).

(** ** Phase 2: [prefetchBulkData] *)

Definition maxBalanceKeysPerQuery : nat := 5000.

(** The balance keys of the events, each once, in order of first appearance. *)
Definition balance_keys (tokenIDs : gmap string uuid) (evs : list eventContext) : list BalanceKey :=
  foldl (fun keys ec =>
    match tokenIDs !! nbe_ContractAddress (ec_be ec) with
    | None => keys
    | Some tokenID =>
        let bk : BalanceKey := (nbe_Address (ec_be ec), tokenID, "") in
        if bool_decide (bk ∈ keys) then keys else keys ++ [bk]
    end) [] evs.

(** [for i := 0; i < len(keys); i += n]: the slices of at most [n] keys. *)
Fixpoint chunks_of {A} (fuel n : nat) (l : list A) : list (list A) :=
  match fuel, l with
  | S fuel', _ :: _ => take n l :: chunks_of fuel' n (drop n l)
  | _, _ => []
  end.

(** ** Rollback and promotion items *)

Record rollbackBalanceEvent := {
  rbe_TokenID : uuid;
  rbe_Address : string;
  rbe_Delta : string;
  rbe_BlockCursor : Z;
  rbe_TxHash : string;
  rbe_WalletID : option string;
  rbe_OrganizationID : option string;
  rbe_ActivityType : ActivityType;
  rbe_BalanceApplied : bool
}.

Record promotedEvent := {
  pe_TokenID : uuid;
  pe_Address : string;
  pe_Delta : string;
  pe_BlockCursor : Z;
  pe_TxHash : string;
  pe_WalletID : option string;
  pe_OrganizationID : option string;
  pe_ActivityType : ActivityType
}.

(** [scanRollbackEvents] and [scanPromotedEvents], on one row. *)
Definition scan_rollback (r : event_row) : rollbackBalanceEvent :=
  let be := ev_cols r in
  {| rbe_TokenID := be_TokenID be; rbe_Address := be_Address be; rbe_Delta := be_Delta be;
     rbe_BlockCursor := be_BlockCursor be; rbe_TxHash := be_TxHash be;
     rbe_WalletID := be_WalletID be; rbe_OrganizationID := be_OrganizationID be;
     rbe_ActivityType := be_ActivityType be; rbe_BalanceApplied := be_BalanceApplied be |}.

Definition scan_promoted (r : event_row) : promotedEvent :=
  let be := ev_cols r in
  {| pe_TokenID := be_TokenID be; pe_Address := be_Address be; pe_Delta := be_Delta be;
     pe_BlockCursor := be_BlockCursor be; pe_TxHash := be_TxHash be;
     pe_WalletID := be_WalletID be; pe_OrganizationID := be_OrganizationID be;
     pe_ActivityType := be_ActivityType be |}.

Definition rollback_item (be : rollbackBalanceEvent) (delta balanceType : string) : BulkAdjustItem :=
  {| ba_Address := rbe_Address be; ba_TokenID := rbe_TokenID be; ba_WalletID := rbe_WalletID be;
     ba_OrgID := rbe_OrganizationID be; ba_Delta := delta; ba_Cursor := rbe_BlockCursor be;
     ba_TxHash := rbe_TxHash be; ba_BalanceType := balanceType |}.

Definition buildReversalAdjustItems (events : list rollbackBalanceEvent)
    : result go_error (list BulkAdjustItem) :=
  rfoldl (fun items be =>
    if negb (rbe_BalanceApplied be) then Ok items
    else match NegateDecimalString (rbe_Delta be) with
         | Err e => Err (EWrap ("negate delta for " +:+ rbe_TxHash be) (EMsg e))
         | Ok invertedDelta =>
             Ok (items ++ [rollback_item be invertedDelta ""] ++
                 if IsStakingActivity (rbe_ActivityType be)
                 then [rollback_item be (rbe_Delta be) "staked"] else [])
         end) [] events.

Definition promotion_item (pe : promotedEvent) (delta balanceType : string) : BulkAdjustItem :=
  {| ba_Address := pe_Address pe; ba_TokenID := pe_TokenID pe; ba_WalletID := pe_WalletID pe;
     ba_OrgID := pe_OrganizationID pe; ba_Delta := delta; ba_Cursor := pe_BlockCursor pe;
     ba_TxHash := pe_TxHash pe; ba_BalanceType := balanceType |}.

Definition buildPromotionAdjustItems (events : list promotedEvent)
    : result go_error (list BulkAdjustItem) :=
  rfoldl (fun items pe =>
    let items := items ++ [promotion_item pe (pe_Delta pe) ""] in
    if IsStakingActivity (pe_ActivityType pe) then
      match NegateDecimalString (pe_Delta pe) with
      | Err e => Err (EWrap "negate staking delta" (EMsg e))
      | Ok invertedDelta => Ok (items ++ [promotion_item pe invertedDelta "staked"])
      end
    else Ok items) [] events.

(** [ORDER BY block_cursor DESC, id DESC] *)
Definition newest_first (a b : event_row) : Prop :=
  let ca := be_BlockCursor (ev_cols a) in
  let cb := be_BlockCursor (ev_cols b) in
  cb < ca \/ (ca = cb /\ (ev_id b <= ev_id a)%N).
#[export] Instance newest_first_dec a b : Decision (newest_first a b).
Proof. unfold newest_first. apply _. Defined.

(** [watched_address = $3], for the rollback of one address. *)
Definition row_watched (address : string) (r : event_row) : bool :=
  match be_WatchedAddress (ev_cols r) with
  | Some a => String.eqb a address
  | None => false
  end.

Definition row_from_watched (chain : Chain) (network : Network) (address : string) (block : Z)
    (r : event_row) : bool :=
  row_from chain network block r && row_watched address r.

Definition rows_newest_first (p : event_row -> bool) (d : db) : list event_row :=
  merge_sort newest_first (filter (fun r => p r = true) (db_events d)).

(** ** Finality of stored events *)

Definition with_finality (state : string) (applied : bool) (be : BalanceEvent) : BalanceEvent :=
  {| be_Chain := be_Chain be; be_Network := be_Network be;
     be_TransactionID := be_TransactionID be; be_TxHash := be_TxHash be;
     be_OuterInstructionIndex := be_OuterInstructionIndex be;
     be_InnerInstructionIndex := be_InnerInstructionIndex be;
     be_TokenID := be_TokenID be; be_ActivityType := be_ActivityType be;
     be_EventAction := be_EventAction be; be_ProgramID := be_ProgramID be;
     be_Address := be_Address be; be_CounterpartyAddress := be_CounterpartyAddress be;
     be_Delta := be_Delta be; be_BalanceBefore := be_BalanceBefore be;
     be_BalanceAfter := be_BalanceAfter be; be_WatchedAddress := be_WatchedAddress be;
     be_WalletID := be_WalletID be; be_OrganizationID := be_OrganizationID be;
     be_BlockCursor := be_BlockCursor be; be_BlockTime := be_BlockTime be;
     be_ChainData := be_ChainData be; be_BalanceApplied := applied;
     be_EventID := be_EventID be; be_BlockHash := be_BlockHash be;
     be_TxIndex := be_TxIndex be; be_EventPath := be_EventPath be;
     be_EventPathType := be_EventPathType be; be_ActorAddress := be_ActorAddress be;
     be_AssetType := be_AssetType be; be_AssetID := be_AssetID be;
     be_FinalityState := state; be_DecoderVersion := be_DecoderVersion be;
     be_SchemaVersion := be_SchemaVersion be |}.

(** [chain = $1 AND network = $2 AND block_cursor <= $3] *)
Definition row_upto (chain : Chain) (network : Network) (block : Z) (r : event_row) : bool :=
  row_of chain network r && (be_BlockCursor (ev_cols r) <=? block).

Definition finalize_row (chain : Chain) (network : Network) (upToBlock : Z) (r : event_row) : event_row :=
  let be := ev_cols r in
  if row_upto chain network upToBlock r && negb (String.eqb (be_FinalityState be) "finalized") &&
     negb (str_empty (be_FinalityState be))
  then {| ev_id := ev_id r; ev_cols := with_finality "finalized" (be_BalanceApplied be) be |}
  else r.

(** The rows the second statement updates and returns. *)
Definition promotable (chain : Chain) (network : Network) (upToBlock : Z) (r : event_row) : bool :=
  row_upto chain network upToBlock r && negb (be_BalanceApplied (ev_cols r)) &&
  String.eqb (be_FinalityState (ev_cols r)) "finalized".

Definition promote_row (chain : Chain) (network : Network) (upToBlock : Z) (r : event_row) : event_row :=
  if promotable chain network upToBlock r
  then {| ev_id := ev_id r; ev_cols := with_finality (be_FinalityState (ev_cols r)) true (ev_cols r) |}
  else r.

Section Ingester.
Context {C : Type} `{!Cache C string bool} (E : env).

Definition now : M C Z := fun w => (Ok (env_clock E (w_tick w)), tick w).

Definition denied_get (key : string) : M C (option bool) := fun w =>
  let '(v, c) := Get (env_clock E (w_tick w)) (w_denied w) key in
  (Ok v, set_denied c (tick w)).

Definition denied_put (key : string) (v : bool) : M C unit := fun w =>
  (Ok tt, set_denied (Put (env_clock E (w_tick w)) (w_denied w) key v) (tick w)).

Definition deniedKeyPrefix (batch : NormalizedBatch) : string :=
  nb_Chain batch +:+ ":" +:+ nb_Network batch +:+ ":".

(** The cache pass: known contracts, and those the database must be asked for. *)
Definition split_cached (batch : NormalizedBatch) (contracts : list string)
    : M C (gmap string bool * list string) :=
  mfold (fun '(cached, uncached) contract =>
    do! v <- denied_get (deniedKeyPrefix batch +:+ contract);
    match v with
    | Some denied => ret (<[contract := denied]> cached, uncached)
    | None => ret (cached, uncached ++ [contract])
    end) (∅, []) contracts.

Definition denied_check (batch : NormalizedBatch) (contracts : gset string)
    : M C (gmap string bool) :=
  do! ' (cached, uncached) <- split_cached batch (env_shuffle E _ (elements contracts));
  match uncached with
  | [] => ret cached
  | _ =>
      do! dbDenied <- wrap_err "bulk check denied tokens" (query E (fun d =>
        TokenRepo.BulkIsDeniedTx d (nb_Chain batch) (nb_Network batch) uncached));
      mfold (fun cached contract =>
        let denied := default false (dbDenied !! contract) in
        do! _ <- denied_put (deniedKeyPrefix batch +:+ contract) denied;
        ret (<[contract := denied]> cached)) cached uncached
  end.

Definition get_balances (text : string) (batch : NormalizedBatch) (keys : list BalanceKey)
    : M C (gmap BalanceKey (string * bool)) :=
  wrap_err text (query E (fun d =>
    BalanceRepo.BulkGetAmountWithExistsTx (nb_Chain batch) (nb_Network batch) (db_balances d) keys)).

Definition prefetch_balances (batch : NormalizedBatch) (keys : list BalanceKey)
    : M C (gmap BalanceKey (string * bool)) :=
  match keys with
  | [] => ret ∅
  | _ =>
      if (length keys <=? maxBalanceKeysPerQuery)%nat
      then get_balances "bulk get balances" batch keys
      else mfold (fun m chunk =>
             do! r <- get_balances "bulk get balances chunk" batch chunk;
             ret (r ∪ m)) ∅ (chunks_of (length keys) maxBalanceKeysPerQuery keys)
  end.

Definition prefetchBulkData (batch : NormalizedBatch) (p1 : phase1) : M C phase2 :=
  do! txIDMap <- wrap_err "bulk upsert transactions" (call E (fun d =>
    TransactionRepo.BulkUpsertTx (env_uuid E) d (p1_txModels p1)));
  do! tokenIDMap <- wrap_err "bulk upsert tokens" (call E (fun d =>
    TokenRepo.BulkUpsertTx (env_uuid E) d (p1_tokenModels p1)));
  do! cachedDenied <- denied_check batch (p1_contractsToCheck p1);
  do! balanceMap <- prefetch_balances batch (balance_keys tokenIDMap (p1_allEvents p1));
  ret {| p2_txIDMap := txIDMap; p2_tokenIDMap := tokenIDMap;
         p2_cachedDenied := cachedDenied; p2_balanceMap := balanceMap |}.

(** *** Phase 3: [buildEventModels] *)

(** The watched address an event belongs to, its wallet and organisation. *)
Definition resolve_candidate (batch : NormalizedBatch) (addrMap : option (gmap string addrMeta))
    (candidate : string) : M C (option addrMeta) := fun w =>
  if str_empty candidate then (Ok None, w)
  else match env_addressIndex E with
       | Some Lookup =>
           (Ok (Lookup (w_tick w) (nb_Chain batch) (nb_Network batch) candidate), tick w)
       | None =>
           match addrMap with
           | Some m => (Ok (m !! candidate), w)
           | None => (Ok None, w)
           end
       end.

Definition resolve_watched (batch : NormalizedBatch) (addrMap : option (gmap string addrMeta))
    (be : NormalizedBalanceEvent) : M C (string * addrMeta) :=
  let batchMeta := {| am_walletID := nb_WalletID batch; am_orgID := nb_OrgID batch |} in
  if negb (nb_BlockScanMode batch) then ret (nb_Address batch, batchMeta)
  else
    do! first <- resolve_candidate batch addrMap (nbe_Address be);
    match first with
    | Some meta => ret (nbe_Address be, meta)
    | None =>
        do! second <- resolve_candidate batch addrMap (nbe_CounterpartyAddress be);
        match second with
        | Some meta => ret (nbe_CounterpartyAddress be, meta)
        | None => ret (nbe_Address be, batchMeta)
        end
    end.

Definition event_model (batch : NormalizedBatch) (ec : eventContext) (txID tokenID : uuid)
    (watched : string) (meta : addrMeta) (balanceBefore balanceAfter : string) : BalanceEvent :=
  let be := ec_be ec in
  let balanceApplied := meetsBalanceThreshold (nb_Chain batch) (nbe_FinalityState be)
                          (nbe_TokenType be) (nbe_Delta be) in
  {| be_Chain := nb_Chain batch; be_Network := nb_Network batch; be_TransactionID := txID;
     be_TxHash := ec_canonicalTxHash ec;
     be_OuterInstructionIndex := nbe_OuterInstructionIndex be;
     be_InnerInstructionIndex := nbe_InnerInstructionIndex be; be_TokenID := tokenID;
     be_ActivityType := nbe_ActivityType be; be_EventAction := nbe_EventAction be;
     be_ProgramID := nbe_ProgramID be; be_Address := nbe_Address be;
     be_CounterpartyAddress := nbe_CounterpartyAddress be; be_Delta := nbe_Delta be;
     be_BalanceBefore := if balanceApplied then Some balanceBefore else None;
     be_BalanceAfter := if balanceApplied then Some balanceAfter else None;
     be_WatchedAddress := Some watched; be_WalletID := am_walletID meta;
     be_OrganizationID := am_orgID meta; be_BlockCursor := ntx_BlockCursor (ec_ntx ec);
     be_BlockTime := ntx_BlockTime (ec_ntx ec);
     be_ChainData := match nbe_ChainData be with Some j => Some j | None => emptyJSONObject end;
     be_BalanceApplied := balanceApplied; be_EventID := nbe_EventID be;
     be_BlockHash := nbe_BlockHash be; be_TxIndex := nbe_TxIndex be;
     be_EventPath := nbe_EventPath be; be_EventPathType := nbe_EventPathType be;
     be_ActorAddress := nbe_ActorAddress be; be_AssetType := nbe_AssetType be;
     be_AssetID := nbe_AssetID be; be_FinalityState := nbe_FinalityState be;
     be_DecoderVersion := nbe_DecoderVersion be; be_SchemaVersion := nbe_SchemaVersion be |}.

(** Adds a delta to the accumulator of its key; the cursor and hash of the
    highest block win. *)
Definition accumulate (m : gmap adjustmentKey adjustmentAccum) (ak : adjustmentKey)
    (delta cursor : Z) (txHash : string) : gmap adjustmentKey adjustmentAccum :=
  match m !! ak with
  | Some existing =>
      <[ak := if acc_cursor existing <? cursor
              then {| acc_delta := acc_delta existing + delta; acc_cursor := cursor;
                      acc_txHash := txHash |}
              else {| acc_delta := acc_delta existing + delta;
                      acc_cursor := acc_cursor existing;
                      acc_txHash := acc_txHash existing |}]> m
  | None => <[ak := {| acc_delta := delta; acc_cursor := cursor; acc_txHash := txHash |}]> m
  end.

(** The liquid delta of an applied event and, for staking, the inverted one. *)
Definition accumulate_event (m : gmap adjustmentKey adjustmentAccum) (ec : eventContext)
    (tokenID : uuid) (meta : addrMeta) : result go_error (gmap adjustmentKey adjustmentAccum) :=
  let be := ec_be ec in
  let cursor := ntx_BlockCursor (ec_ntx ec) in
  let key (balanceType : string) : adjustmentKey :=
    (nbe_Address be, tokenID, balanceType, derefStr (am_walletID meta), derefStr (am_orgID meta)) in
  match parse_decimal (trim_space (nbe_Delta be)) with
  | None => Err (EMsg ("invalid delta value " +:+ nbe_Delta be +:+ " for event " +:+ nbe_EventID be))
  | Some delta =>
      let m := accumulate m (key "") delta cursor (ec_canonicalTxHash ec) in
      if IsStakingActivity (nbe_ActivityType be) then
        match NegateDecimalString (nbe_Delta be) with
        | Err e => Err (EWrap "negate staking delta" (EMsg e))
        | Ok invertedDelta =>
            match parse_decimal (trim_space invertedDelta) with
            | None => Err (EMsg ("invalid staking delta value " +:+ invertedDelta +:+
                                 " for event " +:+ nbe_EventID be))
            | Some stakeDelta =>
                Ok (accumulate m (key "staked") stakeDelta cursor (ec_canonicalTxHash ec))
            end
        end
      else Ok m
  end.

Definition deny_scam (batch : NormalizedBatch) (p3 : phase3) (be : NormalizedBalanceEvent)
    (signal : string) : M C phase3 :=
  let contract := nbe_ContractAddress be in
  do! _ <- wrap_err ("deny scam token " +:+ contract) (exec E (fun d =>
    Ok (TokenRepo.DenyTokenTx d (nb_Chain batch) (nb_Network batch) contract
          ("auto-detected: " +:+ signal))));
  do! _ <- denied_put (deniedKeyPrefix batch +:+ contract) true;
  ret {| p3_inMemoryBalances := p3_inMemoryBalances p3;
         p3_cachedDenied := <[contract := true]> (p3_cachedDenied p3);
         p3_eventModels := p3_eventModels p3;
         p3_aggregatedDeltas := p3_aggregatedDeltas p3 |}.

(** An event that is neither skipped nor scam. *)
Definition apply_event (batch : NormalizedBatch) (addrMap : option (gmap string addrMeta))
    (p3 : phase3) (ec : eventContext) (txID tokenID : uuid) (accum : balanceAccum) : M C phase3 :=
  let be := ec_be ec in
  let bk : BalanceKey := (nbe_Address be, tokenID, "") in
  match addDecimalStrings (bacc_amount accum) (nbe_Delta be) with
  | Err e => fail (EWrap ("apply delta " +:+ nbe_Delta be +:+ " to balance " +:+
                          bacc_amount accum) (EMsg e))
  | Ok balanceAfter =>
      do! ' (watched, meta) <- resolve_watched batch addrMap be;
      let beModel := event_model batch ec txID tokenID watched meta (bacc_amount accum) balanceAfter in
      let eventModels := p3_eventModels p3 ++ [beModel] in
      if be_BalanceApplied beModel then
        do! deltas <- lift (accumulate_event (p3_aggregatedDeltas p3) ec tokenID meta);
        ret {| p3_inMemoryBalances :=
                 <[bk := {| bacc_amount := balanceAfter; bacc_exists := true |}]>
                   (p3_inMemoryBalances p3);
               p3_cachedDenied := p3_cachedDenied p3; p3_eventModels := eventModels;
               p3_aggregatedDeltas := deltas |}
      else
        ret {| p3_inMemoryBalances := <[bk := accum]> (p3_inMemoryBalances p3);
               p3_cachedDenied := p3_cachedDenied p3; p3_eventModels := eventModels;
               p3_aggregatedDeltas := p3_aggregatedDeltas p3 |}
  end.

Definition build_step (batch : NormalizedBatch) (addrMap : option (gmap string addrMeta))
    (p2 : phase2) (p3 : phase3) (ec : eventContext) : M C phase3 :=
  let be := ec_be ec in
  match p2_tokenIDMap p2 !! nbe_ContractAddress be,
        p2_txIDMap p2 !! ec_canonicalTxHash ec with
  | Some tokenID, Some txID =>
      if default false (p3_cachedDenied p3 !! nbe_ContractAddress be) then ret p3
      else
        let bk : BalanceKey := (nbe_Address be, tokenID, "") in
        let accum := default {| bacc_amount := "0"; bacc_exists := false |}
                             (p3_inMemoryBalances p3 !! bk) in
        let signal := detectScamSignal (env_unmarshal E) (nb_Chain batch) be
                        (bacc_amount accum) (bacc_exists accum) in
        if negb (str_empty signal)
        then deny_scam batch
               {| p3_inMemoryBalances := <[bk := accum]> (p3_inMemoryBalances p3);
                  p3_cachedDenied := p3_cachedDenied p3; p3_eventModels := p3_eventModels p3;
                  p3_aggregatedDeltas := p3_aggregatedDeltas p3 |} be signal
        else apply_event batch addrMap p3 ec txID tokenID accum
  | _, _ => ret p3
  end.

Definition initial_phase3 (p2 : phase2) : phase3 :=
  {| p3_inMemoryBalances :=
       (fun bi => {| bacc_amount := bi.1; bacc_exists := bi.2 |}) <$> p2_balanceMap p2;
     p3_cachedDenied := p2_cachedDenied p2; p3_eventModels := []; p3_aggregatedDeltas := ∅ |}.

Definition buildEventModels (batch : NormalizedBatch) (addrMap : option (gmap string addrMeta))
    (p1 : phase1) (p2 : phase2) : M C phase3 :=
  mfold (build_step batch addrMap p2) (initial_phase3 p2) (p1_allEvents p1).

(** *** Phase 4: [writeBulkAndCommit] *)

Definition adjust_item (e : adjustmentKey * adjustmentAccum) : BulkAdjustItem :=
  let '((address, tokenID, balanceType), walletID, orgID) := e.1 in
  {| ba_Address := address; ba_TokenID := tokenID; ba_WalletID := strPtrOrNil walletID;
     ba_OrgID := strPtrOrNil orgID; ba_Delta := show_Z (acc_delta e.2);
     ba_Cursor := acc_cursor e.2; ba_TxHash := acc_txHash e.2; ba_BalanceType := balanceType |}.

Definition adjust_items (deltas : gmap adjustmentKey adjustmentAccum) : list BulkAdjustItem :=
  adjust_item <$> env_shuffle E _ (map_to_list deltas).

(** The first transaction with a hash names the block of its cursor. *)
Definition block_map (batch : NormalizedBatch) : gmap Z IndexedBlock :=
  foldl (fun m ntx =>
    if str_empty (ntx_BlockHash ntx) then m
    else match m !! ntx_BlockCursor ntx with
         | Some _ => m
         | None =>
             let finalityState :=
               match ntx_BalanceEvents ntx with
               | be :: _ => if str_empty (nbe_FinalityState be) then "pending"
                            else nbe_FinalityState be
               | [] => "pending"
               end in
             <[ntx_BlockCursor ntx :=
                 {| ib_Chain := nb_Chain batch; ib_Network := nb_Network batch;
                    ib_BlockNumber := ntx_BlockCursor ntx; ib_BlockHash := ntx_BlockHash ntx;
                    ib_ParentHash := ntx_ParentHash ntx; ib_FinalityState := finalityState;
                    ib_BlockTime := ntx_BlockTime ntx |}]> m
         end) ∅ (nb_Transactions batch).

Definition write_blocks (batch : NormalizedBatch) : M C unit :=
  if env_blockRepo E && match nb_Transactions batch with [] => false | _ => true end then
    match snd <$> map_to_list (block_map batch) with
    | [] => ret tt
    | blocks => wrap_err "bulk upsert indexed blocks" (exec E (fun d =>
                  IndexedBlockRepo.BulkUpsertTx d (env_shuffle E _ blocks)))
    end
  else ret tt.

(** [reconcileBlockScanCommit]: does the watermark show the commit? *)
Definition reconcileBlockScanCommit (batch : NormalizedBatch) (commitErr : go_error) : M C bool :=
  let prefix := "commit_ambiguity_unresolved chain=" +:+ nb_Chain batch +:+ " network=" +:+
                nb_Network batch in
  fun w =>
    match query_committed E (fun d =>
            WatermarkRepo.GetWatermark d (nb_Chain batch) (nb_Network batch)) w with
    | (Err e, w') =>
        (Err (EClassified ClassTerminal "explicit_terminal"
           (EWrap (prefix +:+ " reason=watermark_probe_failed expected_seq=" +:+
                   show_Z (nb_NewCursorSequence batch) +:+ " commit_err=" +:+
                   error_text commitErr) e)), w')
    | (Ok watermark, w') =>
        let mismatch observedSeq :=
          (Err (EClassified ClassTerminal "explicit_terminal"
             (EWrapf (prefix +:+ " reason=watermark_mismatch expected_seq=" +:+
                      show_Z (nb_NewCursorSequence batch) +:+ " observed_watermark=" +:+
                      show_Z observedSeq +:+ " commit_err=") commitErr)), w') in
        match watermark with
        | Some ingested =>
            if nb_NewCursorSequence batch <=? ingested then (Ok true, w') else mismatch ingested
        | None => mismatch (-1)
        end
    end.

Definition reconcileAmbiguousCommitOutcome (batch : NormalizedBatch) (commitErr : go_error)
    : M C bool :=
  if negb (isAmbiguousCommitAckError (Some commitErr)) then ret false
  else reconcileBlockScanCommit batch commitErr.

Definition commit_batch (batch : NormalizedBatch) (totalEvents : Z) : M C Z :=
  do! commitErr <- Commit E;
  match commitErr with
  | None => ret totalEvents
  | Some err =>
      do! reconciled <- reconcileAmbiguousCommitOutcome batch err;
      if reconciled then ret totalEvents else fail (EWrap "commit" err)
  end.

Definition write_events (eventModels : list BalanceEvent) : M C Z :=
  match eventModels with
  | [] => ret 0
  | _ =>
      do! t <- now;
      do! bulkResult <- wrap_err "bulk upsert balance events" (call E (fun d =>
        BalanceEventRepo.BulkUpsertTx (env_uuid E) t d eventModels));
      ret (BalanceEventRepo.bu_InsertedCount bulkResult +
           BalanceEventRepo.bu_FinalityCrossedCount bulkResult)
  end.

Definition writeBulkAndCommit (batch : NormalizedBatch) (p3 : phase3) : M C Z :=
  do! totalEvents <- write_events (p3_eventModels p3);
  do! _ <- adjust E "bulk adjust balances" (nb_Chain batch) (nb_Network batch)
             (adjust_items (p3_aggregatedDeltas p3));
  do! _ <- write_blocks batch;
  do! _ <- wrap_err "update watermark" (exec E (fun d =>
    Ok (WatermarkRepo.UpdateWatermarkTx d (nb_Chain batch) (nb_Network batch)
          (nb_NewCursorSequence batch))));
  commit_batch batch totalEvents.

(** *** Rollback of a canonicality drift *)

Definition fetchReorgRollbackEvents (chain : Chain) (network : Network) (forkBlock : Z)
    : M C (list rollbackBalanceEvent) :=
  wrap_err "query reorg rollback events" (query E (fun d =>
    scan_rollback <$> rows_newest_first (row_from chain network forkBlock) d)).

Definition fetchRollbackEvents (chain : Chain) (network : Network) (address : string)
    (forkCursor : Z) : M C (list rollbackBalanceEvent) :=
  wrap_err "query rollback events" (query E (fun d =>
    scan_rollback <$> rows_newest_first (row_from_watched chain network address forkCursor) d)).

Definition rollbackCanonicalityDrift (batch : NormalizedBatch) : M C unit :=
  let chain := nb_Chain batch in
  let network := nb_Network batch in
  let forkCursor := rollbackForkCursorSequence batch in
  do! rollbackEvents <- wrap_err "fetch rollback events"
    (if nb_BlockScanMode batch then fetchReorgRollbackEvents chain network forkCursor
     else fetchRollbackEvents chain network (nb_Address batch) forkCursor);
  do! reversalItems <- wrap_err "build canonicality drift reversal items"
                         (lift (buildReversalAdjustItems rollbackEvents));
  do! _ <- adjust E "revert balances" chain network reversalItems;
  do! _ <- wrap_err "delete rollback balance events" (exec E (fun d =>
    Ok (delete_events (if nb_BlockScanMode batch then row_from chain network forkCursor
                       else row_from_watched chain network (nb_Address batch) forkCursor) d)));
  wrap_err "rewind watermark after drift" (exec E (fun d =>
    Ok (WatermarkRepo.RewindWatermarkTx d chain network (rewind_target forkCursor)))).

(** *** The block-scan address map *)

Definition getBlockScanAddrMap
    (GetActive : nat -> Chain -> Network -> list WatchedAddress)
    (chain : Chain) (network : Network) : M C (gmap string addrMeta) := fun w =>
  let cacheKey := chain +:+ ":" +:+ network in
  let fresh :=
    match w_addrs w !! cacheKey with
    | Some (cached, at_) =>
        if env_clock E (w_tick w) - at_ <? env_blockScanAddrCacheTTL E then Some cached else None
    | None => None
    end in
  match fresh with
  | Some cached => (Ok cached, tick w)
  | None =>
      match env_fault E (w_tick w) with
      | Some e => (Err e, tick w)
      | None =>
          let addrMap := foldl (fun m wa =>
            <[CanonicalAddressIdentity chain (wa_Address wa) :=
                {| am_walletID := wa_WalletID wa; am_orgID := wa_OrganizationID wa |}]> m)
            ∅ (GetActive (w_tick w) chain network) in
          (Ok addrMap,
           set_addrs (<[cacheKey := (addrMap, env_clock E (S (w_tick w)))]> (w_addrs w)) (tick w))
      end
  end.

Definition block_scan_addrs (batch : NormalizedBatch) : M C (option (gmap string addrMeta)) :=
  match nb_BlockScanMode batch, env_addressIndex E, env_watchedAddrRepo E with
  | true, None, Some GetActive =>
      do! m <- wrap_err "fetch watched addresses for block-scan"
                 (getBlockScanAddrMap GetActive (nb_Chain batch) (nb_Network batch));
      ret (Some m)
  | _, _, _ => ret None
  end.

(** *** [processBatch] *)

Definition canonical_cursors (batch : NormalizedBatch) : NormalizedBatch :=
  {| nb_Chain := nb_Chain batch; nb_Network := nb_Network batch; nb_Address := nb_Address batch;
     nb_WalletID := nb_WalletID batch; nb_OrgID := nb_OrgID batch;
     nb_PreviousCursorValue := CanonicalizeCursorValue (nb_Chain batch) (nb_PreviousCursorValue batch);
     nb_PreviousCursorSequence := nb_PreviousCursorSequence batch;
     nb_Transactions := nb_Transactions batch;
     nb_NewCursorValue := CanonicalizeCursorValue (nb_Chain batch) (nb_NewCursorValue batch);
     nb_NewCursorSequence := nb_NewCursorSequence batch; nb_BlockScanMode := nb_BlockScanMode batch;
     nb_WatchedAddresses := nb_WatchedAddresses batch |}.

(** The four phases. *)
Definition run_phases (batch : NormalizedBatch) : M C unit :=
  do! addrMap <- block_scan_addrs batch;
  let p1 := collectEvents batch in
  do! p2 <- prefetchBulkData batch p1;
  do! p3 <- buildEventModels batch addrMap p1 p2;
  do! _ <- writeBulkAndCommit batch p3;
  ret tt.

(** From [BeginTx] to the return: nil is returned exactly when [committed]
    was set. *)
Definition process_in_tx (batch : NormalizedBatch) : M C unit :=
  do! _ <- wrap_err "begin tx" (BeginTx E);
  if isCanonicalityDrift batch && negb (isBTCRestartAnchorReplay batch) then
    do! _ <- wrap_err "handle reorg path" (rollbackCanonicalityDrift (withRollbackForkCursor batch));
    if shouldContinueCompetingBranchReplay batch then run_phases batch
    else
      do! commitErr <- Commit E;
      match commitErr with
      | Some err => fail (EWrap "commit rollback path" err)
      | None => ret tt
      end
  else run_phases batch.

(** Acquires the interleaver, runs the transaction, and releases with
    whether the commit checkpoint advanced. *)
Definition processBatch (batch0 : NormalizedBatch) : M C unit := fun w =>
  let batch := canonical_cursors batch0 in
  let advanceCommitCheckpoint := shouldAdvanceCommitCheckpoint batch in
  if env_interleaver E then
    match env_fault E (w_tick w) with
    | Some err => (Err err, tick w)
    | None =>
        let '(r, w') := process_in_tx batch (tick w) in
        (r, set_released (w_released w' ++ [is_ok r && advanceCommitCheckpoint]) w')
    end
  else process_in_tx batch w.

(** *** Retries *)

Definition sleep (delay : Z) : M C unit := fun w =>
  if delay <=? 0 then (Ok tt, w)
  else match env_ctx_err E (w_tick w) with
       | Some e => (Err e, tick w)
       | None => (Ok tt, tick w)
       end.

(** [attempts] tries are left; [attempt] is the number of the next one.
    [retryDelay] panics for a delay below 4ns. *)
Fixpoint retry_loop (attempts : nat) (attempt maxAttempts : Z) (batch : NormalizedBatch)
    : M C unit := fun w =>
  match attempts with
  | O => (Err (EMsg "unreachable"), w)
  | S attempts' =>
      match processBatch batch w with
      | (Ok _, w') => (Ok tt, w')
      | (Err err, w') =>
          match env_ctx_err E (w_tick w') with
          | Some ctxErr => (Err ctxErr, tick w')
          | None =>
              let w' := tick w' in
              let lastDecision := Classify (Some err) in
              if negb (IsTransient lastDecision)
              then (Err (EWrap ("terminal_failure stage=ingester.process_batch attempt=" +:+
                                show_Z attempt +:+ " reason=" +:+ d_Reason lastDecision) err), w')
              else match attempts' with
                   | O => (Err (EWrap ("transient_recovery_exhausted stage=ingester.process_batch attempts=" +:+
                                       show_Z maxAttempts +:+ " reason=" +:+ d_Reason lastDecision) err), w')
                   | S _ =>
                       match retryDelay (env_rand E) (env_retryDelayStart E) (env_retryDelayMax E) attempt with
                       | None => (Err (EMsg "ingester panicked: invalid argument to Int64N"), w')
                       | Some delay =>
                           match sleep delay w' with
                           | (Err e, w'') => (Err e, w'')
                           | (Ok _, w'') => retry_loop attempts' (attempt + 1) maxAttempts batch w''
                           end
                       end
                   end
          end
      end
  end.

Definition processBatchWithRetry (batch : NormalizedBatch) : M C unit :=
  let maxAttempts := effectiveRetryMaxAttempts (env_retryMaxAttempts E) in
  retry_loop (Z.to_nat maxAttempts) 1 maxAttempts batch.

(** *** Reorg events *)

Definition inline_reorg (reorg : ReorgEvent) : M C unit :=
  let chain := re_Chain reorg in
  let network := re_Network reorg in
  let fork := re_ForkBlockNumber reorg in
  do! _ <- wrap_err "begin reorg tx" (BeginTx E);
  do! rollbackEvents <- wrap_err "fetch reorg rollback events"
                          (fetchReorgRollbackEvents chain network fork);
  do! reversalItems <- wrap_err "build reorg reversal items"
                         (lift (buildReversalAdjustItems rollbackEvents));
  do! _ <- adjust E "revert balances" chain network reversalItems;
  do! _ <- wrap_err "delete reorg balance events" (exec E (fun d =>
    Ok (delete_events (row_from chain network fork) d)));
  do! _ <- wrap_err "delete reorg transactions" (exec E (fun d =>
    Ok (delete_transactions chain network fork d)));
  do! _ <- (if env_blockRepo E
            then wrap_err "delete reorg indexed blocks" (exec E (fun d =>
                   Ok (IndexedBlockRepo.DeleteFromBlockTx d chain network fork).1))
            else ret tt);
  do! _ <- wrap_err "rewind watermark" (exec E (fun d =>
    Ok (WatermarkRepo.RewindWatermarkTx d chain network (rewind_target fork))));
  do! commitErr <- Commit E;
  match commitErr with
  | Some err => fail (EWrap "commit reorg rollback" err)
  | None => ret tt
  end.

Definition reorg_purge_request (reorg : ReorgEvent) : PurgeRequest :=
  {| pr_Chain := re_Chain reorg; pr_Network := re_Network reorg;
     pr_FromBlock := re_ForkBlockNumber reorg; pr_DryRun := false; pr_Force := true;
     pr_Reason := "reorg: expected=" +:+ re_ExpectedHash reorg +:+ " actual=" +:+
                  re_ActualHash reorg |}.

Definition handleReorg (reorg : ReorgEvent) : M C unit :=
  if env_replayService E then
    do! _ <- wrap_err "reorg via replay service" (PurgeFromBlock E (reorg_purge_request reorg));
    ret tt
  else inline_reorg reorg.

(** *** Finality promotions *)

Definition promoteBalanceEvents (chain : Chain) (network : Network) (upToBlock : Z)
    : M C (list promotedEvent) :=
  do! _ <- wrap_err "update balance events finality" (exec E (fun d =>
    Ok (set_events (finalize_row chain network upToBlock <$> db_events d) (db_next_uuid d) d)));
  wrap_err "promote balance events" (call E (fun d =>
    Ok (set_events (promote_row chain network upToBlock <$> db_events d) (db_next_uuid d) d,
        env_shuffle E _ (scan_promoted <$>
          filter (fun r => promotable chain network upToBlock r = true) (db_events d))))).

Definition handleFinalityPromotion (promo : FinalityPromotion) : M C unit :=
  let chain := fp_Chain promo in
  let network := fp_Network promo in
  do! _ <- wrap_err "begin finality tx" (BeginTx E);
  do! _ <- (if env_blockRepo E
            then wrap_err "update indexed blocks finality" (exec E (fun d =>
                   Ok (IndexedBlockRepo.UpdateFinalityTx d chain network
                         (fp_NewFinalizedBlock promo) "finalized")))
            else ret tt);
  do! promotedEvents <- wrap_err "promote balance events"
                          (promoteBalanceEvents chain network (fp_NewFinalizedBlock promo));
  do! _ <- match promotedEvents with
           | [] => ret tt
           | _ =>
               do! adjustItems <- wrap_err "build promotion adjust items"
                                    (lift (buildPromotionAdjustItems promotedEvents));
               adjust E "bulk adjust balances for finality promotion" chain network adjustItems
           end;
  do! commitErr <- Commit E;
  match commitErr with
  | Some err => fail (EWrap "commit finality promotion" err)
  | None => ret tt
  end.

(** *** The loop

    [Run] receives from three channels; the list is the order of receipt.  The
    first error stops it. *)
Inductive ingester_input :=
| InBatch (batch : NormalizedBatch)
| InReorg (reorg : ReorgEvent)
| InPromotion (promo : FinalityPromotion).

Definition handle_input (i : ingester_input) : M C unit :=
  match i with
  | InBatch batch =>
      wrap_err ("ingester process batch failed: address=" +:+ nb_Address batch)
               (processBatchWithRetry batch)
  | InReorg reorg => wrap_err "ingester handle reorg failed" (handleReorg reorg)
  | InPromotion promo =>
      wrap_err "ingester handle finality promotion failed" (handleFinalityPromotion promo)
  end.

Definition Run (inputs : list ingester_input) : M C unit :=
  mfold (fun _ i => handle_input i) tt inputs.
End Ingester.
