(* ===== verification/IngesterProofs.v ===== *)
(** * Correctness of the ingester

    Three groups of theorems about [Ingester]: a batch that succeeds keeps the
    balances equal to the ledger of the stored events; a batch that fails leaves
    the committed tables untouched and is never applied twice by the retry loop;
    rollbacks and promotions move the balances by exactly the events they delete
    or apply. *)

From Stdlib Require Import ZArith String Lia.
From stdpp Require Import base option list strings gmap fin_maps sorting.
From S2P Require Import Prelude Retry Domain Identity Store Ledger Cache IngesterRules Effects Replay Ingester.

Open Scope Z_scope.

(** ** Loops that succeed *)

(** An invariant of a [for range] loop, over the part of the list already done. *)
Lemma mfold_inv {C A B} (I : list A -> B -> Prop) (f : B -> A -> M C B) l acc (w : world C) b w' :
  I [] acc ->
  (forall done x acc w b w', x ∈ l -> I done acc -> f acc x w = (Ok b, w') -> I (done ++ [x]) b) ->
  mfold f acc l w = (Ok b, w') -> I l b.
Proof.
  intros H0 Hstep. change l with ([] ++ l) at 2.
  assert (Hin : forall x, x ∈ l -> x ∈ l) by done. revert H0 Hin.
  generalize (@nil A). generalize l at 1 3 4. intros todo; revert acc w.
  induction todo as [|x todo IH]; intros acc w done_ H0 Hin; simpl.
  - intros [= <- <-]. by rewrite app_nil_r.
  - intros (b1 & w1 & H1 & H2)%bind_ok. rewrite cons_middle, app_assoc.
    eapply IH; [|intros; apply Hin; set_solver|exact H2]. eapply Hstep; [apply Hin; set_solver|done|done].
Qed.

(** A successful run leaves the tables the ledger is about alone. *)
Definition keeps {C A} (m : M C A) : Prop := forall w a w', m w = (Ok a, w') ->
  db_balances (w_tx w') = db_balances (w_tx w) /\ db_events (w_tx w') = db_events (w_tx w) /\
  db_watermarks (w_tx w') = db_watermarks (w_tx w) /\ w_db w' = w_db w.

Section Keeps.
Context {C : Type}.

Lemma keeps_ret {A} (a : A) : keeps (C:=C) (ret a).
Proof. by intros w b w' [= _ <-]. Qed.
Lemma keeps_fail {A} e : keeps (C:=C) (fail (A:=A) e).
Proof. by intros w b w' ?. Qed.
Lemma keeps_bind {A B} (m : M C A) (k : A -> M C B) :
  keeps m -> (forall a, keeps (k a)) -> keeps (bind m k).
Proof.
  intros Hm Hk w b w' (a & w1 & H1 & H2)%bind_ok. apply Hm in H1. apply Hk in H2.
  destruct H1 as (? & ? & ? & ?), H2 as (? & ? & ? & ?). split_and!; congruence.
Qed.
Lemma keeps_wrap {A} t (m : M C A) : keeps m -> keeps (wrap_err t m).
Proof. intros Hm w a w' H%wrap_ok. by eapply Hm. Qed.
Lemma keeps_mfold {A B} (f : B -> A -> M C B) acc l :
  (forall b a, keeps (f b a)) -> keeps (mfold f acc l).
Proof.
  intros Hf. revert acc; induction l as [|x l IH]; intros acc; simpl;
    [apply keeps_ret|by apply keeps_bind].
Qed.
Lemma keeps_query {A} E (f : db -> A) : keeps (C:=C) (query E f).
Proof. intros w a w' [_ ->]%query_ok. done. Qed.
Lemma keeps_call {A} E (f : db -> result sql_error (db * A)) :
  (forall d d' a, f d = Ok (d', a) -> db_balances d' = db_balances d /\
     db_events d' = db_events d /\ db_watermarks d' = db_watermarks d) ->
  keeps (C:=C) (call E f).
Proof. intros Hf w a w' (d & Hd & ->)%call_ok. apply Hf in Hd as (? & ? & ?). done. Qed.
Lemma keeps_lift {A} (r : result go_error A) : keeps (C:=C) (lift r).
Proof. destruct r; [apply keeps_ret|apply keeps_fail]. Qed.
End Keeps.
Create HintDb keeps discriminated.
#[export] Hint Resolve keeps_ret keeps_fail keeps_bind keeps_wrap keeps_mfold keeps_query keeps_lift : keeps.

(** ** Phase 3: deltas are the contributions of the events *)

(** The total of the accumulators of one balance key, over wallets. *)
Definition agg_sum (m : gmap adjustmentKey adjustmentAccum) (k : BalanceKey) : Z :=
  sum_of (fun e => when (bool_decide (e.1.1.1 = k)) (acc_delta e.2)) (map_to_list m).

Lemma agg_sum_insert_new m ak a k :
  m !! ak = None ->
  agg_sum (<[ak := a]> m) k = agg_sum m k + when (bool_decide (ak.1.1 = k)) (acc_delta a).
Proof. intros Hm. unfold agg_sum. rewrite map_to_list_insert by done. simpl. lia. Qed.

Lemma accumulate_sum m ak delta cursor h k :
  agg_sum (accumulate m ak delta cursor h) k = agg_sum m k + when (bool_decide (ak.1.1 = k)) delta.
Proof.
  unfold accumulate. destruct (m !! ak) as [ex|] eqn:Em; [|by rewrite agg_sum_insert_new].
  rewrite <- insert_delete_eq. rewrite agg_sum_insert_new by apply lookup_delete_eq.
  rewrite <- (insert_delete_id m ak ex) at 2 by done.
  rewrite agg_sum_insert_new by apply lookup_delete_eq.
  unfold when. destruct (acc_cursor ex <? cursor), (bool_decide (ak.1.1 = k)); simpl; lia.
Qed.

(** The balance keys of an event model, below its chain and network. *)
Lemma accumulate_event_sum m batch ec txID tokenID watched meta before after m' k :
  accumulate_event m ec tokenID meta = Ok m' ->
  agg_sum m' k = agg_sum m k +
    full_contribution (event_model batch ec txID tokenID watched meta before after)
                      (pk_of (nb_Chain batch) (nb_Network batch) k).
Proof.
  unfold accumulate_event, full_contribution, delta_of. simpl.
  destruct (parse_decimal (trim_space _)) as [delta|] eqn:Ed; [|done]. simpl.
  assert (Hk : forall ty, bool_decide ((nbe_Address (ec_be ec), tokenID, ty) = k) =
     bool_decide ((nb_Chain batch, nb_Network batch, nbe_Address (ec_be ec), tokenID, ty) =
                  pk_of (nb_Chain batch) (nb_Network batch) k)).
  { intros ty. apply bool_decide_ext. destruct k as [[??]?]. simpl. naive_solver. }
  unfold liquid_pk, staked_pk. simpl. rewrite <- !Hk.
  destruct (IsStakingActivity _); simpl.
  - unfold NegateDecimalString. destruct (parse_decimal (nbe_Delta (ec_be ec))) as [d|] eqn:Ed'; [|done].
    rewrite trim_show_Z, parse_show. intros [= <-]. rewrite !accumulate_sum. simpl.
    rewrite (parse_decimal_trim _ _ Ed'), Ed' in Ed. injection Ed as <-. symmetry. apply Z.add_assoc.
  - intros [= <-]. rewrite accumulate_sum. simpl. by rewrite Z.add_0_r.
Qed.

(** ** Phase 3: the loop invariant *)

Section Build.
Context {C : Type} `{!Cache C string bool} (E : env) (batch : NormalizedBatch).
Context (addrMap : option (gmap string addrMeta)) (p2 : phase2).

Definition below (k : BalanceKey) : balance_pk := pk_of (nb_Chain batch) (nb_Network batch) k.

Record build_inv (done : list eventContext) (p3 : phase3) : Prop := {
  bi_sum k : agg_sum (p3_aggregatedDeltas p3) k =
             sum_of (fun m => contribution m (below k)) (p3_eventModels p3);
  bi_ids : (be_EventID <$> p3_eventModels p3) `sublist_of`
           ((fun ec => nbe_EventID (ec_be ec)) <$> done);
  bi_chain m : m ∈ p3_eventModels p3 ->
               be_Chain m = nb_Chain batch /\ be_Network m = nb_Network batch
}.

Lemma ids_skip done (x : eventContext) (l : list string) :
  l `sublist_of` ((fun ec => nbe_EventID (ec_be ec)) <$> done) ->
  l `sublist_of` ((fun ec => nbe_EventID (ec_be ec)) <$> (done ++ [x])).
Proof. intros Hl. rewrite fmap_app. by apply sublist_inserts_r. Qed.

Lemma ids_keep done (x : eventContext) (l : list string) i :
  l `sublist_of` ((fun ec => nbe_EventID (ec_be ec)) <$> done) -> i = nbe_EventID (ec_be x) ->
  (l ++ [i]) `sublist_of` ((fun ec => nbe_EventID (ec_be ec)) <$> (done ++ [x])).
Proof. intros Hl ->. rewrite fmap_app. by apply sublist_app. Qed.

Lemma sum_of_snoc {A} (f : A -> Z) l x : sum_of f (l ++ [x]) = sum_of f l + f x.
Proof. rewrite sum_of_app. simpl. lia. Qed.

Lemma apply_event_inv done p3 ec txID tokenID accum (w : world C) p3' w' :
  build_inv done p3 ->
  apply_event E batch addrMap p3 ec txID tokenID accum w = (Ok p3', w') ->
  build_inv (done ++ [ec]) p3'.
Proof.
  intros [Hsum Hids Hch] H. unfold apply_event in H.
  destruct (addDecimalStrings _ _) as [after|]; [|done]. inv_do H.
  destruct a as [watched meta].
  set (m := event_model _ _ _ _ _ _ _ _) in H.
  assert (Hm : forall x, x ∈ p3_eventModels p3 ++ [m] ->
               be_Chain x = nb_Chain batch /\ be_Network x = nb_Network batch).
  { intros x [Hx| ->%list_elem_of_singleton]%elem_of_app; [by apply Hch|done]. }
  destruct (be_BalanceApplied m) eqn:Ea; inv_do H.
  - apply lift_ok in H1 as [Hacc ->]. split; [|cbn [p3_eventModels]; rewrite fmap_app; by apply ids_keep|done]. intros k. simpl.
    rewrite sum_of_snoc. unfold contribution at 2. rewrite Ea. simpl. rewrite <- Hsum.
    by apply (accumulate_event_sum _ batch _ txID _ watched _ (bacc_amount accum) after).
  - split; [|cbn [p3_eventModels]; rewrite fmap_app; by apply ids_keep|done]. intros k. simpl.
    rewrite sum_of_snoc. unfold contribution at 2. rewrite Ea. simpl. rewrite Hsum. lia.
Qed.

Lemma build_step_inv done p3 ec (w : world C) p3' w' :
  build_inv done p3 -> build_step E batch addrMap p2 p3 ec w = (Ok p3', w') ->
  build_inv (done ++ [ec]) p3'.
Proof.
  intros Hinv H. unfold build_step in H.
  assert (Hskip : build_inv (done ++ [ec]) p3).
  { destruct Hinv. split; auto using ids_skip. }
  destruct (_ !! _) as [tokenID|]; [|by injection H as <- <-].
  destruct (_ !! _) as [txID|]; [|by injection H as <- <-].
  destruct (default _ _); [by injection H as <- <-|].
  destruct (negb _); [|by eapply apply_event_inv].
  unfold deny_scam in H. inv_do H. destruct Hskip. by split.
Qed.

Lemma initial_build_inv : build_inv [] (initial_phase3 p2).
Proof. split; [done|done|set_solver]. Qed.

Lemma buildEventModels_inv p1 (w : world C) p3 w' :
  buildEventModels E batch addrMap p1 p2 w = (Ok p3, w') -> build_inv (p1_allEvents p1) p3.
Proof.
  unfold buildEventModels. apply (mfold_inv build_inv); [apply initial_build_inv|].
  intros. by eapply build_step_inv.
Qed.

(** With one wallet per address, a balance key has one accumulator. *)
Context (g : string -> addrMeta).

Definition keyed (m : gmap adjustmentKey adjustmentAccum) : Prop := forall ak,
  is_Some (m !! ak) ->
  ak = (ak.1.1, derefStr (am_walletID (g ak.1.1.1.1)), derefStr (am_orgID (g ak.1.1.1.1))).

Lemma keyed_accumulate m addr tok ty delta cursor h :
  keyed m ->
  keyed (accumulate m (addr, tok, ty, derefStr (am_walletID (g addr)), derefStr (am_orgID (g addr)))
           delta cursor h).
Proof.
  intros Hm ak. unfold accumulate. destruct (m !! _) eqn:E0; intros Hak;
    (destruct (decide (ak = (addr, tok, ty, derefStr (am_walletID (g addr)), derefStr (am_orgID (g addr)))))
      as [->|Hne]; [done|]; rewrite lookup_insert_ne in Hak by done; by apply Hm).
Qed.

Definition meta_fun (evs : list eventContext) : Prop :=
  forall ec, ec ∈ evs -> forall (w : world C) a w',
    resolve_watched E batch addrMap (ec_be ec) w = (Ok a, w') -> a.2 = g (nbe_Address (ec_be ec)).

Lemma build_step_keyed evs p3 ec (w : world C) p3' w' :
  meta_fun evs -> ec ∈ evs -> keyed (p3_aggregatedDeltas p3) ->
  build_step E batch addrMap p2 p3 ec w = (Ok p3', w') -> keyed (p3_aggregatedDeltas p3').
Proof.
  intros Hmeta Hec Hk H. unfold build_step in H.
  destruct (_ !! _) as [tokenID|]; [|by injection H as <- <-].
  destruct (_ !! _) as [txID|]; [|by injection H as <- <-].
  destruct (default _ _); [by injection H as <- <-|].
  destruct (negb _); [unfold deny_scam in H; by inv_do H|].
  unfold apply_event in H. destruct (addDecimalStrings _ _) as [after|]; [|done]. inv_do H.
  destruct a as [watched meta]. apply (Hmeta _ Hec) in H0. simpl in H0. subst meta.
  destruct (be_BalanceApplied _); inv_do H; [|done]. apply lift_ok in H0 as [Hacc ->]. simpl.
  unfold accumulate_event in Hacc. destruct (parse_decimal _); [|done].
  destruct (IsStakingActivity _); [|injection Hacc as <-; by apply keyed_accumulate].
  destruct (NegateDecimalString _); [|done]. destruct (parse_decimal _); [|done].
  injection Hacc as <-. by do 2 apply keyed_accumulate.
Qed.

Lemma buildEventModels_keyed p1 (w : world C) p3 w' :
  meta_fun (p1_allEvents p1) ->
  buildEventModels E batch addrMap p1 p2 w = (Ok p3, w') -> keyed (p3_aggregatedDeltas p3).
Proof.
  intros Hmeta. unfold buildEventModels.
  apply (mfold_inv (fun _ p3 => keyed (p3_aggregatedDeltas p3))); [by intros ak [??]|].
  intros. by eapply build_step_keyed.
Qed.
End Build.

(** ** Phases 2 and 3 only read what the ledger is about *)

Section Phases.
Context {C : Type} `{!Cache C string bool} (E : env).

Lemma keeps_denied_get key : keeps (denied_get E key).
Proof. intros w a w'. unfold denied_get. destruct (Get _ _ _). by intros [= _ <-]. Qed.
Lemma keeps_denied_put key v : keeps (denied_put E key v).
Proof. intros w a w'. unfold denied_put. by intros [= _ <-]. Qed.
Lemma in_tx_denied_get key : in_tx (denied_get E key).
Proof. intros w. unfold denied_get. by destruct (Get _ _ _). Qed.
Lemma in_tx_denied_put key v : in_tx (denied_put E key v).
Proof. by intros w. Qed.
#[local] Hint Resolve keeps_denied_get keeps_denied_put : keeps.
#[local] Hint Resolve in_tx_denied_get in_tx_denied_put : eff.

Lemma tx_upsert_keeps gen d ts d' m :
  TransactionRepo.BulkUpsertTx gen d ts = Ok (d', m) ->
  db_balances d' = db_balances d /\ db_events d' = db_events d /\ db_watermarks d' = db_watermarks d.
Proof.
  unfold TransactionRepo.BulkUpsertTx. destruct (bool_decide _); [|done]. intros [= H]. revert H.
  generalize (∅ : gmap string uuid). revert d. induction ts as [|t ts IH]; intros d acc; simpl.
  - by intros [= -> _].
  - unfold TransactionRepo.UpsertTx. destruct (_ !! _) as [[id t']|]; intros H; apply IH in H; done.
Qed.

Lemma token_upsert_keeps gen d ts d' m :
  TokenRepo.BulkUpsertTx gen d ts = Ok (d', m) ->
  db_balances d' = db_balances d /\ db_events d' = db_events d /\ db_watermarks d' = db_watermarks d.
Proof.
  unfold TokenRepo.BulkUpsertTx. destruct (bool_decide _); [|done]. intros [= H]. revert H.
  generalize (∅ : gmap string uuid). revert d. induction ts as [|t ts IH]; intros d acc; simpl.
  - by intros [= -> _].
  - unfold TokenRepo.UpsertTx. destruct (_ !! _) as [[[id t'] b]|]; intros H; apply IH in H; done.
Qed.

Lemma deny_keeps d chain network c r :
  let d' := TokenRepo.DenyTokenTx d chain network c r in
  db_balances d' = db_balances d /\ db_events d' = db_events d /\ db_watermarks d' = db_watermarks d.
Proof. unfold TokenRepo.DenyTokenTx. by destruct (_ !! _) as [[[? ?] ?]|]. Qed.

Lemma keeps_split_cached batch l : keeps (split_cached E batch l).
Proof.
  unfold split_cached. apply keeps_mfold. intros [cached uncached] c.
  apply keeps_bind; [auto with keeps|]. intros [v|]; auto with keeps.
Qed.
Lemma in_tx_split_cached batch l : in_tx (split_cached E batch l).
Proof.
  unfold split_cached. apply in_tx_mfold. intros [cached uncached] c.
  apply in_tx_bind; [auto with eff|]. intros [v|]; auto with eff.
Qed.
#[local] Hint Resolve keeps_split_cached : keeps.
#[local] Hint Resolve in_tx_split_cached : eff.

Lemma keeps_denied_check batch cs : keeps (denied_check E batch cs).
Proof.
  unfold denied_check. apply keeps_bind; [auto with keeps|]. intros [cached [|u us]]; [auto with keeps|].
  auto 10 with keeps.
Qed.
Lemma in_tx_denied_check batch cs : in_tx (denied_check E batch cs).
Proof.
  unfold denied_check, query. apply in_tx_bind; [auto with eff|].
  intros [cached [|u us]]; auto 10 with eff.
Qed.

Lemma keeps_prefetch_balances batch keys : keeps (prefetch_balances (C:=C) E batch keys).
Proof.
  unfold prefetch_balances, get_balances. destruct keys as [|k keys]; [auto with keeps|].
  destruct (_ <=? _)%nat; auto 10 with keeps.
Qed.
Lemma in_tx_prefetch_balances batch keys : in_tx (prefetch_balances (C:=C) E batch keys).
Proof.
  unfold prefetch_balances, get_balances, query. destruct keys as [|k keys]; [auto with eff|].
  destruct (_ <=? _)%nat; auto 10 with eff.
Qed.
#[local] Hint Resolve keeps_denied_check keeps_prefetch_balances : keeps.
#[local] Hint Resolve in_tx_denied_check in_tx_prefetch_balances : eff.

Lemma keeps_prefetch batch p1 : keeps (prefetchBulkData E batch p1).
Proof.
  unfold prefetchBulkData. apply keeps_bind.
  { apply keeps_wrap, keeps_call. intros d d' a. apply tx_upsert_keeps. }
  intros txs. apply keeps_bind.
  { apply keeps_wrap, keeps_call. intros d d' a. apply token_upsert_keeps. }
  auto with keeps.
Qed.
Lemma in_tx_prefetch batch p1 : in_tx (prefetchBulkData E batch p1).
Proof. unfold prefetchBulkData. auto 10 with eff. Qed.

Lemma resolve_candidate_frame batch m c :
  keeps (resolve_candidate (C:=C) E batch m c) /\ in_tx (resolve_candidate (C:=C) E batch m c).
Proof.
  split; intros w; unfold resolve_candidate.
  - intros a w'. destruct (str_empty c); [by intros [= _ <-]|].
    destruct (env_addressIndex E); [by intros [= _ <-]|]. by destruct m; intros [= _ <-].
  - destruct (str_empty c); [done|]. destruct (env_addressIndex E); [done|]. by destruct m.
Qed.

Lemma resolve_watched_frame batch m be :
  keeps (resolve_watched (C:=C) E batch m be) /\ in_tx (resolve_watched (C:=C) E batch m be).
Proof.
  pose proof (fun c => proj1 (resolve_candidate_frame batch m c)) as Hk.
  pose proof (fun c => proj2 (resolve_candidate_frame batch m c)) as Hi.
  unfold resolve_watched. destruct (negb _); [auto with keeps eff|]. split.
  - apply keeps_bind; [done|]. intros [meta|]; [auto with keeps|].
    apply keeps_bind; [done|]. intros [meta|]; auto with keeps.
  - apply in_tx_bind; [done|]. intros [meta|]; [auto with eff|].
    apply in_tx_bind; [done|]. intros [meta|]; auto with eff.
Qed.

Lemma keeps_build_step batch m p2 p3 ec : keeps (build_step E batch m p2 p3 ec).
Proof.
  unfold build_step. destruct (_ !! _) as [tokenID|]; [|auto with keeps].
  destruct (_ !! _) as [txID|]; [|auto with keeps]. destruct (default _ _); [auto with keeps|].
  destruct (negb _).
  - unfold deny_scam, exec. apply keeps_bind; [|auto with keeps].
    apply keeps_wrap, keeps_call. intros d d' a [= <- _]. apply deny_keeps.
  - unfold apply_event. destruct (addDecimalStrings _ _); [|auto with keeps].
    apply keeps_bind; [apply resolve_watched_frame|]. intros [wa meta].
    destruct (be_BalanceApplied _); auto with keeps.
Qed.
Lemma in_tx_build_step batch m p2 p3 ec : in_tx (build_step E batch m p2 p3 ec).
Proof.
  unfold build_step. destruct (_ !! _) as [tokenID|]; [|auto with eff].
  destruct (_ !! _) as [txID|]; [|auto with eff]. destruct (default _ _); [auto with eff|].
  destruct (negb _); [unfold deny_scam, exec; auto 10 with eff|].
  unfold apply_event. destruct (addDecimalStrings _ _); [|auto with eff].
  apply in_tx_bind; [apply resolve_watched_frame|]. intros [wa meta].
  destruct (be_BalanceApplied _); auto with eff.
Qed.

Lemma keeps_build batch m p1 p2 : keeps (buildEventModels E batch m p1 p2).
Proof. unfold buildEventModels. apply keeps_mfold. intros. apply keeps_build_step. Qed.
Lemma in_tx_build batch m p1 p2 : in_tx (buildEventModels E batch m p1 p2).
Proof. unfold buildEventModels. apply in_tx_mfold. intros. apply in_tx_build_step. Qed.

Lemma block_scan_addrs_frame batch :
  keeps (block_scan_addrs (C:=C) E batch) /\ in_tx (block_scan_addrs (C:=C) E batch).
Proof.
  assert (H : forall G c n, keeps (getBlockScanAddrMap (C:=C) E G c n) /\ in_tx (getBlockScanAddrMap (C:=C) E G c n)).
  { intros G c n. unfold getBlockScanAddrMap. split; intros w.
    - intros a w'. repeat case_match; (done || by intros [= _ <-]).
    - by repeat case_match. }
  unfold block_scan_addrs. destruct (nb_BlockScanMode batch), (env_addressIndex E), (env_watchedAddrRepo E) as [G|];
    try (split; [solve [auto with keeps]|solve [auto with eff]]). split.
  - apply keeps_bind; [apply keeps_wrap, H|]. auto with keeps.
  - apply in_tx_bind; [apply in_tx_wrap, H|]. auto with eff.
Qed.
End Phases.
#[export] Hint Resolve in_tx_prefetch in_tx_build : eff.

(** ** Phase 4: what is written agrees with the ledger *)

Lemma contribution_inserted now be v k :
  BalanceEventRepo.insert_values now be = Ok v -> contribution v k = contribution be k.
Proof.
  intros Hv. apply insert_values_keeps in Hv as (_ & Hc & Hn & Ha & Ht & Hty & Happ & _ & z & Hz & Hd).
  unfold contribution, full_contribution, liquid_pk, staked_pk, delta_of.
  by rewrite Hc, Hn, Ha, Ht, Hty, Happ, Hd, Hz, trim_show_Z, parse_show.
Qed.

Lemma ledger_inserted now evs news k :
  Forall2 (fun be r => BalanceEventRepo.insert_values now be = Ok (ev_cols r)) evs news ->
  ledger news k = sum_of (fun be => contribution be k) evs.
Proof.
  unfold ledger. induction 1 as [|be r evs news Hr _ IH]; [done|]. simpl.
  by rewrite IH, (contribution_inserted _ _ _ _ Hr).
Qed.

Lemma contribution_other_chain be chain network k :
  be_Chain be = chain -> be_Network be = network -> (forall bk, k <> pk_of chain network bk) ->
  contribution be k = 0.
Proof.
  intros <- <- Hk. unfold contribution, full_contribution, liquid_pk, staked_pk, when.
  rewrite (bool_decide_false (_ = k)), (bool_decide_false (_ = k)); [|intros <-..].
  - rewrite andb_false_r. by destruct (be_BalanceApplied be).
  - by apply (Hk (be_Address be, be_TokenID be, "staked")).
  - by apply (Hk (be_Address be, be_TokenID be, "")).
Qed.

Section Adjust.
Context (E : env) `{!EnvOk E} (batch : NormalizedBatch).
Implicit Types (m : gmap adjustmentKey adjustmentAccum).

Lemma adjust_item_key e : ba_key (adjust_item e) = e.1.1.1.
Proof. by destruct e as [[[[[??]?]?]?]?]. Qed.

Lemma adjust_items_NoDup g m : keyed g m -> NoDup (ba_key <$> adjust_items E m).
Proof.
  intros Hk. unfold adjust_items. rewrite env_shuffle_perm, <- list_fmap_compose.
  apply NoDup_fmap_2_strong; [|apply NoDup_map_to_list].
  intros [ak1 a1] [ak2 a2] H1%elem_of_map_to_list H2%elem_of_map_to_list.
  simpl. rewrite !adjust_item_key. simpl. intros Heq.
  pose proof (Hk ak1 (ex_intro _ a1 H1)) as Hk1. pose proof (Hk ak2 (ex_intro _ a2 H2)) as Hk2.
  destruct ak1 as [[bk1 w1] o1], ak2 as [[bk2 w2] o2]. simpl in *. simplify_eq. congruence.
Qed.

Lemma adjust_items_sum m bk :
  sum_of (item_effect (nb_Chain batch) (nb_Network batch) (below batch bk)) (adjust_items E m) =
  agg_sum m bk.
Proof.
  unfold adjust_items, agg_sum. rewrite env_shuffle_perm, sum_of_fmap. apply sum_of_ext.
  intros [ak a] _. simpl. unfold item_effect.
  rewrite (item_delta_show _ (acc_delta a)) by (by destruct ak as [[[[??]?]?]?]).
  f_equal. apply bool_decide_ext. unfold item_pk, below. rewrite adjust_item_key. simpl.
  split; [apply pk_of_inj|by intros ->].
Qed.

Lemma adjust_items_other m k :
  (forall bk, k <> below batch bk) ->
  sum_of (item_effect (nb_Chain batch) (nb_Network batch) k) (adjust_items E m) = 0.
Proof.
  intros Hk. apply sum_of_zero. intros i _. unfold item_effect.
  rewrite bool_decide_false; [done|]. intros <-. by eapply Hk.
Qed.

Lemma below_dec k : {bk | k = below batch bk} + {forall bk, k <> below batch bk}.
Proof.
  destruct k as [[[[c n] a] t] ty].
  destruct (decide (c = nb_Chain batch)) as [->|]; [|right; intros [[??]?]; unfold below; simpl; congruence].
  destruct (decide (n = nb_Network batch)) as [->|]; [|right; intros [[??]?]; unfold below; simpl; congruence].
  left. by exists (a, t, ty).
Qed.

Lemma written_ledger g seen p3 now d0 news b :
  ledger_ok d0 -> build_inv batch seen p3 -> keyed g (p3_aggregatedDeltas p3) ->
  Forall2 (fun be r => BalanceEventRepo.insert_values now be = Ok (ev_cols r)) (p3_eventModels p3) news ->
  BalanceRepo.BulkAdjustBalanceTx (env_pick E) (nb_Chain batch) (nb_Network batch)
    (db_balances d0) (adjust_items E (p3_aggregatedDeltas p3)) = Ok b ->
  forall k, amount b k = ledger (db_events d0 ++ news) k.
Proof.
  intros Hled Hinv Hkeyed Hnews Hb k.
  rewrite (bulk_adjust_amount _ _ _ _ _ _ k env_pick_in (adjust_items_NoDup _ _ Hkeyed) Hb), (Hled k).
  unfold ledger at 2. rewrite sum_of_app. fold (ledger (db_events d0) k) (ledger news k).
  rewrite (ledger_inserted _ _ _ k Hnews). f_equal.
  destruct (below_dec k) as [[bk ->]|Hk].
  - rewrite adjust_items_sum. apply (bi_sum _ _ _ Hinv).
  - rewrite adjust_items_other by done. symmetry. apply sum_of_zero. intros m Hm.
    apply (bi_chain _ _ _ Hinv) in Hm as [Hc Hn]. by eapply contribution_other_chain.
Qed.
End Adjust.

(** ** The whole batch *)

Section Batch.
Context {C : Type} `{!Cache C string bool} (E : env) `{!EnvOk E}.

Lemma in_tx_now : in_tx (C:=C) (now E).
Proof. by intros w. Qed.
#[local] Hint Resolve in_tx_now : eff.

Lemma in_tx_write_events evs : in_tx (C:=C) (write_events E evs).
Proof. unfold write_events. destruct evs; auto 10 with eff. Qed.

Lemma write_blocks_frame batch :
  keeps (write_blocks (C:=C) E batch) /\ in_tx (write_blocks (C:=C) E batch).
Proof.
  assert (Hfold : forall bs d, db_balances (foldl IndexedBlockRepo.UpsertTx d bs) = db_balances d /\
    db_events (foldl IndexedBlockRepo.UpsertTx d bs) = db_events d /\
    db_watermarks (foldl IndexedBlockRepo.UpsertTx d bs) = db_watermarks d).
  { induction bs as [|b bs IH]; intros d; [done|]. simpl. apply (IH (IndexedBlockRepo.UpsertTx d b)). }
  unfold write_blocks, exec. destruct (_ && _); [|split; [auto with keeps|auto with eff]].
  destruct (snd <$> _) as [|b bs]; [split; [auto with keeps|auto with eff]|].
  split; [|auto with eff]. apply keeps_wrap, keeps_call. intros d d' a (d1 & H & [= <- _])%rbind_ok.
  unfold IndexedBlockRepo.BulkUpsertTx in H. destruct (env_shuffle _ _ _); [by injection H as <-|].
  destruct (bool_decide _); [|done]. injection H as <-. apply (Hfold (_ :: _)).
Qed.

Lemma in_tx_reconcile batch err : in_tx (C:=C) (reconcileAmbiguousCommitOutcome E batch err).
Proof.
  unfold reconcileAmbiguousCommitOutcome. destruct (negb _); [auto with eff|].
  intros w. unfold reconcileBlockScanCommit.
  pose proof (in_tx_query_committed (C:=C) E (fun d => WatermarkRepo.GetWatermark d (nb_Chain batch) (nb_Network batch)) w) as H.
  destruct (query_committed _ _ _) as [[[v|]|e] w1]; [destruct (_ <=? _)|..]; exact H.
Qed.

Lemma in_tx_after_commit batch (n : Z) (o : option go_error) : in_tx (C:=C) (match o with
  | None => ret n
  | Some err => do! reconciled <- reconcileAmbiguousCommitOutcome E batch err;
                if reconciled then ret n else fail (EWrap "commit" err) end).
Proof.
  destruct o as [e|]; [|auto with eff]. apply in_tx_bind; [apply in_tx_reconcile|].
  intros []; auto with eff.
Qed.

(** The committed state is [dc]; in the open transaction the tables the ledger
    is about are those of [d0]. *)
Definition synced (dc d0 : db) (w : world C) : Prop :=
  w_db w = dc /\ db_balances (w_tx w) = db_balances d0 /\ db_events (w_tx w) = db_events d0 /\
  db_watermarks (w_tx w) = db_watermarks d0.

Lemma keeps_synced {A} (m : M C A) dc d0 w a w' :
  keeps m -> synced dc d0 w -> m w = (Ok a, w') -> synced dc d0 w'.
Proof.
  intros Hm (? & ? & ? & ?) (? & ? & ? & ?)%Hm. unfold synced. split_and!; congruence.
Qed.

Section Write.
Context (batch : NormalizedBatch) (dc d0 : db) (p3 : phase3).
Context (Hfresh : fresh_events (db_events d0) (p3_eventModels p3)).

(** After the events are written, and after the balances are. *)
Definition events_written (w : world C) : Prop :=
  w_db w = dc /\ db_balances (w_tx w) = db_balances d0 /\
  db_watermarks (w_tx w) = db_watermarks d0 /\
  exists t news, db_events (w_tx w) = db_events d0 ++ news /\
    Forall2 (fun be r => BalanceEventRepo.insert_values t be = Ok (ev_cols r)) (p3_eventModels p3) news.

Definition balances_written (w : world C) : Prop :=
  w_db w = dc /\
  BalanceRepo.BulkAdjustBalanceTx (env_pick E) (nb_Chain batch) (nb_Network batch)
    (db_balances d0) (adjust_items E (p3_aggregatedDeltas p3)) = Ok (db_balances (w_tx w)) /\
  db_watermarks (w_tx w) = db_watermarks d0 /\
  exists t news, db_events (w_tx w) = db_events d0 ++ news /\
    Forall2 (fun be r => BalanceEventRepo.insert_values t be = Ok (ev_cols r)) (p3_eventModels p3) news.

Lemma write_events_written w n w' :
  synced dc d0 w -> write_events E (p3_eventModels p3) w = (Ok n, w') -> events_written w'.
Proof.
  intros (Hdb & Hb & He & Hw) H. unfold write_events in H.
  destruct (p3_eventModels p3) as [|ev evs] eqn:Em; inv_do H.
  - split_and!; [done..|]. exists 0, []. by rewrite app_nil_r, Em.
  - unfold now in H0. injection H0 as <- <-. cbn [w_tx tick] in Hd.
    apply BulkUpsertTx_pass in Hd as (rows & k & ret & Hup & -> & _). cbn [w_tx tick] in Hup.
    rewrite He in Hup. apply upsert_rows_fresh in Hup as (news & -> & Hn); [|done].
    split_and!; [done..|]. rewrite Em. cbn. eauto.
Qed.

Lemma adjust_written w u w' :
  events_written w ->
  adjust E "bulk adjust balances" (nb_Chain batch) (nb_Network batch)
    (adjust_items E (p3_aggregatedDeltas p3)) w = (Ok u, w') -> balances_written w'.
Proof.
  intros (Hdb & Hb & Hw & t & news & He & Hn) (b & Hadj & Htx & Hdb')%adjust_ok.
  rewrite Hb in Hadj. unfold balances_written. rewrite Htx. cbn. split_and!; [congruence|done..|eauto].
Qed.

Lemma keeps_balances_written {A} (m : M C A) w a w' :
  keeps m -> balances_written w -> m w = (Ok a, w') -> balances_written w'.
Proof.
  intros Hm (? & ? & ? & t & news & ? & ?) (Hb & He & Hw & Hdb)%Hm.
  unfold balances_written. rewrite Hb, He, Hw, Hdb. split_and!; eauto.
Qed.

(** [P] holds of whatever the transaction would commit. *)
Lemma write_lands (P : db -> Prop) :
  (forall w, balances_written w ->
     P (WatermarkRepo.UpdateWatermarkTx (w_tx w) (nb_Chain batch) (nb_Network batch)
          (nb_NewCursorSequence batch))) ->
  lands (synced dc d0) (writeBulkAndCommit E batch p3) P.
Proof.
  intros HP. unfold writeBulkAndCommit, commit_batch, exec.
  apply (lands_bind _ (fun _ => events_written));
    [apply in_tx_write_events|intros; by eapply write_events_written|intros n].
  apply (lands_bind _ (fun _ => balances_written));
    [auto with eff|intros; by eapply adjust_written|intros _].
  apply (lands_bind _ (fun _ => balances_written));
    [apply write_blocks_frame|intros w a w' ? ?; eapply keeps_balances_written; [apply write_blocks_frame|done..]|intros _].
  apply (lands_bind _ (fun _ w => P (w_tx w))); [auto with eff| |].
  - intros w u w' Hw H. inv_do H. injection Hd as <- _. by apply HP.
  - intros _. apply lands_commit; [auto|]. intros o. apply in_tx_after_commit.
Qed.
End Write.

(** Wallets follow addresses: the batch is for one address, or every event's
    address is watched and its lookups agree. *)
Definition wallets_follow_addresses (batch : NormalizedBatch) : Prop :=
  nb_BlockScanMode batch = false \/
  exists Lookup g, env_addressIndex E = Some Lookup /\
    forall ec, ec ∈ p1_allEvents (collectEvents batch) ->
      str_empty (nbe_Address (ec_be ec)) = false /\
      forall n, Lookup n (nb_Chain batch) (nb_Network batch) (nbe_Address (ec_be ec)) =
                Some (g (nbe_Address (ec_be ec))).

Lemma wallets_meta_fun batch addrMap :
  wallets_follow_addresses batch ->
  exists g, meta_fun (C:=C) E batch addrMap g (p1_allEvents (collectEvents batch)).
Proof.
  intros Hwf. destruct (nb_BlockScanMode batch) eqn:Hbs.
  - destruct Hwf as [?|(Lookup & g & HL & Hw)]; [congruence|].
    exists g. intros ec Hec w a w'. destruct (Hw _ Hec) as [Hne HL'].
    unfold resolve_watched. rewrite Hbs. simpl. intros (o & w1 & H1 & H2)%bind_ok.
    unfold resolve_candidate in H1. rewrite Hne, HL in H1. injection H1 as <- <-.
    rewrite HL' in H2. by injection H2 as <- _.
  - exists (fun _ => {| am_walletID := nb_WalletID batch; am_orgID := nb_OrgID batch |}).
    intros ec _ w a w'. unfold resolve_watched. rewrite Hbs. simpl. by intros [= <- _].
Qed.

(** The identifiers of the batch's events are new and pairwise distinct. *)
Definition fresh_batch (d : db) (batch : NormalizedBatch) : Prop :=
  let ids := (fun ec => nbe_EventID (ec_be ec)) <$> p1_allEvents (collectEvents batch) in
  NoDup (filter (fun i => negb (str_empty i) = true) ids) /\
  forall i, i ∈ ids -> str_empty i = false ->
    i ∉ (fun r => be_EventID (ev_cols r)) <$> db_events d.

Lemma filter_sublist_mono {A} (P : A -> Prop) `{!forall x, Decision (P x)} (l1 l2 : list A) :
  l1 `sublist_of` l2 -> filter P l1 `sublist_of` filter P l2.
Proof.
  induction 1 as [|x l1 l2 _ IH|x l1 l2 _ IH]; [done|..]; rewrite ?filter_cons; case_decide;
    first [done|by constructor].
Qed.

Lemma fresh_models d batch p3 :
  fresh_batch d batch -> build_inv batch (p1_allEvents (collectEvents batch)) p3 ->
  fresh_events (db_events d) (p3_eventModels p3).
Proof.
  intros [Hnd Hnew] Hinv. pose proof (bi_ids _ _ _ Hinv) as Hsub. split.
  - eapply sublist_NoDup; [exact Hnd|]. by apply filter_sublist_mono.
  - intros be Hbe Hne. apply Hnew; [|done]. eapply elem_of_submseteq; [|by apply sublist_submseteq].
    by apply list_elem_of_fmap_2.
Qed.

Lemma run_phases_lands batch dc d0 :
  ledger_ok d0 -> fresh_batch d0 batch -> wallets_follow_addresses batch ->
  lands (synced dc d0) (run_phases E batch) (fun d' => ledger_ok d').
Proof.
  intros Hled Hfresh Hwallet. unfold run_phases.
  apply (lands_bind _ (fun _ => synced dc d0)); [apply block_scan_addrs_frame| |intros addrMap].
  { intros w a w' Hw H. eapply keeps_synced; [apply block_scan_addrs_frame|done..]. }
  apply (lands_bind _ (fun _ => synced dc d0)); [auto with eff| |intros p2].
  { intros w a w' Hw H. eapply keeps_synced; [apply keeps_prefetch|done..]. }
  destruct (wallets_meta_fun batch addrMap Hwallet) as [g Hg].
  apply (lands_bind _ (fun p3 w => synced dc d0 w /\ keyed g (p3_aggregatedDeltas p3) /\
           build_inv batch (p1_allEvents (collectEvents batch)) p3)); [auto with eff| |intros p3].
  { intros w a w' Hw H. split_and!.
    - eapply keeps_synced; [apply keeps_build|done..].
    - by eapply buildEventModels_keyed.
    - by eapply buildEventModels_inv. }
  apply lands_seq_ret. intros w (Hw & Hkeyed & Hinv). revert w Hw. apply write_lands.
  - by eapply fresh_models.
  - intros w (_ & Hb & _ & t & news & He & Hn) k. simpl. rewrite He.
    by eapply written_ledger.
Qed.

Lemma begin_synced (w : world C) u w' :
  BeginTx E w = (Ok u, w') -> synced (w_db w) (w_db w) w'.
Proof. intros H. inv_do H. done. Qed.
End Batch.

(** ** Rollback items undo, promotion items apply *)

(** The items that undo one stored event, in the order they are built. *)
Definition undo_items (r : event_row) : list BulkAdjustItem :=
  if applied r then undo_liquid r :: (if staking r then [undo_staked r] else []) else [].

Lemma rfoldl_appending {E A B} (f : A -> list B) (step : list B -> A -> result E (list B)) l acc :
  (forall acc x, x ∈ l -> step acc x = Ok (acc ++ f x)) ->
  rfoldl step acc l = Ok (acc ++ (l ≫= f)).
Proof.
  revert acc; induction l as [|x l IH]; intros acc Hs; simpl; [by rewrite app_nil_r|].
  rewrite Hs by set_solver. simpl. rewrite IH, app_assoc; [done|]. intros. apply Hs. set_solver.
Qed.

Lemma rfoldl_fmap {E A A' B} (h : A -> A') (step : B -> A' -> result E B) l acc :
  rfoldl step acc (h <$> l) = rfoldl (fun b x => step b (h x)) acc l.
Proof. revert acc; induction l as [|x l IH]; intros acc; [done|]. csimpl. destruct (step _ _); simpl; auto. Qed.

Lemma buildReversal_spec rows :
  Forall row_canonical rows ->
  buildReversalAdjustItems (scan_rollback <$> rows) = Ok (rows ≫= undo_items).
Proof.
  intros Hc. unfold buildReversalAdjustItems. rewrite rfoldl_fmap.
  apply (rfoldl_appending undo_items). intros acc r Hr. rewrite Forall_forall in Hc. simpl.
  unfold undo_items. fold (applied r) (staking r). destruct (applied r); simpl; [|by rewrite app_nil_r].
  rewrite row_canonical_delta, Negate_show by auto. simpl. destruct (staking r); [|done].
  unfold undo_staked, staked_item. simpl. by rewrite <- row_canonical_delta by auto.
Qed.

Lemma undo_items_perm rows :
  rows ≫= undo_items ≡ₚ
  (undo_liquid <$> filter (fun r => applied r = true) rows) ++
  (undo_staked <$> filter (fun r => applied r && staking r = true) rows).
Proof.
  induction rows as [|r rows IH]; [done|]. simpl. rewrite !filter_cons, IH. unfold undo_items.
  destruct (applied r); simpl; [|done]. destruct (staking r); simpl; [|done].
  constructor. by rewrite Permutation_middle.
Qed.

Lemma typed_disjoint (l1 l2 : list event_row) (f1 f2 : event_row -> BulkAdjustItem) :
  NoDup (ba_key <$> (f1 <$> l1)) -> NoDup (ba_key <$> (f2 <$> l2)) ->
  (forall r, ba_BalanceType (f1 r) = "") -> (forall r, ba_BalanceType (f2 r) = "staked") ->
  NoDup (ba_key <$> ((f1 <$> l1) ++ (f2 <$> l2))).
Proof.
  intros H1 H2 Ht1 Ht2. rewrite fmap_app. apply NoDup_app. split_and!; [done| |done].
  intros k (x & -> & (r1 & -> & _)%list_elem_of_fmap)%list_elem_of_fmap
           (y & Heq & (r2 & -> & _)%list_elem_of_fmap)%list_elem_of_fmap.
  unfold ba_key in Heq. pose proof (Ht1 r1). pose proof (Ht2 r2). congruence.
Qed.

Lemma undo_items_NoDup rows :
  NoDup (event_key <$> filter (fun r => applied r = true) rows) ->
  NoDup (ba_key <$> (rows ≫= undo_items)).
Proof.
  intros Hnd. rewrite undo_items_perm. by apply typed_disjoint; [apply keys_liquid|apply keys_staked|..].
Qed.

Lemma undo_items_effect chain network rows k :
  Forall (fun r => row_of chain network r = true) rows -> Forall row_canonical rows ->
  sum_of (item_effect chain network k) (rows ≫= undo_items) = - ledger rows k.
Proof. intros. by rewrite undo_items_perm, sum_of_app, undo_effect. Qed.

Lemma Forall_filter_of {A} (P : A -> Prop) (p : A -> bool) (l : list A) :
  Forall P l -> Forall P (filter (fun x => p x = true) l).
Proof. rewrite !Forall_forall. intros H x [_ Hx]%list_elem_of_filter. auto. Qed.

(** Adjusting by the undo items of the rows [p] selects, and deleting those rows,
    keeps the balances equal to the ledger. *)
Lemma undo_ledger pick chain network (p : event_row -> bool) rows d b :
  (forall i l, pick i l ∈ i :: l) ->
  (forall r, p r = true -> row_of chain network r = true) ->
  rows ≡ₚ filter (fun r => p r = true) (db_events d) ->
  Forall row_canonical (db_events d) -> ledger_ok d ->
  NoDup (event_key <$> filter (fun r => applied r = true) rows) ->
  BalanceRepo.BulkAdjustBalanceTx pick chain network (db_balances d) (rows ≫= undo_items) = Ok b ->
  forall k, amount b k = ledger (filter (fun r => p r = false) (db_events d)) k.
Proof.
  intros Hpick Hp Hrows Hc Hled Hnd Hb k.
  rewrite (bulk_adjust_amount _ _ _ _ _ _ k Hpick (undo_items_NoDup _ Hnd) Hb), undo_items_effect.
  - rewrite (Hled k), (ledger_perm _ _ k Hrows). unfold ledger.
    rewrite (sum_of_filter p _ (db_events d)). lia.
  - rewrite Hrows. apply Forall_forall. intros r [Hr _]%list_elem_of_filter. auto.
  - rewrite Hrows. by apply Forall_filter_of.
Qed.

Section Rollback.
Context {C : Type} `{!Cache C string bool} (E : env) `{!EnvOk E}.

(** The rows a batch rolls back before it is ingested. *)
Definition drift_rows (batch : NormalizedBatch) : event_row -> bool :=
  let b := withRollbackForkCursor batch in
  if nb_BlockScanMode b then row_from (nb_Chain b) (nb_Network b) (rollbackForkCursorSequence b)
  else row_from_watched (nb_Chain b) (nb_Network b) (nb_Address b) (rollbackForkCursorSequence b).

Definition rolls_back (batch : NormalizedBatch) : bool :=
  isCanonicalityDrift batch && negb (isBTCRestartAnchorReplay batch).

Lemma drift_rows_chain batch r :
  drift_rows batch r = true -> row_of (nb_Chain batch) (nb_Network batch) r = true.
Proof.
  unfold drift_rows, row_from_watched, row_from. simpl.
  destruct (nb_BlockScanMode batch); rewrite !andb_true_iff; naive_solver.
Qed.

Lemma rows_newest_first_perm p d :
  rows_newest_first p d ≡ₚ filter (fun r => p r = true) (db_events d).
Proof. apply merge_sort_Permutation. Qed.

Lemma in_tx_drift batch : in_tx (C:=C) (rollbackCanonicalityDrift E batch).
Proof.
  unfold rollbackCanonicalityDrift, exec, fetchReorgRollbackEvents, fetchRollbackEvents, query.
  apply in_tx_bind; [destruct (nb_BlockScanMode batch); auto with eff|auto 10 with eff].
Qed.

Lemma drift_ok batch (w : world C) u w' :
  let p := drift_rows batch in let d := w_tx w in
  Forall row_canonical (db_events d) ->
  rollbackCanonicalityDrift E (withRollbackForkCursor batch) w = (Ok u, w') ->
  exists b, BalanceRepo.BulkAdjustBalanceTx (env_pick E) (nb_Chain batch) (nb_Network batch)
              (db_balances d) (rows_newest_first p d ≫= undo_items) = Ok b /\
    db_balances (w_tx w') = b /\ db_events (w_tx w') = filter (fun r => p r = false) (db_events d) /\
    w_db w' = w_db w.
Proof.
  intros p d Hc H. unfold rollbackCanonicalityDrift in H. inv_do H.
  assert (a = scan_rollback <$> rows_newest_first p d /\ w_tx w0 = d /\ w_db w0 = w_db w) as (-> & Htx & Hdb).
  { unfold p, drift_rows. unfold fetchReorgRollbackEvents, fetchRollbackEvents in H0.
    destruct (nb_BlockScanMode _); inv_do H0; done. }
  apply lift_ok in H1 as [Hitems ->]. rewrite buildReversal_spec in Hitems
    by (rewrite rows_newest_first_perm; by apply Forall_filter_of).
  injection Hitems as <-. apply adjust_ok in H2 as (b & Hb & Htx2 & Hdb2). rewrite Htx in *.
  exists b. injection Hd as <-. injection Hd0 as <-. cbn. rewrite Htx2. cbn. split_and!; try done; try congruence.
Qed.

Definition remaining (batch : NormalizedBatch) (d : db) : db :=
  if rolls_back batch then delete_events (drift_rows batch) d else d.

(** At most one applied event per (address, token) is rolled back. *)
Definition rollback_keys_distinct (batch : NormalizedBatch) (d : db) : Prop :=
  rolls_back batch = true ->
  NoDup (event_key <$> filter (fun r => applied r = true)
           (filter (fun r => drift_rows batch r = true) (db_events d))).

Lemma filter_perm {A} (P : A -> Prop) `{!forall x, Decision (P x)} (l1 l2 : list A) :
  l1 ≡ₚ l2 -> filter P l1 ≡ₚ filter P l2.
Proof. by intros ->. Qed.

Lemma process_in_tx_lands batch d0 :
  ledger_ok d0 -> Forall row_canonical (db_events d0) -> rollback_keys_distinct batch d0 ->
  fresh_batch (remaining batch d0) batch -> wallets_follow_addresses E batch ->
  lands (C:=C) (fun w => w_db w = d0) (process_in_tx E batch) ledger_ok.
Proof.
  intros Hled Hc Hkeys Hfresh Hwallet. unfold process_in_tx.
  apply (lands_bind _ (fun _ w => synced d0 d0 w /\ w_tx w = d0)); [auto with eff| |intros _].
  { intros w u w' <- H. inv_do H. done. }
  fold (rolls_back batch). unfold remaining in Hfresh.
  destruct (rolls_back batch) eqn:Erb.
  2:{ intros w [Hw _]. revert w Hw. by apply run_phases_lands. }
  apply (lands_bind _ (fun _ w => ledger_ok (w_tx w) /\ w_db w = d0 /\
           db_events (w_tx w) = filter (fun r => drift_rows batch r = false) (db_events d0)));
    [apply in_tx_wrap, in_tx_drift| |intros _].
  { intros w u w' [[Hdb _] Htx] H%wrap_ok. apply drift_ok in H as (b & Hb & Hbal & Hev & Hdb'); [|by rewrite Htx].
    rewrite Htx in *. split_and!; [|congruence|done]. intros k. rewrite Hbal, Hev.
    eapply undo_ledger; [apply env_pick_in|apply drift_rows_chain|apply rows_newest_first_perm|done..| |exact Hb].
    rewrite (filter_perm _ _ _ (rows_newest_first_perm _ _)). by apply Hkeys. }
  destruct (shouldContinueCompetingBranchReplay batch).
  - intros w (Hl & Hdb & Hev). refine (run_phases_lands E batch d0 (w_tx w) Hl _ Hwallet w _); [|by split].
    destruct Hfresh as [Hnd Hnew]. split; [done|]. by rewrite Hev.
  - apply lands_commit; [naive_solver|]. intros [e|]; auto with eff.
Qed.
End Rollback.

(** C1: The ledger invariant of the pipeline: whatever fails while a batch is
    processed, and also when it is a reorganisation that first rolls the chain
    back, the committed balances stay the sum of the committed balance events.
    It needs that the batch's event identifiers are new and distinct, that one
    address has one wallet, and that the rollback hits each (address, token)
    once; the theorems below show what goes wrong otherwise. *)
Theorem processBatch_keeps_ledger {C} `{!Cache C string bool} (E : env) `{!EnvOk E}
    (batch : NormalizedBatch) (w : world C)
    (Hledger : ledger_ok (w_db w))
    (Hcanon : Forall row_canonical (db_events (w_db w)))
    (Hkeys : rollback_keys_distinct (canonical_cursors batch) (w_db w))
    (Hfresh : fresh_batch (remaining (canonical_cursors batch) (w_db w)) (canonical_cursors batch))
    (Hwallet : wallets_follow_addresses E (canonical_cursors batch)) :
  ledger_ok (w_db (processBatch E batch w).2).
Proof.
  pose proof (process_in_tx_lands (C:=C) E (canonical_cursors batch) (w_db w) Hledger Hcanon Hkeys Hfresh Hwallet) as H.
  unfold processBatch. destruct (env_interleaver E).
  - destruct (env_fault E (w_tick w)); [done|]. specialize (H (tick w) eq_refl).
    destruct (process_in_tx E _ (tick w)) as [r w']. simpl in *. by destruct H as [->|?].
  - by destruct (H w eq_refl) as [->|?].
Qed.

(** ** Failed batches *)

(** The text an error gains from its wrapper can only bring terminal tokens. *)
Lemma to_lower_app s1 s2 : to_lower (s1 +:+ s2) = to_lower s1 +:+ to_lower s2.
Proof.
  induction s1 as [|c s1 IH]; [done|]. change (String c s1 +:+ s2) with (String c (s1 +:+ s2)).
  cbn [to_lower]. by rewrite IH.
Qed.

Lemma contains_app_r s1 s2 tok : contains s2 tok = true -> contains (s1 +:+ s2) tok = true.
Proof.
  induction s1 as [|c s1 IH]; [done|]. intros H.
  change (String c s1 +:+ s2) with (String c (s1 +:+ s2)). cbn [contains]. by rewrite IH, orb_true_r.
Qed.

Lemma contains_any_app_r s1 s2 toks :
  contains_any s2 toks = true -> contains_any (s1 +:+ s2) toks = true.
Proof.
  unfold contains_any. rewrite !existsb_exists. intros (t & Ht & Hc). exists t.
  split; [done|by apply contains_app_r].
Qed.

Lemma commit_prefix_no_token s tok :
  In tok transientMessageTokens -> contains ("commit: " +:+ s) tok = true -> contains s tok = true.
Proof.
  intros Htok. repeat (destruct Htok as [<-|Htok]; [intros H; exact H|]). destruct Htok.
Qed.

Lemma classify_commit_wrap err :
  IsTransient (Classify (Some err)) = false -> IsTransient (Classify (Some (EWrap "commit" err))) = false.
Proof.
  unfold Classify, classify_rpc_or_text. rewrite !errors_as_wrap by done.
  replace (is_canceled (EWrap "commit" err)) with (is_canceled err) by done.
  replace (is_deadline (EWrap "commit" err)) with (is_deadline err) by done.
  destruct (errors_as as_classified err) as [[c r]|]; [done|].
  destruct (is_canceled err); [done|]. destruct (is_deadline err); [done|].
  destruct (errors_as as_grpc err); [done|].
  destruct (errors_as as_net err) as [[]|]; [done|..].
  all: destruct (errors_as as_solana err); [done|]; destruct (errors_as as_base err); [done|].
  all: unfold classify_text, containsAny; cbn [error_text]; rewrite !to_lower_app.
  all: change (to_lower "commit" +:+ to_lower ": " +:+ to_lower (error_text err))
         with ("commit: " +:+ to_lower (error_text err)).
  all: destruct (contains_any (to_lower (error_text err)) terminalMessageTokens) eqn:Et;
    [by rewrite (contains_any_app_r _ _ _ Et)|].
  all: destruct (contains_any (to_lower (error_text err)) transientMessageTokens) eqn:Em; [done|].
  all: intros _; destruct (contains_any (_ +:+ _) terminalMessageTokens); [done|].
  all: destruct (contains_any (_ +:+ _) transientMessageTokens) eqn:Ew; [|done].
  all: unfold contains_any in *; apply existsb_exists in Ew as (t & Ht & Hc);
    apply commit_prefix_no_token in Hc; [|done];
    rewrite <- not_true_iff_false, existsb_exists in Em; destruct Em; eauto.
Qed.

Section Failures.
Context {C : Type} `{!Cache C string bool} (E : env).

(** Errors the retry loop does not repeat. *)
Definition not_retried (e : go_error) : Prop := IsTransient (Classify (Some e)) = false.

Lemma reconcile_terminal batch err (w : world C) e w' :
  reconcileAmbiguousCommitOutcome E batch err w = (Err e, w') -> not_retried e.
Proof.
  unfold reconcileAmbiguousCommitOutcome. destruct (negb _); [done|]. unfold reconcileBlockScanCommit.
  destruct (query_committed _ _ _) as [[[v|]|e1] w1]; [destruct (_ <=? _); [done|]|..]; by intros [= <- _].
Qed.

Lemma ambiguous_or_terminal err :
  isAmbiguousCommitAckError (Some err) = false -> not_retried (EWrap "commit" err).
Proof.
  unfold isAmbiguousCommitAckError. intros [H _]%orb_false_iff. by apply classify_commit_wrap.
Qed.

Lemma reconcile_false batch err (w : world C) w' :
  reconcileAmbiguousCommitOutcome E batch err w = (Ok false, w') ->
  isAmbiguousCommitAckError (Some err) = false.
Proof.
  unfold reconcileAmbiguousCommitOutcome. destruct (isAmbiguousCommitAckError _); [|done]. simpl.
  unfold reconcileBlockScanCommit.
  destruct (query_committed _ _ _) as [[[v|]|e1] w1]; [destruct (_ <=? _)|..]; done.
Qed.

Lemma commit_batch_safe batch n : safe_err not_retried (commit_batch (C:=C) E batch n).
Proof.
  unfold commit_batch. apply safe_err_commit; [eauto| |intros err; apply (in_tx_after_commit E batch n (Some err))].
  intros err w1 e w' H _. unfold bind in H.
  destruct (reconcileAmbiguousCommitOutcome E batch err w1) as [[[]|e1] w2] eqn:Er; [done|..].
  - injection H as <- _. apply reconcile_false in Er. by apply ambiguous_or_terminal.
  - injection H as <- _. by eapply reconcile_terminal.
Qed.

Lemma write_safe batch p3 : safe_err not_retried (writeBulkAndCommit (C:=C) E batch p3).
Proof.
  unfold writeBulkAndCommit, exec. apply safe_err_bind; [apply in_tx_write_events|intros n].
  apply safe_err_bind; [auto with eff|intros _].
  apply safe_err_bind; [apply write_blocks_frame|intros _].
  apply safe_err_bind; [auto with eff|intros _]. apply commit_batch_safe.
Qed.

Lemma run_phases_safe batch : safe_err not_retried (run_phases E batch).
Proof.
  unfold run_phases. apply safe_err_bind; [apply block_scan_addrs_frame|intros addrMap].
  do 2 (apply safe_err_bind; [auto with eff|intros ?]). apply safe_err_ret, write_safe.
Qed.

(** A batch that only rolls back; its commit is not reconciled. *)
Definition pure_rollback (batch : NormalizedBatch) : bool :=
  rolls_back batch && negb (shouldContinueCompetingBranchReplay batch).

Lemma process_in_tx_safe batch :
  pure_rollback batch = false -> safe_err not_retried (process_in_tx E batch).
Proof.
  intros Hp. unfold process_in_tx. apply safe_err_bind; [auto with eff|intros _].
  fold (rolls_back batch). unfold pure_rollback in Hp.
  destruct (rolls_back batch); [|apply run_phases_safe].
  apply safe_err_bind; [apply in_tx_wrap, in_tx_drift|intros _].
  destruct (shouldContinueCompetingBranchReplay batch); [apply run_phases_safe|done].
Qed.

Lemma processBatch_safe batch :
  pure_rollback (canonical_cursors batch) = false -> safe_err not_retried (processBatch E batch).
Proof.
  intros Hp%process_in_tx_safe w e w'. unfold processBatch. destruct (env_interleaver E); [|apply Hp].
  destruct (env_fault E (w_tick w)); [intros [= _ <-]; by left|].
  specialize (Hp (tick w)). destruct (process_in_tx E _ (tick w)) as [r w1].
  intros [= -> <-]. exact (Hp e w1 eq_refl).
Qed.

Lemma sleep_db delay (w : world C) : w_db (sleep E delay w).2 = w_db w.
Proof. unfold sleep. destruct (_ <=? _); [done|]. by destruct (env_ctx_err _ _). Qed.

Lemma retry_loop_once n attempt maxA batch (w : world C) :
  pure_rollback (canonical_cursors batch) = false ->
  match retry_loop E n attempt maxA batch w with
  | (Ok _, w') => exists w1, w_db w1 = w_db w /\ processBatch E batch w1 = (Ok tt, w')
  | (Err _, w') =>
      w_db w' = w_db w \/
      exists w1 e w2, w_db w1 = w_db w /\ processBatch E batch w1 = (Err e, w2) /\ w_db w' = w_db w2
  end.
Proof.
  intros Hp. revert attempt w; induction n as [|n IH]; intros attempt w; cbn [retry_loop]; [by left|].
  destruct (processBatch E batch w) as [[[]|e] w1] eqn:Hb; [by exists w|].
  destruct (env_ctx_err E (w_tick w1)); [right; by exists w, e, w1|].
  destruct (IsTransient (Classify (Some e))) eqn:Et; simpl; [|right; by exists w, e, w1].
  assert (Hdb : w_db w1 = w_db w).
  { destruct (processBatch_safe batch Hp _ _ _ Hb) as [?|Ht]; [done|]. unfold not_retried in Ht. congruence. }
  destruct n as [|n]; [left; exact Hdb|].
  destruct (retryDelay _ _ _ _) as [delay|]; [|left; exact Hdb].
  pose proof (sleep_db delay (tick w1)) as Hs. destruct (sleep E delay (tick w1)) as [[[]|e2] w2]; simpl in Hs.
  - specialize (IH (attempt + 1) w2). rewrite Hs, Hdb in IH. exact IH.
  - left. simpl. congruence.
Qed.
End Failures.

(** C3: A batch is applied at most once however often it is retried: the retry
    loop's effect on the committed tables is nothing, or that of exactly one
    attempt started on the original tables; success means the last attempt
    succeeded on them.  In particular an attempt whose commit may have been
    applied is never repeated.  This holds of batches that store something;
    a batch that only rolls back ([pure_rollback]) commits without the
    reconciliation of an ambiguous outcome and may be repeated. *)
Theorem retry_applies_at_most_once {C} `{!Cache C string bool} (E : env)
    (batch : NormalizedBatch) (w : world C)
    (Hpure : pure_rollback (canonical_cursors batch) = false) :
  match processBatchWithRetry E batch w with
  | (Ok _, w') => exists w1, w_db w1 = w_db w /\ processBatch E batch w1 = (Ok tt, w')
  | (Err _, w') =>
      w_db w' = w_db w \/
      exists w1 e w2, w_db w1 = w_db w /\ processBatch E batch w1 = (Err e, w2) /\ w_db w' = w_db w2
  end.
Proof. by apply retry_loop_once. Qed.

(** ** Releases *)

Section Releases.
Context {C : Type} `{!Cache C string bool} (E : env).

Definition quiet {A} (m : M C A) : Prop := forall w, w_released (m w).2 = w_released w.

Lemma quiet_in_tx {A} (m : M C A) : in_tx m -> quiet m.
Proof. intros Hm w. apply Hm. Qed.
Lemma quiet_bind {A B} (m : M C A) (k : A -> M C B) :
  quiet m -> (forall a, quiet (k a)) -> quiet (bind m k).
Proof.
  intros Hm Hk w. unfold bind. specialize (Hm w). destruct (m w) as [[a|e] w1]; simpl in *; [|done].
  by rewrite Hk.
Qed.
Lemma quiet_commit : quiet (Commit E).
Proof. intros w. unfold Commit. by destruct (env_commit _ _). Qed.

Lemma quiet_run_phases batch : quiet (run_phases E batch).
Proof.
  unfold run_phases, writeBulkAndCommit, commit_batch, exec.
  apply quiet_bind; [apply quiet_in_tx, block_scan_addrs_frame|intros addrMap].
  do 2 (apply quiet_bind; [apply quiet_in_tx; auto with eff|intros ?]).
  apply quiet_bind; [|intros _; apply quiet_in_tx; auto with eff].
  apply quiet_bind; [apply quiet_in_tx, in_tx_write_events|intros n].
  apply quiet_bind; [apply quiet_in_tx; auto with eff|intros _].
  apply quiet_bind; [apply quiet_in_tx, write_blocks_frame|intros _].
  apply quiet_bind; [apply quiet_in_tx; auto with eff|intros _].
  apply quiet_bind; [apply quiet_commit|intros o; apply quiet_in_tx, in_tx_after_commit].
Qed.

Lemma quiet_process_in_tx batch : quiet (process_in_tx E batch).
Proof.
  unfold process_in_tx. apply quiet_bind; [apply quiet_in_tx; auto with eff|intros _].
  destruct (_ && _); [|apply quiet_run_phases].
  apply quiet_bind; [apply quiet_in_tx, in_tx_wrap, in_tx_drift|intros _].
  destruct (shouldContinueCompetingBranchReplay batch); [apply quiet_run_phases|].
  apply quiet_bind; [apply quiet_commit|intros [e|]; apply quiet_in_tx; auto with eff].
Qed.

Lemma process_in_tx_atomic batch : safe_err (unacked E) (process_in_tx E batch).
Proof.
  assert (Hcommit : forall A (k : option go_error -> M C A), (forall w, exists a w', k None w = (Ok a, w')) ->
    (forall err, in_tx (k (Some err))) -> safe_err (unacked E) (bind (Commit E) k)).
  { intros A k Hok Hin. apply safe_err_commit; [done| |done]. intros err w1 e w' _ [n Hn]. by exists n, err. }
  assert (Hphases : safe_err (unacked E) (run_phases E batch)).
  { unfold run_phases, writeBulkAndCommit, commit_batch, exec.
    apply safe_err_bind; [apply block_scan_addrs_frame|intros addrMap].
    do 2 (apply safe_err_bind; [auto with eff|intros ?]). apply safe_err_ret.
    apply safe_err_bind; [apply in_tx_write_events|intros n].
    apply safe_err_bind; [auto with eff|intros _].
    apply safe_err_bind; [apply write_blocks_frame|intros _].
    apply safe_err_bind; [auto with eff|intros _].
    apply Hcommit; [eauto|intros err; apply (in_tx_after_commit E batch n (Some err))]. }
  unfold process_in_tx. apply safe_err_bind; [auto with eff|intros _].
  destruct (_ && _); [|done]. apply safe_err_bind; [apply in_tx_wrap, in_tx_drift|intros _].
  destruct (shouldContinueCompetingBranchReplay batch); [done|]. apply Hcommit; [eauto|auto with eff].
Qed.
End Releases.

(** C7: A batch is all or nothing and frees its commit slot exactly once: an
    error means that no table changed (unless a commit was applied and its
    acknowledgement lost), and a batch that got the interleaver's slot releases
    it once, reporting progress exactly when it succeeded and its checkpoint
    moves. *)
Theorem processBatch_atomic_release {C} `{!Cache C string bool} (E : env)
    (batch : NormalizedBatch) (w : world C) :
  let '(r, w') := processBatch E batch w in
  (is_ok r = true \/ w_db w' = w_db w \/ exists n e, env_commit E n = CommitUnacked e) /\
  w_released w' = w_released w ++
    (if env_interleaver E && match env_fault E (w_tick w) with None => true | Some _ => false end
     then [is_ok r && shouldAdvanceCommitCheckpoint (canonical_cursors batch)] else []).
Proof.
  pose proof (process_in_tx_atomic E (canonical_cursors batch)) as Ha.
  pose proof (quiet_process_in_tx E (canonical_cursors batch)) as Hq.
  unfold processBatch. destruct (env_interleaver E); simpl.
  - destruct (env_fault E (w_tick w)); [rewrite app_nil_r; auto|].
    specialize (Ha (tick w)). specialize (Hq (tick w)).
    destruct (process_in_tx E _ (tick w)) as [[u|e] w1]; simpl in *; rewrite Hq; (split; [|done]); [by left|].
    right. by apply (Ha e w1).
  - specialize (Ha w). specialize (Hq w).
    destruct (process_in_tx E _ w) as [[u|e] w1]; simpl in *; rewrite app_nil_r; (split; [|done]); [by left|].
    right. by apply (Ha e w1).
Qed.

(** ** The watermark *)

Section Watermark.
Context {C : Type} `{!Cache C string bool} (E : env) (batch : NormalizedBatch).

Definition wm_key : Chain * Network := (nb_Chain batch, nb_Network batch).

(** The watermarks a committed batch leaves. *)
Definition wm_after (d0 d : db) : Prop :=
  db_watermarks d =
  <[wm_key := match db_watermarks d0 !! wm_key with
              | Some old => Z.max old (nb_NewCursorSequence batch)
              | None => nb_NewCursorSequence batch
              end]> (db_watermarks d0).

Definition wm_same (d0 : db) (w : world C) : Prop :=
  w_db w = d0 /\ db_watermarks (w_tx w) = db_watermarks d0.

Lemma keeps_wm {A} (m : M C A) d0 w a w' :
  keeps m -> wm_same d0 w -> m w = (Ok a, w') -> wm_same d0 w'.
Proof. intros Hm [? ?] (_ & _ & ? & ?)%Hm. split; congruence. Qed.

Lemma write_events_wm evs d0 (w : world C) n w' :
  wm_same d0 w -> write_events E evs w = (Ok n, w') -> wm_same d0 w'.
Proof.
  intros [Hdb Hw] H. unfold write_events in H. destruct evs; inv_do H; [done|].
  unfold now in H0. injection H0 as <- <-.
  apply BulkUpsertTx_pass in Hd as (rows & k & ret & _ & -> & _). done.
Qed.

Lemma adjust_wm t items d0 (w : world C) u w' :
  wm_same d0 w -> adjust E t (nb_Chain batch) (nb_Network batch) items w = (Ok u, w') -> wm_same d0 w'.
Proof. intros [Hdb Hw] (b & _ & Htx & Hdb')%adjust_ok. split; [congruence|]. by rewrite Htx. Qed.

(** Just before the commit, and after it. *)
Lemma write_wm_lands p3 d0 : lands (wm_same d0) (writeBulkAndCommit E batch p3) (wm_after d0).
Proof.
  unfold writeBulkAndCommit, commit_batch, exec.
  apply (lands_bind _ (fun _ => wm_same d0)); [apply in_tx_write_events|intros; by eapply write_events_wm|intros n].
  apply (lands_bind _ (fun _ => wm_same d0)); [auto with eff|intros; by eapply adjust_wm|intros _].
  apply (lands_bind _ (fun _ => wm_same d0));
    [apply write_blocks_frame|intros w a w' ? ?; eapply keeps_wm; [apply write_blocks_frame|done..]|intros _].
  apply (lands_bind _ (fun _ w => wm_after d0 (w_tx w))); [auto with eff| |].
  - intros w u w' [Hdb Hw] H. inv_do H. injection Hd as <- _. unfold wm_after. simpl. by rewrite Hw.
  - intros _. apply lands_commit; [auto|]. intros o. apply in_tx_after_commit.
Qed.

Lemma write_wm_ok p3 d0 (w : world C) n w' :
  wm_same d0 w -> writeBulkAndCommit E batch p3 w = (Ok n, w') ->
  exists v, db_watermarks (w_db w') !! wm_key = Some v /\ nb_NewCursorSequence batch <= v.
Proof.
  intros Hw H. unfold writeBulkAndCommit, commit_batch in H. inv_do H. injection Hd as <-.
  match goal with Hc : Commit _ _ = (Ok ?o, _) |- _ => rename Hc into Hcommit; destruct o as [err|] end; cycle 1.
  - inv_do H. apply Commit_ok in Hcommit as ->. simpl. rewrite lookup_insert_eq.
    destruct (_ !! _); eexists; (split; [done|lia]).
  - apply bind_ok in H as (reconciled & w9 & Hr & H). destruct reconciled; [|done]. inv_do H.
    unfold reconcileAmbiguousCommitOutcome in Hr. destruct (negb _); [done|].
    unfold reconcileBlockScanCommit, query_committed in Hr. destruct (env_fault _ _); [done|].
    unfold WatermarkRepo.GetWatermark in Hr. fold wm_key in Hr.
    destruct (db_watermarks _ !! wm_key) as [v|] eqn:Ev; [|done].
    destruct (_ <=? _) eqn:Ele; [|done]. injection Hr as <-. exists v. split; [done|lia].
Qed.

Lemma process_in_tx_wm d0 :
  rolls_back batch = false ->
  lands (C:=C) (fun w => w_db w = d0) (process_in_tx E batch) (wm_after d0).
Proof.
  intros Hr. unfold process_in_tx, run_phases. fold (rolls_back batch). rewrite Hr.
  apply (lands_bind _ (fun _ => wm_same d0)); [auto with eff| |intros _].
  { intros w u w' <- H. inv_do H. done. }
  apply (lands_bind _ (fun _ => wm_same d0)); [apply block_scan_addrs_frame| |intros addrMap].
  { intros w a w' Hw H. eapply keeps_wm; [apply block_scan_addrs_frame|done..]. }
  apply (lands_bind _ (fun _ => wm_same d0)); [auto with eff| |intros p2].
  { intros w a w' Hw H. eapply keeps_wm; [apply keeps_prefetch|done..]. }
  apply (lands_bind _ (fun _ => wm_same d0)); [auto with eff| |intros p3].
  { intros w a w' Hw H. eapply keeps_wm; [apply keeps_build|done..]. }
  apply lands_seq_ret, write_wm_lands.
Qed.

Lemma process_in_tx_wm_ok (w : world C) u w' :
  rolls_back batch = false -> process_in_tx E batch w = (Ok u, w') ->
  exists v, db_watermarks (w_db w') !! wm_key = Some v /\ nb_NewCursorSequence batch <= v.
Proof.
  intros Hr H. unfold process_in_tx, run_phases in H. fold (rolls_back batch) in H. rewrite Hr in H.
  inv_do H. assert (H9 : wm_same (w_db w) (set_tx (w_db w) (tick w))) by done.
  eapply keeps_wm in H9; [|apply block_scan_addrs_frame|done].
  eapply keeps_wm in H9; [|apply keeps_prefetch|done].
  eapply keeps_wm in H9; [|apply keeps_build|done].
  by eapply write_wm_ok.
Qed.

(** What the watermark theorem says of an outcome. *)
Definition wm_outcome (d0 d' : db) (ok : bool) : Prop :=
  (forall k, k <> wm_key -> db_watermarks d' !! k = db_watermarks d0 !! k) /\
  (forall v, db_watermarks d0 !! wm_key = Some v ->
     exists v', db_watermarks d' !! wm_key = Some v' /\ v <= v') /\
  (ok = true -> exists v', db_watermarks d' !! wm_key = Some v' /\ nb_NewCursorSequence batch <= v').

Lemma process_in_tx_wm_outcome (w : world C) :
  rolls_back batch = false ->
  wm_outcome (w_db w) (w_db (process_in_tx E batch w).2) (is_ok (process_in_tx E batch w).1).
Proof.
  intros Hr. pose proof (process_in_tx_wm (w_db w) Hr w eq_refl) as Hl.
  pose proof (fun u w' => process_in_tx_wm_ok w u w' Hr) as Hok.
  destruct (process_in_tx E batch w) as [r w']. simpl in *. split_and!.
  - intros k Hk. destruct Hl as [->|Hw]; [done|]. rewrite Hw. by apply lookup_insert_ne.
  - intros v Hv. destruct Hl as [->|Hw]; [exists v; split; [done|lia]|].
    rewrite Hw, lookup_insert_eq, Hv. eexists. split; [done|lia].
  - destruct r as [u|]; [|done]. intros _. by eapply Hok.
Qed.
End Watermark.

(** C8: The watermark of an ordinary batch: no outcome lowers it or touches
    another chain's, and success means it covers the batch's cursor. *)
Theorem processBatch_watermark {C} `{!Cache C string bool} (E : env) (batch : NormalizedBatch)
    (w : world C) (Hroll : rolls_back (canonical_cursors batch) = false) :
  let '(r, w') := processBatch E batch w in
  let key := (nb_Chain batch, nb_Network batch) in
  (forall k, k <> key -> db_watermarks (w_db w') !! k = db_watermarks (w_db w) !! k) /\
  (forall v, db_watermarks (w_db w) !! key = Some v ->
     exists v', db_watermarks (w_db w') !! key = Some v' /\ v <= v') /\
  (is_ok r = true ->
     exists v', db_watermarks (w_db w') !! key = Some v' /\ nb_NewCursorSequence batch <= v').
Proof.
  pose proof (fun w => process_in_tx_wm_outcome (C:=C) E (canonical_cursors batch) w Hroll) as H.
  unfold processBatch. destruct (env_interleaver E).
  - destruct (env_fault E (w_tick w)).
    { split_and!; [done| |done]. intros v Hv. exists v. split; [done|lia]. }
    specialize (H (tick w)). by destruct (process_in_tx E _ (tick w)) as [r w'].
  - specialize (H w). by destruct (process_in_tx E _ w) as [r w'].
Qed.

(** ** Reorg events *)

Section Reorg.
Context {C : Type} `{!Cache C string bool} (E : env) `{!EnvOk E} (reorg : ReorgEvent) (d0 : db).
Let chain := re_Chain reorg.
Let network := re_Network reorg.
Let fork := re_ForkBlockNumber reorg.
Context (Hcanon : Forall row_canonical (db_events d0)) (Hledger : ledger_ok d0).
Context (Hkeys : NoDup (event_key <$> filter (fun r => applied r = true)
  (filter (fun r => row_from chain network fork r = true) (db_events d0)))).

Lemma inline_reorg_lands : lands (C:=C) (fun w => w_db w = d0) (inline_reorg E reorg) ledger_ok.
Proof.
  unfold inline_reorg, exec, fetchReorgRollbackEvents. fold chain network fork.
  set (rows := rows_newest_first (row_from chain network fork) d0).
  apply (lands_bind _ (fun _ w => w_tx w = d0)); [auto with eff| |intros _].
  { intros w u w' <- H. by inv_do H. }
  apply (lands_bind _ (fun evs w => w_tx w = d0 /\ evs = scan_rollback <$> rows));
    [unfold query; auto with eff| |intros evs].
  { intros w evs w' Htx H. inv_do H. simpl. by rewrite Htx. }
  apply (lands_bind _ (fun items w => w_tx w = d0 /\ items = rows ≫= undo_items)); [auto with eff| |intros items].
  { intros w items w' [Htx ->] [Hi ->]%wrap_ok%lift_ok. rewrite buildReversal_spec in Hi; [split; [done|congruence]|].
    unfold rows. rewrite rows_newest_first_perm. by apply Forall_filter_of. }
  apply (lands_bind _ (fun _ w => db_events (w_tx w) = db_events d0 /\ forall k, amount (db_balances (w_tx w)) k =
    ledger (filter (fun r => row_from chain network fork r = false) (db_events d0)) k)); [auto with eff| |intros _].
  { intros w u w' [Htx ->] (b & Hb & Htx' & _)%adjust_ok. rewrite Htx', Htx. split; [done|]. cbn. intros k.
    rewrite Htx in Hb. eapply undo_ledger; [apply env_pick_in| |apply rows_newest_first_perm|done..| |exact Hb].
    - intros r [? _]%andb_true_iff. done.
    - unfold rows. by rewrite (filter_perm _ _ _ (rows_newest_first_perm _ _)). }
  apply (lands_bind _ (fun _ w => ledger_ok (w_tx w))); [auto with eff| |intros _].
  { intros w n w' [He Hk] H. inv_do H. injection Hd as <- _. intros k. simpl. by rewrite He. }
  apply (lands_bind _ (fun _ w => ledger_ok (w_tx w))); [auto with eff| |intros _].
  { intros w n w' Hw H. inv_do H. injection Hd as <- _. exact Hw. }
  apply (lands_bind _ (fun _ w => ledger_ok (w_tx w))); [destruct (env_blockRepo E); auto with eff| |intros _].
  { intros w n w' Hw H. destruct (env_blockRepo E); inv_do H; [injection Hd as <- _|]; exact Hw. }
  apply (lands_bind _ (fun _ w => ledger_ok (w_tx w))); [auto with eff| |intros _].
  { intros w n w' Hw H. inv_do H. injection Hd as <- _. exact Hw. }
  apply lands_commit; [auto|]. intros [e|]; auto with eff.
Qed.
End Reorg.

(** C4: A reorg keeps the ledger, on both of its paths (the replay service and
    the inline fallback) and whatever fails: the committed balances stay the sum
    of the committed events when each (address, token) has at most one applied
    event from the fork block on. *)
Theorem handleReorg_keeps_ledger {C} (E : env) `{!EnvOk E} (reorg : ReorgEvent) (w : world C)
    (Hids : ids_ok (w_db w))
    (Hcanon : Forall row_canonical (db_events (w_db w)))
    (Hledger : ledger_ok (w_db w))
    (Hkeys : NoDup (event_key <$> filter (fun r => applied r = true)
      (filter (fun r => row_from (re_Chain reorg) (re_Network reorg) (re_ForkBlockNumber reorg) r = true)
              (db_events (w_db w))))) :
  ledger_ok (w_db (handleReorg E reorg w).2).
Proof.
  unfold handleReorg. destruct (env_replayService E).
  - assert (H : lands (fun w' => w_db w' = w_db w) (PurgeFromBlock (C:=C) E (reorg_purge_request reorg)) ledger_ok).
    { apply PurgeFromBlock_lands, executePurge_lands; [done..|]. simpl.
      by rewrite (filter_perm _ _ _ (rollback_rows_perm _ _ _ _)). }
    apply (lands_wrap "reorg via replay service") in H.
    by destruct (lands_seq_ret _ _ (fun _ => tt) _ H w eq_refl) as [->|?].
  - by destruct (inline_reorg_lands E reorg (w_db w) Hcanon Hledger Hkeys w eq_refl) as [->|?].
Qed.

(** ** Finality promotions *)

Section Promotion.
Context {C : Type} (E : env) `{!EnvOk E}.

Definition do_items (r : event_row) : list BulkAdjustItem :=
  promotion_item (scan_promoted r) (be_Delta (ev_cols r)) "" ::
  (if staking r then [promotion_item (scan_promoted r) (show_Z (- delta_of (ev_cols r))) "staked"] else []).

Lemma buildPromotion_spec rows :
  Forall row_canonical rows ->
  buildPromotionAdjustItems (scan_promoted <$> rows) = Ok (rows ≫= do_items).
Proof.
  intros Hc. unfold buildPromotionAdjustItems. rewrite rfoldl_fmap.
  apply (rfoldl_appending do_items). intros acc r Hr. rewrite Forall_forall in Hc. simpl.
  fold (staking r). unfold do_items. destruct (staking r); [|done].
  rewrite (row_canonical_delta r), Negate_show by auto. simpl. by rewrite <- app_assoc.
Qed.

Lemma do_items_effect chain network rows k :
  Forall (fun r => row_of chain network r = true) rows -> Forall row_canonical rows ->
  sum_of (item_effect chain network k) (rows ≫= do_items) =
  sum_of (fun r => full_contribution (ev_cols r) k) rows.
Proof.
  intros Hrow Hc. induction rows as [|r rows IH]; [done|].
  change ((r :: rows) ≫= do_items) with (do_items r ++ (rows ≫= do_items)).
  change (sum_of ?f (r :: rows)) with (f r + sum_of f rows).
  apply Forall_cons in Hrow as [Hr Hrow]. apply Forall_cons in Hc as [Hcr Hc].
  rewrite sum_of_app, <- IH by done. f_equal.
  unfold row_of in Hr. apply andb_true_iff in Hr as [<-%String.eqb_eq <-%String.eqb_eq].
  unfold do_items, full_contribution. fold (staking r). unfold sum_of, item_effect. cbn [foldr].
  rewrite (item_delta_show (promotion_item (scan_promoted r) (be_Delta (ev_cols r)) "") _
             (row_canonical_delta r Hcr)).
  destruct (staking r); cbn [foldr andb].
  - rewrite (item_delta_show _ (- delta_of (ev_cols r))) by done. rewrite Z.add_0_r. done.
  - done.
Qed.

Lemma do_items_NoDup rows : NoDup (event_key <$> rows) -> NoDup (ba_key <$> (rows ≫= do_items)).
Proof.
  intros Hnd. assert (Hperm : rows ≫= do_items ≡ₚ
    ((fun r => promotion_item (scan_promoted r) (be_Delta (ev_cols r)) "") <$> rows) ++
    ((fun r => promotion_item (scan_promoted r) (show_Z (- delta_of (ev_cols r))) "staked") <$>
       filter (fun r => staking r = true) rows)).
  { clear Hnd. induction rows as [|r rows IH]; [done|].
    change ((r :: rows) ≫= do_items) with (do_items r ++ (rows ≫= do_items)).
    rewrite filter_cons, IH. unfold do_items.
    destruct (staking r); simpl; [|done]. constructor. by rewrite Permutation_middle. }
  rewrite Hperm. apply typed_disjoint; [..|done|done]; rewrite <- list_fmap_compose.
  - by apply (typed_keys_NoDup event_key "").
  - apply (typed_keys_NoDup event_key "staked"). eapply sublist_NoDup; [exact Hnd|].
    apply fmap_sublist, sublist_filter.
Qed.

Lemma finalize_contribution chain network n r k :
  contribution (ev_cols (finalize_row chain network n r)) k = contribution (ev_cols r) k.
Proof. unfold finalize_row. by destruct (_ && _). Qed.

Lemma finalize_canonical chain network n rows :
  Forall row_canonical rows -> Forall row_canonical (finalize_row chain network n <$> rows).
Proof.
  intros Hc. apply Forall_fmap. eapply Forall_impl; [exact Hc|]. intros r [z Hz]. exists z.
  unfold finalize_row. by destruct (_ && _).
Qed.

Lemma promote_contribution chain network n r k :
  contribution (ev_cols (promote_row chain network n r)) k =
  contribution (ev_cols r) k + when (promotable chain network n r) (full_contribution (ev_cols r) k).
Proof.
  unfold promote_row. destruct (promotable chain network n r) eqn:Ep; simpl; [|lia].
  unfold promotable in Ep. apply andb_true_iff in Ep as [[_ Ha%negb_true_iff]%andb_true_iff _].
  unfold contribution at 2. rewrite Ha. simpl. unfold contribution, full_contribution. simpl. done.
Qed.

(** The ledger gains exactly the promoted events. *)
Lemma promote_ledger chain network n rows k :
  let rows1 := finalize_row chain network n <$> rows in
  ledger (promote_row chain network n <$> rows1) k =
  ledger rows k +
  sum_of (fun r => full_contribution (ev_cols r) k)
         (filter (fun r => promotable chain network n r = true) rows1).
Proof.
  intros rows1. unfold ledger. rewrite sum_of_fmap, sum_of_fmap_filter.
  rewrite (sum_of_ext _ (fun r => contribution (ev_cols r) k +
    when (promotable chain network n r) (full_contribution (ev_cols r) k)))
    by (intros; apply promote_contribution).
  rewrite sum_of_add. f_equal. unfold rows1. rewrite sum_of_fmap. apply sum_of_ext.
  intros. apply finalize_contribution.
Qed.

(** The rows a promotion applies: finalized now, not applied before. *)
Definition promoted_rows (promo : FinalityPromotion) (d : db) : list event_row :=
  let chain := fp_Chain promo in
  let network := fp_Network promo in
  filter (fun r => promotable chain network (fp_NewFinalizedBlock promo) r = true)
         (finalize_row chain network (fp_NewFinalizedBlock promo) <$> db_events d).

Section Handle.
Context (promo : FinalityPromotion) (d0 : db).
Let chain := fp_Chain promo.
Let network := fp_Network promo.
Let block := fp_NewFinalizedBlock promo.
Context (Hcanon : Forall row_canonical (db_events d0)) (Hledger : ledger_ok d0).
Context (Hkeys : NoDup (event_key <$> promoted_rows promo d0)).

Lemma promoted_rows_facts (rows : list event_row) :
  rows ≡ₚ promoted_rows promo d0 ->
  NoDup (ba_key <$> (rows ≫= do_items)) /\ Forall row_canonical rows /\
  Forall (fun r => row_of chain network r = true) rows.
Proof.
  intros Hperm. split_and!.
  - apply do_items_NoDup. by rewrite Hperm.
  - rewrite Hperm. by apply Forall_filter_of, finalize_canonical.
  - rewrite Hperm. apply Forall_forall. intros r [Hr _]%list_elem_of_filter.
    unfold promotable, row_upto in Hr. rewrite !andb_true_iff in Hr. naive_solver.
Qed.

(** Before the deltas are applied: [rows] are to be applied. *)
Definition to_apply (evs : list promotedEvent) (w : world C) : Prop :=
  exists rows, evs = scan_promoted <$> rows /\ rows ≡ₚ promoted_rows promo d0 /\
    db_balances (w_tx w) = db_balances d0 /\
    forall k, ledger (db_events (w_tx w)) k =
      ledger (db_events d0) k + sum_of (fun r => full_contribution (ev_cols r) k) rows.

Lemma promote_to_apply w evs w' :
  db_balances (w_tx w) = db_balances d0 -> db_events (w_tx w) = db_events d0 ->
  promoteBalanceEvents (C:=C) E chain network block w = (Ok evs, w') -> to_apply evs w'.
Proof.
  intros Hb He H. unfold promoteBalanceEvents in H. inv_do H. injection Hd as <-. injection Hd0 as <- <-.
  set (rows1 := finalize_row chain network block <$> db_events (w_tx w)).
  assert (Hp : env_shuffle E _ (scan_promoted <$> filter (fun r => promotable chain network block r = true) rows1) ≡ₚ
               scan_promoted <$> promoted_rows promo d0).
  { rewrite env_shuffle_perm. unfold rows1. by rewrite He. }
  apply Permutation_map_inv in Hp as (rows & Heq & Hperm).
  exists rows. split_and!; [done|by symmetry|done|]. intros k.
  change (ledger (promote_row chain network block <$>
    (finalize_row chain network block <$> db_events (w_tx w))) k = ledger (db_events d0) k +
    sum_of (fun r => full_contribution (ev_cols r) k) rows).
  rewrite promote_ledger, He. f_equal. unfold promoted_rows in Hperm. by rewrite <- Hperm.
Qed.

Lemma apply_promoted evs w u w' :
  to_apply evs w ->
  match evs with
  | [] => ret tt
  | _ => do! adjustItems <- wrap_err "build promotion adjust items" (lift (buildPromotionAdjustItems evs));
         adjust E "bulk adjust balances for finality promotion" chain network adjustItems
  end w = (Ok u, w') -> ledger_ok (w_tx w').
Proof.
  intros (rows & -> & Hperm & Hb & Hl) H.
  destruct (promoted_rows_facts rows Hperm) as (Hnd & Hc & Hch).
  assert (Hadj : exists b, BalanceRepo.BulkAdjustBalanceTx (env_pick E) chain network
      (db_balances d0) (rows ≫= do_items) = Ok b /\ w_tx w' = set_balances b (w_tx w)).
  { destruct rows as [|r rows].
    - injection H as _ <-. exists (db_balances d0). by rewrite <- Hb, set_balances_id.
    - cbn [fmap list_fmap] in H. inv_do H. apply lift_ok in H0 as [Hi ->].
      rewrite <- fmap_cons, buildPromotion_spec in Hi by done. injection Hi as <-.
      apply adjust_ok in H as (b & Hadj & Htx & _). rewrite Hb in Hadj. eauto. }
  destruct Hadj as (b & Hadj & ->). intros k.
  change (amount b k = ledger (db_events (w_tx w)) k).
  by rewrite (bulk_adjust_amount _ _ _ _ _ _ k env_pick_in Hnd Hadj), Hl, (Hledger k), do_items_effect.
Qed.

Lemma promotion_lands : lands (C:=C) (fun w => w_db w = d0) (handleFinalityPromotion E promo) ledger_ok.
Proof.
  unfold handleFinalityPromotion. fold chain network block.
  apply (lands_bind _ (fun _ w => w_tx w = d0)); [auto with eff| |intros _].
  { intros w u w' <- H. by inv_do H. }
  apply (lands_bind _ (fun _ w => db_balances (w_tx w) = db_balances d0 /\ db_events (w_tx w) = db_events d0));
    [unfold exec; destruct (env_blockRepo E); auto with eff| |intros _].
  { intros w u w' Htx H. destruct (env_blockRepo E); inv_do H; [injection Hd as <-|]; simpl; by rewrite Htx. }
  apply (lands_bind _ to_apply);
    [unfold promoteBalanceEvents, exec; auto 10 with eff| |intros evs].
  { intros w evs w' [Hb He] H%wrap_ok. by eapply promote_to_apply. }
  apply (lands_bind _ (fun _ w => ledger_ok (w_tx w))); [destruct evs; auto with eff| |intros _].
  { intros w u w' Hw H. by eapply apply_promoted. }
  apply lands_commit; [auto|]. intros [e|]; auto with eff.
Qed.
End Handle.
End Promotion.

(** C6: A finality promotion keeps the ledger: the events it marks as applied
    and the balance deltas it adds agree, whatever fails, when each (address,
    token) has at most one newly applied event. *)
Theorem handleFinalityPromotion_keeps_ledger {C} (E : env) `{!EnvOk E} (promo : FinalityPromotion)
    (w : world C)
    (Hcanon : Forall row_canonical (db_events (w_db w)))
    (Hledger : ledger_ok (w_db w))
    (Hkeys : NoDup (event_key <$> promoted_rows promo (w_db w))) :
  ledger_ok (w_db (handleFinalityPromotion E promo w).2).
Proof. by destruct (promotion_lands E promo (w_db w) Hcanon Hledger Hkeys w eq_refl) as [->|?]. Qed.

(** ** Sample batches *)

Definition sample_nbe (contract address delta eventID finality : string) : NormalizedBalanceEvent :=
  {| nbe_OuterInstructionIndex := 0; nbe_InnerInstructionIndex := 0;
     nbe_ActivityType := ActivityDeposit; nbe_EventAction := "transfer"; nbe_ProgramID := "";
     nbe_ContractAddress := contract; nbe_Address := address; nbe_CounterpartyAddress := "";
     nbe_Delta := delta; nbe_ChainData := None; nbe_TokenSymbol := "T"; nbe_TokenName := "T";
     nbe_TokenDecimals := 6; nbe_TokenType := TokenTypeFungible; nbe_EventID := eventID;
     nbe_BlockHash := "h"; nbe_TxIndex := 0; nbe_EventPath := ""; nbe_EventPathType := "";
     nbe_ActorAddress := ""; nbe_AssetType := ""; nbe_AssetID := "";
     nbe_FinalityState := finality; nbe_DecoderVersion := ""; nbe_SchemaVersion := "" |}.

Definition sample_ntx (hash : string) (block : Z) (evs : list NormalizedBalanceEvent)
    : NormalizedTransaction :=
  {| ntx_TxHash := hash; ntx_BlockCursor := block; ntx_BlockTime := Some 1; ntx_FeeAmount := "0";
     ntx_FeePayer := ""; ntx_Status := TxStatusSuccess; ntx_Err := None; ntx_ChainData := None;
     ntx_BlockHash := "h"; ntx_ParentHash := "p"; ntx_BalanceEvents := evs |}.

Definition sample_batch (prev new : Z) (txs : list NormalizedTransaction) : NormalizedBatch :=
  {| nb_Chain := "base"; nb_Network := "mainnet"; nb_Address := "bob"; nb_WalletID := Some "w1";
     nb_OrgID := None; nb_PreviousCursorValue := Some "0xaa"; nb_PreviousCursorSequence := prev;
     nb_Transactions := txs; nb_NewCursorValue := Some "0xbb"; nb_NewCursorSequence := new;
     nb_BlockScanMode := false; nb_WatchedAddresses := [] |}.

(** Two deposits and a withdrawal of one token, in blocks 11 and 12. *)
Definition deposits : NormalizedBatch :=
  sample_batch 10 12
    [sample_ntx "0xAB" 11 [sample_nbe "0xt" "bob" "7" "e3" "confirmed"; sample_nbe "0xt" "bob" "5" "e4" "confirmed"];
     sample_ntx "0xCD" 12 [sample_nbe "0xt" "bob" "-2" "e5" "confirmed"]].

Definition denied0 : LRU string bool := NewLRU 100 1000000.
Definition sample_world (d : db) : world (LRU string bool) := world_of denied0 d.

(** The example runs: one token row is created, its balance is 10. *)
Example deposits_run :
  let '(r, w') := processBatch calm deposits (sample_world (sample_db sample_rows 10)) in
  is_ok r = true /\ length (db_events (w_db w')) = 5%nat /\
  db_watermarks (w_db w') !! ("base", "mainnet") = Some 12 /\
  (bal_amount <$> (map_to_list (db_balances (w_db w'))).*2) = [10; 10].
Proof. vm_compute. split_and!; reflexivity. Qed.

Lemma deposits_fresh : fresh_batch (sample_db sample_rows 10) deposits.
Proof.
  split; [apply (bool_decide_unpack _); vm_compute; exact I|]. cbn. intros i Hi _.
  assert (Hall : Forall (fun i => i ∉ ["e1"; "e2"]) ["e3"; "e4"; "e5"]).
  { apply (bool_decide_unpack _). vm_compute. exact I. }
  rewrite Forall_forall in Hall. by apply Hall.
Qed.

Lemma processBatch_keeps_ledger_witness :
  is_ok (processBatch calm deposits (sample_world (sample_db sample_rows 10))).1 = true /\
  ledger_ok (w_db (processBatch calm deposits (sample_world (sample_db sample_rows 10))).2).
Proof.
  split; [vm_compute; reflexivity|].
  apply (processBatch_keeps_ledger calm deposits (sample_world (sample_db sample_rows 10))).
  - exact sample_ledger_ok.
  - exact (sample_canonical 10).
  - intros H. vm_compute in H. discriminate H.
  - exact deposits_fresh.
  - left. reflexivity.
Defined.

Lemma retry_applies_at_most_once_witness :
  exists w1, w_db w1 = sample_db sample_rows 10 /\
    processBatch calm deposits w1 =
      (Ok tt, (processBatchWithRetry calm deposits (sample_world (sample_db sample_rows 10))).2).
Proof.
  destruct (ran_ok (processBatchWithRetry calm deposits (sample_world (sample_db sample_rows 10))))
    as [u Hrun]; [vm_compute; reflexivity|].
  pose proof (retry_applies_at_most_once calm deposits (sample_world (sample_db sample_rows 10)) eq_refl) as H.
  rewrite Hrun in H. exact H.
Defined.

Lemma processBatch_watermark_witness :
  exists v, db_watermarks (w_db (processBatch calm deposits (sample_world (sample_db sample_rows 10))).2)
              !! ("base", "mainnet") = Some v /\ 12 <= v.
Proof.
  pose proof (processBatch_watermark calm deposits (sample_world (sample_db sample_rows 10)) eq_refl) as H.
  destruct (ran_ok (processBatch calm deposits (sample_world (sample_db sample_rows 10))))
    as [u Hrun]; [vm_compute; reflexivity|].
  rewrite Hrun in H. destruct H as (_ & _ & H). exact (H eq_refl).
Defined.

Definition sample_reorg : ReorgEvent :=
  {| re_Chain := "base"; re_Network := "mainnet"; re_ForkBlockNumber := 9; re_ExpectedHash := "a";
     re_ActualHash := "b" |}.

Lemma handleReorg_keeps_ledger_witness :
  is_ok (handleReorg calm sample_reorg (sample_world (sample_db sample_rows 10))).1 = true /\
  ledger_ok (w_db (handleReorg calm sample_reorg (sample_world (sample_db sample_rows 10))).2).
Proof.
  split; [vm_compute; reflexivity|].
  apply (handleReorg_keeps_ledger calm sample_reorg (sample_world (sample_db sample_rows 10))).
  - exact (sample_ids_ok 10).
  - exact (sample_canonical 10).
  - exact sample_ledger_ok.
  - apply (bool_decide_unpack _). vm_compute. exact I.
Defined.

(** The same chain, with the event of block 9 not applied yet. *)
Definition pending_rows : list event_row :=
  [{| ev_id := 1%N; ev_cols := sample_event "base" "mainnet" "alice" 1%N ActivityDeposit 7 5 true "e1" |};
   {| ev_id := 2%N; ev_cols := sample_event "base" "mainnet" "alice" 1%N ActivityDeposit 3 9 false "e2" |}].

Lemma pending_ledger_ok : ledger_ok (sample_db pending_rows 7).
Proof.
  intros k. unfold ledger, sum_of, amount. simpl. unfold contribution, full_contribution. simpl.
  change (liquid_pk _) with sample_pk. destruct (decide (sample_pk = k)) as [<-|Hk].
  - by rewrite bool_decide_true, lookup_singleton_eq.
  - by rewrite bool_decide_false, lookup_singleton_ne.
Qed.

Definition sample_promo : FinalityPromotion :=
  {| fp_Chain := "base"; fp_Network := "mainnet"; fp_NewFinalizedBlock := 9 |}.

Lemma handleFinalityPromotion_keeps_ledger_witness :
  is_ok (handleFinalityPromotion calm sample_promo (sample_world (sample_db pending_rows 7))).1 = true /\
  ledger_ok (w_db (handleFinalityPromotion calm sample_promo (sample_world (sample_db pending_rows 7))).2).
Proof.
  split; [vm_compute; reflexivity|].
  apply (handleFinalityPromotion_keeps_ledger calm sample_promo (sample_world (sample_db pending_rows 7))).
  - repeat constructor; [by exists 7|by exists 3].
  - exact pending_ledger_ok.
  - apply (bool_decide_unpack _). vm_compute. exact I.
Defined.

(** ** Limits *)

Definition total_amount (d : db) : Z :=
  sum_of (fun e => bal_amount e.2) (map_to_list (db_balances d)).
Definition total_ledger (d : db) : Z :=
  sum_of (fun r => when (applied r) (delta_of (ev_cols r))) (db_events d).

(** Also: Ingesting one batch twice stores its events once but adds its deltas
    twice: the upsert recognises the event identifiers, the balance adjustment
    does not look at which events were new. *)
Theorem replay_doubles_deltas :
  let once := (processBatch calm deposits (sample_world (sample_db sample_rows 10))).2 in
  let twice := processBatch calm deposits once in
  is_ok twice.1 = true /\
  length (db_events (w_db twice.2)) = length (db_events (w_db once)) /\
  total_ledger (w_db once) = 20 /\ total_amount (w_db once) = 20 /\
  total_ledger (w_db twice.2) = 20 /\ total_amount (w_db twice.2) = 30.
Proof. vm_compute. split_and!; reflexivity. Qed.

(** A commit that is lost with a connection error. *)
Definition lossy : env := {|
  env_fault := fun _ => None; env_commit := fun _ => CommitLost (EMsg "connection reset by peer");
  env_clock := env_clock calm; env_ctx_err := env_ctx_err calm; env_pg_error := env_pg_error calm;
  env_pick := env_pick calm; env_uuid := env_uuid calm; env_unmarshal := env_unmarshal calm;
  env_shuffle := env_shuffle calm; env_rand := env_rand calm; env_addressIndex := None;
  env_watchedAddrRepo := None; env_blockRepo := true; env_interleaver := false;
  env_replayService := false; env_retryMaxAttempts := 3; env_retryDelayStart := 100000000;
  env_retryDelayMax := 1000000000; env_blockScanAddrCacheTTL := 30000000000 |}.

(** Also: The watermark probe can mistake an old watermark for the lost commit: when
    the watermark already covers the batch's cursor (a backfill, or a batch sent
    again) a commit that was never applied is reported as a success, and the
    events of the batch are lost. *)
Theorem reconcile_accepts_lost_commit :
  let d := set_watermarks {[ ("base", "mainnet") := 12 ]} (sample_db sample_rows 10) in
  let '(r, w') := processBatchWithRetry lossy deposits (sample_world d) in
  is_ok r = true /\ db_events (w_db w') = db_events d /\ length (nb_Transactions deposits) = 2%nat.
Proof. vm_compute. split_and!; reflexivity. Qed.

(** Block-scan mode with an index that knows two wallets. *)
Definition scanning : env := {|
  env_fault := fun _ => None; env_commit := fun _ => CommitOk;
  env_clock := env_clock calm; env_ctx_err := env_ctx_err calm;
  env_pg_error := fun e => match e with UniqueViolation => EMsg "pq: duplicate key value violates unique constraint"
                                   | _ => EMsg "pq: error" end;
  env_pick := env_pick calm; env_uuid := env_uuid calm; env_unmarshal := env_unmarshal calm;
  env_shuffle := env_shuffle calm; env_rand := env_rand calm;
  env_addressIndex := Some (fun _ _ _ a =>
    if String.eqb a "alice" then Some {| am_walletID := Some "wa"; am_orgID := None |}
    else if String.eqb a "bob" then Some {| am_walletID := Some "wb"; am_orgID := None |} else None);
  env_watchedAddrRepo := None; env_blockRepo := true; env_interleaver := false;
  env_replayService := false; env_retryMaxAttempts := 3; env_retryDelayStart := 100000000;
  env_retryDelayMax := 1000000000; env_blockScanAddrCacheTTL := 30000000000 |}.

Definition with_counterparty (c : string) (be : NormalizedBalanceEvent) : NormalizedBalanceEvent :=
  {| nbe_OuterInstructionIndex := nbe_OuterInstructionIndex be;
     nbe_InnerInstructionIndex := nbe_InnerInstructionIndex be;
     nbe_ActivityType := nbe_ActivityType be; nbe_EventAction := nbe_EventAction be;
     nbe_ProgramID := nbe_ProgramID be; nbe_ContractAddress := nbe_ContractAddress be;
     nbe_Address := nbe_Address be; nbe_CounterpartyAddress := c; nbe_Delta := nbe_Delta be;
     nbe_ChainData := nbe_ChainData be; nbe_TokenSymbol := nbe_TokenSymbol be;
     nbe_TokenName := nbe_TokenName be; nbe_TokenDecimals := nbe_TokenDecimals be;
     nbe_TokenType := nbe_TokenType be; nbe_EventID := nbe_EventID be;
     nbe_BlockHash := nbe_BlockHash be; nbe_TxIndex := nbe_TxIndex be;
     nbe_EventPath := nbe_EventPath be; nbe_EventPathType := nbe_EventPathType be;
     nbe_ActorAddress := nbe_ActorAddress be; nbe_AssetType := nbe_AssetType be;
     nbe_AssetID := nbe_AssetID be; nbe_FinalityState := nbe_FinalityState be;
     nbe_DecoderVersion := nbe_DecoderVersion be; nbe_SchemaVersion := nbe_SchemaVersion be |}.

(** One unwatched address pays both wallets in one block. *)
Definition shared_counterparty : NormalizedBatch :=
  let b := sample_batch 10 12
    [sample_ntx "0xAB" 11 [with_counterparty "alice" (sample_nbe "0xt" "carol" "4" "e3" "confirmed");
                           with_counterparty "bob" (sample_nbe "0xt" "carol" "5" "e4" "confirmed")]] in
  {| nb_Chain := nb_Chain b; nb_Network := nb_Network b; nb_Address := ""; nb_WalletID := None;
     nb_OrgID := None; nb_PreviousCursorValue := nb_PreviousCursorValue b;
     nb_PreviousCursorSequence := nb_PreviousCursorSequence b; nb_Transactions := nb_Transactions b;
     nb_NewCursorValue := nb_NewCursorValue b; nb_NewCursorSequence := nb_NewCursorSequence b;
     nb_BlockScanMode := true; nb_WatchedAddresses := [] |}.

(** Also: Deltas are aggregated per wallet but stored per address: an address that
    meets two wallets in one block-scan batch yields two adjustments of one
    balance, which the bulk statement refuses, so the batch fails terminally. *)
Theorem shared_counterparty_fails :
  let '(r, w') := processBatchWithRetry scanning shared_counterparty (sample_world (sample_db sample_rows 10)) in
  match r with Err (EWrap text _) => has_prefix text "terminal_failure" = true | _ => False end /\
  db_events (w_db w') = sample_rows.
Proof. vm_compute. split_and!; reflexivity. Qed.
