(* ===== verification/IngesterDelivery.v ===== *)
(** * No event is lost: what a successful batch has stored

    The ledger theorems of [IngesterProofs] say that balances and events agree;
    this file says that the events are there.  Every event collected from a
    batch is stored, with its address, block, transaction, amount and token, or
    its token is denied in the committed table; and nothing else is stored.  The
    cache of denied tokens is any cache that keeps the laws of [CacheLaws]. *)

From Stdlib Require Import ZArith String Lia.
From stdpp Require Import base option list strings gmap fin_maps sorting.
From S2P Require Import Prelude Retry Domain Identity Store Ledger Cache IngesterRules Effects Replay Ingester IngesterProofs.

Open Scope Z_scope.

(** A loop invariant that may speak about the world. *)
Lemma mfold_inv_world {C A B} (I : list A -> B -> world C -> Prop) (f : B -> A -> M C B) l acc w b w' :
  I [] acc w ->
  (forall done x acc w b w', x ∈ l -> I done acc w -> f acc x w = (Ok b, w') -> I (done ++ [x]) b w') ->
  mfold f acc l w = (Ok b, w') -> I l b w'.
Proof.
  intros H0 Hstep. change l with ([] ++ l) at 2.
  assert (Hin : forall x, x ∈ l -> x ∈ l) by done. revert H0 Hin.
  generalize (@nil A). generalize l at 1 3 4. intros todo; revert acc w.
  induction todo as [|x todo IH]; intros acc w done_ H0 Hin; simpl.
  - intros [= <- <-]. by rewrite app_nil_r.
  - intros (b1 & w1 & H1 & H2)%bind_ok. rewrite cons_middle, app_assoc.
    eapply IH; [|intros; apply Hin; set_solver|exact H2]. eapply Hstep; [apply Hin; set_solver|done|done].
Qed.

(** ** Phase 1: every event has its transaction and token model *)

Section Collect.
Context (batch : NormalizedBatch).

Record collected (p : phase1) : Prop := {
  co_token ec : ec ∈ p1_allEvents p ->
    nbe_ContractAddress (ec_be ec) ∈ tk_ContractAddress <$> p1_tokenModels p;
  co_tx ec : ec ∈ p1_allEvents p -> ec_canonicalTxHash ec ∈ tx_TxHash <$> p1_txModels p;
  co_chain t : t ∈ p1_tokenModels p -> tk_Chain t = nb_Chain batch /\ tk_Network t = nb_Network batch
}.

Lemma add_tx_model_collected p t :
  collected p ->
  collected (add_tx_model p t) /\ tx_TxHash t ∈ tx_TxHash <$> p1_txModels (add_tx_model p t).
Proof.
  intros [H1 H2 H3]. unfold add_tx_model. case_bool_decide as Hin; [done|]. split.
  - split; [done| |done]. intros ec Hec. simpl. rewrite fmap_app. apply elem_of_app. left. by apply H2.
  - simpl. rewrite fmap_app. set_solver.
Qed.

Lemma add_event_collected p t ec :
  collected p -> tk_Chain t = nb_Chain batch -> tk_Network t = nb_Network batch ->
  tk_ContractAddress t = nbe_ContractAddress (ec_be ec) ->
  ec_canonicalTxHash ec ∈ tx_TxHash <$> p1_txModels p ->
  collected (add_event p t ec).
Proof.
  intros [H1 H2 H3] Hc Hn Ht Htx. unfold add_event. split; simpl.
  - intros ec' [Hec'| ->%list_elem_of_singleton]%elem_of_app; case_bool_decide as Hin.
    + by apply H1.
    + rewrite fmap_app. apply elem_of_app. left. by apply H1.
    + by rewrite <- Ht.
    + rewrite fmap_app, <- Ht. set_solver.
  - intros ec' [Hec'| ->%list_elem_of_singleton]%elem_of_app; [by apply H2|done].
  - intros t' Ht'. case_bool_decide; [by apply H3|].
    apply elem_of_app in Ht' as [Ht'| ->%list_elem_of_singleton]; [by apply H3|done].
Qed.

Lemma collect_tx_collected p ntx : collected p -> collected (collect_tx batch p ntx).
Proof.
  intros Hp. unfold collect_tx. set (hash := canonical_tx_hash _ _).
  destruct (add_tx_model_collected p (tx_model batch ntx hash) Hp) as [Hp1 Hh]. simpl in Hh.
  set (p1 := add_tx_model _ _) in *. clearbody p1.
  assert (Hfold : forall bes q, collected q -> hash ∈ tx_TxHash <$> p1_txModels q ->
    let q' := foldl (fun p be => add_event p (token_model batch be)
      {| ec_ntx := ntx; ec_be := be; ec_canonicalTxHash := hash |}) q bes in
    collected q' /\ hash ∈ tx_TxHash <$> p1_txModels q').
  { induction bes as [|be bes IH]; intros q Hq Hhq; [done|]. simpl. apply IH; [|done].
    by apply add_event_collected. }
  destruct (Hfold (ntx_BalanceEvents ntx) p1 Hp1 Hh) as [Hq Hhq].
  destruct (_ && _); [|done]. by apply add_event_collected.
Qed.

Lemma collectEvents_collected : collected (collectEvents batch).
Proof.
  unfold collectEvents. assert (H0 : collected empty_phase1) by (split; simpl; set_solver).
  revert H0. generalize empty_phase1. induction (nb_Transactions batch) as [|t ts IH]; intros p Hp; [done|].
  simpl. apply IH. by apply collect_tx_collected.
Qed.
End Collect.

(** ** Tokens: identifiers are known, denials persist *)

Section Tokens.
Context (batch : NormalizedBatch).

Definition tok_pk (c : string) : Chain * Network * string := (nb_Chain batch, nb_Network batch, c).

(** The token table denies the contract. *)
Definition denied (d : db) (c : string) : Prop := exists id t, db_tokens d !! tok_pk c = Some (id, t, true).

(** Every identifier the upsert returned is the one of the row. *)
Definition known (ids : gmap string uuid) (d : db) : Prop := forall c id,
  ids !! c = Some id -> exists t b, db_tokens d !! tok_pk c = Some (id, t, b).

Lemma token_upsert_one gen d t d' id :
  TokenRepo.UpsertTx gen d t = (d', id) -> TokenRepo.token_pk t = tok_pk (tk_ContractAddress t) ->
  (forall c, denied d c -> denied d' c) /\
  (forall ids, known ids d -> known (<[tk_ContractAddress t := id]> ids) d').
Proof.
  unfold TokenRepo.UpsertTx. intros H Hpk. rewrite Hpk in H.
  destruct (db_tokens d !! tok_pk _) as [[[i t'] b]|] eqn:E.
  - injection H as <- <-. split; [done|]. intros ids Hk c id [[<- <-]|[Hne Hc]]%lookup_insert_Some; eauto.
  - injection H as <- <-. split.
    + intros c (i & t' & Hc). exists i, t'. simpl. rewrite lookup_insert_ne; [done|]. intros Heq. congruence.
    + intros ids Hk c id [[<- <-]|[Hne Hc]]%lookup_insert_Some; simpl.
      * rewrite lookup_insert_eq. eauto.
      * rewrite lookup_insert_ne; [by apply Hk|]. unfold tok_pk. congruence.
Qed.

Lemma token_upsert_all gen ts d acc d' m :
  TokenRepo.upsert_all gen d acc ts = (d', m) ->
  (forall t, t ∈ ts -> tk_Chain t = nb_Chain batch /\ tk_Network t = nb_Network batch) ->
  known acc d ->
  (forall c, denied d c -> denied d' c) /\ known m d' /\
  (forall c, is_Some (acc !! c) \/ c ∈ tk_ContractAddress <$> ts -> is_Some (m !! c)).
Proof.
  revert d acc; induction ts as [|t ts IH]; intros d acc H Hch Hk; simpl in H.
  - injection H as <- <-. split_and!; [done|done|]. intros c [?|Hc]; [done|]. set_solver.
  - destruct (TokenRepo.UpsertTx gen d t) as [d1 id] eqn:E.
    destruct (token_upsert_one _ _ _ _ _ E) as [Hd1 Hk1].
    { destruct (Hch t) as [Hc Hn]; [set_solver|]. unfold TokenRepo.token_pk, tok_pk. by rewrite Hc, Hn. }
    destruct (IH _ _ H) as (Hd & Hkn & Hall); [set_solver|by apply Hk1|].
    split_and!; [auto|done|]. intros c Hc. apply Hall.
    destruct (decide (c = tk_ContractAddress t)) as [->|Hne]; [left; by rewrite lookup_insert_eq|].
    rewrite lookup_insert_ne by done. destruct Hc as [?|Hc]; [by left|right].
    rewrite fmap_cons in Hc. set_solver.
Qed.

Lemma tx_upsert_all gen ts d acc d' m :
  TransactionRepo.upsert_all gen d acc ts = (d', m) ->
  db_tokens d' = db_tokens d /\
  (forall h, is_Some (acc !! h) \/ h ∈ tx_TxHash <$> ts -> is_Some (m !! h)).
Proof.
  revert d acc; induction ts as [|t ts IH]; intros d acc H; simpl in H.
  - injection H as <- <-. split; [done|]. intros h [?|Hh]; [done|]. set_solver.
  - destruct (TransactionRepo.UpsertTx gen d t) as [d1 id] eqn:E.
    assert (Htok : db_tokens d1 = db_tokens d).
    { unfold TransactionRepo.UpsertTx in E. destruct (_ !! _) as [[??]|]; by injection E as <- <-. }
    destruct (IH _ _ H) as [Hd Hall]. split; [congruence|]. intros h Hh. apply Hall.
    destruct (decide (h = tx_TxHash t)) as [->|Hne]; [left; by rewrite lookup_insert_eq|].
    rewrite lookup_insert_ne by done. destruct Hh as [?|Hh]; [by left|right].
    rewrite fmap_cons in Hh. set_solver.
Qed.

Lemma DenyTokenTx_denied d c r :
  let d' := TokenRepo.DenyTokenTx d (nb_Chain batch) (nb_Network batch) c r in
  (forall c', denied d c' -> denied d' c') /\ (forall ids, known ids d -> known ids d') /\
  (is_Some (db_tokens d !! tok_pk c) -> denied d' c).
Proof.
  unfold TokenRepo.DenyTokenTx. fold (tok_pk c).
  destruct (db_tokens d !! tok_pk c) as [[[id t] b]|] eqn:E; [|split_and!; [done..|by intros [??]]].
  split_and!.
  - intros c' (id' & t' & Hc'). unfold denied. simpl.
    destruct (decide (c = c')) as [<-|Hne]; [rewrite lookup_insert_eq; eauto|].
    rewrite lookup_insert_ne by (unfold tok_pk; congruence). eauto.
  - intros ids Hk c' id' Hc'. simpl. apply Hk in Hc' as (t' & b' & Hc').
    destruct (decide (c = c')) as [<-|Hne].
    + rewrite lookup_insert_eq. rewrite E in Hc'. injection Hc' as <- <- <-. eauto.
    + rewrite lookup_insert_ne by (unfold tok_pk; congruence). eauto.
  - intros _. exists id, t. simpl. by rewrite lookup_insert_eq.
Qed.

Lemma BulkIsDenied_true d cs c :
  TokenRepo.BulkIsDeniedTx d (nb_Chain batch) (nb_Network batch) cs !! c = Some true -> denied d c.
Proof.
  unfold TokenRepo.BulkIsDeniedTx.
  assert (H0 : forall m : gmap string bool, (m !! c = Some true -> denied d c) ->
    foldl (fun m c => match db_tokens d !! (nb_Chain batch, nb_Network batch, c) with
                      | Some (_, _, den) => <[c := den]> m | None => m end) m cs !! c = Some true -> denied d c).
  { induction cs as [|c1 cs IH]; intros m Hm; [done|]. simpl. apply IH.
    destruct (db_tokens d !! _) as [[[id t] b]|] eqn:E; [|done].
    intros [[-> ->]|[_ ?]]%lookup_insert_Some; [|auto]. by exists id, t. }
  apply H0. by rewrite lookup_empty.
Qed.
End Tokens.

(** ** Phase 2: what the caches and the table say about denials *)

Section Denied.
Context {C : Type} `{CA : !Cache C string bool} `{CL : !CacheLaws C string bool}.
Context (E : env) (batch : NormalizedBatch).

Abbreviation dkey c := (deniedKeyPrefix batch +:+ c).

(** The cache claims no denial the open transaction does not have. *)
Definition honest (w : world C) : Prop :=
  cache_ok (w_denied w) /\
  forall now c, holds now (w_denied w) (dkey c) = Some true -> denied batch (w_tx w) c.

(** A step that leaves tokens and cache alone. *)
Definition tok_frame {A} (m : M C A) : Prop := forall w a w', m w = (Ok a, w') ->
  db_tokens (w_tx w') = db_tokens (w_tx w) /\ w_denied w' = w_denied w.

Lemma honest_tokens w w' :
  db_tokens (w_tx w') = db_tokens (w_tx w) -> w_denied w' = w_denied w -> honest w -> honest w'.
Proof. intros Ht Hd [H1 H2]. unfold honest, denied. rewrite Ht, Hd. by split. Qed.

Lemma honest_mono w w' :
  (forall c, denied batch (w_tx w) c -> denied batch (w_tx w') c) -> w_denied w' = w_denied w ->
  honest w -> honest w'.
Proof. intros Ht Hd [H1 H2]. unfold honest. rewrite Hd. split; [done|]. eauto. Qed.

Lemma denied_get_honest c w v w' :
  honest w -> denied_get E (dkey c) w = (Ok v, w') ->
  honest w' /\ w_tx w' = w_tx w /\ (v = Some true -> denied batch (w_tx w) c).
Proof.
  intros [Hok Hh] Hg. unfold denied_get in Hg.
  pose proof (get_holds (env_clock E (w_tick w)) (w_denied w) (dkey c) Hok) as Hv.
  pose proof (get_ok (env_clock E (w_tick w)) (w_denied w) (dkey c) Hok) as Hok'.
  pose proof (fun n k x => get_no_invention (env_clock E (w_tick w)) n (w_denied w) (dkey c) k x Hok) as Hni.
  destruct (Get _ _ _) as [v0 c0]. injection Hg as <- <-. simpl in *. split_and!; [|done|].
  - split; [done|]. simpl. intros n c' Hc'. eapply Hh, Hni, Hc'.
  - intros ->. by eapply Hh.
Qed.

Lemma denied_put_honest c v w u w' :
  honest w -> (v = true -> denied batch (w_tx w) c) -> denied_put E (dkey c) v w = (Ok u, w') ->
  honest w' /\ w_tx w' = w_tx w.
Proof.
  intros [Hok Hh] Hv. unfold denied_put. intros [= _ <-]. split; [|done]. split; simpl.
  - by apply put_ok.
  - intros n c' Hc'. apply put_no_invention in Hc' as [[Hk <-]|[_ Hc']]; [|by eapply Hh|done].
    apply append_cancel in Hk as ->. by apply Hv.
Qed.

(** Denials only accumulate. *)
Definition deny_grows (w w' : world C) : Prop :=
  forall c, denied batch (w_tx w) c -> denied batch (w_tx w') c.

Definition true_denied (m : gmap string bool) (w : world C) : Prop :=
  forall c, m !! c = Some true -> denied batch (w_tx w) c.

Lemma split_cached_honest l w cu w' :
  honest w -> split_cached E batch l w = (Ok cu, w') ->
  honest w' /\ w_tx w' = w_tx w /\ true_denied cu.1 w'.
Proof.
  intros Hh H. unfold split_cached in H.
  apply (mfold_inv_world (fun _ cu w1 => honest w1 /\ w_tx w1 = w_tx w /\ true_denied cu.1 w1)) in H;
    [done|split_and!; [done|done|by intros c]|].
  intros _ c [cached uncached] w1 b w2 _ (Hh1 & Htx & Hc) H1. inv_do H1. destruct a as [v|]; inv_do H1;
    (eapply denied_get_honest in H0 as (Hh2 & Htx2 & Hv); [|done]);
    (split_and!; [done|congruence|]); intros c' Hc'; rewrite Htx2.
  - simpl in Hc'. apply lookup_insert_Some in Hc' as [[<- ->]|[_ Hc']]; auto.
  - by apply Hc.
Qed.

Lemma denied_check_honest cs w m w' :
  honest w -> denied_check E batch cs w = (Ok m, w') ->
  honest w' /\ w_tx w' = w_tx w /\ true_denied m w'.
Proof.
  intros Hh H. unfold denied_check in H. inv_do H. destruct a as [cached uncached].
  apply split_cached_honest in H0 as (Hh1 & Htx1 & Hc); [|done].
  destruct uncached as [|u us]; inv_do H; [done|].
  set (dbd := TokenRepo.BulkIsDeniedTx _ _ _ _) in H.
  assert (Hd : forall c, dbd !! c = Some true -> denied batch (w_tx w) c).
  { rewrite <- Htx1. intros c. apply BulkIsDenied_true. }
  apply (mfold_inv_world (fun _ m w2 => honest w2 /\ w_tx w2 = w_tx w /\ true_denied m w2)) in H; [done|..].
  { split_and!; [|done|]. { by eapply honest_tokens, Hh1. } intros c. by apply Hc. }
  intros _ c m1 w2 b w3 _ (Hh2 & Htx2 & Hc2) H2. inv_do H2.
  eapply denied_put_honest in H0 as [Hh3 Htx3]; [|done|].
  - split_and!; [done|congruence|]. intros c' Hc'. rewrite Htx3.
    apply lookup_insert_Some in Hc' as [[<- Hc']|[_ Hc']]; [|by apply Hc2].
    rewrite Htx2. apply Hd. by destruct (dbd !! c) as [[]|].
  - intros Hv. rewrite Htx2. apply Hd. by destruct (dbd !! c) as [[]|].
Qed.
End Denied.

(** ** Steps that leave tokens and the denied cache alone *)

Section Frames.
Context {C : Type}.

Lemma tok_ret {A} (a : A) : tok_frame (C:=C) (ret a).
Proof. by intros w b w' [= _ <-]. Qed.
Lemma tok_fail {A} e : tok_frame (C:=C) (fail (A:=A) e).
Proof. by intros w b w' ?. Qed.
Lemma tok_bind {A B} (m : M C A) (k : A -> M C B) :
  tok_frame m -> (forall a, tok_frame (k a)) -> tok_frame (bind m k).
Proof.
  intros Hm Hk w b w' (a & w1 & H1 & H2)%bind_ok. apply Hm in H1 as [? ?]. apply Hk in H2 as [? ?].
  split; congruence.
Qed.
Lemma tok_wrap {A} t (m : M C A) : tok_frame m -> tok_frame (wrap_err t m).
Proof. intros Hm w a w' H%wrap_ok. by eapply Hm. Qed.
Lemma tok_mfold {A B} (f : B -> A -> M C B) acc l :
  (forall b a, tok_frame (f b a)) -> tok_frame (mfold f acc l).
Proof.
  intros Hf. revert acc; induction l as [|x l IH]; intros acc; simpl; [apply tok_ret|by apply tok_bind].
Qed.
Lemma tok_call {A} E (f : db -> result sql_error (db * A)) :
  (forall d d' a, f d = Ok (d', a) -> db_tokens d' = db_tokens d) -> tok_frame (C:=C) (call E f).
Proof. intros Hf w a w' (d & Hd & ->)%call_ok. apply Hf in Hd. done. Qed.
Lemma tok_query {A} E (f : db -> A) : tok_frame (C:=C) (query E f).
Proof. apply tok_call. by intros d d' a [= <- _]. Qed.
Lemma tok_lift {A} (r : result go_error A) : tok_frame (C:=C) (lift r).
Proof. destruct r; [apply tok_ret|apply tok_fail]. Qed.
End Frames.
Create HintDb tok discriminated.
#[export] Hint Resolve tok_ret tok_fail tok_bind tok_wrap tok_mfold tok_query tok_lift : tok.

Section FrameOps.
Context {C : Type} `{CA : !Cache C string bool} (E : env) (batch : NormalizedBatch).

Lemma tok_prefetch_balances keys : tok_frame (C:=C) (prefetch_balances E batch keys).
Proof.
  unfold prefetch_balances, get_balances. destruct keys as [|k keys]; [auto with tok|].
  destruct (_ <=? _)%nat; auto 10 with tok.
Qed.

Lemma tok_resolve m be : tok_frame (C:=C) (resolve_watched E batch m be).
Proof.
  assert (Hc : forall c, tok_frame (C:=C) (resolve_candidate E batch m c)).
  { intros c w a w'. unfold resolve_candidate. by repeat case_match; intros [= _ <-]. }
  unfold resolve_watched. destruct (negb _); [auto with tok|].
  apply tok_bind; [done|]. intros [meta|]; [auto with tok|].
  apply tok_bind; [done|]. intros [meta|]; auto with tok.
Qed.

Lemma tok_block_scan : tok_frame (C:=C) (block_scan_addrs E batch).
Proof.
  assert (H : forall G c n, tok_frame (C:=C) (getBlockScanAddrMap E G c n)).
  { intros G c n w a w'. unfold getBlockScanAddrMap. by repeat case_match; intros; simplify_eq. }
  unfold block_scan_addrs. repeat case_match; auto 10 with tok.
Qed.

Lemma tok_write_events evs : tok_frame (C:=C) (write_events E evs).
Proof.
  unfold write_events. destruct evs as [|ev evs]; [auto with tok|]. apply tok_bind.
  { intros w a w'. unfold now. by intros [= _ <-]. }
  intros t. apply tok_bind; [|auto with tok]. apply tok_wrap, tok_call. intros d d' res Hd.
  apply BulkUpsertTx_pass in Hd as (rows & n & r & _ & -> & _). done.
Qed.

Lemma tok_adjust t chain network items : tok_frame (C:=C) (adjust E t chain network items).
Proof.
  unfold adjust. destruct items; [auto with tok|]. apply tok_wrap, tok_call.
  intros d d' u. destruct (BalanceRepo.BulkAdjustBalanceTx _ _ _ _ _); [|done]. by intros [= <- _].
Qed.

Lemma tok_write_blocks : tok_frame (C:=C) (write_blocks E batch).
Proof.
  assert (Hfold : forall bs d, db_tokens (foldl IndexedBlockRepo.UpsertTx d bs) = db_tokens d).
  { induction bs as [|b bs IH]; intros d; [done|]. simpl. by rewrite IH. }
  unfold write_blocks. destruct (_ && _); [|auto with tok]. destruct (snd <$> _); [auto with tok|].
  apply tok_wrap, tok_call. intros d d' a H.
  unfold IndexedBlockRepo.BulkUpsertTx in H. destruct (env_shuffle _ _ _); [by injection H as <-|].
  destruct (bool_decide _); [|done]. injection H as <- _. apply (Hfold (_ :: _)).
Qed.
End FrameOps.

(** ** Phases 2 and 3 *)

Section Build.
Context {C : Type} `{CA : !Cache C string bool} `{CL : !CacheLaws C string bool}.
Context (E : env) (batch : NormalizedBatch).

Lemma prefetch_delivers (w : world C) p2 w' :
  honest batch w -> prefetchBulkData E batch (collectEvents batch) w = (Ok p2, w') ->
  honest batch w' /\ known batch (p2_tokenIDMap p2) (w_tx w') /\
  true_denied batch (p2_cachedDenied p2) w' /\
  (forall ec, ec ∈ p1_allEvents (collectEvents batch) ->
     is_Some (p2_tokenIDMap p2 !! nbe_ContractAddress (ec_be ec)) /\
     is_Some (p2_txIDMap p2 !! ec_canonicalTxHash ec)).
Proof.
  intros Hh H. unfold prefetchBulkData in H. inv_do H.
  destruct (collectEvents_collected batch) as [Htok Htx Hch].
  unfold TransactionRepo.BulkUpsertTx in Hd. destruct (bool_decide _); [|done]. injection Hd as Hd.
  apply tx_upsert_all in Hd as [Ht1 Htxs].
  unfold TokenRepo.BulkUpsertTx in Hd0. destruct (bool_decide _); [|done]. injection Hd0 as Hd0.
  apply (token_upsert_all batch) in Hd0 as (Hden & Hkn & Htoks); [|done|by intros c id].
  assert (Hh1 : honest batch (set_tx d0 (tick (set_tx d (tick w))))).
  { eapply honest_mono, Hh; [|done]. intros c Hc. apply Hden. unfold denied. simpl. by rewrite Ht1. }
  eapply denied_check_honest in H0 as (Hh2 & Htx2 & Hcd); [|done].
  apply tok_prefetch_balances in H1 as [Hbt Hbd].
  assert (Htk : db_tokens (w_tx w1) = db_tokens d0) by (by rewrite Hbt, Htx2).
  split_and!.
  - by eapply honest_tokens, Hh2.
  - intros c id Hc. rewrite Htk. by apply Hkn.
  - intros c Hc. unfold denied. rewrite Hbt. by apply Hcd.
  - intros ec Hec. split; [apply Htoks; right; by apply Htok|apply Htxs; right; by apply Htx].
Qed.

(** The model of an event. *)
Definition models (ids : gmap string uuid) (ec : eventContext) (m : BalanceEvent) : Prop :=
  be_EventID m = nbe_EventID (ec_be ec) /\ be_Address m = nbe_Address (ec_be ec) /\
  be_Delta m = nbe_Delta (ec_be ec) /\ be_BlockCursor m = ntx_BlockCursor (ec_ntx ec) /\
  be_TxHash m = ec_canonicalTxHash ec /\ ids !! nbe_ContractAddress (ec_be ec) = Some (be_TokenID m).

Record build_delivers (p2 : phase2) (done : list eventContext) (p3 : phase3) (w : world C) : Prop := {
  bd_honest : honest batch w;
  bd_known : known batch (p2_tokenIDMap p2) (w_tx w);
  bd_cached : true_denied batch (p3_cachedDenied p3) w;
  bd_there ec : ec ∈ done ->
    (exists m, m ∈ p3_eventModels p3 /\ models (p2_tokenIDMap p2) ec m) \/
    denied batch (w_tx w) (nbe_ContractAddress (ec_be ec));
  bd_only m : m ∈ p3_eventModels p3 -> exists ec, ec ∈ done /\ models (p2_tokenIDMap p2) ec m
}.

(** An event whose token is denied is left out. *)
Lemma deliver_skip p2 done p3 w ec :
  build_delivers p2 done p3 w -> denied batch (w_tx w) (nbe_ContractAddress (ec_be ec)) ->
  build_delivers p2 (done ++ [ec]) p3 w.
Proof.
  intros [H1 H2 H3 H4 H5] Hd. split; [done..| |].
  - intros ec' [Hec'| ->%list_elem_of_singleton]%elem_of_app; [by apply H4|by right].
  - intros m (ec' & ? & ?)%H5. exists ec'. split; [|done]. set_solver.
Qed.

Lemma deny_scam_delivers p2 done p3 (w : world C) ec signal p3' w' :
  build_delivers p2 done p3 w -> is_Some (p2_tokenIDMap p2 !! nbe_ContractAddress (ec_be ec)) ->
  deny_scam E batch p3 (ec_be ec) signal w = (Ok p3', w') ->
  build_delivers p2 (done ++ [ec]) p3' w'.
Proof.
  intros [H1 H2 H3 H4 H5] [id Hid] H. unfold deny_scam in H. inv_do H. injection Hd as Hd.
  set (c := nbe_ContractAddress (ec_be ec)) in *.
  pose proof (DenyTokenTx_denied batch (w_tx w) c ("auto-detected: " +:+ signal)) as (Hg & Hk & Hc).
  rewrite Hd in Hg, Hk, Hc.
  assert (Hdc : denied batch d c) by (apply Hc; destruct (H2 _ _ Hid) as (t & b & ->); eauto).
  assert (Hh1 : honest batch (set_tx d (tick w))) by (by eapply honest_mono, H1).
  eapply denied_put_honest in H0 as [Hh2 Htx]; [|done|done].
  apply deliver_skip; [|by rewrite Htx]. simpl in Htx. split; [done|rewrite Htx; by apply Hk| |..]; simpl.
  - intros c' [[<- _]|[_ Hc']]%lookup_insert_Some; rewrite Htx; [done|]. by apply Hg, H3.
  - intros ec' [?|?]%H4; [by left|right]. rewrite Htx. by apply Hg.
  - done.
Qed.

Lemma apply_event_delivers p2 done p3 (w : world C) ec txID tokenID accum addrMap p3' w' :
  build_delivers p2 done p3 w -> p2_tokenIDMap p2 !! nbe_ContractAddress (ec_be ec) = Some tokenID ->
  apply_event E batch addrMap p3 ec txID tokenID accum w = (Ok p3', w') ->
  build_delivers p2 (done ++ [ec]) p3' w'.
Proof.
  intros [H1 H2 H3 H4 H5] Hid H. unfold apply_event in H.
  destruct (addDecimalStrings _ _) as [after|]; [|done]. inv_do H. destruct a as [watched meta].
  apply tok_resolve in H0 as [Ht Hd]. set (m := event_model _ _ _ _ _ _ _ _) in H.
  assert (Hm : models (p2_tokenIDMap p2) ec m) by done.
  assert (Hgoal : forall p3'' w2, p3_eventModels p3'' = p3_eventModels p3 ++ [m] ->
    p3_cachedDenied p3'' = p3_cachedDenied p3 -> w_tx w2 = w_tx w0 -> w_denied w2 = w_denied w0 ->
    build_delivers p2 (done ++ [ec]) p3'' w2).
  { intros p3'' w2 He Hc Htx Hdn. assert (Htk : db_tokens (w_tx w2) = db_tokens (w_tx w)) by congruence.
    split.
    - eapply honest_tokens, H1; congruence.
    - intros c id Hc'. rewrite Htk. by apply H2.
    - intros c. rewrite Hc. unfold denied. rewrite Htk. apply H3.
    - rewrite He. unfold denied. rewrite Htk.
      intros ec' [Hec'| ->%list_elem_of_singleton]%elem_of_app; [|left; exists m; set_solver].
      destruct (H4 _ Hec') as [(m' & ? & ?)|?]; [left; exists m'; set_solver|by right].
    - rewrite He. intros m' [(ec' & ? & ?)%H5| ->%list_elem_of_singleton]%elem_of_app;
        [exists ec'|exists ec]; set_solver. }
  destruct (be_BalanceApplied m); inv_do H; [|by apply Hgoal].
  apply lift_ok in H0 as [_ ->]. by apply Hgoal.
Qed.

Lemma build_step_delivers p2 addrMap done p3 (w : world C) ec p3' w' :
  build_delivers p2 done p3 w ->
  is_Some (p2_tokenIDMap p2 !! nbe_ContractAddress (ec_be ec)) ->
  is_Some (p2_txIDMap p2 !! ec_canonicalTxHash ec) ->
  build_step E batch addrMap p2 p3 ec w = (Ok p3', w') ->
  build_delivers p2 (done ++ [ec]) p3' w'.
Proof.
  intros Hb [tokenID Htok] [txID Htx] H. unfold build_step in H. rewrite Htok, Htx in H.
  destruct (default _ _) eqn:Ed.
  - inv_do H. apply deliver_skip; [done|]. apply (bd_cached _ _ _ _ Hb).
    revert Ed. by destruct (p3_cachedDenied p3 !! _) as [[]|].
  - destruct (negb _); [|by eapply apply_event_delivers].
    eapply deny_scam_delivers, H; [|by rewrite Htok]. by destruct Hb.
Qed.

Lemma build_delivers_all p2 addrMap (w : world C) p3 w' :
  honest batch w -> known batch (p2_tokenIDMap p2) (w_tx w) ->
  true_denied batch (p2_cachedDenied p2) w ->
  (forall ec, ec ∈ p1_allEvents (collectEvents batch) ->
     is_Some (p2_tokenIDMap p2 !! nbe_ContractAddress (ec_be ec)) /\
     is_Some (p2_txIDMap p2 !! ec_canonicalTxHash ec)) ->
  buildEventModels E batch addrMap (collectEvents batch) p2 w = (Ok p3, w') ->
  build_delivers p2 (p1_allEvents (collectEvents batch)) p3 w'.
Proof.
  intros Hh Hk Hc Hids. unfold buildEventModels. apply (mfold_inv_world (build_delivers p2)).
  - split; [exact Hh|exact Hk|exact Hc|by intros ec ?%not_elem_of_nil|by intros m ?%not_elem_of_nil].
  - intros done_ ec p3a wa p3b wb Hec Hb Hs. destruct (Hids _ Hec). by eapply build_step_delivers.
Qed.

Lemma commit_batch_ok n (w : world C) r w' :
  (forall n e, env_commit E n <> CommitLost e) -> commit_batch E batch n w = (Ok r, w') -> w_db w' = w_tx w.
Proof.
  intros Hnl H. unfold commit_batch in H. apply bind_ok in H as (o & w1 & Hc & H).
  assert (Hdb : w_db w1 = w_tx w).
  { unfold Commit in Hc. destruct (env_commit _ _) eqn:Ec; [|by apply Hnl in Ec|]; by injection Hc as <- <-. }
  rewrite <- Hdb. pose proof (in_tx_after_commit E batch n o w1) as [Hin _]. unfold commit_batch in *.
  rewrite H in Hin. done.
Qed.

Lemma write_delivers p3 d0 (w : world C) n w' :
  (forall n e, env_commit E n <> CommitLost e) ->
  fresh_events (db_events d0) (p3_eventModels p3) -> synced (w_db w) d0 w ->
  writeBulkAndCommit E batch p3 w = (Ok n, w') ->
  db_tokens (w_db w') = db_tokens (w_tx w) /\
  exists t news, db_events (w_db w') = db_events d0 ++ news /\
    Forall2 (fun be r => BalanceEventRepo.insert_values t be = Ok (ev_cols r)) (p3_eventModels p3) news.
Proof.
  intros Hnl Hfresh Hw H. unfold writeBulkAndCommit in H.
  apply bind_ok in H as (total & w1 & H1 & H). apply bind_ok in H as (u2 & w2 & H2 & H).
  apply bind_ok in H as (u3 & w3 & H3 & H). apply bind_ok in H as (u4 & w4 & H4 & H).
  pose proof (tok_write_events E _ _ _ _ H1) as [Ht1 _].
  pose proof (tok_adjust E _ _ _ _ _ _ _ H2) as [Ht2 _].
  pose proof (tok_write_blocks E batch _ _ _ H3) as [Ht3 _].
  eapply write_events_written in H1; [|done..]. eapply adjust_written in H2; [|done].
  eapply keeps_balances_written in H3; [|apply write_blocks_frame|done].
  inv_do H4. injection Hd as <-. apply commit_batch_ok in H; [|done].
  destruct H3 as (_ & _ & _ & t & news & He & Hn). rewrite H. simpl. split; [congruence|]. eauto.
Qed.
End Build.

(** ** The batch *)

(** The row holds the event, under the identifier of its token. *)
Definition stored (batch : NormalizedBatch) (d : db) (ec : eventContext) (r : event_row) : Prop :=
  be_EventID (ev_cols r) = nbe_EventID (ec_be ec) /\ be_Address (ev_cols r) = nbe_Address (ec_be ec) /\
  be_BlockCursor (ev_cols r) = ntx_BlockCursor (ec_ntx ec) /\
  be_TxHash (ev_cols r) = ec_canonicalTxHash ec /\
  parse_decimal (trim_space (nbe_Delta (ec_be ec))) = Some (delta_of (ev_cols r)) /\
  exists t b, db_tokens d !! tok_pk batch (nbe_ContractAddress (ec_be ec)) = Some (be_TokenID (ev_cols r), t, b).

Lemma insert_values_hash now be v :
  BalanceEventRepo.insert_values now be = Ok v -> be_TxHash v = be_TxHash be.
Proof.
  unfold BalanceEventRepo.insert_values. intros (z & _ & (n & _ & (b & _ & (a & _ & [= <-])%rbind_ok)%rbind_ok)%rbind_ok)%rbind_ok.
  done.
Qed.

Lemma models_stored batch now d ids ec m r :
  known batch ids d -> models ids ec m -> BalanceEventRepo.insert_values now m = Ok (ev_cols r) ->
  stored batch d ec r.
Proof.
  intros Hk (Hid & Ha & Hd & Hc & Hh & Ht) Hv. pose proof (insert_values_hash _ _ _ Hv) as Hhash.
  apply insert_values_keeps in Hv as (H1 & _ & _ & H4 & H5 & _ & _ & H8 & z & Hz & Hdz).
  unfold stored. rewrite H1, H4, H8, Hhash, H5. split_and!; [done..| |by apply Hk].
  unfold delta_of. by rewrite Hdz, trim_show_Z, parse_show, <- Hd.
Qed.

Lemma run_phases_delivers {C : Type} `{CA : !Cache C string bool} `{CL : !CacheLaws C string bool}
    (E : env) (batch : NormalizedBatch) (d0 : db) (w w' : world C) u :
  (forall n e, env_commit E n <> CommitLost e) -> fresh_batch d0 batch ->
  synced (w_db w) d0 w -> honest batch w -> run_phases E batch w = (Ok u, w') ->
  exists news, db_events (w_db w') = db_events d0 ++ news /\
    (forall ec, ec ∈ p1_allEvents (collectEvents batch) ->
       (exists r, r ∈ news /\ stored batch (w_db w') ec r) \/
       denied batch (w_db w') (nbe_ContractAddress (ec_be ec))) /\
    (forall r, r ∈ news ->
       exists ec, ec ∈ p1_allEvents (collectEvents batch) /\ stored batch (w_db w') ec r).
Proof.
  intros Hnl Hfresh Hs Hh H. unfold run_phases in H.
  apply bind_ok in H as (addrMap & w1 & H1 & H). apply bind_ok in H as (p2 & w2 & H2 & H).
  apply bind_ok in H as (p3 & w3 & H3 & H). apply bind_ok in H as (n & w4 & H4 & H). inv_do H.
  pose proof (tok_block_scan E batch _ _ _ H1) as [Ht1 Hd1].
  eapply keeps_synced in H1 as Hs1; [|apply block_scan_addrs_frame|exact Hs].
  eapply keeps_synced in H2 as Hs2; [|apply keeps_prefetch|exact Hs1].
  eapply keeps_synced in H3 as Hs3; [|apply keeps_build|exact Hs2].
  assert (Hdb3 : w_db w3 = w_db w) by apply Hs3.
  apply prefetch_delivers in H2 as (Hh2 & Hk2 & Hc2 & Hids); [|by eapply honest_tokens, Hh].
  pose proof (buildEventModels_inv _ _ _ _ _ _ _ _ H3) as Hinv.
  apply build_delivers_all in H3 as [_ Hk3 _ Hthere Honly]; [|done..].
  apply write_delivers with (d0 := d0) in H4 as (Htok & t & news & He & Hn);
    [|done|by eapply fresh_models|by rewrite Hdb3].
  assert (Hk : known batch (p2_tokenIDMap p2) (w_db w4)) by (intros c id Hc; rewrite Htok; by apply Hk3).
  exists news. split; [done|]. split.
  - intros ec Hec. destruct (Hthere _ Hec) as [(m & Hm & Hmod)|Hden]; [left|right].
    + apply list_elem_of_lookup in Hm as [i Hi].
      destruct (Forall2_lookup_l _ _ _ _ _ Hn Hi) as (r & Hr & Hv).
      exists r. split; [by eapply list_elem_of_lookup_2|]. by eapply models_stored.
    + unfold denied. by rewrite Htok.
  - intros r Hr. apply list_elem_of_lookup in Hr as [i Hi].
    destruct (Forall2_lookup_r _ _ _ _ _ Hn Hi) as (m & Hm & Hv).
    destruct (Honly m) as (ec & Hec & Hmod); [by eapply list_elem_of_lookup_2|].
    exists ec. split; [done|]. by eapply models_stored.
Qed.

(** C2: A successful batch has delivered its events: the committed event table is
    the old one followed by new rows, every collected event has a row with its
    identifier, address, block, transaction hash, amount and token, unless the
    committed token table denies its token, and every new row is such an event.
    It needs that a commit that reports an error was applied (see
    [reconcile_accepts_lost_commit] for the other case), that the identifiers
    are new, and that the cache does not start with denials of its own. *)
Theorem processBatch_delivers {C : Type} `{CA : !Cache C string bool} `{CL : !CacheLaws C string bool}
    (E : env) (batch0 : NormalizedBatch) (w w' : world C)
    (Hcommit : forall n e, env_commit E n <> CommitLost e)
    (Hcache : cache_ok (w_denied w))
    (Hnone : forall now c, holds now (w_denied w) (deniedKeyPrefix batch0 +:+ c) <> Some true)
    (Hroll : rolls_back (canonical_cursors batch0) = false)
    (Hfresh : fresh_batch (w_db w) (canonical_cursors batch0))
    (Hrun : processBatch E batch0 w = (Ok tt, w')) :
  let batch := canonical_cursors batch0 in
  let events := p1_allEvents (collectEvents batch) in
  exists news, db_events (w_db w') = db_events (w_db w) ++ news /\
    (forall ec, ec ∈ events ->
       (exists r, r ∈ news /\ stored batch (w_db w') ec r) \/
       denied batch (w_db w') (nbe_ContractAddress (ec_be ec))) /\
    (forall r, r ∈ news -> exists ec, ec ∈ events /\ stored batch (w_db w') ec r).
Proof.
  intros batch events. fold batch in Hroll, Hfresh. set (w1 := if env_interleaver E then tick w else w).
  assert (Hrun1 : exists w2, process_in_tx E batch w1 = (Ok tt, w2) /\ w_db w' = w_db w2).
  { unfold processBatch in Hrun. fold batch in Hrun. subst w1. destruct (env_interleaver E); [|eauto].
    destruct (env_fault _ _); [done|]. destruct (process_in_tx _ _ _) as [r w2]. injection Hrun as -> <-. eauto. }
  destruct Hrun1 as (w2 & Hp & Hdb). unfold process_in_tx in Hp. fold (rolls_back batch) in Hp.
  rewrite Hroll in Hp. inv_do Hp. rewrite Hdb.
  assert (Hw1 : w_db w1 = w_db w /\ w_denied w1 = w_denied w) by (subst w1; by destruct (env_interleaver E)).
  destruct Hw1 as [Hd1 Hc1].
  eapply run_phases_delivers; [done|exact Hfresh| |split|exact Hp]; simpl; rewrite ?Hd1, ?Hc1; try done.
  intros now c Hc. by destruct (Hnone now c).
Qed.

Lemma processBatch_delivers_witness :
  let w' := (processBatch calm deposits (sample_world (sample_db sample_rows 10))).2 in
  exists news, db_events (w_db w') = sample_rows ++ news /\
    forall ec, ec ∈ p1_allEvents (collectEvents (canonical_cursors deposits)) ->
      (exists r, r ∈ news /\ stored (canonical_cursors deposits) (w_db w') ec r) \/
      denied (canonical_cursors deposits) (w_db w') (nbe_ContractAddress (ec_be ec)).
Proof.
  intros w'. destruct (ran_ok (processBatch calm deposits (sample_world (sample_db sample_rows 10)))) as [[] Hrun];
    [vm_compute; reflexivity|]. fold w' in Hrun.
  destruct (processBatch_delivers (CL := LRU_CacheLaws) calm deposits (sample_world (sample_db sample_rows 10)) w' ltac:(done) (NewLRU_ok 100 1000000) ltac:(done)
    eq_refl deposits_fresh Hrun) as (news & He & Hall & _).
  exists news. split; [exact He|exact Hall].
Defined.
