(* ===== verification/Interleaver.v ===== *)
(** * Cross-chain commit turns: [internal/pipeline/ingester/interleaver.go]

    Ingesters of several chains share one interleaver.  [Acquire] registers a
    waiter and blocks until the waiter may commit; the function it returns
    releases the slot.  Every access to the shared fields happens under the
    mutex, so a run of the program is a sequence of critical sections: [step]
    has one constructor for each.  Threads are identified by a number and keep
    the local state of their call. *)

From Stdlib Require Import ZArith String Lia.
From stdpp Require Import base option list strings gmap fin_maps.
From S2P Require Import Prelude Domain.

Open Scope Z_scope.

Definition commitInterleaveKey (chain : Chain) (network : Network) : string :=
  chain +:+ "-" +:+ network.

(** The shared fields; [notify] only wakes waiters, who then check again. *)
Record interleaver := {
  il_maxSkewWait : Z;
  il_order : list string;
  il_orderIndex : gmap string nat;
  il_active : string;
  il_next : nat;
  il_waiting : gmap string Z
}.

Definition add_target (acc : list string * gmap string nat) (target : Chain * Network)
    : list string * gmap string nat :=
  let '(order, orderIndex) := acc in
  let key := commitInterleaveKey target.1 target.2 in
  match orderIndex !! key with
  | Some _ => acc
  | None => (order ++ [key], <[key := length order]> orderIndex)
  end.

Definition newDeterministicCommitInterleaver (targets : list (Chain * Network)) (maxSkewWait : Z)
    : interleaver :=
  let '(order, orderIndex) := foldl add_target ([], ∅) targets in
  {| il_maxSkewWait := maxSkewWait; il_order := order; il_orderIndex := orderIndex;
     il_active := ""; il_next := 0; il_waiting := ∅ |}.

Definition NewDeterministicMandatoryChainInterleaver (maxSkewWait : Z) : interleaver :=
  newDeterministicCommitInterleaver
    [(ChainSolana, NetworkDevnet); (ChainBase, NetworkSepolia); (ChainBTC, NetworkTestnet)]
    maxSkewWait.

Definition waiting_for (d : interleaver) (key : string) : Z := default 0 (il_waiting d !! key).

Definition set_waiting (d : interleaver) (key : string) (n : Z) : interleaver :=
  {| il_maxSkewWait := il_maxSkewWait d; il_order := il_order d; il_orderIndex := il_orderIndex d;
     il_active := il_active d; il_next := il_next d; il_waiting := <[key := n]> (il_waiting d) |}.

(** A zero [time.Time] is [None]. *)
Definition acquire_deadline (d : interleaver) (now : Z) : option Z :=
  if 0 <? il_maxSkewWait d then Some (now + il_maxSkewWait d) else None.

Definition canAcquireLocked (d : interleaver) (key : string) (deadline : option Z) (now : Z) : bool :=
  if negb (str_empty (il_active d)) then false
  else match il_order d !! il_next d with
       | None => false (* [len(d.order) == 0]; [next] is always in range *)
       | Some preferred =>
           if String.eqb key preferred then true
           else if 0 <? waiting_for d preferred then false
           else match deadline with
                | None => true
                | Some t => t <=? now
                end
       end.

Definition waitDuration (deadline : option Z) (now : Z) : Z :=
  match deadline with
  | None => 0
  | Some t => if t - now <=? 0 then 0 else t - now
  end.

(** The branch of [Acquire] that takes the slot. *)
Definition take_slot (d : interleaver) (key : string) : interleaver :=
  let d := set_waiting d key (waiting_for d key - 1) in
  {| il_maxSkewWait := il_maxSkewWait d; il_order := il_order d; il_orderIndex := il_orderIndex d;
     il_active := key; il_next := il_next d; il_waiting := il_waiting d |}.

Definition cancelWaiter (d : interleaver) (key : string) : interleaver :=
  if 0 <? waiting_for d key then set_waiting d key (waiting_for d key - 1) else d.

(** The body of the release function, on its first call. *)
Definition release_slot (d : interleaver) (key : string) (index : nat) (committed : bool) : interleaver :=
  {| il_maxSkewWait := il_maxSkewWait d; il_order := il_order d; il_orderIndex := il_orderIndex d;
     il_active := if String.eqb (il_active d) key then "" else il_active d;
     il_next := match il_order d with
                | [] => il_next d
                | _ => if committed then (index + 1) mod (length (il_order d)) else il_next d
                end%nat;
     il_waiting := il_waiting d |}.

(** What a thread is doing. *)
Inductive thread :=
| Waiting (key : string) (index : nat) (deadline : option Z)
| Holding (key : string) (index : nat)
| Released (key : string) (index : nat).

Record system := { sys_il : interleaver; sys_threads : gmap nat thread }.

Inductive step : system -> system -> Prop :=
| step_register s tid chain network index now :
    let key := commitInterleaveKey chain network in
    let d := sys_il s in
    sys_threads s !! tid = None ->
    il_orderIndex d !! key = Some index ->
    step s {| sys_il := set_waiting d key (waiting_for d key + 1);
              sys_threads := <[tid := Waiting key index (acquire_deadline d now)]> (sys_threads s) |}
| step_acquire s tid key index deadline now :
    sys_threads s !! tid = Some (Waiting key index deadline) ->
    canAcquireLocked (sys_il s) key deadline now = true ->
    step s {| sys_il := take_slot (sys_il s) key;
              sys_threads := <[tid := Holding key index]> (sys_threads s) |}
| step_cancel s tid key index deadline :
    sys_threads s !! tid = Some (Waiting key index deadline) ->
    step s {| sys_il := cancelWaiter (sys_il s) key; sys_threads := delete tid (sys_threads s) |}
| step_release s tid key index committed :
    sys_threads s !! tid = Some (Holding key index) ->
    step s {| sys_il := release_slot (sys_il s) key index committed;
              sys_threads := <[tid := Released key index]> (sys_threads s) |}
| step_release_again s tid key index :
    sys_threads s !! tid = Some (Released key index) -> step s s
| step_done s tid key index :
    sys_threads s !! tid = Some (Released key index) ->
    step s {| sys_il := sys_il s; sys_threads := delete tid (sys_threads s) |}.

Definition initial (targets : list (Chain * Network)) (maxSkewWait : Z) : system :=
  {| sys_il := newDeterministicCommitInterleaver targets maxSkewWait; sys_threads := ∅ |}.

Inductive reachable (targets : list (Chain * Network)) (maxSkewWait : Z) : system -> Prop :=
| reach_init : reachable targets maxSkewWait (initial targets maxSkewWait)
| reach_step s s' : reachable targets maxSkewWait s -> step s s' -> reachable targets maxSkewWait s'.

(** ** The invariant *)

Definition is_waiting (key : string) (t : thread) : bool :=
  match t with Waiting k _ _ => String.eqb k key | _ => false end.

(** How many threads wait for [key]. *)
Definition waiters (s : system) (key : string) : Z :=
  map_sum (fun t => when (is_waiting key t) 1) (sys_threads s).

Record inv (s : system) : Prop := {
  inv_order i : il_orderIndex (sys_il s) !! i = None \/
                exists n, il_orderIndex (sys_il s) !! i = Some n /\ il_order (sys_il s) !! n = Some i;
  inv_next : il_order (sys_il s) <> [] -> (il_next (sys_il s) < length (il_order (sys_il s)))%nat;
  inv_index tid key index : (exists dl, sys_threads s !! tid = Some (Waiting key index dl)) \/
                            sys_threads s !! tid = Some (Holding key index) ->
                            il_orderIndex (sys_il s) !! key = Some index /\ str_empty key = false;
  inv_count key : waiting_for (sys_il s) key = waiters s key;
  inv_holder tid key index :
    sys_threads s !! tid = Some (Holding key index) -> il_active (sys_il s) = key;
  inv_single tid tid' k i k' i' :
    sys_threads s !! tid = Some (Holding k i) -> sys_threads s !! tid' = Some (Holding k' i') -> tid = tid';
  inv_active : il_active (sys_il s) <> "" ->
    exists tid index, sys_threads s !! tid = Some (Holding (il_active (sys_il s)) index)
}.

Lemma key_nonempty chain network : str_empty (commitInterleaveKey chain network) = false.
Proof. unfold commitInterleaveKey. by destruct chain. Qed.

Lemma waiting_set d key n k :
  waiting_for (set_waiting d key n) k = if decide (key = k) then n else waiting_for d k.
Proof.
  unfold waiting_for. simpl. case_decide; [subst; by rewrite lookup_insert_eq|by rewrite lookup_insert_ne].
Qed.

Lemma take_slot_waiting d key k :
  waiting_for (take_slot d key) k = waiting_for d k - when (String.eqb key k) 1.
Proof.
  change (waiting_for (take_slot d key) k) with
    (waiting_for (set_waiting d key (waiting_for d key - 1)) k).
  rewrite waiting_set. unfold when. destruct (String.eqb_spec key k); case_decide; subst; try done; lia.
Qed.

(** *** The initial order *)

Definition order_ok (order : list string) (idx : gmap string nat) : Prop :=
  forall k, idx !! k = None \/ exists n, idx !! k = Some n /\ order !! n = Some k.

Lemma add_target_ok acc t : order_ok acc.1 acc.2 -> order_ok (add_target acc t).1 (add_target acc t).2.
Proof.
  destruct acc as [order idx]. unfold add_target. simpl. intros Hok.
  set (key := commitInterleaveKey t.1 t.2). destruct (idx !! key) eqn:Ek; [done|]. simpl. intros k.
  destruct (decide (key = k)) as [<-|Hne].
  - right. exists (length order). by rewrite lookup_insert_eq, list_lookup_middle.
  - rewrite lookup_insert_ne by done. destruct (Hok k) as [?|(n & Hn & Ho)]; [by left|right].
    exists n. split; [done|]. by apply lookup_app_l_Some.
Qed.

Lemma targets_ok targets acc :
  order_ok acc.1 acc.2 -> order_ok (foldl add_target acc targets).1 (foldl add_target acc targets).2.
Proof. revert acc; induction targets as [|t ts IH]; intros acc Hok; [done|]. apply IH. by apply add_target_ok. Qed.

Lemma initial_inv targets skew : inv (initial targets skew).
Proof.
  pose proof (targets_ok targets ([], ∅)) as Hok.
  unfold initial, newDeterministicCommitInterleaver.
  destruct (foldl add_target ([], ∅) targets) as [order idx]. simpl in Hok.
  split; simpl; try done.
  - intros i. apply Hok. intros k. by left.
  - intros Hne. destruct order; [done|]. simpl. lia.
  - intros tid key index [[dl H]|H]; by rewrite lookup_empty in H.
Qed.

(** *** Every critical section keeps it *)

(** The fields no critical section changes. *)
Definition same_order (s s' : system) : Prop :=
  il_order (sys_il s') = il_order (sys_il s) /\ il_orderIndex (sys_il s') = il_orderIndex (sys_il s).

Lemma step_same_order s s' : step s s' -> same_order s s'.
Proof.
  intros H. destruct H; try done. unfold cancelWaiter, same_order. simpl. by destruct (_ <? _).
Qed.

Lemma step_next s s' : inv s -> step s s' ->
  il_order (sys_il s') <> [] -> (il_next (sys_il s') < length (il_order (sys_il s')))%nat.
Proof.
  intros Hinv H Hne. destruct (step_same_order _ _ H) as [Ho _].
  assert (Hn : (il_next (sys_il s) < length (il_order (sys_il s)))%nat)
    by (apply (inv_next _ Hinv); congruence).
  destruct H; simpl in *; try done.
  - unfold cancelWaiter. by destruct (_ <? _).
  - destruct (il_order (sys_il s)) eqn:E; [done|]. destruct committed; [|done].
    apply Nat.mod_upper_bound. done.
Qed.

Lemma step_count s s' key : inv s -> step s s' -> waiting_for (sys_il s') key = waiters s' key.
Proof.
  intros Hinv H. pose proof (inv_count _ Hinv) as Hc. unfold waiters in *.
  destruct H as [s tid chain network index now k d Hnone Hidx|s tid k index dl now Hw Hcan|s tid k index dl Hw
                |s tid k index committed Hh|s tid k index Hr|s tid k index Hr]; simpl.
  - rewrite waiting_set, map_sum_insert_new, <- Hc by done. simpl.
    unfold when. destruct (String.eqb_spec k key); case_decide; subst; try done; unfold d; lia.
  - rewrite take_slot_waiting, (map_sum_insert _ _ _ _ _ Hw), <- Hc. simpl. unfold when. lia.
  - assert (Hpos : 0 < waiting_for (sys_il s) k).
    { rewrite Hc. eapply map_sum_pos; [intros t; unfold when; by destruct (is_waiting _ _)|exact Hw|].
      simpl. by rewrite String.eqb_refl. }
    unfold cancelWaiter. destruct (0 <? _) eqn:E; [|lia].
    rewrite waiting_set, (map_sum_delete _ _ _ _ Hw), <- Hc. simpl.
    unfold when. destruct (String.eqb_spec k key); case_decide; subst; try done; lia.
  - rewrite (map_sum_insert _ _ _ _ _ Hh). simpl. change (waiting_for (release_slot _ _ _ _) key)
      with (waiting_for (sys_il s) key). rewrite Hc. lia.
  - apply Hc.
  - rewrite (map_sum_delete _ _ _ _ Hr). simpl. rewrite Hc. lia.
Qed.

Lemma no_holder s tid key index :
  inv s -> il_active (sys_il s) = "" -> sys_threads s !! tid <> Some (Holding key index).
Proof.
  intros Hinv Ha H. pose proof (inv_holder _ Hinv _ _ _ H) as Hk.
  destruct (inv_index _ Hinv tid key index (or_intror H)) as [_ Hne]. rewrite Ha in Hk. by subst key.
Qed.

Lemma can_acquire_free d key dl now : canAcquireLocked d key dl now = true -> il_active d = "".
Proof.
  unfold canAcquireLocked, str_empty. destruct (String.eqb_spec (il_active d) ""); [done|]. done.
Qed.

Lemma lookup_insert_cases {V} (m : gmap nat V) i x j y :
  <[i := x]> m !! j = Some y -> (i = j /\ x = y) \/ (i <> j /\ m !! j = Some y).
Proof. rewrite lookup_insert_Some. naive_solver. Qed.

Lemma lookup_delete_cases {V} (m : gmap nat V) i j y :
  delete i m !! j = Some y -> i <> j /\ m !! j = Some y.
Proof. by rewrite lookup_delete_Some. Qed.

(** Case analysis on which thread a lookup in the new thread table finds. *)
Ltac thread_cases :=
  repeat match goal with
  | H : <[_ := _]> _ !! _ = Some _ |- _ => apply lookup_insert_cases in H as [[? ?]|[? H]]
  | H : delete _ _ !! _ = Some _ |- _ => apply lookup_delete_cases in H as [? H]
  end; simplify_eq.

Lemma step_index s s' tid key index : inv s -> step s s' ->
  (exists dl, sys_threads s' !! tid = Some (Waiting key index dl)) \/
  sys_threads s' !! tid = Some (Holding key index) ->
  il_orderIndex (sys_il s') !! key = Some index /\ str_empty key = false.
Proof.
  intros Hinv H. pose proof (inv_index _ Hinv) as Hi.
  destruct (step_same_order _ _ H) as [_ ->].
  destruct H; simpl; intros [[dl Hl]|Hl]; thread_cases; eauto 6 using key_nonempty.
Qed.

Lemma step_holder s s' tid key index : inv s -> step s s' ->
  sys_threads s' !! tid = Some (Holding key index) -> il_active (sys_il s') = key.
Proof.
  intros Hinv H Hl. pose proof (inv_holder _ Hinv) as Hh. pose proof (inv_single _ Hinv) as Hs.
  destruct H; simpl in *; thread_cases; eauto.
  - apply can_acquire_free in H0. by destruct (no_holder s tid key index Hinv H0).
  - unfold cancelWaiter. destruct (_ <? _); simpl; eauto.
  - destruct H0. by eapply Hs.
Qed.

Lemma step_single s s' tid tid' k i k' i' : inv s -> step s s' ->
  sys_threads s' !! tid = Some (Holding k i) -> sys_threads s' !! tid' = Some (Holding k' i') -> tid = tid'.
Proof.
  intros Hinv H Hl Hl'. pose proof (inv_single _ Hinv) as Hs.
  destruct H; simpl in *; thread_cases; eauto;
    match goal with Hc : canAcquireLocked _ _ _ _ = true |- _ =>
      apply can_acquire_free in Hc; exfalso; by eapply no_holder end.
Qed.

Lemma step_active s s' : inv s -> step s s' -> il_active (sys_il s') <> "" ->
  exists tid index, sys_threads s' !! tid = Some (Holding (il_active (sys_il s')) index).
Proof.
  intros Hinv H Hne. pose proof (inv_active _ Hinv) as Ha. pose proof (inv_holder _ Hinv) as Hh.
  destruct H as [s tid chain network index now k d Hnone Hidx|s tid k index dl now Hw Hcan|s tid k index dl Hw
                |s tid k index committed Hhold|s tid k index Hr|s tid k index Hr]; simpl in *.
  - destruct (Ha Hne) as (t & i & Ht). exists t, i. rewrite lookup_insert_ne by congruence. done.
  - exists tid, index. apply lookup_insert_eq.
  - assert (Hact : il_active (cancelWaiter (sys_il s) k) = il_active (sys_il s))
      by (unfold cancelWaiter; by destruct (_ <? _)).
    rewrite Hact in *. destruct (Ha Hne) as (t & i & Ht). exists t, i.
    rewrite lookup_delete_ne by congruence. done.
  - by rewrite (Hh _ _ _ Hhold), String.eqb_refl in Hne.
  - by apply Ha.
  - destruct (Ha Hne) as (t & i & Ht). exists t, i. rewrite lookup_delete_ne by congruence. done.
Qed.

Lemma step_inv s s' : inv s -> step s s' -> inv s'.
Proof.
  intros Hinv H. split.
  - intros i. destruct (step_same_order _ _ H) as [-> ->]. apply (inv_order _ Hinv).
  - by apply (step_next s).
  - intros. by eapply step_index.
  - intros. by apply (step_count s).
  - intros. by eapply step_holder.
  - intros. by eapply step_single.
  - by apply (step_active s).
Qed.

Lemma reachable_inv targets skew s : reachable targets skew s -> inv s.
Proof. induction 1; [apply initial_inv|by eapply step_inv]. Qed.

(** ** Theorems *)

Definition preferred (d : interleaver) : option string := il_order d !! il_next d.

(** C17: The commit slot is exclusive: in every reachable state at most one thread
    holds it, the slot is marked with that thread's chain and is free exactly
    when nobody holds it, and the waiting counters count the waiting threads. *)
Theorem interleaver_exclusive (targets : list (Chain * Network)) (skew : Z) (s : system)
    (Hs : reachable targets skew s) :
  (forall tid tid' k i k' i', sys_threads s !! tid = Some (Holding k i) ->
     sys_threads s !! tid' = Some (Holding k' i') -> tid = tid') /\
  (forall tid k i, sys_threads s !! tid = Some (Holding k i) -> il_active (sys_il s) = k) /\
  (il_active (sys_il s) = "" <-> forall tid k i, sys_threads s !! tid <> Some (Holding k i)) /\
  (forall key, waiting_for (sys_il s) key = waiters s key).
Proof.
  apply reachable_inv in Hs. split_and!.
  - intros. by eapply (inv_single _ Hs).
  - intros. by eapply (inv_holder _ Hs).
  - split; [intros; by apply no_holder|]. intros Hno.
    destruct (decide (il_active (sys_il s) = "")) as [|Hne]; [done|].
    destruct (inv_active _ Hs Hne) as (tid & i & H). by destruct (Hno _ _ _ H).
  - apply (inv_count _ Hs).
Qed.

(** C18: Commits take turns: a chain commits out of turn only when no thread of the
    chain whose turn it is waits, and then, if a skew bound is set, only after
    its own deadline; a committed release passes the turn to the chain after it. *)
Theorem interleaver_turns (targets : list (Chain * Network)) (skew : Z) (s : system)
    (Hs : reachable targets skew s) :
  (forall tid key index deadline now,
     sys_threads s !! tid = Some (Waiting key index deadline) ->
     canAcquireLocked (sys_il s) key deadline now = true ->
     exists p, preferred (sys_il s) = Some p /\
       (key = p \/ (waiters s p = 0 /\ match deadline with None => True | Some t => t <= now end))) /\
  (forall tid key index, sys_threads s !! tid = Some (Holding key index) ->
     il_order (sys_il s) !! index = Some key /\
     preferred (release_slot (sys_il s) key index true) =
       il_order (sys_il s) !! ((index + 1) mod length (il_order (sys_il s)))%nat).
Proof.
  apply reachable_inv in Hs. split.
  - intros tid key index deadline now _ Hcan. unfold canAcquireLocked in Hcan.
    destruct (negb _); [done|]. unfold preferred. destruct (il_order _ !! _) as [p|]; [|done].
    exists p. split; [done|]. destruct (String.eqb_spec key p); [by left|right].
    destruct (0 <? _) eqn:E; [done|]. rewrite (inv_count _ Hs) in E.
    assert (0 <= waiters s p) by (apply map_sum_nonneg; intros t; unfold when; by destruct (is_waiting _ _)).
    split; [lia|]. destruct deadline; [lia|done].
  - intros tid key index H. destruct (inv_index _ Hs tid key index (or_intror H)) as [Hidx _].
    destruct (inv_order _ Hs key) as [?|(n & Hn & Ho)]; [congruence|].
    rewrite Hidx in Hn. injection Hn as <-. split; [done|]. unfold preferred. simpl.
    destruct (il_order (sys_il s)) eqn:E; [done|]. done.
Qed.

(** Also: No deadlock: whenever the slot is free and some thread waits, from some
    time on a waiting thread can take it. *)
Theorem interleaver_progress (targets : list (Chain * Network)) (skew : Z) (s : system)
    (Hs : reachable targets skew s)
    (Hfree : il_active (sys_il s) = "")
    (Hwait : exists tid key index deadline, sys_threads s !! tid = Some (Waiting key index deadline)) :
  exists t0, forall now, t0 <= now ->
    exists tid key index deadline, sys_threads s !! tid = Some (Waiting key index deadline) /\
      canAcquireLocked (sys_il s) key deadline now = true.
Proof.
  apply reachable_inv in Hs. destruct Hwait as (tid & key & index & deadline & Hw).
  destruct (inv_index _ Hs tid key index) as [Hidx _]; [eauto|].
  destruct (inv_order _ Hs key) as [?|(n & Hn & Ho)]; [congruence|].
  assert (Hlt : (il_next (sys_il s) < length (il_order (sys_il s)))%nat).
  { apply (inv_next _ Hs). intros E. by rewrite E in Ho. }
  apply lookup_lt_is_Some in Hlt as [p Hp].
  exists (default 0 deadline). intros now Hnow. unfold canAcquireLocked. rewrite Hfree, Hp. simpl.
  destruct (decide (0 < waiters s p)) as [Hpos|Hzero].
  - apply map_sum_zero_pos in Hpos as (tid' & t & Ht & Hpos);
      [|intros t; unfold when; by destruct (is_waiting _ _)].
    destruct t as [k i dl|k i|k i]; simpl in Hpos; try lia.
    exists tid', k, i, dl. split; [done|]. destruct (String.eqb k p); [done|simpl in Hpos; lia].
  - exists tid, key, index, deadline. split; [done|]. destruct (String.eqb key p); [done|].
    rewrite (inv_count _ Hs). destruct (0 <? _) eqn:E; [lia|]. destruct deadline; simpl in *; lia || done.
Qed.

(** A run: base waits, solana's turn is first but nobody waits for it. *)
Definition run1 : system :=
  let s0 := initial [(ChainSolana, NetworkDevnet); (ChainBase, NetworkSepolia)] 0 in
  {| sys_il := set_waiting (sys_il s0) "base-sepolia" 1;
     sys_threads := <[7%nat := Waiting "base-sepolia" 1 None]> ∅ |}.

Lemma run1_reachable : reachable [(ChainSolana, NetworkDevnet); (ChainBase, NetworkSepolia)] 0 run1.
Proof.
  eapply reach_step; [apply reach_init|].
  exact (step_register (initial [(ChainSolana, NetworkDevnet); (ChainBase, NetworkSepolia)] 0)
           7 ChainBase NetworkSepolia 1 0 eq_refl eq_refl).
Qed.

Definition run2 : system :=
  {| sys_il := take_slot (sys_il run1) "base-sepolia";
     sys_threads := <[7%nat := Holding "base-sepolia" 1]> (sys_threads run1) |}.

Lemma run2_reachable : reachable [(ChainSolana, NetworkDevnet); (ChainBase, NetworkSepolia)] 0 run2.
Proof.
  eapply reach_step; [apply run1_reachable|].
  exact (step_acquire run1 7 "base-sepolia" 1 None 0 eq_refl eq_refl).
Qed.

Lemma interleaver_exclusive_witness :
  il_active (sys_il run2) = "base-sepolia"%string /\ waiting_for (sys_il run2) "base-sepolia" = 0.
Proof.
  pose proof (interleaver_exclusive _ _ run2 run2_reachable) as (_ & H & _ & Hw).
  split; [exact (H 7%nat "base-sepolia"%string 1%nat eq_refl)|].
  rewrite Hw. vm_compute. reflexivity.
Defined.

Lemma interleaver_turns_witness :
  preferred (release_slot (sys_il run2) "base-sepolia" 1 true) = Some "solana-devnet"%string.
Proof.
  pose proof (interleaver_turns _ _ run2 run2_reachable) as [_ H].
  exact (proj2 (H 7%nat "base-sepolia"%string 1%nat eq_refl)).
Defined.

Lemma interleaver_progress_witness :
  exists t0, forall now, t0 <= now ->
    exists tid key index deadline, sys_threads run1 !! tid = Some (Waiting key index deadline) /\
      canAcquireLocked (sys_il run1) key deadline now = true.
Proof.
  refine (interleaver_progress _ _ run1 run1_reachable eq_refl _).
  exists 7%nat, "base-sepolia"%string, 1%nat, None. reflexivity.
Defined.
