(* ===== verification/Breaker.v ===== *)
(** * Circuit breaker: [internal/circuitbreaker/breaker.go]

    Every method runs under the breaker's mutex, so an execution is a sequence
    of operations, each with the clock value it read.  The calls of
    [OnStateChange] are recorded in [br_changes], oldest first.  The counters
    stay far below the range of [int]: they grow by one per call. *)

From Stdlib Require Import ZArith String Lia.
From stdpp Require Import base option list strings.
From S2P Require Import Prelude Retry.

Open Scope Z_scope.

Inductive State := StateClosed | StateOpen | StateHalfOpen.

#[export] Instance State_eq_dec : EqDecision State.
Proof. solve_decision. Defined.

Definition State_String (s : State) : string :=
  match s with StateClosed => "closed" | StateOpen => "open" | StateHalfOpen => "half-open" end.

Record Config := {
  cfg_FailureThreshold : Z;
  cfg_SuccessThreshold : Z;
  cfg_OpenTimeout : Z
}.

Record Breaker := {
  br_state : State;
  br_failureCount : Z;
  br_successCount : Z;
  br_failureThreshold : Z;
  br_successThreshold : Z;
  br_openTimeout : Z;
  br_lastFailureAt : Z;
  br_changes : list (State * State)
}.

Definition ErrCircuitOpen : go_error := EMsg "circuit breaker is open".

Definition New (cfg : Config) : Breaker :=
  {| br_state := StateClosed; br_failureCount := 0; br_successCount := 0;
     br_failureThreshold := if cfg_FailureThreshold cfg <=? 0 then 5 else cfg_FailureThreshold cfg;
     br_successThreshold := if cfg_SuccessThreshold cfg <=? 0 then 2 else cfg_SuccessThreshold cfg;
     br_openTimeout := if cfg_OpenTimeout cfg <=? 0 then 30000000000 else cfg_OpenTimeout cfg;
     br_lastFailureAt := 0; br_changes := [] |}.

Definition setState (b : Breaker) (to_ : State) : Breaker :=
  let from := br_state b in
  if decide (from = to_) then b
  else {| br_state := to_;
          br_failureCount := match to_ with StateClosed => 0 | _ => br_failureCount b end;
          br_successCount := 0;
          br_failureThreshold := br_failureThreshold b; br_successThreshold := br_successThreshold b;
          br_openTimeout := br_openTimeout b; br_lastFailureAt := br_lastFailureAt b;
          br_changes := br_changes b ++ [(from, to_)] |}.

Definition set_counts (failures successes lastFailureAt : Z) (b : Breaker) : Breaker :=
  {| br_state := br_state b; br_failureCount := failures; br_successCount := successes;
     br_failureThreshold := br_failureThreshold b; br_successThreshold := br_successThreshold b;
     br_openTimeout := br_openTimeout b; br_lastFailureAt := lastFailureAt;
     br_changes := br_changes b |}.

Definition timed_out (b : Breaker) (now : Z) : bool := br_openTimeout b <? now - br_lastFailureAt b.

Definition Allow (b : Breaker) (now : Z) : option go_error * Breaker :=
  match br_state b with
  | StateClosed => (None, b)
  | StateOpen => if timed_out b now then (None, setState b StateHalfOpen) else (Some ErrCircuitOpen, b)
  | StateHalfOpen => (None, b)
  end.

Definition RecordSuccess (b : Breaker) : Breaker :=
  let b := set_counts 0 (br_successCount b) (br_lastFailureAt b) b in
  match br_state b with
  | StateHalfOpen =>
      let b := set_counts (br_failureCount b) (br_successCount b + 1) (br_lastFailureAt b) b in
      if br_successThreshold b <=? br_successCount b then setState b StateClosed else b
  | _ => b
  end.

Definition RecordFailure (b : Breaker) (now : Z) : Breaker :=
  let b := set_counts (br_failureCount b + 1) 0 now b in
  match br_state b with
  | StateHalfOpen => setState b StateOpen
  | StateClosed => if br_failureThreshold b <=? br_failureCount b then setState b StateOpen else b
  | StateOpen => b
  end.

Definition GetState (b : Breaker) (now : Z) : State * Breaker :=
  let b := match br_state b with
           | StateOpen => if timed_out b now then setState b StateHalfOpen else b
           | _ => b
           end in
  (br_state b, b).

Inductive op := OpAllow | OpSuccess | OpFailure | OpGetState.

Definition run_op (b : Breaker) (o : op * Z) : Breaker :=
  match o.1 with
  | OpAllow => (Allow b o.2).2
  | OpSuccess => RecordSuccess b
  | OpFailure => RecordFailure b o.2
  | OpGetState => (GetState b o.2).2
  end.

Definition run (b : Breaker) (ops : list (op * Z)) : Breaker := foldl run_op b ops.

(** ** The invariant *)

(** The transitions of the diagram in the source's comments. *)
Definition legal (c : State * State) : bool :=
  match c with
  | (StateClosed, StateOpen) | (StateOpen, StateHalfOpen)
  | (StateHalfOpen, StateClosed) | (StateHalfOpen, StateOpen) => true
  | _ => false
  end.

(** Consecutive changes connect, and the last one leads to the present state. *)
Fixpoint connected (from : State) (cs : list (State * State)) : option State :=
  match cs with
  | [] => Some from
  | (a, b) :: cs' => if decide (a = from) then connected b cs' else None
  end.

Record br_inv (b : Breaker) : Prop := {
  bi_thresholds : 0 < br_failureThreshold b /\ 0 < br_successThreshold b /\ 0 < br_openTimeout b;
  bi_failures : 0 <= br_failureCount b /\
                (br_state b = StateClosed -> br_failureCount b < br_failureThreshold b);
  bi_successes : 0 <= br_successCount b < br_successThreshold b /\
                 (br_state b <> StateHalfOpen -> br_successCount b = 0);
  bi_trace : Forall (fun c => legal c = true) (br_changes b) /\
             connected StateClosed (br_changes b) = Some (br_state b)
}.

Lemma connected_snoc from cs a b :
  connected from cs = Some a -> connected from (cs ++ [(a, b)]) = Some b.
Proof.
  revert from; induction cs as [|[x y] cs IH]; intros from; simpl.
  - intros [= ->]. by rewrite decide_True.
  - case_decide; [apply IH|done].
Qed.

Lemma New_inv cfg : br_inv (New cfg).
Proof.
  split; simpl; [| |split; [|done]|by split].
  - repeat case_match; lia.
  - repeat case_match; lia.
  - repeat case_match; lia.
Qed.

Lemma setState_inv b to_ :
  br_inv b -> legal (br_state b, to_) = true ->
  br_inv (setState b to_).
Proof.
  intros [Ht Hf Hs [Hl Hc]] Hlegal. unfold setState.
  case_decide as Heq; [by split|]. split; simpl; [done| |split; [lia|done]|].
  - destruct to_; simpl; [lia| |]; (split; [lia|done]).
  - split; [apply Forall_app; auto|by apply connected_snoc].
Qed.

(** [set_counts] keeps the invariant when the new counts fit it. *)
Lemma set_counts_inv b f s t :
  br_inv b -> 0 <= f -> (br_state b = StateClosed -> f < br_failureThreshold b) ->
  0 <= s < br_successThreshold b -> (br_state b <> StateHalfOpen -> s = 0) ->
  br_inv (set_counts f s t b).
Proof. intros [Ht Hf Hs Htr] ? ? ? ?. by split. Qed.

Lemma RecordSuccess_inv b : br_inv b -> br_inv (RecordSuccess b).
Proof.
  intros Hb. pose proof Hb as [[Ht1 [Ht2 Ht3]] Hf [[Hs1 Hs2] Hs3] [Hl Hc]].
  unfold RecordSuccess. cbn [br_state set_counts].
  destruct (br_state b) eqn:Es; [apply set_counts_inv; rewrite ?Es; auto; lia..|].
  cbn [br_successThreshold br_successCount br_failureCount set_counts].
  destruct (_ <=? _) eqn:E.
  - (* the counts are out of range for one moment, before [setState] resets them *)
    unfold setState. simpl. rewrite Es. simpl. split; simpl; [done|lia|split; [lia|done]|].
    split; [apply Forall_app; auto|by apply connected_snoc].
  - apply set_counts_inv; simpl; rewrite ?Es; try done; [|lia].
    apply set_counts_inv; rewrite ?Es; auto; lia.
Qed.

Lemma RecordFailure_inv b now : br_inv b -> br_inv (RecordFailure b now).
Proof.
  intros Hb. pose proof Hb as [[Ht1 [Ht2 Ht3]] Hf [[Hs1 Hs2] Hs3] [Hl Hc]].
  unfold RecordFailure. cbn [br_state set_counts].
  destruct (br_state b) eqn:Es; cbn [br_failureThreshold br_failureCount set_counts].
  - destruct (_ <=? _) eqn:E.
    + unfold setState. simpl. rewrite Es. simpl. split; simpl; [done|split; [lia|done]|split; [lia|done]|].
      split; [apply Forall_app; auto|by apply connected_snoc].
    + apply set_counts_inv; rewrite ?Es; auto; lia.
  - apply set_counts_inv; rewrite ?Es; auto; try done; lia.
  - apply setState_inv; simpl; rewrite ?Es; [|done]. apply set_counts_inv; rewrite ?Es; auto; try done; lia.
Qed.

Lemma run_op_inv b o : br_inv b -> br_inv (run_op b o).
Proof.
  intros Hb. destruct o as [[] now]; unfold run_op; simpl.
  - unfold Allow. destruct (br_state b) eqn:Es; [done| |done].
    destruct (timed_out b now); [|done]. apply setState_inv; [done|by rewrite Es].
  - by apply RecordSuccess_inv.
  - by apply RecordFailure_inv.
  - unfold GetState. destruct (br_state b) eqn:Es; [done| |done]. simpl.
    destruct (timed_out b now); [|done]. apply setState_inv; [done|by rewrite Es].
Qed.

Lemma run_inv b ops : br_inv b -> br_inv (run b ops).
Proof. revert b; induction ops as [|o ops IH]; intros b Hb; [done|]. apply IH. by apply run_op_inv. Qed.

(** The configuration never changes. *)
Definition same_config (b b' : Breaker) : Prop :=
  br_failureThreshold b' = br_failureThreshold b /\ br_successThreshold b' = br_successThreshold b /\
  br_openTimeout b' = br_openTimeout b.

Lemma setState_config b s : same_config b (setState b s).
Proof. unfold setState. by case_decide. Qed.

Lemma run_op_config b o : same_config b (run_op b o).
Proof.
  assert (Htrans : forall b1 b2 b3, same_config b1 b2 -> same_config b2 b3 -> same_config b1 b3)
    by (unfold same_config; intros; intuition congruence).
  destruct o as [[] now]; unfold run_op, Allow, RecordSuccess, RecordFailure, GetState; simpl;
    repeat case_match; simpl; try done; try apply setState_config;
    (eapply Htrans; [|apply setState_config]; done).
Qed.

Lemma run_config b ops : same_config b (run b ops).
Proof.
  revert b; induction ops as [|o ops IH]; intros b; [done|].
  change (run b (o :: ops)) with (run (run_op b o) ops).
  destruct (run_op_config b o) as (? & ? & ?), (IH (run_op b o)) as (? & ? & ?).
  unfold same_config. split_and!; congruence.
Qed.

Definition failures (times : list Z) : list (op * Z) := (fun t => (OpFailure, t)) <$> times.

Lemma failures_stay_open b times : br_state b = StateOpen -> br_state (run b (failures times)) = StateOpen.
Proof.
  revert b; induction times as [|t times IH]; intros b Hb; [done|].
  apply (IH (RecordFailure b t)). unfold RecordFailure. simpl. by rewrite Hb.
Qed.

Lemma failures_from_closed b times :
  br_state b = StateClosed -> br_failureCount b < br_failureThreshold b ->
  br_state (run b (failures times)) = StateOpen <->
  br_failureThreshold b - br_failureCount b <= Z.of_nat (length times).
Proof.
  revert b; induction times as [|t times IH]; intros b Hb Hlt.
  - simpl. split; [congruence|lia].
  - change (run b (failures (t :: times))) with (run (RecordFailure b t) (failures times)).
    assert (Hstep : RecordFailure b t = if br_failureThreshold b <=? br_failureCount b + 1
        then setState (set_counts (br_failureCount b + 1) 0 t b) StateOpen
        else set_counts (br_failureCount b + 1) 0 t b).
    { unfold RecordFailure. simpl. by rewrite Hb. }
    rewrite Hstep. simpl length. destruct (_ <=? _) eqn:E.
    + assert (Hopen : br_state (setState (set_counts (br_failureCount b + 1) 0 t b) StateOpen) = StateOpen)
        by (unfold setState; simpl; by rewrite Hb).
      split; [lia|]. intros _. by apply failures_stay_open.
    + rewrite IH by (simpl; auto; lia). simpl. lia.
Qed.

Lemma successes_close b now (n : nat) :
  br_state b = StateHalfOpen -> (0 < n)%nat ->
  br_successCount b + Z.of_nat n = br_successThreshold b ->
  br_state (run b (replicate n (OpSuccess, now))) = StateClosed.
Proof.
  revert b; induction n as [|n IH]; intros b Hb Hn Hc; [lia|].
  change (run b (replicate (S n) (OpSuccess, now))) with (run (RecordSuccess b) (replicate n (OpSuccess, now))).
  unfold RecordSuccess. simpl. rewrite Hb. simpl. destruct (_ <=? _) eqn:E.
  - assert (n = 0%nat) as -> by lia. unfold setState. simpl. by rewrite Hb.
  - apply IH; simpl; [done|lia|lia].
Qed.

(** ** Theorems *)

(** Also: Every reachable breaker is well formed: it only ever takes the legal
    transitions (closed to open, open to half-open, half-open to closed or open),
    reports each of them once and in order, is never closed with the failure
    threshold reached, and never half-open with the success threshold reached. *)
Theorem breaker_reachable (cfg : Config) (ops : list (op * Z)) : br_inv (run (New cfg) ops).
Proof. apply run_inv, New_inv. Qed.

(** Also: What trips the breaker: while it is closed, a run of failures opens it
    exactly when there are at least [failureThreshold - failureCount] of them;
    an open breaker rejects calls until [openTimeout] after the last failure and
    then lets them through as half-open; a failed probe reopens it, and
    [successThreshold] successful probes in a row close it. *)
Theorem breaker_trips (b : Breaker) (now : Z) (times : list Z)
    (Hb : br_inv b) (Hclosed : br_state b = StateClosed) :
  let opened := run b (failures times) in
  (br_state opened = StateOpen <-> br_failureThreshold b - br_failureCount b <= Z.of_nat (length times)) /\
  (br_state opened = StateOpen ->
     (Allow opened now).1 =
       (if now - br_lastFailureAt opened <=? br_openTimeout b then Some ErrCircuitOpen else None) /\
     (now - br_lastFailureAt opened > br_openTimeout b ->
        let probing := (Allow opened now).2 in
        br_state probing = StateHalfOpen /\
        br_state (RecordFailure probing now) = StateOpen /\
        br_state (run probing (replicate (Z.to_nat (br_successThreshold b)) (OpSuccess, now))) = StateClosed)).
Proof.
  intros opened.
  destruct (run_config b (failures times)) as (_ & Hst & Hot). fold opened in Hst, Hot.
  split; [apply failures_from_closed; [done|by apply (bi_failures _ Hb)]|].
  intros Hopen. unfold Allow, timed_out. rewrite Hopen, Hot.
  split; [destruct (_ <? _) eqn:E1, (_ <=? _) eqn:E2; simpl; done || lia|].
  intros Hlate. destruct (_ <? _) eqn:E; [|lia]. simpl.
  assert (Hset : br_state (setState opened StateHalfOpen) = StateHalfOpen /\
                 br_successCount (setState opened StateHalfOpen) = 0 /\
                 br_successThreshold (setState opened StateHalfOpen) = br_successThreshold b).
  { unfold setState. rewrite Hopen. simpl. auto. }
  destruct Hset as (Hs & Hc & Hthr). pose proof (bi_thresholds _ Hb) as (_ & Hpos & _). split_and!; [done| |].
  - unfold RecordFailure. simpl. rewrite Hs. unfold setState at 1. simpl. by rewrite Hs.
  - apply successes_close; [done|lia|]. rewrite Hc, Hthr. lia.
Qed.

Lemma breaker_trips_witness :
  let b := New {| cfg_FailureThreshold := 3; cfg_SuccessThreshold := 2; cfg_OpenTimeout := 10 |} in
  br_state (run b (failures [1; 2; 3])) = StateOpen.
Proof.
  intros b. refine (proj2 (proj1 (breaker_trips b 4 [1; 2; 3] _ eq_refl)) _).
  - apply New_inv.
  - vm_compute. discriminate.
Defined.
