(* ===== verification/AddressIndex.v ===== *)
(** * Address index: [internal/addressindex] and the table it reads

    Bloom filter, LRU cache and database in three tiers.  The Bloom filter is
    modelled on its words with the FNV-128a double hash of the source; its size
    and hash count come from floating point formulas and are a parameter
    ([sizing]), of which only that both are positive is used.  The cache is any
    instance of the interface [Cache] with its laws. *)

From Stdlib Require Import ZArith String Ascii Lia.
From stdpp Require Import base option list strings gmap fin_maps sorting.
From S2P Require Import Prelude Retry Domain Cache.

Open Scope Z_scope.

(** ** [store/postgres/watched_address_repo.go]

    The rows of [watched_addresses] in order of creation; (chain, network,
    address) is unique. *)
Module WatchedAddressRepo.

Definition table : Type := list WatchedAddress.

Definition key_of (a : WatchedAddress) : Chain * Network * string :=
  (wa_Chain a, wa_Network a, wa_Address a).

Definition of_chain (chain : Chain) (network : Network) (a : WatchedAddress) : bool :=
  String.eqb (wa_Chain a) chain && String.eqb (wa_Network a) network.

Definition GetActive (t : table) (chain : Chain) (network : Network) : list WatchedAddress :=
  filter (fun a => of_chain chain network a && wa_IsActive a = true) t.

Definition set_active (b : bool) (a : WatchedAddress) : WatchedAddress :=
  {| wa_Chain := wa_Chain a; wa_Network := wa_Network a; wa_Address := wa_Address a;
     wa_WalletID := wa_WalletID a; wa_OrganizationID := wa_OrganizationID a; wa_Label := wa_Label a;
     wa_IsActive := b; wa_Source := wa_Source a; wa_BackfillFromBlock := wa_BackfillFromBlock a |}.

Definition set_backfill (b : option Z) (a : WatchedAddress) : WatchedAddress :=
  {| wa_Chain := wa_Chain a; wa_Network := wa_Network a; wa_Address := wa_Address a;
     wa_WalletID := wa_WalletID a; wa_OrganizationID := wa_OrganizationID a; wa_Label := wa_Label a;
     wa_IsActive := wa_IsActive a; wa_Source := wa_Source a; wa_BackfillFromBlock := b |}.

(** An existing row only takes the new [is_active]; a new row has no backfill. *)
Definition Upsert (t : table) (addr : WatchedAddress) : table :=
  if bool_decide (key_of addr ∈ key_of <$> t)
  then (fun a => if decide (key_of a = key_of addr) then set_active (wa_IsActive addr) a else a) <$> t
  else t ++ [set_backfill None addr].

Definition FindByAddress (t : table) (chain : Chain) (network : Network) (address : string)
    : option WatchedAddress :=
  head (filter (fun a => key_of a = (chain, network, address)) t).

Definition backfill_le (a b : WatchedAddress) : Prop :=
  default 0 (wa_BackfillFromBlock a) <= default 0 (wa_BackfillFromBlock b).
#[export] Instance backfill_le_dec a b : Decision (backfill_le a b) := Z_le_dec _ _.

Definition has_backfill (a : WatchedAddress) : bool :=
  match wa_BackfillFromBlock a with Some _ => true | None => false end.

Definition GetPendingBackfill (t : table) (chain : Chain) (network : Network) : list WatchedAddress :=
  merge_sort backfill_le
    (filter (fun a => of_chain chain network a && has_backfill a && wa_IsActive a = true) t).

Definition ClearBackfill (t : table) (chain : Chain) (network : Network) : table :=
  (fun a => if of_chain chain network a && has_backfill a then set_backfill None a else a) <$> t.

Definition SetBackfillFromBlock (t : table) (chain : Chain) (network : Network)
    (addresses : list string) (fromBlock : Z) : table :=
  match addresses with
  | [] => t
  | _ => (fun a => if of_chain chain network a && str_in (wa_Address a) addresses && wa_IsActive a
                   then set_backfill (Some fromBlock) a else a) <$> t
  end.

End WatchedAddressRepo.

(** ** Bloom filter *)

Module Bloom.

Definition offset128 : Z := 0x6c62272e07bb014262b821756295c58d.
Definition prime128 : Z := 2 ^ 88 + 0x13b.

(** [hash/fnv] 128a: xor the byte, then multiply modulo [2^128]. *)
Fixpoint fnv128a (h : Z) (s : string) : Z :=
  match s with
  | EmptyString => h
  | String c s' => fnv128a ((Z.lxor h (byte_of c) * prime128) mod 2 ^ 128) s'
  end.

Definition hash (key : string) : Z * Z :=
  let sum := fnv128a offset128 key in
  let h1 := Z.shiftr sum 64 in
  let h2 := Z.land sum (2 ^ 64 - 1) in
  (h1, if h2 =? 0 then 1 else h2).

Record BloomFilter := {
  bf_bits : list Z;  (* 64-bit words *)
  bf_m : Z;
  bf_k : nat
}.

(** [sizing expectedItems] is the pair (m, k) of the floating point formulas. *)
Definition NewBloomFilter (sizing : Z -> Z * Z) (expectedItems : Z) : BloomFilter :=
  let n := if expectedItems <=? 0 then 1 else expectedItems in
  let '(m, k) := sizing n in
  {| bf_bits := replicate (Z.to_nat ((m + 63) / 64)) 0; bf_m := m;
     bf_k := Z.to_nat (if k <? 1 then 1 else k) |}.

(** [(h1 + uint64(i)*h2) % bf.m] *)
Definition position (bf : BloomFilter) (key : string) (i : nat) : Z :=
  let '(h1, h2) := hash key in wrap_u64 (h1 + wrap_u64 (Z.of_nat i * h2)) mod bf_m bf.

Definition word_of (pos : Z) : nat := Z.to_nat (pos / 64).

Definition set_bit (bits : list Z) (pos : Z) : list Z :=
  alter (fun w => Z.lor w (Z.shiftl 1 (pos mod 64))) (word_of pos) bits.

Definition test_bit (bits : list Z) (pos : Z) : bool :=
  match bits !! word_of pos with
  | Some w => negb (Z.land w (Z.shiftl 1 (pos mod 64)) =? 0)
  | None => false
  end.

Definition Add (bf : BloomFilter) (key : string) : BloomFilter :=
  {| bf_bits := foldl (fun bits i => set_bit bits (position bf key i)) (bf_bits bf) (seq 0 (bf_k bf));
     bf_m := bf_m bf; bf_k := bf_k bf |}.

Definition MayContain (bf : BloomFilter) (key : string) : bool :=
  forallb (fun i => test_bit (bf_bits bf) (position bf key i)) (seq 0 (bf_k bf)).

End Bloom.

(** ** [TieredIndex] *)

Section Tiered.
Import WatchedAddressRepo Bloom.
Context {C : Type} `{!Cache C string (option WatchedAddress)}.
Context (sizing : Z -> Z * Z) (bloomExpectedItems : Z).

Record TieredIndex := {
  ti_blooms : gmap string BloomFilter;
  ti_lru : C
}.

Definition bloomKey (chain : Chain) (network : Network) : string := chain +:+ ":" +:+ network.
Definition lruKey (chain : Chain) (network : Network) (address : string) : string :=
  chain +:+ ":" +:+ network +:+ ":" +:+ address.

Definition NewTieredIndex (lru : C) : TieredIndex := {| ti_blooms := ∅; ti_lru := lru |}.

Definition set_lru (t : TieredIndex) (c : C) : TieredIndex :=
  {| ti_blooms := ti_blooms t; ti_lru := c |}.

(** The result of the repository's query: an error, or a row or nil. *)
Definition repo_find (db_ok : bool) (rows : table) (chain : Chain) (network : Network)
    (address : string) : option (option WatchedAddress) :=
  if db_ok then Some (FindByAddress rows chain network address) else None.

Definition bloom_rejects (t : TieredIndex) (chain : Chain) (network : Network) (key : string) : bool :=
  match ti_blooms t !! bloomKey chain network with
  | Some bf => negb (MayContain bf key)
  | None => false
  end.

Definition is_some {A} (o : option A) : bool := match o with Some _ => true | None => false end.

Definition Contains (now : Z) (db_ok : bool) (rows : table) (t : TieredIndex)
    (chain : Chain) (network : Network) (address : string) : bool * TieredIndex :=
  let key := lruKey chain network address in
  if bloom_rejects t chain network key then (false, t)
  else
    let '(cached, lru) := Get now (ti_lru t) key in
    match cached with
    | Some wa => (is_some wa, set_lru t lru)
    | None =>
        match repo_find db_ok rows chain network address with
        | None => (true, set_lru t lru)
        | Some wa => (is_some wa, set_lru t (Put now lru key wa))
        end
    end.

Definition Lookup (now : Z) (db_ok : bool) (rows : table) (t : TieredIndex)
    (chain : Chain) (network : Network) (address : string) : option WatchedAddress * TieredIndex :=
  let key := lruKey chain network address in
  if bloom_rejects t chain network key then (None, t)
  else
    let '(cached, lru) := Get now (ti_lru t) key in
    match cached with
    | Some wa => (wa, set_lru t lru)
    | None =>
        match repo_find db_ok rows chain network address with
        | None => (None, set_lru t lru)
        | Some wa => (wa, set_lru t (Put now lru key wa))
        end
    end.

Definition bloom_size (addrs : list WatchedAddress) : Z :=
  let size := Z.of_nat (length addrs) * 10 in
  let size := if size <? 1000 then 1000 else size in
  if bloomExpectedItems <? size then bloomExpectedItems else size.

Definition reload_step (now : Z) (chain : Chain) (network : Network) (acc : BloomFilter * C)
    (a : WatchedAddress) : BloomFilter * C :=
  let key := lruKey chain network (wa_Address a) in
  (Add acc.1 key, Put now acc.2 key (Some a)).

Definition Reload (now : Z) (db_ok : bool) (rows : table) (t : TieredIndex)
    (chain : Chain) (network : Network) : option go_error * TieredIndex :=
  if db_ok then
    let addrs := GetActive rows chain network in
    let '(bf, lru) := foldl (reload_step now chain network)
                        (NewBloomFilter sizing (bloom_size addrs), ti_lru t) addrs in
    (None, {| ti_blooms := <[bloomKey chain network := bf]> (ti_blooms t); ti_lru := lru |})
  else (Some (EWrap "reload address index" (EMsg "query failed")), t).
End Tiered.
Arguments TieredIndex : clear implicits.

(** ** The Bloom filter has no false negatives *)

Section BloomFacts.
Import Bloom.

Lemma land_bit w j : 0 <= j -> negb (Z.land w (Z.shiftl 1 j) =? 0) = Z.testbit w j.
Proof.
  intros Hj. rewrite Z.shiftl_1_l. destruct (Z.testbit w j) eqn:Et.
  - apply negb_true_iff, Z.eqb_neq. intros H0.
    apply (f_equal (fun z => Z.testbit z j)) in H0.
    rewrite Z.land_spec, Et, Z.pow2_bits_true, Z.bits_0 in H0 by done. done.
  - apply negb_false_iff, Z.eqb_eq. apply Z.bits_inj'. intros n Hn. rewrite Z.land_spec, Z.bits_0.
    destruct (decide (n = j)) as [->|Hne]; [by rewrite Et|].
    rewrite Z.pow2_bits_false, andb_false_r by lia. done.
Qed.

Lemma test_bit_spec bits pos :
  test_bit bits pos = match bits !! word_of pos with
                      | Some w => Z.testbit w (pos mod 64)
                      | None => false
                      end.
Proof.
  unfold test_bit. destruct (bits !! _); [|done]. apply land_bit. apply Z.mod_pos_bound. lia.
Qed.

Lemma set_bit_length bits pos : length (set_bit bits pos) = length bits.
Proof. apply length_alter. Qed.

Lemma set_bit_same bits pos : (word_of pos < length bits)%nat -> test_bit (set_bit bits pos) pos = true.
Proof.
  intros Hlt. rewrite test_bit_spec. unfold set_bit. apply lookup_lt_is_Some in Hlt as [w Hw].
  rewrite list_lookup_alter_eq, Hw. simpl. rewrite Z.lor_spec, Z.shiftl_1_l, Z.pow2_bits_true, orb_true_r; [done|].
  apply Z.mod_pos_bound. lia.
Qed.

Lemma set_bit_keeps bits p q : test_bit bits p = true -> test_bit (set_bit bits q) p = true.
Proof.
  rewrite !test_bit_spec. unfold set_bit. destruct (decide (word_of q = word_of p)) as [->|Hne].
  - rewrite list_lookup_alter_eq. destruct (bits !! word_of p); [|done]. simpl. intros H.
    by rewrite Z.lor_spec, H.
  - by rewrite list_lookup_alter_ne.
Qed.

Lemma set_bits_keeps (f : nat -> Z) (l : list nat) bits p :
  test_bit bits p = true -> test_bit (foldl (fun b i => set_bit b (f i)) bits l) p = true.
Proof. revert bits; induction l as [|i l IH]; intros bits H; [done|]. apply IH. by apply set_bit_keeps. Qed.

Lemma set_bits_length (f : nat -> Z) (l : list nat) bits :
  length (foldl (fun b i => set_bit b (f i)) bits l) = length bits.
Proof. revert bits; induction l as [|i l IH]; intros bits; [done|]. simpl. by rewrite IH, set_bit_length. Qed.

Lemma set_bits_all (f : nat -> Z) (l : list nat) bits i :
  i ∈ l -> (forall j, j ∈ l -> word_of (f j) < length bits)%nat ->
  test_bit (foldl (fun b j => set_bit b (f j)) bits l) (f i) = true.
Proof.
  revert bits; induction l as [|x l IH]; intros bits Hi Hlt; [set_solver|]. simpl.
  apply elem_of_cons in Hi as [->|Hi].
  - apply set_bits_keeps, set_bit_same. apply Hlt. set_solver.
  - apply IH; [done|]. intros j Hj. rewrite set_bit_length. apply Hlt. set_solver.
Qed.

(** Every position falls into the words. *)
Definition bloom_ok (bf : BloomFilter) : Prop :=
  0 < bf_m bf /\ Z.of_nat (length (bf_bits bf)) = (bf_m bf + 63) / 64.

Lemma position_in bf key i : bloom_ok bf -> (word_of (position bf key i) < length (bf_bits bf))%nat.
Proof.
  intros [Hm Hlen]. unfold position, word_of. destruct (hash key) as [h1 h2].
  pose proof (Z.mod_pos_bound (wrap_u64 (h1 + wrap_u64 (Z.of_nat i * h2))) (bf_m bf) Hm) as Hp.
  set (p := _ mod bf_m bf) in *.
  assert (p / 64 < (bf_m bf + 63) / 64).
  { apply Z.div_lt_upper_bound; [lia|].
    pose proof (Z.mul_div_le (bf_m bf + 63) 64 ltac:(lia)).
    pose proof (Z.mod_pos_bound (bf_m bf + 63) 64 ltac:(lia)).
    pose proof (Z.div_mod (bf_m bf + 63) 64 ltac:(lia)). lia. }
  pose proof (Z.div_pos p 64 ltac:(lia) ltac:(lia)). lia.
Qed.

Lemma NewBloomFilter_ok sizing n : (forall x, 0 < x -> 0 < (sizing x).1) -> bloom_ok (NewBloomFilter sizing n).
Proof.
  intros Hs. unfold NewBloomFilter.
  specialize (Hs (if n <=? 0 then 1 else n) ltac:(destruct (n <=? 0) eqn:E; lia)).
  destruct (sizing _) as [m k]. simpl in *. split; [done|]. simpl. rewrite length_replicate.
  rewrite Z2Nat.id; [done|]. apply Z.div_pos; lia.
Qed.

Lemma Add_ok bf key : bloom_ok bf -> bloom_ok (Add bf key).
Proof. intros [Hm Hlen]. split; [done|]. simpl. by rewrite set_bits_length. Qed.

Lemma Add_contains bf key : bloom_ok bf -> MayContain (Add bf key) key = true.
Proof.
  intros Hok. unfold MayContain. apply forallb_forall. intros i Hi%list_elem_of_In. simpl in *.
  apply (set_bits_all (position bf key)); [done|]. intros j _. by apply position_in.
Qed.

Lemma Add_keeps bf key key' : MayContain bf key = true -> MayContain (Add bf key') key = true.
Proof.
  unfold MayContain. rewrite !forallb_forall. intros H i Hi. simpl in *.
  apply set_bits_keeps. by apply H.
Qed.

Lemma Add_all_contains bf keys key :
  bloom_ok bf -> key ∈ keys -> MayContain (foldl Add bf keys) key = true.
Proof.
  revert bf; induction keys as [|k keys IH]; intros bf Hok Hin; [set_solver|]. simpl.
  apply elem_of_cons in Hin as [->|Hin]; [|by apply IH; [apply Add_ok|]].
  pose proof (Add_contains bf k Hok) as Hc. revert Hc. generalize (Add bf k). clear.
  induction keys as [|k' keys IH]; intros bf H; [done|]. simpl. apply IH. by apply Add_keeps.
Qed.
End BloomFacts.

(** Also: The Bloom filter never rejects a key that was added, whatever else was
    added before or after and however the size formulas round, as long as they
    give a positive number of bits. *)
Theorem bloom_no_false_negatives (sizing : Z -> Z * Z) (n : Z) (keys : list string) (key : string)
    (Hsize : forall x, 0 < x -> 0 < (sizing x).1) (Hin : key ∈ keys) :
  Bloom.MayContain (foldl Bloom.Add (Bloom.NewBloomFilter sizing n) keys) key = true.
Proof. apply Add_all_contains; [by apply NewBloomFilter_ok|done]. Qed.

Lemma bloom_no_false_negatives_witness :
  Bloom.MayContain (foldl Bloom.Add (Bloom.NewBloomFilter (fun x => (15 * x, 10)) 4)
                      ["base:mainnet:0xaa"; "base:mainnet:0xbb"]) "base:mainnet:0xbb" = true /\
  Bloom.MayContain (foldl Bloom.Add (Bloom.NewBloomFilter (fun x => (15 * x, 10)) 4)
                      ["base:mainnet:0xaa"; "base:mainnet:0xbb"]) "base:mainnet:0xcc" = false.
Proof.
  split; [|vm_compute; reflexivity].
  apply (bloom_no_false_negatives (fun x => (15 * x, 10)) 4 ["base:mainnet:0xaa"; "base:mainnet:0xbb"]).
  - intros x Hx. simpl. lia.
  - apply (bool_decide_unpack _). vm_compute. exact I.
Defined.

(** ** The tiers agree with the table *)

Section TieredFacts.
Import WatchedAddressRepo Bloom.
Context {C : Type} `{CL : CacheLaws C string (option WatchedAddress)}.
Context (chain : Chain) (network : Network) (rows : table).
Context (Hunique : NoDup (key_of <$> rows)).

Abbreviation idx := (TieredIndex C).
Abbreviation lkey := (lruKey chain network).

Lemma lruKey_inj a b : lkey a = lkey b -> a = b.
Proof. unfold lruKey. intros Heq. by do 4 apply append_cancel in Heq. Qed.

Lemma find_first (a : WatchedAddress) (l : list WatchedAddress) :
  NoDup (key_of <$> l) -> a ∈ l -> head (filter (fun b => key_of b = key_of a) l) = Some a.
Proof.
  induction l as [|r rs IH]; [set_solver|]. rewrite fmap_cons. intros [Hr Hrs]%NoDup_cons Ha.
  apply elem_of_cons in Ha as [->|Ha]; [by rewrite filter_cons_True|].
  rewrite filter_cons_False; [by apply IH|]. intros Heq. apply Hr. rewrite Heq. by apply list_elem_of_fmap_2.
Qed.

Lemma find_active a :
  a ∈ GetActive rows chain network -> FindByAddress rows chain network (wa_Address a) = Some a.
Proof.
  unfold GetActive. rewrite list_elem_of_filter. intros [[Hc _]%andb_true_iff Ha].
  unfold of_chain in Hc. apply andb_true_iff in Hc as [<-%String.eqb_eq <-%String.eqb_eq].
  by apply find_first.
Qed.

(** At time [t] and after: what is cached is what the table says, and the
    filter accepts every active address. *)
Record coherent (t : Z) (x : idx) : Prop := {
  co_ok : cache_ok (ti_lru x);
  co_lru now a v : t <= now -> holds now (ti_lru x) (lkey a) = Some v ->
                   v = FindByAddress rows chain network a;
  co_bloom bf a : ti_blooms x !! bloomKey chain network = Some bf ->
                  a ∈ GetActive rows chain network -> MayContain bf (lkey (wa_Address a)) = true
}.

Lemma coherent_new t lru :
  cache_ok lru -> (forall now k, holds now lru k = None) -> coherent t (NewTieredIndex lru).
Proof.
  intros Hok Hempty. split; [done| |].
  - intros now a v _ Hh. simpl in Hh. by rewrite Hempty in Hh.
  - intros bf a Hb. simpl in Hb. by rewrite lookup_empty in Hb.
Qed.

Lemma coherent_later t t' x : t <= t' -> coherent t x -> coherent t' x.
Proof. intros Ht [H1 H2 H3]. split; [done| |done]. intros now a v Hn. apply H2. lia. Qed.

Lemma coherent_get t x key :
  coherent t x -> coherent t (set_lru x (Get t (ti_lru x) key).2).
Proof.
  intros [H1 H2 H3]. split; [by apply get_ok| |done]. intros now a v Hn Hh.
  simpl in Hh. rewrite get_keeps in Hh by done. by eapply H2.
Qed.

Lemma coherent_put t x a :
  coherent t x ->
  coherent t (set_lru x (Put t (ti_lru x) (lkey a) (FindByAddress rows chain network a))).
Proof.
  intros [H1 H2 H3]. split; [by apply put_ok| |done]. intros now a' v Hn Hh. simpl in Hh.
  apply put_no_invention in Hh as [[Hk ->]|[_ Hh]]; [|by eapply H2|done].
  apply lruKey_inj in Hk as ->. done.
Qed.

(** What a lookup answers in a coherent index. *)
Lemma Lookup_coherent t x db_ok a :
  coherent t x ->
  coherent t (Lookup t db_ok rows x chain network a).2 /\
  (forall wa, (Lookup t db_ok rows x chain network a).1 = Some wa ->
              FindByAddress rows chain network a = Some wa) /\
  (forall wa, wa ∈ GetActive rows chain network -> wa_Address wa = a -> db_ok = true ->
              (Lookup t db_ok rows x chain network a).1 = Some wa).
Proof.
  intros Hco. pose proof (coherent_get t x (lkey a) Hco) as Hget.
  pose proof (get_holds t (ti_lru x) (lkey a) (co_ok _ _ Hco)) as Hh.
  unfold Lookup, bloom_rejects. destruct (ti_blooms x !! _) as [bf|] eqn:Eb.
  destruct (MayContain bf (lkey a)) eqn:Em; simpl.
  2:{ split_and!; [done|done|]. intros wa Hwa <- _. by rewrite (co_bloom _ _ Hco bf wa Eb Hwa) in Em. }
  all: destruct (Get t (ti_lru x) (lkey a)) as [cached lru] eqn:Eg; simpl in *.
  all: destruct cached as [v|];
    [symmetry in Hh; apply (co_lru _ _ Hco) in Hh as ->; [|apply Z.le_refl]; split_and!; [done|done|];
     intros wa Hwa <- _; by apply find_active|].
  all: unfold repo_find; destruct db_ok; simpl; (split_and!; [|done|]).
  all: try done; try (apply (coherent_put t (set_lru x lru) a Hget)).
  all: intros wa Hwa <- _; by apply find_active.
Qed.

Lemma Contains_coherent t x db_ok a :
  coherent t x ->
  coherent t (Contains t db_ok rows x chain network a).2 /\
  (forall wa, wa ∈ GetActive rows chain network -> wa_Address wa = a ->
              (Contains t db_ok rows x chain network a).1 = true).
Proof.
  intros Hco. pose proof (coherent_get t x (lkey a) Hco) as Hget.
  pose proof (get_holds t (ti_lru x) (lkey a) (co_ok _ _ Hco)) as Hh.
  unfold Contains, bloom_rejects. destruct (ti_blooms x !! _) as [bf|] eqn:Eb.
  destruct (MayContain bf (lkey a)) eqn:Em; simpl.
  2:{ split; [done|]. intros wa Hwa <-. by rewrite (co_bloom _ _ Hco bf wa Eb Hwa) in Em. }
  all: destruct (Get t (ti_lru x) (lkey a)) as [cached lru] eqn:Eg; simpl in *.
  all: destruct cached as [v|];
    [symmetry in Hh; apply (co_lru _ _ Hco) in Hh as ->; [|apply Z.le_refl]; split; [done|];
     intros wa Hwa <-; by rewrite find_active|].
  all: unfold repo_find; destruct db_ok; simpl; (split; [|try done]).
  all: try done; try (apply (coherent_put t (set_lru x lru) a Hget)).
  all: intros wa Hwa <-; by rewrite find_active.
Qed.

Context (sizing : Z -> Z * Z) (bloomExpectedItems : Z).
Context (Hsize : forall x, 0 < x -> 0 < (sizing x).1).

Lemma reload_fold t l bf lru (x : idx) :
  (forall a, a ∈ l -> a ∈ GetActive rows chain network) ->
  coherent t (set_lru x lru) ->
  (foldl (reload_step t chain network) (bf, lru) l).1 = foldl Add bf ((fun a => lkey (wa_Address a)) <$> l) /\
  coherent t (set_lru x (foldl (reload_step t chain network) (bf, lru) l).2).
Proof.
  revert bf lru; induction l as [|a l IH]; intros bf lru Hl Hco; [done|]. simpl.
  apply IH; [set_solver|]. rewrite <- (find_active a) by (apply Hl; set_solver).
  by apply (coherent_put t (set_lru x lru)).
Qed.

Lemma Reload_coherent t x db_ok :
  coherent t x -> coherent t (Reload sizing bloomExpectedItems t db_ok rows x chain network).2.
Proof.
  intros Hco. unfold Reload. destruct db_ok; [|done].
  set (addrs := GetActive rows chain network). set (bf0 := NewBloomFilter _ _).
  destruct (reload_fold t addrs bf0 (ti_lru x) x) as [Hbf Hco']; [done|by destruct x|].
  destruct (foldl _ _ _) as [bf lru]. simpl in *. subst bf. destruct Hco' as [H1 H2 H3].
  split; [done|exact H2|]. intros bf a. simpl. rewrite lookup_insert_eq. intros [= <-] Ha.
  apply Add_all_contains; [by apply NewBloomFilter_ok|].
  by apply (list_elem_of_fmap_2 (fun a => lkey (wa_Address a))).
Qed.

(** Operations on an unchanging table, each some time after the one before. *)
Inductive index_op := DoContains (a : string) | DoLookup (a : string) | DoReload.

Definition index_step (tx : Z * idx) (o : index_op * (bool * N)) : Z * idx :=
  let '(op, (db_ok, elapsed)) := o in
  let t := tx.1 + Z.of_N elapsed in
  (t, match op with
      | DoContains a => (Contains t db_ok rows tx.2 chain network a).2
      | DoLookup a => (Lookup t db_ok rows tx.2 chain network a).2
      | DoReload => (Reload sizing bloomExpectedItems t db_ok rows tx.2 chain network).2
      end).

Lemma run_coherent ops tx :
  coherent tx.1 tx.2 ->
  coherent (foldl index_step tx ops).1 (foldl index_step tx ops).2.
Proof.
  revert tx; induction ops as [|[op [db_ok n]] ops IH]; intros [t x] Hco; [done|]. apply IH. simpl in *.
  assert (Hco' : coherent (t + Z.of_N n) x) by (eapply coherent_later; [|exact Hco]; lia).
  destruct op; [by apply Contains_coherent|by apply Lookup_coherent|by apply Reload_coherent].
Qed.
End TieredFacts.

(** ** The table keeps its key unique *)

Section TableFacts.
Import WatchedAddressRepo.

Lemma Upsert_unique rows a : NoDup (key_of <$> rows) -> NoDup (key_of <$> Upsert rows a).
Proof.
  intros Hu. unfold Upsert. case_bool_decide as Hin.
  - rewrite <- list_fmap_compose. erewrite list_fmap_ext; [exact Hu|].
    intros i r _. simpl. by case_decide.
  - rewrite fmap_app, fmap_cons, fmap_nil. apply NoDup_app. split_and!; [done| |apply NoDup_singleton].
    intros k Hk. rewrite list_elem_of_singleton. by intros ->.
Qed.

Lemma Upserts_unique (l : list WatchedAddress) : NoDup (key_of <$> foldl Upsert [] l).
Proof.
  assert (H : forall rows, NoDup (key_of <$> rows) -> NoDup (key_of <$> foldl Upsert rows l)).
  { induction l as [|a l IH]; intros rows Hr; [done|]. apply IH. by apply Upsert_unique. }
  apply H. constructor.
Qed.
End TableFacts.

(** C20: Over a table that [Upsert] filled before the index was made and that does not
    change afterwards, after any sequence of [Contains], [Lookup] and [Reload] calls on a new
    index, with any cache that keeps the
    cache laws, any passage of time and any subset of the queries failing: what
    [Lookup] returns is the row of the table for that address; [Contains] is true
    for every active address even when the database does not answer; and
    [Lookup] finds every active address when it does. *)
Theorem index_sound_complete {C : Type} `{CL : CacheLaws C string (option WatchedAddress)}
    (sizing : Z -> Z * Z) (bloomExpectedItems : Z) (Hsize : forall x, 0 < x -> 0 < (sizing x).1)
    (chain : Chain) (network : Network) (upserts : list WatchedAddress) (lru : C)
    (Hlru : cache_ok lru) (Hempty : forall now k, holds now lru k = None)
    (t0 : Z) (ops : list (index_op * (bool * N))) (db_ok : bool) (a : string) :
  let rows := foldl WatchedAddressRepo.Upsert [] upserts in
  let '(t, x) := foldl (index_step chain network rows sizing bloomExpectedItems)
                   (t0, NewTieredIndex lru) ops in
  (forall wa, (Lookup t db_ok rows x chain network a).1 = Some wa ->
              WatchedAddressRepo.FindByAddress rows chain network a = Some wa) /\
  (forall wa, wa ∈ WatchedAddressRepo.GetActive rows chain network -> wa_Address wa = a ->
              (Contains t db_ok rows x chain network a).1 = true /\
              (db_ok = true -> (Lookup t db_ok rows x chain network a).1 = Some wa)).
Proof.
  intros rows. pose proof (Upserts_unique upserts) as Hu. fold rows in Hu.
  destruct (foldl _ _ ops) as [t x] eqn:Ef.
  assert (Hco : coherent chain network rows t x).
  { pose proof (run_coherent chain network rows Hu sizing bloomExpectedItems Hsize ops
                  (t0, NewTieredIndex lru) (coherent_new chain network rows t0 lru Hlru Hempty)) as H1.
    by rewrite Ef in H1. }
  destruct (Lookup_coherent chain network rows Hu t x db_ok a Hco) as (_ & Hs & Hc).
  destruct (Contains_coherent chain network rows Hu t x db_ok a Hco) as [_ Hi].
  split; [exact Hs|]. intros wa Hwa Ha. split; [by apply (Hi wa)|]. by apply Hc.
Qed.

Definition watched (address : string) : WatchedAddress :=
  {| wa_Chain := "base"; wa_Network := "mainnet"; wa_Address := address; wa_WalletID := Some "w1";
     wa_OrganizationID := Some "o1"; wa_Label := None; wa_IsActive := true; wa_Source := "db";
     wa_BackfillFromBlock := None |}.

Definition test_sizing (x : Z) : Z * Z := (15 * x, 10).

(** After a reload, the database is down, and the address is still found. *)
Lemma index_sound_complete_witness :
  let rows := foldl WatchedAddressRepo.Upsert [] [watched "0xaa"; watched "0xbb"] in
  let '(t, x) := foldl (index_step "base" "mainnet" rows test_sizing 4)
                   (0, NewTieredIndex (NewLRU 100 60)) [(DoReload, (true, 1%N)); (DoLookup "0xaa", (false, 2%N))] in
  (Contains t false rows x "base" "mainnet" "0xbb").1 = true /\
  (Lookup t true rows x "base" "mainnet" "0xbb").1 = Some (watched "0xbb").
Proof.
  pose proof (index_sound_complete (CL := LRU_CacheLaws) test_sizing 4 ltac:(intros x; simpl; lia) "base" "mainnet"
    [watched "0xaa"; watched "0xbb"] (NewLRU 100 60) (NewLRU_ok 100 60) ltac:(done) 0
    [(DoReload, (true, 1%N)); (DoLookup "0xaa", (false, 2%N))]) as H.
  cbv zeta in *. destruct (foldl (index_step _ _ _ _ _) _ _) as [t x].
  split; [destruct (H false "0xbb") as [_ Hc]|destruct (H true "0xbb") as [_ Hc]];
    (destruct (Hc (watched "0xbb")) as [H1 H2]; [by apply (list_elem_of_lookup_2 _ 1%nat); vm_compute|done|]); auto.
Defined.

(** Also: A false answer of [Contains] is relative to the last [Reload]: an address
    upserted as active after it is rejected by the Bloom filter although the
    database answers and has it, whatever the comment says. *)
Theorem contains_false_not_definitive :
  let rows := foldl WatchedAddressRepo.Upsert [] [watched "0xaa"] in
  let x := (Reload test_sizing 4 1 true rows (NewTieredIndex (NewLRU 100 60)) "base" "mainnet").2 in
  let rows' := WatchedAddressRepo.Upsert rows (watched "0xbb") in
  watched "0xbb" ∈ WatchedAddressRepo.GetActive rows' "base" "mainnet" /\
  (Contains 2 true rows' x "base" "mainnet" "0xbb").1 = false /\
  (Lookup 2 true rows' x "base" "mainnet" "0xbb").1 = None.
Proof.
  split_and!; [apply (list_elem_of_lookup_2 _ 1%nat)| |]; vm_compute; done.
Qed.
