(* ===== verification/Sha256.v ===== *)
(** * SHA-256 of a byte string, as [crypto/sha256] and [encoding/hex] give it

    The decision digests of the auto-tune controller are the lower-case
    hexadecimal SHA-256 of a joined string. *)

From Stdlib Require Import ZArith String Ascii List Lia.
From stdpp Require Import base list strings.
From S2P Require Import Prelude.

Open Scope Z_scope.

Module Sha256.

Definition rotr (n x : Z) : Z := Z.lor (Z.shiftr x n) (wrap_u32 (Z.shiftl x (32 - n))).
Definition add32 (x y : Z) : Z := wrap_u32 (x + y).

(** The constants are the first 32 bits of the fractional parts of the cube roots
    (and, for the initial state, the square roots) of the first primes. *)
Definition is_prime (n : nat) : bool :=
  forallb (fun d => negb (Nat.eqb (Nat.modulo n d) 0)) (seq 2 (n - 2)).

Definition first_primes (n : nat) : list Z :=
  take n (Z.of_nat <$> filter (fun p => is_prime p = true) (seq 2 310)).

(** The integer cube root of [z], below [2 ^ n] above [acc]. *)
Fixpoint cube_root (n : nat) (acc z : Z) : Z :=
  match n with
  | O => acc
  | S n' =>
      let next := acc + 2 ^ Z.of_nat n' in
      cube_root n' (if next * next * next <=? z then next else acc) z
  end.

Definition round_constants : list Z :=
  Eval vm_compute in (fun p => wrap_u32 (cube_root 36 0 (p * 2 ^ 96))) <$> first_primes 64.

Definition initial_state : list Z :=
  Eval vm_compute in (fun p => wrap_u32 (Z.sqrt (p * 2 ^ 64))) <$> first_primes 8.

Fixpoint bytes_of (s : string) : list Z :=
  match s with EmptyString => [] | String c s' => byte_of c :: bytes_of s' end.

(** The [n] big-endian bytes of [z]. *)
Fixpoint big_endian (n : nat) (z : Z) : list Z :=
  match n with O => [] | S n' => big_endian n' (z / 256) ++ [z mod 256] end.

Definition pad (bs : list Z) : list Z :=
  let len := Z.of_nat (length bs) in
  bs ++ [128] ++ replicate (Z.to_nat ((55 - len) mod 64)) 0 ++ big_endian 8 (8 * len).

Fixpoint words (fuel : nat) (bs : list Z) : list Z :=
  match fuel, bs with
  | S fuel', a :: b :: c :: d :: rest => (((a * 256 + b) * 256 + c) * 256 + d) :: words fuel' rest
  | _, _ => []
  end.

(** The message schedule, newest word first. *)
Fixpoint extend (n : nat) (ws : list Z) : list Z :=
  match n with
  | O => ws
  | S n' =>
      let w2 := nth 1 ws 0 in let w7 := nth 6 ws 0 in
      let w15 := nth 14 ws 0 in let w16 := nth 15 ws 0 in
      let s0 := Z.lxor (Z.lxor (rotr 7 w15) (rotr 18 w15)) (Z.shiftr w15 3) in
      let s1 := Z.lxor (Z.lxor (rotr 17 w2) (rotr 19 w2)) (Z.shiftr w2 10) in
      extend n' (add32 (add32 w16 s0) (add32 w7 s1) :: ws)
  end.

Definition round (st : list Z) (kw : Z * Z) : list Z :=
  match st with
  | [a; b; c; d; e; f; g; h] =>
      let s1 := Z.lxor (Z.lxor (rotr 6 e) (rotr 11 e)) (rotr 25 e) in
      let ch := Z.lxor (Z.land e f) (Z.land (2 ^ 32 - 1 - e) g) in
      let t1 := add32 (add32 (add32 h s1) (add32 ch kw.1)) kw.2 in
      let s0 := Z.lxor (Z.lxor (rotr 2 a) (rotr 13 a)) (rotr 22 a) in
      let maj := Z.lxor (Z.lxor (Z.land a b) (Z.land a c)) (Z.land b c) in
      [add32 t1 (add32 s0 maj); a; b; c; add32 d t1; e; f; g]
  | _ => st
  end.

Definition compress (st : list Z) (block : list Z) : list Z :=
  let ws := rev (extend 48 (rev (words 16 block))) in
  zip_with add32 st (foldl round st (zip round_constants ws)).

Fixpoint blocks (fuel : nat) (st bs : list Z) : list Z :=
  match fuel, bs with
  | S fuel', _ :: _ => blocks fuel' (compress st (take 64 bs)) (drop 64 bs)
  | _, _ => st
  end.

Definition sum256 (s : string) : list Z :=
  let bs := pad (bytes_of s) in
  flat_map (big_endian 4) (blocks (length bs) initial_state bs).

Definition hex_digit (n : Z) : ascii :=
  ascii_of_N (Z.to_N (if n <? 10 then 48 + n else 87 + n)).

Fixpoint hex (bs : list Z) : string :=
  match bs with
  | [] => EmptyString
  | b :: bs' => String (hex_digit (b / 16)) (String (hex_digit (b mod 16)) (hex bs'))
  end.

Definition sha256_hex (s : string) : string := hex (sum256 s).

(** The test vectors of the standard. *)
Example sha256_empty :
  sha256_hex "" = "e3b0c44298fc1c149afbf4c8996fb92427ae41e4649b934ca495991b7852b855"%string.
Proof. vm_compute. reflexivity. Qed.

Example sha256_abc :
  sha256_hex "abc" = "ba7816bf8f01cfea414140de5dae2223b00361a396177a9cb410ff61f20015ad"%string.
Proof. vm_compute. reflexivity. Qed.

(** A message of two blocks: the length is written in the second one. *)
Example sha256_pads_two_blocks : length (pad (replicate 56 97)) = 128%nat.
Proof. reflexivity. Qed.

End Sha256.
