(* ===== verification/NormalizerRules.v ===== *)
(** * Normalizer, rules: [pipeline/normalizer]

    The messages of the sidecar, and the pure rules the normalizer applies to them: the
    strength of finality states, amounts, event paths and their metadata, the fee
    components of EVM chains, fingerprints and the event identifier. *)

From Stdlib Require Import ZArith String Ascii Lia.
From stdpp Require Import base option list strings gmap.
From S2P Require Import Prelude Ordering Json Domain Identity Sha256.

Open Scope Z_scope.
Open Scope go_scope.

(** ** Messages: [pkg/generated/sidecar/v1/decoder.pb.go]

    A repeated field may hold nil pointers; a map that is empty is nil. *)

Record BalanceEventInfo := {
  bi_OuterInstructionIndex : Z; bi_InnerInstructionIndex : Z; bi_EventCategory : string;
  bi_EventAction : string; bi_ProgramId : string; bi_Address : string; bi_ContractAddress : string;
  bi_Delta : string; bi_CounterpartyAddress : string; bi_TokenSymbol : string; bi_TokenName : string;
  bi_TokenDecimals : Z; bi_TokenType : string; bi_Metadata : gmap string string
}.

Record TransactionResult := {
  tr_TxHash : string; tr_BlockCursor : Z; tr_BlockTime : Z; tr_FeeAmount : string; tr_FeePayer : string;
  tr_Status : string; tr_Error : option string; tr_BalanceEvents : list (option BalanceEventInfo)
}.

Record DecodeError := { de_Signature : string; de_Error : string }.

(** [m[key]]: the empty string for a missing key. *)
Definition meta (m : gmap string string) (key : string) : string := default "" (m !! key).

(** ** Finality states *)

Definition canonicalizeFinalityState (state : string) : string :=
  if str_in state [""; "processed"; "confirmed"; "safe"; "finalized"] then state
  else
    let s := to_lower (trim_space state) in
    if str_empty s then ""
    else if str_in s ["processed"; "pending"; "latest"; "unsafe"] then "processed"
    else if str_in s ["confirmed"; "accepted"] then "confirmed"
    else if String.eqb s "safe" then "safe"
    else if str_in s ["finalized"; "finalised"] then "finalized"
    else "".

Definition defaultFinalityState (chainID : Chain) : string :=
  if String.eqb chainID ChainSolana then "finalized" else "confirmed".

Definition normalizeFinalityStateOrDefault (chainID : Chain) (state : string) : string :=
  let normalized := canonicalizeFinalityState state in
  if negb (str_empty normalized) then normalized else defaultFinalityState chainID.

Definition finalityStateRank (state : string) : Z :=
  let s := canonicalizeFinalityState state in
  if String.eqb s "processed" then 1
  else if String.eqb s "confirmed" then 2
  else if String.eqb s "safe" then 3
  else if String.eqb s "finalized" then 4
  else 0.

(** -1, 0 and 1 of the source are [Lt], [Eq] and [Gt]. *)
Definition compareFinalityStateStrength : string -> string -> comparison :=
  lex (on finalityStateRank Z.compare) (on canonicalizeFinalityState String.compare).

Definition finalityMetadataKeys (chainID : Chain) : list string :=
  if String.eqb chainID ChainSolana then ["commitment"; "confirmation_status"; "finality_state"; "finality"]
  else ["finality_state"; "finality"; "confirmation_status"; "commitment"].

(** The best state so far, its rank and the position of its key. *)
Record best_state := { bs_state : string; bs_rank : Z; bs_keyOrder : nat }.

(** The loop over the keys; at the maximum rank it breaks. *)
Fixpoint scan_keys (metadata : gmap string string) (keys : list string) (keyOrder : nat) (b : best_state)
    : best_state :=
  match keys with
  | [] => b
  | key :: keys' =>
      let candidate := canonicalizeFinalityState (meta metadata key) in
      if str_empty candidate then scan_keys metadata keys' (S keyOrder) b
      else
        let candidateRank := finalityStateRank candidate in
        let b' :=
          if (bs_rank b <? candidateRank) ||
             ((candidateRank =? bs_rank b) && (keyOrder <? bs_keyOrder b)%nat)
          then {| bs_state := candidate; bs_rank := candidateRank; bs_keyOrder := keyOrder |}
          else b in
        if 4 <=? bs_rank b' then b' else scan_keys metadata keys' (S keyOrder) b'
  end.

Fixpoint scan_events (keys : list string) (events : list (option BalanceEventInfo)) (b : best_state) : best_state :=
  match events with
  | [] => b
  | None :: events' => scan_events keys events' b
  | Some be :: events' =>
      let b' := scan_keys (bi_Metadata be) keys 0 b in
      if 4 <=? bs_rank b' then b' else scan_events keys events' b'
  end.

Definition resolveResultFinalityState (chainID : Chain) (result : option TransactionResult) : string :=
  match result with
  | None => defaultFinalityState chainID
  | Some r =>
      let keys := finalityMetadataKeys chainID in
      let b := scan_events keys (tr_BalanceEvents r)
                 {| bs_state := ""; bs_rank := 0; bs_keyOrder := length keys |} in
      if negb (str_empty (bs_state b)) then bs_state b else defaultFinalityState chainID
  end.

(** ** Amounts *)

Definition strip_sign (s : string) : string :=
  match s with
  | String c s' => if Ascii.eqb c "+" || Ascii.eqb c "-" then s' else s
  | EmptyString => EmptyString
  end.

(** One sign is cut off; what is left may carry another one. *)
Definition parseBigInt (value : string) : option Z :=
  let raw := trim_space value in
  if str_empty raw then None
  else
    let raw := strip_sign raw in
    if str_empty raw then None else parse_decimal raw.

Definition parseSignedBigInt (value : string) : option Z :=
  let raw := trim_space value in
  if str_empty raw then None else parse_decimal raw.

Definition canonicalFeeDelta (amount : string) : string :=
  let clean := trim_space amount in
  if str_empty clean then "-0"
  else
    let trimmed := strip_sign clean in
    if str_empty trimmed || String.eqb trimmed "0" then "-0"
    else if all_chars is_digit trimmed then "-" +:+ trimmed
    else match parse_decimal trimmed with
         | None => "-0"
         | Some amountInt => if amountInt =? 0 then "-0" else "-" +:+ show_Z amountInt
         end.

Definition compareCanonicalDeltas (left right : string) : comparison :=
  match parseSignedBigInt left, parseSignedBigInt right with
  | Some l, Some r => Z.compare l r
  | _, _ => String.compare (trim_space left) (trim_space right)
  end.

(** ** Addresses, paths and identifiers *)

Definition canonicalizeAddressIdentity (chainID : Chain) (value : string) : string :=
  let trimmed := trim_space value in
  if str_empty trimmed then ""
  else if negb (IsEVMChain chainID) then trimmed
  else
    let id := CanonicalSignatureIdentity chainID trimmed in
    if str_empty id then trimmed else id.

Definition balanceEventPath (outerInstructionIndex innerInstructionIndex : Z) : string :=
  "outer:" +:+ show_Z outerInstructionIndex +:+ "|inner:" +:+ show_Z innerInstructionIndex.

Definition mapTokenTypeToAssetType (tokenType : TokenType) : string :=
  if String.eqb tokenType TokenTypeNative then "native"
  else if String.eqb tokenType TokenTypeNFT then "nft"
  else if String.eqb tokenType TokenTypeFungible then "fungible_token"
  else "unknown".

Definition canonical_tx_hash (chain : Chain) (txHash : string) : string :=
  let id := CanonicalSignatureIdentity chain txHash in
  if str_empty id then trim_space txHash else id.

(** The text whose hash is the event identifier. *)
Definition event_preimage (chain : Chain) (network : Network)
    (txHash eventPath actorAddress assetID : string) (activityType : ActivityType) : string :=
  "chain=" +:+ chain +:+ "|network=" +:+ network +:+ "|tx=" +:+ canonical_tx_hash chain txHash +:+
  "|path=" +:+ eventPath +:+ "|actor=" +:+ actorAddress +:+ "|asset=" +:+ assetID +:+
  "|activity=" +:+ activityType.

Definition buildCanonicalEventID (chain : Chain) (network : Network)
    (txHash eventPath actorAddress assetID : string) (activityType : ActivityType) : string :=
  Sha256.sha256_hex (event_preimage chain network txHash eventPath actorAddress assetID activityType).

Definition metadataFromChainData (chainData : raw_json) : gmap string string :=
  match chainData with
  | None => ∅
  | Some text => if str_empty text || String.eqb text "null" then ∅ else unmarshal_map text
  end.

Definition mergeMetadataJSON (original : raw_json) (additions : gmap string string) : raw_json :=
  Some (marshal_map (additions ∪ metadataFromChainData original)).

Definition parsePathIndexPart (part key : string) : option Z :=
  if str_empty part then None
  else
    let raw :=
      if has_prefix part (key +:+ ":") then Some (trim_prefix part (key +:+ ":"))
      else if has_prefix part (key +:+ "=") then Some (trim_prefix part (key +:+ "="))
      else None in
    match raw with
    | None => None
    | Some raw => if str_empty raw then None else parse_int64 raw
    end.

Fixpoint remove_char (c : ascii) (s : string) : string :=
  match s with
  | EmptyString => EmptyString
  | String x s' => if Ascii.eqb x c then remove_char c s' else String x (remove_char c s')
  end.

Definition parseSolanaInstructionPath (path : string) : option (Z * Z) :=
  let trimmed := trim_space path in
  if str_empty trimmed then None
  else
    match split_on "|" (remove_char " " (to_lower trimmed)) with
    | [p; q] =>
        match parsePathIndexPart p "outer", parsePathIndexPart q "inner" with
        | Some outer, Some inner => Some (outer, inner)
        | _, _ => None
        end
    | _ => None
    end.

Definition solanaPathKeys : list string := ["event_path"; "instruction_path"; "solana_event_path"].

(** The first of the keys whose value is a path. *)
Fixpoint first_path (metadata : gmap string string) (keys : list string) : option (Z * Z) :=
  match keys with
  | [] => None
  | key :: keys' =>
      match parseSolanaInstructionPath (meta metadata key) with
      | Some p => Some p
      | None => first_path metadata keys'
      end
  end.

Definition solanaInstructionPathFromChainData (chainData : raw_json) : option (Z * Z) :=
  let metadata := metadataFromChainData chainData in
  if (size metadata =? 0)%nat then None else first_path metadata solanaPathKeys.

Definition hasSolanaInstructionPathHint (metadata : gmap string string) : bool :=
  if (size metadata =? 0)%nat then false
  else match first_path metadata solanaPathKeys with Some _ => true | None => false end.

Definition resolveBaseMetadataEventPath (metadata : gmap string string) : string :=
  if (size metadata =? 0)%nat then ""
  else if negb (str_empty (meta metadata "event_path")) then meta metadata "event_path"
  else if negb (str_empty (meta metadata "log_path")) then meta metadata "log_path"
  else if negb (str_empty (meta metadata "log_index")) then "log:" +:+ meta metadata "log_index"
  else if negb (str_empty (meta metadata "base_log_index")) then "log:" +:+ meta metadata "base_log_index"
  else if negb (str_empty (meta metadata "base_event_path")) then meta metadata "base_event_path"
  else "".

Definition resolveBaseFeeEventPath (metadata : gmap string string) : string :=
  let p := resolveBaseMetadataEventPath metadata in
  if negb (str_empty p) then p else "log:0".

Definition decodedEventPath (chainID : Chain) (be : BalanceEventInfo) : string :=
  let fallback := balanceEventPath (bi_OuterInstructionIndex be) (bi_InnerInstructionIndex be) in
  if IsEVMChain chainID then
    let metadataPath := resolveBaseMetadataEventPath (bi_Metadata be) in
    if negb (str_empty metadataPath) then metadataPath else fallback
  else
    match first_path (bi_Metadata be) solanaPathKeys with
    | Some (outer, inner) => balanceEventPath (wrap32 outer) (wrap32 inner)
    | None => fallback
    end.

Definition is_fee_category (category : string) : bool :=
  equal_fold category EventCategoryFee || equal_fold category EventCategoryFeeExecutionL2 ||
  equal_fold category EventCategoryFeeDataL1.

Definition or_trimmed (chainID : Chain) (value : string) : string :=
  let id := canonicalizeAddressIdentity chainID value in
  if str_empty id then trim_space value else id.

Definition decodedEventFingerprint (chainID : Chain) (be : BalanceEventInfo) : string :=
  let address := canonicalizeAddressIdentity chainID (bi_Address be) in
  let assetID := or_trimmed chainID (bi_ContractAddress be) in
  let path := decodedEventPath chainID be in
  let category := to_upper (trim_space (bi_EventCategory be)) in
  let delta := trim_space (bi_Delta be) in
  let delta := if is_fee_category category then canonicalFeeDelta delta else delta in
  path +:+ "|" +:+ address +:+ "|" +:+ assetID +:+ "|" +:+ delta.

(** ** Fees of EVM chains *)

Definition isEVML1Chain (chain : Chain) : bool := str_in chain [ChainEthereum; ChainPolygon; ChainBSC].

Record evmNativeTokenInfo := { ent_Symbol : string; ent_Name : string; ent_Decimals : Z }.

Definition evmNativeToken (chain : Chain) : evmNativeTokenInfo :=
  if String.eqb chain ChainPolygon then {| ent_Symbol := "POL"; ent_Name := "POL"; ent_Decimals := 18 |}
  else if String.eqb chain ChainBSC then {| ent_Symbol := "BNB"; ent_Name := "BNB"; ent_Decimals := 18 |}
  else {| ent_Symbol := "ETH"; ent_Name := "Ether"; ent_Decimals := 18 |}.

Definition evmDecoderVersion (chain : Chain) : string :=
  if isEVML1Chain chain then "evm-l1-decoder-v1" else "base-decoder-v1".

(** The product of two amounts when both parse. *)
Definition gas_fee (metadata : gmap string string) (used price : string) : option Z :=
  match parseBigInt (meta metadata used), parseBigInt (meta metadata price) with
  | Some gasUsed, Some gasPrice => Some (gasUsed * gasPrice)
  | _, _ => None
  end.

Definition deriveBaseExecutionFeeFromMetadata (metadata : gmap string string) : option Z :=
  match parseBigInt (meta metadata "fee_execution_l2") with
  | Some fee => Some fee
  | None =>
      match gas_fee metadata "gas_used" "effective_gas_price" with
      | Some fee => Some fee
      | None => gas_fee metadata "base_gas_used" "base_effective_gas_price"
      end
  end.

Definition deriveBaseExecutionFee (totalFee : string) (metadata : gmap string string) : Z :=
  match deriveBaseExecutionFeeFromMetadata metadata with
  | Some fee => fee
  | None => match parseBigInt totalFee with Some fee => fee | None => 0 end
  end.

Fixpoint first_amount (metadata : gmap string string) (keys : list string) : option Z :=
  match keys with
  | [] => None
  | key :: keys' =>
      match parseBigInt (meta metadata key) with
      | Some fee => Some fee
      | None => first_amount metadata keys'
      end
  end.

Definition deriveBaseDataFee (metadata : gmap string string) : option Z :=
  first_amount metadata ["fee_data_l1"; "data_fee_l1"; "l1_data_fee"; "l1_fee"].

Definition hasBaseDataFee (metadata : gmap string string) : bool :=
  match deriveBaseDataFee metadata with Some _ => true | None => false end.

Definition hasBaseFeeComponentMetaMismatch (totalFee : string) (metadata : gmap string string) : bool :=
  match parseBigInt totalFee with
  | None => false
  | Some total =>
      if total =? 0 then false
      else match deriveBaseExecutionFeeFromMetadata metadata, deriveBaseDataFee metadata with
           | Some exec, Some data => negb (exec + data =? total)
           | _, _ => false
           end
  end.

(** ** The fee metadata of a transaction *)

Definition baseFeePathMetadataKeys : list string :=
  ["event_path"; "log_path"; "log_index"; "base_log_index"; "base_event_path"].
Definition baseFeeComponentMetadataKeys : list string :=
  ["fee_execution_l2"; "fee_data_l1"; "data_fee_l1"; "l1_data_fee"; "l1_fee"].

Record baseFeeMetadataCandidate := {
  cd_metadata : gmap string string; cd_execution : option Z; cd_data : option Z;
  cd_pathHint : bool; cd_metadataCount : nat; cd_fingerprint : string
}.

Definition newBaseFeeMetadataCandidate (be : option BalanceEventInfo) : option baseFeeMetadataCandidate :=
  match be with
  | None => None
  | Some b =>
      if (size (bi_Metadata b) =? 0)%nat then None
      else Some {| cd_metadata := bi_Metadata b;
                   cd_execution := deriveBaseExecutionFeeFromMetadata (bi_Metadata b);
                   cd_data := deriveBaseDataFee (bi_Metadata b);
                   cd_pathHint := negb (str_empty (resolveBaseMetadataEventPath (bi_Metadata b)));
                   cd_metadataCount := size (bi_Metadata b);
                   cd_fingerprint := decodedEventFingerprint ChainBase b |}
  end.

Definition shouldPreferBaseFeeMetadataCandidate (existing incoming : baseFeeMetadataCandidate) : bool :=
  if negb (Bool.eqb (cd_pathHint existing) (cd_pathHint incoming)) then cd_pathHint incoming
  else if negb (cd_metadataCount existing =? cd_metadataCount incoming)%nat
       then (cd_metadataCount existing <? cd_metadataCount incoming)%nat
  else str_ltb (cd_fingerprint incoming) (cd_fingerprint existing).

Definition pickBestBaseFeeMetadataCandidate (candidates : list baseFeeMetadataCandidate)
    (predicate : baseFeeMetadataCandidate -> bool) : option baseFeeMetadataCandidate :=
  foldl (fun best candidate =>
           if predicate candidate then
             match best with
             | None => Some candidate
             | Some b => if shouldPreferBaseFeeMetadataCandidate b candidate then Some candidate else best
             end
           else best) None candidates.

Definition delete_keys (keys : list string) (m : gmap string string) : gmap string string :=
  foldl (fun m key => delete key m) m keys.

Definition applyBasePathMetadata (out metadata : gmap string string) : gmap string string :=
  let out := delete_keys baseFeePathMetadataKeys out in
  foldl (fun out key =>
           let value := trim_space (meta metadata key) in
           if str_empty value then out else <[key := value]> out) out baseFeePathMetadataKeys.

Definition isSome {A} (x : option A) : bool := match x with Some _ => true | None => false end.

(** [x] or, when it is nil, [y]. *)
Definition or_else {A} (x y : option A) : option A := match x with Some _ => x | None => y end.

Definition set_amount (key : string) (source : option Z) (out : gmap string string) : gmap string string :=
  match source with Some v => <[key := show_Z v]> out | None => out end.

(** The amount a candidate gives as its data fee: 0 when it has none, as the source keeps
    the value that comes with [false]. *)
Definition data_value (c : baseFeeMetadataCandidate) : Z := default 0 (cd_data c).

Definition reconcileBaseFeeComponentMetadata (out : gmap string string) (rawEvents : list (option BalanceEventInfo))
    : gmap string string :=
  let candidates := omap newBaseFeeMetadataCandidate rawEvents in
  let bestBoth := pickBestBaseFeeMetadataCandidate candidates (fun c => isSome (cd_execution c) && isSome (cd_data c)) in
  let bestExecution := pickBestBaseFeeMetadataCandidate candidates (fun c => isSome (cd_execution c)) in
  let bestData := pickBestBaseFeeMetadataCandidate candidates (fun c => isSome (cd_data c)) in
  match or_else bestBoth (or_else bestExecution bestData) with
  | None => out
  | Some selected =>
      let out := delete_keys baseFeeComponentMetadataKeys out in
      let executionSource := or_else bestBoth bestExecution in
      let dataSource := or_else bestBoth bestData in
      let out := set_amount "fee_execution_l2" (executionSource ≫= cd_execution) out in
      let out := set_amount "fee_data_l1" (data_value <$> dataSource) out in
      let pathSource :=
        if str_empty (resolveBaseMetadataEventPath (cd_metadata selected))
        then default selected (pickBestBaseFeeMetadataCandidate candidates cd_pathHint)
        else selected in
      applyBasePathMetadata out (cd_metadata pathSource)
  end.

(** The first event that has a key gives its value. *)
Definition collectBaseMetadata (rawEvents : list (option BalanceEventInfo)) : gmap string string :=
  let out := foldl (fun out be => match be with None => out | Some b => out ∪ bi_Metadata b end) ∅ rawEvents in
  reconcileBaseFeeComponentMetadata out rawEvents.

(** ** Fee events *)

Definition isFeeEligibleStatus (txStatus : string) : bool :=
  let status := trim_space txStatus in equal_fold status TxStatusSuccess || equal_fold status TxStatusFailed.

Definition shouldEmitSolanaFeeEvent (txStatus feePayer feeAmount : string) : bool :=
  if negb (isFeeEligibleStatus txStatus) then false
  else if str_empty (trim_space feePayer) then false
  else match parseBigInt feeAmount with
       | None => false
       | Some feeAmountInt => negb (feeAmountInt =? 0)
       end.

Definition shouldEmitBaseFeeEvent : string -> string -> string -> bool := shouldEmitSolanaFeeEvent.

Definition isBaseFeeActivity (activityType : ActivityType) : bool :=
  str_in activityType [ActivityFeeExecutionL2; ActivityFeeDataL1].

Definition canonicalizeBTCAssetID (value : string) : string :=
  let trimmed := trim_space value in
  if str_empty trimmed then "BTC" else if equal_fold trimmed "btc" then "BTC" else trimmed.

Definition resolveBTCEventPathFromMetadata (metadata : gmap string string) (outerInstructionIndex : Z) : string :=
  let eventPath := trim_space (meta metadata "event_path") in
  if negb (str_empty eventPath) then eventPath
  else
    let utxoPathType := to_lower (trim_space (meta metadata "utxo_path_type")) in
    if str_in utxoPathType ["vin"; "vout"] && (0 <=? outerInstructionIndex)
    then utxoPathType +:+ ":" +:+ show_Z outerInstructionIndex
    else "".
