(* ===== verification/NormalizerEvents.v ===== *)
(** * Normalizer, balance events: [normalizer_balance.go], [normalizer_balance_btc.go],
    [normalizer_balance_evm.go] and [normalizedTxFromResult]

    A decoded transaction becomes a list of canonical balance events: the watched events
    of the sidecar and the fees, each stamped with its identifier; events of one
    identifier are merged, and the list is sorted by identifier. *)

From Stdlib Require Import ZArith String Ascii Lia.
From stdpp Require Import base option list strings gmap sorting.
From S2P Require Import Prelude Ordering Json Domain Identity Sha256 NormalizerRules.

Open Scope Z_scope.

(** ** Raw events *)

(** The fields the sidecar's event gives; those of the canonical form are still empty. *)
Definition raw_event (be : BalanceEventInfo) (activityType : ActivityType) (eventAction delta : string)
    : NormalizedBalanceEvent :=
  {| nbe_OuterInstructionIndex := bi_OuterInstructionIndex be;
     nbe_InnerInstructionIndex := bi_InnerInstructionIndex be;
     nbe_ActivityType := activityType; nbe_EventAction := eventAction; nbe_ProgramID := bi_ProgramId be;
     nbe_ContractAddress := bi_ContractAddress be; nbe_Address := bi_Address be;
     nbe_CounterpartyAddress := bi_CounterpartyAddress be; nbe_Delta := delta;
     nbe_ChainData := Some (marshal_metadata (bi_Metadata be));
     nbe_TokenSymbol := bi_TokenSymbol be; nbe_TokenName := bi_TokenName be;
     nbe_TokenDecimals := bi_TokenDecimals be; nbe_TokenType := bi_TokenType be;
     nbe_EventID := ""; nbe_BlockHash := ""; nbe_TxIndex := 0; nbe_EventPath := ""; nbe_EventPathType := "";
     nbe_ActorAddress := ""; nbe_AssetType := ""; nbe_AssetID := bi_ContractAddress be;
     nbe_FinalityState := ""; nbe_DecoderVersion := ""; nbe_SchemaVersion := "" |}.

Definition is_self_transfer (handleSelfTransfer : bool) (be : BalanceEventInfo) : bool :=
  handleSelfTransfer && String.eqb (bi_EventCategory be) EventCategoryTransfer &&
  String.eqb (bi_CounterpartyAddress be) (bi_Address be).

Definition normalize_raw (handleSelfTransfer : bool) (be : BalanceEventInfo) : NormalizedBalanceEvent :=
  if is_self_transfer handleSelfTransfer be
  then raw_event be ActivitySelfTransfer "self_transfer" "0"
  else raw_event be (ClassifyActivity (bi_EventCategory be) (bi_Delta be) true) (bi_EventAction be) (bi_Delta be).

(** The events that count: not nil, of a watched address. *)
Definition watched_raw (watchedAddresses : gset string) (be : option BalanceEventInfo) : option BalanceEventInfo :=
  match be with
  | Some b => if decide (bi_Address b ∈ watchedAddresses) then Some b else None
  | None => None
  end.

Definition buildRawBalanceEventsMulti (rawEvents : list (option BalanceEventInfo)) (watchedAddresses : gset string)
    (handleSelfTransfer : bool) : list NormalizedBalanceEvent :=
  normalize_raw handleSelfTransfer <$> omap (watched_raw watchedAddresses) rawEvents.

(** ** Fee events *)

Definition emptyJSONObject : raw_json := Some (json_object []).

Definition fee_event (activityType : ActivityType) (eventAction programID asset feePayer feeAmount : string)
    (chainData : raw_json) (symbol name : string) (decimals : Z) (eventPath : string) : NormalizedBalanceEvent :=
  {| nbe_OuterInstructionIndex := -1; nbe_InnerInstructionIndex := -1; nbe_ActivityType := activityType;
     nbe_EventAction := eventAction; nbe_ProgramID := programID; nbe_ContractAddress := asset;
     nbe_Address := feePayer; nbe_CounterpartyAddress := ""; nbe_Delta := canonicalFeeDelta feeAmount;
     nbe_ChainData := chainData; nbe_TokenSymbol := symbol; nbe_TokenName := name;
     nbe_TokenDecimals := decimals; nbe_TokenType := TokenTypeNative;
     nbe_EventID := ""; nbe_BlockHash := ""; nbe_TxIndex := 0; nbe_EventPath := eventPath;
     nbe_EventPathType := ""; nbe_ActorAddress := ""; nbe_AssetType := ""; nbe_AssetID := asset;
     nbe_FinalityState := ""; nbe_DecoderVersion := ""; nbe_SchemaVersion := "" |}.

Definition systemProgram : string := "11111111111111111111111111111111".
Definition zeroProgram : string := "0x0000000000000000000000000000000000000000000000000000000000000000".

Definition buildSolanaFeeBalanceEvent (feePayer feeAmount : string) : NormalizedBalanceEvent :=
  fee_event ActivityFee "transaction_fee" systemProgram systemProgram feePayer feeAmount emptyJSONObject
    "SOL" "Solana" 9 "".

(** The event path of a miner fee, as JSON. *)
Definition btcFeeChainData : raw_json := Some (json_object [("event_path", "fee:miner")]).

Definition buildBTCFeeBalanceEvent (feePayer feeAmount : string) : NormalizedBalanceEvent :=
  fee_event ActivityFee "miner_fee" "btc" "BTC" feePayer feeAmount btcFeeChainData "BTC" "Bitcoin" 8 "".

Definition buildEVML1FeeBalanceEvent (feePayer feeAmount eventPath : string) (token : evmNativeTokenInfo)
    : NormalizedBalanceEvent :=
  fee_event ActivityFee "net_eth" zeroProgram (ent_Symbol token) feePayer feeAmount emptyJSONObject
    (ent_Symbol token) (ent_Name token) (ent_Decimals token) eventPath.

Definition buildBaseFeeBalanceEvent (activityType : ActivityType) (feePayer feeAmount eventPath eventAction : string)
    : NormalizedBalanceEvent :=
  fee_event activityType eventAction zeroProgram "ETH" feePayer feeAmount emptyJSONObject "ETH" "Ether" 18 eventPath.

(** A fee event of this payer is there already; the payer is trimmed. *)
Definition has_fee_event (events : list NormalizedBalanceEvent) (feePayer : string) : bool :=
  let feePayer := trim_space feePayer in
  if str_empty feePayer then false
  else existsb (fun be => String.eqb (nbe_ActivityType be) ActivityFee &&
                          String.eqb (trim_space (nbe_Address be)) feePayer) events.

Definition hasSolanaFeeEvent : list NormalizedBalanceEvent -> string -> bool := has_fee_event.
Definition hasBTCFeeEvent : list NormalizedBalanceEvent -> string -> bool := has_fee_event.

(** What the loop over the events finds: an input, another recipient, a change output of
    exactly the fee. *)
Record change_scan := { hasInputSpend : bool; hasRecipient : bool; hasEqualFeeChangeOutput : bool }.

Definition scan_change (feePayer : string) (fee : Z) (s : change_scan) (be : NormalizedBalanceEvent) : change_scan :=
  if negb (String.eqb (nbe_ActivityType be) ActivityDeposit) &&
     negb (String.eqb (nbe_ActivityType be) ActivityWithdrawal) then s
  else
    let action := trim_space (nbe_EventAction be) in
    if String.eqb action "vin_spend"
    then {| hasInputSpend := true; hasRecipient := hasRecipient s;
            hasEqualFeeChangeOutput := hasEqualFeeChangeOutput s |}
    else if negb (String.eqb action "vout_receive") then s
    else match parseBigInt (nbe_Delta be) with
         | None => s
         | Some beDelta =>
             if beDelta =? 0 then s
             else if String.eqb (canonicalizeAddressIdentity ChainBTC (nbe_Address be)) feePayer
             then {| hasInputSpend := hasInputSpend s; hasRecipient := hasRecipient s;
                     hasEqualFeeChangeOutput := hasEqualFeeChangeOutput s || (beDelta =? fee) |}
             else {| hasInputSpend := hasInputSpend s; hasRecipient := true;
                     hasEqualFeeChangeOutput := hasEqualFeeChangeOutput s |}
         end.

Definition hasBTCFeeRepresentedAsChangeOutput (events : list NormalizedBalanceEvent) (feePayer feeAmount : string)
    : bool :=
  let feePayer := canonicalizeAddressIdentity ChainBTC feePayer in
  if str_empty feePayer then false
  else match parseBigInt feeAmount with
       | None => false
       | Some fee =>
           if fee =? 0 then false
           else
             let s := foldl (scan_change feePayer fee)
                        {| hasInputSpend := false; hasRecipient := false; hasEqualFeeChangeOutput := false |} events in
             hasInputSpend s && hasRecipient s && hasEqualFeeChangeOutput s
       end.

Definition shouldEmitBTCFeeEvent (txStatus feePayer feeAmount : string) (rawEvents : list NormalizedBalanceEvent)
    : bool :=
  if negb (shouldEmitSolanaFeeEvent txStatus feePayer feeAmount) then false
  else negb (hasBTCFeeRepresentedAsChangeOutput rawEvents feePayer feeAmount).

Definition with_chain_data (chainData : raw_json) (be : NormalizedBalanceEvent) : NormalizedBalanceEvent :=
  {| nbe_OuterInstructionIndex := nbe_OuterInstructionIndex be;
     nbe_InnerInstructionIndex := nbe_InnerInstructionIndex be; nbe_ActivityType := nbe_ActivityType be;
     nbe_EventAction := nbe_EventAction be; nbe_ProgramID := nbe_ProgramID be;
     nbe_ContractAddress := nbe_ContractAddress be; nbe_Address := nbe_Address be;
     nbe_CounterpartyAddress := nbe_CounterpartyAddress be; nbe_Delta := nbe_Delta be;
     nbe_ChainData := chainData; nbe_TokenSymbol := nbe_TokenSymbol be; nbe_TokenName := nbe_TokenName be;
     nbe_TokenDecimals := nbe_TokenDecimals be; nbe_TokenType := nbe_TokenType be;
     nbe_EventID := nbe_EventID be; nbe_BlockHash := nbe_BlockHash be; nbe_TxIndex := nbe_TxIndex be;
     nbe_EventPath := nbe_EventPath be; nbe_EventPathType := nbe_EventPathType be;
     nbe_ActorAddress := nbe_ActorAddress be; nbe_AssetType := nbe_AssetType be; nbe_AssetID := nbe_AssetID be;
     nbe_FinalityState := nbe_FinalityState be; nbe_DecoderVersion := nbe_DecoderVersion be;
     nbe_SchemaVersion := nbe_SchemaVersion be |}.

(** What the chain data of an execution fee says about it. *)
Definition fee_marker (feeAmount : string) (metadata : gmap string string) : gmap string string :=
  let marker : gmap string string :=
    if hasBaseFeeComponentMetaMismatch feeAmount metadata then
      <["fee_amount_total" := feeAmount]>
      (<["fee_data_total_from_components" := show_Z (default 0 (deriveBaseDataFee metadata))]>
      (<["fee_execution_total_from_components" := show_Z (default 0 (deriveBaseExecutionFeeFromMetadata metadata))]>
      (<["fee_total_mismatch" := "true"]> ∅)))
    else ∅ in
  if hasBaseDataFee metadata then marker else <["data_fee_l1_unavailable" := "true"]> marker.

Definition base_fee_events (chain : Chain) (feePayer feeAmount : string) (metadata : gmap string string)
    : list NormalizedBalanceEvent :=
  let eventPath := resolveBaseFeeEventPath metadata in
  if isEVML1Chain chain then [buildEVML1FeeBalanceEvent feePayer feeAmount eventPath (evmNativeToken chain)]
  else
    let executionFee := deriveBaseExecutionFee feeAmount metadata in
    let executionEvent :=
      buildBaseFeeBalanceEvent ActivityFeeExecutionL2 feePayer (show_Z executionFee) eventPath "net_base" in
    let marker := fee_marker feeAmount metadata in
    let executionEvent :=
      if decide (marker = ∅) then executionEvent
      else with_chain_data (mergeMetadataJSON (nbe_ChainData executionEvent) marker) executionEvent in
    executionEvent ::
    match deriveBaseDataFee metadata with
    | Some dataFee => [buildBaseFeeBalanceEvent ActivityFeeDataL1 feePayer (show_Z dataFee) eventPath "net_base_data"]
    | None => []
    end.

(** ** The canonical form *)

(** The fields the canonicalisation writes. *)
Definition stamp (be : NormalizedBalanceEvent) (outer inner : Z)
    (action delta address counterparty contract assetID eventPath eventPathType actor assetType : string)
    (finalityState decoderVersion eventID : string) : NormalizedBalanceEvent :=
  {| nbe_OuterInstructionIndex := outer; nbe_InnerInstructionIndex := inner;
     nbe_ActivityType := nbe_ActivityType be; nbe_EventAction := action; nbe_ProgramID := nbe_ProgramID be;
     nbe_ContractAddress := contract; nbe_Address := address; nbe_CounterpartyAddress := counterparty;
     nbe_Delta := delta; nbe_ChainData := nbe_ChainData be; nbe_TokenSymbol := nbe_TokenSymbol be;
     nbe_TokenName := nbe_TokenName be; nbe_TokenDecimals := nbe_TokenDecimals be;
     nbe_TokenType := nbe_TokenType be; nbe_EventID := eventID; nbe_BlockHash := nbe_BlockHash be;
     nbe_TxIndex := nbe_TxIndex be; nbe_EventPath := eventPath; nbe_EventPathType := eventPathType;
     nbe_ActorAddress := actor; nbe_AssetType := assetType; nbe_AssetID := assetID;
     nbe_FinalityState := finalityState; nbe_DecoderVersion := decoderVersion; nbe_SchemaVersion := "v2" |}.

(** [AssetID], or the contract when it is empty. *)
Definition asset_or_contract (assetID contract : string) : string := if str_empty assetID then contract else assetID.

Section Canonical.
Context {E : Type} (key : E -> string) (replaces : E -> E -> bool).

(** The map by identifier: an event enters when its identifier is new or it replaces the
    one that is there. *)
Definition keep_best (eventsByID : gmap string E) (e : E) : gmap string E :=
  match eventsByID !! key e with
  | None => <[key e := e]> eventsByID
  | Some existing => if replaces existing e then <[key e := e]> eventsByID else eventsByID
  end.

Definition canonical (l : list E) : list E := sorted_values (foldl keep_best ∅ l).
End Canonical.

(** *** BTC *)

Definition shouldReplaceCanonicalBTCEvent (existing incoming : NormalizedBalanceEvent) : bool :=
  match compareFinalityStateStrength (nbe_FinalityState existing) (nbe_FinalityState incoming) with
  | Lt => true
  | Gt => false
  | Eq =>
      if negb (String.eqb (nbe_EventAction existing) (nbe_EventAction incoming))
      then str_ltb (nbe_EventAction incoming) (nbe_EventAction existing)
      else if negb (String.eqb (nbe_ContractAddress existing) (nbe_ContractAddress incoming))
      then str_ltb (nbe_ContractAddress incoming) (nbe_ContractAddress existing)
      else if negb (String.eqb (nbe_CounterpartyAddress existing) (nbe_CounterpartyAddress incoming))
      then str_ltb (nbe_CounterpartyAddress incoming) (nbe_CounterpartyAddress existing)
      else is_gt (compareCanonicalDeltas (nbe_Delta existing) (nbe_Delta incoming))
  end.

Definition btc_event (chain : Chain) (network : Network) (txHash finalityState : string)
    (be : NormalizedBalanceEvent) : NormalizedBalanceEvent :=
  let metadata := metadataFromChainData (nbe_ChainData be) in
  let eventPath := resolveBTCEventPathFromMetadata metadata (wrap32 (nbe_OuterInstructionIndex be)) in
  let eventPath :=
    if str_empty eventPath
    then balanceEventPath (wrap32 (nbe_OuterInstructionIndex be)) (wrap32 (nbe_InnerInstructionIndex be))
    else eventPath in
  let address := canonicalizeAddressIdentity chain (nbe_Address be) in
  let contract := canonicalizeBTCAssetID (nbe_ContractAddress be) in
  let assetID := asset_or_contract (canonicalizeBTCAssetID (nbe_AssetID be)) contract in
  let is_fee := String.eqb (nbe_ActivityType be) ActivityFee in
  let actor := canonicalizeAddressIdentity chain address in
  stamp be (nbe_OuterInstructionIndex be) (nbe_InnerInstructionIndex be) (nbe_EventAction be) (nbe_Delta be)
    address (canonicalizeAddressIdentity chain (nbe_CounterpartyAddress be)) contract assetID eventPath
    (if is_fee then "btc_fee" else "btc_utxo") actor
    (if is_fee then "fee" else mapTokenTypeToAssetType (nbe_TokenType be)) finalityState "btc-decoder-v1"
    (buildCanonicalEventID chain network txHash eventPath actor assetID (nbe_ActivityType be)).

Definition canonicalizeBTCBalanceEvents (chain : Chain) (network : Network) (txHash finalityState : string)
    (normalizedEvents : list NormalizedBalanceEvent) : list NormalizedBalanceEvent :=
  let finalityState := normalizeFinalityStateOrDefault chain finalityState in
  canonical nbe_EventID shouldReplaceCanonicalBTCEvent
    (btc_event chain network txHash finalityState <$> normalizedEvents).

(** The watched events and the miner fee of a watched payer. *)
Definition btc_events (txStatus feePayer feeAmount : string) (rawEvents : list (option BalanceEventInfo))
    (watchedAddresses : gset string) : list NormalizedBalanceEvent :=
  let normalizedEvents := buildRawBalanceEventsMulti rawEvents watchedAddresses false in
  normalizedEvents ++
  if decide (feePayer ∈ watchedAddresses) then
    if shouldEmitBTCFeeEvent txStatus feePayer feeAmount normalizedEvents &&
       negb (hasBTCFeeEvent normalizedEvents feePayer)
    then [buildBTCFeeBalanceEvent feePayer feeAmount] else []
  else [].

Definition buildCanonicalBTCBalanceEventsMulti (chain : Chain) (network : Network)
    (txHash txStatus feePayer feeAmount finalityState : string) (rawEvents : list (option BalanceEventInfo))
    (watchedAddresses : gset string) : list NormalizedBalanceEvent :=
  let finalityState := normalizeFinalityStateOrDefault chain finalityState in
  canonicalizeBTCBalanceEvents chain network txHash finalityState
    (btc_events txStatus feePayer feeAmount rawEvents watchedAddresses).

(** *** EVM *)

Definition shouldReplaceCanonicalBaseEvent : NormalizedBalanceEvent -> NormalizedBalanceEvent -> bool :=
  shouldReplaceCanonicalBTCEvent.

Definition base_event (chain : Chain) (network : Network) (txHash finalityState : string)
    (be : NormalizedBalanceEvent) : NormalizedBalanceEvent :=
  let base_fee := isBaseFeeActivity (nbe_ActivityType be) in
  let is_fee := String.eqb (nbe_ActivityType be) ActivityFee in
  let action := if base_fee then nbe_ActivityType be else nbe_EventAction be in
  let delta := if base_fee || is_fee then canonicalFeeDelta (nbe_Delta be) else nbe_Delta be in
  let metadataPath := resolveBaseMetadataEventPath (metadataFromChainData (nbe_ChainData be)) in
  let eventPath := trim_space (if negb (str_empty metadataPath) then metadataPath else nbe_EventPath be) in
  let eventPath :=
    if str_empty eventPath
    then balanceEventPath (wrap32 (nbe_OuterInstructionIndex be)) (wrap32 (nbe_InnerInstructionIndex be))
    else eventPath in
  let address := canonicalizeAddressIdentity chain (nbe_Address be) in
  let contract := canonicalizeAddressIdentity chain (nbe_ContractAddress be) in
  let assetID := asset_or_contract (canonicalizeAddressIdentity chain (nbe_AssetID be)) contract in
  let actor := canonicalizeAddressIdentity chain address in
  stamp be (nbe_OuterInstructionIndex be) (nbe_InnerInstructionIndex be) action delta
    address (canonicalizeAddressIdentity chain (nbe_CounterpartyAddress be)) contract assetID eventPath
    "base_log" actor
    (if base_fee || is_fee then "fee" else mapTokenTypeToAssetType (nbe_TokenType be)) finalityState
    (evmDecoderVersion chain)
    (buildCanonicalEventID chain network txHash eventPath actor assetID (nbe_ActivityType be)).

Definition canonicalizeBaseBalanceEvents (chain : Chain) (network : Network) (txHash finalityState : string)
    (normalizedEvents : list NormalizedBalanceEvent) : list NormalizedBalanceEvent :=
  let finalityState := normalizeFinalityStateOrDefault chain finalityState in
  canonical nbe_EventID shouldReplaceCanonicalBaseEvent
    (base_event chain network txHash finalityState <$> normalizedEvents).

(** The watched events, unless the transaction was reverted, and the fees of a watched payer. *)
Definition base_events (chain : Chain) (txStatus feePayer feeAmount : string)
    (rawEvents : list (option BalanceEventInfo)) (watchedAddresses : gset string) : list NormalizedBalanceEvent :=
  (if equal_fold txStatus TxStatusFailed then []
   else buildRawBalanceEventsMulti rawEvents watchedAddresses true) ++
  if bool_decide (feePayer ∈ watchedAddresses) && shouldEmitBaseFeeEvent txStatus feePayer feeAmount
  then base_fee_events chain feePayer feeAmount (collectBaseMetadata rawEvents) else [].

Definition buildCanonicalBaseBalanceEventsMulti (chain : Chain) (network : Network)
    (txHash txStatus feePayer feeAmount finalityState : string) (rawEvents : list (option BalanceEventInfo))
    (watchedAddresses : gset string) : list NormalizedBalanceEvent :=
  let finalityState := normalizeFinalityStateOrDefault chain finalityState in
  canonicalizeBaseBalanceEvents chain network txHash finalityState
    (base_events chain txStatus feePayer feeAmount rawEvents watchedAddresses).

(** *** Solana *)

Record solanaCanonicalSelection := { FromOuterInstruction : bool; OriginalInnerIndex : Z }.

Definition shouldReplaceCanonicalSolanaEvent (existing incoming : NormalizedBalanceEvent)
    (existingSelection incomingSelection : solanaCanonicalSelection) : bool :=
  match compareFinalityStateStrength (nbe_FinalityState existing) (nbe_FinalityState incoming) with
  | Lt => true
  | Gt => false
  | Eq =>
      if String.eqb (nbe_ActivityType existing) ActivityFee || String.eqb (nbe_ActivityType incoming) ActivityFee
      then
        if negb (String.eqb (nbe_EventAction existing) (nbe_EventAction incoming))
        then str_ltb (nbe_EventAction incoming) (nbe_EventAction existing)
        else is_gt (compareCanonicalDeltas (nbe_Delta existing) (nbe_Delta incoming))
      else if negb (Bool.eqb (FromOuterInstruction existingSelection) (FromOuterInstruction incomingSelection))
      then FromOuterInstruction incomingSelection
      else if negb (OriginalInnerIndex existingSelection =? OriginalInnerIndex incomingSelection)
      then OriginalInnerIndex incomingSelection <? OriginalInnerIndex existingSelection
      else if negb (String.eqb (nbe_EventAction existing) (nbe_EventAction incoming))
      then str_ltb (nbe_EventAction incoming) (nbe_EventAction existing)
      else if negb (String.eqb (nbe_ContractAddress existing) (nbe_ContractAddress incoming))
      then str_ltb (nbe_ContractAddress incoming) (nbe_ContractAddress existing)
      else is_gt (compareCanonicalDeltas (nbe_Delta existing) (nbe_Delta incoming))
  end.

(** The first loop: canonical addresses, and the instruction path the metadata gives. *)
Definition solana_resolve (chain : Chain) (be : NormalizedBalanceEvent) : NormalizedBalanceEvent :=
  let contract := canonicalizeAddressIdentity chain (nbe_ContractAddress be) in
  let '(outer, inner) :=
    if String.eqb (nbe_ActivityType be) ActivityFee
    then (nbe_OuterInstructionIndex be, nbe_InnerInstructionIndex be)
    else default (nbe_OuterInstructionIndex be, nbe_InnerInstructionIndex be)
           (solanaInstructionPathFromChainData (nbe_ChainData be)) in
  {| nbe_OuterInstructionIndex := outer; nbe_InnerInstructionIndex := inner;
     nbe_ActivityType := nbe_ActivityType be; nbe_EventAction := nbe_EventAction be;
     nbe_ProgramID := nbe_ProgramID be; nbe_ContractAddress := contract;
     nbe_Address := canonicalizeAddressIdentity chain (nbe_Address be);
     nbe_CounterpartyAddress := canonicalizeAddressIdentity chain (nbe_CounterpartyAddress be);
     nbe_Delta := nbe_Delta be; nbe_ChainData := nbe_ChainData be; nbe_TokenSymbol := nbe_TokenSymbol be;
     nbe_TokenName := nbe_TokenName be; nbe_TokenDecimals := nbe_TokenDecimals be;
     nbe_TokenType := nbe_TokenType be; nbe_EventID := nbe_EventID be; nbe_BlockHash := nbe_BlockHash be;
     nbe_TxIndex := nbe_TxIndex be; nbe_EventPath := nbe_EventPath be;
     nbe_EventPathType := nbe_EventPathType be; nbe_ActorAddress := nbe_ActorAddress be;
     nbe_AssetType := nbe_AssetType be;
     nbe_AssetID := asset_or_contract (canonicalizeAddressIdentity chain (nbe_AssetID be)) contract;
     nbe_FinalityState := nbe_FinalityState be; nbe_DecoderVersion := nbe_DecoderVersion be;
     nbe_SchemaVersion := nbe_SchemaVersion be |}.

(** [solanaInstructionOwnerKey] *)
Definition owner_key : Type := Z * string * string * string.
Definition owner (be : NormalizedBalanceEvent) : owner_key :=
  (nbe_OuterInstructionIndex be, nbe_Address be, nbe_AssetID be, nbe_ActivityType be).

Definition owns_outer (be : NormalizedBalanceEvent) : bool :=
  negb (String.eqb (nbe_ActivityType be) ActivityFee) && (0 <=? nbe_OuterInstructionIndex be) &&
  (nbe_InnerInstructionIndex be =? -1).

Definition outerHasOwner (events : list NormalizedBalanceEvent) : gset owner_key :=
  list_to_set (owner <$> filter (fun be => owns_outer be = true) events).

Definition solana_order : NormalizedBalanceEvent -> NormalizedBalanceEvent -> comparison :=
  lex (on nbe_ActivityType String.compare) (lex (on nbe_OuterInstructionIndex Z.compare)
  (lex (on nbe_InnerInstructionIndex Z.compare) (lex (on nbe_Address String.compare)
  (on nbe_ContractAddress String.compare)))).

(** The second loop, for one event: an inner event whose outer instruction has an event of
    the same owner moves to the outer instruction. *)
Definition solana_event (chain : Chain) (network : Network) (txHash finalityState : string) (owners : gset owner_key)
    (be : NormalizedBalanceEvent) : NormalizedBalanceEvent * solanaCanonicalSelection :=
  let is_fee := String.eqb (nbe_ActivityType be) ActivityFee in
  let outer := if is_fee then -1 else nbe_OuterInstructionIndex be in
  let inner := if is_fee then -1 else nbe_InnerInstructionIndex be in
  let delta := if is_fee then canonicalFeeDelta (nbe_Delta be) else nbe_Delta be in
  let action := if is_fee then "transaction_fee" else nbe_EventAction be in
  let moved :=
    negb is_fee && (0 <=? outer) && (-1 <? inner) &&
    bool_decide ((outer, nbe_Address be, nbe_AssetID be, nbe_ActivityType be) ∈ owners) in
  let selection :=
    {| FromOuterInstruction := if moved then false else inner =? -1; OriginalInnerIndex := wrap32 inner |} in
  let inner := if moved then -1 else inner in
  let eventPath := balanceEventPath (wrap32 outer) (wrap32 inner) in
  (stamp be outer inner action delta (nbe_Address be) (nbe_CounterpartyAddress be) (nbe_ContractAddress be)
     (nbe_AssetID be) eventPath "solana_instruction" (nbe_Address be)
     (if is_fee then "fee" else mapTokenTypeToAssetType (nbe_TokenType be)) finalityState "solana-decoder-v1"
     (buildCanonicalEventID chain network txHash eventPath (nbe_Address be) (nbe_AssetID be) (nbe_ActivityType be)),
   selection).

(** Both loops, before events of one identifier are merged. *)
Definition solana_stamped (chain : Chain) (network : Network) (txHash finalityState : string)
    (normalizedEvents : list NormalizedBalanceEvent) : list (NormalizedBalanceEvent * solanaCanonicalSelection) :=
  let normalizedEvents := solana_resolve chain <$> normalizedEvents in
  let owners := outerHasOwner normalizedEvents in
  solana_event chain network txHash finalityState owners <$> stable_sort solana_order normalizedEvents.

(** The two maps of the source have the same keys: here one map of pairs.  The sorted
    [eventOrder] is the list of its keys. *)
Definition canonicalizeSolanaBalanceEvents (chain : Chain) (network : Network) (txHash finalityState : string)
    (normalizedEvents : list NormalizedBalanceEvent) : list NormalizedBalanceEvent :=
  let finalityState := normalizeFinalityStateOrDefault chain finalityState in
  fst <$> canonical (fun es => nbe_EventID es.1)
            (fun existing incoming =>
               shouldReplaceCanonicalSolanaEvent existing.1 incoming.1 existing.2 incoming.2)
            (solana_stamped chain network txHash finalityState normalizedEvents).

(** The watched events and the fee of a watched payer, unless the sidecar gave it. *)
Definition solana_events (txStatus feePayer feeAmount : string) (rawEvents : list (option BalanceEventInfo))
    (watchedAddresses : gset string) : list NormalizedBalanceEvent :=
  let normalizedEvents := buildRawBalanceEventsMulti rawEvents watchedAddresses true in
  normalizedEvents ++
  if decide (feePayer ∈ watchedAddresses) then
    if shouldEmitSolanaFeeEvent txStatus feePayer feeAmount && negb (hasSolanaFeeEvent normalizedEvents feePayer)
    then [buildSolanaFeeBalanceEvent feePayer feeAmount] else []
  else [].

Definition buildCanonicalSolanaBalanceEventsMulti (chain : Chain) (network : Network)
    (txHash txStatus feePayer feeAmount finalityState : string) (rawEvents : list (option BalanceEventInfo))
    (watchedAddresses : gset string) : list NormalizedBalanceEvent :=
  let finalityState := normalizeFinalityStateOrDefault chain finalityState in
  canonicalizeSolanaBalanceEvents chain network txHash finalityState
    (solana_events txStatus feePayer feeAmount rawEvents watchedAddresses).

(** ** A transaction *)

Definition buildCanonicalBalanceEvents (chain : Chain) (network : Network) (txHash : string)
    (result : TransactionResult) (finalityState : string) (watchedAddrs : gset string) : list NormalizedBalanceEvent :=
  let build :=
    if IsEVMChain chain then buildCanonicalBaseBalanceEventsMulti
    else if String.eqb chain ChainBTC then buildCanonicalBTCBalanceEventsMulti
    else buildCanonicalSolanaBalanceEventsMulti in
  build chain network txHash (tr_Status result) (tr_FeePayer result) (tr_FeeAmount result) finalityState
    (tr_BalanceEvents result) watchedAddrs.

(** Times are nanoseconds. *)
Definition normalizedTxFromResult (chain : Chain) (network : Network) (result : TransactionResult)
    (sigTime : option Z) (watchedAddrs : gset string) : NormalizedTransaction :=
  let id := CanonicalSignatureIdentity chain (tr_TxHash result) in
  let txHash := if str_empty id then tr_TxHash result else id in
  let finalityState := resolveResultFinalityState chain (Some result) in
  {| ntx_TxHash := txHash; ntx_BlockCursor := tr_BlockCursor result;
     ntx_BlockTime := if tr_BlockTime result =? 0 then sigTime else Some (tr_BlockTime result * 10 ^ 9);
     ntx_FeeAmount := tr_FeeAmount result; ntx_FeePayer := tr_FeePayer result; ntx_Status := tr_Status result;
     ntx_Err := tr_Error result; ntx_ChainData := emptyJSONObject; ntx_BlockHash := ""; ntx_ParentHash := "";
     ntx_BalanceEvents := buildCanonicalBalanceEvents chain network txHash result finalityState watchedAddrs |}.

(** [replay_export.go]: the same without a signature's time. *)
Definition ReplayNormalizeTxResult (chain : Chain) (network : Network) (result : TransactionResult)
    (watchedAddrs : gset string) : NormalizedTransaction :=
  normalizedTxFromResult chain network result None watchedAddrs.
