(* ===== verification/NormalizerProofs.v ===== *)
(** * Normalizer: properties of the balance events

    Which events a transaction gets, that merging by identifier does not depend on the
    order in which the sidecar lists them, and what the fees amount to. *)

From Stdlib Require Import ZArith String Ascii Lia.
From stdpp Require Import base option list strings gmap sorting.
From S2P Require Import Prelude Ordering Json Domain Identity Sha256 NormalizerRules NormalizerEvents.

Open Scope Z_scope.

(** ** Merging by identifier *)

Section Merge.
Context {E : Type} (key : E -> string) (replaces : E -> E -> bool).

Abbreviation merged := (foldl (keep_best key replaces)).

Lemma keep_best_cases m e : exists x, keep_best key replaces m e !! key e = Some x /\
  (x = e \/ (m !! key e = Some x /\ replaces x e = false)) /\
  (forall y, m !! key e = Some y -> x = y \/ replaces y e = true) /\
  forall k, k <> key e -> keep_best key replaces m e !! k = m !! k.
Proof.
  unfold keep_best. destruct (m !! key e) as [y|] eqn:Ey.
  - destruct (replaces y e) eqn:Er.
    + exists e. rewrite lookup_insert_eq. split; [done|]. split; [auto|]. split; [intros ? [= <-]; auto|].
      intros. by rewrite lookup_insert_ne.
    + exists y. split; [done|]. split; [auto|]. split; [intros ? [= <-]; auto|done].
  - exists e. rewrite lookup_insert_eq. split; [done|]. split; [auto|]. split; [done|].
    intros. by rewrite lookup_insert_ne.
Qed.

Lemma merged_spec l : forall k x, merged ∅ l !! k = Some x -> key x = k /\ x ∈ l.
Proof.
  induction l as [|e l IH] using rev_ind; intros k x; [done|]. rewrite foldl_app. simpl. intros Hl.
  destruct (keep_best_cases (merged ∅ l) e) as (y & Hy & Hc & _ & Ho).
  destruct (decide (k = key e)) as [->|Hne].
  - rewrite Hy in Hl. simplify_eq. destruct Hc as [->|[Hm _]]; [split; [done|set_solver]|].
    apply IH in Hm. set_solver.
  - rewrite Ho in Hl by done. apply IH in Hl. set_solver.
Qed.

Lemma merged_complete l : forall e, e ∈ l -> is_Some (merged ∅ l !! key e).
Proof.
  induction l as [|e l IH] using rev_ind; intros x Hx; [set_solver|]. rewrite foldl_app. simpl.
  destruct (keep_best_cases (merged ∅ l) e) as (y & Hy & _ & _ & Ho).
  destruct (decide (key x = key e)) as [->|Hne]; [by rewrite Hy|]. rewrite Ho by done.
  apply IH. apply elem_of_app in Hx as [|Hx%list_elem_of_singleton]; [done|by subst].
Qed.

Lemma canonical_elem l x : x ∈ canonical key replaces l -> x ∈ l.
Proof. unfold canonical. rewrite sorted_values_elem. intros [k Hk]. by apply merged_spec in Hk as [_ ?]. Qed.

Lemma canonical_complete l e : e ∈ l -> exists x, x ∈ canonical key replaces l /\ key x = key e.
Proof.
  intros He. destruct (merged_complete l e He) as [x Hx]. exists x.
  split; [apply sorted_values_elem; by eexists|]. by apply merged_spec in Hx as [? _].
Qed.

Lemma canonical_keys l : key <$> canonical key replaces l = sorted_keys (merged ∅ l).
Proof.
  unfold canonical, sorted_values, sorted_keys. rewrite <- list_fmap_compose.
  apply list_fmap_ext. intros i [k x] Hi. apply list_elem_of_lookup_2, sorted_entries_elem, merged_spec in Hi.
  by destruct Hi.
Qed.

Lemma canonical_sorted l : StronglySorted str_lt (key <$> canonical key replaces l).
Proof. rewrite canonical_keys. apply sorted_keys_strict. Qed.

(** When the replacement follows a total preorder, the event that stays is a least one. *)
Context (cmp : E -> E -> comparison) `{!TotalCompare cmp} (P : E -> Prop)
  (replaces_cmp : forall x y, P x -> P y -> key x = key y -> replaces x y = is_gt (cmp x y)).

Lemma merged_least l : Forall P l ->
  forall k x, merged ∅ l !! k = Some x -> forall e, e ∈ l -> key e = k -> cmp x e <> Gt.
Proof.
  induction l as [|e l IH] using rev_ind; intros HP k x; [done|]. rewrite foldl_app. simpl.
  apply Forall_app in HP as [HP HPe]. apply Forall_cons in HPe as [HPe _]. specialize (IH HP).
  destruct (keep_best_cases (merged ∅ l) e) as (y & Hy & Hc & Hr & Ho). intros Hl.
  destruct (decide (k = key e)) as [->|Hne].
  - rewrite Hy in Hl. simplify_eq. intros e' He' Hk'.
    apply elem_of_app in He' as [He'|He'%list_elem_of_singleton].
    + destruct (merged_complete l e' He') as [z Hz]. rewrite Hk' in Hz. pose proof (IH _ _ Hz e' He' Hk') as Hze.
      destruct (Hr z Hz) as [->|Hrep]; [done|].
      destruct Hc as [->|[Hm Hno]].
      * apply merged_spec in Hz as [Hkz Hzl]. rewrite replaces_cmp in Hrep; [|by eapply Forall_forall|done|done].
        apply (cmp_le_trans (cmp:=cmp) e z e'); [|done]. rewrite (cmp_sym (cmp:=cmp) z e).
        by destruct (cmp z e).
      * congruence.
    + subst e'. destruct Hc as [->|[Hm Hno]]; [by rewrite (cmp_refl cmp)|].
      apply merged_spec in Hm as [Hkx Hxl]. rewrite replaces_cmp in Hno; [|by eapply Forall_forall|done|done].
      by destruct (cmp x e).
  - rewrite Ho in Hl by done. intros e' He' Hk'. eapply IH; [exact Hl| |done].
    apply elem_of_app in He' as [|He'%list_elem_of_singleton]; [done|]. congruence.
Qed.

Definition same_choice (x y : E) : Prop := key x = key y /\ cmp x y = Eq.

Lemma merged_perm l l' k : l ≡ₚ l' -> Forall P l ->
  option_Forall2 same_choice (merged ∅ l !! k) (merged ∅ l' !! k).
Proof.
  intros Hp HP. assert (Forall P l') as HP' by (by rewrite <- Hp).
  destruct (merged ∅ l !! k) as [x|] eqn:Ex, (merged ∅ l' !! k) as [y|] eqn:Ey; [constructor|exfalso|exfalso|constructor].
  - pose proof (merged_spec _ _ _ Ex) as [Hkx Hx]. pose proof (merged_spec _ _ _ Ey) as [Hky Hy].
    split; [congruence|].
    pose proof (merged_least l HP _ _ Ex y ltac:(by rewrite Hp) Hky) as H1.
    pose proof (merged_least l' HP' _ _ Ey x ltac:(by rewrite <- Hp) Hkx) as H2.
    rewrite (cmp_sym (cmp:=cmp) x y) in H2. by destruct (cmp x y).
  - pose proof (merged_spec _ _ _ Ex) as [Hkx Hx]. rewrite Hp in Hx. apply merged_complete in Hx.
    rewrite Hkx, Ey in Hx. by destruct Hx.
  - pose proof (merged_spec _ _ _ Ey) as [Hky Hy]. rewrite <- Hp in Hy. apply merged_complete in Hy.
    rewrite Hky, Ex in Hy. by destruct Hy.
Qed.

Lemma merged_keys_perm l l' : l ≡ₚ l' -> Forall P l -> sorted_keys (merged ∅ l) = sorted_keys (merged ∅ l').
Proof.
  intros Hp HP. apply (sorted_unique String.compare); [apply sorted_keys_strict|apply sorted_keys_strict|].
  apply NoDup_Permutation; [apply str_sorted_NoDup, sorted_keys_strict|apply str_sorted_NoDup, sorted_keys_strict|].
  intros k. unfold sorted_keys. rewrite !list_elem_of_fmap. pose proof (merged_perm l l' k Hp HP) as Hk.
  split; intros ([k' x] & -> & Hx); rewrite sorted_entries_elem in Hx; simpl in *; rewrite Hx in Hk.
  - inversion Hk as [? y ? Hxy|]; subst. exists (k', y). by rewrite sorted_entries_elem.
  - inversion Hk as [y ? ? Hxy|]; subst. exists (k', y). by rewrite sorted_entries_elem.
Qed.

Lemma canonical_perm l l' : l ≡ₚ l' -> Forall P l ->
  Forall2 same_choice (canonical key replaces l) (canonical key replaces l').
Proof.
  intros Hp HP. apply Forall2_same_length_lookup. split.
  { pose proof (f_equal length (merged_keys_perm l l' Hp HP)) as Hl. unfold sorted_keys in Hl.
    rewrite !length_fmap in Hl. unfold canonical, sorted_values. by rewrite !length_fmap. }
  intros i x y Hx Hy. pose proof (merged_perm l l' (key x) Hp HP) as Hk.
  assert (key x = key y) as Hkey.
  { pose proof (merged_keys_perm l l' Hp HP) as Hl. rewrite <- !canonical_keys in Hl.
    apply (f_equal (fun l => l !! i)) in Hl. rewrite !list_lookup_fmap, Hx, Hy in Hl. by injection Hl. }
  assert (forall l0 z j, canonical key replaces l0 !! j = Some z -> merged ∅ l0 !! key z = Some z) as Hval.
  { intros l0 z j Hz. apply list_elem_of_lookup_2, sorted_values_elem in Hz as [k Hz].
    by pose proof (merged_spec _ _ _ Hz) as [-> _]. }
  rewrite (Hval _ _ _ Hx), Hkey, (Hval _ _ _ Hy) in Hk. by inversion Hk.
Qed.
End Merge.

(** ** The order of replacement *)

Definition delta_value (be : NormalizedBalanceEvent) : Z := default 0 (parseSignedBigInt (nbe_Delta be)).
Definition delta_parses (be : NormalizedBalanceEvent) : Prop := is_Some (parseSignedBigInt (nbe_Delta be)).

#[export] Instance finality_total : TotalCompare compareFinalityStateStrength.
Proof. unfold compareFinalityStateStrength. apply _. Qed.

Definition weaker_finality : NormalizedBalanceEvent -> NormalizedBalanceEvent -> comparison :=
  on nbe_FinalityState (opposite compareFinalityStateStrength).

Definition base_order : NormalizedBalanceEvent -> NormalizedBalanceEvent -> comparison :=
  lex weaker_finality (lex (on nbe_EventAction String.compare) (lex (on nbe_ContractAddress String.compare)
    (lex (on nbe_CounterpartyAddress String.compare) (on delta_value Z.compare)))).

#[export] Instance base_order_total : TotalCompare base_order.
Proof. unfold base_order, weaker_finality. apply _. Qed.

Lemma compare_deltas x y : delta_parses x -> delta_parses y ->
  compareCanonicalDeltas (nbe_Delta x) (nbe_Delta y) = on delta_value Z.compare x y.
Proof. intros [a Ha] [b Hb]. unfold compareCanonicalDeltas, on, delta_value. by rewrite Ha, Hb. Qed.

Lemma finality_gt x y (r : bool) (c : comparison) : r = is_gt c ->
  match compareFinalityStateStrength (nbe_FinalityState x) (nbe_FinalityState y) with
  | Lt => true | Gt => false | Eq => r
  end = is_gt (match weaker_finality x y with Eq => c | o => o end).
Proof.
  intros ->. unfold weaker_finality, on, opposite.
  rewrite (cmp_sym (cmp:=compareFinalityStateStrength) (nbe_FinalityState x) (nbe_FinalityState y)).
  by destruct (compareFinalityStateStrength _ _).
Qed.

Lemma replace_base_order x y : delta_parses x -> delta_parses y ->
  shouldReplaceCanonicalBTCEvent x y = is_gt (base_order x y).
Proof.
  intros Hx Hy. unfold shouldReplaceCanonicalBTCEvent, base_order, lex.
  apply finality_gt. do 3 apply lex_string_gt. by rewrite compare_deltas.
Qed.

Definition solana_fee_order : NormalizedBalanceEvent * solanaCanonicalSelection -> _ -> comparison :=
  lex (on (fun e => nbe_EventAction e.1) String.compare) (on (fun e => delta_value e.1) Z.compare).

Definition solana_change_order : NormalizedBalanceEvent * solanaCanonicalSelection -> _ -> comparison :=
  lex (on (fun e => FromOuterInstruction e.2) (opposite bool_compare))
  (lex (on (fun e => OriginalInnerIndex e.2) Z.compare)
  (lex (on (fun e => nbe_EventAction e.1) String.compare)
  (lex (on (fun e => nbe_ContractAddress e.1) String.compare) (on (fun e => delta_value e.1) Z.compare)))).

Definition is_fee (be : NormalizedBalanceEvent) : bool := String.eqb (nbe_ActivityType be) ActivityFee.

(** Fees come after changes; the source compares a fee with a change as two fees, which
    happens only when both have one identifier. *)
Definition solana_select : NormalizedBalanceEvent * solanaCanonicalSelection -> _ -> comparison :=
  lex (fun x y => weaker_finality x.1 y.1)
    (lex (on (fun e => is_fee e.1) bool_compare)
      (fun x y => if is_fee x.1 && is_fee y.1 then solana_fee_order x y
                  else if is_fee x.1 || is_fee y.1 then Eq else solana_change_order x y)).

#[export] Instance solana_select_total : TotalCompare solana_select.
Proof.
  assert (TotalCompare (fun x y : NormalizedBalanceEvent * solanaCanonicalSelection => weaker_finality x.1 y.1)) as Hf.
  { change (TotalCompare (on (fun e : NormalizedBalanceEvent * solanaCanonicalSelection => nbe_FinalityState e.1)
      (opposite compareFinalityStateStrength))). apply _. }
  assert (TotalCompare solana_fee_order) as H1 by (unfold solana_fee_order; apply _).
  assert (TotalCompare solana_change_order) as H2 by (unfold solana_change_order; apply _).
  assert (TotalCompare (lex (on (fun e : NormalizedBalanceEvent * solanaCanonicalSelection => is_fee e.1) bool_compare)
      (fun x y => if is_fee x.1 && is_fee y.1 then solana_fee_order x y
                  else if is_fee x.1 || is_fee y.1 then Eq else solana_change_order x y))) as H3.
  { split; unfold lex, on.
    - intros x y. destruct (is_fee x.1), (is_fee y.1); simpl; try done; [by apply (cmp_sym (cmp:=solana_fee_order))|].
      by apply (cmp_sym (cmp:=solana_change_order)).
    - intros x y z. destruct (is_fee x.1), (is_fee y.1), (is_fee z.1); simpl; try done;
        [by apply (cmp_le_trans (cmp:=solana_fee_order))|by apply (cmp_le_trans (cmp:=solana_change_order))]. }
  unfold solana_select. by apply lex_total.
Qed.

Lemma replace_solana_order x y : delta_parses x.1 -> delta_parses y.1 -> is_fee x.1 = is_fee y.1 ->
  shouldReplaceCanonicalSolanaEvent x.1 y.1 x.2 y.2 = is_gt (solana_select x y).
Proof.
  intros Hx Hy Hf. unfold shouldReplaceCanonicalSolanaEvent, solana_select. unfold lex at 1.
  apply finality_gt. fold (is_fee x.1). fold (is_fee y.1). unfold lex at 1, on at 1. rewrite <- Hf.
  destruct (is_fee x.1); simpl.
  - unfold solana_fee_order, lex. apply lex_string_gt. by rewrite compare_deltas.
  - unfold solana_change_order, lex. unfold on at 1. unfold opposite.
    destruct (FromOuterInstruction x.2), (FromOuterInstruction y.2); simpl; try done;
      apply lex_Z_gt; do 2 apply lex_string_gt; by rewrite compare_deltas.
Qed.

(** ** Amounts *)

Lemma all_digits_val s acc : all_chars is_digit s = true <-> is_Some (digits_val acc s).
Proof.
  revert acc. induction s as [|c s IH]; intros acc; simpl; [by split; [eexists|]|].
  destruct (is_digit c); simpl; [apply IH|]. split; [done|by intros [? ?]].
Qed.

Lemma parse_unsigned_digits s : is_Some (parse_unsigned s) <-> s <> EmptyString /\ all_chars is_digit s = true.
Proof.
  destruct s as [|c s]; [split; [by intros [? ?]|by intros [? ?]]|]. rewrite (all_digits_val _ 0).
  change (parse_unsigned (String c s)) with (digits_val 0 (String c s)). split; [done|by intros [_ ?]].
Qed.

(** A number is its optional sign and its digits. *)
Lemma parse_decimal_inv s v : parse_decimal s = Some v ->
  exists t, strip_sign s = t /\ parse_unsigned t = Some (Z.abs v).
Proof.
  intros H. exists (strip_sign s). split; [done|]. destruct s as [|c s]; [done|].
  destruct (ascii_dec c "-") as [->|Hm].
  { simpl in H. change (parse_unsigned s = Some (Z.abs v)).
    destruct (parse_unsigned s) as [n|] eqn:E; [|done]. apply parse_unsigned_nonneg in E. injection H as <-.
    f_equal. lia. }
  destruct (ascii_dec c "+") as [->|Hp].
  { simpl in H. change (parse_unsigned s = Some (Z.abs v)). rewrite H. apply parse_unsigned_nonneg in H.
    f_equal. lia. }
  assert (parse_unsigned (String c s) = Some v) as H'.
  { destruct c as [[] [] [] [] [] [] [] []]; solve [exact H|done]. }
  assert (strip_sign (String c s) = String c s) as ->.
  { unfold strip_sign. by rewrite (proj2 (Ascii.eqb_neq _ _) Hm), (proj2 (Ascii.eqb_neq _ _) Hp). }
  rewrite H'. apply parse_unsigned_nonneg in H'. f_equal. lia.
Qed.

Lemma parse_negated t n : parse_unsigned t = Some n -> parseSignedBigInt ("-" +:+ t) = Some (- n).
Proof.
  intros H. assert (parse_decimal ("-" +:+ t) = Some (- n)) as Hd.
  { change (Z.opp <$> parse_unsigned t = Some (- n)). by rewrite H. }
  unfold parseSignedBigInt. by rewrite (parse_decimal_trim _ _ Hd).
Qed.

Lemma fee_delta_digits t n : parse_unsigned t = Some n -> forall s, trim_space s <> EmptyString ->
  strip_sign (trim_space s) = t ->
  canonicalFeeDelta s = if String.eqb t "0" then "-0" else "-" +:+ t.
Proof.
  intros Ht s Hne Hs. unfold canonicalFeeDelta, str_empty. rewrite Hs.
  rewrite (proj2 (String.eqb_neq _ _) Hne).
  assert (is_Some (parse_unsigned t)) as [Hn Hd]%parse_unsigned_digits by by rewrite Ht.
  rewrite (proj2 (String.eqb_neq _ _) Hn), Hd. simpl. by destruct (String.eqb t "0").
Qed.

(** The delta of a fee is minus the amount, whatever sign the amount carries. *)
Lemma canonicalFeeDelta_value d v : parseSignedBigInt d = Some v ->
  parseSignedBigInt (canonicalFeeDelta d) = Some (- Z.abs v).
Proof.
  unfold parseSignedBigInt at 1, str_empty. destruct (String.eqb_spec (trim_space d) "") as [|Hne]; [done|].
  intros H. apply parse_decimal_inv in H as (t & Ht & Hu).
  rewrite (fee_delta_digits t (Z.abs v) Hu d Hne Ht).
  destruct (String.eqb_spec t "0") as [->|_]; [|by apply parse_negated].
  injection Hu as Hv. rewrite <- Hv. reflexivity.
Qed.

Lemma canonicalFeeDelta_parses d : is_Some (parseSignedBigInt d) -> is_Some (parseSignedBigInt (canonicalFeeDelta d)).
Proof. intros [v Hv]. rewrite (canonicalFeeDelta_value d v Hv). by eexists. Qed.

Lemma parse_signed_show z : parseSignedBigInt (show_Z z) = Some z.
Proof. unfold parseSignedBigInt. rewrite trim_show_Z, show_Z_nonempty. apply parse_show. Qed.

Lemma canonicalFeeDelta_idem d : is_Some (parseSignedBigInt d) ->
  canonicalFeeDelta (canonicalFeeDelta d) = canonicalFeeDelta d.
Proof.
  unfold parseSignedBigInt, str_empty. destruct (String.eqb_spec (trim_space d) "") as [|Hne]; [by intros [? ?]|].
  intros [v H]. apply parse_decimal_inv in H as (t & Ht & Hu).
  rewrite (fee_delta_digits t (Z.abs v) Hu d Hne Ht).
  destruct (String.eqb_spec t "0") as [->|Hz]; [reflexivity|].
  assert (trim_space ("-" +:+ t) = "-" +:+ t) as Htr.
  { apply (parse_decimal_trim _ (- Z.abs v)). change (Z.opp <$> parse_unsigned t = Some (- Z.abs v)). by rewrite Hu. }
  rewrite (fee_delta_digits t (Z.abs v) Hu); [|by rewrite Htr|by rewrite Htr].
  by rewrite (proj2 (String.eqb_neq _ _) Hz).
Qed.

(** ** The events of a transaction *)

(** The events of a transaction, stamped and not yet merged. *)
Definition stamped_events (chain : Chain) (network : Network) (txHash : string) (result : TransactionResult)
    (finalityState : string) (watchedAddrs : gset string) : list NormalizedBalanceEvent :=
  let finalityState := normalizeFinalityStateOrDefault chain finalityState in
  if IsEVMChain chain then
    base_event chain network txHash finalityState <$>
      base_events chain (tr_Status result) (tr_FeePayer result) (tr_FeeAmount result) (tr_BalanceEvents result)
        watchedAddrs
  else if String.eqb chain ChainBTC then
    btc_event chain network txHash finalityState <$>
      btc_events (tr_Status result) (tr_FeePayer result) (tr_FeeAmount result) (tr_BalanceEvents result) watchedAddrs
  else
    fst <$> solana_stamped chain network txHash finalityState
      (solana_events (tr_Status result) (tr_FeePayer result) (tr_FeeAmount result) (tr_BalanceEvents result)
         watchedAddrs).

Lemma canonical_finality state : canonicalizeFinalityState (canonicalizeFinalityState state) = canonicalizeFinalityState state.
Proof.
  assert (str_in (canonicalizeFinalityState state) [""; "processed"; "confirmed"; "safe"; "finalized"] = true) as H.
  { unfold canonicalizeFinalityState. destruct (str_in state _) eqn:E; [done|].
    clear E. cbv zeta. generalize (to_lower (trim_space state)). intros s.
    repeat match goal with |- context [if ?b then _ else _] => destruct b; [reflexivity|] end. done. }
  unfold canonicalizeFinalityState at 1. by rewrite H.
Qed.

Lemma normalize_finality_idem chain state :
  normalizeFinalityStateOrDefault chain (normalizeFinalityStateOrDefault chain state) =
  normalizeFinalityStateOrDefault chain state.
Proof.
  unfold normalizeFinalityStateOrDefault at 2 3. destruct (str_empty (canonicalizeFinalityState state)) eqn:E; simpl.
  - unfold defaultFinalityState. by destruct (String.eqb chain ChainSolana) eqn:Es;
      unfold normalizeFinalityStateOrDefault, defaultFinalityState; simpl.
  - unfold normalizeFinalityStateOrDefault. by rewrite canonical_finality, E.
Qed.

(** A transaction's events are the merge of its stamped events. *)
Lemma events_merge chain network txHash result finalityState watchedAddrs :
  let out := buildCanonicalBalanceEvents chain network txHash result finalityState watchedAddrs in
  let stamped := stamped_events chain network txHash result finalityState watchedAddrs in
  StronglySorted str_lt (nbe_EventID <$> out) /\ (forall x, x ∈ out -> x ∈ stamped) /\
  (forall e, e ∈ stamped -> exists x, x ∈ out /\ nbe_EventID x = nbe_EventID e).
Proof.
  cbv zeta. unfold buildCanonicalBalanceEvents, stamped_events.
  destruct (IsEVMChain chain); [|destruct (String.eqb chain ChainBTC)].
  - unfold buildCanonicalBaseBalanceEventsMulti, canonicalizeBaseBalanceEvents. rewrite normalize_finality_idem.
    split; [apply canonical_sorted|]. split; [intros x; apply canonical_elem|intros e; apply canonical_complete].
  - unfold buildCanonicalBTCBalanceEventsMulti, canonicalizeBTCBalanceEvents. rewrite normalize_finality_idem.
    split; [apply canonical_sorted|]. split; [intros x; apply canonical_elem|intros e; apply canonical_complete].
  - unfold buildCanonicalSolanaBalanceEventsMulti, canonicalizeSolanaBalanceEvents. rewrite normalize_finality_idem.
    split; [rewrite <- list_fmap_compose; apply canonical_sorted|]. split.
    + intros x (es & -> & Hes)%list_elem_of_fmap. apply list_elem_of_fmap_2. by eapply canonical_elem.
    + intros e (es & -> & Hes)%list_elem_of_fmap.
      destruct (canonical_complete (fun es => nbe_EventID es.1) (fun x y =>
        shouldReplaceCanonicalSolanaEvent x.1 y.1 x.2 y.2) _ es Hes) as (x & Hx & Hk).
      exists x.1. split; [by apply list_elem_of_fmap_2|done].
Qed.

Lemma resolve_finality_canonical chain result :
  normalizeFinalityStateOrDefault chain (resolveResultFinalityState chain result) =
  resolveResultFinalityState chain result.
Proof.
  assert (forall b keys order metadata, canonicalizeFinalityState (bs_state b) = bs_state b ->
    canonicalizeFinalityState (bs_state (scan_keys metadata keys order b)) = bs_state (scan_keys metadata keys order b)) as Hk.
  { intros b keys. revert b. induction keys as [|key keys IH]; intros b order metadata Hb; simpl; [done|].
    destruct (str_empty _); [by apply IH|].
    match goal with |- context [if 4 <=? bs_rank ?x then _ else _] => assert (canonicalizeFinalityState (bs_state x) = bs_state x) end.
    { destruct (_ || _); [apply canonical_finality|done]. }
    destruct (4 <=? _); [done|by apply IH]. }
  assert (forall keys events b, canonicalizeFinalityState (bs_state b) = bs_state b ->
    canonicalizeFinalityState (bs_state (scan_events keys events b)) = bs_state (scan_events keys events b)) as He.
  { intros keys events. induction events as [|[be|] events IH]; intros b Hb; simpl; [done| |by apply IH].
    destruct (4 <=? _); [by apply Hk|by apply IH, Hk]. }
  assert (normalizeFinalityStateOrDefault chain (defaultFinalityState chain) = defaultFinalityState chain) as Hd.
  { unfold defaultFinalityState. by destruct (String.eqb chain ChainSolana). }
  unfold resolveResultFinalityState. destruct result as [r|]; [|done].
  set (b := scan_events _ _ _). assert (canonicalizeFinalityState (bs_state b) = bs_state b) as Hb by by apply He.
  destruct (str_empty (bs_state b)) eqn:E; simpl; [done|].
  unfold normalizeFinalityStateOrDefault. by rewrite Hb, E.
Qed.

(** BTC keeps transfers to oneself as they are. *)
Definition self_transfers (chain : Chain) : bool := IsEVMChain chain || negb (String.eqb chain ChainBTC).

Definition fee_activity (activityType : ActivityType) : bool :=
  isBaseFeeActivity activityType || String.eqb activityType ActivityFee.

(** What stamping keeps and what it computes. *)
Record stamped_from (chain : Chain) (network : Network) (txHash finalityState : string)
    (n e : NormalizedBalanceEvent) : Prop := {
  sf_id : nbe_EventID e = buildCanonicalEventID chain network txHash (nbe_EventPath e) (nbe_ActorAddress e)
            (nbe_AssetID e) (nbe_ActivityType e);
  sf_finality : nbe_FinalityState e = finalityState;
  sf_address : nbe_Address e = canonicalizeAddressIdentity chain (nbe_Address n);
  sf_activity : nbe_ActivityType e = nbe_ActivityType n;
  sf_delta : nbe_Delta e = nbe_Delta n \/
    (fee_activity (nbe_ActivityType e) = true /\ nbe_Delta e = canonicalFeeDelta (nbe_Delta n));
  sf_chain_data : nbe_ChainData e = nbe_ChainData n
}.

Lemma base_stamped chain network txHash f n : stamped_from chain network txHash f n (base_event chain network txHash f n).
Proof.
  unfold base_event, stamp. split; simpl; try done.
  unfold fee_activity. destruct (_ || _) eqn:E; [by right|by left].
Qed.

Lemma btc_stamped chain network txHash f n : stamped_from chain network txHash f n (btc_event chain network txHash f n).
Proof. unfold btc_event, stamp. split; simpl; try done. by left. Qed.

Lemma solana_event_stamped chain network txHash f owners n :
  stamped_from chain network txHash f n (solana_event chain network txHash f owners (solana_resolve chain n)).1.
Proof.
  unfold solana_event, solana_resolve, stamp. 
  match goal with |- context [match ?p with (_, _) => _ end] => destruct p as [outer inner] end.
  split; simpl; try done.
  unfold fee_activity. destruct (String.eqb (nbe_ActivityType n) ActivityFee); [right; by rewrite orb_true_r|by left].
Qed.

(** The events that are stamped: watched ones, and added fees. *)
Definition source_events (chain : Chain) (result : TransactionResult) (watchedAddrs : gset string)
    : list NormalizedBalanceEvent :=
  (if IsEVMChain chain then base_events chain
   else if String.eqb chain ChainBTC then btc_events else solana_events)
    (tr_Status result) (tr_FeePayer result) (tr_FeeAmount result) (tr_BalanceEvents result) watchedAddrs.

Definition reverted (chain : Chain) (result : TransactionResult) : bool :=
  IsEVMChain chain && equal_fold (tr_Status result) TxStatusFailed.

Lemma metadata_marshal m : metadataFromChainData (Some (marshal_map m)) = m.
Proof.
  unfold metadataFromChainData.
  assert (str_empty (marshal_map m) || String.eqb (marshal_map m) "null" = false) as -> by reflexivity.
  apply unmarshal_marshal.
Qed.

Lemma metadata_roundtrip m : metadataFromChainData (Some (marshal_metadata m)) = m.
Proof.
  unfold metadataFromChainData. destruct (str_empty _ || _) eqn:E; [|apply unmarshal_metadata].
  unfold marshal_metadata, str_empty in *. by destruct (decide (m = ∅)).
Qed.

(** ** Independence of the order *)

Definition canonicalize (chain : Chain) : Network -> string -> string -> list NormalizedBalanceEvent -> list NormalizedBalanceEvent :=
  if IsEVMChain chain then canonicalizeBaseBalanceEvents chain
  else if String.eqb chain ChainBTC then canonicalizeBTCBalanceEvents chain
  else canonicalizeSolanaBalanceEvents chain.

Definition is_solana_like (chain : Chain) : bool := negb (IsEVMChain chain) && negb (String.eqb chain ChainBTC).

(** The fields that decide which of two events of one identifier stays. *)
Record same_selection (chain : Chain) (x y : NormalizedBalanceEvent) : Prop := {
  ss_id : nbe_EventID x = nbe_EventID y;
  ss_action : nbe_EventAction x = nbe_EventAction y;
  ss_delta : delta_value x = delta_value y;
  ss_assets : is_solana_like chain = false ->
    nbe_ContractAddress x = nbe_ContractAddress y /\ nbe_CounterpartyAddress x = nbe_CounterpartyAddress y
}.

(** No fee shares its identifier with a change. *)
Definition fees_apart (chain : Chain) (network : Network) (txHash finality : string)
    (l : list NormalizedBalanceEvent) : Prop :=
  is_solana_like chain = true ->
  forall x y, x ∈ solana_stamped chain network txHash (normalizeFinalityStateOrDefault chain finality) l ->
    y ∈ solana_stamped chain network txHash (normalizeFinalityStateOrDefault chain finality) l ->
    nbe_EventID x.1 = nbe_EventID y.1 -> is_fee x.1 = is_fee y.1.

Lemma base_order_eq x y : base_order x y = Eq ->
  nbe_EventAction x = nbe_EventAction y /\ nbe_ContractAddress x = nbe_ContractAddress y /\
  nbe_CounterpartyAddress x = nbe_CounterpartyAddress y /\ delta_value x = delta_value y.
Proof.
  unfold base_order, lex. destruct (weaker_finality x y); [|done|done]. unfold on.
  destruct (String.compare (nbe_EventAction x) _) eqn:E1; [|done|done].
  destruct (String.compare (nbe_ContractAddress x) _) eqn:E2; [|done|done].
  destruct (String.compare (nbe_CounterpartyAddress x) _) eqn:E3; [|done|done].
  intros E4. apply String.compare_eq_iff in E1, E2, E3. apply Z.compare_eq in E4. done.
Qed.

Lemma solana_select_eq x y : solana_select x y = Eq -> is_fee x.1 = is_fee y.1 ->
  nbe_EventAction x.1 = nbe_EventAction y.1 /\ delta_value x.1 = delta_value y.1.
Proof.
  unfold solana_select. unfold lex at 1. destruct (weaker_finality x.1 y.1); [|done|done].
  unfold lex at 1, on at 1. intros H Hf. rewrite <- Hf in H. destruct (is_fee x.1); simpl in H.
  - unfold solana_fee_order, lex, on in H. destruct (String.compare _ _) eqn:E; [|done|done].
    apply String.compare_eq_iff in E. by apply Z.compare_eq in H.
  - unfold solana_change_order, lex, on, opposite in H. destruct (bool_compare _ _); [|done|done].
    destruct (Z.compare (OriginalInnerIndex x.2) _); [|done|done].
    destruct (String.compare (nbe_EventAction _) _) eqn:E; [|done|done].
    destruct (String.compare (nbe_ContractAddress _) _); [|done|done].
    apply String.compare_eq_iff in E. by apply Z.compare_eq in H.
Qed.

Lemma stamped_delta_parses chain network txHash f n e : stamped_from chain network txHash f n e ->
  delta_parses n -> delta_parses e.
Proof.
  intros [_ _ _ _ [Hd|[_ Hd]] _] Hn; unfold delta_parses in *; rewrite Hd; [done|by apply canonicalFeeDelta_parses].
Qed.

Lemma solana_stamped_perm chain network txHash f l l' : l ≡ₚ l' ->
  solana_stamped chain network txHash f l ≡ₚ solana_stamped chain network txHash f l'.
Proof.
  intros Hp. unfold solana_stamped.
  assert (outerHasOwner (solana_resolve chain <$> l) = outerHasOwner (solana_resolve chain <$> l')) as ->.
  { unfold outerHasOwner. apply list_to_set_perm_L. by rewrite Hp. }
  by rewrite !stable_sort_perm, Hp.
Qed.

(** Also: the order does not matter.  When the deltas are numbers, two lists of the same
    events give canonical lists that agree, position by position, on the identifier and on
    every field that decides between events of one identifier: action, delta and, but for
    Solana, contract and counterparty. *)
Theorem canonical_order_independent chain network txHash finality l l' :
  l ≡ₚ l' -> Forall delta_parses l -> fees_apart chain network txHash finality l ->
  Forall2 (same_selection chain) (canonicalize chain network txHash finality l)
    (canonicalize chain network txHash finality l').
Proof.
  intros Hp Hd Hf. unfold canonicalize, fees_apart, is_solana_like in *.
  set (f := normalizeFinalityStateOrDefault chain finality) in *.
  destruct (IsEVMChain chain) eqn:Ee; [|destruct (String.eqb chain ChainBTC) eqn:Eb]; simpl in *.
  - unfold canonicalizeBaseBalanceEvents. eapply Forall2_impl; [apply (canonical_perm nbe_EventID _ base_order delta_parses)|].
    + intros x y Hx Hy _. by apply replace_base_order.
    + by rewrite Hp.
    + rewrite Forall_fmap. eapply Forall_impl; [exact Hd|]. intros n. apply (stamped_delta_parses _ _ _ _ _ _ (base_stamped chain network txHash f n)).
    + intros x y [Hk Hc]. apply base_order_eq in Hc as (? & ? & ? & ?). by split.
  - unfold canonicalizeBTCBalanceEvents. eapply Forall2_impl; [apply (canonical_perm nbe_EventID _ base_order delta_parses)|].
    + intros x y Hx Hy _. by apply replace_base_order.
    + by rewrite Hp.
    + rewrite Forall_fmap. eapply Forall_impl; [exact Hd|]. intros n. apply (stamped_delta_parses _ _ _ _ _ _ (btc_stamped chain network txHash f n)).
    + intros x y [Hk Hc]. apply base_order_eq in Hc as (? & ? & ? & ?). by split.
  - unfold canonicalizeSolanaBalanceEvents. fold f. specialize (Hf eq_refl).
    set (s := solana_stamped chain network txHash f l) in *.
    assert (Forall (fun x => x ∈ s /\ delta_parses x.1) s) as Hs.
    { apply Forall_forall. intros x Hx. split; [done|]. unfold s, solana_stamped in Hx.
      apply list_elem_of_fmap in Hx as (r & -> & Hr). rewrite stable_sort_perm in Hr.
      apply list_elem_of_fmap in Hr as (n & -> & Hn). eapply stamped_delta_parses; [apply solana_event_stamped|].
      rewrite Forall_forall in Hd. by apply Hd. }
    pose proof (canonical_perm (fun es => nbe_EventID es.1) (fun x y =>
      shouldReplaceCanonicalSolanaEvent x.1 y.1 x.2 y.2) solana_select (fun x => x ∈ s /\ delta_parses x.1)) as Hc.
    specialize (Hc (fun x y Hx Hy Hk => replace_solana_order x y (proj2 Hx) (proj2 Hy) (Hf x y (proj1 Hx) (proj1 Hy) Hk))
      s _ (solana_stamped_perm chain network txHash f _ _ Hp) Hs).
    apply Forall2_fmap, Forall2_same_length_lookup. apply Forall2_same_length_lookup in Hc as [Hlen Hc].
    split; [done|]. intros i x y Hx Hy. destruct (Hc i x y Hx Hy) as [Hk He].
    apply list_elem_of_lookup_2, canonical_elem in Hx, Hy. rewrite <- solana_stamped_perm in Hy by done.
    apply solana_select_eq in He as [? ?]; [|by apply Hf]. split; try done.
    unfold is_solana_like. by rewrite Ee, Eb.
Qed.

(** ** What the fees amount to *)

Lemma parse_signed_parse d v : parseSignedBigInt d = Some v -> parseBigInt d = Some (Z.abs v).
Proof.
  unfold parseSignedBigInt, parseBigInt. destruct (str_empty (trim_space d)); [done|].
  intros H. apply parse_decimal_inv in H as (t & -> & Hu).
  assert (is_Some (parse_unsigned t)) as [Hne _]%parse_unsigned_digits by by rewrite Hu.
  unfold str_empty. rewrite (proj2 (String.eqb_neq _ _) Hne).
  destruct t as [|c t]; [done|]. pose proof Hu as Hu'. simpl in Hu. destruct (is_digit c) eqn:Ec; [|done].
  destruct c as [[] [] [] [] [] [] [] []]; solve [exact Hu'|discriminate Ec].
Qed.

Lemma fee_value activityType action program asset payer amount data symbol name decimals path v :
  parseSignedBigInt amount = Some v ->
  delta_value (fee_event activityType action program asset payer amount data symbol name decimals path) = - Z.abs v.
Proof. intros H. unfold delta_value. simpl. by rewrite (canonicalFeeDelta_value _ _ H). Qed.

(** Also: the fees of an EVM transaction.  On a chain without data fees the payer is charged
    the fee of the transaction, on the others its execution part (or, when the metadata
    has none, the whole fee) and its data part; when the metadata has both parts and they
    add up, this is the fee; when they do not, the event says so. *)
Theorem evm_fee_total chain payer amount total metadata :
  parseSignedBigInt amount = Some total ->
  let charged := sum_of delta_value (base_fee_events chain payer amount metadata) in
  let execution := deriveBaseExecutionFee amount metadata in
  let data := default 0 (deriveBaseDataFee metadata) in
  charged = (if isEVML1Chain chain then - Z.abs total else - (Z.abs execution + Z.abs data)) /\
  (forall e d, deriveBaseExecutionFeeFromMetadata metadata = Some e -> deriveBaseDataFee metadata = Some d ->
     0 <= e -> 0 <= d -> total <> 0 ->
     hasBaseFeeComponentMetaMismatch amount metadata = false -> charged = - Z.abs total) /\
  (isEVML1Chain chain = false -> hasBaseFeeComponentMetaMismatch amount metadata = true ->
     exists e, e ∈ base_fee_events chain payer amount metadata /\
       metadataFromChainData (nbe_ChainData e) !! "fee_total_mismatch"%string = Some "true"%string).
Proof.
  intros Ht charged execution data.
  assert (charged = (if isEVML1Chain chain then - Z.abs total else - (Z.abs execution + Z.abs data))) as Hc.
  { unfold charged, base_fee_events. destruct (isEVML1Chain chain).
    { simpl. unfold buildEVML1FeeBalanceEvent. rewrite (fee_value _ _ _ _ _ _ _ _ _ _ _ _ Ht). lia. }
    match goal with |- sum_of _ (?x :: _) = _ => assert (delta_value x = - Z.abs execution) as Hx end.
    { transitivity (delta_value (buildBaseFeeBalanceEvent ActivityFeeExecutionL2 payer (show_Z execution)
        (resolveBaseFeeEventPath metadata) "net_base")); [by destruct (decide _)|apply fee_value, parse_signed_show]. }
    unfold sum_of. cbn [foldr]. rewrite Hx. unfold data. destruct (deriveBaseDataFee metadata) as [d|]; cbn [foldr]; [|simpl; lia].
    unfold buildBaseFeeBalanceEvent. rewrite (fee_value _ _ _ _ _ _ _ _ _ _ _ _ (parse_signed_show d)). simpl. lia. }
  split; [exact Hc|]. split.
  - intros e d He Hd He0 Hd0 Ht0. unfold hasBaseFeeComponentMetaMismatch.
    rewrite (parse_signed_parse _ _ Ht), He, Hd. destruct (Z.eqb_spec (Z.abs total) 0); [lia|].
    rewrite Hc. unfold execution, data, deriveBaseExecutionFee. rewrite He, Hd. simpl.
    destruct (Z.eqb_spec (e + d) (Z.abs total)); [|done]. intros _. destruct (isEVML1Chain chain); lia.
  - intros Hl Hm. unfold base_fee_events. rewrite Hl. eexists. split; [by left|].
    assert (fee_marker amount metadata !! "fee_total_mismatch"%string = Some "true"%string) as Hk.
    { unfold fee_marker. rewrite Hm. by destruct (hasBaseDataFee metadata); simplify_map_eq. }
    destruct (decide (fee_marker amount metadata = ∅)) as [He|_]; [by rewrite He in Hk|].
    cbn [with_chain_data nbe_ChainData]. unfold mergeMetadataJSON. rewrite metadata_marshal. by apply lookup_union_Some_l.
Qed.

(** ** Samples *)

(** A transfer of a Solana transaction, in an instruction of its own or an inner one. *)
Definition sample_change (outer inner : Z) (delta : string) : BalanceEventInfo :=
  {| bi_OuterInstructionIndex := outer; bi_InnerInstructionIndex := inner; bi_EventCategory := "TRANSFER";
     bi_EventAction := "spl_transfer"; bi_ProgramId := "Token"; bi_Address := "alice"; bi_ContractAddress := "mint";
     bi_Delta := delta; bi_CounterpartyAddress := "bob"; bi_TokenSymbol := "T"; bi_TokenName := "Token";
     bi_TokenDecimals := 6; bi_TokenType := "FUNGIBLE"; bi_Metadata := ∅ |}.

Definition sample_changes : list NormalizedBalanceEvent :=
  [buildSolanaFeeBalanceEvent "alice" "5000"; normalize_raw true (sample_change 0 (-1) "-7");
   normalize_raw true (sample_change 0 2 "-9")].

Lemma canonical_order_independent_witness :
  fees_apart "solana" "mainnet" "sig" "finalized" sample_changes /\
  Forall2 (same_selection "solana") (canonicalize "solana" "mainnet" "sig" "finalized" sample_changes)
    (canonicalize "solana" "mainnet" "sig" "finalized" (rev sample_changes)).
Proof.
  assert (fees_apart "solana" "mainnet" "sig" "finalized" sample_changes) as Hf.
  { intros _ x y Hx Hy. set (l := solana_stamped _ _ _ _ _) in *.
    assert (Forall (fun a => Forall (fun b => nbe_EventID a.1 = nbe_EventID b.1 -> is_fee a.1 = is_fee b.1) l) l) as Hl.
    { vm_compute. repeat constructor; intros; discriminate. }
    rewrite Forall_forall in Hl. specialize (Hl x Hx). rewrite Forall_forall in Hl. by apply Hl. }
  assert (Forall delta_parses sample_changes) as Hd by (repeat constructor; by eexists).
  split; [exact Hf|].
  exact (canonical_order_independent "solana" "mainnet" "sig" "finalized" sample_changes (rev sample_changes)
    (Permutation_rev sample_changes) Hd Hf).
Defined.

Lemma evm_fee_total_witness :
  parseSignedBigInt "100" = Some 100 /\
  sum_of delta_value (base_fee_events "base" "0xabc" "100"
    (<["fee_execution_l2" := "70"]> (<["fee_data_l1" := "30"]> ∅))) = - (Z.abs 70 + Z.abs 30).
Proof.
  split; [reflexivity|].
  pose proof (evm_fee_total "base" "0xabc" "100" 100 (<["fee_execution_l2" := "70"]> (<["fee_data_l1" := "30"]> ∅))
    eq_refl) as H. cbv zeta in H. destruct H as [-> _]. vm_compute. reflexivity.
Defined.

(** A data fee without an execution part is charged on top of the whole fee, and nothing
    says so: the parts are only compared when both are given. *)
Theorem data_fee_charged_twice :
  base_fee_events "base" "0xabc" "100" (<["fee_data_l1" := "30"]> ∅) =
    [buildBaseFeeBalanceEvent ActivityFeeExecutionL2 "0xabc" "100" "log:0" "net_base";
     buildBaseFeeBalanceEvent ActivityFeeDataL1 "0xabc" "30" "log:0" "net_base_data"].
Proof. vm_compute. reflexivity. Qed.

(** An amount with two signs passes the check of the fee and becomes a delta that is not a
    number. *)
Theorem double_sign_fee :
  shouldEmitSolanaFeeEvent "SUCCESS" "alice" "--5" = true /\
  nbe_Delta (buildSolanaFeeBalanceEvent "alice" "--5") = "--5"%string /\ parse_decimal "--5" = None.
Proof. vm_compute. done. Qed.

(** Deltas that are not numbers are compared as strings, numbers by value: the comparison
    has a cycle, and the event that stays depends on the order. *)
Theorem mixed_deltas_cycle :
  compareCanonicalDeltas "9" "10" = Lt /\ compareCanonicalDeltas "10" "1x" = Lt /\
  compareCanonicalDeltas "1x" "9" = Lt.
Proof. vm_compute. done. Qed.
