(* ===== verification/EventIdentity.v ===== *)
(** * Normalizer: what identifies the balance events of a transaction

    The identity of an event (path, actor, asset, activity) and its amount, stated from the
    sidecar's event or from the fee of the transaction, and the proof that the events of a
    transaction are exactly the watched ones and the fees due, under these identities. *)

From Stdlib Require Import ZArith String Ascii Lia.
From stdpp Require Import base option list strings gmap sorting.
From S2P Require Import Prelude Ordering Json Domain Identity Sha256 NormalizerRules NormalizerEvents NormalizerProofs.

Open Scope list_scope.
Open Scope Z_scope.

(** ** Paths *)

Definition or_else (s fallback : string) : string := if str_empty s then fallback else s.
Definition labelled (label value : string) : string := if str_empty value then "" else label +:+ value.
Definition first_given (l : list string) : string := default "" (List.find (fun s => negb (str_empty s)) l).

Definition instruction_text (outer inner : Z) : string :=
  "outer:" +:+ show_Z (wrap32 outer) +:+ "|inner:" +:+ show_Z (wrap32 inner).

(** EVM: the first path the metadata gives, in this order. *)
Definition evm_given (m : gmap string string) : string :=
  first_given [meta m "event_path"; meta m "log_path"; labelled "log:" (meta m "log_index");
               labelled "log:" (meta m "base_log_index"); meta m "base_event_path"].

(** BTC: the path of the metadata, or the input or output. *)
Definition btc_path (m : gmap string string) (outer inner : Z) : string :=
  let side := to_lower (trim_space (meta m "utxo_path_type")) in
  or_else (trim_space (meta m "event_path"))
    (if (String.eqb side "vin" || String.eqb side "vout") && (0 <=? wrap32 outer)
     then side +:+ ":" +:+ show_Z (wrap32 outer) else instruction_text outer inner).

(** ** The sidecar's events *)

(** A transfer to oneself, which BTC keeps as it is. *)
Definition to_self (chain : Chain) (b : BalanceEventInfo) : bool :=
  (IsEVMChain chain || negb (String.eqb chain ChainBTC)) &&
  String.eqb (bi_EventCategory b) EventCategoryTransfer && String.eqb (bi_CounterpartyAddress b) (bi_Address b).

Definition activity_of (chain : Chain) (b : BalanceEventInfo) : ActivityType :=
  if to_self chain b then ActivitySelfTransfer else ClassifyActivity (bi_EventCategory b) (bi_Delta b) true.

(** Fees are charged whatever sign the sidecar gives them. *)
Definition signed_as_fee (chain : Chain) (activityType : ActivityType) : bool :=
  if IsEVMChain chain
  then str_in activityType [ActivityFee; ActivityFeeExecutionL2; ActivityFeeDataL1]
  else negb (String.eqb chain ChainBTC) && String.eqb activityType ActivityFee.

Definition amount_of (chain : Chain) (b : BalanceEventInfo) : string :=
  let delta := if to_self chain b then "0" else bi_Delta b in
  if signed_as_fee chain (activity_of chain b) then canonicalFeeDelta delta else delta.

Definition asset_of (chain : Chain) (contract : string) : string :=
  if negb (IsEVMChain chain) && String.eqb chain ChainBTC then canonicalizeBTCAssetID contract
  else canonicalizeAddressIdentity chain contract.

Definition actor_of (chain : Chain) (address : string) : string :=
  let address := canonicalizeAddressIdentity chain address in
  if is_solana_like chain then address else canonicalizeAddressIdentity chain address.

(** Solana: the instruction of an event, from its metadata if that has one; fees have none. *)
Definition place_of (chain : Chain) (b : BalanceEventInfo) : Z * Z :=
  if String.eqb (activity_of chain b) ActivityFee then (-1, -1)
  else default (bi_OuterInstructionIndex b, bi_InnerInstructionIndex b) (first_path (bi_Metadata b) solanaPathKeys).

(** An event of [l] of the same owner, asset and activity stands at the outer instruction
    itself. *)
Definition outer_sibling (chain : Chain) (l : list BalanceEventInfo) (b : BalanceEventInfo) : bool :=
  existsb (fun b' =>
    bool_decide (place_of chain b' = (fst (place_of chain b), -1)) &&
    String.eqb (canonicalizeAddressIdentity chain (bi_Address b')) (canonicalizeAddressIdentity chain (bi_Address b)) &&
    String.eqb (asset_of chain (bi_ContractAddress b')) (asset_of chain (bi_ContractAddress b)) &&
    String.eqb (activity_of chain b') (activity_of chain b)) l.

(** An inner event moves to the outer instruction when that has such an event. *)
Definition solana_path (chain : Chain) (l : list BalanceEventInfo) (b : BalanceEventInfo) : string :=
  let '(outer, inner) := place_of chain b in
  if (0 <=? outer) && (0 <=? inner) && outer_sibling chain l b
  then instruction_text outer (-1) else instruction_text outer inner.

Definition watched_infos (result : TransactionResult) (watchedAddrs : gset string) : list BalanceEventInfo :=
  filter (fun b => bi_Address b ∈ watchedAddrs) (omap id (tr_BalanceEvents result)).

Definition path_of (chain : Chain) (l : list BalanceEventInfo) (b : BalanceEventInfo) : string :=
  if IsEVMChain chain
  then or_else (trim_space (evm_given (bi_Metadata b)))
         (instruction_text (bi_OuterInstructionIndex b) (bi_InnerInstructionIndex b))
  else if String.eqb chain ChainBTC
  then btc_path (bi_Metadata b) (bi_OuterInstructionIndex b) (bi_InnerInstructionIndex b)
  else solana_path chain l b.

(** [x] is the sidecar's event [b], canonical. *)
Record comes_from (chain : Chain) (l : list BalanceEventInfo) (b : BalanceEventInfo) (x : NormalizedBalanceEvent)
    : Prop := {
  cf_path : nbe_EventPath x = path_of chain l b;
  cf_address : nbe_Address x = canonicalizeAddressIdentity chain (bi_Address b);
  cf_actor : nbe_ActorAddress x = actor_of chain (bi_Address b);
  cf_asset : nbe_AssetID x = asset_of chain (bi_ContractAddress b);
  cf_contract : nbe_ContractAddress x = asset_of chain (bi_ContractAddress b);
  cf_counterparty : nbe_CounterpartyAddress x = canonicalizeAddressIdentity chain (bi_CounterpartyAddress b);
  cf_activity : nbe_ActivityType x = activity_of chain b;
  cf_delta : nbe_Delta x = amount_of chain b;
  cf_metadata : metadataFromChainData (nbe_ChainData x) = bi_Metadata b
}.

(** ** Fees *)

(** A fee: its activity, asset, path and amount. *)
Record fee := { fe_Activity : ActivityType; fe_Asset : string; fe_Path : string; fe_Delta : string }.

(** The fees of a transaction: one of the whole amount, or on chains with data fees one of
    the execution and one of the data. *)
Definition fees_of (chain : Chain) (result : TransactionResult) : list fee :=
  let whole := canonicalFeeDelta (tr_FeeAmount result) in
  if IsEVMChain chain then
    let metadata := collectBaseMetadata (tr_BalanceEvents result) in
    let path := or_else (trim_space (or_else (evm_given metadata) "log:0")) (instruction_text (-1) (-1)) in
    if isEVML1Chain chain
    then [{| fe_Activity := ActivityFee; fe_Asset := asset_of chain (ent_Symbol (evmNativeToken chain)); fe_Path := path;
             fe_Delta := canonicalFeeDelta whole |}]
    else
      let part activity amount :=
        {| fe_Activity := activity; fe_Asset := asset_of chain "ETH"; fe_Path := path;
           fe_Delta := canonicalFeeDelta (canonicalFeeDelta (show_Z amount)) |} in
      part ActivityFeeExecutionL2 (deriveBaseExecutionFee (tr_FeeAmount result) metadata) ::
      match deriveBaseDataFee metadata with Some data => [part ActivityFeeDataL1 data] | None => [] end
  else if String.eqb chain ChainBTC
  then [{| fe_Activity := ActivityFee; fe_Asset := "BTC"; fe_Path := "fee:miner"; fe_Delta := whole |}]
  else [{| fe_Activity := ActivityFee; fe_Asset := systemProgram; fe_Path := instruction_text (-1) (-1);
           fe_Delta := canonicalFeeDelta whole |}].

(** The sidecar gave a fee of the payer itself. *)
Definition fee_given (chain : Chain) (result : TransactionResult) (watchedAddrs : gset string) : bool :=
  existsb (fun b => String.eqb (activity_of chain b) ActivityFee &&
                    String.eqb (trim_space (bi_Address b)) (trim_space (tr_FeePayer result)))
    (watched_infos result watchedAddrs).

(** The fees are added for a watched payer of a transaction that was charged an amount; but
    for EVM chains not when the sidecar gave the fee, nor for BTC when a change output is
    exactly the fee. *)
Definition fees_due (chain : Chain) (result : TransactionResult) (watchedAddrs : gset string) : Prop :=
  tr_FeePayer result ∈ watchedAddrs /\ isFeeEligibleStatus (tr_Status result) = true /\
  (exists amount, parseBigInt (tr_FeeAmount result) = Some amount /\ amount <> 0) /\
  trim_space (tr_FeePayer result) <> "" /\
  (IsEVMChain chain = false -> fee_given chain result watchedAddrs = false) /\
  (IsEVMChain chain = false -> chain = ChainBTC ->
     hasBTCFeeRepresentedAsChangeOutput (normalize_raw false <$> watched_infos result watchedAddrs)
       (tr_FeePayer result) (tr_FeeAmount result) = false).

(** [x] is the fee [f] of the payer. *)
Record charges (chain : Chain) (result : TransactionResult) (f : fee) (x : NormalizedBalanceEvent) : Prop := {
  ch_path : nbe_EventPath x = fe_Path f;
  ch_address : nbe_Address x = canonicalizeAddressIdentity chain (tr_FeePayer result);
  ch_actor : nbe_ActorAddress x = actor_of chain (tr_FeePayer result);
  ch_asset : nbe_AssetID x = fe_Asset f;
  ch_activity : nbe_ActivityType x = fe_Activity f;
  ch_delta : nbe_Delta x = fe_Delta f
}.

(** ** What is stamped *)

Lemma Forall2_elem_l {A B} (P : A -> B -> Prop) l k x : Forall2 P l k -> x ∈ l -> exists y, y ∈ k /\ P x y.
Proof. intros H [i Hi]%list_elem_of_lookup. destruct (Forall2_lookup_l _ _ _ _ _ H Hi) as (y & Hy & ?).
  exists y. split; [by eapply list_elem_of_lookup_2|done]. Qed.

Lemma Forall2_elem_r {A B} (P : A -> B -> Prop) l k y : Forall2 P l k -> y ∈ k -> exists x, x ∈ l /\ P x y.
Proof. intros H Hy. apply Forall2_flip in H. by apply (Forall2_elem_l _ _ _ _ H). Qed.

Lemma watched_infos_raw result watchedAddrs handleSelfTransfer :
  buildRawBalanceEventsMulti (tr_BalanceEvents result) watchedAddrs handleSelfTransfer =
  normalize_raw handleSelfTransfer <$> watched_infos result watchedAddrs.
Proof.
  unfold buildRawBalanceEventsMulti, watched_infos. f_equal. induction (tr_BalanceEvents result) as [|[b|] l IH]; [done| |exact IH].
  cbn [omap list_omap id]. rewrite filter_cons. simpl. destruct (decide _); [by f_equal|exact IH].
Qed.

Lemma watched_infos_elem result watchedAddrs b :
  b ∈ watched_infos result watchedAddrs <-> Some b ∈ tr_BalanceEvents result /\ bi_Address b ∈ watchedAddrs.
Proof.
  unfold watched_infos. rewrite list_elem_of_filter, list_elem_of_omap. split.
  - by intros [Hw ([b'|] & Hb & [= ->])].
  - intros [Hb Hw]. split; [done|]. by exists (Some b).
Qed.

(** The raw fee events. *)
Definition raw_fees (chain : Chain) (result : TransactionResult) : list NormalizedBalanceEvent :=
  if IsEVMChain chain
  then base_fee_events chain (tr_FeePayer result) (tr_FeeAmount result) (collectBaseMetadata (tr_BalanceEvents result))
  else if String.eqb chain ChainBTC then [buildBTCFeeBalanceEvent (tr_FeePayer result) (tr_FeeAmount result)]
  else [buildSolanaFeeBalanceEvent (tr_FeePayer result) (tr_FeeAmount result)].

Lemma should_emit_iff status payer amount : shouldEmitSolanaFeeEvent status payer amount = true <->
  isFeeEligibleStatus status = true /\ (exists n, parseBigInt amount = Some n /\ n <> 0) /\ trim_space payer <> "".
Proof.
  unfold shouldEmitSolanaFeeEvent. destruct (isFeeEligibleStatus status); simpl; [|split; [done|by intros [? _]]].
  destruct (str_empty (trim_space payer)) eqn:Ep.
  - apply str_empty_spec in Ep. split; [done|]. by intros (_ & _ & ?).
  - apply str_empty_false in Ep. destruct (parseBigInt amount) as [n|]; [|split; [done|by intros (_ & (? & ? & _) & _)]].
    destruct (Z.eqb_spec n 0) as [->|Hn]; simpl.
    + split; [done|]. intros (_ & (n & [= <-] & ?) & _). done.
    + split; [|done]. intros _. split; [done|]. split; [by exists n|done].
Qed.

Lemma raw_activity chain b : nbe_ActivityType (normalize_raw (self_transfers chain) b) = activity_of chain b.
Proof. unfold normalize_raw, activity_of, to_self, is_self_transfer, self_transfers. by destruct (_ && _). Qed.

Lemma raw_address st b : nbe_Address (normalize_raw st b) = bi_Address b.
Proof. unfold normalize_raw. by destruct (is_self_transfer _ _). Qed.

Lemma fee_given_spec chain result watchedAddrs : trim_space (tr_FeePayer result) <> "" ->
  has_fee_event (normalize_raw (self_transfers chain) <$> watched_infos result watchedAddrs) (tr_FeePayer result) =
  fee_given chain result watchedAddrs.
Proof.
  intros Hne. unfold has_fee_event, fee_given. rewrite (proj2 (str_empty_false _) Hne).
  induction (watched_infos result watchedAddrs) as [|b l IH]; [done|]. rewrite fmap_cons. cbn [existsb].
  by rewrite raw_activity, raw_address, IH.
Qed.

Lemma fees_due_iff chain result watchedAddrs : fees_due chain result watchedAddrs <->
  tr_FeePayer result ∈ watchedAddrs /\
  shouldEmitSolanaFeeEvent (tr_Status result) (tr_FeePayer result) (tr_FeeAmount result) = true /\
  (IsEVMChain chain = false ->
     has_fee_event (normalize_raw (self_transfers chain) <$> watched_infos result watchedAddrs) (tr_FeePayer result) = false) /\
  (IsEVMChain chain = false -> chain = ChainBTC ->
     hasBTCFeeRepresentedAsChangeOutput (normalize_raw false <$> watched_infos result watchedAddrs)
       (tr_FeePayer result) (tr_FeeAmount result) = false).
Proof.
  unfold fees_due. rewrite should_emit_iff. split.
  - intros (? & ? & ? & Hne & Hg & ?). rewrite (fee_given_spec chain _ _ Hne). naive_solver.
  - intros (? & (? & ? & Hne) & Hg & ?). rewrite (fee_given_spec chain _ _ Hne) in Hg. naive_solver.
Qed.

Lemma raw_elem_infos chain result watchedAddrs st n : st = self_transfers chain ->
  n ∈ normalize_raw st <$> watched_infos result watchedAddrs <->
  exists b, b ∈ watched_infos result watchedAddrs /\ n = normalize_raw (self_transfers chain) b.
Proof. intros ->. rewrite list_elem_of_fmap. naive_solver. Qed.

(** The events that are stamped are the watched ones, unless an EVM transaction was
    reverted, and the fees when they are due. *)
Lemma source_split chain result watchedAddrs n : n ∈ source_events chain result watchedAddrs <->
  (reverted chain result = false /\
   exists b, b ∈ watched_infos result watchedAddrs /\ n = normalize_raw (self_transfers chain) b) \/
  (fees_due chain result watchedAddrs /\ n ∈ raw_fees chain result).
Proof.
  rewrite fees_due_iff. unfold source_events, raw_fees, reverted.
  destruct (IsEVMChain chain) eqn:Ee; [|destruct (String.eqb_spec chain ChainBTC) as [->|Hb]]; cbn [andb].
  - unfold base_events, shouldEmitBaseFeeEvent. rewrite elem_of_app, watched_infos_raw.
    assert (Hst : true = self_transfers chain) by (unfold self_transfers; by rewrite Ee).
    pose proof (raw_elem_infos chain result watchedAddrs _ n Hst) as Hraw.
    destruct (equal_fold _ _), (bool_decide_reflect (tr_FeePayer result ∈ watchedAddrs)),
      (shouldEmitSolanaFeeEvent _ _ _); simpl; rewrite ?Hraw, ?elem_of_nil; naive_solver.
  - unfold btc_events, shouldEmitBTCFeeEvent, hasBTCFeeEvent. rewrite elem_of_app, watched_infos_raw.
    pose proof (raw_elem_infos ChainBTC result watchedAddrs false n eq_refl) as Hraw.
    change (self_transfers ChainBTC) with false in *.
    destruct (decide (tr_FeePayer result ∈ watchedAddrs)), (shouldEmitSolanaFeeEvent _ _ _),
      (hasBTCFeeRepresentedAsChangeOutput _ _ _), (has_fee_event _ _); simpl; rewrite ?Hraw, ?elem_of_nil; naive_solver.
  - unfold solana_events, hasSolanaFeeEvent. rewrite elem_of_app, watched_infos_raw.
    assert (Hst : true = self_transfers chain) by (unfold self_transfers; by rewrite Ee, (proj2 (String.eqb_neq _ _) Hb)).
    pose proof (raw_elem_infos chain result watchedAddrs _ n Hst) as Hraw.
    rewrite <- Hst in Hraw |- *.
    destruct (decide (tr_FeePayer result ∈ watchedAddrs)), (shouldEmitSolanaFeeEvent _ _ _),
      (has_fee_event _ _); simpl; rewrite ?Hraw, ?elem_of_nil; naive_solver.
Qed.

(** ** Stamping *)

Lemma evm_given_spec m : resolveBaseMetadataEventPath m = evm_given m.
Proof.
  unfold resolveBaseMetadataEventPath, evm_given, first_given, labelled. destruct (Nat.eqb_spec (size m) 0) as [->%map_size_empty_inv|_].
  { done. }
  cbn [List.find]. destruct (str_empty (meta m "event_path")) eqn:E1; [|done]. cbn [negb].
  destruct (str_empty (meta m "log_path")) eqn:E2; [|done]. cbn [negb].
  destruct (str_empty (meta m "log_index")) eqn:E3; [|done]. cbn [negb].
  destruct (str_empty (meta m "base_log_index")) eqn:E4; [|done]. cbn [negb].
  destruct (str_empty (meta m "base_event_path")) eqn:E5; [|done]. by apply str_empty_spec in E5.
Qed.

Lemma normalize_raw_fields chain b : exists action,
  normalize_raw (self_transfers chain) b =
  raw_event b (activity_of chain b) action (if to_self chain b then "0" else bi_Delta b).
Proof.
  unfold normalize_raw, activity_of, to_self, is_self_transfer, self_transfers.
  destruct (_ && _); by eexists.
Qed.

Lemma asset_or_same s : asset_or_contract s s = s.
Proof. unfold asset_or_contract. by destruct (str_empty s). Qed.

Lemma evm_comes_from chain network txHash f l b : IsEVMChain chain = true ->
  comes_from chain l b (base_event chain network txHash f (normalize_raw (self_transfers chain) b)).
Proof.
  intros He. destruct (normalize_raw_fields chain b) as [action ->].
  unfold base_event, stamp. cbn [raw_event nbe_ActivityType nbe_ChainData nbe_EventPath nbe_Address nbe_ContractAddress
    nbe_AssetID nbe_Delta nbe_OuterInstructionIndex nbe_InnerInstructionIndex nbe_CounterpartyAddress].
  rewrite metadata_roundtrip, evm_given_spec, asset_or_same.
  split; cbn [nbe_EventPath nbe_Address nbe_ActorAddress nbe_AssetID nbe_ContractAddress nbe_CounterpartyAddress
    nbe_ActivityType nbe_Delta nbe_ChainData].
  - unfold path_of, or_else, instruction_text, balanceEventPath. rewrite He. by destruct (evm_given (bi_Metadata b)).
  - done.
  - unfold actor_of, is_solana_like. by rewrite He.
  - unfold asset_of. by rewrite He.
  - unfold asset_of. by rewrite He.
  - done.
  - done.
  - unfold amount_of, signed_as_fee, isBaseFeeActivity. rewrite He. cbn [str_in existsb].
    by destruct (String.eqb _ ActivityFee), (String.eqb _ ActivityFeeExecutionL2), (String.eqb _ ActivityFeeDataL1).
  - apply metadata_roundtrip.
Qed.

Lemma btc_comes_from network txHash f l b :
  comes_from ChainBTC l b (btc_event ChainBTC network txHash f (normalize_raw (self_transfers ChainBTC) b)).
Proof.
  destruct (normalize_raw_fields ChainBTC b) as [action ->].
  unfold btc_event, stamp. cbn [raw_event nbe_ActivityType nbe_ChainData nbe_EventPath nbe_Address nbe_ContractAddress
    nbe_AssetID nbe_Delta nbe_OuterInstructionIndex nbe_InnerInstructionIndex nbe_CounterpartyAddress].
  rewrite metadata_roundtrip, asset_or_same.
  split; try done; cbn [nbe_EventPath nbe_ChainData].
  - change (path_of ChainBTC l b) with (btc_path (bi_Metadata b) (bi_OuterInstructionIndex b) (bi_InnerInstructionIndex b)).
    unfold btc_path, or_else, instruction_text, resolveBTCEventPathFromMetadata, balanceEventPath.
    destruct (str_empty (trim_space (meta (bi_Metadata b) "event_path"))) eqn:E; cbn [negb]; [|by rewrite E].
    cbn [str_in existsb]. rewrite orb_false_r.
    set (side := to_lower _). destruct (String.eqb_spec side "vin") as [->|_]; [by destruct (0 <=? wrap32 _)|].
    destruct (String.eqb_spec side "vout") as [->|_]; [by destruct (0 <=? wrap32 _)|done].
  - apply metadata_roundtrip.
Qed.

(** *** Solana *)

Lemma solana_resolved chain b : is_solana_like chain = true ->
  let n := solana_resolve chain (normalize_raw (self_transfers chain) b) in
  (nbe_OuterInstructionIndex n, nbe_InnerInstructionIndex n) =
    (if String.eqb (activity_of chain b) ActivityFee
     then (bi_OuterInstructionIndex b, bi_InnerInstructionIndex b) else place_of chain b) /\
  nbe_ActivityType n = activity_of chain b /\ nbe_Address n = canonicalizeAddressIdentity chain (bi_Address b) /\
  nbe_ContractAddress n = asset_of chain (bi_ContractAddress b) /\ nbe_AssetID n = asset_of chain (bi_ContractAddress b) /\
  nbe_CounterpartyAddress n = canonicalizeAddressIdentity chain (bi_CounterpartyAddress b) /\
  nbe_Delta n = (if to_self chain b then "0" else bi_Delta b) /\ nbe_ChainData n = Some (marshal_metadata (bi_Metadata b)).
Proof.
  intros Hs n. subst n. destruct (normalize_raw_fields chain b) as [action ->].
  assert (Hasset : asset_of chain (bi_ContractAddress b) = canonicalizeAddressIdentity chain (bi_ContractAddress b)).
  { unfold asset_of. unfold is_solana_like in Hs. apply andb_true_iff in Hs as [_ Hs%negb_true_iff]. by rewrite Hs, andb_false_r. }
  rewrite Hasset. unfold solana_resolve, solanaInstructionPathFromChainData.
  cbn [raw_event nbe_ActivityType nbe_ChainData nbe_ContractAddress nbe_AssetID nbe_OuterInstructionIndex nbe_InnerInstructionIndex].
  rewrite metadata_roundtrip, asset_or_same. unfold place_of.
  destruct (String.eqb (activity_of chain b) ActivityFee); [by split_and!|].
  destruct (Nat.eqb_spec (size (bi_Metadata b)) 0) as [->%map_size_empty_inv|_]; [by split_and!|].
  by destruct (first_path (bi_Metadata b) solanaPathKeys) as [[outer inner]|].
Qed.

Lemma solana_like_cases chain : is_solana_like chain = true <-> IsEVMChain chain = false /\ String.eqb chain ChainBTC = false.
Proof. unfold is_solana_like. by rewrite andb_true_iff, !negb_true_iff. Qed.

(** The owners of outer instructions are those of the watched events. *)
Lemma outer_owner chain result watchedAddrs b outer : is_solana_like chain = true -> 0 <= outer ->
  String.eqb (activity_of chain b) ActivityFee = false -> fst (place_of chain b) = outer ->
  bool_decide ((outer, canonicalizeAddressIdentity chain (bi_Address b), asset_of chain (bi_ContractAddress b),
                activity_of chain b) ∈ outerHasOwner (solana_resolve chain <$> source_events chain result watchedAddrs)) =
  outer_sibling chain (watched_infos result watchedAddrs) b.
Proof.
  intros Hs Ho Hfee Hp. pose proof Hs as [Hevm Hbtc]%solana_like_cases. apply eq_true_iff_eq.
  rewrite bool_decide_eq_true. unfold outerHasOwner, outer_sibling. rewrite elem_of_list_to_set, list_elem_of_fmap, existsb_exists.
  assert (Hcase : forall b', let n := solana_resolve chain (normalize_raw (self_transfers chain) b') in
    (owner n = (outer, canonicalizeAddressIdentity chain (bi_Address b), asset_of chain (bi_ContractAddress b), activity_of chain b) /\
     owns_outer n = true) <->
    (place_of chain b' = (outer, -1) /\
     canonicalizeAddressIdentity chain (bi_Address b') = canonicalizeAddressIdentity chain (bi_Address b) /\
     asset_of chain (bi_ContractAddress b') = asset_of chain (bi_ContractAddress b) /\ activity_of chain b' = activity_of chain b)).
  { intros b' n. destruct (solana_resolved chain b' Hs) as (Hplace & Hact & Haddr & _ & Hasset & _). fold n in Hplace, Hact, Haddr, Hasset.
    unfold owner, owns_outer. rewrite Hact, Haddr, Hasset, !andb_true_iff, negb_true_iff, Z.leb_le, Z.eqb_eq. split.
    - intros [[= Hou -> -> Ha] [[Hf _] Hi]]. rewrite Hf in Hplace. by rewrite <- Hplace, Hou, Hi.
    - intros (Hpl & -> & -> & Ha). rewrite Ha in *. rewrite Hfee in Hplace. rewrite Hpl in Hplace. injection Hplace as -> ->. by split_and!. }
  split.
  - intros (n & Howner & [Hown Hn]%list_elem_of_filter). apply list_elem_of_fmap in Hn as (r & -> & Hr).
    apply source_split in Hr as [(_ & b' & Hb' & ->)|[_ Hr]].
    + exists b'. split; [by apply list_elem_of_In|]. rewrite Hp.
      destruct (proj1 (Hcase b') (conj (eq_sym Howner) Hown)) as (H1 & H2 & H3 & H4).
      by rewrite !andb_true_iff, bool_decide_eq_true, !String.eqb_eq.
    + exfalso. unfold raw_fees in Hr. rewrite Hevm, Hbtc in Hr. apply list_elem_of_singleton in Hr as ->. done.
  - intros (b' & Hb' & Hall). apply list_elem_of_In in Hb'. rewrite !andb_true_iff, bool_decide_eq_true, !String.eqb_eq, Hp in Hall.
    destruct (proj2 (Hcase b')) as [Howner Hown]; [naive_solver|].
    exists (solana_resolve chain (normalize_raw (self_transfers chain) b')). split; [by symmetry|].
    apply list_elem_of_filter. split; [done|]. apply list_elem_of_fmap_2, source_split. left.
    split; [unfold reverted; by rewrite Hevm|by exists b'].
Qed.

Lemma solana_comes_from chain network txHash f result watchedAddrs b : is_solana_like chain = true ->
  comes_from chain (watched_infos result watchedAddrs) b
    (solana_event chain network txHash f (outerHasOwner (solana_resolve chain <$> source_events chain result watchedAddrs))
       (solana_resolve chain (normalize_raw (self_transfers chain) b))).1.
Proof.
  intros Hs. pose proof Hs as [Hevm Hbtc]%solana_like_cases.
  destruct (solana_resolved chain b Hs) as (Hplace & Hact & Haddr & Hcontract & Hasset & Hcp & Hdelta & Hdata).
  set (n := solana_resolve _ _) in *. unfold solana_event, stamp. rewrite Hact. cbn [fst].
  split; cbn [nbe_EventPath nbe_Address nbe_ActorAddress nbe_AssetID nbe_ContractAddress nbe_CounterpartyAddress
    nbe_ActivityType nbe_Delta nbe_ChainData]; try done.
  - unfold path_of, solana_path, instruction_text, balanceEventPath. rewrite Hevm, Hbtc.
    destruct (String.eqb (activity_of chain b) ActivityFee) eqn:Hfee.
    + unfold place_of. rewrite Hfee. done.
    + destruct (place_of chain b) as [outer inner] eqn:Ep. injection Hplace as -> ->. cbn [negb andb].
      rewrite Haddr, Hasset. replace (-1 <? inner) with (0 <=? inner) by lia.
      destruct (Z.leb_spec 0 outer) as [Ho|_]; [|done]. destruct (0 <=? inner); [|done]. cbn [andb].
      rewrite (outer_owner chain result watchedAddrs b outer Hs Ho Hfee) by by rewrite Ep.
      by destruct (outer_sibling _ _ _).
  - unfold actor_of. by rewrite Hs.
  - unfold amount_of, signed_as_fee. rewrite Hevm, Hbtc, Hdelta. done.
  - rewrite Hdata. apply metadata_roundtrip.
Qed.

(** *** Fees *)

Lemma marker_has_no_path amount metadata : evm_given (fee_marker amount metadata) = "".
Proof.
  assert (H : forall key, str_in key ["event_path"; "log_path"; "log_index"; "base_log_index"; "base_event_path"] = true ->
    meta (fee_marker amount metadata) key = "").
  { intros key Hkey. unfold meta, fee_marker.
    assert (key <> "fee_amount_total" /\ key <> "fee_data_total_from_components" /\
      key <> "fee_execution_total_from_components" /\ key <> "fee_total_mismatch" /\ key <> "data_fee_l1_unavailable") as (? & ? & ? & ? & ?).
    { split_and!; intros ->; discriminate Hkey. }
    destruct (hasBaseDataFee metadata), (hasBaseFeeComponentMetaMismatch amount metadata);
      rewrite ?lookup_insert_ne by congruence; by rewrite lookup_empty. }
  unfold evm_given, first_given, labelled. by rewrite !H.
Qed.

Lemma empty_metadata : metadataFromChainData emptyJSONObject = ∅.
Proof. reflexivity. Qed.

(** A raw fee of an EVM chain whose metadata has no path. *)
Lemma evm_fee_charges chain network txHash f result n fee : IsEVMChain chain = true ->
  evm_given (metadataFromChainData (nbe_ChainData n)) = "" ->
  signed_as_fee chain (nbe_ActivityType n) = true -> nbe_Address n = tr_FeePayer result ->
  nbe_AssetID n = nbe_ContractAddress n ->
  (nbe_OuterInstructionIndex n, nbe_InnerInstructionIndex n) = (-1, -1) ->
  fe_Path fee = or_else (trim_space (nbe_EventPath n)) (instruction_text (-1) (-1)) ->
  fe_Asset fee = asset_of chain (nbe_ContractAddress n) -> fe_Activity fee = nbe_ActivityType n ->
  fe_Delta fee = canonicalFeeDelta (nbe_Delta n) ->
  charges chain result fee (base_event chain network txHash f n).
Proof.
  intros He Hpath Hfee Haddr Hasset [= Ho Hi] Hp Ha Hact Hd.
  assert (Hsigned : isBaseFeeActivity (nbe_ActivityType n) || String.eqb (nbe_ActivityType n) ActivityFee = true).
  { unfold signed_as_fee in Hfee. rewrite He in Hfee. unfold isBaseFeeActivity. cbn [str_in existsb] in *.
    by destruct (String.eqb _ ActivityFee), (String.eqb _ ActivityFeeExecutionL2), (String.eqb _ ActivityFeeDataL1). }
  unfold base_event, stamp. rewrite evm_given_spec, Hpath, Hasset, asset_or_same, Haddr, Ho, Hi, Hsigned.
  split; cbn [nbe_EventPath nbe_Address nbe_ActorAddress nbe_AssetID nbe_ActivityType nbe_Delta]; try done.
  - unfold actor_of, is_solana_like. by rewrite He.
  - rewrite Ha. unfold asset_of. by rewrite He.
Qed.

Lemma fees_charge chain network txHash f owners result :
  Forall2 (fun fee n => charges chain result fee
    (if IsEVMChain chain then base_event chain network txHash f n
     else if String.eqb chain ChainBTC then btc_event chain network txHash f n
     else (solana_event chain network txHash f owners (solana_resolve chain n)).1)) (fees_of chain result) (raw_fees chain result).
Proof.
  unfold fees_of, raw_fees. destruct (IsEVMChain chain) eqn:He; [|destruct (String.eqb_spec chain ChainBTC) as [->|Hb]].
  - unfold base_fee_events, resolveBaseFeeEventPath. set (metadata := collectBaseMetadata _). rewrite evm_given_spec.
    assert (Hor : (if negb (str_empty (evm_given metadata)) then evm_given metadata else "log:0") =
      or_else (evm_given metadata) "log:0") by (unfold or_else; by destruct (str_empty _)).
    rewrite Hor. assert (Hs : forall a, str_in a [ActivityFee; ActivityFeeExecutionL2; ActivityFeeDataL1] = true -> signed_as_fee chain a = true).
    { intros a Hin. unfold signed_as_fee. by rewrite He. }
    destruct (isEVML1Chain chain).
    { constructor; [|constructor]. apply evm_fee_charges; try done. by apply Hs. }
    constructor.
    + set (marker := fee_marker _ _). destruct (decide (marker = ∅)).
      * apply evm_fee_charges; try done. by apply Hs.
      * apply evm_fee_charges; try done; [|by apply Hs]. cbn [with_chain_data nbe_ChainData]. unfold mergeMetadataJSON.
        rewrite metadata_marshal. change (metadataFromChainData _) with (∅ : gmap string string).
        rewrite (right_id_L ∅ (∪)). apply marker_has_no_path.
    + destruct (deriveBaseDataFee metadata); constructor; [|constructor]. apply evm_fee_charges; try done. by apply Hs.
  - constructor; [|constructor]. by split.
  - assert (Hs : is_solana_like chain = true) by (apply solana_like_cases; by rewrite He, (proj2 (String.eqb_neq _ _) Hb)).
    constructor; [|constructor]. split; try done.
    + unfold actor_of. by rewrite Hs.
    + transitivity (asset_or_contract (canonicalizeAddressIdentity chain systemProgram) (canonicalizeAddressIdentity chain systemProgram));
        [done|]. rewrite asset_or_same. unfold canonicalizeAddressIdentity. by rewrite He.
Qed.

(** The stamped form of a raw event. *)
Definition stamped_as (chain : Chain) (network : Network) (txHash finality : string) (result : TransactionResult)
    (watchedAddrs : gset string) (n : NormalizedBalanceEvent) : NormalizedBalanceEvent :=
  if IsEVMChain chain then base_event chain network txHash finality n
  else if String.eqb chain ChainBTC then btc_event chain network txHash finality n
  else (solana_event chain network txHash finality
          (outerHasOwner (solana_resolve chain <$> source_events chain result watchedAddrs)) (solana_resolve chain n)).1.

Lemma stamped_elem chain network txHash result f watchedAddrs e :
  e ∈ stamped_events chain network txHash result f watchedAddrs <->
  exists n, e = stamped_as chain network txHash (normalizeFinalityStateOrDefault chain f) result watchedAddrs n /\
            n ∈ source_events chain result watchedAddrs.
Proof.
  unfold stamped_events, stamped_as, source_events. destruct (IsEVMChain chain); [apply list_elem_of_fmap|].
  destruct (String.eqb chain ChainBTC); [apply list_elem_of_fmap|].
  unfold solana_stamped. rewrite <- list_fmap_compose, list_elem_of_fmap. split.
  - intros (r & -> & Hr). rewrite stable_sort_perm in Hr. apply list_elem_of_fmap in Hr as (n & -> & Hn). by exists n.
  - intros (n & -> & Hn). exists (solana_resolve chain n). split; [done|]. rewrite stable_sort_perm. by apply list_elem_of_fmap_2.
Qed.

Lemma stamped_as_id chain network txHash f result watchedAddrs n :
  let e := stamped_as chain network txHash f result watchedAddrs n in
  nbe_EventID e = buildCanonicalEventID chain network txHash (nbe_EventPath e) (nbe_ActorAddress e) (nbe_AssetID e)
                    (nbe_ActivityType e) /\ nbe_FinalityState e = f.
Proof. unfold stamped_as. destruct (IsEVMChain chain); [done|]. by destruct (String.eqb chain ChainBTC). Qed.

Lemma stamped_as_comes_from chain network txHash f result watchedAddrs b :
  comes_from chain (watched_infos result watchedAddrs) b
    (stamped_as chain network txHash f result watchedAddrs (normalize_raw (self_transfers chain) b)).
Proof.
  unfold stamped_as. destruct (IsEVMChain chain) eqn:He; [by apply evm_comes_from|].
  destruct (String.eqb_spec chain ChainBTC) as [->|Hb]; [apply btc_comes_from|].
  apply solana_comes_from, solana_like_cases. by rewrite He, (proj2 (String.eqb_neq _ _) Hb).
Qed.

(** ** The events of a transaction *)

(** C31: what a transaction's events are.  Their identifiers increase strictly and are the
    hash of chain, network, transaction, path, actor, asset and activity.  Every event
    carries the finality of the result and is either a watched event of the sidecar, with the
    path, actor, asset, parties, activity and amount that its fields and metadata give
    ([comes_from]), or one of the fees due from the watched payer ([charges], [fees_due]).
    And every watched event, unless an EVM transaction was reverted, and every fee due is
    there under the identifier of its own path, actor, asset and activity. *)
Theorem transaction_events chain network result sigTime watchedAddrs :
  let tx := normalizedTxFromResult chain network result sigTime watchedAddrs in
  let finality := resolveResultFinalityState chain (Some result) in
  let infos := watched_infos result watchedAddrs in
  let id := buildCanonicalEventID chain network (ntx_TxHash tx) in
  StronglySorted str_lt (nbe_EventID <$> ntx_BalanceEvents tx) /\
  (forall x, x ∈ ntx_BalanceEvents tx ->
     nbe_EventID x = id (nbe_EventPath x) (nbe_ActorAddress x) (nbe_AssetID x) (nbe_ActivityType x) /\
     nbe_FinalityState x = finality /\
     ((exists b, b ∈ infos /\ reverted chain result = false /\ comes_from chain infos b x) \/
      (fees_due chain result watchedAddrs /\ exists f, f ∈ fees_of chain result /\ charges chain result f x))) /\
  (forall b, b ∈ infos -> reverted chain result = false ->
     exists x, x ∈ ntx_BalanceEvents tx /\
       nbe_EventID x = id (path_of chain infos b) (actor_of chain (bi_Address b)) (asset_of chain (bi_ContractAddress b))
                         (activity_of chain b)) /\
  (forall f, f ∈ fees_of chain result -> fees_due chain result watchedAddrs ->
     exists x, x ∈ ntx_BalanceEvents tx /\
       nbe_EventID x = id (fe_Path f) (actor_of chain (tr_FeePayer result)) (fe_Asset f) (fe_Activity f)).
Proof.
  cbv zeta. cbn [normalizedTxFromResult ntx_TxHash ntx_BalanceEvents]. set (hash := if str_empty _ then _ else _).
  set (f := resolveResultFinalityState chain (Some result)).
  pose proof (events_merge chain network hash result f watchedAddrs) as (Hs & Hin & Hall).
  assert (Hst : forall e, e ∈ stamped_events chain network hash result f watchedAddrs <->
    exists n, e = stamped_as chain network hash f result watchedAddrs n /\ n ∈ source_events chain result watchedAddrs).
  { intros e. rewrite stamped_elem. unfold f at 1. by rewrite resolve_finality_canonical. }
  pose proof (fees_charge chain network hash f
    (outerHasOwner (solana_resolve chain <$> source_events chain result watchedAddrs)) result) as Hfees.
  split; [exact Hs|]. split_and!.
  - intros x Hx. apply Hin, Hst in Hx as (n & -> & Hn).
    destruct (stamped_as_id chain network hash f result watchedAddrs n) as [Hid Hf]. split; [exact Hid|]. split; [exact Hf|].
    apply source_split in Hn as [(Hr & b & Hb & ->)|[Hd Hn]].
    + left. exists b. split; [done|]. split; [done|apply stamped_as_comes_from].
    + right. split; [done|]. destruct (Forall2_elem_r _ _ _ _ Hfees Hn) as (fee & Hfee & Hc). by exists fee.
  - intros b Hb Hr. set (n := normalize_raw (self_transfers chain) b).
    destruct (Hall (stamped_as chain network hash f result watchedAddrs n)) as (x & Hx & Hid).
    { apply Hst. exists n. split; [done|]. apply source_split. left. eauto. }
    exists x. split; [done|]. rewrite Hid. destruct (stamped_as_id chain network hash f result watchedAddrs n) as [-> _].
    destruct (stamped_as_comes_from chain network hash f result watchedAddrs b) as [H1 _ H2 H3 _ _ H4 _ _].
    fold n in H1, H2, H3, H4. by rewrite H1, H2, H3, H4.
  - intros fee Hfee Hd. destruct (Forall2_elem_l _ _ _ _ Hfees Hfee) as (n & Hn & [H1 _ H2 H3 H4 _]).
    destruct (Hall (stamped_as chain network hash f result watchedAddrs n)) as (x & Hx & Hid).
    { apply Hst. exists n. split; [done|]. apply source_split. by right. }
    exists x. split; [done|]. rewrite Hid. destruct (stamped_as_id chain network hash f result watchedAddrs n) as [-> _].
    unfold stamped_as. by rewrite H1, H2, H3, H4.
Qed.
