(* ===== verification/NormalizerDecode.v ===== *)
(** * Normalizer, decode results: [normalizer_identity_decode.go]

    The canonical signatures of a batch, the choice between two decodes of a transaction
    and the merge of their events, the coverage floor that keeps what an earlier decode
    has shown, and the classification of decode errors. *)

From Stdlib Require Import ZArith String Ascii Lia.
From stdpp Require Import base option list strings gmap sorting.
From S2P Require Import Prelude Ordering Retry Domain Identity Cache NormalizerRules.

Open Scope Z_scope.
Open Scope go_scope.

(** ** Signatures *)

(** [event.SignatureInfo] *)
Record SignatureInfo := { sg_Hash : string; sg_Sequence : Z; sg_Time : option Z }.

Definition shouldReplaceCanonicalSignature (existing incoming : SignatureInfo) : bool :=
  if negb (sg_Sequence existing =? sg_Sequence incoming)
  then sg_Sequence existing <? sg_Sequence incoming
  else str_ltb (sg_Hash incoming) (sg_Hash existing).

Definition add_signature (chainID : Chain) (byIdentity : gmap string SignatureInfo) (sig : SignatureInfo)
    : gmap string SignatureInfo :=
  let id := CanonicalSignatureIdentity chainID (sg_Hash sig) in
  if str_empty id then byIdentity
  else
    let candidate := {| sg_Hash := id; sg_Sequence := sg_Sequence sig; sg_Time := sg_Time sig |} in
    match byIdentity !! id with
    | None => <[id := candidate]> byIdentity
    | Some existing =>
        if shouldReplaceCanonicalSignature existing candidate then <[id := candidate]> byIdentity else byIdentity
    end.

Definition signature_order : SignatureInfo -> SignatureInfo -> comparison :=
  lex (on sg_Sequence Z.compare) (on sg_Hash String.compare).

Definition canonicalizeBatchSignatures (chainID : Chain) (sigs : list SignatureInfo) : list SignatureInfo :=
  stable_sort signature_order (sorted_values (foldl (add_signature chainID) ∅ sigs)).

(** ** Copies

    A model value has no identity, so a copy is the value itself. *)

Definition cloneDecodedBalanceEvent (be : BalanceEventInfo) : BalanceEventInfo :=
  {| bi_OuterInstructionIndex := bi_OuterInstructionIndex be;
     bi_InnerInstructionIndex := bi_InnerInstructionIndex be; bi_EventCategory := bi_EventCategory be;
     bi_EventAction := bi_EventAction be; bi_ProgramId := bi_ProgramId be; bi_Address := bi_Address be;
     bi_ContractAddress := bi_ContractAddress be; bi_Delta := bi_Delta be;
     bi_CounterpartyAddress := bi_CounterpartyAddress be; bi_TokenSymbol := bi_TokenSymbol be;
     bi_TokenName := bi_TokenName be; bi_TokenDecimals := bi_TokenDecimals be; bi_TokenType := bi_TokenType be;
     bi_Metadata := bi_Metadata be |}.

Definition set_balance_events (events : list (option BalanceEventInfo)) (r : TransactionResult) : TransactionResult :=
  {| tr_TxHash := tr_TxHash r; tr_BlockCursor := tr_BlockCursor r; tr_BlockTime := tr_BlockTime r;
     tr_FeeAmount := tr_FeeAmount r; tr_FeePayer := tr_FeePayer r; tr_Status := tr_Status r;
     tr_Error := tr_Error r; tr_BalanceEvents := events |}.

Definition cloneDecodedResult (r : TransactionResult) : TransactionResult :=
  set_balance_events (option_map cloneDecodedBalanceEvent <$> tr_BalanceEvents r) r.

(** ** Keys and scores of an event *)

Definition decodedCoverageEventHasPathHint (chainID : Chain) (be : BalanceEventInfo) : bool :=
  if IsEVMChain chainID then negb (str_empty (resolveBaseMetadataEventPath (bi_Metadata be)))
  else if String.eqb chainID ChainSolana then hasSolanaInstructionPathHint (bi_Metadata be)
  else negb (str_empty (trim_space (meta (bi_Metadata be) "event_path"))).

Definition event_category (be : BalanceEventInfo) : string :=
  let category := to_upper (trim_space (bi_EventCategory be)) in
  if str_empty category then to_upper (trim_space (bi_EventAction be)) else category.

Definition decodedCoverageEventLineageKey (chainID : Chain) (be : BalanceEventInfo) : string :=
  let address := or_trimmed chainID (trim_space (bi_Address be)) in
  let assetID := or_trimmed chainID (trim_space (bi_ContractAddress be)) in
  let counterparty := or_trimmed chainID (trim_space (bi_CounterpartyAddress be)) in
  let category := event_category be in
  let delta := trim_space (bi_Delta be) in
  let delta := if is_fee_category category then canonicalFeeDelta delta else delta in
  category +:+ "|" +:+ address +:+ "|" +:+ assetID +:+ "|" +:+ counterparty +:+ "|" +:+ delta.

Definition decodedCoverageEventKey (chainID : Chain) (be : BalanceEventInfo) : string :=
  decodedEventPath chainID be +:+ "|" +:+ or_trimmed chainID (bi_Address be) +:+ "|" +:+
  or_trimmed chainID (bi_ContractAddress be) +:+ "|" +:+ event_category be.

(** The key of an event, else its fingerprint. *)
Definition coverage_key (chainID : Chain) (be : BalanceEventInfo) : string :=
  let key := decodedCoverageEventKey chainID be in
  if str_empty key then decodedEventFingerprint chainID be else key.

Record decodedCoverageEventScore := {
  es_pathHint : bool; es_metadataCount : nat; es_populatedFieldCount : nat; es_fingerprint : string
}.

Definition count_nonempty (values : list string) : nat := length (filter (fun v => str_empty v = false) values).

Definition decodedCoverageEventSelectionScore (chainID : Chain) (be : BalanceEventInfo) : decodedCoverageEventScore :=
  {| es_pathHint := decodedCoverageEventHasPathHint chainID be;
     es_metadataCount := size (bi_Metadata be);
     es_populatedFieldCount :=
       count_nonempty (trim_space <$> [bi_EventCategory be; bi_EventAction be; bi_ProgramId be; bi_Address be;
         bi_ContractAddress be; bi_CounterpartyAddress be; bi_TokenSymbol be; bi_TokenName be; bi_Delta be]) +
       (if bi_TokenDecimals be =? 0 then 0 else 1) +
       (if str_empty (trim_space (bi_TokenType be)) then 0 else 1);
     es_fingerprint := decodedEventFingerprint chainID be |}.

Definition shouldReplaceDecodedCoverageEvent (chainID : Chain) (existing incoming : BalanceEventInfo) : bool :=
  let e := decodedCoverageEventSelectionScore chainID existing in
  let i := decodedCoverageEventSelectionScore chainID incoming in
  if negb (Bool.eqb (es_pathHint e) (es_pathHint i)) then es_pathHint i
  else if negb (es_metadataCount e =? es_metadataCount i)%nat then (es_metadataCount e <? es_metadataCount i)%nat
  else if negb (es_populatedFieldCount e =? es_populatedFieldCount i)%nat
  then (es_populatedFieldCount e <? es_populatedFieldCount i)%nat
  else str_ltb (es_fingerprint i) (es_fingerprint e).

(** ** The merge of two event lists *)

Definition add_event (chainID : Chain) (byKey : gmap string BalanceEventInfo) (be : option BalanceEventInfo)
    : gmap string BalanceEventInfo :=
  match be with
  | None => byKey
  | Some b =>
      let key := coverage_key chainID b in
      if str_empty key then byKey
      else match byKey !! key with
           | None => <[key := cloneDecodedBalanceEvent b]> byKey
           | Some existing =>
               if shouldReplaceDecodedCoverageEvent chainID existing b
               then <[key := cloneDecodedBalanceEvent b]> byKey else byKey
           end
  end.

Definition complete_fee_split (metadata : gmap string string) : bool :=
  isSome (deriveBaseExecutionFeeFromMetadata metadata) && isSome (deriveBaseDataFee metadata).

Definition set_metadata (m : gmap string string) (be : BalanceEventInfo) : BalanceEventInfo :=
  {| bi_OuterInstructionIndex := bi_OuterInstructionIndex be;
     bi_InnerInstructionIndex := bi_InnerInstructionIndex be; bi_EventCategory := bi_EventCategory be;
     bi_EventAction := bi_EventAction be; bi_ProgramId := bi_ProgramId be; bi_Address := bi_Address be;
     bi_ContractAddress := bi_ContractAddress be; bi_Delta := bi_Delta be;
     bi_CounterpartyAddress := bi_CounterpartyAddress be; bi_TokenSymbol := bi_TokenSymbol be;
     bi_TokenName := bi_TokenName be; bi_TokenDecimals := bi_TokenDecimals be; bi_TokenType := bi_TokenType be;
     bi_Metadata := m |}.

(** The component keys of [additional] that are not blank, copied. *)
Definition copy_components (additional out : gmap string string) : gmap string string :=
  foldl (fun out key =>
           let value := trim_space (meta additional key) in
           if str_empty value then out else <[key := value]> out) out baseFeeComponentMetadataKeys.

Definition mergeDecodedCoverageEventMetadata (chainID : Chain) (preferred additional : BalanceEventInfo)
    : BalanceEventInfo :=
  let p := bi_Metadata preferred in
  let a := bi_Metadata additional in
  if (size a =? 0)%nat then preferred
  else
    let merged := p ∪ a in
    set_metadata
      (if IsEVMChain chainID && complete_fee_split a && negb (complete_fee_split p)
       then copy_components a merged else merged) preferred.

(** The keys of the events by lineage, each list ascending. *)
Definition lineage_groups (chainID : Chain) (byKey : gmap string BalanceEventInfo) : gmap string (list string) :=
  foldl (fun g (kb : string * BalanceEventInfo) =>
           let lineageKey := decodedCoverageEventLineageKey chainID kb.2 in
           if str_empty lineageKey then g
           else <[lineageKey := default [] (g !! lineageKey) ++ [kb.1]]> g) ∅ (sorted_entries byKey).

Definition hinted_key (chainID : Chain) (byKey : gmap string BalanceEventInfo) (key : string) : bool :=
  match byKey !! key with Some be => decodedCoverageEventHasPathHint chainID be | None => false end.
Definition pathless_key (chainID : Chain) (byKey : gmap string BalanceEventInfo) (key : string) : bool :=
  match byKey !! key with Some be => negb (decodedCoverageEventHasPathHint chainID be) | None => false end.

(** The best event of a group, from the one with a path. *)
Definition pick_keeper (chainID : Chain) (byKey : gmap string BalanceEventInfo) (groupKeys : list string)
    (start : string * BalanceEventInfo) : string * BalanceEventInfo :=
  foldl (fun (keeper : string * BalanceEventInfo) key =>
           if String.eqb key keeper.1 then keeper
           else match byKey !! key with
                | None => keeper
                | Some candidate =>
                    if shouldReplaceDecodedCoverageEvent chainID keeper.2 candidate then (key, candidate) else keeper
                end) start groupKeys.

(** The events without a path go into the keeper. *)
Definition absorb (chainID : Chain) (keeperKey : string)
    (s : BalanceEventInfo * gmap string BalanceEventInfo) (key : string)
    : BalanceEventInfo * gmap string BalanceEventInfo :=
  if String.eqb key keeperKey then s
  else match s.2 !! key with
       | None => s
       | Some be => (mergeDecodedCoverageEventMetadata chainID s.1 be, delete key s.2)
       end.

Definition reconcile_group (chainID : Chain) (byKey : gmap string BalanceEventInfo) (groupKeys : list string)
    : gmap string BalanceEventInfo :=
  if (length groupKeys <? 2)%nat then byKey
  else
    let pathHintedKeys := filter (fun k => hinted_key chainID byKey k = true) groupKeys in
    let pathlessKeys := filter (fun k => pathless_key chainID byKey k = true) groupKeys in
    match pathHintedKeys, pathlessKeys with
    | [keeperKey], _ :: _ =>
        match byKey !! keeperKey with
        | None => byKey
        | Some be =>
            let '(keeperKey, keeper) := pick_keeper chainID byKey groupKeys (keeperKey, be) in
            if negb (decodedCoverageEventHasPathHint chainID keeper) then byKey
            else
              let '(keeper, byKey) := foldl (absorb chainID keeperKey) (keeper, byKey) pathlessKeys in
              <[keeperKey := keeper]> byKey
        end
    | _, _ => byKey
    end.

(** The groups were collected before any of them is changed; they are disjoint. *)
Definition reconcileDecodedCoverageLineageAliases (chainID : Chain) (byKey : gmap string BalanceEventInfo)
    : gmap string BalanceEventInfo :=
  if (size byKey <? 2)%nat then byKey
  else foldl (reconcile_group chainID) byKey (sort_strings <$> sorted_values (lineage_groups chainID byKey)).

Definition mergeDecodedBalanceEvents (chainID : Chain) (primary secondary : list (option BalanceEventInfo))
    : list (option BalanceEventInfo) :=
  let byKey := foldl (add_event chainID) ∅ (primary ++ secondary) in
  Some <$> sorted_values (reconcileDecodedCoverageLineageAliases chainID byKey).

(** ** The choice between two results *)

Record decodedResultScore := {
  rs_eventCount : nat; rs_metadataCount : nat; rs_pathHintCount : nat; rs_fingerprint : string
}.

Definition events_of (r : TransactionResult) : list BalanceEventInfo := omap id (tr_BalanceEvents r).

Definition decodedResultSelectionScore (chainID : Chain) (r : TransactionResult) : decodedResultScore :=
  {| rs_eventCount := length (events_of r);
     rs_metadataCount := sum_list (size ∘ bi_Metadata <$> events_of r);
     rs_pathHintCount :=
       length (filter (fun be => negb (str_empty (resolveBaseMetadataEventPath (bi_Metadata be))) ||
                                 hasSolanaInstructionPathHint (bi_Metadata be) = true) (events_of r));
     rs_fingerprint := String.concat ";" (sort_strings (decodedEventFingerprint chainID <$> events_of r)) |}.

Definition shouldReplaceDecodedResult (chainID : Chain) (existing incoming : TransactionResult) : bool :=
  if negb (tr_BlockCursor existing =? tr_BlockCursor incoming)
  then tr_BlockCursor existing <? tr_BlockCursor incoming
  else
    match compareFinalityStateStrength (resolveResultFinalityState chainID (Some existing))
            (resolveResultFinalityState chainID (Some incoming)) with
    | Lt => true
    | Gt => false
    | Eq =>
        let existingStatus := trim_space (tr_Status existing) in
        let incomingStatus := trim_space (tr_Status incoming) in
        let existingSuccess := equal_fold existingStatus TxStatusSuccess in
        let incomingSuccess := equal_fold incomingStatus TxStatusSuccess in
        let existingFee := trim_space (tr_FeeAmount existing) in
        let incomingFee := trim_space (tr_FeeAmount incoming) in
        let existingPayer := CanonicalSignatureIdentity chainID (tr_FeePayer existing) in
        let incomingPayer := CanonicalSignatureIdentity chainID (tr_FeePayer incoming) in
        let existingHash := CanonicalSignatureIdentity chainID (tr_TxHash existing) in
        let incomingHash := CanonicalSignatureIdentity chainID (tr_TxHash incoming) in
        let e := decodedResultSelectionScore chainID existing in
        let i := decodedResultSelectionScore chainID incoming in
        if negb (Bool.eqb existingSuccess incomingSuccess) then incomingSuccess
        else if negb (String.eqb existingStatus incomingStatus) then str_ltb incomingStatus existingStatus
        else if negb (String.eqb existingFee incomingFee) then str_ltb incomingFee existingFee
        else if negb (String.eqb existingPayer incomingPayer) then str_ltb incomingPayer existingPayer
        else if negb (String.eqb existingHash incomingHash) then str_ltb incomingHash existingHash
        else if negb (rs_eventCount e =? rs_eventCount i)%nat then (rs_eventCount e <? rs_eventCount i)%nat
        else if negb (rs_pathHintCount e =? rs_pathHintCount i)%nat
        then (rs_pathHintCount e <? rs_pathHintCount i)%nat
        else if negb (rs_metadataCount e =? rs_metadataCount i)%nat
        then (rs_metadataCount e <? rs_metadataCount i)%nat
        else str_ltb (rs_fingerprint i) (rs_fingerprint e)
    end.

Definition reconcileDecodedResultCoverage (chainID : Chain) (existing : option TransactionResult)
    (incoming : TransactionResult) : TransactionResult :=
  match existing with
  | None => incoming
  | Some existing =>
      let '(preferred, secondary) :=
        if shouldReplaceDecodedResult chainID existing incoming then (incoming, existing) else (existing, incoming) in
      set_balance_events
        (mergeDecodedBalanceEvents chainID (tr_BalanceEvents preferred) (tr_BalanceEvents secondary))
        (cloneDecodedResult preferred)
  end.

(** ** The coverage floor *)

Definition coverageFloorKey (chainID : Chain) (network : Network) (address signature : string) : string :=
  chainID +:+ "|" +:+ network +:+ "|" +:+ or_trimmed chainID address +:+ "|" +:+ signature.

Definition decodedCoverageEventSet (chainID : Chain) (r : option TransactionResult) : gset string :=
  match r with
  | None => ∅
  | Some r => list_to_set (filter (fun k => str_empty k = false) (coverage_key chainID <$> events_of r))
  end.

(** How many keys of the floor the incoming result lacks, and how many it adds. *)
Definition decodedCoverageDelta (chainID : Chain) (floor incoming : option TransactionResult) : nat * nat :=
  let f := decodedCoverageEventSet chainID floor in
  let i := decodedCoverageEventSet chainID incoming in
  (size (f ∖ i), size (i ∖ f)).

Section Floor.
Context {C : Type} `{Cache C string TransactionResult}.

(** The result that goes on, and the cache with the new floor. *)
Definition reconcileCoverageRegressionFlap (now : Z) (coverageFloor : C) (chain : Chain) (network : Network)
    (address signatureKey : string) (incoming : TransactionResult) : TransactionResult * C :=
  if str_empty signatureKey then (incoming, coverageFloor)
  else
    let floorKey := coverageFloorKey chain network address signatureKey in
    let '(existing, coverageFloor) := Get now coverageFloor floorKey in
    let reconciled := reconcileDecodedResultCoverage chain existing incoming in
    (reconciled, Put now coverageFloor floorKey (cloneDecodedResult reconciled)).
End Floor.

(** ** Decode errors *)

(** [%03d] of an index. *)
Definition show_3 (n : nat) : string :=
  let s := show_Z (Z.of_nat n) in
  if (n <? 10)%nat then "00" +:+ s else if (n <? 100)%nat then "0" +:+ s else s.

Definition keep_least (key reason : string) (m : gmap string string) : gmap string string :=
  match m !! key with
  | Some existing => if str_ltb reason existing then <[key := reason]> m else m
  | None => <[key := reason]> m
  end.

(** The terminal and the transient reasons so far. *)
Definition classify_step (chainID : Chain) (maps : gmap string string * gmap string string)
    (idx : nat) (decErr : option DecodeError) : gmap string string * gmap string string :=
  match decErr with
  | None => maps
  | Some e =>
      let '(terminalBySignature, transientBySignature) := maps in
      let id := CanonicalSignatureIdentity chainID (de_Signature e) in
      let signatureKey := if str_empty id then "<unknown:" +:+ show_3 idx +:+ ">" else id in
      let trimmed := trim_space (de_Error e) in
      let reason := if str_empty trimmed then "decode failed" else trimmed in
      if IsTransient (Classify (Some (EMsg ("sidecar decode error: " +:+ reason))))
      then (delete signatureKey terminalBySignature, keep_least signatureKey reason transientBySignature)
      else match transientBySignature !! signatureKey with
           | Some _ => maps
           | None => (keep_least signatureKey reason terminalBySignature, transientBySignature)
           end
  end.

Fixpoint classify_from (chainID : Chain) (idx : nat) (decodeErrors : list (option DecodeError))
    (maps : gmap string string * gmap string string) : gmap string string * gmap string string :=
  match decodeErrors with
  | [] => maps
  | e :: es => classify_from chainID (S idx) es (classify_step chainID maps idx e)
  end.

Definition classifyDecodeErrors (chainID : Chain) (decodeErrors : list (option DecodeError))
    : gmap string string * gmap string string :=
  classify_from chainID 0 decodeErrors (∅, ∅).

Definition formatDecodeDiagnostics (errorBySignature : gmap string string) : string :=
  if decide (errorBySignature = ∅) then "<none>"
  else String.concat "," ((fun kv => kv.1 +:+ "=" +:+ kv.2) <$> sorted_entries errorBySignature).

(** ** Cursors *)

Definition shouldAdvanceCanonicalCursor (currentSequence : Z) (currentValue : option string)
    (candidateSequence : Z) (candidateValue : string) : bool :=
  if currentSequence <? candidateSequence then true
  else if candidateSequence <? currentSequence then false
  else
    let candidate := trim_space candidateValue in
    if str_empty candidate then false
    else match currentValue with
         | None => true
         | Some v => let current := trim_space v in if str_empty current then true else str_ltb current candidate
         end.
