(* ===== verification/CoverageProofs.v ===== *)
(** * Normalizer: properties of the coverage floor

    Merging two decodes of a transaction loses no event: an event with a path keeps its
    key, an event without one is kept or goes into the event of its lineage that has one.
    With the floor in the cache this holds over any number of decodes. *)

From Stdlib Require Import ZArith String Ascii Lia.
From stdpp Require Import base option list strings gmap sorting.
From S2P Require Import Prelude Ordering Retry Domain Identity Cache NormalizerRules NormalizerEvents NormalizerProofs NormalizerDecode.

Open Scope Z_scope.

(** ** The events of one key *)

Abbreviation hinted := decodedCoverageEventHasPathHint.
Abbreviation lineage := decodedCoverageEventLineageKey.

Lemma clone_event be : cloneDecodedBalanceEvent be = be.
Proof. by destruct be. Qed.

Lemma clone_result r : cloneDecodedResult r = r.
Proof.
  destruct r as [? ? ? ? ? ? ? evs]. unfold cloneDecodedResult, set_balance_events. cbn. f_equal.
  rewrite <- (list_fmap_id evs) at 2. apply list_fmap_ext. intros i [be|] _; [|done]. simpl. by rewrite clone_event.
Qed.

Lemma append_nonempty (a b : string) : b <> EmptyString -> a +:+ b <> EmptyString.
Proof. by destruct a. Qed.

Lemma coverage_key_eq chain be : coverage_key chain be = decodedCoverageEventKey chain be.
Proof.
  unfold coverage_key, str_empty. destruct (String.eqb_spec (decodedCoverageEventKey chain be) ""); [|done].
  exfalso. revert e. unfold decodedCoverageEventKey. by apply append_nonempty.
Qed.

Lemma coverage_key_nonempty chain be : str_empty (coverage_key chain be) = false.
Proof.
  rewrite coverage_key_eq. unfold str_empty. apply String.eqb_neq. unfold decodedCoverageEventKey.
  by apply append_nonempty.
Qed.

Lemma lineage_nonempty chain be : str_empty (lineage chain be) = false.
Proof.
  unfold str_empty. apply String.eqb_neq. unfold decodedCoverageEventLineageKey. cbv zeta. by apply append_nonempty.
Qed.

Lemma add_events_merge chain evs : forall m,
  foldl (add_event chain) m evs =
  foldl (keep_best (coverage_key chain) (shouldReplaceDecodedCoverageEvent chain)) m (omap id evs).
Proof.
  induction evs as [|[be|] evs IH]; intros m; simpl; [done| |apply IH]. rewrite <- IH. f_equal.
  unfold keep_best. by rewrite coverage_key_nonempty, clone_event.
Qed.

Definition nat_compare_total : TotalCompare Nat.compare.
Proof.
  split; [intros; apply Nat.compare_antisym|]. intros x y z. rewrite !Nat.compare_le_iff. lia.
Qed.
#[local] Existing Instance nat_compare_total.

(** The better event first. *)
Definition coverage_order (chain : Chain) : BalanceEventInfo -> BalanceEventInfo -> comparison :=
  lex (on (hinted chain) (opposite bool_compare))
  (lex (on (fun be => es_metadataCount (decodedCoverageEventSelectionScore chain be)) (opposite Nat.compare))
  (lex (on (fun be => es_populatedFieldCount (decodedCoverageEventSelectionScore chain be)) (opposite Nat.compare))
  (on (decodedEventFingerprint chain) String.compare))).

#[local] Instance coverage_order_total chain : TotalCompare (coverage_order chain).
Proof. unfold coverage_order. apply _. Qed.

Lemma lex_nat_gt (a b : nat) (r : bool) (c : comparison) : r = is_gt c ->
  (if negb (a =? b)%nat then (a <? b)%nat else r) = is_gt (match Nat.compare b a with Eq => c | x => x end).
Proof.
  intros ->. destruct (Nat.eqb_spec a b) as [->|Hne]; simpl; [by rewrite Nat.compare_refl|].
  destruct (Nat.compare_spec b a); simpl; [lia|apply Nat.ltb_ge; lia|by apply Nat.ltb_lt].
Qed.

Lemma replace_coverage_order chain x y :
  shouldReplaceDecodedCoverageEvent chain x y = is_gt (coverage_order chain x y).
Proof.
  unfold shouldReplaceDecodedCoverageEvent, coverage_order, lex. unfold on at 1, opposite at 1.
  change (es_pathHint (decodedCoverageEventSelectionScore chain x)) with (hinted chain x).
  change (es_pathHint (decodedCoverageEventSelectionScore chain y)) with (hinted chain y).
  assert (str_ltb (decodedEventFingerprint chain y) (decodedEventFingerprint chain x) =
    is_gt (on (decodedEventFingerprint chain) String.compare x y)) as Hf.
  { unfold str_ltb, on.
    rewrite (cmp_sym (cmp:=String.compare) (decodedEventFingerprint chain x) (decodedEventFingerprint chain y)).
    by destruct (String.compare _ _). }
  destruct (hinted chain x), (hinted chain y); simpl; try done; apply lex_nat_gt, lex_nat_gt, Hf.
Qed.

Lemma order_hinted chain x e : coverage_order chain x e <> Gt -> hinted chain e = true -> hinted chain x = true.
Proof.
  unfold coverage_order, lex, on, opposite. intros Hc He. rewrite He in Hc. by destruct (hinted chain x).
Qed.

(** The event kept under a key is one of the list, and has a path if one of them has. *)
Lemma byKey_spec chain evs k x :
  foldl (add_event chain) ∅ evs !! k = Some x ->
  coverage_key chain x = k /\ Some x ∈ evs /\
  (forall e, Some e ∈ evs -> coverage_key chain e = k -> hinted chain e = true -> hinted chain x = true).
Proof.
  rewrite add_events_merge. intros Hx. pose proof (merged_spec _ _ _ _ _ Hx) as [Hk Hin].
  assert (forall y, y ∈ omap id evs <-> Some y ∈ evs) as Hmap.
  { intros y. rewrite list_elem_of_omap. split; [intros (o & Ho & E); unfold id in E; by subst|by intros Ho; exists (Some y)]. }
  split; [done|]. split; [by apply Hmap|]. intros e He Hke.
  apply order_hinted. eapply (merged_least (coverage_key chain) (shouldReplaceDecodedCoverageEvent chain)
    (coverage_order chain) (fun _ => True)); [| |exact Hx| |done].
  - intros. apply replace_coverage_order.
  - by apply Forall_forall.
  - by apply Hmap.
Qed.

Lemma byKey_complete chain evs e : Some e ∈ evs -> is_Some (foldl (add_event chain) ∅ evs !! coverage_key chain e).
Proof.
  intros He. rewrite add_events_merge. apply merged_complete, list_elem_of_omap. by exists (Some e).
Qed.

(** ** Merging metadata *)

(** All fields but the metadata. *)
Definition same_fields (be be' : BalanceEventInfo) : Prop := exists m, be' = set_metadata m be.

Lemma same_fields_refl be : same_fields be be.
Proof. exists (bi_Metadata be). by destruct be. Qed.

Lemma same_fields_trans a b c : same_fields a b -> same_fields b c -> same_fields a c.
Proof. intros [m ->] [m' ->]. by exists m'. Qed.

Lemma same_fields_lineage chain be be' : same_fields be be' -> lineage chain be' = lineage chain be.
Proof. by intros [m ->]. Qed.

Lemma merge_metadata_fields chain p a : same_fields p (mergeDecodedCoverageEventMetadata chain p a).
Proof.
  unfold mergeDecodedCoverageEventMetadata. destruct (size _ =? 0)%nat; [apply same_fields_refl|]. by eexists.
Qed.

(** The chains whose paths the hint looks at. *)
Definition pathed_chain (chain : Chain) : Prop := IsEVMChain chain = true \/ chain = ChainSolana.

(** [be'] is [be] with more metadata: the path and its presence are those of [be]. *)
Definition same_path (chain : Chain) (be be' : BalanceEventInfo) : Prop :=
  same_fields be be' /\ hinted chain be' = hinted chain be /\ decodedEventPath chain be' = decodedEventPath chain be.

Lemma same_path_refl chain be : same_path chain be be.
Proof. split; [apply same_fields_refl|done]. Qed.

Lemma same_path_trans chain a b c : same_path chain a b -> same_path chain b c -> same_path chain a c.
Proof. intros (H1 & H2 & H3) (H4 & H5 & H6). split; [by eapply same_fields_trans|]. split; congruence. Qed.

Lemma same_path_key chain be be' : same_path chain be be' -> coverage_key chain be' = coverage_key chain be.
Proof.
  intros ([m ->] & _ & Hp). rewrite !coverage_key_eq. unfold decodedCoverageEventKey. by rewrite Hp.
Qed.

Lemma meta_union p a key : meta (p ∪ a) key = match p !! key with Some v => v | None => meta a key end.
Proof. unfold meta. rewrite lookup_union. by destruct (p !! key), (a !! key). Qed.

Lemma meta_copy_components a m key : key ∉ baseFeeComponentMetadataKeys -> meta (copy_components a m) key = meta m key.
Proof.
  unfold copy_components. generalize baseFeeComponentMetadataKeys. intros keys. revert m.
  induction keys as [|k keys IH]; intros m Hk; simpl; [done|]. rewrite IH by set_solver.
  destruct (str_empty _); [done|]. unfold meta. rewrite lookup_insert_ne; [done|set_solver].
Qed.

Lemma resolve_meta_eq m m' : (forall key, key ∈ baseFeePathMetadataKeys -> meta m' key = meta m key) ->
  resolveBaseMetadataEventPath m' = resolveBaseMetadataEventPath m.
Proof.
  assert (forall m, (size m =? 0)%nat = true -> forall key, meta m key = ""%string) as Hz.
  { intros m0 Hs key. apply Nat.eqb_eq, map_size_empty_iff in Hs. subst. done. }
  intros H.
  assert (meta m' "event_path" = meta m "event_path" /\ meta m' "log_path" = meta m "log_path" /\
    meta m' "log_index" = meta m "log_index" /\ meta m' "base_log_index" = meta m "base_log_index" /\
    meta m' "base_event_path" = meta m "base_event_path") as (H1 & H2 & H3 & H4 & H5).
  { unfold baseFeePathMetadataKeys in H. do 4 (split; [apply H; set_solver|]). apply H; set_solver. }
  clear H. unfold resolveBaseMetadataEventPath. rewrite H1, H2, H3, H4, H5.
  destruct (size m' =? 0)%nat eqn:E', (size m =? 0)%nat eqn:E; [done| |by rewrite !(Hz m E)|done].
  rewrite !(Hz m' E') in H1, H2, H3, H4, H5. by rewrite <- H1, <- H2, <- H3, <- H4, <- H5.
Qed.

Lemma resolve_empty a : resolveBaseMetadataEventPath a = ""%string ->
  forall key, key ∈ baseFeePathMetadataKeys -> meta a key = ""%string.
Proof.
  unfold resolveBaseMetadataEventPath, str_empty. destruct (size a =? 0)%nat eqn:E.
  { intros _ key _. apply Nat.eqb_eq, map_size_empty_iff in E. by subst. }
  destruct (String.eqb_spec (meta a "event_path") ""); [|done].
  destruct (String.eqb_spec (meta a "log_path") ""); [|done].
  destruct (String.eqb_spec (meta a "log_index") ""); [|done].
  destruct (String.eqb_spec (meta a "base_log_index") ""); [|done].
  destruct (String.eqb_spec (meta a "base_event_path") ""); [|done].
  intros _ key Hk. unfold baseFeePathMetadataKeys in Hk. set_solver.
Qed.

Lemma first_path_union p a keys : first_path a keys = None -> first_path (p ∪ a) keys = first_path p keys.
Proof.
  induction keys as [|k keys IH]; simpl; [done|]. rewrite meta_union.
  destruct (parseSolanaInstructionPath (meta a k)) eqn:Ea; [done|]. intros Hn. rewrite IH by done.
  unfold meta at 2. destruct (p !! k); [done|]. by rewrite Ea.
Qed.

Lemma size_union_nonempty (p a : gmap string string) : (size a =? 0)%nat = false -> (size (p ∪ a) =? 0)%nat = false.
Proof.
  rewrite !Nat.eqb_neq. intros Ha Hu. apply map_size_empty_iff in Hu. apply Ha, map_size_empty_iff.
  apply map_empty. intros k. pose proof (f_equal (fun m => m !! k) Hu) as Hk. simpl in Hk.
  rewrite lookup_union, lookup_empty in Hk. by destruct (p !! k), (a !! k).
Qed.

(** Metadata of an event without a path never changes a path. *)
Lemma merge_metadata_path chain p a : pathed_chain chain -> hinted chain a = false ->
  same_path chain p (mergeDecodedCoverageEventMetadata chain p a).
Proof.
  intros Hc Ha. split; [apply merge_metadata_fields|]. unfold mergeDecodedCoverageEventMetadata.
  destruct (size (bi_Metadata a) =? 0)%nat eqn:Es; [done|].
  unfold decodedCoverageEventHasPathHint, decodedEventPath in *. destruct (IsEVMChain chain) eqn:Ee.
  - apply negb_false_iff, String.eqb_eq in Ha. pose proof (resolve_empty _ Ha) as Hk. cbn [andb bi_Metadata set_metadata].
    match goal with |- context [resolveBaseMetadataEventPath (if ?b then ?x else ?y)] =>
      assert (resolveBaseMetadataEventPath (if b then x else y) = resolveBaseMetadataEventPath (bi_Metadata p)) as -> end.
    { apply resolve_meta_eq. intros key Hkey.
      assert (meta (bi_Metadata p ∪ bi_Metadata a) key = meta (bi_Metadata p) key) as Hu.
      { rewrite meta_union, Hk by done. unfold meta. by destruct (bi_Metadata p !! key). }
      destruct (_ && _); [|done]. rewrite meta_copy_components; [done|].
      intros Hkey'. unfold baseFeePathMetadataKeys, baseFeeComponentMetadataKeys in *. set_solver. }
    done.
  - destruct Hc as [Hc|Hc]; [congruence|subst chain].
    rewrite String.eqb_refl in *. cbn [andb bi_Metadata bi_OuterInstructionIndex bi_InnerInstructionIndex set_metadata] in *. unfold hasSolanaInstructionPathHint in *. rewrite Es in Ha.
    assert (first_path (bi_Metadata a) solanaPathKeys = None) as Hn by by destruct (first_path (bi_Metadata a) _).
    rewrite first_path_union by done. rewrite size_union_nonempty by done. split; [|done].
    destruct (size (bi_Metadata p) =? 0)%nat eqn:Ep; [|done].
    apply Nat.eqb_eq, map_size_empty_iff in Ep. rewrite Ep. reflexivity.
Qed.

(** ** Aliases of one lineage *)

Section Aliases.
Context (chain : Chain) (Hchain : pathed_chain chain).

Implicit Types m : gmap string BalanceEventInfo.

(** Nothing is lost: an event stays at its key, perhaps with more metadata, or it had no
    path and one of its lineage that has one is there. *)
Definition keeps m m' : Prop := forall k be, m !! k = Some be ->
  (exists be', m' !! k = Some be' /\ same_path chain be be') \/
  (hinted chain be = false /\ exists k' be', m' !! k' = Some be' /\ hinted chain be' = true /\
     lineage chain be' = lineage chain be).

(** Nothing is invented. *)
Definition from m m' : Prop := forall k be', m' !! k = Some be' ->
  exists be, m !! k = Some be /\ same_path chain be be'.

Definition merges m m' : Prop := keeps m m' /\ from m m'.

Lemma merges_refl m : merges m m.
Proof. split; intros k be Hk; [left|]; exists be; split; (done || apply same_path_refl). Qed.

Lemma merges_trans m1 m2 m3 : merges m1 m2 -> merges m2 m3 -> merges m1 m3.
Proof.
  intros [Hk1 Hf1] [Hk2 Hf2]. split.
  - intros k be Hb. destruct (Hk1 k be Hb) as [(be2 & H2 & Hs)|(Hh & k2 & be2 & H2 & Hh2 & Hl)].
    + destruct (Hk2 k be2 H2) as [(be3 & H3 & Hs')|(Hh' & k3 & be3 & H3 & Hh3 & Hl)].
      * left. exists be3. split; [done|by eapply same_path_trans].
      * right. destruct Hs as (Hsf & Hsh & _). split; [congruence|]. exists k3, be3.
        split; [done|]. split; [done|]. by rewrite Hl, (same_fields_lineage chain be be2).
    + right. split; [done|]. destruct (Hk2 k2 be2 H2) as [(be3 & H3 & (Hsf & Hsh & _))|(Hh' & _)]; [|congruence].
      exists k2, be3. split; [done|]. split; [congruence|]. by rewrite (same_fields_lineage chain be2 be3).
  - intros k be3 H3. destruct (Hf2 k be3 H3) as (be2 & H2 & Hs2). destruct (Hf1 k be2 H2) as (be1 & H1 & Hs1).
    exists be1. split; [done|by eapply same_path_trans].
Qed.

(** An event with a path is never given up for one without. *)
Lemma replace_hinted x y : hinted chain x = true -> hinted chain y = false ->
  shouldReplaceDecodedCoverageEvent chain x y = false.
Proof.
  intros Hx Hy. unfold shouldReplaceDecodedCoverageEvent.
  change (es_pathHint (decodedCoverageEventSelectionScore chain x)) with (hinted chain x).
  change (es_pathHint (decodedCoverageEventSelectionScore chain y)) with (hinted chain y). by rewrite Hx, Hy.
Qed.

Lemma pick_keeper_hinted m keys k be : hinted chain be = true ->
  (forall k' be', k' ∈ keys -> k' <> k -> m !! k' = Some be' -> hinted chain be' = false) ->
  pick_keeper chain m keys (k, be) = (k, be).
Proof.
  intros Hh. unfold pick_keeper. induction keys as [|k' keys IH]; intros Hall; simpl; [done|].
  assert (forall k0 be0, k0 ∈ keys -> k0 <> k -> m !! k0 = Some be0 -> hinted chain be0 = false) as Hall'.
  { intros k0 be0 Hk0. apply Hall. set_solver. }
  destruct (String.eqb_spec k' k) as [|Hne]; [by apply IH|]. destruct (m !! k') as [be'|] eqn:E; [|by apply IH].
  rewrite replace_hinted; [by apply IH|done|]. by apply (Hall k' be'); [set_solver|..].
Qed.

(** The fold over the events without a path. *)
Lemma absorb_spec keeperKey keys : forall m keeper,
  (forall k be, k ∈ keys -> m !! k = Some be -> hinted chain be = false) -> keeperKey ∉ keys ->
  let '(keeper', m') := foldl (absorb chain keeperKey) (keeper, m) keys in
  same_path chain keeper keeper' /\
  (forall k, k ∈ keys -> m' !! k = None) /\ (forall k, k ∉ keys -> m' !! k = m !! k).
Proof.
  induction keys as [|k keys IH]; intros m keeper Hp Hn; simpl.
  { split; [apply same_path_refl|]. split; [set_solver|done]. }
  assert (keeperKey ∉ keys) as Hn' by set_solver. unfold absorb at 2. simpl.
  destruct (String.eqb_spec k keeperKey) as [->|Hne]; [set_solver|].
  destruct (m !! k) as [be|] eqn:E.
  - specialize (IH (delete k m) (mergeDecodedCoverageEventMetadata chain keeper be)). 
    destruct (foldl _ _ _) as [keeper' m'].
    destruct IH as (Hs & Hin & Hout); [|done|].
    { intros k0 be0 Hk0 Hl. rewrite lookup_delete_Some in Hl. destruct Hl as [_ Hl]. apply (Hp k0); [set_solver|exact Hl]. }
    split; [eapply same_path_trans; [|exact Hs]; apply merge_metadata_path; [done|]; by apply (Hp k be); [set_solver|]|].
    split.
    + intros k0 Hk0. destruct (decide (k0 ∈ keys)); [by apply Hin|]. assert (k0 = k) as -> by set_solver.
      rewrite Hout by done. by rewrite lookup_delete_eq.
    + intros k0 Hk0. rewrite Hout by set_solver. rewrite lookup_delete_ne; [done|set_solver].
  - specialize (IH m keeper). destruct (foldl _ _ _) as [keeper' m']. destruct IH as (Hs & Hin & Hout); [|done|].
    { intros k0 be0 Hk0. apply Hp. set_solver. }
    split; [done|]. split.
    + intros k0 Hk0. destruct (decide (k0 ∈ keys)); [by apply Hin|]. assert (k0 = k) as -> by set_solver.
      by rewrite Hout.
    + intros k0 Hk0. apply Hout. set_solver.
Qed.

Lemma group_merges m keys L : NoDup keys ->
  (forall k be, k ∈ keys -> m !! k = Some be -> lineage chain be = L) ->
  merges m (reconcile_group chain m keys).
Proof.
  intros Hnd Hl. unfold reconcile_group. destruct (length keys <? 2)%nat; [apply merges_refl|].
  destruct (filter (fun k => hinted_key chain m k = true) keys) as [|keeperKey [|]] eqn:Eh;
    [apply merges_refl| |apply merges_refl].
  destruct (filter (fun k => pathless_key chain m k = true) keys) as [|p ps] eqn:Ep; [apply merges_refl|].
  destruct (m !! keeperKey) as [be|] eqn:Ek; [|apply merges_refl].
  assert (forall k, k ∈ keys -> hinted_key chain m k = true -> k = keeperKey) as Honly.
  { intros k Hk Hh. assert (k ∈ filter (fun k => hinted_key chain m k = true) keys) as Hf
      by by apply list_elem_of_filter. rewrite Eh in Hf. by apply list_elem_of_singleton in Hf. }
  assert (keeperKey ∈ keys /\ hinted chain be = true) as [Hkin Hkh].
  { assert (keeperKey ∈ filter (fun k => hinted_key chain m k = true) keys) as Hf by (rewrite Eh; set_solver).
    apply list_elem_of_filter in Hf as [Hf ?]. unfold hinted_key in Hf. by rewrite Ek in Hf. }
  rewrite pick_keeper_hinted; [|done|].
  2:{ intros k' be' Hk' Hne Hm. destruct (hinted chain be') eqn:Hh; [|done]. exfalso. apply Hne, Honly; [done|].
      unfold hinted_key. by rewrite Hm. }
  rewrite Hkh. cbn [negb].
  assert (forall k, k ∈ p :: ps -> k ∈ keys /\ exists be0, m !! k = Some be0 /\ hinted chain be0 = false) as Hps.
  { intros k Hk. rewrite <- Ep in Hk. apply list_elem_of_filter in Hk as [Hk Hin]. split; [done|].
    unfold pathless_key in Hk. destruct (m !! k) as [b|]; [|done]. exists b. by apply negb_true_iff in Hk. }
  assert (keeperKey ∉ p :: ps) as Hnk.
  { intros Hk. destruct (Hps _ Hk) as (_ & b & Hb & Hh). rewrite Ek in Hb. simplify_eq. congruence. }
  pose proof (absorb_spec keeperKey (p :: ps) m be) as Ha.
  destruct (foldl (absorb chain keeperKey) (be, m) (p :: ps)) as [keeper m'].
  destruct Ha as (Hs & Hin & Hout); [|done|].
  { intros k b Hk Hm. destruct (Hps k Hk) as (_ & b' & Hb' & ?). rewrite Hm in Hb'. by simplify_eq. }
  split.
  - intros k b Hb. destruct (decide (k = keeperKey)) as [->|Hne].
    { left. exists keeper. rewrite lookup_insert_eq. split; [done|]. rewrite Ek in Hb. by simplify_eq. }
    destruct (decide (k ∈ p :: ps)) as [Hk|Hk].
    + right. destruct (Hps k Hk) as (Hkk & b' & Hb' & Hh). rewrite Hb in Hb'. simplify_eq. split; [done|].
      exists keeperKey, keeper. rewrite lookup_insert_eq. split; [done|]. destruct Hs as (Hsf & Hsh & _).
      split; [congruence|]. rewrite (same_fields_lineage chain be keeper Hsf), (Hl keeperKey be) by done.
      symmetry. by apply (Hl k b').
    + left. exists b. rewrite lookup_insert_ne, Hout by done. split; [done|apply same_path_refl].
  - intros k b. destruct (decide (k = keeperKey)) as [->|Hne].
    { rewrite lookup_insert_eq. intros [= <-]. by exists be. }
    rewrite lookup_insert_ne by done. destruct (decide (k ∈ p :: ps)) as [Hk|Hk]; [by rewrite Hin|].
    rewrite Hout by done. intros Hb. exists b. split; [done|apply same_path_refl].
Qed.

(** A group lists keys of one lineage, each once. *)
Lemma groups_lineage m L keys : lineage_groups chain m !! L = Some keys ->
  NoDup keys /\ forall k, k ∈ keys -> exists be, m !! k = Some be /\ lineage chain be = L.
Proof.
  assert (forall k : string, m !! k = (list_to_map (sorted_entries m) : gmap string BalanceEventInfo) !! k) as Hm
    by (intros; by rewrite list_to_map_sorted_entries).
  unfold lineage_groups. setoid_rewrite Hm. clear Hm.
  pose proof (sorted_keys_strict m) as Hs. apply str_sorted_NoDup in Hs. unfold sorted_keys in Hs.
  revert Hs L keys. induction (sorted_entries m) as [|[k be] l IH] using rev_ind; intros Hnd L keys; [done|].
  rewrite fmap_app in Hnd. apply NoDup_app in Hnd as (Hnd & Hdis & _). specialize (IH Hnd).
  rewrite foldl_app. simpl. rewrite lineage_nonempty. intros Hl.
  assert (forall x, x ∉ l.*1 -> (list_to_map (l ++ [(k, be)]) : gmap string _) !! x = (list_to_map [(k, be)] : gmap string _) !! x) as Hnew.
  { intros x Hx. rewrite list_to_map_app, lookup_union_r; [done|]. by apply not_elem_of_list_to_map_1. }
  assert (k ∉ l.*1) as Hk by (intros Hin; apply (Hdis k Hin); set_solver).
  assert (forall x b, (list_to_map l : gmap string _) !! x = Some b ->
    (list_to_map (l ++ [(k, be)]) : gmap string BalanceEventInfo) !! x = Some b) as Hold.
  { intros x b Hx. rewrite list_to_map_app. by apply lookup_union_Some_l. }
  assert (forall k', k' ∈ keys -> k' = k \/ k' ∈ l.*1) as Hmem.
  { intros k' Hk'. destruct (decide (L = lineage chain be)) as [->|Hne].
    - rewrite lookup_insert_eq in Hl. injection Hl as <-. apply elem_of_app in Hk' as [Hk'|Hk'%list_elem_of_singleton]; [|by left].
      right. destruct (foldl _ _ l !! _) as [g|] eqn:E; [|by apply elem_of_nil in Hk'].
      destruct (IH _ _ E) as [_ Hg]. destruct (Hg k' Hk') as (b & Hb & _).
      apply elem_of_list_to_map_2 in Hb. apply list_elem_of_fmap. by exists (k', b).
    - rewrite lookup_insert_ne in Hl by done. right. destruct (IH _ _ Hl) as [_ Hg].
      destruct (Hg k' Hk') as (b & Hb & _). apply elem_of_list_to_map_2 in Hb. apply list_elem_of_fmap. by exists (k', b). }
  destruct (decide (L = lineage chain be)) as [->|Hne].
  - rewrite lookup_insert_eq in Hl. injection Hl as <-.
    destruct (foldl _ _ l !! _) as [g|] eqn:E; simpl in *.
    + destruct (IH _ _ E) as [Hndg Hg]. split.
      * apply NoDup_app. split; [done|]. split; [|apply NoDup_singleton]. intros x Hx ->%list_elem_of_singleton.
        destruct (Hg k Hx) as (b & Hb & _). apply elem_of_list_to_map_2 in Hb. apply Hk, list_elem_of_fmap. by exists (k, b).
      * intros k' [Hk'|Hk'%list_elem_of_singleton]%elem_of_app.
        -- destruct (Hg k' Hk') as (b & Hb & Hlb). exists b. split; [by apply Hold|done].
        -- subst k'. exists be. rewrite Hnew by done. simpl. by rewrite lookup_insert_eq.
    + split; [apply NoDup_singleton|]. intros k' Hk'%list_elem_of_singleton. subst k'. exists be.
      rewrite Hnew by done. simpl. by rewrite lookup_insert_eq.
  - rewrite lookup_insert_ne in Hl by done. destruct (IH _ _ Hl) as [Hndg Hg]. split; [done|].
    intros k' Hk'. destruct (Hg k' Hk') as (b & Hb & Hlb). exists b. split; [by apply Hold|done].
Qed.

Lemma aliases_merges m : merges m (reconcileDecodedCoverageLineageAliases chain m).
Proof.
  unfold reconcileDecodedCoverageLineageAliases. destruct (size m <? 2)%nat; [apply merges_refl|].
  assert (Forall (fun keys => NoDup keys /\ exists L, forall k, k ∈ keys -> exists be, m !! k = Some be /\ lineage chain be = L)
    (sort_strings <$> sorted_values (lineage_groups chain m))) as Hg.
  { apply Forall_forall. intros keys (g & -> & Hgin)%list_elem_of_fmap.
    apply sorted_values_elem in Hgin as [L HL]. destruct (groups_lineage m L g HL) as [Hnd Hall].
    unfold sort_strings. split; [by rewrite stable_sort_perm|]. exists L. intros k Hk. rewrite stable_sort_perm in Hk. auto. }
  assert (forall m1, merges m m1 ->
    merges m (foldl (reconcile_group chain) m1 (sort_strings <$> sorted_values (lineage_groups chain m)))) as Hfold.
  { induction Hg as [|keys groups [Hnd [L HL]] _ IH]; intros m1 Hm1; simpl; [done|].
    apply IH. eapply merges_trans; [exact Hm1|]. apply (group_merges m1 keys L); [done|].
    intros k be1 Hk H1. destruct (proj2 Hm1 k be1 H1) as (be & Hb & (Hsf & _)).
    destruct (HL k Hk) as (be0 & Hb0 & Hl0). rewrite Hb in Hb0. simplify_eq.
    by apply same_fields_lineage. }
  apply Hfold, merges_refl.
Qed.
End Aliases.

(** ** Two decodes, and any number of them *)

Lemma merged_events_elem chain p s o : Some o ∈ mergeDecodedBalanceEvents chain p s <->
  exists k, reconcileDecodedCoverageLineageAliases chain (foldl (add_event chain) ∅ (p ++ s)) !! k = Some o.
Proof.
  unfold mergeDecodedBalanceEvents. rewrite list_elem_of_fmap. setoid_rewrite sorted_values_elem.
  split; [by intros (x & [= ->] & k & Hk); exists k|intros [k Hk]; exists o; split; [done|by exists k]].
Qed.

(** Also: merging two decodes loses nothing.  An event with a path is there afterwards under
    its own key; every event has, among those of its key, one that is there with at least
    its metadata, or that had no path and went into an event of its lineage that has one;
    and every event of the result is one of the two decodes, with the same path. *)
Theorem merge_keeps_events chain (primary secondary : list (option BalanceEventInfo)) :
  pathed_chain chain ->
  let out := mergeDecodedBalanceEvents chain primary secondary in
  (forall e, Some e ∈ primary ++ secondary -> hinted chain e = true ->
     exists o, Some o ∈ out /\ coverage_key chain o = coverage_key chain e /\ hinted chain o = true) /\
  (forall e, Some e ∈ primary ++ secondary ->
     exists e1 o, Some e1 ∈ primary ++ secondary /\ coverage_key chain e1 = coverage_key chain e /\ Some o ∈ out /\
       (same_path chain e1 o \/
        (hinted chain e1 = false /\ hinted chain o = true /\ lineage chain o = lineage chain e1))) /\
  (forall o, Some o ∈ out -> exists e, Some e ∈ primary ++ secondary /\ same_path chain e o).
Proof.
  intros Hc out. set (byKey := foldl (add_event chain) ∅ (primary ++ secondary)).
  pose proof (aliases_merges chain Hc byKey) as [Hkeep Hfrom].
  assert (forall e, Some e ∈ primary ++ secondary -> exists x, byKey !! coverage_key chain e = Some x /\
    coverage_key chain x = coverage_key chain e /\ Some x ∈ primary ++ secondary /\
    (hinted chain e = true -> hinted chain x = true)) as Hx.
  { intros e He. destruct (byKey_complete chain _ e He) as [x Ex]. exists x. split; [done|].
    destruct (byKey_spec chain _ _ _ Ex) as (Hk & Hin & Hh). split; [done|]. split; [done|]. by apply Hh. }
  split; [|split].
  - intros e He Hh. destruct (Hx e He) as (x & Ex & Hk & _ & Hhx).
    destruct (Hkeep _ _ Ex) as [(o & Ho & Hs)|[Hno _]]; [|by rewrite Hhx in Hno].
    exists o. split; [apply merged_events_elem; by eexists|]. rewrite (same_path_key chain x o Hs).
    split; [done|]. destruct Hs as (_ & -> & _). auto.
  - intros e He. destruct (Hx e He) as (x & Ex & Hk & Hin & _).
    destruct (Hkeep _ _ Ex) as [(o & Ho & Hs)|(Hno & k' & o & Ho & Hho & Hl)]; exists x, o.
    + do 2 (split; [done|]). split; [apply merged_events_elem; by eexists|by left].
    + do 2 (split; [done|]). split; [apply merged_events_elem; by eexists|by right].
  - intros o Ho. apply merged_events_elem in Ho as [k Ho]. destruct (Hfrom _ _ Ho) as (e & He & Hs).
    exists e. split; [|done]. by apply byKey_spec in He as (_ & ? & _).
Qed.

(** Every event with a path of the first result has its key in the second. *)
Definition covered (chain : Chain) (r out : TransactionResult) : Prop :=
  forall e, Some e ∈ tr_BalanceEvents r -> hinted chain e = true ->
    exists o, Some o ∈ tr_BalanceEvents out /\ coverage_key chain o = coverage_key chain e /\ hinted chain o = true.

Lemma covered_refl chain r : covered chain r r.
Proof. intros e He Hh. by exists e. Qed.

Lemma covered_trans chain r1 r2 r3 : covered chain r1 r2 -> covered chain r2 r3 -> covered chain r1 r3.
Proof.
  intros H1 H2 e He Hh. destruct (H1 e He Hh) as (o & Ho & Hk & Hho). destruct (H2 o Ho Hho) as (o' & ? & Hk' & ?).
  exists o'. split; [done|]. split; [congruence|done].
Qed.

Lemma reconcile_covers chain existing incoming : pathed_chain chain ->
  let out := reconcileDecodedResultCoverage chain existing incoming in
  covered chain incoming out /\ forall f, existing = Some f -> covered chain f out.
Proof.
  intros Hc out. unfold out, reconcileDecodedResultCoverage. destruct existing as [f|].
  2:{ split; [apply covered_refl|done]. }
  destruct (shouldReplaceDecodedResult chain f incoming); cbn.
  - destruct (merge_keeps_events chain (tr_BalanceEvents incoming) (tr_BalanceEvents f) Hc) as [Hm _].
    split; [|intros ? [= ->]]; intros e He; apply Hm; set_solver.
  - destruct (merge_keeps_events chain (tr_BalanceEvents f) (tr_BalanceEvents incoming) Hc) as [Hm _].
    split; [|intros ? [= ->]]; intros e He; apply Hm; set_solver.
Qed.

Section FloorRun.
Context {C : Type} `{CacheLaws C string TransactionResult}.
Context (chain : Chain) (network : Network) (address signature : string).

Abbreviation floor_key := (coverageFloorKey chain network address signature).

(** The decodes of one signature, with their times: what goes on, and the cache. *)
Fixpoint floor_run (c : C) (steps : list (Z * TransactionResult)) : list TransactionResult * C :=
  match steps with
  | [] => ([], c)
  | (now, r) :: steps' =>
      let '(out, c) := reconcileCoverageRegressionFlap now c chain network address signature r in
      let '(outs, c) := floor_run c steps' in (out :: outs, c)
  end.

(** At every step the cache still holds what the step before has put, [last]. *)
Fixpoint floor_held (c : C) (last : option TransactionResult) (steps : list (Z * TransactionResult)) : Prop :=
  match steps with
  | [] => True
  | (now, r) :: steps' =>
      holds now c floor_key = last /\
      let '(out, c) := reconcileCoverageRegressionFlap now c chain network address signature r in
      floor_held c (Some out) steps'
  end.

Lemma floor_run_covers (Hc : pathed_chain chain) (Hs : str_empty signature = false) steps :
  forall c last, cache_ok c -> floor_held c last steps ->
  Forall (fun out => forall f, last = Some f -> covered chain f out) (floor_run c steps).1 /\
  forall i j now r out, (i <= j)%nat -> steps !! i = Some (now, r) -> (floor_run c steps).1 !! j = Some out ->
    covered chain r out.
Proof.
  induction steps as [|[now r] steps IH]; intros c last Hok Hheld; [by split|].
  cbn [floor_run floor_held] in *. unfold reconcileCoverageRegressionFlap in *. rewrite Hs in *.
  destruct Hheld as [Hl Hheld]. pose proof (get_holds now c floor_key Hok) as Hg.
  pose proof (get_ok now c floor_key Hok) as Hok1. rewrite Hl in Hg.
  destruct (Get now c floor_key) as [existing c1]. simpl in Hg, Hok1. subst existing. rewrite clone_result in *.
  set (out0 := reconcileDecodedResultCoverage chain last r) in *.
  destruct (reconcile_covers chain last r Hc) as [Hr Hf]. fold out0 in Hr, Hf.
  specialize (IH _ (Some out0) (put_ok now c1 floor_key out0 Hok1) Hheld).
  destruct (floor_run _ steps) as [outs c2]. cbn [fst] in *. destruct IH as [Hall Hrun]. split.
  - constructor; [done|]. eapply Forall_impl; [exact Hall|]. intros out Hout f ->.
    eapply covered_trans; [by apply Hf|by apply Hout].
  - intros [|i] [|j] now' r' out Hij Hi Hj; simpl in *; simplify_eq; [done| |lia|].
    + eapply covered_trans; [exact Hr|]. rewrite Forall_lookup in Hall. by eapply Hall.
    + eapply Hrun; [|exact Hi|exact Hj]. lia.
Qed.
End FloorRun.

(** C32: the coverage floor, on the EVM chains and Solana.  As long as the cache keeps the floor
    of a signature, for every event with a path that a decode of it has shown, the result of
    that and of every later decode has an event with the same coverage key; its amount may be
    another. *)
Theorem coverage_floor_monotone {C : Type} `{CacheLaws C string TransactionResult}
    chain network address signature (c : C) (steps : list (Z * TransactionResult)) :
  pathed_chain chain -> str_empty signature = false -> cache_ok c ->
  floor_held chain network address signature c None steps ->
  forall i j now r out, (i <= j)%nat -> steps !! i = Some (now, r) ->
    (floor_run chain network address signature c steps).1 !! j = Some out ->
    forall e, Some e ∈ tr_BalanceEvents r -> hinted chain e = true ->
      exists o, Some o ∈ tr_BalanceEvents out /\ coverage_key chain o = coverage_key chain e.
Proof.
  intros Hc Hs Hok Hheld i j now r out Hij Hi Hj e He Hh.
  destruct (floor_run_covers chain network address signature Hc Hs steps c None Hok Hheld) as [_ Hrun].
  destruct (Hrun i j now r out Hij Hi Hj e He Hh) as (o & ? & ? & _). by exists o.
Qed.

(** ** A sample: the second decode has forgotten the transfer *)

Definition sample_hinted : BalanceEventInfo :=
  set_metadata (<["event_path" := "outer:1|inner:0"]> ∅) (sample_change 0 (-1) "-7").

Definition sample_result (events : list (option BalanceEventInfo)) : TransactionResult :=
  {| tr_TxHash := "sig"; tr_BlockCursor := 9; tr_BlockTime := 0; tr_FeeAmount := "5000"; tr_FeePayer := "alice";
     tr_Status := "SUCCESS"; tr_Error := None; tr_BalanceEvents := events |}.

Definition sample_steps : list (Z * TransactionResult) :=
  [(1, sample_result [Some sample_hinted]); (2, sample_result [Some (sample_change 3 0 "4")])].

Definition sample_floor : ShardedLRU string TransactionResult := NewShardedLRUWithCount 64 (10 ^ 9) (fun k => k) 4.

Lemma coverage_floor_monotone_witness :
  floor_held "solana" "mainnet" "alice" "sig" sample_floor None sample_steps /\
  forall out, (floor_run "solana" "mainnet" "alice" "sig" sample_floor sample_steps).1 !! 1%nat = Some out ->
  exists o, Some o ∈ tr_BalanceEvents out /\ coverage_key "solana" o = coverage_key "solana" sample_hinted.
Proof.
  assert (floor_held "solana" "mainnet" "alice" "sig" sample_floor None sample_steps) as Hh by by vm_compute.
  split; [exact Hh|]. intros out Hout.
  refine (coverage_floor_monotone "solana" "mainnet" "alice" "sig" sample_floor sample_steps
    (or_intror eq_refl) eq_refl _ Hh 0%nat 1%nat 1 (sample_result [Some sample_hinted]) out _ eq_refl Hout
    sample_hinted _ _).
  - apply NewShardedLRUWithCount_ok.
  - lia.
  - by left.
  - by vm_compute.
Defined.

Lemma merge_keeps_events_witness :
  pathed_chain "solana" /\
  exists o, Some o ∈ mergeDecodedBalanceEvents "solana" [Some sample_hinted] [Some (sample_change 0 (-1) "-7")] /\
    coverage_key "solana" o = coverage_key "solana" sample_hinted /\ hinted "solana" o = true.
Proof.
  split; [by right|].
  refine (proj1 (merge_keeps_events "solana" [Some sample_hinted] [Some (sample_change 0 (-1) "-7")] (or_intror eq_refl))
    sample_hinted _ _); [by left|by vm_compute].
Defined.
