(* ===== verification/Normalizer.v ===== *)
(** * Normalizer: [pipeline/normalizer/normalizer.go]

    A raw batch is decoded by the sidecar and becomes one normalized batch, or fails as a
    whole; a failed batch is repeated while its error is transient.  What the sidecar
    answers, the clock, the channel and the context are the environment of an attempt. *)

From Stdlib Require Import ZArith String Lia.
From stdpp Require Import base option list strings gmap sorting.
From S2P Require Import Prelude Ordering Retry Domain Identity Cache IngesterRules Breaker NormalizerRules NormalizerEvents NormalizerDecode.

Open Scope Z_scope.

(** ** Batches *)

(** [event.RawBatch]; the time of creation is left out. *)
Record RawBatch := {
  rb_Chain : Chain; rb_Network : Network; rb_Address : string; rb_WalletID : option string; rb_OrgID : option string;
  rb_PreviousCursorValue : option string; rb_PreviousCursorSequence : Z;
  rb_RawTransactions : list string; rb_Signatures : list SignatureInfo;
  rb_NewCursorValue : option string; rb_NewCursorSequence : Z; rb_BlockScanMode : bool;
  rb_WatchedAddresses : list string
}.

Definition block_scan_addresses (batch : RawBatch) : bool :=
  rb_BlockScanMode batch && negb (length (rb_WatchedAddresses batch) =? 0)%nat.

Definition resolveWatchedAddressSet (batch : RawBatch) : gset string :=
  if block_scan_addresses batch then
    list_to_set (filter (fun a => str_empty a = false)
      ((fun addr => let canonical := canonicalizeAddressIdentity (rb_Chain batch) addr in
                    if str_empty canonical then addr else canonical) <$> rb_WatchedAddresses batch))
  else if str_empty (rb_Address batch) then ∅
  else {[ rb_Address batch ]}.

(** The batch without transactions that starts from this cursor. *)
Definition batch_header (batch : RawBatch) (cursor : option string) (cursorSequence : Z) : NormalizedBatch :=
  {| nb_Chain := rb_Chain batch; nb_Network := rb_Network batch; nb_Address := rb_Address batch;
     nb_WalletID := rb_WalletID batch; nb_OrgID := rb_OrgID batch;
     nb_PreviousCursorValue := CanonicalizeCursorValue (rb_Chain batch) (rb_PreviousCursorValue batch);
     nb_PreviousCursorSequence := rb_PreviousCursorSequence batch; nb_Transactions := [];
     nb_NewCursorValue := cursor; nb_NewCursorSequence := cursorSequence;
     nb_BlockScanMode := rb_BlockScanMode batch; nb_WatchedAddresses := rb_WatchedAddresses batch |}.

(** The previous cursor, or the new one of the raw batch when there is none. *)
Definition start_cursor (batch : RawBatch) : option string * Z :=
  match CanonicalizeCursorValue (rb_Chain batch) (rb_PreviousCursorValue batch) with
  | Some c => (Some c, rb_PreviousCursorSequence batch)
  | None => (CanonicalizeCursorValue (rb_Chain batch) (rb_NewCursorValue batch), rb_NewCursorSequence batch)
  end.

(** ** The environment of an attempt *)

Record DecodeRequest := { rq_Transactions : list (string * string); rq_WatchedAddresses : list string }.
Record DecodeResponse := { rp_Results : list (option TransactionResult); rp_Errors : list (option DecodeError) }.

(** [ne_ctxErr]: the error of the context after a failed attempt; [ne_rand]: the random
    source of the jitter; [ne_sleep]: how the wait before the next attempt ends. *)
Record norm_env := {
  ne_now : Z; ne_decode : DecodeRequest -> result go_error DecodeResponse; ne_send : result go_error unit;
  ne_ctxErr : option go_error; ne_rand : Z -> Z; ne_sleep : Z -> result go_error unit
}.

Definition decode_request (batch : RawBatch) : DecodeRequest :=
  {| rq_Transactions := zip_with (fun (sig : SignatureInfo) raw => (sg_Hash sig, raw))
                          (rb_Signatures batch) (rb_RawTransactions batch);
     rq_WatchedAddresses := if block_scan_addresses batch then rb_WatchedAddresses batch else [rb_Address batch] |}.

(** ** The results by signature *)

Record result_index := {
  ri_expected : gmap string TransactionResult; ri_unexpected : gmap string TransactionResult;
  ri_unexpectedKeys : gset string
}.

Definition index_result (chain : Chain) (expectedSignatures : gset string) (ix : result_index)
    (r : option TransactionResult) : result_index :=
  match r with
  | None => ix
  | Some r =>
      let key := CanonicalSignatureIdentity chain (tr_TxHash r) in
      if str_empty key
      then {| ri_expected := ri_expected ix; ri_unexpected := ri_unexpected ix;
              ri_unexpectedKeys := {["<empty>"%string]} ∪ ri_unexpectedKeys ix |}
      else if decide (key ∈ expectedSignatures)
      then {| ri_expected := <[key := reconcileDecodedResultCoverage chain (ri_expected ix !! key) r]> (ri_expected ix);
              ri_unexpected := ri_unexpected ix; ri_unexpectedKeys := ri_unexpectedKeys ix |}
      else {| ri_expected := ri_expected ix;
              ri_unexpected :=
                <[key := reconcileDecodedResultCoverage chain (ri_unexpected ix !! key) r]> (ri_unexpected ix);
              ri_unexpectedKeys := {[key]} ∪ ri_unexpectedKeys ix |}
  end.

Definition index_results (chain : Chain) (signatures : list SignatureInfo) (results : list (option TransactionResult))
    : result_index :=
  let expected : gset string :=
    list_to_set (filter (fun k => str_empty k = false)
      ((fun sig => CanonicalSignatureIdentity chain (sg_Hash sig)) <$> signatures)) in
  foldl (index_result chain expected) {| ri_expected := ∅; ri_unexpected := ∅; ri_unexpectedKeys := ∅ |} results.

(** The only result of the map, when there is one. *)
Definition singleSignatureFallbackResult (results : gmap string TransactionResult) : option TransactionResult :=
  match map_to_list results with [(_, r)] => Some r | _ => None end.

Definition sortedSignatureKeys (values : gset string) : list string := sort_strings (elements values).

Definition missing_reason (unexpectedSignatures : list string) : string :=
  match unexpectedSignatures with
  | [] => "missing decode result"
  | l => "missing decode result (unexpected=" +:+ String.concat "|" l +:+ ")"
  end.

Section Normalizer.
Context {C : Type} `{Cache C string TransactionResult}.

(** What the normalizer keeps: the breaker, when [Run] has made it, and the floor. *)
Record nstate := { ns_breaker : option Breaker; ns_floor : C }.

Definition set_breaker (b : Breaker) (s : nstate) : nstate := {| ns_breaker := Some b; ns_floor := ns_floor s |}.

(** ** The loop over the signatures *)

Record progress := {
  pg_results : gmap string TransactionResult; pg_floor : C; pg_transactions : list NormalizedTransaction;
  pg_cursor : option string; pg_cursorSequence : Z; pg_failures : list (string * string)
}.

Definition add_failure (signature reason : string) (p : progress) : progress :=
  {| pg_results := pg_results p; pg_floor := pg_floor p; pg_transactions := pg_transactions p;
     pg_cursor := pg_cursor p; pg_cursorSequence := pg_cursorSequence p;
     pg_failures := pg_failures p ++ [(signature, reason)] |}.

(** The result of a signature: its own, or for a batch of one signature the only
    unexpected one. *)
Definition result_of (single : bool) (unexpected : gmap string TransactionResult) (key : string) (p : progress)
    : option TransactionResult :=
  match pg_results p !! key with
  | Some r => Some r
  | None => if single then singleSignatureFallbackResult unexpected else None
  end.

Definition process_result (now : Z) (batch : RawBatch) (watched : gset string) (sig : SignatureInfo) (key : string)
    (r : TransactionResult) (p : progress) : progress :=
  let '(r, floor) :=
    reconcileCoverageRegressionFlap now (pg_floor p) (rb_Chain batch) (rb_Network batch) (rb_Address batch) key r in
  let advance := shouldAdvanceCanonicalCursor (pg_cursorSequence p) (pg_cursor p) (sg_Sequence sig) key in
  {| pg_results := delete key (pg_results p); pg_floor := floor;
     pg_transactions := pg_transactions p ++
       [normalizedTxFromResult (rb_Chain batch) (rb_Network batch) r (sg_Time sig) watched];
     pg_cursor := if advance then Some key else pg_cursor p;
     pg_cursorSequence := if advance then sg_Sequence sig else pg_cursorSequence p;
     pg_failures := pg_failures p |}.

Definition process_signature (now : Z) (batch : RawBatch) (errorBySignature : gmap string string) (single : bool)
    (ix : result_index) (p : progress) (sig : SignatureInfo) : progress :=
  let signature := trim_space (sg_Hash sig) in
  let key := CanonicalSignatureIdentity (rb_Chain batch) signature in
  if str_empty key then add_failure "<empty>" "empty signature" p
  else match errorBySignature !! key with
       | Some errMsg => add_failure signature (if str_empty errMsg then "decode failed" else errMsg) p
       | None =>
           match result_of single (ri_unexpected ix) key p with
           | None => add_failure signature (missing_reason (sortedSignatureKeys (ri_unexpectedKeys ix))) p
           | Some r => process_result now batch (resolveWatchedAddressSet batch) sig key r p
           end
       end.

Definition process_signatures (now : Z) (batch : RawBatch) (errorBySignature : gmap string string)
    (signatures : list SignatureInfo) (ix : result_index) (floor : C) : progress :=
  let '(cursor, cursorSequence) := start_cursor batch in
  foldl (process_signature now batch errorBySignature (length signatures =? 1)%nat ix)
    {| pg_results := ri_expected ix; pg_floor := floor; pg_transactions := []; pg_cursor := cursor;
       pg_cursorSequence := cursorSequence; pg_failures := [] |} signatures.

Definition finished_batch (batch : RawBatch) (p : progress) : NormalizedBatch :=
  let h := batch_header batch (pg_cursor p) (pg_cursorSequence p) in
  {| nb_Chain := nb_Chain h; nb_Network := nb_Network h; nb_Address := nb_Address h; nb_WalletID := nb_WalletID h;
     nb_OrgID := nb_OrgID h; nb_PreviousCursorValue := nb_PreviousCursorValue h;
     nb_PreviousCursorSequence := nb_PreviousCursorSequence h; nb_Transactions := pg_transactions p;
     nb_NewCursorValue := nb_NewCursorValue h; nb_NewCursorSequence := nb_NewCursorSequence h;
     nb_BlockScanMode := nb_BlockScanMode h; nb_WatchedAddresses := nb_WatchedAddresses h |}.

(** ** A batch *)

Definition decode_collapse (detail : string) : go_error :=
  EMsg ("decode collapse stage=normalizer.decode_batch " +:+ detail).

Definition length_mismatch (batch : RawBatch) : go_error :=
  EMsg ("raw/signature length mismatch: raw=" +:+ show_Z (Z.of_nat (length (rb_RawTransactions batch))) +:+
        " signatures=" +:+ show_Z (Z.of_nat (length (rb_Signatures batch)))).

Definition as_transient (err : go_error) : go_error := default err (Transient (Some err)).

Definition transient_decode (transientBySignature : gmap string string) : go_error :=
  as_transient (EMsg ("decode transient stage=normalizer.decode_batch signatures=" +:+
    show_Z (Z.of_nat (size transientBySignature)) +:+ " diagnostics=" +:+ formatDecodeDiagnostics transientBySignature)).

(** The call of the sidecar behind the breaker. *)
Definition call_sidecar (e : norm_env) (batch : RawBatch) (s : nstate) : result go_error DecodeResponse * nstate :=
  let '(rejected, s) :=
    match ns_breaker s with
    | None => (None, s)
    | Some b => let '(err, b) := Allow b (ne_now e) in (err, set_breaker b s)
    end in
  match rejected with
  | Some cbErr => (Err (as_transient (EWrap "sidecar circuit breaker open" cbErr)), s)
  | None =>
      match ne_decode e (decode_request batch) with
      | Err err =>
          (Err (EWrap "sidecar decode" err),
           match ns_breaker s with
           | Some b => if IsTransient (Classify (Some err)) then set_breaker (RecordFailure b (ne_now e)) s else s
           | None => s
           end)
      | Ok resp =>
          (Ok resp, match ns_breaker s with Some b => set_breaker (RecordSuccess b) s | None => s end)
      end
  end.

(** What became of the decoded batch: [Ok] is what was sent. *)
Definition send_batch (e : norm_env) (batch : NormalizedBatch) : result go_error NormalizedBatch :=
  match ne_send e with Ok _ => Ok batch | Err err => Err err end.

Definition processBatch (e : norm_env) (batch : RawBatch) (s : nstate) : result go_error NormalizedBatch * nstate :=
  if (length (rb_RawTransactions batch) =? 0)%nat && (length (rb_Signatures batch) =? 0)%nat
  then (send_batch e (batch_header batch (CanonicalizeCursorValue (rb_Chain batch) (rb_NewCursorValue batch))
                        (rb_NewCursorSequence batch)), s)
  else if negb (length (rb_RawTransactions batch) =? length (rb_Signatures batch))%nat
  then (Err (length_mismatch batch), s)
  else
    let canonicalSignatures := canonicalizeBatchSignatures (rb_Chain batch) (rb_Signatures batch) in
    if (length canonicalSignatures =? 0)%nat
    then (Err (decode_collapse "no canonical signatures in batch"), s)
    else
      match call_sidecar e batch s with
      | (Err err, s) => (Err err, s)
      | (Ok resp, s) =>
          let '(terminalDecodeErrors, transientDecodeErrors) :=
            classifyDecodeErrors (rb_Chain batch) (rp_Errors resp) in
          if decide (transientDecodeErrors = ∅) then
            let ix := index_results (rb_Chain batch) canonicalSignatures (rp_Results resp) in
            let p := process_signatures (ne_now e) batch terminalDecodeErrors canonicalSignatures ix (ns_floor s) in
            let s := {| ns_breaker := ns_breaker s; ns_floor := pg_floor p |} in
            if (length (pg_transactions p) =? 0)%nat
            then (Err (decode_collapse ("no decodable transactions in batch (diagnostics=" +:+
                    String.concat "," ((fun f => f.1 +:+ "=" +:+ f.2) <$> pg_failures p) +:+ ")")), s)
            else (send_batch e (finished_batch batch p), s)
          else (Err (transient_decode transientDecodeErrors), s)
      end.

(** ** Attempts *)

Definition effectiveRetryMaxAttempts (retryMaxAttempts : Z) : Z := IngesterRules.effectiveRetryMaxAttempts retryMaxAttempts.

Definition retryDelay (rand : Z -> Z) (retryDelayStart retryDelayMax attempt : Z) : option Z :=
  IngesterRules.retryDelay rand retryDelayStart retryDelayMax attempt.

Record retry_config := { rc_maxAttempts : Z; rc_delayStart : Z; rc_delayMax : Z }.

Definition default_retry : retry_config :=
  {| rc_maxAttempts := 3; rc_delayStart := 100 * 10 ^ 6; rc_delayMax := 10 ^ 9 |}.

(** [attempts] tries are left; [attempt] is the number of the next one, [es] gives the
    environment of an attempt. *)
Fixpoint retry_attempts (cfg : retry_config) (es : Z -> norm_env) (attempts : nat) (attempt maxAttempts : Z)
    (batch : RawBatch) (s : nstate) : result go_error NormalizedBatch * nstate :=
  match attempts with
  | O => (Err (EMsg "unreachable"), s)
  | S attempts' =>
      let e := es attempt in
      match processBatch e batch s with
      | (Ok sent, s) => (Ok sent, s)
      | (Err err, s) =>
          match ne_ctxErr e with
          | Some ctxErr => (Err ctxErr, s)
          | None =>
              let lastDecision := Classify (Some err) in
              if negb (IsTransient lastDecision)
              then (Err (EWrap ("terminal_failure stage=normalizer.decode_batch attempt=" +:+ show_Z attempt +:+
                                " reason=" +:+ d_Reason lastDecision) err), s)
              else match attempts' with
                   | O => (Err (EWrap ("transient_recovery_exhausted stage=normalizer.decode_batch attempts=" +:+
                                       show_Z maxAttempts +:+ " reason=" +:+ d_Reason lastDecision) err), s)
                   | S _ =>
                       match retryDelay (ne_rand e) (rc_delayStart cfg) (rc_delayMax cfg) attempt with
                       | None => (Err (EMsg "normalizer worker panicked: invalid argument to Int64N"), s)
                       | Some delay =>
                           match ne_sleep e delay with
                           | Err err => (Err err, s)
                           | Ok _ => retry_attempts cfg es attempts' (attempt + 1) maxAttempts batch s
                           end
                       end
                   end
          end
      end
  end.

Definition processBatchWithRetry (cfg : retry_config) (es : Z -> norm_env) (batch : RawBatch) (s : nstate)
    : result go_error NormalizedBatch * nstate :=
  let maxAttempts := effectiveRetryMaxAttempts (rc_maxAttempts cfg) in
  retry_attempts cfg es (Z.to_nat maxAttempts) 1 maxAttempts batch s.

(** A worker: it takes batches until one fails.  What it sent, the error, the state. *)
Fixpoint worker (cfg : retry_config) (jobs : list (RawBatch * (Z -> norm_env))) (s : nstate)
    : list NormalizedBatch * option go_error * nstate :=
  match jobs with
  | [] => ([], None, s)
  | (batch, es) :: jobs' =>
      match processBatchWithRetry cfg es batch s with
      | (Err err, s) =>
          ([], Some (EWrap ("normalizer process batch failed: address=" +:+ rb_Address batch) err), s)
      | (Ok sent, s) => let '(l, r, s) := worker cfg jobs' s in (sent :: l, r, s)
      end
  end.

(** The breaker [Run] makes when there is none: thresholds and timeout have defaults. *)
Definition start_breaker (cfg : Config) (s : nstate) : nstate :=
  match ns_breaker s with
  | Some _ => s
  | None =>
      set_breaker (Breaker.New {|
        cfg_FailureThreshold := if cfg_FailureThreshold cfg <=? 0 then 5 else cfg_FailureThreshold cfg;
        cfg_SuccessThreshold := if cfg_SuccessThreshold cfg <=? 0 then 2 else cfg_SuccessThreshold cfg;
        cfg_OpenTimeout := if cfg_OpenTimeout cfg <=? 0 then 30 * 10 ^ 9 else cfg_OpenTimeout cfg |}) s
  end.
End Normalizer.
