(* ===== verification/NormalizerBatch.v ===== *)
(** * Normalizer: properties of a batch

    The canonical signatures of a batch, what becomes of each of them, and the cursor. *)

From Stdlib Require Import ZArith String Lia.
From stdpp Require Import base option list strings gmap sorting.
From S2P Require Import Prelude Ordering Retry Domain Identity Cache Breaker NormalizerRules NormalizerEvents NormalizerProofs NormalizerDecode CoverageProofs Normalizer.

Open Scope Z_scope.

(** ** Signatures *)

Definition canonical_signature (chain : Chain) (sig : SignatureInfo) : SignatureInfo :=
  {| sg_Hash := CanonicalSignatureIdentity chain (sg_Hash sig); sg_Sequence := sg_Sequence sig; sg_Time := sg_Time sig |}.

Definition has_identity (chain : Chain) (sig : SignatureInfo) : bool :=
  negb (str_empty (CanonicalSignatureIdentity chain (sg_Hash sig))).

Lemma add_signatures_merge chain sigs : forall m,
  foldl (add_signature chain) m sigs =
  foldl (keep_best sg_Hash shouldReplaceCanonicalSignature) m
    (canonical_signature chain <$> filter (fun s => has_identity chain s = true) sigs).
Proof.
  induction sigs as [|sig sigs IH]; intros m; simpl; [done|]. rewrite IH. unfold add_signature, has_identity.
  destruct (str_empty _) eqn:E.
  - rewrite filter_cons_False; [done|]. unfold has_identity. by rewrite E.
  - rewrite filter_cons_True; [|unfold has_identity; by rewrite E]. done.
Qed.

Definition newer_first : SignatureInfo -> SignatureInfo -> comparison :=
  lex (on sg_Sequence (opposite Z.compare)) (on sg_Hash String.compare).

#[export] Instance newer_first_total : TotalCompare newer_first.
Proof. unfold newer_first. apply _. Qed.

Lemma replace_signature x y : shouldReplaceCanonicalSignature x y = is_gt (newer_first x y).
Proof.
  unfold shouldReplaceCanonicalSignature, newer_first, lex, on, opposite.
  rewrite (Z.compare_antisym (sg_Sequence x) (sg_Sequence y)).
  destruct (Z.eqb_spec (sg_Sequence x) (sg_Sequence y)) as [->|Hne]; simpl.
  - rewrite Z.compare_refl. simpl. unfold str_ltb.
    rewrite (cmp_sym (cmp:=String.compare) (sg_Hash x) (sg_Hash y)). by destruct (String.compare _ _).
  - destruct (Z.compare_spec (sg_Sequence x) (sg_Sequence y)); simpl; [done|apply Z.ltb_lt; lia|apply Z.ltb_ge; lia].
Qed.

#[export] Instance signature_order_total : TotalCompare signature_order.
Proof. unfold signature_order. apply _. Qed.

(** Signatures merged by hash and sorted, whatever decides between two of one hash. *)
Lemma merged_signatures (replaces : SignatureInfo -> SignatureInfo -> bool) l :
  let out := stable_sort signature_order (canonical sg_Hash replaces l) in
  StronglySorted (cmp_lt signature_order) out /\ NoDup (sg_Hash <$> out) /\
  (forall x, x ∈ out -> x ∈ l) /\
  (forall x, x ∈ out <-> foldl (keep_best sg_Hash replaces) ∅ l !! sg_Hash x = Some x).
Proof.
  cbv zeta. assert (NoDup (sg_Hash <$> canonical sg_Hash replaces l)) as Hnd by apply str_sorted_NoDup, canonical_sorted.
  split; [|split; [by rewrite stable_sort_perm|split]].
  - apply sorted_strict; [apply _|apply stable_sort_sorted; apply _| |].
    + intros x y Hx Hy He. rewrite stable_sort_perm in Hx, Hy. unfold signature_order, lex, on in He.
      destruct (Z.compare _ _); [|done|done]. apply String.compare_eq_iff in He.
      apply list_elem_of_lookup in Hx as [i Hi], Hy as [j Hj].
      assert (i = j) as ->; [|congruence]. eapply (NoDup_lookup _ i j (sg_Hash x) Hnd).
      * by rewrite list_lookup_fmap, Hi.
      * by rewrite list_lookup_fmap, Hj, He.
    + rewrite stable_sort_perm. by apply NoDup_fmap_1 in Hnd.
  - intros x. rewrite stable_sort_perm. apply canonical_elem.
  - intros x. rewrite stable_sort_perm. unfold canonical. rewrite sorted_values_elem.
    split; [|by eexists]. intros [k Hk]. by pose proof (merged_spec _ _ _ _ _ Hk) as [-> _].
Qed.

(** What stands for the signatures of a batch. *)
Record batch_signatures (chain : Chain) (sigs out : list SignatureInfo) : Prop := {
  bs_sorted : StronglySorted (cmp_lt signature_order) out;
  bs_distinct : NoDup (sg_Hash <$> out);
  bs_sound : forall x, x ∈ out -> exists sig, sig ∈ sigs /\ x = canonical_signature chain sig /\ sg_Hash x <> EmptyString;
  bs_complete : forall sig, sig ∈ sigs -> CanonicalSignatureIdentity chain (sg_Hash sig) <> EmptyString ->
    exists x, x ∈ out /\ sg_Hash x = CanonicalSignatureIdentity chain (sg_Hash sig) /\ sg_Sequence sig <= sg_Sequence x
}.

(** Also: the signatures of a batch.  They are listed by sequence and hash, strictly, with
    distinct canonical hashes; each is one of the batch; and every signature of the batch
    with an identity is there, at the highest sequence it has in the batch. *)
Theorem signatures_canonical chain sigs : batch_signatures chain sigs (canonicalizeBatchSignatures chain sigs).
Proof.
  unfold canonicalizeBatchSignatures. rewrite add_signatures_merge.
  set (l := canonical_signature chain <$> _).
  change (sorted_values (foldl (keep_best sg_Hash shouldReplaceCanonicalSignature) ∅ l))
    with (canonical sg_Hash shouldReplaceCanonicalSignature l).
  destruct (merged_signatures shouldReplaceCanonicalSignature l) as (H1 & H2 & H3 & H4).
  split; [done|done| |].
  - intros x [sig [-> Hs]]%H3%list_elem_of_fmap.
    apply list_elem_of_filter in Hs as [Hid Hs]. exists sig. split; [done|]. split; [done|].
    unfold has_identity, str_empty in Hid. apply negb_true_iff, String.eqb_neq in Hid. done.
  - intros sig Hs Hid. apply str_empty_false in Hid. assert (has_identity chain sig = true) as Hok by (unfold has_identity; by rewrite Hid).
    assert (canonical_signature chain sig ∈ l) as Hl.
    { apply list_elem_of_fmap_2, list_elem_of_filter. done. }
    destruct (merged_complete sg_Hash shouldReplaceCanonicalSignature l _ Hl) as [x Hx]. exists x.
    pose proof (merged_spec _ _ _ _ _ Hx) as [Hk _]. split; [|split; [done|]].
    + apply H4. by rewrite Hk.
    + assert (newer_first x (canonical_signature chain sig) <> Gt) as Hle.
      { eapply (merged_least sg_Hash shouldReplaceCanonicalSignature newer_first (fun _ => True));
          [intros; apply replace_signature|by apply Forall_forall|exact Hx|exact Hl|done]. }
      unfold newer_first, lex, on, opposite in Hle. simpl in Hle.
      destruct (Z.compare_spec (sg_Sequence sig) (sg_Sequence x)); [lia|lia|done].
Qed.

Lemma signature_sound chain sigs x : x ∈ canonicalizeBatchSignatures chain sigs ->
  exists sig, sig ∈ sigs /\ sg_Sequence x = sg_Sequence sig.
Proof.
  unfold canonicalizeBatchSignatures. rewrite add_signatures_merge.
  intros (sig & -> & [_ Hs]%list_elem_of_filter)%(proj1 (proj2 (proj2 (merged_signatures _ _))))%list_elem_of_fmap.
  by exists sig.
Qed.

(** ** The results by signature *)

Definition signature_key (batch : RawBatch) (sig : SignatureInfo) : string :=
  CanonicalSignatureIdentity (rb_Chain batch) (trim_space (sg_Hash sig)).

(** The results the sidecar gave for a key, merged in their order. *)
Definition results_of (chain : Chain) (results : list (option TransactionResult)) (key : string) : list TransactionResult :=
  filter (fun r => CanonicalSignatureIdentity chain (tr_TxHash r) = key) (omap id results).

Definition decoded (chain : Chain) (results : list (option TransactionResult)) (key : string) : option TransactionResult :=
  foldl (fun acc r => Some (reconcileDecodedResultCoverage chain acc r)) None (results_of chain results key).

(** All results that have a key have this one. *)
Definition sole_key (chain : Chain) (results : list (option TransactionResult)) (key : string) : Prop :=
  forall r, Some r ∈ results -> str_empty (CanonicalSignatureIdentity chain (tr_TxHash r)) = false ->
    CanonicalSignatureIdentity chain (tr_TxHash r) = key.

(** The result of a signature: the results of its key, or for a batch of one signature those
    of the only key there is. *)
Definition decodes_to (batch : RawBatch) (sigs : list SignatureInfo) (results : list (option TransactionResult))
    (sig : SignatureInfo) (r : TransactionResult) : Prop :=
  decoded (rb_Chain batch) results (signature_key batch sig) = Some r \/
  (length sigs = 1%nat /\ exists other, other <> signature_key batch sig /\ str_empty other = false /\
     decoded (rb_Chain batch) results other = Some r /\ sole_key (rb_Chain batch) results other).

Lemma results_of_snoc chain results r key : results_of chain (results ++ [r]) key =
  results_of chain results key ++
  match r with Some r => if decide (CanonicalSignatureIdentity chain (tr_TxHash r) = key) then [r] else [] | None => [] end.
Proof.
  unfold results_of. rewrite omap_app, filter_app. f_equal. destruct r as [r|]; [|done].
  cbn [omap list_omap id]. by rewrite filter_cons, filter_nil.
Qed.

Lemma decoded_snoc chain results r key : decoded chain (results ++ [r]) key =
  match r with
  | Some r => if decide (CanonicalSignatureIdentity chain (tr_TxHash r) = key)
              then Some (reconcileDecodedResultCoverage chain (decoded chain results key) r)
              else decoded chain results key
  | None => decoded chain results key
  end.
Proof.
  unfold decoded. rewrite results_of_snoc, foldl_app. destruct r as [r|]; [|done]. by destruct (decide _).
Qed.

Lemma decoded_some chain results key : is_Some (decoded chain results key) <->
  exists r, Some r ∈ results /\ CanonicalSignatureIdentity chain (tr_TxHash r) = key.
Proof.
  induction results as [|r results IH] using rev_ind.
  { split; [by intros [? ?]|]. by intros (? & ?%elem_of_nil & _). }
  rewrite decoded_snoc. setoid_rewrite elem_of_app. setoid_rewrite list_elem_of_singleton.
  destruct r as [r|]; [destruct (decide (CanonicalSignatureIdentity chain (tr_TxHash r) = key)) as [Hk|Hk]|].
  - split; [intros _; exists r; auto|by eexists].
  - rewrite IH. naive_solver.
  - rewrite IH. naive_solver.
Qed.

Definition expected_keys (chain : Chain) (signatures : list SignatureInfo) : gset string :=
  list_to_set (filter (fun k => str_empty k = false)
    ((fun sig => CanonicalSignatureIdentity chain (sg_Hash sig)) <$> signatures)).

Lemma index_lookup chain signatures results key :
  let ix := index_results chain signatures results in
  ri_expected ix !! key = (if decide (key ∈ expected_keys chain signatures) then decoded chain results key else None) /\
  ri_unexpected ix !! key = (if decide (key ∈ expected_keys chain signatures) then None
                             else if str_empty key then None else decoded chain results key).
Proof.
  unfold index_results. fold (expected_keys chain signatures). set (expected := expected_keys chain signatures).
  assert (Hexp : forall k, k ∈ expected -> str_empty k = false).
  { intros k. unfold expected, expected_keys. rewrite elem_of_list_to_set, list_elem_of_filter. by intros [? _]. }
  cbv zeta. induction results as [|r results IH] using rev_ind.
  { simpl. rewrite !lookup_empty. by destruct (decide _), (str_empty key). }
  rewrite foldl_app, decoded_snoc. cbn [foldl]. destruct (foldl _ _ results) as [e u ks]. simpl in IH |- *. destruct IH as [IHe IHu].
  destruct r as [r|]; [|done]. unfold index_result. cbn [ri_expected ri_unexpected ri_unexpectedKeys]. cbv zeta.
  set (k := CanonicalSignatureIdentity chain (tr_TxHash r)).
  destruct (str_empty k) eqn:Ek; [|destruct (decide (k ∈ expected)) as [Hin|Hout]];
    cbn [ri_expected ri_unexpected].
  - rewrite IHe, IHu. apply str_empty_spec in Ek. destruct (decide (k = key)) as [<-|_]; [|done]. rewrite Ek.
    destruct (decide (EmptyString ∈ expected)) as [Hin|_]; [by specialize (Hexp _ Hin)|done].
  - rewrite IHu. destruct (decide (k = key)) as [<-|Hne].
    + rewrite lookup_insert_eq, IHe. by destruct (decide (k ∈ expected)).
    + by rewrite lookup_insert_ne.
  - rewrite IHe. destruct (decide (k = key)) as [<-|Hne].
    + rewrite lookup_insert_eq, IHu, Ek. by destruct (decide (k ∈ expected)).
    + by rewrite lookup_insert_ne.
Qed.

Lemma identity_trim chain s : CanonicalSignatureIdentity chain (trim_space s) = CanonicalSignatureIdentity chain s.
Proof. unfold CanonicalSignatureIdentity. by rewrite trim_space_idem. Qed.

Lemma key_expected batch sigs sig : sig ∈ sigs -> str_empty (signature_key batch sig) = false ->
  signature_key batch sig ∈ expected_keys (rb_Chain batch) sigs.
Proof.
  intros Hs He. unfold expected_keys. apply elem_of_list_to_set, list_elem_of_filter. split; [done|].
  unfold signature_key. rewrite identity_trim. by apply (list_elem_of_fmap_2 (fun sig => CanonicalSignatureIdentity (rb_Chain batch) (sg_Hash sig))).
Qed.

Lemma sole_result (m : gmap string TransactionResult) r :
  singleSignatureFallbackResult m = Some r <-> exists k, m = {[k := r]}.
Proof.
  unfold singleSignatureFallbackResult. split.
  - destruct (map_to_list m) as [|[k x] [|]] eqn:E; [done| |done]. intros [= <-]. exists k.
    apply map_to_list_inj. by rewrite E, map_to_list_singleton.
  - intros [k ->]. by rewrite map_to_list_singleton.
Qed.

(** The only unexpected result of a batch of one signature. *)
Lemma fallback_spec batch sig results r : str_empty (signature_key batch sig) = false ->
  decoded (rb_Chain batch) results (signature_key batch sig) = None ->
  singleSignatureFallbackResult (ri_unexpected (index_results (rb_Chain batch) [sig] results)) = Some r <->
  exists other, other <> signature_key batch sig /\ str_empty other = false /\
    decoded (rb_Chain batch) results other = Some r /\ sole_key (rb_Chain batch) results other.
Proof.
  intros Hne Hnone. set (u := ri_unexpected _).
  assert (Hexp : forall k, k ∈ expected_keys (rb_Chain batch) [sig] <-> k = signature_key batch sig).
  { intros k. unfold expected_keys. rewrite elem_of_list_to_set, list_elem_of_filter. simpl. rewrite list_elem_of_singleton.
    unfold signature_key in *. rewrite identity_trim in *. naive_solver. }
  assert (Hu : forall k, u !! k = if decide (k = signature_key batch sig) then None
                                else if str_empty k then None else decoded (rb_Chain batch) results k).
  { intros k. destruct (index_lookup (rb_Chain batch) [sig] results k) as [_ H]. fold u in H. rewrite H.
    pose proof (Hexp k). destruct (decide (k ∈ _)), (decide (k = _)); tauto. }
  rewrite sole_result. split.
  - intros [k Hm]. pose proof (Hu k) as Hk. rewrite Hm, lookup_singleton_eq in Hk.
    destruct (decide (k = _)) as [|Hkne]; [done|]. destruct (str_empty k) eqn:Eke; [done|].
    exists k. do 2 (split; [done|]). split; [done|]. intros r' Hr' Hr'e. set (k' := CanonicalSignatureIdentity _ _) in *.
    assert (is_Some (decoded (rb_Chain batch) results k')) as Hd by (apply decoded_some; by exists r').
    destruct (decide (k' = k)) as [|Hne']; [done|]. pose proof (Hu k') as Hk'. rewrite Hm, lookup_singleton_ne in Hk' by done.
    destruct (decide (k' = signature_key batch sig)) as [Heq|]; [rewrite Heq, Hnone in Hd; by destruct Hd|].
    rewrite Hr'e in Hk'. rewrite <- Hk' in Hd. by destruct Hd.
  - intros (k & Hk & Hke & Hd & Hsole). exists k. apply map_eq. intros i. rewrite Hu.
    destruct (decide (i = k)) as [->|Hik]; [by rewrite lookup_singleton_eq, decide_False, Hke|].
    rewrite lookup_singleton_ne by done. destruct (decide _); [done|]. destruct (str_empty i) eqn:Ei; [done|].
    destruct (decoded (rb_Chain batch) results i) eqn:Edi; [|done].
    assert (is_Some (decoded (rb_Chain batch) results i)) as (r' & Hr' & <-)%decoded_some by by eexists.
    by rewrite (Hsole r' Hr' Ei) in Hik.
Qed.

(** ** The decode errors *)

(** What the sidecar says of an error, and whether it may go away. *)
Definition error_reason (e : DecodeError) : string :=
  if decide (trim_space (de_Error e) = EmptyString) then "decode failed" else trim_space (de_Error e).

Definition transient_error (e : DecodeError) : Prop :=
  IsTransient (Classify (Some (EMsg ("sidecar decode error: " +:+ error_reason e)))) = true.

(** The key an error is recorded under; the [idx]-th error gets a marker if it has none. *)
Definition error_key (chain : Chain) (idx : nat) (e : DecodeError) : string :=
  let id := CanonicalSignatureIdentity chain (de_Signature e) in
  if decide (id = EmptyString) then "<unknown:" +:+ show_3 idx +:+ ">" else id.

Definition decode_failed (chain : Chain) (errors : list (option DecodeError)) (key : string) : Prop :=
  exists idx e, errors !! idx = Some (Some e) /\ key = error_key chain idx e.

Lemma empty_decide {A} (s : string) (x y : A) : (if str_empty s then x else y) = (if decide (s = EmptyString) then x else y).
Proof.
  destruct (str_empty s) eqn:E; [apply str_empty_spec in E|apply str_empty_false in E];
    [by rewrite decide_True|by rewrite decide_False].
Qed.

Lemma keep_least_some key reason m k : is_Some (keep_least key reason m !! k) <-> k = key \/ is_Some (m !! k).
Proof.
  unfold keep_least. destruct (decide (k = key)) as [->|Hne].
  - split; [by left|intros _]. destruct (m !! key) as [x|] eqn:E; [destruct (str_ltb reason x)|];
      rewrite ?lookup_insert_eq, ?E; by eexists.
  - destruct (m !! key) as [x|]; [destruct (str_ltb reason x)|]; rewrite ?lookup_insert_ne by done;
      (split; [by right|by intros [?|?]]).
Qed.

Lemma classify_from_spec chain errors : forall idx terminal transient,
  let maps := classify_from chain idx errors (terminal, transient) in
  (maps.2 = ∅ <-> transient = ∅ /\ forall e, Some e ∈ errors -> ~ transient_error e) /\
  (maps.2 = ∅ -> forall k, is_Some (maps.1 !! k) <->
     is_Some (terminal !! k) \/ exists i e, errors !! i = Some (Some e) /\ k = error_key chain (idx + i) e).
Proof.
  assert (Hcons : forall x l idx k, (exists i e, (x :: l) !! i = Some (Some e) /\ k = error_key chain (idx + i) e) <->
    (exists e, x = Some e /\ k = error_key chain idx e) \/
    (exists i e, l !! i = Some (Some e) /\ k = error_key chain (S idx + i) e)).
  { intros x l idx k. split.
    - intros ([|i] & e & Hi & ->); [left|right]; [exists e; injection Hi as ->; by rewrite Nat.add_0_r|].
      exists i, e. split; [done|]. f_equal. lia.
    - intros [(e & -> & ->)|(i & e & Hi & ->)]; [exists 0%nat, e; by rewrite Nat.add_0_r|]. exists (S i), e.
      split; [done|]. f_equal. lia. }
  induction errors as [|[e|] errors IH]; intros idx terminal transient maps; simpl in maps; subst maps.
  - split; [set_solver|]. intros _ k. simpl. split; [by left|]. intros [?|(i & e & Hi & _)]; done.
  - unfold classify_step. rewrite !empty_decide. fold (error_reason e) (error_key chain idx e).
    destruct (IsTransient _) eqn:Et.
    + specialize (IH (S idx) (delete (error_key chain idx e) terminal) (keep_least (error_key chain idx e) (error_reason e) transient)).
      destruct IH as [IH1 _].
      assert ((classify_from chain (S idx) errors (delete (error_key chain idx e) terminal,
                 keep_least (error_key chain idx e) (error_reason e) transient)).2 <> ∅) as Hne.
      { rewrite IH1. intros [Hk _]. assert (is_Some ((∅ : gmap string string) !! error_key chain idx e)) as [? Hs]
          by (rewrite <- Hk; apply keep_least_some; by left). by rewrite lookup_empty in Hs. }
      split; [|done]. split; [done|]. intros [_ Hall]. exfalso. by apply (Hall e); [left|].
    + destruct (transient !! error_key chain idx e) as [x|] eqn:Ex.
      * destruct (IH (S idx) terminal transient) as [IH1 _].
        assert (transient <> ∅) by (intros ->; by rewrite lookup_empty in Ex). 
        split; [split; [intros Hm; by apply IH1 in Hm as [? _]|by intros [? _]]|intros Hm; by apply IH1 in Hm as [? _]].
      * destruct (IH (S idx) (keep_least (error_key chain idx e) (error_reason e) terminal) transient) as [IH1 IH2].
        split.
        { rewrite IH1. setoid_rewrite elem_of_cons. split; [|naive_solver].
          intros [? Hall]. split; [done|]. intros e' [[= ->]|He']; [|by apply Hall].
          intros Hc. exact (eq_true_false_abs _ Hc Et). }
        intros Hm k. rewrite (IH2 Hm k), keep_least_some, Hcons. naive_solver.
  - destruct (IH (S idx) terminal transient) as [IH1 IH2]. split.
    + rewrite IH1. setoid_rewrite elem_of_cons. naive_solver.
    + intros Hm k. rewrite (IH2 Hm k), Hcons. naive_solver.
Qed.

(** No error is transient, and then the recorded keys are those of the errors. *)
Lemma classify_spec chain errors : (classifyDecodeErrors chain errors).2 = ∅ ->
  (forall e, Some e ∈ errors -> ~ transient_error e) /\
  (forall k, is_Some ((classifyDecodeErrors chain errors).1 !! k) <-> decode_failed chain errors k).
Proof.
  unfold classifyDecodeErrors. pose proof (classify_from_spec chain errors 0 ∅ ∅) as [H1 H2]. intros Hm. split.
  - by apply H1 in Hm as [_ ?].
  - intros k. rewrite (H2 Hm k), lookup_empty. unfold decode_failed. split; [|by right]. by intros [[? ?]|?].
Qed.

(** ** The outcome of every signature *)

(** What becomes of the signatures in their order: [taken] are the keys of those that gave a
    transaction so far, the result is the list of the others that do, each with its result.
    A signature gives a transaction unless it has no key, the key [failed], an earlier one
    took it, or the sidecar gave no result for it. *)
Inductive accounts (batch : RawBatch) (failed : string -> Prop) (decodes : SignatureInfo -> TransactionResult -> Prop)
    : list string -> list SignatureInfo -> list (SignatureInfo * TransactionResult) -> Prop :=
| accounts_nil taken : accounts batch failed decodes taken [] []
| accounts_take taken sig sigs r l :
    str_empty (signature_key batch sig) = false -> ~ failed (signature_key batch sig) ->
    signature_key batch sig ∉ taken -> decodes sig r ->
    accounts batch failed decodes (signature_key batch sig :: taken) sigs l ->
    accounts batch failed decodes taken (sig :: sigs) ((sig, r) :: l)
| accounts_skip taken sig sigs l :
    str_empty (signature_key batch sig) = true \/ failed (signature_key batch sig) \/
      signature_key batch sig ∈ taken \/ (forall r, ~ decodes sig r) ->
    accounts batch failed decodes taken sigs l ->
    accounts batch failed decodes taken (sig :: sigs) l.

Lemma accounts_failed batch (failed failed' : string -> Prop) decodes taken sigs l : (forall k, failed k <-> failed' k) ->
  accounts batch failed decodes taken sigs l -> accounts batch failed' decodes taken sigs l.
Proof.
  intros Hf. induction 1 as [|taken sig sigs r l H1 H2 H3 H4 _ IH|taken sig sigs l Hw _ IH]; [constructor| |].
  - constructor; [done|by rewrite <- Hf|done..].
  - constructor; [by rewrite <- Hf|done].
Qed.

Lemma accounts_sublist batch failed decodes taken sigs l :
  accounts batch failed decodes taken sigs l -> sublist (fst <$> l) sigs.
Proof. induction 1; simpl; by constructor. Qed.

Lemma accounts_error batch failed decodes taken sigs l : accounts batch failed decodes taken sigs l ->
  forall sig, sig ∈ fst <$> l -> ~ failed (signature_key batch sig).
Proof.
  induction 1 as [| ? ? ? ? ? ? ? ? ? ? IH|]; simpl; intros x Hx; [by apply elem_of_nil in Hx| |auto].
  apply elem_of_cons in Hx as [->|Hx]; [done|by apply IH].
Qed.

(** The sequence of the cursor after the accepted signatures. *)
Definition cursor_after (start : Z) (accepted : list SignatureInfo) : Z :=
  foldl (fun seq sig => Z.max seq (sg_Sequence sig)) start accepted.

Lemma cursor_after_spec accepted : forall start,
  start <= cursor_after start accepted /\
  (forall sig, sig ∈ accepted -> sg_Sequence sig <= cursor_after start accepted) /\
  (cursor_after start accepted = start \/ exists sig, sig ∈ accepted /\ cursor_after start accepted = sg_Sequence sig).
Proof.
  unfold cursor_after. induction accepted as [|x l IH]; intros start; simpl.
  { split; [lia|]. split; [intros ? ?%elem_of_nil; done|by left]. }
  destruct (IH (Z.max start (sg_Sequence x))) as (H1 & H2 & H3). split; [lia|]. split.
  - intros sig [->|Hs]%elem_of_cons; [lia|by apply H2].
  - destruct H3 as [->|(sig & Hs & ->)]; [|right; exists sig; split; [by right|done]].
    destruct (Z.max_spec start (sg_Sequence x)) as [[_ ->]|[_ ->]]; [right; exists x; split; [by left|done]|by left].
Qed.

Lemma advance_cursor seq value sig key :
  (if shouldAdvanceCanonicalCursor seq value (sg_Sequence sig) key then sg_Sequence sig else seq) =
  Z.max seq (sg_Sequence sig).
Proof.
  unfold shouldAdvanceCanonicalCursor. destruct (Z.ltb_spec seq (sg_Sequence sig)); [lia|].
  destruct (Z.ltb_spec (sg_Sequence sig) seq); [lia|].
  destruct (str_empty _); [lia|]. destruct value; [destruct (str_empty _); [lia|destruct (str_ltb _ _); lia]|lia].
Qed.

Section Batch.
Context {C : Type} `{Cache C string TransactionResult}.

(** The transactions of the accepted signatures: each result, at the coverage the floor
    allows, gives one; the floor goes from each to the next. *)
Fixpoint transactions_of (now : Z) (batch : RawBatch) (floor : C) (l : list (SignatureInfo * TransactionResult))
    : list NormalizedTransaction :=
  match l with
  | [] => []
  | (sig, r) :: l =>
      let '(r, floor) := reconcileCoverageRegressionFlap now floor (rb_Chain batch) (rb_Network batch)
                           (rb_Address batch) (signature_key batch sig) r in
      normalizedTxFromResult (rb_Chain batch) (rb_Network batch) r (sg_Time sig) (resolveWatchedAddressSet batch)
        :: transactions_of now batch floor l
  end.

Lemma transactions_length now batch l : forall floor, length (transactions_of now batch floor l) = length l.
Proof.
  induction l as [|[sig r] l IH]; intros floor; simpl; [done|].
  destruct (reconcileCoverageRegressionFlap _ _ _ _ _ _ _). simpl. by rewrite IH.
Qed.

(** The results that are left after the keys [taken]. *)
Definition results_left (ix : result_index) (taken : list string) (p : progress (C:=C)) : Prop :=
  forall k, pg_results p !! k = if decide (k ∈ taken) then None else ri_expected ix !! k.

Lemma result_left batch all results taken (p : progress (C:=C)) sig r :
  let ix := index_results (rb_Chain batch) all results in
  results_left ix taken p -> sig ∈ all -> str_empty (signature_key batch sig) = false ->
  (length taken < length all)%nat ->
  (result_of (length all =? 1)%nat (ri_unexpected ix) (signature_key batch sig) p = Some r) <->
  ((signature_key batch sig ∉ taken) /\ decodes_to batch all results sig r).
Proof.
  cbv zeta. intros Hleft Hsig Hne Hlen. unfold result_of. rewrite Hleft.
  destruct (decide (signature_key batch sig ∈ taken)) as [Hin|Hout].
  { destruct taken as [|k taken]; [by apply elem_of_nil in Hin|]. simpl in Hlen.
    destruct (Nat.eqb_spec (length all) 1); [lia|]. naive_solver. }
  destruct (index_lookup (rb_Chain batch) all results (signature_key batch sig)) as [-> _].
  rewrite decide_True by by apply key_expected. unfold decodes_to.
  destruct (decoded (rb_Chain batch) results (signature_key batch sig)) as [r'|] eqn:Ed.
  - split; [intros [= ->]; auto|]. intros (_ & [[= ->]|(_ & other & Ho & _ & _ & Hsole)]); [done|].
    assert (is_Some (decoded (rb_Chain batch) results (signature_key batch sig))) as (x & Hx & Hk)%decoded_some by by eexists.
    exfalso. apply Ho. rewrite <- Hk. symmetry. apply Hsole; [done|]. by rewrite Hk.
  - destruct (Nat.eqb_spec (length all) 1) as [H1|H1]; [|naive_solver].
    destruct all as [|s [|]]; [done| |done]. apply list_elem_of_singleton in Hsig as <-.
    rewrite fallback_spec by done. naive_solver.
Qed.

(** The cursor is as before or that of an accepted signature. *)
Definition cursor_of (batch : RawBatch) (accepted : list SignatureInfo) (p p' : progress (C:=C)) : Prop :=
  (pg_cursor p' = pg_cursor p /\ pg_cursorSequence p' = pg_cursorSequence p) \/
  exists sig, sig ∈ accepted /\ pg_cursor p' = Some (signature_key batch sig) /\ pg_cursorSequence p' = sg_Sequence sig.

Lemma loop_accounts now batch errors all results : forall sigs taken (p : progress (C:=C)),
  let ix := index_results (rb_Chain batch) all results in
  let p' := foldl (process_signature now batch errors (length all =? 1)%nat ix) p sigs in
  results_left ix taken p -> (forall sig, sig ∈ sigs -> sig ∈ all) -> (length taken + length sigs <= length all)%nat ->
  exists l, accounts batch (fun k => is_Some (errors !! k)) (decodes_to batch all results) taken sigs l /\
    pg_transactions p' = pg_transactions p ++ transactions_of now batch (pg_floor p) l /\
    pg_cursorSequence p' = cursor_after (pg_cursorSequence p) (fst <$> l) /\
    cursor_of batch (fst <$> l) p p'.
Proof.
  induction sigs as [|sig sigs IH]; intros taken p ix p' Hleft Hall Hlen; simpl in p', Hlen.
  { exists []. simpl. rewrite app_nil_r. split; [constructor|]. do 2 (split; [done|]). by left. }
  assert (Hskip : forall name reason, process_signature now batch errors (length all =? 1)%nat ix p sig = add_failure name reason p ->
    str_empty (signature_key batch sig) = true \/ is_Some (errors !! signature_key batch sig) \/
      signature_key batch sig ∈ taken \/ (forall r, ~ decodes_to batch all results sig r) ->
    exists l, accounts batch (fun k => is_Some (errors !! k)) (decodes_to batch all results) taken (sig :: sigs) l /\
      pg_transactions p' = pg_transactions p ++ transactions_of now batch (pg_floor p) l /\
      pg_cursorSequence p' = cursor_after (pg_cursorSequence p) (fst <$> l) /\
      cursor_of batch (fst <$> l) p p').
  { intros name reason Hp Hwhy. subst p'. rewrite Hp.
    destruct (IH taken (add_failure name reason p)) as (l & H1 & H2 & H3 & H4);
      [exact Hleft|intros; apply Hall; by right|lia|].
    exists l. split; [by constructor|]. by do 2 (split; [done|]). }
  unfold process_signature in Hskip. fold (signature_key batch sig) in Hskip.
  destruct (str_empty (signature_key batch sig)) eqn:Ek; [by eapply Hskip; auto|].
  destruct (errors !! signature_key batch sig) as [err|] eqn:Ee; [eapply Hskip; [done|right; left; by eexists]|].
  pose proof (fun r => result_left batch all results taken p sig r Hleft (Hall sig ltac:(by left)) Ek ltac:(lia)) as Hr.
  fold ix in Hr. destruct (result_of _ (ri_unexpected ix) (signature_key batch sig) p) as [r|] eqn:Er.
  - destruct (proj1 (Hr r) eq_refl) as [Hnew Hdec]. subst p'.
    assert (process_signature now batch errors (length all =? 1)%nat ix p sig =
            process_result now batch (resolveWatchedAddressSet batch) sig (signature_key batch sig) r p) as ->.
    { unfold process_signature. fold (signature_key batch sig). by rewrite Ek, Ee, Er. }
    unfold process_result.
    destruct (reconcileCoverageRegressionFlap now (pg_floor p) (rb_Chain batch) (rb_Network batch) (rb_Address batch)
                (signature_key batch sig) r) as [r' floor] eqn:Ef.
    match goal with |- context [foldl _ ?q sigs] =>
      destruct (IH (signature_key batch sig :: taken) q) as (l & H1 & H2 & H3 & H4) end.
    + intros k. cbn [pg_results]. destruct (decide (k = signature_key batch sig)) as [->|Hk].
      * by rewrite lookup_delete_eq, decide_True by by left.
      * rewrite lookup_delete_ne by done. rewrite (Hleft k). apply decide_ext. rewrite elem_of_cons. naive_solver.
    + intros; apply Hall; by right.
    + simpl. lia.
    + fold ix in H2, H3, H4. exists ((sig, r) :: l). cbn [pg_transactions pg_floor pg_cursorSequence pg_failures] in H2, H3, H4.
      split; [constructor; [done|rewrite Ee; by intros [? ?]|done..]|]. split; [|split].
      * rewrite H2. cbn [transactions_of]. by rewrite Ef, <- app_assoc.
      * etrans; [exact H3|]. by rewrite advance_cursor.
      * destruct H4 as [[H4 H5]|(x & Hx & H4)]; [|right; exists x; split; [by right|exact H4]].
        cbn [pg_cursor pg_cursorSequence] in H4, H5. unfold cursor_of. rewrite H4, H5.
        destruct (shouldAdvanceCanonicalCursor _ _ _ _); [right; exists sig; split; [by left|done]|by left].
  - eapply Hskip; [done|]. right. destruct (decide (signature_key batch sig ∈ taken)) as [|Hnew]; [by right; left|].
    right; right. intros r Hd. by pose proof (proj2 (Hr r) (conj Hnew Hd)).
Qed.

(** A batch with signatures that is sent has gone through the loop. *)
Lemma processBatch_loop e batch (s s' : nstate (C:=C)) sent :
  processBatch e batch s = (Ok sent, s') -> rb_Signatures batch <> [] ->
  let sigs := canonicalizeBatchSignatures (rb_Chain batch) (rb_Signatures batch) in
  exists l (resp : DecodeResponse) (p : progress (C:=C)),
    ne_decode e (decode_request batch) = Ok resp /\
    (forall err, Some err ∈ rp_Errors resp -> ~ transient_error err) /\ l <> [] /\
    sent = finished_batch batch p /\
    accounts batch (decode_failed (rb_Chain batch) (rp_Errors resp))
      (decodes_to batch sigs (rp_Results resp)) [] sigs l /\
    pg_transactions p = transactions_of (ne_now e) batch (ns_floor s) l /\
    pg_cursorSequence p = cursor_after (start_cursor batch).2 (fst <$> l) /\
    ((pg_cursor p, pg_cursorSequence p) = start_cursor batch \/
     exists sig, sig ∈ fst <$> l /\ pg_cursor p = Some (signature_key batch sig) /\ pg_cursorSequence p = sg_Sequence sig).
Proof.
  unfold processBatch. intros Hp Hne.
  assert ((length (rb_Signatures batch) =? 0)%nat = false) as Hl by (destruct (rb_Signatures batch); done).
  rewrite Hl, andb_false_r in Hp. destruct (negb _); [done|]. destruct (length _ =? 0)%nat; [done|].
  unfold call_sidecar in Hp.
  destruct (match ns_breaker s with None => _ | Some b => _ end) as [[rejected|] s1] eqn:Eb; [done|].
  assert (ns_floor s1 = ns_floor s) as Hfloor.
  { destruct (ns_breaker s) as [b|]; [|by injection Eb as <-]. destruct (Allow b _). by injection Eb as _ <-. }
  destruct (ne_decode e (decode_request batch)) as [resp|err]; [|done].
  destruct (classifyDecodeErrors (rb_Chain batch) (rp_Errors resp)) as [terminal transient] eqn:Ec.
  destruct (decide (transient = ∅)) as [->|]; [|done].
  assert (forall b : Breaker, ns_floor (set_breaker b s1) = ns_floor s) as Hset by done.
  set (all := canonicalizeBatchSignatures (rb_Chain batch) (rb_Signatures batch)) in *.
  match type of Hp with context [process_signatures ?now batch terminal ?sigs ?ix ?floor] =>
    assert (floor = ns_floor s) as Hfl by (by destruct (ns_breaker s1)); rewrite Hfl in Hp;
    set (p := process_signatures now batch terminal sigs ix (ns_floor s)) in Hp end.
  destruct (length (pg_transactions p) =? 0)%nat eqn:El; [done|].
  unfold send_batch in Hp. destruct (ne_send e); [|done]. injection Hp as <- _.
  assert (exists l, accounts batch (fun k => is_Some (terminal !! k)) (decodes_to batch all (rp_Results resp)) [] all l /\
    pg_transactions p = transactions_of (ne_now e) batch (ns_floor s) l /\
    pg_cursorSequence p = cursor_after (start_cursor batch).2 (fst <$> l) /\
    ((pg_cursor p, pg_cursorSequence p) = start_cursor batch \/
     exists sig, sig ∈ fst <$> l /\ pg_cursor p = Some (signature_key batch sig) /\
       pg_cursorSequence p = sg_Sequence sig)) as (l & H1 & H2 & H3 & H4).
  { subst p. unfold process_signatures. destruct (start_cursor batch) as [cursor start].
    match goal with |- context [foldl _ ?q all] =>
      destruct (loop_accounts (ne_now e) batch terminal all (rp_Results resp) all [] q) as (l & H1 & H2 & H3 & H4) end;
      [|done|done|exists l; do 3 (split; [done|]); destruct H4 as [[E1 E2]|H4]; [left|by right]; by rewrite E1, E2].
    intros k. by rewrite decide_False by apply not_elem_of_nil. }
  destruct (classify_spec (rb_Chain batch) (rp_Errors resp)) as [Htr Hfail]; [by rewrite Ec|]. rewrite Ec in Hfail.
  exists l, resp, p. do 2 (split; [done|]). split; [intros ->; by rewrite H2 in El|]. split; [done|].
  split; [eapply accounts_failed; [exact Hfail|exact H1]|done].
Qed.
End Batch.

(** C33: what a sent batch says.  The sidecar answered, and none of its decode errors is
    transient.  Going through the canonical signatures of the batch in their order, a
    signature is accepted exactly when it has a key, no decode error has that key, no earlier
    signature took it and the sidecar gave a result for it: the results of that key merged,
    or, for a batch of one signature, those of the only key the sidecar gave.  At least one
    is.  The transactions are, in that order, what these results give at the coverage the
    floor allows.  The cursor is the start or that of an accepted signature, and its sequence
    is below none of them; the previous cursor, chain, address and mode are the batch's. *)
Theorem batch_accounts {C : Type} `{Cache C string TransactionResult} e batch (s s' : nstate (C:=C)) sent :
  processBatch e batch s = (Ok sent, s') -> rb_Signatures batch <> [] ->
  exists (sigs : list SignatureInfo) (decodes : list (SignatureInfo * TransactionResult)) (resp : DecodeResponse),
    let accepted := fst <$> decodes in
    batch_signatures (rb_Chain batch) (rb_Signatures batch) sigs /\
    ne_decode e (decode_request batch) = Ok resp /\
    (forall err, Some err ∈ rp_Errors resp -> ~ transient_error err) /\
    accounts batch (decode_failed (rb_Chain batch) (rp_Errors resp))
      (decodes_to batch sigs (rp_Results resp)) [] sigs decodes /\
    sublist accepted sigs /\ accepted <> [] /\
    nb_Transactions sent = transactions_of (ne_now e) batch (ns_floor s) decodes /\
    (forall sig, sig ∈ accepted -> ~ decode_failed (rb_Chain batch) (rp_Errors resp) (signature_key batch sig)) /\
    (nb_Chain sent, nb_Network sent, nb_Address sent, nb_WalletID sent, nb_OrgID sent) =
      (rb_Chain batch, rb_Network batch, rb_Address batch, rb_WalletID batch, rb_OrgID batch) /\
    (nb_BlockScanMode sent, nb_WatchedAddresses sent) = (rb_BlockScanMode batch, rb_WatchedAddresses batch) /\
    (nb_PreviousCursorValue sent, nb_PreviousCursorSequence sent) =
      (CanonicalizeCursorValue (rb_Chain batch) (rb_PreviousCursorValue batch), rb_PreviousCursorSequence batch) /\
    (start_cursor batch).2 <= nb_NewCursorSequence sent /\
    (forall sig, sig ∈ accepted -> sg_Sequence sig <= nb_NewCursorSequence sent) /\
    ((nb_NewCursorValue sent, nb_NewCursorSequence sent) = start_cursor batch \/
     exists sig, sig ∈ accepted /\ nb_NewCursorValue sent = Some (signature_key batch sig) /\
       nb_NewCursorSequence sent = sg_Sequence sig).
Proof.
  intros Hp Hne.
  destruct (processBatch_loop e batch s s' sent Hp Hne) as (l & resp & p & Hd & Ht & Hl & -> & Ha & Htx & Hc & Hcur).
  exists (canonicalizeBatchSignatures (rb_Chain batch) (rb_Signatures batch)), l, resp.
  cbn [finished_batch batch_header nb_NewCursorSequence nb_NewCursorValue nb_Transactions].
  split; [apply signatures_canonical|]. pose proof (cursor_after_spec (fst <$> l) (start_cursor batch).2) as (H1 & H2 & _).
  rewrite <- Hc in H1, H2. do 3 (split; [done|]). split; [by eapply accounts_sublist|]. split; [by destruct l|]. split; [done|].
  split; [by eapply accounts_error|]. done.
Qed.

(** ** A sample batch *)

Definition sample_raw_batch : RawBatch :=
  {| rb_Chain := "solana"; rb_Network := "mainnet"; rb_Address := "alice"; rb_WalletID := None; rb_OrgID := None;
     rb_PreviousCursorValue := Some "old"; rb_PreviousCursorSequence := 5;
     rb_RawTransactions := ["{}"; "{}"];
     rb_Signatures := [{| sg_Hash := "sig"; sg_Sequence := 9; sg_Time := None |};
                       {| sg_Hash := "bad"; sg_Sequence := 7; sg_Time := None |}];
     rb_NewCursorValue := Some "sig"; rb_NewCursorSequence := 9; rb_BlockScanMode := false;
     rb_WatchedAddresses := [] |}.

Definition sample_env : norm_env :=
  {| ne_now := 1;
     ne_decode := fun _ => Ok {| rp_Results := [Some (sample_result [Some sample_hinted])];
                                rp_Errors := [Some {| de_Signature := "bad"; de_Error := "invalid instruction" |}] |};
     ne_send := Ok tt; ne_ctxErr := None; ne_rand := fun n => n - 1; ne_sleep := fun _ => Ok tt |}.

Definition sample_state : nstate (C:=ShardedLRU string TransactionResult) :=
  {| ns_breaker := None; ns_floor := sample_floor |}.

(** One transaction, up to sequence 9. *)
Definition sample_outcome : bool :=
  match (processBatch sample_env sample_raw_batch sample_state).1 with
  | Ok sent => (length (nb_Transactions sent) =? 1)%nat && (nb_NewCursorSequence sent =? 9)
  | Err _ => false
  end.

Lemma sample_outcome_ok : sample_outcome = true.
Proof. vm_compute. reflexivity. Qed.

Lemma batch_accounts_witness :
  exists sent, (processBatch sample_env sample_raw_batch sample_state).1 = Ok sent /\
    length (nb_Transactions sent) = 1%nat /\ nb_NewCursorSequence sent = 9 /\
    (start_cursor sample_raw_batch).2 <= nb_NewCursorSequence sent.
Proof.
  pose proof sample_outcome_ok as Hv. unfold sample_outcome in Hv.
  destruct (processBatch sample_env sample_raw_batch sample_state) as [[sent|err] s'] eqn:E; [|discriminate Hv].
  cbn [fst] in Hv. apply andb_prop in Hv as [H1%Nat.eqb_eq H2%Z.eqb_eq].
  exists sent. split; [reflexivity|]. split; [exact H1|]. split; [exact H2|].
  pose proof (batch_accounts sample_env sample_raw_batch sample_state s' sent E) as H.
  destruct H as (sigs & decodes & resp & _ & _ & _ & _ & _ & _ & _ & _ & _ & _ & _ & Hs & _); [|exact Hs].
  intros Hnil. discriminate Hnil.
Defined.
