(* ===== verification/AutoTune.v ===== *)
(** * Auto-tune controller: [pipeline/coordinator/autotune/autotune.go]

    The controller that moves the batch size of one chain between its bounds:
    construction with normalised configuration, one [Resolve] per coordinator
    tick, operator overrides, and the reaction to stale telemetry.  The fields of
    the Go struct are grouped by what changes them together; [int] and [int64]
    wrap around.  The transition of policy manifests is in [PolicyLineage]. *)

From Stdlib Require Import ZArith String Lia.
From stdpp Require Import base option list strings.
From S2P Require Import Prelude Sha256.

Open Scope Z_scope.
Open Scope go_scope.

(** ** Configuration and inputs *)

Record AutoTuneConfig := {
  cfg_Enabled : bool;
  cfg_MinBatchSize : Z; cfg_MaxBatchSize : Z; cfg_StepUp : Z; cfg_StepDown : Z;
  cfg_LagHighWatermark : Z; cfg_LagLowWatermark : Z;
  cfg_QueueHighWatermarkPct : Z; cfg_QueueLowWatermarkPct : Z;
  cfg_HysteresisTicks : Z; cfg_CooldownTicks : Z;
  cfg_TelemetryStaleTicks : Z; cfg_TelemetryRecoveryTicks : Z;
  cfg_OperatorOverrideBatchSize : Z; cfg_OperatorReleaseHoldTicks : Z;
  cfg_PolicyVersion : string; cfg_PolicyManifestDigest : string;
  cfg_PolicyManifestRefreshEpoch : Z; cfg_PolicyActivationHoldTicks : Z
}.

Record autoTuneInputs := {
  in_Chain : string; in_Network : string;
  in_HasHeadSignal : bool; in_HeadSequence : Z;
  in_HasMinCursorSignal : bool; in_MinCursorSequence : Z;
  in_QueueDepth : Z; in_QueueCapacity : Z;
  in_RPCErrorRateBps : Z; in_DBCommitLatencyP95Ms : Z;
  in_DecisionEpochMs : Z
}.

Inductive autoTuneSignal := SignalHold | SignalIncrease | SignalDecrease.
#[export] Instance autoTuneSignal_eq_dec : EqDecision autoTuneSignal.
Proof. solve_decision. Defined.

Definition signal_string (s : autoTuneSignal) : string :=
  match s with SignalHold => "hold" | SignalIncrease => "increase" | SignalDecrease => "decrease" end.

Inductive autoTuneTelemetryState := TelemetryHealthy | TelemetryStaleFallback | TelemetryRecoveryHold.
Definition telemetry_string (s : autoTuneTelemetryState) : string :=
  match s with
  | TelemetryHealthy => "healthy"
  | TelemetryStaleFallback => "stale_fallback"
  | TelemetryRecoveryHold => "recovery_hold"
  end.

Inductive autoTuneOverrideState := OverrideAuto | OverrideManualHold | OverrideReleaseHold.
Definition override_string (s : autoTuneOverrideState) : string :=
  match s with
  | OverrideAuto => "auto" | OverrideManualHold => "manual_hold" | OverrideReleaseHold => "release_hold"
  end.

Record autoTuneOverrideTransition := { ot_WasManualOverride : bool; ot_ReleaseHoldRemaining : Z }.

Record autoTunePolicyTransition := {
  pt_HasState : bool; pt_Version : string; pt_ManifestDigest : string; pt_Epoch : Z;
  pt_ActivationHoldRemaining : Z; pt_FromWarmCheckpoint : bool
}.

(** ** The controller *)

(** What construction fixes. *)
Record settings := {
  s_minBatchSize : Z; s_maxBatchSize : Z; s_stepUp : Z; s_stepDown : Z;
  s_lagHighWatermark : Z; s_lagLowWatermark : Z;
  s_queueHighWatermarkPct : Z; s_queueLowWatermarkPct : Z;
  s_hysteresisTicks : Z; s_cooldownTicks : Z;
  s_telemetryStaleTicks : Z; s_telemetryRecoveryTicks : Z;
  s_operatorOverrideBatch : Z; s_operatorReleaseHold : Z;
  s_policyVersion : string; s_policyActivationHold : Z
}.

(** What [resetAdaptiveControlState] resets. *)
Record adaptive := {
  ad_lastSignal : autoTuneSignal; ad_lastApplied : autoTuneSignal;
  ad_saturationSignal : autoTuneSignal; ad_streak : Z; ad_cooldownLeft : Z
}.

Record telemetry := {
  te_fallback : bool; te_armed : bool; te_staleObserved : Z; te_recoverySeen : Z
}.

Record policy := { po_manifestDigest : string; po_epoch : Z; po_activationLeft : Z }.

Record autoTuneController := {
  a_settings : settings;
  a_adaptive : adaptive;
  a_telemetry : telemetry;
  a_policy : policy;
  a_currentBatch : Z;
  a_overrideReleaseLeft : Z;
  a_decisionSequence : Z
}.

Definition set_adaptive (x : adaptive) (a : autoTuneController) : autoTuneController :=
  {| a_settings := a_settings a; a_adaptive := x; a_telemetry := a_telemetry a; a_policy := a_policy a;
     a_currentBatch := a_currentBatch a; a_overrideReleaseLeft := a_overrideReleaseLeft a;
     a_decisionSequence := a_decisionSequence a |}.
Definition set_telemetry (x : telemetry) (a : autoTuneController) : autoTuneController :=
  {| a_settings := a_settings a; a_adaptive := a_adaptive a; a_telemetry := x; a_policy := a_policy a;
     a_currentBatch := a_currentBatch a; a_overrideReleaseLeft := a_overrideReleaseLeft a;
     a_decisionSequence := a_decisionSequence a |}.
Definition set_policy (x : policy) (a : autoTuneController) : autoTuneController :=
  {| a_settings := a_settings a; a_adaptive := a_adaptive a; a_telemetry := a_telemetry a; a_policy := x;
     a_currentBatch := a_currentBatch a; a_overrideReleaseLeft := a_overrideReleaseLeft a;
     a_decisionSequence := a_decisionSequence a |}.
Definition set_currentBatch (x : Z) (a : autoTuneController) : autoTuneController :=
  {| a_settings := a_settings a; a_adaptive := a_adaptive a; a_telemetry := a_telemetry a;
     a_policy := a_policy a; a_currentBatch := x; a_overrideReleaseLeft := a_overrideReleaseLeft a;
     a_decisionSequence := a_decisionSequence a |}.
Definition set_overrideReleaseLeft (x : Z) (a : autoTuneController) : autoTuneController :=
  {| a_settings := a_settings a; a_adaptive := a_adaptive a; a_telemetry := a_telemetry a;
     a_policy := a_policy a; a_currentBatch := a_currentBatch a; a_overrideReleaseLeft := x;
     a_decisionSequence := a_decisionSequence a |}.
Definition set_decisionSequence (x : Z) (a : autoTuneController) : autoTuneController :=
  {| a_settings := a_settings a; a_adaptive := a_adaptive a; a_telemetry := a_telemetry a;
     a_policy := a_policy a; a_currentBatch := a_currentBatch a;
     a_overrideReleaseLeft := a_overrideReleaseLeft a; a_decisionSequence := x |}.

Definition min_batch (a : autoTuneController) : Z := s_minBatchSize (a_settings a).
Definition max_batch (a : autoTuneController) : Z := s_maxBatchSize (a_settings a).

(** ** Helpers *)

Definition clampInt (v minV maxV : Z) : Z :=
  if maxV <? minV then minV else if v <? minV then minV else if maxV <? v then maxV else v.

Definition minInt (a b : Z) : Z := if a <? b then a else b.
Definition maxInt (a b : Z) : Z := if b <? a then a else b.
Definition maxInt64 (a b : Z) : Z := if b <? a then a else b.

Definition boundedWarmStartBatch (baseBatch seedBatch stepUp stepDown minBatch maxBatch : Z) : Z :=
  let base := clampInt baseBatch minBatch maxBatch in
  let seed := clampInt seedBatch minBatch maxBatch in
  if seed =? base then base
  else if base <? seed then
    let delta := seed ⊖ base in
    let limit := maxInt stepUp 1 in
    let delta := if limit <? delta then limit else delta in
    clampInt (base ⊕ delta) minBatch maxBatch
  else
    let delta := base ⊖ seed in
    let limit := maxInt stepDown 1 in
    let delta := if limit <? delta then limit else delta in
    clampInt (base ⊖ delta) minBatch maxBatch.

Definition normalizePolicyVersion (version : string) : string :=
  let trimmed := trim_space (to_lower version) in
  if str_empty trimmed then "policy-v1" else trimmed.

Definition normalizePolicyManifestDigest (digest : string) : string :=
  let trimmed := trim_space (to_lower digest) in
  if str_empty trimmed then "manifest-v1" else trimmed.

Definition isQueueHigh (depth capacity pct : Z) : bool :=
  if (capacity <=? 0) || (depth <? 0) || (pct <=? 0) then false
  else pct ⊗ capacity <=? depth ⊗ 100.

Definition isQueueLow (depth capacity pct : Z) : bool :=
  if (capacity <=? 0) || (depth <? 0) then false else depth ⊗ 100 <=? pct ⊗ capacity.

(** ** [newAutoTuneControllerWithSeedMode] *)

Definition positive_or (v d : Z) : Z := if v <=? 0 then d else v.
Definition nonneg (v : Z) : Z := if v <? 0 then 0 else v.

Definition normalized_settings (baseBatchSize : Z) (cfg : AutoTuneConfig) : settings :=
  let minBatch := positive_or (cfg_MinBatchSize cfg) 1 in
  let maxBatch := positive_or (cfg_MaxBatchSize cfg) baseBatchSize in
  let maxBatch := if maxBatch <? minBatch then minBatch else maxBatch in
  let lagHigh := nonneg (cfg_LagHighWatermark cfg) in
  let lagLow := nonneg (cfg_LagLowWatermark cfg) in
  let lagLow := if lagHigh <? lagLow then lagHigh else lagLow in
  let queueHigh := clampInt (cfg_QueueHighWatermarkPct cfg) 1 100 in
  let queueHigh := if queueHigh =? 0 then 80 else queueHigh in
  let queueLow := clampInt (cfg_QueueLowWatermarkPct cfg) 0 queueHigh in
  let queueLow := if cfg_QueueLowWatermarkPct cfg =? 0 then minInt 30 queueHigh else queueLow in
  let hysteresisTicks := positive_or (cfg_HysteresisTicks cfg) 2 in
  let cooldownTicks := nonneg (cfg_CooldownTicks cfg) in
  let cooldownTicks := if cooldownTicks =? 0 then hysteresisTicks else cooldownTicks in
  {| s_minBatchSize := minBatch; s_maxBatchSize := maxBatch;
     s_stepUp := positive_or (cfg_StepUp cfg) 1; s_stepDown := positive_or (cfg_StepDown cfg) 1;
     s_lagHighWatermark := lagHigh; s_lagLowWatermark := lagLow;
     s_queueHighWatermarkPct := queueHigh; s_queueLowWatermarkPct := queueLow;
     s_hysteresisTicks := hysteresisTicks; s_cooldownTicks := cooldownTicks;
     s_telemetryStaleTicks := positive_or (cfg_TelemetryStaleTicks cfg) 2;
     s_telemetryRecoveryTicks := positive_or (cfg_TelemetryRecoveryTicks cfg) 1;
     s_operatorOverrideBatch :=
       if 0 <? cfg_OperatorOverrideBatchSize cfg
       then clampInt (cfg_OperatorOverrideBatchSize cfg) minBatch maxBatch else 0;
     s_operatorReleaseHold := nonneg (cfg_OperatorReleaseHoldTicks cfg);
     s_policyVersion := normalizePolicyVersion (cfg_PolicyVersion cfg);
     s_policyActivationHold := nonneg (cfg_PolicyActivationHoldTicks cfg) |}.

Definition start_batch (s : settings) (baseBatchSize : Z) (seedBatch : option Z)
    (boundedWarmStart : bool) : Z :=
  let minBatch := s_minBatchSize s in
  let maxBatch := s_maxBatchSize s in
  let baseStartBatch := clampInt baseBatchSize minBatch maxBatch in
  let baseStartBatch := if baseStartBatch <=? 0 then minBatch else baseStartBatch in
  let candidate :=
    match seedBatch with
    | Some seed =>
        if 0 <? seed then
          let seedBatchCandidate := clampInt seed minBatch maxBatch in
          if boundedWarmStart
          then boundedWarmStartBatch baseStartBatch seedBatchCandidate (s_stepUp s) (s_stepDown s)
                 minBatch maxBatch
          else seedBatchCandidate
        else baseStartBatch
    | None => baseStartBatch
    end in
  let startBatch := clampInt candidate minBatch maxBatch in
  let startBatch := if startBatch <=? 0 then minBatch else startBatch in
  if 0 <? s_operatorOverrideBatch s then s_operatorOverrideBatch s else startBatch.

Definition reset_adaptive : adaptive :=
  {| ad_lastSignal := SignalHold; ad_lastApplied := SignalHold; ad_saturationSignal := SignalHold;
     ad_streak := 0; ad_cooldownLeft := 0 |}.

Definition newAutoTuneControllerWithSeedMode (baseBatchSize : Z) (cfg : AutoTuneConfig)
    (seedBatch : option Z) (boundedWarmStart : bool) : option autoTuneController :=
  if negb (cfg_Enabled cfg) then None
  else
    let s := normalized_settings baseBatchSize cfg in
    Some {| a_settings := s; a_adaptive := reset_adaptive;
            a_telemetry := {| te_fallback := false; te_armed := false; te_staleObserved := 0;
                              te_recoverySeen := 0 |};
            a_policy := {| po_manifestDigest := normalizePolicyManifestDigest (cfg_PolicyManifestDigest cfg);
                           po_epoch := nonneg (cfg_PolicyManifestRefreshEpoch cfg);
                           po_activationLeft := 0 |};
            a_currentBatch := start_batch s baseBatchSize seedBatch boundedWarmStart;
            a_overrideReleaseLeft := 0; a_decisionSequence := 0 |}.

Definition newAutoTuneController (baseBatchSize : Z) (cfg : AutoTuneConfig) : option autoTuneController :=
  newAutoTuneControllerWithSeedMode baseBatchSize cfg None false.
Definition newAutoTuneControllerWithSeed (baseBatchSize : Z) (cfg : AutoTuneConfig) (seedBatch : option Z)
    : option autoTuneController := newAutoTuneControllerWithSeedMode baseBatchSize cfg seedBatch false.
Definition newAutoTuneControllerWithRestartSeed (baseBatchSize : Z) (cfg : AutoTuneConfig)
    (seedBatch : option Z) : option autoTuneController :=
  newAutoTuneControllerWithSeedMode baseBatchSize cfg seedBatch true.

(** ** Signals *)

Definition autoTuneRPCErrorRateHighWatermarkBps : Z := 250.
Definition autoTuneCommitLatencyP95HighWatermarkMs : Z := 250.

Definition clampedDecisionForSignal (signal : autoTuneSignal) : string :=
  match signal with
  | SignalIncrease => "clamped_increase" | SignalDecrease => "clamped_decrease" | SignalHold => "hold"
  end.

Definition isOppositeSignal (signal lastApplied : autoTuneSignal) : bool :=
  match signal with
  | SignalIncrease => bool_decide (lastApplied = SignalDecrease)
  | SignalDecrease => bool_decide (lastApplied = SignalIncrease)
  | SignalHold => false
  end.

Definition isCriticalChainScopedSignal (signal : autoTuneSignal) (inputs : autoTuneInputs) : bool :=
  match signal with
  | SignalDecrease =>
      (autoTuneRPCErrorRateHighWatermarkBps <=? in_RPCErrorRateBps inputs) ||
      (autoTuneCommitLatencyP95HighWatermarkMs <=? in_DBCommitLatencyP95Ms inputs)
  | _ => false
  end.

Definition classifySignal (a : autoTuneController) (inputs : autoTuneInputs) (lagSequence : Z)
    : autoTuneSignal :=
  let s := a_settings a in
  let hasLag := in_HasHeadSignal inputs && in_HasMinCursorSignal inputs in
  if autoTuneRPCErrorRateHighWatermarkBps <=? in_RPCErrorRateBps inputs then SignalDecrease
  else if autoTuneCommitLatencyP95HighWatermarkMs <=? in_DBCommitLatencyP95Ms inputs then SignalDecrease
  else if isQueueHigh (in_QueueDepth inputs) (in_QueueCapacity inputs) (s_queueHighWatermarkPct s)
  then SignalDecrease
  else if hasLag && (s_lagHighWatermark s <=? lagSequence) then SignalIncrease
  else if hasLag && (lagSequence <=? s_lagLowWatermark s) &&
          isQueueLow (in_QueueDepth inputs) (in_QueueCapacity inputs) (s_queueLowWatermarkPct s)
  then SignalDecrease
  else SignalHold.

Definition isSaturatedBoundary (a : autoTuneController) (signal : autoTuneSignal) : bool :=
  match signal with
  | SignalIncrease => max_batch a <=? a_currentBatch a
  | SignalDecrease => a_currentBatch a <=? min_batch a
  | SignalHold => false
  end.

Definition resolveOverrideState (a : autoTuneController) : autoTuneOverrideState :=
  if 0 <? s_operatorOverrideBatch (a_settings a) then OverrideManualHold
  else if 0 <? a_overrideReleaseLeft a then OverrideReleaseHold
  else OverrideAuto.

Definition resetAdaptiveControlState (a : autoTuneController) : autoTuneController :=
  set_adaptive reset_adaptive a.

Definition resolveTelemetryState (a : autoTuneController) (inputs : autoTuneInputs)
    : autoTuneTelemetryState * autoTuneController :=
  let t := a_telemetry a in
  let hasLagTelemetry := in_HasHeadSignal inputs && in_HasMinCursorSignal inputs in
  let armed := hasLagTelemetry || te_armed t in
  if negb armed then (TelemetryHealthy, a)
  else if negb hasLagTelemetry || (in_HeadSequence inputs <? in_MinCursorSequence inputs) then
    let staleObserved := te_staleObserved t ⊕ 1 in
    let fallback := te_fallback t || (s_telemetryStaleTicks (a_settings a) <=? staleObserved) in
    (if fallback then TelemetryStaleFallback else TelemetryHealthy,
     set_telemetry {| te_fallback := fallback; te_armed := armed; te_staleObserved := staleObserved;
                      te_recoverySeen := 0 |} a)
  else if negb (te_fallback t) then
    (TelemetryHealthy,
     set_telemetry {| te_fallback := false; te_armed := armed; te_staleObserved := 0;
                      te_recoverySeen := 0 |} a)
  else
    let recoverySeen := te_recoverySeen t ⊕ 1 in
    let recovered := s_telemetryRecoveryTicks (a_settings a) <=? recoverySeen in
    (TelemetryRecoveryHold,
     set_telemetry {| te_fallback := negb recovered; te_armed := armed; te_staleObserved := 0;
                      te_recoverySeen := if recovered then 0 else recoverySeen |} a).

(** ** Diagnostics *)

Record autoTuneDiagnostics := {
  dg_LagSequence : Z; dg_QueueDepth : Z; dg_QueueCapacity : Z;
  dg_TelemetryState : string; dg_OverrideState : string; dg_Signal : string; dg_Decision : string;
  dg_BatchBefore : Z; dg_BatchAfter : Z; dg_Streak : Z; dg_Cooldown : Z;
  dg_TelemetryStaleTicks : Z; dg_TelemetryRecoveryTicks : Z; dg_OverrideReleaseTicks : Z;
  dg_PolicyVersion : string; dg_PolicyManifestDigest : string; dg_PolicyEpoch : Z;
  dg_PolicyActivationTicks : Z;
  dg_DecisionInputsHash : string; dg_LocalInputsDigest : string;
  dg_DecisionInputsChainScoped : bool; dg_DecisionScope : string;
  dg_CrossChainReads : bool; dg_CrossChainWrites : bool;
  dg_ChangedPeerCursor : Z; dg_ChangedPeerWatermark : Z; dg_CrossChainControlDelta : Z;
  dg_DecisionOutputs : string; dg_DecisionEpochMs : Z; dg_DecisionSequence : Z
}.

Definition makeDigest (parts : list string) : string := Sha256.sha256_hex (String.concat "|" parts).

Definition formatBool (value : bool) : string := if value then "1" else "0".
Definition format_t (value : bool) : string := if value then "true" else "false".

Definition decisionInputsDigest (inputs : autoTuneInputs) : string :=
  makeDigest ["v1"; in_Chain inputs; in_Network inputs;
    formatBool (in_HasHeadSignal inputs); show_Z (in_HeadSequence inputs);
    formatBool (in_HasMinCursorSignal inputs); show_Z (in_MinCursorSequence inputs);
    show_Z (in_QueueDepth inputs); show_Z (in_QueueCapacity inputs);
    show_Z (in_RPCErrorRateBps inputs); show_Z (in_DBCommitLatencyP95Ms inputs)].

Definition decisionOutputsString (before after : Z) (decision : string) (streak cooldown : Z) : string :=
  "decision=" +:+ decision +:+ " batch_before=" +:+ show_Z before +:+ " batch_after=" +:+ show_Z after +:+
  " streak=" +:+ show_Z streak +:+ " cooldown=" +:+ show_Z cooldown.

Definition hashContextString (i : autoTuneInputs) : string :=
  String.concat "|" [in_Chain i; in_Network i; format_t (in_HasHeadSignal i); show_Z (in_HeadSequence i);
    format_t (in_HasMinCursorSignal i); show_Z (in_MinCursorSequence i); show_Z (in_QueueDepth i);
    show_Z (in_QueueCapacity i); show_Z (in_RPCErrorRateBps i); show_Z (in_DBCommitLatencyP95Ms i)].

Definition decisionInputsHash (inputs : autoTuneInputs) (outputs : string) : string :=
  makeDigest [show_Z (in_DecisionEpochMs inputs); hashContextString inputs; outputs; "this-chain-only"].

Definition nextDecisionSequence (a : autoTuneController) : Z * autoTuneController :=
  let n := a_decisionSequence a ⊕ 1 in (n, set_decisionSequence n a).

(** The literal of each branch of [Resolve], and [enrichDecisionDiagnostics]. *)
Definition report (a : autoTuneController) (inputs : autoTuneInputs) (lagSequence : Z)
    (telemetryState : autoTuneTelemetryState) (overrideState : autoTuneOverrideState)
    (signal : autoTuneSignal) (decision : string) (before releaseTicks activationTicks : Z)
    : autoTuneDiagnostics * autoTuneController :=
  let streak := ad_streak (a_adaptive a) in
  let cooldown := ad_cooldownLeft (a_adaptive a) in
  let outputs := decisionOutputsString before (a_currentBatch a) decision streak cooldown in
  let '(seq, a') := nextDecisionSequence a in
  ({| dg_LagSequence := lagSequence; dg_QueueDepth := in_QueueDepth inputs;
      dg_QueueCapacity := in_QueueCapacity inputs; dg_TelemetryState := telemetry_string telemetryState;
      dg_OverrideState := override_string overrideState; dg_Signal := signal_string signal;
      dg_Decision := decision; dg_BatchBefore := before; dg_BatchAfter := a_currentBatch a;
      dg_Streak := streak; dg_Cooldown := cooldown;
      dg_TelemetryStaleTicks := te_staleObserved (a_telemetry a);
      dg_TelemetryRecoveryTicks := te_recoverySeen (a_telemetry a);
      dg_OverrideReleaseTicks := releaseTicks; dg_PolicyVersion := s_policyVersion (a_settings a);
      dg_PolicyManifestDigest := po_manifestDigest (a_policy a); dg_PolicyEpoch := po_epoch (a_policy a);
      dg_PolicyActivationTicks := activationTicks;
      dg_DecisionInputsHash := decisionInputsHash inputs outputs;
      dg_LocalInputsDigest := decisionInputsDigest inputs; dg_DecisionInputsChainScoped := true;
      dg_DecisionScope := "this-chain-only"; dg_CrossChainReads := false; dg_CrossChainWrites := false;
      dg_ChangedPeerCursor := 0; dg_ChangedPeerWatermark := 0; dg_CrossChainControlDelta := 0;
      dg_DecisionOutputs := outputs; dg_DecisionEpochMs := in_DecisionEpochMs inputs;
      dg_DecisionSequence := seq |}, a').

(** ** [Resolve] *)

Definition lag_of (inputs : autoTuneInputs) : Z :=
  if in_HasHeadSignal inputs && in_HasMinCursorSignal inputs
  then nonneg (in_HeadSequence inputs ⊖ in_MinCursorSequence inputs) else 0.

(** [a.streak++] on the same signal, a new streak on another. *)
Definition bump_streak (signal : autoTuneSignal) (d : adaptive) : adaptive :=
  {| ad_lastSignal := signal; ad_lastApplied := ad_lastApplied d;
     ad_saturationSignal := ad_saturationSignal d;
     ad_streak := if decide (ad_lastSignal d = signal) then ad_streak d ⊕ 1 else 1;
     ad_cooldownLeft := ad_cooldownLeft d |}.

Definition with_saturation (s : autoTuneSignal) (d : adaptive) : adaptive :=
  {| ad_lastSignal := ad_lastSignal d; ad_lastApplied := ad_lastApplied d; ad_saturationSignal := s;
     ad_streak := ad_streak d; ad_cooldownLeft := ad_cooldownLeft d |}.
Definition with_streak (n : Z) (d : adaptive) : adaptive :=
  {| ad_lastSignal := ad_lastSignal d; ad_lastApplied := ad_lastApplied d;
     ad_saturationSignal := ad_saturationSignal d; ad_streak := n; ad_cooldownLeft := ad_cooldownLeft d |}.
Definition with_applied (s : autoTuneSignal) (cooldown : Z) (d : adaptive) : adaptive :=
  {| ad_lastSignal := ad_lastSignal d; ad_lastApplied := s;
     ad_saturationSignal := ad_saturationSignal d; ad_streak := ad_streak d; ad_cooldownLeft := cooldown |}.
Definition tick_cooldown (d : adaptive) : adaptive :=
  {| ad_lastSignal := ad_lastSignal d; ad_lastApplied := ad_lastApplied d;
     ad_saturationSignal := ad_saturationSignal d; ad_streak := ad_streak d;
     ad_cooldownLeft := if 0 <? ad_cooldownLeft d then ad_cooldownLeft d - 1 else ad_cooldownLeft d |}.

(** The batch size a signal asks for. *)
Definition next_batch (a : autoTuneController) (signal : autoTuneSignal) : Z :=
  match signal with
  | SignalIncrease =>
      clampInt (a_currentBatch a ⊕ s_stepUp (a_settings a)) (min_batch a) (max_batch a)
  | SignalDecrease =>
      clampInt (a_currentBatch a ⊖ s_stepDown (a_settings a)) (min_batch a) (max_batch a)
  | SignalHold => a_currentBatch a
  end.

Definition batch_moves (a : autoTuneController) (signal : autoTuneSignal) : bool :=
  match signal with
  | SignalIncrease => a_currentBatch a <? next_batch a signal
  | SignalDecrease => next_batch a signal <? a_currentBatch a
  | SignalHold => false
  end.

(** The streak reached [hysteresisTicks]: the decision, whether control was
    applied, and the controller. *)
Definition apply_signal (a : autoTuneController) (signal : autoTuneSignal)
    : string * bool * autoTuneController :=
  let changed := batch_moves a signal in
  let decision :=
    match signal with
    | SignalIncrease => if changed then "apply_increase" else "clamped_increase"
    | SignalDecrease => if changed then "apply_decrease" else "clamped_decrease"
    | SignalHold => "hold"
    end in
  let a1 := set_currentBatch (next_batch a signal) a in
  let d := with_streak 0 (a_adaptive a1) in
  if changed then
    let d := with_applied signal (s_cooldownTicks (a_settings a)) d in
    (decision, true,
     set_adaptive (with_saturation (if isSaturatedBoundary a1 signal then signal else SignalHold) d) a1)
  else (decision, false, set_adaptive (with_saturation signal d) a1).

(** The [switch] of a signal the cooldown does not block. *)
Definition drive_signal (a : autoTuneController) (signal : autoTuneSignal)
    : string * bool * autoTuneController :=
  match signal with
  | SignalHold =>
      let d := a_adaptive a in
      ("hold", false,
       set_adaptive {| ad_lastSignal := SignalHold; ad_lastApplied := ad_lastApplied d;
                       ad_saturationSignal := SignalHold; ad_streak := 0;
                       ad_cooldownLeft := ad_cooldownLeft d |} a)
  | _ =>
      let a := set_adaptive (bump_streak signal (a_adaptive a)) a in
      if bool_decide (ad_saturationSignal (a_adaptive a) = signal) && isSaturatedBoundary a signal
      then (clampedDecisionForSignal signal, false, set_adaptive (with_streak 0 (a_adaptive a)) a)
      else if s_hysteresisTicks (a_settings a) <=? ad_streak (a_adaptive a)
      then apply_signal a signal
      else ("defer_hysteresis", false, a)
  end.

Definition blocked_by_cooldown (a : autoTuneController) (signal : autoTuneSignal) (inputs : autoTuneInputs)
    : bool :=
  (0 <? ad_cooldownLeft (a_adaptive a)) &&
  isOppositeSignal signal (ad_lastApplied (a_adaptive a)) &&
  negb (isCriticalChainScopedSignal signal inputs).

(** The part of [Resolve] that no override or policy hold preempts. *)
Definition resolve_auto (a : autoTuneController) (inputs : autoTuneInputs) (lagSequence : Z)
    (telemetryState : autoTuneTelemetryState) : autoTuneSignal * string * autoTuneController :=
  let signal :=
    match telemetryState with
    | TelemetryHealthy => classifySignal a inputs lagSequence
    | _ => SignalHold
    end in
  let blocked := blocked_by_cooldown a signal inputs in
  let a :=
    if negb (bool_decide (signal = ad_saturationSignal (a_adaptive a))) || negb (isSaturatedBoundary a signal)
    then set_adaptive (with_saturation SignalHold (a_adaptive a)) a else a in
  let '(decision, appliedControl, a) :=
    if blocked then ("defer_cooldown", false, set_adaptive (bump_streak signal (a_adaptive a)) a)
    else drive_signal a signal in
  let a := if appliedControl then a else set_adaptive (tick_cooldown (a_adaptive a)) a in
  let decision :=
    if String.eqb decision "hold" then
      match telemetryState with
      | TelemetryStaleFallback => "hold_telemetry_stale"
      | TelemetryRecoveryHold => "hold_telemetry_recovery"
      | TelemetryHealthy => decision
      end
    else decision in
  (signal, decision, a).

Definition Resolve (a : autoTuneController) (inputs : autoTuneInputs)
    : Z * autoTuneDiagnostics * autoTuneController :=
  let '(telemetryState, a) := resolveTelemetryState a inputs in
  let lagSequence := lag_of inputs in
  let overrideState := resolveOverrideState a in
  let before := a_currentBatch a in
  let finish a signal decision releaseTicks activationTicks :=
    let '(d, a') := report a inputs lagSequence telemetryState overrideState signal decision before
                      releaseTicks activationTicks in
    (a_currentBatch a', d, a') in
  match overrideState with
  | OverrideManualHold =>
      let a := set_currentBatch
                 (clampInt (s_operatorOverrideBatch (a_settings a)) (min_batch a) (max_batch a)) a in
      let a := resetAdaptiveControlState a in
      finish a SignalHold "hold_operator_override" (a_overrideReleaseLeft a)
        (po_activationLeft (a_policy a))
  | OverrideReleaseHold =>
      let remainingBefore := a_overrideReleaseLeft a in
      let a := resetAdaptiveControlState a in
      let a := set_overrideReleaseLeft (remainingBefore - 1) a in
      finish a SignalHold "hold_operator_release" remainingBefore (po_activationLeft (a_policy a))
  | OverrideAuto =>
      if 0 <? po_activationLeft (a_policy a) then
        let remainingBefore := po_activationLeft (a_policy a) in
        let a := resetAdaptiveControlState a in
        let p := a_policy a in
        let a := set_policy {| po_manifestDigest := po_manifestDigest p; po_epoch := po_epoch p;
                               po_activationLeft := remainingBefore - 1 |} a in
        finish a SignalHold "hold_policy_transition" (a_overrideReleaseLeft a) remainingBefore
      else
        let '(signal, decision, a) := resolve_auto a inputs lagSequence telemetryState in
        finish a signal decision (a_overrideReleaseLeft a) (po_activationLeft (a_policy a))
  end.

(** ** Override transitions *)

Definition exportOverrideTransition (a : autoTuneController) : autoTuneOverrideTransition :=
  {| ot_WasManualOverride := 0 <? s_operatorOverrideBatch (a_settings a);
     ot_ReleaseHoldRemaining := a_overrideReleaseLeft a |}.

Definition exportPolicyTransition (a : autoTuneController) : autoTunePolicyTransition :=
  {| pt_HasState := true; pt_Version := s_policyVersion (a_settings a);
     pt_ManifestDigest := po_manifestDigest (a_policy a); pt_Epoch := po_epoch (a_policy a);
     pt_ActivationHoldRemaining := po_activationLeft (a_policy a); pt_FromWarmCheckpoint := false |}.

Definition reconcileOverrideTransition (a : autoTuneController) (transition : autoTuneOverrideTransition)
    : autoTuneController :=
  let s := a_settings a in
  if 0 <? s_operatorOverrideBatch s then
    resetAdaptiveControlState (set_overrideReleaseLeft 0
      (set_currentBatch (clampInt (s_operatorOverrideBatch s) (min_batch a) (max_batch a)) a))
  else if 0 <? ot_ReleaseHoldRemaining transition then
    resetAdaptiveControlState (set_overrideReleaseLeft (ot_ReleaseHoldRemaining transition) a)
  else if ot_WasManualOverride transition && (0 <? s_operatorReleaseHold s) then
    resetAdaptiveControlState (set_overrideReleaseLeft (s_operatorReleaseHold s) a)
  else a.
