(* ===== verification/PolicyLineage.v ===== *)
(** * Policy lineage: [autotune/policy_lineage.go] and [rollback_fence*.go]

    Which manifest and epoch a restarted controller adopts when the checkpoint it
    restores and its own configuration disagree.  A manifest digest is a list of
    tokens separated by vertical bars; tokens carry snapshot and rollback
    sequences and the epochs of the rollback fence. *)

From Stdlib Require Import ZArith String Ascii Lia.
From stdpp Require Import base option list strings.
From S2P Require Import Prelude AutoTune.

Open Scope Z_scope.
Open Scope go_scope.

(** ** Tokens *)

Definition bar : ascii := ascii_of_N 124.
Definition equals_sign : ascii := ascii_of_N 61.

(** The trimmed tokens of [strings.Split(digest, bar)]. *)
Definition tokens (digest : string) : list string := trim_space <$> split_on bar digest.

(** [strings.TrimSpace(strings.TrimPrefix(token, key))] of the last token with
    the prefix, which the loops that assign keep; empty if there is none.  The
    keys of one loop are never prefixes of each other. *)
Definition last_value (key digest : string) : string :=
  foldl (fun acc token => if has_prefix token key then trim_space (trim_prefix token key) else acc)
    EmptyString (tokens digest).

(** [strconv.ParseInt] with [err == nil] and a value that is not negative. *)
Definition parse_nonneg (value : string) : option Z :=
  match parse_int64 value with
  | Some n => if n <? 0 then None else Some n
  | None => None
  end.

Definition parseRollbackLineage (digest : string) : option (Z * Z * Z) :=
  let fromValue := last_value "rollback-from-seq=" digest in
  let toValue := last_value "rollback-to-seq=" digest in
  let forwardValue := last_value "rollback-forward-seq=" digest in
  if str_empty fromValue || str_empty toValue || str_empty forwardValue then None
  else match parse_nonneg fromValue, parse_nonneg toValue, parse_nonneg forwardValue with
       | Some fromSeq, Some toSeq, Some forwardSeq => Some (fromSeq, toSeq, forwardSeq)
       | _, _, _ => None
       end.

Definition parseSnapshotCutoverLineage (digest : string) : option (Z * Z) :=
  let baseValue := last_value "snapshot-base-seq=" digest in
  let tailValue := last_value "snapshot-tail-seq=" digest in
  if str_empty baseValue || str_empty tailValue then None
  else match parse_nonneg baseValue, parse_nonneg tailValue with
       | Some baseSeq, Some tailSeq => Some (baseSeq, tailSeq)
       | _, _ => None
       end.

(** [parseSingleKey]: the first token with the prefix decides. *)
Fixpoint single_key (key : string) (ts : list string) : option Z :=
  match ts with
  | [] => None
  | token :: ts' =>
      if has_prefix token key then
        let value := trim_space (trim_prefix token key) in
        if str_empty value then None else parse_nonneg value
      else single_key key ts'
  end.

Definition parseSingleKey (digest keyPrefix : string) : option Z := single_key keyPrefix (tokens digest).

Definition parseRollbackFenceTombstoneExpiryEpoch (digest : string) : option Z :=
  parseSingleKey digest "rollback-fence-tombstone-expiry-epoch=".
Definition parseRollbackFenceLateMarkerHoldEpoch (digest : string) : option Z :=
  parseSingleKey digest "rollback-fence-late-marker-hold-epoch=".
Definition parseRollbackFenceLateMarkerReleaseEpoch (digest : string) : option Z :=
  parseSingleKey digest "rollback-fence-late-marker-release-epoch=".

(** ** Rollback lineage and snapshot cutover *)

Definition isDeterministicSnapshotCutover (previousEpoch incomingEpoch : Z) (incomingDigest : string) : bool :=
  if incomingEpoch <=? previousEpoch ⊕ 1 then false
  else match parseSnapshotCutoverLineage incomingDigest with
       | None => false
       | Some (baseSeq, tailSeq) =>
           (baseSeq =? previousEpoch) && (tailSeq =? incomingEpoch) && (baseSeq <? tailSeq)
       end.

Definition isDeterministicRollbackLineage (previousEpoch incomingEpoch : Z) (incomingDigest : string) : bool :=
  if previousEpoch <=? incomingEpoch then false
  else match parseRollbackLineage incomingDigest with
       | None => false
       | Some (fromSeq, toSeq, forwardSeq) =>
           (fromSeq =? previousEpoch) && (toSeq =? incomingEpoch) && (toSeq <? fromSeq) &&
           (fromSeq <=? forwardSeq)
       end.

(** ** The rollback fence *)

Definition isRollbackFenceTransition (epoch : Z) (digest : string) : bool :=
  if epoch <? 0 then false
  else match parseRollbackLineage (normalizePolicyManifestDigest digest) with
       | None => false
       | Some (fromSeq, toSeq, _) => (toSeq =? epoch) && (toSeq <? fromSeq)
       end.

Definition validateRollbackLineage (epoch : Z) (normalized : string) : bool :=
  match parseRollbackLineage normalized with
  | None => false
  | Some (fromSeq, toSeq, forwardSeq) =>
      (toSeq =? epoch) && (toSeq <? fromSeq) && (fromSeq <=? forwardSeq)
  end.

Definition validateLineagePair (epoch : Z) (sourceNormalized targetNormalized : string) : bool :=
  match parseRollbackLineage sourceNormalized, parseRollbackLineage targetNormalized with
  | Some (sFrom, sTo, sForward), Some (tFrom, tTo, tForward) =>
      (sFrom =? tFrom) && (sTo =? tTo) && (sForward =? tForward) &&
      (sTo =? epoch) && (tTo =? epoch) && (sTo <? sFrom) && (tTo <? tFrom) &&
      (sFrom <=? sForward) && (tFrom <=? tForward)
  | _, _ => false
  end.

Definition hasRollbackFenceEpochCompactionTombstone (digest : string) : bool :=
  existsb (fun token =>
    String.eqb token "rollback-fence-tombstone" ||
    (has_prefix token "rollback-fence-tombstone=" &&
     str_in (trim_space (trim_prefix token "rollback-fence-tombstone=")) ["1"; "true"; "yes"; "on"]))
    (tokens digest).

Definition isRollbackFenceEpochCompactionDigest (epoch : Z) (digest : string) : bool :=
  if epoch <? 0 then false
  else
    let normalized := normalizePolicyManifestDigest digest in
    hasRollbackFenceEpochCompactionTombstone normalized && validateRollbackLineage epoch normalized.

Definition isDeterministicRollbackFenceEpochCompactionTransition (epoch : Z)
    (sourceDigest targetDigest : string) : bool :=
  if epoch <? 0 then false
  else
    let source := normalizePolicyManifestDigest sourceDigest in
    let target := normalizePolicyManifestDigest targetDigest in
    hasRollbackFenceEpochCompactionTombstone target && validateLineagePair epoch source target.

Definition present (o : option Z) : bool := match o with Some _ => true | None => false end.

Definition isRollbackFenceTombstoneExpiryDigest (epoch : Z) (digest : string) : bool :=
  if epoch <? 0 then false
  else
    let normalized := normalizePolicyManifestDigest digest in
    if hasRollbackFenceEpochCompactionTombstone normalized then false
    else if present (parseRollbackFenceLateMarkerHoldEpoch normalized) then false
    else if present (parseRollbackFenceLateMarkerReleaseEpoch normalized) then false
    else match parseRollbackFenceTombstoneExpiryEpoch normalized with
         | None => false
         | Some expiryEpoch => validateRollbackLineage epoch normalized && (epoch <? expiryEpoch)
         end.

Definition isRollbackFencePostExpiryLateMarkerQuarantineDigest (epoch : Z) (digest : string) : bool :=
  if epoch <? 0 then false
  else
    let normalized := normalizePolicyManifestDigest digest in
    if hasRollbackFenceEpochCompactionTombstone normalized then false
    else if present (parseRollbackFenceLateMarkerReleaseEpoch normalized) then false
    else match parseRollbackFenceTombstoneExpiryEpoch normalized,
               parseRollbackFenceLateMarkerHoldEpoch normalized with
         | Some expiryEpoch, Some holdEpoch =>
             validateRollbackLineage epoch normalized && (epoch <? expiryEpoch) && (expiryEpoch <? holdEpoch)
         | _, _ => false
         end.

Definition isRollbackFencePostExpiryLateMarkerReleaseDigest (epoch : Z) (digest : string) : bool :=
  if epoch <? 0 then false
  else
    let normalized := normalizePolicyManifestDigest digest in
    if hasRollbackFenceEpochCompactionTombstone normalized then false
    else match parseRollbackFenceTombstoneExpiryEpoch normalized,
               parseRollbackFenceLateMarkerHoldEpoch normalized,
               parseRollbackFenceLateMarkerReleaseEpoch normalized with
         | Some expiryEpoch, Some holdEpoch, Some releaseEpoch =>
             validateRollbackLineage epoch normalized && (epoch <? expiryEpoch) &&
             (expiryEpoch <? holdEpoch) && (holdEpoch <? releaseEpoch)
         | _, _, _ => false
         end.

(** Both present and equal. *)
Definition same_epoch (o o' : option Z) : bool :=
  match o, o' with Some x, Some y => x =? y | _, _ => false end.

Definition isDeterministicRollbackFenceTombstoneExpiryTransition (epoch : Z)
    (sourceDigest targetDigest : string) : bool :=
  if epoch <? 0 then false
  else
    let source := normalizePolicyManifestDigest sourceDigest in
    let target := normalizePolicyManifestDigest targetDigest in
    isRollbackFenceEpochCompactionDigest epoch source &&
    isRollbackFenceTombstoneExpiryDigest epoch target && validateLineagePair epoch source target.

Definition isDeterministicRollbackFencePostExpiryLateMarkerQuarantineTransition (epoch : Z)
    (sourceDigest targetDigest : string) : bool :=
  if epoch <? 0 then false
  else
    let source := normalizePolicyManifestDigest sourceDigest in
    let target := normalizePolicyManifestDigest targetDigest in
    isRollbackFenceTombstoneExpiryDigest epoch source &&
    isRollbackFencePostExpiryLateMarkerQuarantineDigest epoch target &&
    validateLineagePair epoch source target &&
    same_epoch (parseRollbackFenceTombstoneExpiryEpoch source) (parseRollbackFenceTombstoneExpiryEpoch target).

Definition isDeterministicRollbackFencePostExpiryLateMarkerReleaseTransition (epoch : Z)
    (sourceDigest targetDigest : string) : bool :=
  if epoch <? 0 then false
  else
    let source := normalizePolicyManifestDigest sourceDigest in
    let target := normalizePolicyManifestDigest targetDigest in
    isRollbackFencePostExpiryLateMarkerQuarantineDigest epoch source &&
    isRollbackFencePostExpiryLateMarkerReleaseDigest epoch target &&
    validateLineagePair epoch source target &&
    same_epoch (parseRollbackFenceTombstoneExpiryEpoch source) (parseRollbackFenceTombstoneExpiryEpoch target) &&
    same_epoch (parseRollbackFenceLateMarkerHoldEpoch source) (parseRollbackFenceLateMarkerHoldEpoch target) &&
    match parseRollbackFenceLateMarkerReleaseEpoch target, parseRollbackFenceLateMarkerHoldEpoch target with
    | Some releaseEpoch, Some holdEpoch => holdEpoch <? releaseEpoch
    | _, _ => false
    end.

Definition isRollbackFenceDigestAnchoredToEpoch (epoch : Z) (digest : string) : bool :=
  if epoch <? 0 then false else validateRollbackLineage epoch (normalizePolicyManifestDigest digest).

Definition isDeterministicRollbackFencePostReleaseWindowEpochRolloverStaleTransition
    (previousEpoch incomingEpoch : Z) (previousDigest incomingDigest : string) : bool :=
  if previousEpoch <? 0 then false
  else if negb (incomingEpoch =? previousEpoch ⊕ 1) then false
  else isRollbackFencePostExpiryLateMarkerReleaseDigest previousEpoch
         (normalizePolicyManifestDigest previousDigest) &&
       isRollbackFenceDigestAnchoredToEpoch previousEpoch incomingDigest.

(** ** Epoch markers: [rollback_fence_markers.go] *)

Record epochMarkerDef := { em_name : string; em_keys : list string }.

Definition epochMarkers : list epochMarkerDef := [
  {| em_name := "seal-drift"; em_keys := [
      "rollback-fence-seal-drift-epoch=";
      "rollback-fence-steady-seal-drift-epoch=";
      "rollback-fence-post-steady-seal-drift-epoch="] |};
  {| em_name := "drift-reanchor"; em_keys := [
      "rollback-fence-drift-reanchor-epoch=";
      "rollback-fence-post-drift-reanchor-epoch=";
      "rollback-fence-post-steady-drift-reanchor-epoch="] |};
  {| em_name := "reanchor-compaction"; em_keys := [
      "rollback-fence-reanchor-compaction-epoch=";
      "rollback-fence-post-reanchor-compaction-epoch=";
      "rollback-fence-post-drift-reanchor-compaction-epoch="] |};
  {| em_name := "compaction-expiry"; em_keys := [
      "rollback-fence-compaction-expiry-epoch=";
      "rollback-fence-lineage-compaction-expiry-epoch=";
      "rollback-fence-post-lineage-compaction-expiry-epoch="] |};
  {| em_name := "resurrection-quarantine"; em_keys := [
      "rollback-fence-resurrection-quarantine-epoch=";
      "rollback-fence-late-resurrection-quarantine-epoch=";
      "rollback-fence-post-expiry-late-resurrection-quarantine-epoch=";
      "rollback-fence-post-marker-expiry-late-resurrection-quarantine-epoch="] |};
  {| em_name := "resurrection-reintegration"; em_keys := [
      "rollback-fence-resurrection-reintegration-epoch=";
      "rollback-fence-late-resurrection-reintegration-epoch=";
      "rollback-fence-post-late-resurrection-quarantine-reintegration-epoch=";
      "rollback-fence-post-marker-expiry-late-resurrection-reintegration-epoch="] |};
  {| em_name := "resurrection-reintegration-seal"; em_keys := [
      "rollback-fence-resurrection-reintegration-seal-epoch=";
      "rollback-fence-late-resurrection-reintegration-seal-epoch=";
      "rollback-fence-post-late-resurrection-reintegration-seal-epoch=";
      "rollback-fence-post-marker-expiry-late-resurrection-reintegration-seal-epoch=";
      "rollback-fence-post-reintegration-seal-epoch="] |};
  {| em_name := "resurrection-reintegration-seal-drift"; em_keys := [
      "rollback-fence-resurrection-reintegration-seal-drift-epoch=";
      "rollback-fence-late-resurrection-reintegration-seal-drift-epoch=";
      "rollback-fence-post-late-resurrection-reintegration-seal-drift-epoch=";
      "rollback-fence-post-marker-expiry-late-resurrection-reintegration-seal-drift-epoch=";
      "rollback-fence-post-reintegration-seal-drift-epoch="] |};
  {| em_name := "resurrection-reintegration-seal-drift-reanchor"; em_keys := [
      "rollback-fence-resurrection-reintegration-seal-drift-reanchor-epoch=";
      "rollback-fence-late-resurrection-reintegration-seal-drift-reanchor-epoch=";
      "rollback-fence-post-late-resurrection-reintegration-seal-drift-reanchor-epoch=";
      "rollback-fence-post-marker-expiry-late-resurrection-reintegration-seal-drift-reanchor-epoch=";
      "rollback-fence-post-reintegration-seal-drift-reanchor-epoch="] |};
  {| em_name := "resurrection-reintegration-seal-drift-reanchor-compaction"; em_keys := [
      "rollback-fence-resurrection-reintegration-seal-drift-reanchor-compaction-epoch=";
      "rollback-fence-late-resurrection-reintegration-seal-drift-reanchor-compaction-epoch=";
      "rollback-fence-post-late-resurrection-reintegration-seal-drift-reanchor-compaction-epoch=";
      "rollback-fence-post-marker-expiry-late-resurrection-reintegration-seal-drift-reanchor-compaction-epoch=";
      "rollback-fence-post-reintegration-seal-drift-reanchor-compaction-epoch="] |};
  {| em_name := "resurrection-reintegration-seal-drift-reanchor-compaction-expiry"; em_keys := [
      "rollback-fence-resurrection-reintegration-seal-drift-reanchor-compaction-expiry-epoch=";
      "rollback-fence-late-resurrection-reintegration-seal-drift-reanchor-compaction-expiry-epoch=";
      "rollback-fence-post-late-resurrection-reintegration-seal-drift-reanchor-compaction-expiry-epoch=";
      "rollback-fence-post-marker-expiry-late-resurrection-reintegration-seal-drift-reanchor-compaction-expiry-epoch=";
      "rollback-fence-post-reintegration-seal-drift-reanchor-compaction-expiry-epoch="] |};
  {| em_name := "resurrection-reintegration-seal-drift-reanchor-compaction-expiry-quarantine"; em_keys := [
      "rollback-fence-resurrection-reintegration-seal-drift-reanchor-compaction-expiry-quarantine-epoch=";
      "rollback-fence-late-resurrection-reintegration-seal-drift-reanchor-compaction-expiry-quarantine-epoch=";
      "rollback-fence-post-late-resurrection-reintegration-seal-drift-reanchor-compaction-expiry-quarantine-epoch=";
      "rollback-fence-post-marker-expiry-late-resurrection-reintegration-seal-drift-reanchor-compaction-expiry-quarantine-epoch=";
      "rollback-fence-post-reintegration-seal-drift-reanchor-compaction-expiry-quarantine-epoch="] |};
  {| em_name := "resurrection-reintegration-seal-drift-reanchor-compaction-expiry-quarantine-reintegration"; em_keys := [
      "rollback-fence-resurrection-reintegration-seal-drift-reanchor-compaction-expiry-quarantine-reintegration-epoch=";
      "rollback-fence-late-resurrection-reintegration-seal-drift-reanchor-compaction-expiry-quarantine-reintegration-epoch=";
      "rollback-fence-post-late-resurrection-reintegration-seal-drift-reanchor-compaction-expiry-quarantine-reintegration-epoch=";
      "rollback-fence-post-marker-expiry-late-resurrection-reintegration-seal-drift-reanchor-compaction-expiry-quarantine-reintegration-epoch=";
      "rollback-fence-post-reintegration-seal-drift-reanchor-compaction-expiry-quarantine-reintegration-epoch="] |};
  {| em_name := "resurrection-reintegration-seal-drift-reanchor-compaction-expiry-quarantine-reintegration-seal"; em_keys := [
      "rollback-fence-resurrection-reintegration-seal-drift-reanchor-compaction-expiry-quarantine-reintegration-seal-epoch=";
      "rollback-fence-late-resurrection-reintegration-seal-drift-reanchor-compaction-expiry-quarantine-reintegration-seal-epoch=";
      "rollback-fence-post-late-resurrection-reintegration-seal-drift-reanchor-compaction-expiry-quarantine-reintegration-seal-epoch=";
      "rollback-fence-post-marker-expiry-late-resurrection-reintegration-seal-drift-reanchor-compaction-expiry-quarantine-reintegration-seal-epoch=";
      "rollback-fence-post-reintegration-seal-drift-reanchor-compaction-expiry-quarantine-reintegration-seal-epoch="] |};
  {| em_name := "resurrection-reintegration-seal-drift-reanchor-compaction-expiry-quarantine-reintegration-seal-drift"; em_keys := [
      "rollback-fence-resurrection-reintegration-seal-drift-reanchor-compaction-expiry-quarantine-reintegration-seal-drift-epoch=";
      "rollback-fence-late-resurrection-reintegration-seal-drift-reanchor-compaction-expiry-quarantine-reintegration-seal-drift-epoch=";
      "rollback-fence-post-late-resurrection-reintegration-seal-drift-reanchor-compaction-expiry-quarantine-reintegration-seal-drift-epoch=";
      "rollback-fence-post-marker-expiry-late-resurrection-reintegration-seal-drift-reanchor-compaction-expiry-quarantine-reintegration-seal-drift-epoch=";
      "rollback-fence-post-reintegration-seal-drift-reanchor-compaction-expiry-quarantine-reintegration-seal-drift-epoch="] |};
  {| em_name := "resurrection-reintegration-seal-drift-reanchor-compaction-expiry-quarantine-reintegration-seal-drift-reanchor"; em_keys := [
      "rollback-fence-resurrection-reintegration-seal-drift-reanchor-compaction-expiry-quarantine-reintegration-seal-drift-reanchor-epoch=";
      "rollback-fence-late-resurrection-reintegration-seal-drift-reanchor-compaction-expiry-quarantine-reintegration-seal-drift-reanchor-epoch=";
      "rollback-fence-post-late-resurrection-reintegration-seal-drift-reanchor-compaction-expiry-quarantine-reintegration-seal-drift-reanchor-epoch=";
      "rollback-fence-post-marker-expiry-late-resurrection-reintegration-seal-drift-reanchor-compaction-expiry-quarantine-reintegration-seal-drift-reanchor-epoch=";
      "rollback-fence-post-reintegration-seal-drift-reanchor-compaction-expiry-quarantine-reintegration-seal-drift-reanchor-epoch="] |};
  {| em_name := "resurrection-reintegration-seal-drift-reanchor-compaction-expiry-quarantine-reintegration-seal-drift-reanchor-compaction"; em_keys := [
      "rollback-fence-resurrection-reintegration-seal-drift-reanchor-compaction-expiry-quarantine-reintegration-seal-drift-reanchor-compaction-epoch=";
      "rollback-fence-late-resurrection-reintegration-seal-drift-reanchor-compaction-expiry-quarantine-reintegration-seal-drift-reanchor-compaction-epoch=";
      "rollback-fence-post-late-resurrection-reintegration-seal-drift-reanchor-compaction-expiry-quarantine-reintegration-seal-drift-reanchor-compaction-epoch=";
      "rollback-fence-post-marker-expiry-late-resurrection-reintegration-seal-drift-reanchor-compaction-expiry-quarantine-reintegration-seal-drift-reanchor-compaction-epoch=";
      "rollback-fence-post-reintegration-seal-drift-reanchor-compaction-expiry-quarantine-reintegration-seal-drift-reanchor-compaction-epoch="] |};
  {| em_name := "resurrection-reintegration-seal-drift-reanchor-compaction-expiry-quarantine-reintegration-seal-drift-reanchor-compaction-expiry"; em_keys := [
      "rollback-fence-resurrection-reintegration-seal-drift-reanchor-compaction-expiry-quarantine-reintegration-seal-drift-reanchor-compaction-expiry-epoch=";
      "rollback-fence-late-resurrection-reintegration-seal-drift-reanchor-compaction-expiry-quarantine-reintegration-seal-drift-reanchor-compaction-expiry-epoch=";
      "rollback-fence-post-late-resurrection-reintegration-seal-drift-reanchor-compaction-expiry-quarantine-reintegration-seal-drift-reanchor-compaction-expiry-epoch=";
      "rollback-fence-post-marker-expiry-late-resurrection-reintegration-seal-drift-reanchor-compaction-expiry-quarantine-reintegration-seal-drift-reanchor-compaction-expiry-epoch=";
      "rollback-fence-post-reintegration-seal-drift-reanchor-compaction-expiry-quarantine-reintegration-seal-drift-reanchor-compaction-expiry-epoch="] |};
  {| em_name := "resurrection-reintegration-seal-drift-reanchor-compaction-expiry-quarantine-reintegration-seal-drift-reanchor-compaction-expiry-quarantine"; em_keys := [
      "rollback-fence-resurrection-reintegration-seal-drift-reanchor-compaction-expiry-quarantine-reintegration-seal-drift-reanchor-compaction-expiry-quarantine-epoch=";
      "rollback-fence-late-resurrection-reintegration-seal-drift-reanchor-compaction-expiry-quarantine-reintegration-seal-drift-reanchor-compaction-expiry-quarantine-epoch=";
      "rollback-fence-post-late-resurrection-reintegration-seal-drift-reanchor-compaction-expiry-quarantine-reintegration-seal-drift-reanchor-compaction-expiry-quarantine-epoch=";
      "rollback-fence-post-marker-expiry-late-resurrection-reintegration-seal-drift-reanchor-compaction-expiry-quarantine-reintegration-seal-drift-reanchor-compaction-expiry-quarantine-epoch=";
      "rollback-fence-post-reintegration-seal-drift-reanchor-compaction-expiry-quarantine-reintegration-seal-drift-reanchor-compaction-expiry-quarantine-epoch="] |};
  {| em_name := "resurrection-reintegration-seal-drift-reanchor-compaction-expiry-quarantine-reintegration-seal-drift-reanchor-compaction-expiry-quarantine-reintegration"; em_keys := [
      "rollback-fence-resurrection-reintegration-seal-drift-reanchor-compaction-expiry-quarantine-reintegration-seal-drift-reanchor-compaction-expiry-quarantine-reintegration-epoch=";
      "rollback-fence-late-resurrection-reintegration-seal-drift-reanchor-compaction-expiry-quarantine-reintegration-seal-drift-reanchor-compaction-expiry-quarantine-reintegration-epoch=";
      "rollback-fence-post-late-resurrection-reintegration-seal-drift-reanchor-compaction-expiry-quarantine-reintegration-seal-drift-reanchor-compaction-expiry-quarantine-reintegration-epoch=";
      "rollback-fence-post-marker-expiry-late-resurrection-reintegration-seal-drift-reanchor-compaction-expiry-quarantine-reintegration-seal-drift-reanchor-compaction-expiry-quarantine-reintegration-epoch=";
      "rollback-fence-post-reintegration-seal-drift-reanchor-compaction-expiry-quarantine-reintegration-seal-drift-reanchor-compaction-expiry-quarantine-reintegration-epoch="] |};
  {| em_name := "resurrection-reintegration-seal-drift-reanchor-compaction-expiry-quarantine-reintegration-seal-drift-reanchor-compaction-expiry-quarantine-reintegration-seal"; em_keys := [
      "rollback-fence-resurrection-reintegration-seal-drift-reanchor-compaction-expiry-quarantine-reintegration-seal-drift-reanchor-compaction-expiry-quarantine-reintegration-seal-epoch=";
      "rollback-fence-late-resurrection-reintegration-seal-drift-reanchor-compaction-expiry-quarantine-reintegration-seal-drift-reanchor-compaction-expiry-quarantine-reintegration-seal-epoch=";
      "rollback-fence-post-late-resurrection-reintegration-seal-drift-reanchor-compaction-expiry-quarantine-reintegration-seal-drift-reanchor-compaction-expiry-quarantine-reintegration-seal-epoch=";
      "rollback-fence-post-marker-expiry-late-resurrection-reintegration-seal-drift-reanchor-compaction-expiry-quarantine-reintegration-seal-drift-reanchor-compaction-expiry-quarantine-reintegration-seal-epoch=";
      "rollback-fence-post-reintegration-seal-drift-reanchor-compaction-expiry-quarantine-reintegration-seal-drift-reanchor-compaction-expiry-quarantine-reintegration-seal-epoch="] |};
  {| em_name := "resurrection-reintegration-seal-drift-reanchor-compaction-expiry-quarantine-reintegration-seal-drift-reanchor-compaction-expiry-quarantine-reintegration-seal-drift"; em_keys := [
      "rollback-fence-resurrection-reintegration-seal-drift-reanchor-compaction-expiry-quarantine-reintegration-seal-drift-reanchor-compaction-expiry-quarantine-reintegration-seal-drift-epoch=";
      "rollback-fence-late-resurrection-reintegration-seal-drift-reanchor-compaction-expiry-quarantine-reintegration-seal-drift-reanchor-compaction-expiry-quarantine-reintegration-seal-drift-epoch=";
      "rollback-fence-post-late-resurrection-reintegration-seal-drift-reanchor-compaction-expiry-quarantine-reintegration-seal-drift-reanchor-compaction-expiry-quarantine-reintegration-seal-drift-epoch=";
      "rollback-fence-post-marker-expiry-late-resurrection-reintegration-seal-drift-reanchor-compaction-expiry-quarantine-reintegration-seal-drift-reanchor-compaction-expiry-quarantine-reintegration-seal-drift-epoch=";
      "rollback-fence-post-reintegration-seal-drift-reanchor-compaction-expiry-quarantine-reintegration-seal-drift-reanchor-compaction-expiry-quarantine-reintegration-seal-drift-epoch="] |}].

(** The value of the first key the token starts with; empty if none. *)
Fixpoint marker_value (keys : list string) (token : string) : string :=
  match keys with
  | [] => EmptyString
  | key :: keys' =>
      if has_prefix token key then trim_space (trim_prefix token key) else marker_value keys' token
  end.

(** All values must be the same number. *)
Fixpoint marker_epoch (def : epochMarkerDef) (seen : option Z) (ts : list string) : option Z :=
  match ts with
  | [] => seen
  | token :: ts' =>
      let value := marker_value (em_keys def) token in
      if str_empty value then marker_epoch def seen ts'
      else match parse_nonneg value with
           | None => None
           | Some parsed =>
               match seen with
               | None => marker_epoch def (Some parsed) ts'
               | Some epoch => if epoch =? parsed then marker_epoch def seen ts' else None
               end
           end
  end.

Definition parseEpochMarker (digest : string) (def : epochMarkerDef) : option Z :=
  marker_epoch def None (tokens digest).

(** ** Ownership ordering: [rollback_fence_ordering.go] *)

Inductive prefixField :=
| ReleaseEpoch | BridgeSequence | ReleaseWatermark | DrainWatermark | LiveHead | SteadyStateWatermark
| SteadyGeneration | GenerationFloor | FloorLiftEpoch | SettleWindowEpoch | SpilloverEpoch
| SpilloverRejoinEpoch | RejoinSealEpoch.
#[export] Instance prefixField_eq_dec : EqDecision prefixField.
Proof. solve_decision. Defined.

(** The cases of the [switch] on the key of a token. *)
Definition prefix_cases : list (prefixField * list string) := [
  (ReleaseEpoch, ["rollback-fence-late-marker-release-epoch"]);
  (BridgeSequence, ["rollback-fence-late-bridge-sequence"; "rollback-fence-late-bridge-seq"]);
  (ReleaseWatermark, ["rollback-fence-late-bridge-release-watermark"; "rollback-fence-release-watermark"]);
  (DrainWatermark, ["rollback-fence-late-bridge-drain-watermark"; "rollback-fence-backlog-drain-watermark";
                    "rollback-fence-drain-watermark"]);
  (LiveHead, ["rollback-fence-live-head"; "rollback-fence-live-catchup-head"; "rollback-fence-live-watermark"]);
  (SteadyStateWatermark, ["rollback-fence-steady-state-watermark"; "rollback-fence-steady-watermark";
                          "rollback-fence-rebaseline-watermark"]);
  (SteadyGeneration, ["rollback-fence-steady-generation"; "rollback-fence-baseline-generation"]);
  (GenerationFloor, ["rollback-fence-generation-retention-floor"; "rollback-fence-retention-floor"]);
  (FloorLiftEpoch, ["rollback-fence-floor-lift-epoch"; "rollback-fence-retention-floor-lift-epoch"]);
  (SettleWindowEpoch, ["rollback-fence-settle-window-epoch"; "rollback-fence-floor-lift-settle-window-epoch"]);
  (SpilloverEpoch, ["rollback-fence-spillover-epoch"; "rollback-fence-late-spillover-epoch";
                    "rollback-fence-settle-window-spillover-epoch"]);
  (SpilloverRejoinEpoch, ["rollback-fence-spillover-rejoin-epoch"; "rollback-fence-rejoin-window-epoch";
                          "rollback-fence-late-spillover-rejoin-epoch"]);
  (RejoinSealEpoch, ["rollback-fence-rejoin-seal-epoch"; "rollback-fence-steady-seal-epoch";
                     "rollback-fence-post-rejoin-seal-epoch"])].

Definition case_of (key : string) : option prefixField :=
  fst <$> List.find (fun c => str_in key c.2) prefix_cases.

(** A value per field that was seen. *)
Definition prefixFields : Type := prefixField -> option Z.

Definition set_field (fields : prefixFields) (f : prefixField) (v : Z) : prefixFields :=
  fun g => if decide (g = f) then Some v else fields g.

(** [None]: the value is refused; a field that was seen is not parsed again. *)
Definition setOwnershipPrefixField (fields : prefixFields) (f : prefixField) (value : string)
    : option prefixFields :=
  match fields f with
  | Some _ => Some fields
  | None =>
      if str_empty value then None
      else match parse_nonneg value with
           | Some parsed => Some (set_field fields f parsed)
           | None => None
           end
  end.

Fixpoint prefix_loop (fields : prefixFields) (ts : list string) : option prefixFields :=
  match ts with
  | [] => Some fields
  | token :: ts' =>
      match cut_on equals_sign token with
      | None => prefix_loop fields ts'
      | Some (key, value) =>
          match case_of key with
          | None => prefix_loop fields ts'
          | Some f =>
              match setOwnershipPrefixField fields f (trim_space value) with
              | Some fields' => prefix_loop fields' ts'
              | None => None
              end
          end
      end
  end.

Definition parseRollbackFenceOwnershipPrefixFields (digest : string) : option prefixFields :=
  prefix_loop (fun _ => None) (tokens digest).

Definition parseAllEpochMarkers (digest : string) : list (option Z) := parseEpochMarker digest <$> epochMarkers.

(** The special rules and the chain: each field requires its predecessor. *)
Definition prefix_requires : list (prefixField * prefixField) := [
  (DrainWatermark, BridgeSequence); (LiveHead, BridgeSequence); (LiveHead, DrainWatermark);
  (SteadyStateWatermark, LiveHead); (SteadyGeneration, SteadyStateWatermark);
  (GenerationFloor, SteadyGeneration); (FloorLiftEpoch, GenerationFloor);
  (SettleWindowEpoch, FloorLiftEpoch); (SpilloverEpoch, SettleWindowEpoch);
  (SpilloverRejoinEpoch, SpilloverEpoch); (RejoinSealEpoch, SpilloverRejoinEpoch)].

Definition prefix_dependencies_ok (fields : prefixFields) : bool :=
  Bool.eqb (present (fields BridgeSequence)) (present (fields ReleaseWatermark)) &&
  forallb (fun r => negb (present (fields r.1)) || present (fields r.2)) prefix_requires.

(** Each marker requires the one before it; the first one the rejoin seal. *)
Fixpoint marker_chain_ok (previous : bool) (markers : list (option Z)) : bool :=
  match markers with
  | [] => true
  | m :: ms => (negb (present m) || previous) && marker_chain_ok (present m) ms
  end.

(** From marker 4 on, a marker that is present exceeds the one before it. *)
Definition markers_increase (markers : list (option Z)) : bool :=
  forallb (fun i =>
    match markers !! i, markers !! (i - 1)%nat with
    | Some (Some v), Some p => default 0 p <? v
    | _, _ => true
    end) (seq 4 (length markers - 4)).

(** The 34 fields: epoch, 11 prefix values, 22 marker values. *)
Definition rollbackFenceOwnershipOrdering : Type := list Z.

Definition parseRollbackFenceOwnershipOrdering (epoch : Z) (digest : string)
    : option rollbackFenceOwnershipOrdering :=
  if epoch <? 0 then None
  else
    let normalized := normalizePolicyManifestDigest digest in
    if negb (isRollbackFencePostExpiryLateMarkerReleaseDigest epoch normalized) then None
    else match parseRollbackFenceOwnershipPrefixFields normalized with
    | None => None
    | Some fields =>
        match fields ReleaseEpoch with
        | None => None
        | Some releaseEpoch =>
            let markers := parseAllEpochMarkers normalized in
            if negb (prefix_dependencies_ok fields) then None
            else if negb (marker_chain_ok (present (fields RejoinSealEpoch)) markers) then None
            else
              let bridgeSequence := default 0 (fields BridgeSequence) in
              let releaseWatermark :=
                if present (fields BridgeSequence) then default 0 (fields ReleaseWatermark)
                else releaseEpoch in
              if releaseWatermark <? releaseEpoch then None
              else
                let drainWatermark := default releaseWatermark (fields DrainWatermark) in
                if drainWatermark <? releaseWatermark then None
                else
                  let liveHead := default drainWatermark (fields LiveHead) in
                  if liveHead <? drainWatermark then None
                  else
                    let steadyStateWatermark := default liveHead (fields SteadyStateWatermark) in
                    if steadyStateWatermark <? liveHead then None
                    else
                      let steadyGeneration := default 0 (fields SteadyGeneration) in
                      let generationFloor := default 0 (fields GenerationFloor) in
                      if negb (markers_increase markers) then None
                      else if steadyGeneration <? generationFloor then None
                      else Some ([epoch; bridgeSequence; drainWatermark; liveHead; steadyStateWatermark;
                                  steadyGeneration; generationFloor;
                                  default 0 (fields FloorLiftEpoch); default 0 (fields SettleWindowEpoch);
                                  default 0 (fields SpilloverEpoch); default 0 (fields SpilloverRejoinEpoch);
                                  default 0 (fields RejoinSealEpoch)] ++ (default 0 <$> markers))
        end
    end.

Fixpoint compareRollbackFenceOwnershipOrdering (left right : rollbackFenceOwnershipOrdering) : Z :=
  match left, right with
  | l :: ls, r :: rs =>
      if l <? r then -1 else if r <? l then 1 else compareRollbackFenceOwnershipOrdering ls rs
  | _, _ => 0
  end.

(** ** The release window *)

Definition stageProgressionMarkers : list nat := [13; 14; 15; 16; 18; 12; 19; 20; 21]%nat.

(** [Some true]: the target advances a stage; [Some false]: it regresses. *)
Fixpoint stage_progress (idxs : list nat) (source target : string) : option bool :=
  match idxs with
  | [] => None
  | idx :: idxs' =>
      match epochMarkers !! idx with
      | None => stage_progress idxs' source target
      | Some def =>
          match present (parseEpochMarker source def), present (parseEpochMarker target def) with
          | false, true => Some true
          | true, false => Some false
          | _, _ => stage_progress idxs' source target
          end
      end
  end.

Definition isDeterministicRollbackFencePostExpiryLateMarkerReleaseWindowTransition (epoch : Z)
    (sourceDigest targetDigest : string) : bool :=
  if epoch <? 0 then false
  else
    let source := normalizePolicyManifestDigest sourceDigest in
    let target := normalizePolicyManifestDigest targetDigest in
    if isRollbackFencePostExpiryLateMarkerReleaseDigest epoch source &&
       isRollbackFencePostExpiryLateMarkerReleaseDigest epoch target &&
       validateLineagePair epoch source target &&
       same_epoch (parseRollbackFenceTombstoneExpiryEpoch source) (parseRollbackFenceTombstoneExpiryEpoch target) &&
       same_epoch (parseRollbackFenceLateMarkerHoldEpoch source) (parseRollbackFenceLateMarkerHoldEpoch target)
    then
      match parseRollbackFenceOwnershipOrdering epoch source, parseRollbackFenceOwnershipOrdering epoch target with
      | Some sourceOwnership, Some targetOwnership =>
          match stage_progress stageProgressionMarkers source target with
          | Some b => b
          | None => compareRollbackFenceOwnershipOrdering sourceOwnership targetOwnership <? 0
          end
      | _, _ => false
      end
    else false.

(** ** Same-epoch lineage and the transition *)

(** The rules in order: a match and whether the incoming digest is adopted. *)
Definition sameEpochPolicyLineageRules : list ((Z -> string -> string -> bool) * bool) :=
  let flip (m : Z -> string -> string -> bool) (epoch : Z) (previous incoming : string) :=
    m epoch incoming previous in
  [ (isDeterministicRollbackFenceEpochCompactionTransition, true);
    (isDeterministicRollbackFenceTombstoneExpiryTransition, true);
    (isDeterministicRollbackFencePostExpiryLateMarkerQuarantineTransition, true);
    (isDeterministicRollbackFencePostExpiryLateMarkerReleaseTransition, true);
    (isDeterministicRollbackFencePostExpiryLateMarkerReleaseWindowTransition, true);
    (flip isDeterministicRollbackFencePostExpiryLateMarkerReleaseWindowTransition, false);
    (flip isDeterministicRollbackFencePostExpiryLateMarkerReleaseTransition, false);
    (flip isDeterministicRollbackFencePostExpiryLateMarkerQuarantineTransition, false);
    (flip isDeterministicRollbackFenceTombstoneExpiryTransition, false);
    (flip isDeterministicRollbackFenceEpochCompactionTransition, false) ].

(** [Some adopt] when a rule handles the pair. *)
Definition resolveSameEpochPolicyLineage (epoch : Z) (previousDigest incomingDigest : string) : option bool :=
  snd <$> List.find (fun rule => rule.1 epoch previousDigest incomingDigest) sameEpochPolicyLineageRules.

Definition normalizeTransitionActivationHold (transition : autoTunePolicyTransition) : Z :=
  let remaining := maxInt (pt_ActivationHoldRemaining transition) 0 in
  if (remaining =? 0) || negb (pt_FromWarmCheckpoint transition) then remaining
  else if isRollbackFenceEpochCompactionDigest (pt_Epoch transition) (pt_ManifestDigest transition) then 0
  else if negb (isRollbackFenceTransition (pt_Epoch transition) (pt_ManifestDigest transition)) then remaining
  else if 1 <? remaining then 1 else remaining.

(** Adopts a digest and an epoch and restarts the activation hold. *)
Definition adopt (a : autoTuneController) (digest : string) (epoch : Z) : autoTuneController :=
  resetAdaptiveControlState (set_policy
    {| po_manifestDigest := digest; po_epoch := epoch;
       po_activationLeft := s_policyActivationHold (a_settings a) |} a).

Definition own (a : autoTuneController) (digest : string) (epoch : Z) : autoTuneController :=
  set_policy {| po_manifestDigest := digest; po_epoch := epoch;
                po_activationLeft := po_activationLeft (a_policy a) |} a.

(** [if normalizedActivationHold > a.policyActivationLeft { ... }] *)
Definition raise_hold (a : autoTuneController) (hold : Z) : autoTuneController :=
  if po_activationLeft (a_policy a) <? hold
  then resetAdaptiveControlState (set_policy
         {| po_manifestDigest := po_manifestDigest (a_policy a); po_epoch := po_epoch (a_policy a);
            po_activationLeft := hold |} a)
  else a.

Definition reconcilePolicyTransition (a : autoTuneController) (transition : autoTunePolicyTransition)
    : autoTuneController :=
  if negb (pt_HasState transition) then a
  else
    let hold := normalizeTransitionActivationHold transition in
    let previousVersion := normalizePolicyVersion (pt_Version transition) in
    let previousDigest := normalizePolicyManifestDigest (pt_ManifestDigest transition) in
    let previousEpoch := nonneg (pt_Epoch transition) in
    let incomingVersion := s_policyVersion (a_settings a) in
    let incomingDigest := normalizePolicyManifestDigest (po_manifestDigest (a_policy a)) in
    let incomingEpoch := nonneg (po_epoch (a_policy a)) in
    let pin := raise_hold (own a previousDigest previousEpoch) hold in
    if String.eqb incomingVersion previousVersion && String.eqb incomingDigest previousDigest then
      raise_hold (if incomingEpoch =? previousEpoch ⊕ 1 then adopt a incomingDigest incomingEpoch
                  else own a previousDigest previousEpoch) hold
    else if negb (String.eqb incomingVersion previousVersion) then
      adopt a incomingDigest (maxInt64 (previousEpoch ⊕ 1) incomingEpoch)
    else if previousEpoch <? incomingEpoch then
      if isDeterministicRollbackFencePostReleaseWindowEpochRolloverStaleTransition
           previousEpoch incomingEpoch previousDigest incomingDigest
      then pin
      else if incomingEpoch =? previousEpoch ⊕ 1 then adopt a incomingDigest incomingEpoch
      else if isDeterministicSnapshotCutover previousEpoch incomingEpoch incomingDigest
      then adopt a incomingDigest incomingEpoch
      else pin
    else if incomingEpoch <? previousEpoch then
      if isDeterministicRollbackLineage previousEpoch incomingEpoch incomingDigest
      then adopt a incomingDigest incomingEpoch
      else pin
    else
      match resolveSameEpochPolicyLineage previousEpoch previousDigest incomingDigest with
      | Some true => own a incomingDigest incomingEpoch
      | Some false => own a previousDigest previousEpoch
      | None => pin
      end.
