(* ===== verification/RuntimeSignals.v ===== *)
(** * Runtime signals: [autotune/signals.go]

    Rolling windows of RPC results and commit latencies per chain, and the proof
    that the ring buffers are the last 64 samples: the error rate is that of the
    last results, and the latency is the nearest-rank 95th percentile. *)

From Stdlib Require Import ZArith String Lia.
From stdpp Require Import base option list strings gmap sorting.
From S2P Require Import Prelude.

Open Scope Z_scope.
Open Scope go_scope.

Definition autoTuneSignalRPCWindowSize : nat := 64.
Definition autoTuneSignalCommitWindowSize : nat := 64.

Record AutoTuneRuntimeSignals := { rs_RPCErrorRateBps : Z; rs_DBCommitLatencyP95Ms : Z }.

(** ** RPC results *)

Record rpcErrorRateSeries := {
  rpc_samples : list Z; rpc_nextIndex : nat; rpc_sampleCount : nat; rpc_errorCount : Z
}.

Definition new_rpcErrorRateSeries : rpcErrorRateSeries :=
  {| rpc_samples := replicate autoTuneSignalRPCWindowSize 0; rpc_nextIndex := 0; rpc_sampleCount := 0;
     rpc_errorCount := 0 |}.

Definition bump_index (size i : nat) : nat := if (size <=? S i)%nat then O else S i.

Definition rpc_record (s : rpcErrorRateSeries) (isError : bool) : rpcErrorRateSeries :=
  let old := default 0 (rpc_samples s !! rpc_nextIndex s) in
  let filling := (rpc_sampleCount s <? autoTuneSignalRPCWindowSize)%nat in
  let errorCount := if negb filling && (old =? 1) then rpc_errorCount s - 1 else rpc_errorCount s in
  {| rpc_samples := <[rpc_nextIndex s := if isError then 1 else 0]> (rpc_samples s);
     rpc_nextIndex := bump_index autoTuneSignalRPCWindowSize (rpc_nextIndex s);
     rpc_sampleCount := if filling then S (rpc_sampleCount s) else rpc_sampleCount s;
     rpc_errorCount := if isError then errorCount + 1 else errorCount |}.

Definition errorRateBps (s : rpcErrorRateSeries) : Z :=
  if (rpc_sampleCount s =? 0)%nat then 0
  else Z.quot (rpc_errorCount s * 10000) (Z.of_nat (rpc_sampleCount s)).

(** ** Commit latencies *)

Record commitLatencySeries := {
  cl_window : list Z; cl_nextIndex : nat; cl_sampleCount : nat
}.

Definition new_commitLatencySeries : commitLatencySeries :=
  {| cl_window := replicate autoTuneSignalCommitWindowSize 0; cl_nextIndex := 0; cl_sampleCount := 0 |}.

Definition latency_record (s : commitLatencySeries) (latencyMs : Z) : commitLatencySeries :=
  if latencyMs <? 0 then s
  else {| cl_window := <[cl_nextIndex s := latencyMs]> (cl_window s);
          cl_nextIndex := bump_index autoTuneSignalCommitWindowSize (cl_nextIndex s);
          cl_sampleCount := if (cl_sampleCount s <? autoTuneSignalCommitWindowSize)%nat
                            then S (cl_sampleCount s) else cl_sampleCount s |}.

(** The index [(len*95 + 99) / 100], one less unless zero, at most the last. *)
Definition p95_index (n : nat) : nat :=
  let idx := ((n * 95 + 99) / 100)%nat in
  let idx := if (0 <? idx)%nat then (idx - 1)%nat else idx in
  if (n <=? idx)%nat then (n - 1)%nat else idx.

Definition p95Ms (s : commitLatencySeries) : Z :=
  if (cl_sampleCount s =? 0)%nat then 0
  else
    let samples := merge_sort Z.le (take (cl_sampleCount s) (cl_window s)) in
    default 0 (samples !! p95_index (length samples)).

(** ** The registry *)

Record autoTuneSignalSeries := { ss_rpcRate : rpcErrorRateSeries; ss_dbCommitLatency : commitLatencySeries }.

Definition new_series : autoTuneSignalSeries :=
  {| ss_rpcRate := new_rpcErrorRateSeries; ss_dbCommitLatency := new_commitLatencySeries |}.

Definition RuntimeSignalRegistry : Type := gmap string autoTuneSignalSeries.

Definition NewRuntimeSignalRegistry : RuntimeSignalRegistry := ∅.

Definition autoTuneSignalKey (chain network : string) : string :=
  to_lower (trim_space chain) +:+ "/" +:+ to_lower (trim_space network).

Definition stateFor (r : RuntimeSignalRegistry) (key : string) : autoTuneSignalSeries :=
  default new_series (r !! key).

Definition Snapshot (r : RuntimeSignalRegistry) (chain network : string) : AutoTuneRuntimeSignals :=
  match r !! autoTuneSignalKey chain network with
  | None => {| rs_RPCErrorRateBps := 0; rs_DBCommitLatencyP95Ms := 0 |}
  | Some state => {| rs_RPCErrorRateBps := errorRateBps (ss_rpcRate state);
                     rs_DBCommitLatencyP95Ms := p95Ms (ss_dbCommitLatency state) |}
  end.

Definition RecordRPCResult (r : RuntimeSignalRegistry) (chain network : string) (isError : bool)
    : RuntimeSignalRegistry :=
  let key := autoTuneSignalKey chain network in
  let state := stateFor r key in
  <[key := {| ss_rpcRate := rpc_record (ss_rpcRate state) isError;
              ss_dbCommitLatency := ss_dbCommitLatency state |}]> r.

Definition RecordDBCommitLatencyMs (r : RuntimeSignalRegistry) (chain network : string) (latencyMs : Z)
    : RuntimeSignalRegistry :=
  if latencyMs <? 0 then r
  else
    let key := autoTuneSignalKey chain network in
    let state := stateFor r key in
    <[key := {| ss_rpcRate := ss_rpcRate state;
                ss_dbCommitLatency := latency_record (ss_dbCommitLatency state) latencyMs |}]> r.

(** ** A ring buffer is the last samples

    After the samples [l], newest last, a ring of [size] cells holds the last
    [size] of them, the oldest at [next] once the ring is full. *)

Section Ring.
Context {A : Type} (size : nat) (zero : A).

(** The last [size] elements. *)
Definition last_n (l : list A) : list A := drop (length l - size) l.

Definition ring_step (s : list A * nat * nat) (x : A) : list A * nat * nat :=
  let '(cells, next, count) := s in
  (<[next := x]> cells, bump_index size next, if (count <? size)%nat then S count else count).

Definition ring_init : list A * nat * nat := (replicate size zero, 0%nat, 0%nat).

Record ring_inv (l : list A) (s : list A * nat * nat) : Prop := {
  ri_len : length s.1.1 = size;
  ri_count : s.2 = Nat.min (length l) size;
  ri_next : (s.1.2 < size)%nat /\ ((length l < size)%nat -> s.1.2 = length l);
  ri_cells : drop s.1.2 (take s.2 s.1.1) ++ take s.1.2 (take s.2 s.1.1) = last_n l
}.

Lemma last_n_short l : (length l <= size)%nat -> last_n l = l.
Proof. intros H. unfold last_n. replace (length l - size)%nat with 0%nat by lia. apply drop_0. Qed.

Context (Hsize : (0 < size)%nat).

Lemma last_n_snoc l x : (size <= length l)%nat -> last_n (l ++ [x]) = tail (last_n l) ++ [x].
Proof.
  intros H. unfold last_n. rewrite length_app. simpl.
  replace (length l + 1 - size)%nat with (S (length l - size))%nat by lia.
  rewrite drop_app_le by lia. f_equal. generalize (length l - size)%nat. clear. intros n.
  revert n; induction l as [|y l IH]; intros [|n]; try done. simpl. rewrite <- IH. done.
Qed.

Lemma ring_init_inv : ring_inv [] ring_init.
Proof. split; simpl; [apply length_replicate|done|split; [done|lia]|done]. Qed.

Lemma ring_step_inv l s x : ring_inv l s -> ring_inv (l ++ [x]) (ring_step s x).
Proof.
  destruct s as [[cells next] count]. intros [Hl Hc [Hn Hn'] Hcells]. simpl in *.
  unfold bump_index. destruct (Nat.ltb_spec count size) as [Hlt|Hge].
  - assert (Hll : (length l < size)%nat) by lia. specialize (Hn' Hll). subst next.
    assert (count = length l) as -> by lia.
    assert (Htk : take (length l) cells = l).
    { rewrite last_n_short in Hcells by lia. rewrite drop_ge in Hcells by (rewrite length_take; lia).
      simpl in Hcells. by rewrite take_take, Nat.min_id in Hcells. }
    assert (Hfull : take (S (length l)) (<[length l := x]> cells) = l ++ [x]).
    { rewrite (take_S_r _ _ x) by (apply list_lookup_insert_eq; lia). by rewrite take_insert_ge, Htk by lia. }
    split; simpl; rewrite ?length_insert, ?length_app; simpl; [done|lia| |].
    + destruct (Nat.leb_spec size (S (length l))); lia.
    + rewrite Hfull, last_n_short by (rewrite length_app; simpl; lia).
      destruct (Nat.leb_spec size (S (length l))) as [Hz|Hz]; [by rewrite drop_0, take_0, app_nil_r|].
      by rewrite drop_ge, take_ge by (rewrite length_app; simpl; lia).
  - assert (count = size) as -> by lia. assert (Hll : (size <= length l)%nat) by lia.
    rewrite (take_ge cells) in Hcells by lia.
    split; simpl; rewrite ?length_insert, ?length_app; simpl; [done|lia| |].
    + destruct (Nat.leb_spec size (S next)); split; lia.
    + rewrite (take_ge (<[next:=x]> cells)) by (rewrite length_insert; lia).
      rewrite last_n_snoc, <- Hcells by done.
      destruct (lookup_lt_is_Some_2 cells next) as [y Hy]; [lia|].
      rewrite (drop_S cells y next Hy). simpl. destruct (Nat.leb_spec size (S next)) as [Hz|Hz].
      * rewrite drop_0, take_0, app_nil_r, (drop_ge cells (S next)) by lia. simpl.
        rewrite insert_take_drop by lia. by rewrite drop_ge by lia.
      * rewrite insert_take_drop by lia. rewrite cons_middle, app_assoc.
        assert (Ht : length (take next cells ++ [x]) = S next) by (rewrite length_app, length_take; simpl; lia).
        rewrite drop_app_length' by done. rewrite take_app_length' by done. by rewrite app_assoc.
Qed.

Lemma ring_oldest l s y : ring_inv l s -> (size <= length l)%nat -> s.1.1 !! s.1.2 = Some y ->
  exists rest, last_n l = y :: rest.
Proof.
  destruct s as [[cells next] count]. intros [Hl Hc [Hn _] Hcells] Hge Hy. simpl in *.
  rewrite <- Hcells, Hc, Nat.min_r, (take_ge cells), (drop_S _ _ _ Hy) by lia. simpl. eauto.
Qed.

(** Up to rotation the used cells are the last samples. *)
Lemma ring_perm l s : ring_inv l s -> take s.2 s.1.1 ≡ₚ last_n l.
Proof.
  intros [_ _ _ <-]. rewrite Permutation_app_comm. by rewrite take_drop.
Qed.
End Ring.

(** ** The series *)

Definition rpc_ring (s : rpcErrorRateSeries) : list Z * nat * nat :=
  (rpc_samples s, rpc_nextIndex s, rpc_sampleCount s).
Definition latency_ring (s : commitLatencySeries) : list Z * nat * nat :=
  (cl_window s, cl_nextIndex s, cl_sampleCount s).

Lemma rpc_window_pos : (0 < autoTuneSignalRPCWindowSize)%nat.
Proof. unfold autoTuneSignalRPCWindowSize. lia. Qed.
Lemma commit_window_pos : (0 < autoTuneSignalCommitWindowSize)%nat.
Proof. unfold autoTuneSignalCommitWindowSize. lia. Qed.

Definition bit (b : bool) : Z := if b then 1 else 0.

Record rpc_inv (l : list bool) (s : rpcErrorRateSeries) : Prop := {
  rv_ring : ring_inv autoTuneSignalRPCWindowSize (bit <$> l) (rpc_ring s);
  rv_errors : rpc_errorCount s = sum_of bit (last_n autoTuneSignalRPCWindowSize l)
}.

Lemma rpc_record_inv l s b : rpc_inv l s -> rpc_inv (l ++ [b]) (rpc_record s b).
Proof.
  intros [Hr He]. split.
  - rewrite fmap_app. exact (ring_step_inv _ rpc_window_pos _ _ (bit b) Hr).
  - unfold rpc_record. simpl. destruct Hr as [Hl Hc [Hn Hn'] Hcells] eqn:Er. simpl in *. clear Er.
    rewrite length_fmap in Hc. destruct (Nat.ltb_spec (rpc_sampleCount s) autoTuneSignalRPCWindowSize) as [Hlt|Hge]; simpl.
    + rewrite last_n_short in He by lia. rewrite last_n_short by (rewrite length_app; simpl; lia).
      rewrite sum_of_app, He. destruct b; simpl; lia.
    + rewrite last_n_snoc by (apply rpc_window_pos || lia).
      destruct (lookup_lt_is_Some_2 (rpc_samples s) (rpc_nextIndex s)) as [y Hy]; [lia|].
      destruct (ring_oldest _ rpc_window_pos _ _ y Hr) as [rest Hrest]; [rewrite length_fmap; lia|exact Hy|].
      unfold last_n in Hrest. rewrite length_fmap, <- fmap_drop in Hrest.
      fold (last_n autoTuneSignalRPCWindowSize l) in Hrest.
      destruct (last_n autoTuneSignalRPCWindowSize l) as [|b0 r0] eqn:El; [done|]. injection Hrest as <- _.
      rewrite Hy, He, sum_of_app. unfold bit. simpl. destruct b0, b; simpl; lia.
Qed.

Lemma rpc_run_inv l : rpc_inv l (foldl rpc_record new_rpcErrorRateSeries l).
Proof.
  induction l as [|b l IH] using rev_ind.
  - split; [exact (ring_init_inv _ 0 rpc_window_pos)|done].
  - rewrite foldl_app. by apply rpc_record_inv.
Qed.

Lemma latency_record_inv l s x :
  0 <= x -> ring_inv autoTuneSignalCommitWindowSize l (latency_ring s) ->
  ring_inv autoTuneSignalCommitWindowSize (l ++ [x]) (latency_ring (latency_record s x)).
Proof.
  intros Hx Hr. unfold latency_record. destruct (x <? 0) eqn:E; [lia|].
  exact (ring_step_inv _ commit_window_pos _ _ x Hr).
Qed.

Lemma latency_run_inv l :
  ring_inv autoTuneSignalCommitWindowSize (filter (fun x => 0 <= x) l)
    (latency_ring (foldl latency_record new_commitLatencySeries l)).
Proof.
  induction l as [|x l IH] using rev_ind.
  - exact (ring_init_inv _ 0 commit_window_pos).
  - rewrite foldl_app, filter_app. simpl. rewrite filter_cons, filter_nil. case_decide.
    + by apply latency_record_inv.
    + unfold latency_record. destruct (x <? 0) eqn:E; [|lia]. by rewrite app_nil_r.
Qed.

(** ** The nearest-rank percentile *)

Definition count_le (x : Z) (l : list Z) : nat := length (filter (fun y => y <= x) l).
Definition count_lt (x : Z) (l : list Z) : nat := length (filter (fun y => y < x) l).

(** [x] is the nearest-rank 95th percentile of [l]: a sample with at least 95% of
    the samples at or below it, and fewer than 95% of them strictly below. *)
Definition is_p95 (l : list Z) (x : Z) : Prop :=
  x ∈ l /\ (95 * length l <= 100 * count_le x l)%nat /\ (100 * count_lt x l < 95 * length l)%nat.

#[export] Instance is_p95_proper : Proper ((≡ₚ) ==> eq ==> iff) is_p95.
Proof.
  intros l1 l2 Hl x ? <-. unfold is_p95, count_le, count_lt. by rewrite Hl.
Qed.

Lemma p95_index_rank n : (0 < n)%nat ->
  (p95_index n < n /\ 95 * n <= 100 * S (p95_index n) /\ 100 * p95_index n < 95 * n)%nat.
Proof.
  intros Hn. unfold p95_index.
  pose proof (Nat.div_mod_eq (n * 95 + 99) 100) as Hd.
  pose proof (Nat.mod_upper_bound (n * 95 + 99) 100 ltac:(lia)) as Hm.
  destruct (Nat.ltb_spec 0 ((n * 95 + 99) / 100)); [|lia].
  destruct (Nat.leb_spec n ((n * 95 + 99) / 100 - 1)); lia.
Qed.

Lemma sorted_split l i x : StronglySorted Z.le l -> l !! i = Some x ->
  Forall (fun y => y <= x) (take (S i) l) /\ Forall (fun y => x <= y) (drop i l).
Proof.
  intros Hs. revert i. induction Hs as [|y l Hs IH Hall]; intros i Hi; [done|].
  destruct i as [|i]; simpl in *.
  - injection Hi as ->. split; [repeat constructor; lia|]. constructor; [lia|done].
  - destruct (IH i Hi) as [H1 H2]. split; [|done]. constructor; [|done].
    rewrite Forall_forall in Hall. apply Hall. by apply list_elem_of_lookup_2 with i.
Qed.

Lemma sorted_counts l i x : StronglySorted Z.le l -> l !! i = Some x ->
  (S i <= count_le x l /\ count_lt x l <= i)%nat.
Proof.
  intros Hs Hi. destruct (sorted_split l i x Hs Hi) as [H1 H2].
  pose proof (lookup_lt_Some _ _ _ Hi). unfold count_le, count_lt. split.
  - rewrite <- (take_drop (S i) l), filter_app, length_app, filter_all by (by apply Forall_forall).
    rewrite length_take. lia.
  - rewrite <- (take_drop i l), filter_app, length_app, (filter_none _ (drop i l)).
    + rewrite Nat.add_0_r. etransitivity; [apply length_filter|]. rewrite length_take. lia.
    + rewrite Forall_forall in H2. intros y Hy%H2. lia.
Qed.

Lemma p95_sorted l x : l <> [] -> merge_sort Z.le l !! p95_index (length l) = Some x -> is_p95 l x.
Proof.
  intros Hne Hx. rewrite <- (merge_sort_Permutation Z.le l). unfold is_p95.
  assert (StronglySorted Z.le (merge_sort Z.le l)) as Hs.
  { by apply (StronglySorted_merge_sort _). }
  destruct (sorted_counts _ _ _ Hs Hx). rewrite (Permutation_length (merge_sort_Permutation Z.le l)).
  destruct (p95_index_rank (length l)) as [_ [? ?]]; [destruct l; simpl; [done|lia]|].
  split; [by eapply list_elem_of_lookup_2|]. lia.
Qed.

(** ** What the registry promises *)

Inductive signal_event :=
  | RPCResult (chain network : string) (isError : bool)
  | DBCommitLatencyMs (chain network : string) (latencyMs : Z).

Definition record_event (r : RuntimeSignalRegistry) (e : signal_event) : RuntimeSignalRegistry :=
  match e with
  | RPCResult c n b => RecordRPCResult r c n b
  | DBCommitLatencyMs c n ms => RecordDBCommitLatencyMs r c n ms
  end.

(** The samples of one chain, among all the events. *)
Definition rpc_of (key : string) (e : signal_event) : list bool :=
  match e with
  | RPCResult c n b => if decide (autoTuneSignalKey c n = key) then [b] else []
  | DBCommitLatencyMs _ _ _ => []
  end.
Definition latency_of (key : string) (e : signal_event) : list Z :=
  match e with
  | RPCResult _ _ _ => []
  | DBCommitLatencyMs c n ms => if decide (autoTuneSignalKey c n = key /\ 0 <= ms) then [ms] else []
  end.

Definition series_inv (key : string) (es : list signal_event) (s : autoTuneSignalSeries) : Prop :=
  rpc_inv (es ≫= rpc_of key) (ss_rpcRate s) /\
  ring_inv autoTuneSignalCommitWindowSize (es ≫= latency_of key) (latency_ring (ss_dbCommitLatency s)).

Lemma stateFor_insert (r : RuntimeSignalRegistry) k key s :
  stateFor (<[k:=s]> r) key = if decide (k = key) then s else stateFor r key.
Proof.
  unfold stateFor, RuntimeSignalRegistry in *. case_decide as Hk.
  - subst. by rewrite (lookup_insert_eq (M:=gmap string)).
  - by rewrite (lookup_insert_ne (M:=gmap string)).
Qed.

Lemma registry_inv key es :
  series_inv key es (stateFor (foldl record_event NewRuntimeSignalRegistry es) key).
Proof.
  induction es as [|e es IH] using rev_ind.
  - split; [exact (rpc_run_inv [])|exact (ring_init_inv _ 0 commit_window_pos)].
  - rewrite foldl_app. destruct IH as [IHr IHl]. unfold series_inv. rewrite !bind_app. simpl.
    destruct e as [c n b|c n ms]; simpl.
    + unfold RecordRPCResult. rewrite stateFor_insert, !app_nil_r.
      case_decide as Hk; [rewrite Hk|]; simpl; rewrite ?app_nil_r;
        (split; [try done; by apply rpc_record_inv|done]).
    + unfold RecordDBCommitLatencyMs. rewrite !app_nil_r. destruct (ms <? 0) eqn:E.
      * rewrite decide_False, app_nil_r by lia. done.
      * rewrite stateFor_insert. destruct (decide (autoTuneSignalKey c n = key)) as [Hk|Hk].
        -- rewrite Hk, decide_True by (split; [done|lia]). simpl.
           split; [done|]. apply latency_record_inv; [lia|done].
        -- rewrite decide_False, app_nil_r by tauto. done.
Qed.

Lemma snapshot_state r c n : Snapshot r c n =
  {| rs_RPCErrorRateBps := errorRateBps (ss_rpcRate (stateFor r (autoTuneSignalKey c n)));
     rs_DBCommitLatencyP95Ms := p95Ms (ss_dbCommitLatency (stateFor r (autoTuneSignalKey c n))) |}.
Proof. unfold Snapshot, stateFor. by destruct (r !! autoTuneSignalKey c n). Qed.

Lemma rate_refines l s : rpc_inv l s ->
  errorRateBps s = Z.quot (sum_of bit (last_n 64 l) * 10000) (Z.of_nat (length (last_n 64 l))).
Proof.
  intros [Hr He]. unfold errorRateBps. rewrite He. destruct Hr as [_ Hc _ _]. simpl in Hc.
  rewrite length_fmap in Hc. unfold autoTuneSignalRPCWindowSize in *.
  assert (length (last_n 64 l) = rpc_sampleCount s) as ->.
  { unfold last_n. rewrite length_drop. lia. }
  destruct (Nat.eqb_spec (rpc_sampleCount s) 0) as [->|]; [|done]. by destruct (_ * _)%Z.
Qed.

Lemma p95_refines l s : ring_inv 64 l (latency_ring s) ->
  match last_n 64 l with [] => p95Ms s = 0 | _ => is_p95 (last_n 64 l) (p95Ms s) end.
Proof.
  intros Hr. pose proof (ring_perm 64 l _ Hr) as Hp. destruct Hr as [Hl Hc _ _]. simpl in *.
  unfold p95Ms. assert (length (take (cl_sampleCount s) (cl_window s)) = cl_sampleCount s) as Hlen
    by (rewrite length_take; lia).
  pose proof (Permutation_length Hp) as Hpl. rewrite Hlen in Hpl.
  destruct (last_n 64 l) as [|y rest] eqn:El; simpl in Hpl.
  - by rewrite Hpl.
  - rewrite <- Hp. destruct (Nat.eqb_spec (cl_sampleCount s) 0); [lia|].
    set (w := take _ _) in *. assert (w <> []) as Hw by (intros Hw; rewrite Hw in Hlen; simpl in Hlen; lia).
    rewrite (Permutation_length (merge_sort_Permutation Z.le w)).
    destruct (lookup_lt_is_Some_2 (merge_sort Z.le w) (p95_index (length w))) as [x Hx].
    { rewrite (Permutation_length (merge_sort_Permutation Z.le w)). apply p95_index_rank. lia. }
    rewrite Hx. by apply p95_sorted.
Qed.

(** Also: the snapshot of a chain depends on that chain's events alone, whatever is
    recorded for the other chains in between: the error rate is 10000 times the errors
    among its last 64 RPC results over their number (0 without any), and the latency
    is the nearest-rank 95th percentile of its last 64 non-negative commit latencies. *)
Theorem snapshot_refines (es : list signal_event) (chain network : string) :
  let key := autoTuneSignalKey chain network in
  let s := Snapshot (foldl record_event NewRuntimeSignalRegistry es) chain network in
  let results := last_n 64 (es ≫= rpc_of key) in
  let latencies := last_n 64 (es ≫= latency_of key) in
  rs_RPCErrorRateBps s = Z.quot (sum_of bit results * 10000) (Z.of_nat (length results)) /\
  match latencies with
  | [] => rs_DBCommitLatencyP95Ms s = 0
  | _ => is_p95 latencies (rs_DBCommitLatencyP95Ms s)
  end.
Proof.
  cbv zeta. rewrite snapshot_state. simpl.
  destruct (registry_inv (autoTuneSignalKey chain network) es) as [Hr Hl].
  split; [exact (rate_refines _ _ Hr)|exact (p95_refines _ _ Hl)].
Qed.
