(* ===== verification/AutoTuneProofs.v ===== *)
(** * The auto-tune controller keeps its promises

    An abstract state machine of one tick ([tick], on the batch, the streak and the
    cooldown) and the proof that [Resolve] refines it; from it the bounds of the
    batch in every reachable state, hysteresis, the absence of flapping, the
    freeze on stale telemetry, and convergence to the maximum. *)

From Stdlib Require Import ZArith String Lia.
From stdpp Require Import base option list strings.
From S2P Require Import Prelude AutoTune PolicyLineage.

Open Scope Z_scope.
Open Scope go_scope.

(** ** Actions and reachable controllers *)

Inductive action :=
  | ActResolve (inputs : autoTuneInputs)
  | ActOverride (transition : autoTuneOverrideTransition)
  | ActPolicy (transition : autoTunePolicyTransition).

Definition resolved (a : autoTuneController) (inputs : autoTuneInputs) : autoTuneController :=
  (Resolve a inputs).2.

Definition act (a : autoTuneController) (x : action) : autoTuneController :=
  match x with
  | ActResolve inputs => resolved a inputs
  | ActOverride t => reconcileOverrideTransition a t
  | ActPolicy t => reconcilePolicyTransition a t
  end.

(** A controller the coordinator can hold: constructed, then resolved and reconciled. *)
Inductive reachable : autoTuneController -> Prop :=
  | reach_new base cfg seed bounded a :
      newAutoTuneControllerWithSeedMode base cfg seed bounded = Some a -> reachable a
  | reach_act a x : reachable a -> reachable (act a x).

(** ** The abstract machine *)

(** What a tick sees of the controller. *)
Record control := {
  c_batch : Z; c_last : autoTuneSignal; c_applied : autoTuneSignal; c_streak : Z; c_cooldown : Z
}.

Definition control_of (a : autoTuneController) : control :=
  let d := a_adaptive a in
  {| c_batch := a_currentBatch a; c_last := ad_lastSignal d; c_applied := ad_lastApplied d;
     c_streak := ad_streak d; c_cooldown := ad_cooldownLeft d |}.

Definition fresh_control (batch : Z) : control :=
  {| c_batch := batch; c_last := SignalHold; c_applied := SignalHold; c_streak := 0; c_cooldown := 0 |}.

Definition target (s : settings) (batch : Z) (signal : autoTuneSignal) : Z :=
  match signal with
  | SignalIncrease => clampInt (batch ⊕ s_stepUp s) (s_minBatchSize s) (s_maxBatchSize s)
  | SignalDecrease => clampInt (batch ⊖ s_stepDown s) (s_minBatchSize s) (s_maxBatchSize s)
  | SignalHold => batch
  end.

(** [moves signal b b']: from [b] to [b'] is strictly in the direction of the signal. *)
Definition moves (signal : autoTuneSignal) (b b' : Z) : Prop :=
  match signal with SignalIncrease => b < b' | SignalDecrease => b' < b | SignalHold => False end.

Definition at_boundary (s : settings) (batch : Z) (signal : autoTuneSignal) : Prop :=
  match signal with
  | SignalIncrease => s_maxBatchSize s <= batch
  | SignalDecrease => batch <= s_minBatchSize s
  | SignalHold => False
  end.

Definition bumped (c : control) (signal : autoTuneSignal) : Z :=
  if decide (c_last c = signal) then c_streak c ⊕ 1 else 1.

Definition ticked (n : Z) : Z := if 0 <? n then n - 1 else n.

(** One tick under automatic control; [crit] says that the inputs are critical. *)
Inductive tick (s : settings) (crit : bool) (c : control) : autoTuneSignal -> control -> Prop :=
  | tick_hold :
      tick s crit c SignalHold
        {| c_batch := c_batch c; c_last := SignalHold; c_applied := c_applied c; c_streak := 0;
           c_cooldown := ticked (c_cooldown c) |}
  | tick_blocked signal :
      0 < c_cooldown c -> isOppositeSignal signal (c_applied c) = true -> crit = false ->
      tick s crit c signal
        {| c_batch := c_batch c; c_last := signal; c_applied := c_applied c; c_streak := bumped c signal;
           c_cooldown := c_cooldown c - 1 |}
  | tick_saturated signal :
      at_boundary s (c_batch c) signal ->
      tick s crit c signal
        {| c_batch := c_batch c; c_last := signal; c_applied := c_applied c; c_streak := 0;
           c_cooldown := ticked (c_cooldown c) |}
  | tick_defer signal :
      signal <> SignalHold -> bumped c signal < s_hysteresisTicks s ->
      tick s crit c signal
        {| c_batch := c_batch c; c_last := signal; c_applied := c_applied c; c_streak := bumped c signal;
           c_cooldown := ticked (c_cooldown c) |}
  | tick_clamped signal :
      signal <> SignalHold -> s_hysteresisTicks s <= bumped c signal ->
      ~ moves signal (c_batch c) (target s (c_batch c) signal) ->
      tick s crit c signal
        {| c_batch := target s (c_batch c) signal; c_last := signal; c_applied := c_applied c;
           c_streak := 0; c_cooldown := ticked (c_cooldown c) |}
  | tick_apply signal :
      (0 < c_cooldown c -> isOppositeSignal signal (c_applied c) = true -> crit = true) ->
      s_hysteresisTicks s <= bumped c signal ->
      moves signal (c_batch c) (target s (c_batch c) signal) ->
      tick s crit c signal
        {| c_batch := target s (c_batch c) signal; c_last := signal; c_applied := signal;
           c_streak := 0; c_cooldown := s_cooldownTicks s |}.

(** No override and no hold is active. *)
Definition auto_mode (a : autoTuneController) : Prop :=
  s_operatorOverrideBatch (a_settings a) <= 0 /\ a_overrideReleaseLeft a <= 0 /\
  po_activationLeft (a_policy a) <= 0.

(** The signal a tick acts on. *)
Definition tick_signal (a : autoTuneController) (inputs : autoTuneInputs) : autoTuneSignal :=
  match (resolveTelemetryState a inputs).1 with
  | TelemetryHealthy => classifySignal a inputs (lag_of inputs)
  | _ => SignalHold
  end.

(** ** [Resolve] refines the machine *)

(** What [resolveTelemetryState] leaves alone. *)
Lemma telemetry_frame a i : exists t, (resolveTelemetryState a i).2 = set_telemetry t a.
Proof.
  unfold resolveTelemetryState. repeat case_match; simpl; eauto.
  exists (a_telemetry a). by destruct a.
Qed.

(** What a tick under automatic control leaves alone. *)
Definition same_frame (a a' : autoTuneController) : Prop :=
  a_settings a' = a_settings a /\ a_telemetry a' = a_telemetry a /\ a_policy a' = a_policy a /\
  a_overrideReleaseLeft a' = a_overrideReleaseLeft a.

Lemma moves_bool a signal : batch_moves a signal = true <->
  moves signal (a_currentBatch a) (target (a_settings a) (a_currentBatch a) signal).
Proof. destruct signal; unfold batch_moves, next_batch; simpl; rewrite ?Z.ltb_lt; done. Qed.

Lemma boundary_bool a signal : isSaturatedBoundary a signal = true <->
  at_boundary (a_settings a) (a_currentBatch a) signal.
Proof. destruct signal; simpl; rewrite ?Z.leb_le; done. Qed.

Lemma next_batch_target a signal :
  next_batch a signal = target (a_settings a) (a_currentBatch a) signal.
Proof. by destruct signal. Qed.

(** The end of a tick: the cooldown runs down unless control was applied. *)
Definition settle (r : string * bool * autoTuneController) : autoTuneController :=
  let '(_, applied, a) := r in
  if applied then a else set_adaptive (tick_cooldown (a_adaptive a)) a.

Lemma apply_signal_tick a signal crit :
  signal <> SignalHold -> s_hysteresisTicks (a_settings a) <= bumped (control_of a) signal ->
  (0 < c_cooldown (control_of a) -> isOppositeSignal signal (c_applied (control_of a)) = true -> crit = true) ->
  let a1 := set_adaptive (bump_streak signal (a_adaptive a)) a in
  tick (a_settings a) crit (control_of a) signal (control_of (settle (apply_signal a1 signal))) /\
  same_frame a (settle (apply_signal a1 signal)).
Proof.
  intros Hs Hh Hc a1. unfold apply_signal. destruct (batch_moves a1 signal) eqn:Em; simpl.
  - split; [|done]. rewrite next_batch_target. apply tick_apply; [done..|]. by apply moves_bool in Em.
  - split; [|done]. rewrite next_batch_target. apply tick_clamped; [done..|].
    intros Hm. change (moves signal (a_currentBatch a1) (target (a_settings a1) (a_currentBatch a1) signal)) in Hm.
    apply moves_bool in Hm. congruence.
Qed.

Lemma drive_signal_tick a signal crit :
  (0 < c_cooldown (control_of a) -> isOppositeSignal signal (c_applied (control_of a)) = true -> crit = true) ->
  tick (a_settings a) crit (control_of a) signal (control_of (settle (drive_signal a signal))) /\
  same_frame a (settle (drive_signal a signal)).
Proof.
  intros Hc. destruct (decide (signal = SignalHold)) as [->|Hs].
  { split; [apply tick_hold|done]. }
  replace (drive_signal a signal) with
    (let a1 := set_adaptive (bump_streak signal (a_adaptive a)) a in
     if bool_decide (ad_saturationSignal (a_adaptive a1) = signal) && isSaturatedBoundary a1 signal
     then (clampedDecisionForSignal signal, false, set_adaptive (with_streak 0 (a_adaptive a1)) a1)
     else if s_hysteresisTicks (a_settings a1) <=? ad_streak (a_adaptive a1)
     then apply_signal a1 signal else ("defer_hysteresis", false, a1)) by (by destruct signal).
  intros. cbv zeta. destruct (_ && _) eqn:Eb.
  { apply andb_true_iff in Eb as [_ Eb]. split; [|done]. apply tick_saturated. by apply boundary_bool in Eb. }
  destruct (Z.leb_spec (s_hysteresisTicks (a_settings a)) (bumped (control_of a) signal)) as [Hh|Hh].
  - replace (s_hysteresisTicks _ <=? _) with true by (symmetry; by apply Z.leb_le).
    by apply apply_signal_tick.
  - replace (s_hysteresisTicks _ <=? _) with false by (symmetry; by apply Z.leb_gt).
    split; [|done]. by apply tick_defer.
Qed.

Lemma resolve_auto_tick a i lag ts : let signal :=
    match ts with TelemetryHealthy => classifySignal a i lag | _ => SignalHold end in
  tick (a_settings a) (isCriticalChainScopedSignal signal i) (control_of a) signal
    (control_of (resolve_auto a i lag ts).2) /\
  same_frame a (resolve_auto a i lag ts).2 /\ (resolve_auto a i lag ts).1.1 = signal.
Proof.
  intros signal. unfold resolve_auto. fold signal.
  set (a1 := if negb (bool_decide (signal = ad_saturationSignal (a_adaptive a))) || _ then _ else _).
  assert (control_of a1 = control_of a /\ same_frame a a1) as [Hca Hfa] by (unfold a1; by destruct (_ || _)).
  destruct (blocked_by_cooldown a signal i) eqn:Eb.
  - simpl. rewrite <- Hca. split; [|done].
    unfold blocked_by_cooldown in Eb. rewrite !andb_true_iff, negb_true_iff, Z.ltb_lt in Eb.
    destruct Eb as [[Hcd Ho] Hcr]. rewrite Hcr.
    replace (control_of (set_adaptive _ _)) with
      {| c_batch := c_batch (control_of a1); c_last := signal; c_applied := c_applied (control_of a1);
         c_streak := bumped (control_of a1) signal; c_cooldown := c_cooldown (control_of a1) - 1 |}.
    + apply tick_blocked; rewrite ?Hca; done.
    + unfold control_of, ticked; simpl. f_equal. change (ad_cooldownLeft (a_adaptive a1)) with (c_cooldown (control_of a1)).
      rewrite Hca. simpl. destruct (Z.ltb_spec 0 (ad_cooldownLeft (a_adaptive a))); lia.
  - assert (Hset : a_settings a1 = a_settings a) by apply Hfa.
    destruct (drive_signal_tick a1 signal (isCriticalChainScopedSignal signal i)) as [Ht Hf].
    { rewrite Hca. intros Hcd Ho. unfold blocked_by_cooldown in Eb. simpl in *.
      apply Z.ltb_lt in Hcd. rewrite Hcd, Ho in Eb. by destruct (isCriticalChainScopedSignal signal i). }
    destruct (drive_signal a1 signal) as [[dec applied] a2]. unfold settle in *. simpl.
    rewrite <- Hca, <- Hset. split; [exact Ht|]. split; [|done].
    destruct Hfa as (?&?&?&?), Hf as (?&?&?&?). repeat split; congruence.
Qed.

(** The diagnostics of a tick. *)
Definition diagnosed (a : autoTuneController) (i : autoTuneInputs) : autoTuneDiagnostics := (Resolve a i).1.2.

Lemma auto_override a : auto_mode a -> resolveOverrideState a = OverrideAuto.
Proof.
  intros (H1 & H2 & _). unfold resolveOverrideState.
  destruct (Z.ltb_spec 0 (s_operatorOverrideBatch (a_settings a))); [lia|].
  by destruct (Z.ltb_spec 0 (a_overrideReleaseLeft a)); [lia|].
Qed.

Lemma Resolve_auto a i : auto_mode a ->
  tick (a_settings a) (isCriticalChainScopedSignal (tick_signal a i) i) (control_of a) (tick_signal a i)
    (control_of (resolved a i)) /\
  a_settings (resolved a i) = a_settings a /\ auto_mode (resolved a i) /\
  a_telemetry (resolved a i) = a_telemetry (resolveTelemetryState a i).2 /\
  dg_Signal (diagnosed a i) = signal_string (tick_signal a i).
Proof.
  intros Ha. unfold resolved, diagnosed, Resolve, tick_signal.
  destruct (telemetry_frame a i) as [t Et].
  destruct (resolveTelemetryState a i) as [ts a1]. simpl in Et. subst a1.
  assert (auto_mode (set_telemetry t a)) as Ha1 by exact Ha.
  rewrite (auto_override _ Ha1). destruct Ha as (H1 & H2 & H3).
  replace (0 <? po_activationLeft (a_policy (set_telemetry t a))) with false by (symmetry; by apply Z.ltb_ge).
  destruct (resolve_auto_tick (set_telemetry t a) i (lag_of i) ts) as (Ht & Hf & Hs).
  destruct (resolve_auto _ _ _ _) as [[sig dec] a2]. simpl in *. subst sig.
  destruct Hf as (F1 & F2 & F3 & F4). simpl. split; [exact Ht|].
  unfold auto_mode. simpl. rewrite F1, F2, F3, F4. done.
Qed.

(** A tick under an override or a hold: the batch stays, or is the override. *)
Lemma Resolve_held a i : ~ auto_mode a ->
  control_of (resolved a i) = fresh_control
    (if 0 <? s_operatorOverrideBatch (a_settings a)
     then clampInt (s_operatorOverrideBatch (a_settings a)) (min_batch a) (max_batch a) else a_currentBatch a) /\
  a_settings (resolved a i) = a_settings a /\
  a_telemetry (resolved a i) = a_telemetry (resolveTelemetryState a i).2 /\
  dg_Signal (diagnosed a i) = "hold".
Proof.
  intros Ha. unfold resolved, diagnosed, Resolve, resolveOverrideState.
  destruct (telemetry_frame a i) as [t Et].
  destruct (resolveTelemetryState a i) as [ts a1]. simpl in Et. subst a1. simpl.
  destruct (Z.ltb_spec 0 (s_operatorOverrideBatch (a_settings a))) as [Ho|Ho]; [done|].
  destruct (Z.ltb_spec 0 (a_overrideReleaseLeft a)) as [Hr|Hr]; [done|].
  destruct (Z.ltb_spec 0 (po_activationLeft (a_policy a))) as [Hp|Hp]; [done|].
  exfalso. apply Ha. done.
Qed.

(** The first result of [Resolve] is the batch it leaves. *)
Lemma Resolve_result a i :
  (Resolve a i).1.1 = a_currentBatch (resolved a i) /\
  dg_BatchAfter (diagnosed a i) = a_currentBatch (resolved a i) /\
  dg_BatchBefore (diagnosed a i) = a_currentBatch a.
Proof.
  unfold resolved, diagnosed, Resolve. destruct (telemetry_frame a i) as [t Et].
  destruct (resolveTelemetryState a i) as [ts a1]. simpl in Et. subst a1. simpl.
  destruct (resolveOverrideState _); [|done..]. destruct (0 <? _); [done|].
  destruct (resolve_auto _ _ _ _) as [[sig dec] a2]. done.
Qed.

(** ** Well-formed controllers *)

Record settings_wf (s : settings) : Prop := {
  sw_min : 1 <= s_minBatchSize s;
  sw_max : s_minBatchSize s <= s_maxBatchSize s;
  sw_up : 1 <= s_stepUp s;
  sw_down : 1 <= s_stepDown s;
  sw_hysteresis : 1 <= s_hysteresisTicks s;
  sw_cooldown : 1 <= s_cooldownTicks s;
  sw_stale : 1 <= s_telemetryStaleTicks s;
  sw_recovery : 1 <= s_telemetryRecoveryTicks s
}.

Lemma positive_or_pos v d : 1 <= d -> 1 <= positive_or v d.
Proof. unfold positive_or. destruct (Z.leb_spec v 0); lia. Qed.

Lemma normalized_settings_wf base cfg : settings_wf (normalized_settings base cfg).
Proof.
  unfold normalized_settings. split; cbn [s_minBatchSize s_maxBatchSize s_stepUp s_stepDown
    s_hysteresisTicks s_cooldownTicks s_telemetryStaleTicks s_telemetryRecoveryTicks];
    try (apply positive_or_pos; lia).
  - destruct (Z.ltb_spec (positive_or (cfg_MaxBatchSize cfg) base) (positive_or (cfg_MinBatchSize cfg) 1)); lia.
  - unfold nonneg. destruct (Z.ltb_spec (cfg_CooldownTicks cfg) 0); simpl; [apply positive_or_pos; lia|].
    destruct (Z.eqb_spec (cfg_CooldownTicks cfg) 0); [apply positive_or_pos|]; lia.
Qed.

Lemma clampInt_range v lo hi : lo <= hi -> lo <= clampInt v lo hi <= hi.
Proof.
  unfold clampInt. intros. destruct (Z.ltb_spec hi lo), (Z.ltb_spec v lo), (Z.ltb_spec hi v); lia.
Qed.

Lemma clampInt_id v lo hi : lo <= v <= hi -> clampInt v lo hi = v.
Proof.
  unfold clampInt. intros. destruct (Z.ltb_spec hi lo), (Z.ltb_spec v lo), (Z.ltb_spec hi v); lia.
Qed.

Record control_wf (s : settings) (c : control) : Prop := {
  cw_batch : s_minBatchSize s <= c_batch c <= s_maxBatchSize s;
  cw_cooldown : 0 <= c_cooldown c <= s_cooldownTicks s
}.

Lemma fresh_control_wf s b : settings_wf s -> s_minBatchSize s <= b <= s_maxBatchSize s ->
  control_wf s (fresh_control b).
Proof. intros [] ?. split; simpl; lia. Qed.

Lemma target_range s b signal : settings_wf s -> s_minBatchSize s <= b <= s_maxBatchSize s ->
  s_minBatchSize s <= target s b signal <= s_maxBatchSize s.
Proof. intros [] ?. destruct signal; simpl; [done|apply clampInt_range; lia..]. Qed.

Lemma ticked_range n m : 0 <= n <= m -> 0 <= ticked n <= m.
Proof. unfold ticked. intros. destruct (Z.ltb_spec 0 n); lia. Qed.

Lemma tick_wf s crit c signal c' : settings_wf s -> control_wf s c -> tick s crit c signal c' -> control_wf s c'.
Proof.
  intros Hs [Hb Hc] Ht.
  destruct Ht; split; cbn [c_batch c_cooldown]; try apply target_range; try apply ticked_range; try done;
    destruct Hs; lia.
Qed.

Record controller_wf (a : autoTuneController) : Prop := {
  wf_settings : settings_wf (a_settings a);
  wf_control : control_wf (a_settings a) (control_of a);
  wf_override : 0 < s_operatorOverrideBatch (a_settings a) ->
    a_currentBatch a = s_operatorOverrideBatch (a_settings a)
}.

(** The batch of a controller under an override is the override already. *)
Lemma held_batch a : controller_wf a ->
  (if 0 <? s_operatorOverrideBatch (a_settings a)
   then clampInt (s_operatorOverrideBatch (a_settings a)) (min_batch a) (max_batch a) else a_currentBatch a)
  = a_currentBatch a.
Proof.
  intros [_ [Hb _] Ho]. destruct (Z.ltb_spec 0 (s_operatorOverrideBatch (a_settings a))); [|done].
  rewrite <- Ho by done. by apply clampInt_id.
Qed.

Lemma control_batch a c : control_of a = c -> a_currentBatch a = c_batch c.
Proof. by intros <-. Qed.

Lemma fresh_controller a a' : controller_wf a -> a_settings a' = a_settings a ->
  control_of a' = fresh_control (a_currentBatch a) -> controller_wf a'.
Proof.
  intros [Hs Hc Ho] Hset Hct. split; rewrite Hset; [done| |].
  - rewrite Hct. apply fresh_control_wf; [done|]. apply (cw_batch _ _ Hc).
  - intros H. by rewrite (control_batch _ _ Hct), <- Ho.
Qed.

Definition auto_mode_dec a : {auto_mode a} + {~ auto_mode a} :=
  decide (s_operatorOverrideBatch (a_settings a) <= 0 /\ a_overrideReleaseLeft a <= 0 /\
    po_activationLeft (a_policy a) <= 0).

Lemma Resolve_wf a i : controller_wf a -> controller_wf (resolved a i) /\ a_settings (resolved a i) = a_settings a.
Proof.
  intros Hw. destruct (auto_mode_dec a) as [Ha|Ha].
  - destruct (Resolve_auto a i Ha) as (Ht & Hset & _). split; [|done]. destruct Hw as [Hs Hc Ho], Ha.
    split; rewrite Hset; [done| |lia]. by eapply tick_wf.
  - destruct (Resolve_held a i Ha) as (Hct & Hset & _). rewrite (held_batch _ Hw) in Hct.
    split; [|done]. by eapply fresh_controller.
Qed.

Lemma start_batch_range s base seed bounded : settings_wf s ->
  (0 < s_operatorOverrideBatch s -> s_minBatchSize s <= s_operatorOverrideBatch s <= s_maxBatchSize s) ->
  s_minBatchSize s <= start_batch s base seed bounded <= s_maxBatchSize s.
Proof.
  intros [Hm HM _ _ _ _ _ _] Ho. unfold start_batch. destruct (Z.ltb_spec 0 (s_operatorOverrideBatch s)); [auto|].
  cbv zeta. set (c := match seed with Some _ => _ | None => _ end).
  pose proof (clampInt_range c _ _ HM). destruct (Z.leb_spec (clampInt c (s_minBatchSize s) (s_maxBatchSize s)) 0); lia.
Qed.

Lemma new_controller_wf base cfg seed bounded a :
  newAutoTuneControllerWithSeedMode base cfg seed bounded = Some a ->
  controller_wf a /\ a_settings a = normalized_settings base cfg.
Proof.
  unfold newAutoTuneControllerWithSeedMode. destruct (cfg_Enabled cfg); simpl; [|done].
  intros [= <-]. pose proof (normalized_settings_wf base cfg) as Hs. split; [|done].
  split; simpl; [done| |].
  2: { intros Ho. unfold start_batch. by destruct (Z.ltb_spec 0 (s_operatorOverrideBatch (normalized_settings base cfg))); [|simpl in *; lia]. }
  split; simpl; [|destruct Hs; simpl in *; lia].
  apply (start_batch_range (normalized_settings base cfg)); [done|]. cbn [normalized_settings s_operatorOverrideBatch].
  destruct (0 <? cfg_OperatorOverrideBatchSize cfg); [|lia]. intros _.
  apply clampInt_range. apply (sw_max _ Hs).
Qed.

Create HintDb policy.

(** A policy transition changes the policy and may restart the adaptive state. *)
Definition policy_only (a a' : autoTuneController) : Prop :=
  exists p, a' = set_policy p a \/ a' = resetAdaptiveControlState (set_policy p a).

Lemma policy_only_trans a1 a2 a3 : policy_only a1 a2 -> policy_only a2 a3 -> policy_only a1 a3.
Proof. intros [p [->| ->]] [q [->| ->]]; exists q; auto. Qed.

Lemma policy_only_refl a : policy_only a a.
Proof. exists (a_policy a). left. by destruct a. Qed.

Lemma policy_only_own a d e : policy_only a (own a d e).
Proof. unfold own. eexists. by left. Qed.

Lemma policy_only_adopt a d e : policy_only a (adopt a d e).
Proof. unfold adopt. eexists. by right. Qed.

Lemma policy_only_raise a a' h : policy_only a a' -> policy_only a (raise_hold a' h).
Proof.
  intros Ha. apply (policy_only_trans _ _ _ Ha). unfold raise_hold.
  destruct (_ <? _); [eexists; by right|apply policy_only_refl].
Qed.

#[local] Hint Resolve policy_only_refl policy_only_own policy_only_adopt policy_only_raise : policy.

Lemma reconcilePolicy_only a t : policy_only a (reconcilePolicyTransition a t).
Proof. unfold reconcilePolicyTransition. repeat case_match; auto with policy. Qed.

(** An override transition leaves the batch, unless an override fixes it. *)
Lemma reconcileOverride_control a t :
  a_settings (reconcileOverrideTransition a t) = a_settings a /\
  (control_of (reconcileOverrideTransition a t) = control_of a \/
   control_of (reconcileOverrideTransition a t) = fresh_control
     (if 0 <? s_operatorOverrideBatch (a_settings a)
      then clampInt (s_operatorOverrideBatch (a_settings a)) (min_batch a) (max_batch a) else a_currentBatch a)).
Proof.
  unfold reconcileOverrideTransition. destruct (0 <? s_operatorOverrideBatch (a_settings a)); [by auto|].
  repeat case_match; auto.
Qed.

Lemma act_wf a x : controller_wf a -> controller_wf (act a x) /\ a_settings (act a x) = a_settings a.
Proof.
  intros Ha. destruct x as [i|t|t]; simpl.
  - by apply Resolve_wf.
  - destruct (reconcileOverride_control a t) as [Hset Hc]. split; [|done]. rewrite (held_batch _ Ha) in Hc.
    destruct Hc as [Hc|Hc]; [|by eapply fresh_controller]. pose proof (control_batch _ _ Hc) as Hb.
    destruct Ha as [Hs Hw Ho]. split; rewrite Hset; [done|by rewrite Hc|]. intros. by rewrite Hb, <- Ho.
  - destruct (reconcilePolicy_only a t) as [p [->| ->]]; (split; [|done]).
    + by destruct Ha.
    + by apply (fresh_controller a).
Qed.

Lemma acts_wf xs a : controller_wf a ->
  controller_wf (foldl act a xs) /\ a_settings (foldl act a xs) = a_settings a.
Proof.
  revert a. induction xs as [|x xs IH]; intros a Ha; [done|]. simpl.
  destruct (act_wf a x Ha) as [Hw Hs]. destruct (IH _ Hw) as [? ->]. done.
Qed.

Lemma reachable_wf a : reachable a -> controller_wf a.
Proof. induction 1; [by eapply new_controller_wf|by apply act_wf]. Qed.

(** C28: the bounds.  Whatever the configuration, the seed of the previous run and the
    sequence of ticks, operator transitions and policy transitions - with any inputs,
    overflowing ones included - the batch size a tick returns is at least 1 and between
    the configured bounds, which never change. *)
Theorem autotune_bounds base cfg seed bounded a (xs : list action) (i : autoTuneInputs) :
  newAutoTuneControllerWithSeedMode base cfg seed bounded = Some a ->
  let s := normalized_settings base cfg in
  1 <= s_minBatchSize s /\
  s_minBatchSize s <= (Resolve (foldl act a xs) i).1.1 <= s_maxBatchSize s.
Proof.
  intros Hn s. destruct (new_controller_wf _ _ _ _ _ Hn) as [Ha Hs].
  destruct (acts_wf xs a Ha) as [Hw Hset]. destruct (Resolve_wf _ i Hw) as [[Hsw Hc _] Hset'].
  rewrite (proj1 (Resolve_result _ _)). rewrite Hset', Hset, Hs in Hsw, Hc.
  split; [apply (sw_min _ Hsw)|apply (cw_batch _ _ Hc)].
Qed.

(** ** A sample controller *)

Definition sample_config : AutoTuneConfig :=
  {| cfg_Enabled := true; cfg_MinBatchSize := 10; cfg_MaxBatchSize := 100; cfg_StepUp := 20; cfg_StepDown := 30;
     cfg_LagHighWatermark := 50; cfg_LagLowWatermark := 5; cfg_QueueHighWatermarkPct := 80;
     cfg_QueueLowWatermarkPct := 30; cfg_HysteresisTicks := 2; cfg_CooldownTicks := 3;
     cfg_TelemetryStaleTicks := 2; cfg_TelemetryRecoveryTicks := 2; cfg_OperatorOverrideBatchSize := 0;
     cfg_OperatorReleaseHoldTicks := 0; cfg_PolicyVersion := ""; cfg_PolicyManifestDigest := "";
     cfg_PolicyManifestRefreshEpoch := 0; cfg_PolicyActivationHoldTicks := 0 |}.

Definition sample_inputs (head cursor depth : Z) : autoTuneInputs :=
  {| in_Chain := "base"; in_Network := "mainnet"; in_HasHeadSignal := true; in_HeadSequence := head;
     in_HasMinCursorSignal := true; in_MinCursorSequence := cursor; in_QueueDepth := depth;
     in_QueueCapacity := 10; in_RPCErrorRateBps := 0; in_DBCommitLatencyP95Ms := 0; in_DecisionEpochMs := 0 |}.

Definition lagging : autoTuneInputs := sample_inputs 1000 100 0.
Definition congested : autoTuneInputs := sample_inputs 1000 100 9.

Definition sample_controller : autoTuneController :=
  {| a_settings := normalized_settings 40 sample_config; a_adaptive := reset_adaptive;
     a_telemetry := {| te_fallback := false; te_armed := false; te_staleObserved := 0; te_recoverySeen := 0 |};
     a_policy := {| po_manifestDigest := "manifest-v1"; po_epoch := 0; po_activationLeft := 0 |};
     a_currentBatch := 40; a_overrideReleaseLeft := 0; a_decisionSequence := 0 |}.

Lemma sample_controller_new :
  newAutoTuneControllerWithSeedMode 40 sample_config None false = Some sample_controller.
Proof. reflexivity. Qed.

Lemma autotune_bounds_witness :
  10 <= (Resolve (foldl act sample_controller [ActResolve lagging; ActResolve lagging]) congested).1.1 <= 100.
Proof.
  apply (autotune_bounds 40 sample_config None false sample_controller
    [ActResolve lagging; ActResolve lagging] congested sample_controller_new).
Defined.

(** ** Hysteresis *)

(** The signals of the ticks among the actions. *)
Fixpoint signals (a : autoTuneController) (xs : list action) : list string :=
  match xs with
  | [] => []
  | x :: xs' =>
      match x with ActResolve i => [dg_Signal (diagnosed a i)] | _ => [] end ++ signals (act a x) xs'
  end.

Lemma signals_app a xs ys : signals a (xs ++ ys) = signals a xs ++ signals (foldl act a xs) ys.
Proof. revert a. induction xs as [|x xs IH]; intros a; [done|]. simpl. by rewrite IH, app_assoc. Qed.

(** The streak counts signals at the end of the history that are the last one. *)
Definition streak_sound (history : list string) (c : control) : Prop :=
  min_int64 <= c_streak c /\
  exists pre n, c_streak c <= Z.of_nat n /\ history = pre ++ replicate n (signal_string (c_last c)).

Lemma streak_zero history c : c_streak c = 0 -> streak_sound history c.
Proof.
  intros H. split; [rewrite H; unfold min_int64; lia|]. exists history, 0%nat.
  rewrite H, app_nil_r. split; [lia|done].
Qed.

Lemma wrap64_le z : min_int64 <= z -> wrap64 z <= z.
Proof.
  unfold wrap64, min_int64. intros. pose proof (Z.mod_le (z + 2 ^ 63) (2 ^ 64)). lia.
Qed.

Lemma bumped_sound history c signal : streak_sound history c ->
  min_int64 <= bumped c signal /\
  exists pre n, bumped c signal <= Z.of_nat n /\
    history ++ [signal_string signal] = pre ++ replicate n (signal_string signal).
Proof.
  intros (Hm & pre & n & Hn & ->). unfold bumped. case_decide as Hl.
  - split; [apply wrap64_range|]. exists pre, (S n). subst signal. split.
    + etransitivity; [apply wrap64_le|]; lia.
    + by rewrite <- app_assoc, <- replicate_S_end.
  - split; [unfold min_int64; lia|]. exists (pre ++ replicate n (signal_string (c_last c))), 1%nat.
    split; [lia|done].
Qed.

Lemma tick_streak s crit c signal c' history :
  streak_sound history c -> tick s crit c signal c' -> streak_sound (history ++ [signal_string signal]) c'.
Proof.
  intros Hs Ht. destruct Ht; try by apply streak_zero.
  - by apply (bumped_sound _ _ signal) in Hs.
  - by apply (bumped_sound _ _ signal) in Hs.
Qed.

Lemma act_streak history a x : controller_wf a -> streak_sound history (control_of a) ->
  streak_sound (history ++ signals a [x]) (control_of (act a x)).
Proof.
  intros Hw Hs. destruct x as [i|t|t]; cbn [signals act app]; rewrite ?app_nil_r.
  - destruct (auto_mode_dec a) as [Ha|Ha].
    + destruct (Resolve_auto a i Ha) as (Ht & _ & _ & _ & ->). by eapply tick_streak.
    + destruct (Resolve_held a i Ha) as (-> & _). by apply streak_zero.
  - destruct (reconcileOverride_control a t) as [_ [->| ->]]; [done|by apply streak_zero].
  - destruct (reconcilePolicy_only a t) as [p [->| ->]]; [done|by apply streak_zero].
Qed.

Lemma acts_streak xs a history : controller_wf a -> streak_sound history (control_of a) ->
  streak_sound (history ++ signals a xs) (control_of (foldl act a xs)).
Proof.
  revert a history. induction xs as [|x xs IH]; intros a history Hw Hs; [by rewrite app_nil_r|].
  change (x :: xs) with ([x] ++ xs). rewrite signals_app, app_assoc. apply IH; [by apply act_wf|].
  by apply act_streak.
Qed.

(** The arithmetic of a step fits in [int]. *)
Definition steps_fit (s : settings) : Prop :=
  s_maxBatchSize s + s_stepUp s <= max_int64 /\ s_stepDown s <= max_int64.

Lemma target_step s b signal : settings_wf s -> steps_fit s -> s_minBatchSize s <= b <= s_maxBatchSize s ->
  match signal with
  | SignalIncrease => target s b signal = Z.min (b + s_stepUp s) (s_maxBatchSize s)
  | SignalDecrease => target s b signal = Z.max (b - s_stepDown s) (s_minBatchSize s)
  | SignalHold => target s b signal = b
  end.
Proof.
  intros [] [Hu Hd] Hb. unfold max_int64 in *. destruct signal; simpl; [done|..]; rewrite wrap64_id;
    try (unfold in_int64, min_int64, max_int64; lia); unfold clampInt.
  - repeat case_match; lia.
  - repeat case_match; lia.
Qed.

Lemma target_limits s b signal : settings_wf s -> steps_fit s -> s_minBatchSize s <= b <= s_maxBatchSize s ->
  b - s_stepDown s <= target s b signal <= b + s_stepUp s.
Proof.
  intros Hs Hf Hb. pose proof (target_step s b signal Hs Hf Hb). destruct Hs. destruct signal; lia.
Qed.

Lemma tick_change s crit c signal c' : settings_wf s -> steps_fit s -> control_wf s c ->
  tick s crit c signal c' -> c_batch c' <> c_batch c ->
  s_hysteresisTicks s <= bumped c signal /\ moves signal (c_batch c) (c_batch c') /\
  c_batch c' = target s (c_batch c) signal.
Proof.
  intros Hs Hf [Hb _] Ht Hne. pose proof (target_step s _ signal Hs Hf Hb) as Hst.
  destruct Ht as [| | | |signal Hh Hbu Hm|signal]; simpl in *; try done.
  exfalso. apply Hm. destruct Hs. destruct signal; simpl in *; lia.
Qed.

(** Also: hysteresis and the step limits.  After any sequence of ticks and transitions of a
    new controller, a tick moves the batch only if at least [hysteresisTicks] ticks in a
    row, itself included, gave the same signal; it moves in the direction of that signal
    and by at most the configured step. *)
Theorem autotune_hysteresis base cfg seed bounded a (xs : list action) (i : autoTuneInputs) :
  newAutoTuneControllerWithSeedMode base cfg seed bounded = Some a ->
  let s := normalized_settings base cfg in
  steps_fit s ->
  let before := a_currentBatch (foldl act a xs) in
  let after := (Resolve (foldl act a xs) i).1.1 in
  after <> before ->
  exists signal pre n, signals a (xs ++ [ActResolve i]) = pre ++ replicate n (signal_string signal) /\
    s_hysteresisTicks s <= Z.of_nat n /\ moves signal before after /\
    before - s_stepDown s <= after <= before + s_stepUp s.
Proof.
  cbv zeta. intros Hn Hf Hne. destruct (new_controller_wf _ _ _ _ _ Hn) as [Ha Hs].
  assert (streak_sound [] (control_of a)) as Hz.
  { apply streak_zero. unfold newAutoTuneControllerWithSeedMode in Hn. destruct (cfg_Enabled cfg); [|done].
    by injection Hn as <-. }
  pose proof (acts_streak xs a [] Ha Hz) as Hst. destruct (acts_wf xs a Ha) as [Hw Hset].
  set (a1 := foldl act a xs) in *. rewrite (proj1 (Resolve_result _ _)) in *. rewrite signals_app. fold a1. simpl.
  destruct (auto_mode_dec a1) as [Hau|Hau].
  - destruct (Resolve_auto a1 i Hau) as (Ht & _ & _ & _ & ->). rewrite Hset, Hs in Ht.
    assert (settings_wf (normalized_settings base cfg)) as Hsw by apply normalized_settings_wf.
    assert (control_wf (normalized_settings base cfg) (control_of a1)) as Hc by (rewrite <- Hs, <- Hset; apply Hw).
    destruct (tick_change _ _ _ _ _ Hsw Hf Hc Ht Hne) as (Hh & Hm & Htg).
    destruct (bumped_sound _ _ (tick_signal a1 i) Hst) as (_ & pre & n & Hb & Heq).
    pose proof (target_limits _ _ (tick_signal a1 i) Hsw Hf (cw_batch _ _ Hc)) as Hl. rewrite <- Htg in Hl.
    exists (tick_signal a1 i), pre, n. split_and!; [done|exact (Z.le_trans _ _ _ Hh Hb)|exact Hm|apply Hl..].
  - destruct (Resolve_held a1 i Hau) as (Hct & _). rewrite (held_batch _ Hw) in Hct.
    by rewrite (control_batch _ _ Hct) in Hne.
Qed.

Lemma autotune_hysteresis_witness :
  exists signal pre n, signals sample_controller ([ActResolve lagging] ++ [ActResolve lagging])
      = pre ++ replicate n (signal_string signal) /\
    2 <= Z.of_nat n /\ moves signal 40 60 /\ 40 - 30 <= 60 <= 40 + 20.
Proof.
  apply (autotune_hysteresis 40 sample_config None false sample_controller [ActResolve lagging] lagging
    sample_controller_new).
  - vm_compute. split; discriminate.
  - intros H. vm_compute in H. discriminate H.
Defined.

(** ** Cooldown *)

(** [drifts dir b b']: not against the direction. *)
Definition drifts (dir : autoTuneSignal) (b b' : Z) : Prop :=
  match dir with SignalIncrease => b <= b' | SignalDecrease => b' <= b | SignalHold => True end.

(** Inputs whose error rate and commit latency are below the critical marks. *)
Definition calm (i : autoTuneInputs) : Prop := isCriticalChainScopedSignal SignalDecrease i = false.

Lemma calm_any i signal : calm i -> isCriticalChainScopedSignal signal i = false.
Proof. by destruct signal. Qed.

Record protected (dir : autoTuneSignal) (k : Z) (a : autoTuneController) : Prop := {
  pr_auto : auto_mode a;
  pr_applied : c_applied (control_of a) = dir;
  pr_cooldown : k <= c_cooldown (control_of a)
}.

Lemma ticked_le k n : 0 < k <= n -> k - 1 <= ticked n.
Proof. unfold ticked. intros. destruct (Z.ltb_spec 0 n); lia. Qed.

(** In a cooldown a tick without critical inputs drifts. *)
Lemma tick_protected s c signal c' k :
  settings_wf s -> steps_fit s -> control_wf s c -> 0 < k <= c_cooldown c ->
  tick s false c signal c' ->
  drifts (c_applied c) (c_batch c) (c_batch c') /\
  (c_applied c <> SignalHold -> c_applied c' = c_applied c /\ k - 1 <= c_cooldown c').
Proof.
  intros Hs Hf [Hb Hc] Hk Ht. pose proof (target_step s _ signal Hs Hf Hb) as Hst. destruct Hs.
  assert (forall b, drifts (c_applied c) b b) as Hrefl by (intros b; destruct (c_applied c); simpl; lia).
  destruct Ht as [|signal|signal|signal|signal Hh Hbu Hm|signal Ho Hbu Hm]; simpl; auto using ticked_le.
  - split; [auto|]. split; [done|lia].
  - replace (target s (c_batch c) signal) with (c_batch c); [auto using ticked_le|].
    destruct signal; simpl in *; lia.
  - assert (c_applied c <> SignalHold -> signal = c_applied c) as Heq.
    { intros Hne. assert (isOppositeSignal signal (c_applied c) = false) as Hop.
      { destruct (isOppositeSignal _ _) eqn:E; [|done]. discriminate Ho; [lia|done]. }
      destruct signal, (c_applied c); try done. }
    destruct (decide (c_applied c = SignalHold)) as [->|Hne]; [done|]. rewrite <- Heq by done.
    split; [destruct signal; simpl in *; lia|]. intros _. split; [done|lia].
Qed.

Lemma protected_step a i dir k : controller_wf a -> steps_fit (a_settings a) -> dir <> SignalHold ->
  protected dir k a -> 0 < k -> calm i ->
  drifts dir (a_currentBatch a) (a_currentBatch (resolved a i)) /\ protected dir (k - 1) (resolved a i).
Proof.
  intros Hw Hf Hd [Ha Hap Hc] Hk Hi. destruct (Resolve_auto a i Ha) as (Ht & _ & Ha' & _).
  rewrite (calm_any i) in Ht by done.
  destruct (tick_protected _ _ _ _ k (wf_settings _ Hw) Hf (wf_control _ Hw) (conj Hk Hc) Ht) as [Hdr Hcd].
  rewrite Hap in *. destruct (Hcd Hd). split; [exact Hdr|by split].
Qed.

Lemma protected_run ins a dir : controller_wf a -> steps_fit (a_settings a) -> dir <> SignalHold ->
  forall k, Z.of_nat (length ins) <= k -> protected dir k a -> Forall calm ins ->
  controller_wf (foldl resolved a ins) /\ a_settings (foldl resolved a ins) = a_settings a /\
  protected dir (k - Z.of_nat (length ins)) (foldl resolved a ins).
Proof.
  revert a. induction ins as [|i ins IH]; intros a Hw Hf Hd k Hk Hp Hi; simpl in *.
  { split_and!; [done..|]. by rewrite Z.sub_0_r. }
  apply Forall_cons in Hi as [Hi His]. destruct (Resolve_wf a i Hw) as [Hw' Hset].
  destruct (protected_step a i dir k Hw Hf Hd Hp ltac:(lia) Hi) as [_ Hp'].
  destruct (IH (resolved a i) Hw' ltac:(by rewrite Hset) Hd (k - 1) ltac:(lia) Hp' His) as (H1 & H2 & H3).
  split_and!; [done|congruence|]. by replace (k - Z.of_nat (S (length ins))) with (k - 1 - Z.of_nat (length ins)) by lia.
Qed.

(** A tick that moves the batch starts a cooldown. *)
Lemma tick_move s crit c signal c' dir : settings_wf s -> steps_fit s -> control_wf s c ->
  tick s crit c signal c' -> moves dir (c_batch c) (c_batch c') ->
  c_applied c' = dir /\ c_cooldown c' = s_cooldownTicks s.
Proof.
  intros Hs Hf Hc Ht Hm.
  assert (c_batch c' <> c_batch c) as Hne by (destruct dir; simpl in *; lia).
  destruct (tick_change _ _ _ _ _ Hs Hf Hc Ht Hne) as (_ & Hmv & _).
  assert (signal = dir) as -> by (destruct dir, signal; simpl in *; lia || done).
  destruct Ht; simpl in *; done.
Qed.

Lemma move_protects a i dir : controller_wf a -> steps_fit (a_settings a) ->
  moves dir (a_currentBatch a) (a_currentBatch (resolved a i)) ->
  protected dir (s_cooldownTicks (a_settings a)) (resolved a i).
Proof.
  intros Hw Hf Hm. destruct (auto_mode_dec a) as [Ha|Ha].
  - destruct (Resolve_auto a i Ha) as (Ht & _ & Ha' & _).
    destruct (tick_move _ _ _ _ _ dir (wf_settings _ Hw) Hf (wf_control _ Hw) Ht Hm) as [? Hcd].
    split; [done..|]. by rewrite Hcd.
  - destruct (Resolve_held a i Ha) as (Hct & _). rewrite (held_batch _ Hw) in Hct.
    rewrite (control_batch _ _ Hct) in Hm. destruct dir; simpl in Hm; lia.
Qed.

(** Also: no flapping.  Once a tick of a reachable controller has moved the batch, none of
    the next [cooldownTicks] ticks moves it the other way, unless its inputs are critical
    (an RPC error rate or a commit latency of 250 or more). *)
Theorem autotune_no_flapping a i0 dir ins i :
  reachable a -> steps_fit (a_settings a) ->
  moves dir (a_currentBatch a) (Resolve a i0).1.1 ->
  Z.of_nat (length ins) < s_cooldownTicks (a_settings a) ->
  Forall calm (ins ++ [i]) ->
  let a1 := foldl resolved (resolved a i0) ins in
  drifts dir (a_currentBatch a1) (Resolve a1 i).1.1.
Proof.
  intros Hr Hf Hm Hlen Hcalm a1. apply reachable_wf in Hr as Hw.
  rewrite (proj1 (Resolve_result _ _)). rewrite (proj1 (Resolve_result _ _)) in Hm.
  assert (dir <> SignalHold) as Hd by (by intros ->). apply Forall_app in Hcalm as [His Hi].
  apply Forall_cons in Hi as [Hi _]. destruct (Resolve_wf a i0 Hw) as [Hw' Hset].
  pose proof (move_protects _ _ _ Hw Hf Hm) as Hp.
  destruct (protected_run ins _ dir Hw' ltac:(by rewrite Hset) Hd (s_cooldownTicks (a_settings a)) ltac:(lia) Hp His) as (Hw1 & Hset1 & Hp1).
  by destruct (protected_step _ i dir _ Hw1 ltac:(by rewrite Hset1, Hset) Hd Hp1 ltac:(lia) Hi).
Qed.

(** A lagging chain raises the batch to 60; congestion does not lower it in the cooldown. *)
Lemma autotune_no_flapping_witness :
  let a1 := foldl resolved (resolved (resolved sample_controller lagging) lagging) [congested; congested] in
  drifts SignalIncrease (a_currentBatch a1) (Resolve a1 congested).1.1 /\ (Resolve a1 congested).1.1 = 60.
Proof.
  split; [|reflexivity].
  apply (autotune_no_flapping (resolved sample_controller lagging) lagging SignalIncrease [congested; congested]).
  - apply (reach_act _ (ActResolve lagging)). eapply reach_new. exact sample_controller_new.
  - vm_compute. split; discriminate.
  - vm_compute. reflexivity.
  - vm_compute. reflexivity.
  - repeat constructor.
Defined.

(** ** Convergence *)

(** The counters fit in [int]. *)
Definition counts_fit (s : settings) : Prop := s_hysteresisTicks s + s_cooldownTicks s < max_int64.

Definition streak_bounded (s : settings) (c : control) : Prop :=
  0 <= c_streak c /\ c_streak c + c_cooldown c <= s_hysteresisTicks s + s_cooldownTicks s.

(** The streak of increases. *)
Definition rising (c : control) : Z := if decide (c_last c = SignalIncrease) then c_streak c else 0.

Lemma bumped_exact s c signal : settings_wf s -> counts_fit s -> control_wf s c -> streak_bounded s c ->
  bumped c signal = (if decide (c_last c = signal) then c_streak c else 0) + 1.
Proof.
  intros [] Hf [_ Hc] [H0 Hb]. unfold bumped, counts_fit, max_int64 in *. case_decide; [|done].
  rewrite wrap64_id; [done|]. unfold in_int64, min_int64, max_int64. lia.
Qed.

Lemma tick_bounded s crit c signal c' : settings_wf s -> counts_fit s -> control_wf s c ->
  streak_bounded s c -> tick s crit c signal c' -> streak_bounded s c'.
Proof.
  intros Hs Hf Hc Hb Ht. pose proof (bumped_exact _ _ signal Hs Hf Hc Hb) as He.
  destruct Hs, Hc as [_ Hc], Hb as [Hb0 Hb]. pose proof (ticked_range _ _ Hc).
  assert (ticked (c_cooldown c) = c_cooldown c - 1 \/ c_cooldown c = 0) by
    (unfold ticked; destruct (Z.ltb_spec 0 (c_cooldown c)); lia).
  destruct Ht; unfold streak_bounded; simpl; try lia; rewrite He in *; case_decide; lia.
Qed.

Lemma reachable_bounded a : reachable a -> counts_fit (a_settings a) ->
  streak_bounded (a_settings a) (control_of a).
Proof.
  assert (forall s b, settings_wf s -> streak_bounded s (fresh_control b)) as Hfr.
  { intros s b []. unfold streak_bounded. simpl. lia. }
  induction 1 as [base cfg seed bounded a Hn|a x Hr IH]; intros Hf.
  - pose proof (new_controller_wf _ _ _ _ _ Hn) as [[Hs _ _] _].
    replace (control_of a) with (fresh_control (a_currentBatch a)); [by apply Hfr|].
    unfold newAutoTuneControllerWithSeedMode in Hn. destruct (cfg_Enabled cfg); [|done]. by injection Hn as <-.
  - apply reachable_wf in Hr as Hw. destruct (act_wf a x Hw) as [_ Hset]. rewrite Hset in *. specialize (IH Hf).
    destruct x as [i|t|t]; simpl.
    + destruct (auto_mode_dec a) as [Ha|Ha].
      * destruct (Resolve_auto a i Ha) as (Ht & _). destruct Hw as [Hs Hc _]. by eapply tick_bounded.
      * destruct (Resolve_held a i Ha) as (-> & _). apply Hfr, Hw.
    + destruct (reconcileOverride_control a t) as [_ [->| ->]]; [done|apply Hfr, Hw].
    + destruct (reconcilePolicy_only a t) as [p [->| ->]]; [done|apply (Hfr _ (a_currentBatch a)), Hw].
Qed.

(** Nothing blocks an increase. *)
Definition open (c : control) : Prop := c_applied c = SignalDecrease -> c_cooldown c <= 0.

#[export] Instance open_dec c : Decision (open c).
Proof. unfold open. apply _. Defined.

(** A tick asked to increase: at the maximum it stays; otherwise a closed control only
    waits, and an open one steps up or is one tick nearer to it. *)
Lemma tick_increase s c c' : settings_wf s -> steps_fit s -> counts_fit s -> control_wf s c ->
  streak_bounded s c -> tick s false c SignalIncrease c' ->
  (c_batch c = s_maxBatchSize s -> c_batch c' = s_maxBatchSize s) /\
  (~ open c -> c_batch c' = c_batch c /\ c_cooldown c' = c_cooldown c - 1) /\
  (open c -> open c' /\
    (c_batch c = s_maxBatchSize s \/
     c_batch c' = Z.min (c_batch c + s_stepUp s) (s_maxBatchSize s) /\ rising c' = 0 \/
     c_batch c' = c_batch c /\ rising c' = rising c + 1 /\ rising c + 1 < s_hysteresisTicks s)).
Proof.
  intros Hs Hsf Hcf Hc Hb Ht. pose proof (bumped_exact _ _ SignalIncrease Hs Hcf Hc Hb) as He.
  destruct Hc as [Hcb Hcc]. pose proof (target_step s _ SignalIncrease Hs Hsf Hcb) as Hst. simpl in Hst.
  fold (rising c) in He. destruct Hs.
  assert (~ open c -> ticked (c_cooldown c) = c_cooldown c - 1) as Htk.
  { unfold open, ticked. destruct (Z.ltb_spec 0 (c_cooldown c)); [done|]. intros []. lia. }
  assert (open c -> c_applied c = SignalDecrease -> ticked (c_cooldown c) <= 0) as Hto.
  { unfold open, ticked. destruct (Z.ltb_spec 0 (c_cooldown c)); intros Ho Ha; specialize (Ho Ha); lia. }
  remember SignalIncrease as signal eqn:Esig.
  destruct Ht as [|signal Hcd Hop _|signal Hbd|signal Hne Hbu|signal Hne Hbu Hm|signal Hop Hbu Hm]; simplify_eq;
    simpl in *.
  - split_and!; [done|done|]. intros Ho. exfalso. apply bool_decide_eq_true in Hop. specialize (Ho Hop). lia.
  - split_and!; [done|auto|]. intros Ho. split; [exact (Hto Ho)|]. left. lia.
  - split_and!; [done|auto|]. intros Ho. split; [exact (Hto Ho)|]. right. right.
    unfold rising at 1. simpl. rewrite He in *. split_and!; [done|done|lia].
  - split_and!; [lia|intros Hno; split; [lia|auto]|]. intros Ho. split; [exact (Hto Ho)|]. left. lia.
  - split_and!; [lia| |].
    + intros Hno. exfalso. apply Hno. intros Ha. destruct (Z.ltb_spec 0 (c_cooldown c)) as [Hp|Hp]; [|done].
      discriminate Hop; [done|by rewrite Ha].
    + intros _. split; [done|]. right. left. split; [exact Hst|done].
Qed.

(** Runs of the machine under a constant pressure to increase. *)
Section Pressed.
Context (s : settings) (Hs : settings_wf s) (Hsf : steps_fit s) (Hcf : counts_fit s).
Context (run : nat -> control).
Context (Hwf : forall k, control_wf s (run k)) (Hbd : forall k, streak_bounded s (run k)).
Context (Hrun : forall k, tick s false (run k) SignalIncrease (run (S k))).

Lemma stays_max k j : c_batch (run k) = s_maxBatchSize s -> c_batch (run (k + j)) = s_maxBatchSize s.
Proof.
  intros Hm. induction j as [|j IH]; [by rewrite Nat.add_0_r|]. rewrite Nat.add_succ_r.
  by destruct (tick_increase _ _ _ Hs Hsf Hcf (Hwf _) (Hbd _) (Hrun (k + j))) as [Hst _]; auto.
Qed.

Lemma open_rises j : forall k n, open (run k) -> s_maxBatchSize s <= c_batch (run k) + Z.of_nat n * s_stepUp s ->
  Z.of_nat n * s_hysteresisTicks s - Z.min (rising (run k)) (s_hysteresisTicks s - 1) <= Z.of_nat j ->
  c_batch (run (k + j)) = s_maxBatchSize s.
Proof.
  pose proof (sw_up _ Hs). pose proof (sw_hysteresis _ Hs).
  induction j as [|j IH]; intros k n Ho Hn Hj; pose proof (cw_batch _ _ (Hwf k)).
  - destruct n as [|n]; [rewrite Nat.add_0_r; lia|nia].
  - destruct (Z.eq_dec (c_batch (run k)) (s_maxBatchSize s)) as [Hm|Hm]; [by apply stays_max|].
    destruct n as [|n]; [lia|].
    destruct (tick_increase _ _ _ Hs Hsf Hcf (Hwf _) (Hbd _) (Hrun k)) as (_ & _ & Hstep).
    destruct (Hstep Ho) as [Ho' [?|[[Hb Hr]|(Hb & Hr & Hlt)]]]; [done|..];
      rewrite <- Nat.add_succ_comm.
    + apply (IH _ n Ho'); [rewrite Hb; lia|rewrite Hr; lia].
    + apply (IH _ (S n) Ho'); [rewrite Hb; lia|rewrite Hr; lia].
Qed.

Lemma pressed_rises j : forall k n h, c_cooldown (run k) <= Z.of_nat h ->
  s_maxBatchSize s <= c_batch (run k) + Z.of_nat n * s_stepUp s ->
  Z.of_nat h + Z.of_nat n * s_hysteresisTicks s <= Z.of_nat j ->
  c_batch (run (k + j)) = s_maxBatchSize s.
Proof.
  pose proof (sw_hysteresis _ Hs). induction j as [|j IH]; intros k n h Hh Hn Hj.
  - apply (open_rises 0 k n); [intros _; lia|done|]. destruct n; [|nia].
    unfold rising. destruct (Hbd k). case_decide; lia.
  - destruct (decide (open (run k))) as [Ho|Ho].
    + apply (open_rises _ _ n Ho Hn). unfold rising. destruct (Hbd k). case_decide; lia.
    + destruct (tick_increase _ _ _ Hs Hsf Hcf (Hwf _) (Hbd _) (Hrun k)) as (_ & Hwait & _).
      destruct (Hwait Ho) as [Hb Hc]. destruct h as [|h]; [exfalso; apply Ho; intros _; lia|].
      rewrite <- Nat.add_succ_comm. apply (IH _ n h); [lia|by rewrite Hb|lia].
Qed.
End Pressed.

(** Healthy inputs of a chain that lags behind its head, with room in the queue. *)
Record pressing (s : settings) (i : autoTuneInputs) : Prop := {
  pg_head : in_HasHeadSignal i = true;
  pg_cursor : in_HasMinCursorSignal i = true;
  pg_ordered : in_MinCursorSequence i <= in_HeadSequence i;
  pg_rpc : in_RPCErrorRateBps i < autoTuneRPCErrorRateHighWatermarkBps;
  pg_commit : in_DBCommitLatencyP95Ms i < autoTuneCommitLatencyP95HighWatermarkMs;
  pg_queue : isQueueHigh (in_QueueDepth i) (in_QueueCapacity i) (s_queueHighWatermarkPct s) = false;
  pg_lag : s_lagHighWatermark s <= lag_of i
}.

Lemma pressing_telemetry a i : pressing (a_settings a) i -> te_fallback (a_telemetry a) = false ->
  (resolveTelemetryState a i).1 = TelemetryHealthy /\
  te_fallback (a_telemetry (resolveTelemetryState a i).2) = false.
Proof.
  intros [Hh Hc Ho _ _ _ _] Hf. unfold resolveTelemetryState. rewrite Hh, Hc, Hf. simpl.
  by destruct (Z.ltb_spec (in_HeadSequence i) (in_MinCursorSequence i)); [lia|].
Qed.

Lemma pressing_signal a i : pressing (a_settings a) i -> te_fallback (a_telemetry a) = false ->
  tick_signal a i = SignalIncrease.
Proof.
  intros Hp Hf. unfold tick_signal. rewrite (proj1 (pressing_telemetry a i Hp Hf)).
  destruct Hp as [Hh Hc _ Hr Hl Hq Hlag]. unfold classifySignal. rewrite Hh, Hc, Hq.
  destruct (Z.leb_spec autoTuneRPCErrorRateHighWatermarkBps (in_RPCErrorRateBps i)); [lia|].
  destruct (Z.leb_spec autoTuneCommitLatencyP95HighWatermarkMs (in_DBCommitLatencyP95Ms i)); [lia|].
  by destruct (Z.leb_spec (s_lagHighWatermark (a_settings a)) (lag_of i)); [|lia].
Qed.

(** The controller after [k] ticks with the same inputs. *)
Definition after_ticks (a : autoTuneController) (i : autoTuneInputs) (k : nat) : autoTuneController :=
  Nat.iter k (fun x => resolved x i) a.

Lemma pressed_state a i k : reachable a -> auto_mode a -> te_fallback (a_telemetry a) = false ->
  pressing (a_settings a) i ->
  let a' := after_ticks a i k in
  reachable a' /\ auto_mode a' /\ te_fallback (a_telemetry a') = false /\ a_settings a' = a_settings a.
Proof.
  intros Hr Ha Hf Hp. induction k as [|k (IHr & IHa & IHf & IHs)]; [done|]. simpl.
  assert (pressing (a_settings (after_ticks a i k)) i) as Hp' by (by rewrite IHs).
  destruct (Resolve_auto _ i IHa) as (_ & Hset & Ha' & Hte & _).
  split_and!; [by apply (reach_act _ (ActResolve i))|done|rewrite Hte|by rewrite Hset].
  by apply pressing_telemetry.
Qed.

(** C29: convergence.  A reachable controller under automatic control whose telemetry is
    healthy, and which is told at every tick that its chain lags while nothing is
    overloaded, is at its maximum batch after at most [cooldownTicks] plus
    [hysteresisTicks] ticks per step up, and stays there. *)
Theorem autotune_converges a i (n k : nat) :
  reachable a -> steps_fit (a_settings a) -> counts_fit (a_settings a) ->
  auto_mode a -> te_fallback (a_telemetry a) = false -> pressing (a_settings a) i ->
  max_batch a <= a_currentBatch a + Z.of_nat n * s_stepUp (a_settings a) ->
  s_cooldownTicks (a_settings a) + Z.of_nat n * s_hysteresisTicks (a_settings a) <= Z.of_nat k ->
  a_currentBatch (after_ticks a i k) = max_batch a.
Proof.
  intros Hr Hsf Hcf Ha Hf Hp Hn Hk. apply reachable_wf in Hr as Hw.
  pose proof (wf_settings _ Hw) as Hs. pose proof (cw_cooldown _ _ (wf_control _ Hw)) as Hcd. simpl in Hcd.
  apply (pressed_rises (a_settings a) Hs Hsf Hcf (fun k => control_of (after_ticks a i k)))
    with (k := 0%nat) (n := n) (h := Z.to_nat (s_cooldownTicks (a_settings a))); simpl; try (done || lia).
  - intros j. destruct (pressed_state a i j Hr Ha Hf Hp) as (Hrj & _ & _ & Hsj).
    rewrite <- Hsj. by apply reachable_wf in Hrj as [].
  - intros j. destruct (pressed_state a i j Hr Ha Hf Hp) as (Hrj & _ & _ & Hsj).
    rewrite <- Hsj. apply reachable_bounded; [done|by rewrite Hsj].
  - intros j. destruct (pressed_state a i j Hr Ha Hf Hp) as (Hrj & Haj & Hfj & Hsj).
    destruct (Resolve_auto _ i Haj) as (Ht & _). rewrite pressing_signal, Hsj in Ht by (by rewrite ?Hsj). exact Ht.
Qed.

(** From 40, three steps of 20, two ticks each, after a cooldown of three ticks. *)
Lemma autotune_converges_witness : a_currentBatch (after_ticks sample_controller lagging 9) = 100.
Proof.
  apply (autotune_converges sample_controller lagging 3 9).
  - eapply reach_new. exact sample_controller_new.
  - vm_compute. split; discriminate.
  - reflexivity.
  - vm_compute. split_and!; discriminate.
  - reflexivity.
  - split; vm_compute; try reflexivity; discriminate.
  - vm_compute. discriminate.
  - vm_compute. discriminate.
Defined.

(** ** Stale telemetry *)

(** Inputs without a lag: a signal is missing, or the cursor is ahead of the head. *)
Definition stale (i : autoTuneInputs) : Prop :=
  in_HasHeadSignal i && in_HasMinCursorSignal i = false \/ in_HeadSequence i < in_MinCursorSequence i.

Definition well_fed (i : autoTuneInputs) : Prop :=
  in_HasHeadSignal i && in_HasMinCursorSignal i = true /\ in_MinCursorSequence i <= in_HeadSequence i.

Record telemetry_wf (s : settings) (t : telemetry) : Prop := {
  tw_stale : te_fallback t = false -> 0 <= te_staleObserved t < s_telemetryStaleTicks s;
  tw_recovery : 0 <= te_recoverySeen t < s_telemetryRecoveryTicks s
}.

Definition thresholds_fit (s : settings) : Prop :=
  s_telemetryStaleTicks s <= max_int64 /\ s_telemetryRecoveryTicks s <= max_int64.

Lemma succ64 n m : 0 <= n < m -> m <= max_int64 -> n ⊕ 1 = n + 1.
Proof. intros. apply wrap64_id. unfold in_int64, min_int64, max_int64 in *. lia. Qed.

(** A stale tick of an armed controller. *)
Lemma stale_step a i : in_HasHeadSignal i && in_HasMinCursorSignal i || te_armed (a_telemetry a) = true ->
  stale i ->
  thresholds_fit (a_settings a) -> telemetry_wf (a_settings a) (a_telemetry a) -> settings_wf (a_settings a) ->
  let '(ts, a') := resolveTelemetryState a i in
  let t' := a_telemetry a' in
  te_armed t' = true /\ telemetry_wf (a_settings a) t' /\
  (te_fallback t' = true -> ts <> TelemetryHealthy) /\
  (te_fallback (a_telemetry a) = true -> te_fallback t' = true /\ te_recoverySeen t' = 0) /\
  (te_fallback t' = true /\ te_recoverySeen t' = 0 \/
   te_fallback t' = false /\ te_staleObserved t' = te_staleObserved (a_telemetry a) + 1).
Proof.
  intros Har Hst [Hf _] [Hw Hr] []. unfold resolveTelemetryState. rewrite Har. simpl.
  replace (negb (_ && _) || (_ <? _)) with true.
  2: { symmetry. destruct Hst as [-> | Hlt]; [done|]. apply Z.ltb_lt in Hlt. by rewrite Hlt, orb_true_r. }
  destruct (te_fallback (a_telemetry a)) eqn:Ef; simpl.
  { split_and!; auto. split; simpl; [done|lia]. }
  specialize (Hw eq_refl). rewrite (succ64 _ _ Hw Hf).
  destruct (Z.leb_spec (s_telemetryStaleTicks (a_settings a)) (te_staleObserved (a_telemetry a) + 1));
    (split_and!; [done|split; simpl; [intros; done || lia|lia]|done|done|auto]).
Qed.

(** A well-fed tick in fallback. *)
Lemma recovery_step a i : te_fallback (a_telemetry a) = true -> well_fed i ->
  thresholds_fit (a_settings a) -> telemetry_wf (a_settings a) (a_telemetry a) -> settings_wf (a_settings a) ->
  let '(ts, a') := resolveTelemetryState a i in
  let t' := a_telemetry a' in
  ts = TelemetryRecoveryHold /\ telemetry_wf (a_settings a) t' /\ te_armed t' = true /\
  (te_fallback t' = true /\ te_recoverySeen t' = te_recoverySeen (a_telemetry a) + 1 \/
   te_fallback t' = false /\ s_telemetryRecoveryTicks (a_settings a) = te_recoverySeen (a_telemetry a) + 1).
Proof.
  intros Hfb [Hl Ho] [_ Hf] [_ Hr] []. unfold resolveTelemetryState. rewrite Hl, Hfb. simpl.
  destruct (Z.ltb_spec (in_HeadSequence i) (in_MinCursorSequence i)); [lia|].
  rewrite (succ64 _ _ Hr Hf).
  destruct (Z.leb_spec (s_telemetryRecoveryTicks (a_settings a)) (te_recoverySeen (a_telemetry a) + 1));
    simpl; (split_and!; [done|split; simpl; [intros; done || lia|lia]|done|]).
  - right. split; [done|lia].
  - by left.
Qed.

Lemma hold_keeps s crit c c' : tick s crit c SignalHold c' -> c_batch c' = c_batch c.
Proof. intros Ht. by inversion Ht. Qed.

(** What a tick makes of the telemetry, in every mode, and of the batch when it is not healthy. *)
Lemma Resolve_telemetry a i : controller_wf a ->
  a_telemetry (resolved a i) = a_telemetry (resolveTelemetryState a i).2 /\
  ((resolveTelemetryState a i).1 <> TelemetryHealthy -> a_currentBatch (resolved a i) = a_currentBatch a).
Proof.
  intros Hw. destruct (auto_mode_dec a) as [Ha|Ha].
  - destruct (Resolve_auto a i Ha) as (Ht & _ & _ & Hte & _). split; [done|]. intros Hts.
    assert (tick_signal a i = SignalHold) as Hsig by (unfold tick_signal; by destruct (resolveTelemetryState a i).1).
    rewrite Hsig in Ht. exact (hold_keeps _ _ _ _ Ht).
  - destruct (Resolve_held a i Ha) as (Hct & _ & Hte & _). rewrite (held_batch _ Hw) in Hct.
    split; [done|]. intros _. exact (control_batch _ _ Hct).
Qed.

Lemma telemetry_new_wf base cfg seed bounded a :
  newAutoTuneControllerWithSeedMode base cfg seed bounded = Some a -> telemetry_wf (a_settings a) (a_telemetry a).
Proof.
  intros Hn. destruct (new_controller_wf _ _ _ _ _ Hn) as [[[] _ _] _].
  unfold newAutoTuneControllerWithSeedMode in Hn. destruct (cfg_Enabled cfg); [|done]. injection Hn as <-.
  split; simpl in *; intros; lia.
Qed.

Lemma telemetry_step a i : controller_wf a -> thresholds_fit (a_settings a) ->
  telemetry_wf (a_settings a) (a_telemetry a) ->
  telemetry_wf (a_settings a) (a_telemetry (resolveTelemetryState a i).2).
Proof.
  intros [Hs _ _] Hf Hw.
  destruct (in_HasHeadSignal i && in_HasMinCursorSignal i || te_armed (a_telemetry a)) eqn:Har.
  2: { unfold resolveTelemetryState. by rewrite Har. }
  destruct (Z.ltb_spec (in_HeadSequence i) (in_MinCursorSequence i)) as [Ho|Ho].
  { pose proof (stale_step a i Har (or_intror Ho) Hf Hw Hs) as H. destruct (resolveTelemetryState a i). apply H. }
  destruct (in_HasHeadSignal i && in_HasMinCursorSignal i) eqn:El.
  2: { pose proof (stale_step a i ltac:(by rewrite El) (or_introl El) Hf Hw Hs) as H.
       destruct (resolveTelemetryState a i). apply H. }
  destruct (te_fallback (a_telemetry a)) eqn:Ef.
  { pose proof (recovery_step a i Ef (conj El Ho) Hf Hw Hs) as H. destruct (resolveTelemetryState a i). apply H. }
  unfold resolveTelemetryState. rewrite El, Ef. simpl.
  destruct (Z.ltb_spec (in_HeadSequence i) (in_MinCursorSequence i)); [lia|].
  destruct Hs. split; simpl; intros; lia.
Qed.

Lemma reachable_telemetry a : reachable a -> thresholds_fit (a_settings a) ->
  telemetry_wf (a_settings a) (a_telemetry a).
Proof.
  induction 1 as [base cfg seed bounded a Hn|a x Hr IH]; intros Hf; [by eapply telemetry_new_wf|].
  apply reachable_wf in Hr as Hw. destruct (act_wf a x Hw) as [_ Hset]. rewrite Hset in *.
  destruct x as [i|t|t]; simpl.
  - rewrite (proj1 (Resolve_telemetry a i Hw)). by apply telemetry_step; auto.
  - unfold reconcileOverrideTransition. repeat case_match; by apply IH.
  - destruct (reconcilePolicy_only a t) as [p [->| ->]]; by apply IH.
Qed.

(** A stale run of an armed controller: it falls back within [staleTicks], and
    does not move in fallback. *)
Lemma stale_run ins : forall a, reachable a -> thresholds_fit (a_settings a) -> te_armed (a_telemetry a) = true ->
  Forall stale ins ->
  let a' := foldl resolved a ins in
  reachable a' /\ a_settings a' = a_settings a /\ te_armed (a_telemetry a') = true /\
  (te_fallback (a_telemetry a) = true -> a_currentBatch a' = a_currentBatch a) /\
  (te_fallback (a_telemetry a) = true \/
   s_telemetryStaleTicks (a_settings a) <= te_staleObserved (a_telemetry a) + Z.of_nat (length ins) ->
   te_fallback (a_telemetry a') = true) /\
  (te_fallback (a_telemetry a') = true ->
   ins <> [] \/ te_recoverySeen (a_telemetry a) = 0 -> te_recoverySeen (a_telemetry a') = 0).
Proof.
  induction ins as [|i ins IH]; intros a Hr Hf Har Hst; simpl.
  { split_and!; auto; [|intros _ [[]|]; done]. intros [?|Hle]; [done|]. destruct (te_fallback (a_telemetry a)) eqn:E; [done|].
    destruct (reachable_telemetry a Hr Hf) as [Hw _]. specialize (Hw E). lia. }
  apply Forall_cons in Hst as [Hi Hst]. apply reachable_wf in Hr as Hw.
  pose proof (stale_step a i ltac:(by rewrite Har, orb_true_r) Hi Hf (reachable_telemetry a Hr Hf) (wf_settings _ Hw)) as H.
  destruct (Resolve_telemetry a i Hw) as [Hte Hfz]. destruct (Resolve_wf a i Hw) as [_ Hset].
  destruct (resolveTelemetryState a i) as [ts a0]. simpl in *. rewrite <- Hte in H.
  destruct H as (Har' & _ & Hnh & Hkeep & Hcase).
  destruct (IH (resolved a i)) as (R1 & R2 & R3 & R4 & R5 & R6); rewrite ?Hset; auto.
  { by apply (reach_act _ (ActResolve i)). }
  rewrite Hset in R2, R5. split_and!; auto.
  - intros Hfb. destruct (Hkeep Hfb). rewrite R4 by done. auto.
  - intros Hle. apply R5. destruct Hcase as [[? _]|[Hf' Hso]]; [by left|]. right.
    destruct Hle as [Hfb|Hle]; [destruct (Hkeep Hfb); congruence|lia].
  - intros Hfb _. apply R6; [done|]. destruct Hcase as [[_ ?]|[Hf' Hso]]; [by right|]. left. intros ->.
    simpl in Hfb. congruence.
Qed.

(** A recovery run: still no move, and fallback ends after [recoveryTicks]. *)
Lemma recovery_run ins : forall a, reachable a -> thresholds_fit (a_settings a) ->
  te_fallback (a_telemetry a) = true -> Forall well_fed ins ->
  te_recoverySeen (a_telemetry a) + Z.of_nat (length ins) <= s_telemetryRecoveryTicks (a_settings a) ->
  let a' := foldl resolved a ins in
  a_currentBatch a' = a_currentBatch a /\
  (te_fallback (a_telemetry a') = false <->
   te_recoverySeen (a_telemetry a) + Z.of_nat (length ins) = s_telemetryRecoveryTicks (a_settings a)).
Proof.
  induction ins as [|i ins IH]; intros a Hr Hf Hfb Hwf Hle; simpl.
  { split; [done|]. rewrite Hfb. destruct (reachable_telemetry a Hr Hf) as [_ Hw]. split; [done|lia]. }
  apply Forall_cons in Hwf as [Hi Hwf]. apply reachable_wf in Hr as Hw.
  pose proof (recovery_step a i Hfb Hi Hf (reachable_telemetry a Hr Hf) (wf_settings _ Hw)) as H.
  destruct (Resolve_telemetry a i Hw) as [Hte Hfz]. destruct (Resolve_wf a i Hw) as [_ Hset].
  destruct (resolveTelemetryState a i) as [ts a0]. simpl in *. rewrite <- Hte in H.
  destruct H as (-> & _ & _ & [[Hfb' Hrs]|[Hfb' Hrs]]).
  - destruct (IH (resolved a i)) as (R1 & R2); rewrite ?Hset; auto.
    { by apply (reach_act _ (ActResolve i)). }
    { rewrite Hrs. lia. }
    split; [rewrite R1; auto|]. rewrite R2, Hset, Hrs. lia.
  - destruct ins; simpl in *; [|lia]. split; [by apply Hfz|]. split; [lia|done].
Qed.

(** Also: the freeze on stale telemetry.  Once the lag of the chain has been seen, a run of
    at least [telemetryStaleTicks] inputs without a usable lag puts a reachable controller
    in fallback; from then on neither more stale inputs nor the first
    [telemetryRecoveryTicks] good ones move the batch, and fallback ends exactly with the
    last of those. *)
Theorem autotune_telemetry_freeze a (run more fed : list autoTuneInputs) :
  reachable a -> thresholds_fit (a_settings a) -> te_armed (a_telemetry a) = true ->
  Forall stale (run ++ more) -> s_telemetryStaleTicks (a_settings a) <= Z.of_nat (length run) ->
  Forall well_fed fed -> Z.of_nat (length fed) <= s_telemetryRecoveryTicks (a_settings a) ->
  let frozen := foldl resolved a run in
  let a' := foldl resolved (foldl resolved frozen more) fed in
  te_fallback (a_telemetry frozen) = true /\
  a_currentBatch a' = a_currentBatch frozen /\
  (te_fallback (a_telemetry a') = false <->
   Z.of_nat (length fed) = s_telemetryRecoveryTicks (a_settings a)).
Proof.
  intros Hr Hf Har Hst Hlen Hfed Hrec frozen a'. apply Forall_app in Hst as [Hst1 Hst2].
  destruct (stale_run run a Hr Hf Har Hst1) as (R1 & S1 & A1 & _ & F1 & Z1). fold frozen in R1, S1, A1, F1, Z1.
  assert (te_fallback (a_telemetry frozen) = true) as Hfb.
  { apply F1. destruct (te_fallback (a_telemetry a)) eqn:E; [by left|right].
    pose proof (tw_stale _ _ (reachable_telemetry a Hr Hf) E). lia. }
  destruct (stale_run more frozen R1 ltac:(by rewrite S1) A1 Hst2) as (R2 & S2 & A2 & K2 & F2 & Z2).
  assert (te_recoverySeen (a_telemetry frozen) = 0) as Hz.
  { apply Z1; [done|]. left. intros ->. simpl in Hlen. apply reachable_wf in Hr as [[] _ _]. lia. }
  destruct (recovery_run fed (foldl resolved frozen more)) as [B3 F3]; rewrite ?S2, ?S1; auto.
  { rewrite Z2; auto. }
  unfold a'. rewrite Z2, S2, S1 in F3 by auto. split; [done|]. split; [rewrite B3; auto|exact F3].
Qed.

Definition silent : autoTuneInputs :=
  {| in_Chain := "base"; in_Network := "mainnet"; in_HasHeadSignal := false; in_HeadSequence := 0;
     in_HasMinCursorSignal := true; in_MinCursorSequence := 100; in_QueueDepth := 9;
     in_QueueCapacity := 10; in_RPCErrorRateBps := 500; in_DBCommitLatencyP95Ms := 0; in_DecisionEpochMs := 0 |}.

(** Even an alarming error rate does not move a controller in fallback. *)
Lemma autotune_telemetry_freeze_witness :
  let a := resolved sample_controller lagging in
  let frozen := foldl resolved a [silent; silent] in
  let a' := foldl resolved (foldl resolved frozen [silent]) [lagging; lagging] in
  te_fallback (a_telemetry frozen) = true /\ a_currentBatch a' = a_currentBatch frozen /\
  (te_fallback (a_telemetry a') = false <-> 2 = 2).
Proof.
  apply (autotune_telemetry_freeze (resolved sample_controller lagging) [silent; silent] [silent] [lagging; lagging]).
  - apply (reach_act _ (ActResolve lagging)). eapply reach_new. exact sample_controller_new.
  - vm_compute. split; discriminate.
  - reflexivity.
  - repeat constructor.
  - vm_compute. discriminate.
  - repeat constructor; vm_compute; discriminate.
  - vm_compute. discriminate.
Defined.
