(* ===== verification/PolicyProofs.v ===== *)
(** * Policy lineage: what a restarted controller may adopt

    Adoption at one epoch is a strict order on manifests without tombstones, so no
    chain of adoptions returns to a manifest; with tombstones it is not, and a
    counterexample shows it.  Epochs move only by one, or by a lineage that the
    incoming manifest declares; a checkpoint restores the policy it was taken from. *)

From Stdlib Require Import ZArith String Lia.
From stdpp Require Import base option list strings relations.
From S2P Require Import Prelude AutoTune PolicyLineage AutoTuneProofs.

Open Scope Z_scope.
Open Scope go_scope.

(** ** The lexicographic comparison *)

Abbreviation lex := compareRollbackFenceOwnershipOrdering.

Lemma lex_refl l : lex l l = 0.
Proof. induction l as [|x l IH]; simpl; [done|]. by rewrite Z.ltb_irrefl. Qed.

Lemma lex_flip l r : lex r l = - lex l r.
Proof.
  revert r. induction l as [|x l IH]; intros [|y r]; simpl; try done.
  destruct (Z.ltb_spec x y), (Z.ltb_spec y x); try lia. apply IH.
Qed.

Lemma lex_trans l m n : lex l m < 0 -> lex m n < 0 -> lex l n < 0.
Proof.
  revert m n. induction l as [|x l IH]; intros [|y m] [|z n]; simpl; try lia.
  destruct (Z.ltb_spec x y), (Z.ltb_spec y x), (Z.ltb_spec y z), (Z.ltb_spec z y), (Z.ltb_spec x z),
    (Z.ltb_spec z x); try lia. apply IH.
Qed.

Lemma lex_app_lt l l' r r' : lex l l' < 0 -> lex (l ++ r) (l' ++ r') < 0.
Proof.
  revert l'. induction l as [|x l IH]; intros [|y l']; simpl; try lia.
  destruct (Z.ltb_spec x y), (Z.ltb_spec y x); try lia. apply IH.
Qed.

Lemma lex_app_same l r r' : lex (l ++ r) (l ++ r') = lex r r'.
Proof. induction l as [|x l IH]; simpl; [done|]. by rewrite Z.ltb_irrefl. Qed.

Lemma lex_cons_same x l r : lex (x :: l) (x :: r) = lex l r.
Proof. exact (lex_app_same [x] l r). Qed.

Lemma lex_cons_lt x y l r : x < y -> lex (x :: l) (y :: r) < 0.
Proof. intros H%Z.ltb_lt. simpl. by rewrite H. Qed.

(** ** The key of a manifest at an epoch *)

Definition tombstoned (digest : string) : bool :=
  hasRollbackFenceEpochCompactionTombstone (normalizePolicyManifestDigest digest).

(** The stage of the fence: expiry, quarantine, release. *)
Definition fence_stage (epoch : Z) (digest : string) : Z :=
  let d := normalizePolicyManifestDigest digest in
  if isRollbackFenceTombstoneExpiryDigest epoch d then 1
  else if isRollbackFencePostExpiryLateMarkerQuarantineDigest epoch d then 2
  else if isRollbackFencePostExpiryLateMarkerReleaseDigest epoch d then 3
  else 0.

(** Which stage-progression markers the manifest has. *)
Definition stage_bits (idxs : list nat) (normalized : string) : list Z :=
  (fun idx => match epochMarkers !! idx with
              | Some def => if present (parseEpochMarker normalized def) then 1 else 0
              | None => 0
              end) <$> idxs.

Definition policy_key (epoch : Z) (digest : string) : list Z :=
  let d := normalizePolicyManifestDigest digest in
  fence_stage epoch digest ::
  stage_bits stageProgressionMarkers d ++ default [] (parseRollbackFenceOwnershipOrdering epoch d).

Lemma stage_progress_bits idxs source target :
  match stage_progress idxs source target with
  | Some true => lex (stage_bits idxs source) (stage_bits idxs target) < 0
  | Some false => 0 < lex (stage_bits idxs source) (stage_bits idxs target)
  | None => stage_bits idxs source = stage_bits idxs target
  end.
Proof.
  induction idxs as [|idx idxs IH]; simpl; [done|]. destruct (epochMarkers !! idx) as [def|]; simpl.
  - destruct (present (parseEpochMarker source def)), (present (parseEpochMarker target def)); simpl; try done;
      by destruct (stage_progress idxs source target); [|rewrite IH].
  - by destruct (stage_progress idxs source target); [|rewrite IH].
Qed.

(** ** The stages exclude each other *)

Lemma expiry_stage epoch d : isRollbackFenceTombstoneExpiryDigest epoch d = true ->
  isRollbackFencePostExpiryLateMarkerQuarantineDigest epoch d = false /\
  isRollbackFencePostExpiryLateMarkerReleaseDigest epoch d = false.
Proof.
  unfold isRollbackFenceTombstoneExpiryDigest, isRollbackFencePostExpiryLateMarkerQuarantineDigest,
    isRollbackFencePostExpiryLateMarkerReleaseDigest.
  destruct (epoch <? 0); [done|]. destruct (hasRollbackFenceEpochCompactionTombstone _); [done|].
  destruct (parseRollbackFenceLateMarkerHoldEpoch _); [done|].
  destruct (parseRollbackFenceLateMarkerReleaseEpoch _); [done|].
  by destruct (parseRollbackFenceTombstoneExpiryEpoch _).
Qed.

Lemma quarantine_stage epoch d : isRollbackFencePostExpiryLateMarkerQuarantineDigest epoch d = true ->
  isRollbackFenceTombstoneExpiryDigest epoch d = false /\
  isRollbackFencePostExpiryLateMarkerReleaseDigest epoch d = false.
Proof.
  intros H. split.
  { destruct (isRollbackFenceTombstoneExpiryDigest epoch d) eqn:E; [|done].
    destruct (expiry_stage _ _ E). congruence. }
  revert H.
  unfold isRollbackFencePostExpiryLateMarkerQuarantineDigest, isRollbackFencePostExpiryLateMarkerReleaseDigest.
  destruct (epoch <? 0); [done|]. destruct (hasRollbackFenceEpochCompactionTombstone _); [done|].
  destruct (parseRollbackFenceLateMarkerReleaseEpoch _); [done|].
  destruct (parseRollbackFenceTombstoneExpiryEpoch _); [|done].
  by destruct (parseRollbackFenceLateMarkerHoldEpoch _).
Qed.

Lemma stage_expiry epoch d :
  isRollbackFenceTombstoneExpiryDigest epoch (normalizePolicyManifestDigest d) = true -> fence_stage epoch d = 1.
Proof. unfold fence_stage. by intros ->. Qed.

Lemma stage_quarantine epoch d :
  isRollbackFencePostExpiryLateMarkerQuarantineDigest epoch (normalizePolicyManifestDigest d) = true ->
  fence_stage epoch d = 2.
Proof. unfold fence_stage. intros H. destruct (quarantine_stage _ _ H) as [-> _]. by rewrite H. Qed.

Lemma stage_release epoch d :
  isRollbackFencePostExpiryLateMarkerReleaseDigest epoch (normalizePolicyManifestDigest d) = true ->
  fence_stage epoch d = 3.
Proof.
  unfold fence_stage. intros H.
  destruct (isRollbackFenceTombstoneExpiryDigest _ _) eqn:E; [destruct (expiry_stage _ _ E); congruence|].
  destruct (isRollbackFencePostExpiryLateMarkerQuarantineDigest _ _) eqn:E';
    [destruct (quarantine_stage _ _ E'); congruence|]. by rewrite H.
Qed.

Lemma key_stage_lt epoch d d' : fence_stage epoch d < fence_stage epoch d' ->
  lex (policy_key epoch d) (policy_key epoch d') < 0.
Proof. apply lex_cons_lt. Qed.

(** ** Each rule raises the key *)

Lemma quarantine_raises epoch d d' :
  isDeterministicRollbackFencePostExpiryLateMarkerQuarantineTransition epoch d d' = true ->
  lex (policy_key epoch d) (policy_key epoch d') < 0.
Proof.
  unfold isDeterministicRollbackFencePostExpiryLateMarkerQuarantineTransition. destruct (epoch <? 0); [done|].
  rewrite !andb_true_iff. intros [[[H1 H2] _] _]. apply key_stage_lt.
  rewrite (stage_expiry _ _ H1), (stage_quarantine _ _ H2). lia.
Qed.

Lemma release_raises epoch d d' :
  isDeterministicRollbackFencePostExpiryLateMarkerReleaseTransition epoch d d' = true ->
  lex (policy_key epoch d) (policy_key epoch d') < 0.
Proof.
  unfold isDeterministicRollbackFencePostExpiryLateMarkerReleaseTransition. destruct (epoch <? 0); [done|].
  rewrite !andb_true_iff. intros [[[[[H1 H2] _] _] _] _]. apply key_stage_lt.
  rewrite (stage_quarantine _ _ H1), (stage_release _ _ H2). lia.
Qed.

Lemma window_raises epoch d d' :
  isDeterministicRollbackFencePostExpiryLateMarkerReleaseWindowTransition epoch d d' = true ->
  lex (policy_key epoch d) (policy_key epoch d') < 0.
Proof.
  unfold isDeterministicRollbackFencePostExpiryLateMarkerReleaseWindowTransition.
  destruct (epoch <? 0); [done|]. destruct (_ && _) eqn:E; [|done]. rewrite !andb_true_iff in E.
  destruct E as [[[[H1 H2] _] _] _]. unfold policy_key.
  rewrite (stage_release _ _ H1), (stage_release _ _ H2).
  destruct (parseRollbackFenceOwnershipOrdering epoch (normalizePolicyManifestDigest d)) as [o|]; [|done].
  destruct (parseRollbackFenceOwnershipOrdering epoch (normalizePolicyManifestDigest d')) as [o'|]; [|done].
  pose proof (stage_progress_bits stageProgressionMarkers (normalizePolicyManifestDigest d)
    (normalizePolicyManifestDigest d')) as Hb.
  change (default [] (Some o)) with o. change (default [] (Some o')) with o'.
  destruct (stage_progress _ _ _) as [[]|]; intros H; [|done|].
  - rewrite lex_cons_same. by apply lex_app_lt.
  - rewrite lex_cons_same, Hb, lex_app_same. by apply Z.ltb_lt.
Qed.

(** Without tombstones the first two rules do not apply, in either direction. *)
Lemma compaction_tombstoned epoch d d' :
  isDeterministicRollbackFenceEpochCompactionTransition epoch d d' = true -> tombstoned d' = true.
Proof.
  unfold isDeterministicRollbackFenceEpochCompactionTransition. destruct (epoch <? 0); [done|].
  by rewrite andb_true_iff; intros [].
Qed.

Lemma normalizeDigest_idem d :
  normalizePolicyManifestDigest (normalizePolicyManifestDigest d) = normalizePolicyManifestDigest d.
Proof.
  unfold normalizePolicyManifestDigest. destruct (str_empty (trim_space (to_lower d))) eqn:E; [done|].
  by rewrite lower_trim_idem, E.
Qed.

Lemma normalizeVersion_idem v :
  normalizePolicyVersion (normalizePolicyVersion v) = normalizePolicyVersion v.
Proof.
  unfold normalizePolicyVersion. destruct (str_empty (trim_space (to_lower v))) eqn:E; [done|].
  by rewrite lower_trim_idem, E.
Qed.

Lemma expiry_tombstoned epoch d d' :
  isDeterministicRollbackFenceTombstoneExpiryTransition epoch d d' = true -> tombstoned d = true.
Proof.
  unfold isDeterministicRollbackFenceTombstoneExpiryTransition, isRollbackFenceEpochCompactionDigest.
  destruct (epoch <? 0); [done|]. rewrite !andb_true_iff, normalizeDigest_idem. by intros [[[]]].
Qed.

(** Who adopts what at one epoch, among manifests without tombstones. *)
Definition adopts (epoch : Z) (d d' : string) : Prop :=
  tombstoned d = false /\ tombstoned d' = false /\ resolveSameEpochPolicyLineage epoch d d' = Some true.

Lemma adopts_raises epoch d d' : adopts epoch d d' -> lex (policy_key epoch d) (policy_key epoch d') < 0.
Proof.
  intros (Ht & Ht' & Hr). unfold resolveSameEpochPolicyLineage, sameEpochPolicyLineageRules in Hr. simpl in Hr.
  destruct (isDeterministicRollbackFenceEpochCompactionTransition epoch d d') eqn:E1;
    [apply compaction_tombstoned in E1; congruence|].
  destruct (isDeterministicRollbackFenceTombstoneExpiryTransition epoch d d') eqn:E2;
    [apply expiry_tombstoned in E2; congruence|].
  destruct (isDeterministicRollbackFencePostExpiryLateMarkerQuarantineTransition epoch d d') eqn:E3;
    [by apply quarantine_raises|].
  destruct (isDeterministicRollbackFencePostExpiryLateMarkerReleaseTransition epoch d d') eqn:E4;
    [by apply release_raises|].
  destruct (isDeterministicRollbackFencePostExpiryLateMarkerReleaseWindowTransition epoch d d') eqn:E5;
    [by apply window_raises|].
  repeat (simpl in Hr; case_match; [done|]). done.
Qed.

(** C30: no flip-flop.  At one epoch, a manifest without a tombstone is never adopted again
    through a chain of adoptions that started from it: the stage of the fence, then its
    stage markers, then its ownership ordering strictly grow. *)
Theorem same_epoch_adoption_acyclic (epoch : Z) (d : string) : ~ tc (adopts epoch) d d.
Proof.
  assert (forall d d', tc (adopts epoch) d d' -> lex (policy_key epoch d) (policy_key epoch d') < 0) as Hlt.
  { induction 1 as [|x y z Ha _ IH]; [by apply adopts_raises|].
    eapply lex_trans; [by apply adopts_raises|done]. }
  intros H%Hlt. rewrite lex_refl in H. lia.
Qed.

(** A fence that goes through its stages, and why tombstones are excepted. *)
Definition fence_lineage : string := "rollback-from-seq=9|rollback-to-seq=5|rollback-forward-seq=12".
Definition fence_tombstone : string := fence_lineage +:+ "|rollback-fence-tombstone".
Definition fence_expiry : string := fence_lineage +:+ "|rollback-fence-tombstone-expiry-epoch=6".
Definition fence_quarantine : string := fence_expiry +:+ "|rollback-fence-late-marker-hold-epoch=7".
Definition fence_release : string := fence_quarantine +:+ "|rollback-fence-late-marker-release-epoch=8".

Example fence_stages_adopted :
  adopts 5 fence_expiry fence_quarantine /\ adopts 5 fence_quarantine fence_release.
Proof. split; split_and!; vm_compute; reflexivity. Qed.

(** Also: with a tombstone the order is lost.  The expiry of a tombstone is adopted over the
    tombstone, and the stale tombstone over its expiry again: the compaction rule comes
    first and shadows the rule that would reject it. *)
Theorem tombstone_readopted :
  resolveSameEpochPolicyLineage 5 fence_tombstone fence_expiry = Some true /\
  resolveSameEpochPolicyLineage 5 fence_expiry fence_tombstone = Some true /\
  isDeterministicRollbackFenceTombstoneExpiryTransition 5 fence_tombstone fence_expiry = true.
Proof. split_and!; vm_compute; reflexivity. Qed.

(** ** Epochs *)

Lemma raise_hold_policy a h : exists left,
  a_policy (raise_hold a h) =
    {| po_manifestDigest := po_manifestDigest (a_policy a); po_epoch := po_epoch (a_policy a);
       po_activationLeft := left |}.
Proof.
  unfold raise_hold. destruct (_ <? _); [by eexists|]. exists (po_activationLeft (a_policy a)).
  by destruct (a_policy a).
Qed.

(** The digest and the epoch a transition may leave. *)
Inductive moved_to (previousDigest incomingDigest : string) (previousEpoch incomingEpoch : Z) (sameVersion : bool)
    : string -> Z -> Prop :=
  | moved_not : moved_to previousDigest incomingDigest previousEpoch incomingEpoch sameVersion
                  previousDigest previousEpoch
  | moved_same : moved_to previousDigest incomingDigest previousEpoch incomingEpoch sameVersion
                   incomingDigest previousEpoch
  | moved_next : moved_to previousDigest incomingDigest previousEpoch incomingEpoch sameVersion
                   incomingDigest (previousEpoch ⊕ 1)
  | moved_version : sameVersion = false -> previousEpoch ⊕ 1 <= incomingEpoch ->
      moved_to previousDigest incomingDigest previousEpoch incomingEpoch sameVersion incomingDigest incomingEpoch
  | moved_cutover : previousEpoch < incomingEpoch ->
      parseSnapshotCutoverLineage incomingDigest = Some (previousEpoch, incomingEpoch) ->
      moved_to previousDigest incomingDigest previousEpoch incomingEpoch sameVersion incomingDigest incomingEpoch
  | moved_rollback forward : incomingEpoch < previousEpoch <= forward ->
      parseRollbackLineage incomingDigest = Some (previousEpoch, incomingEpoch, forward) ->
      moved_to previousDigest incomingDigest previousEpoch incomingEpoch sameVersion incomingDigest incomingEpoch.

Lemma cutover_declared p i d : isDeterministicSnapshotCutover p i d = true ->
  p < i /\ parseSnapshotCutoverLineage d = Some (p, i).
Proof.
  unfold isDeterministicSnapshotCutover. destruct (i <=? p ⊕ 1); [done|].
  destruct (parseSnapshotCutoverLineage d) as [[b t]|]; [|done].
  rewrite !andb_true_iff, !Z.eqb_eq, Z.ltb_lt. intros [[-> ->] ?]. done.
Qed.

Lemma rollback_declared p i d : isDeterministicRollbackLineage p i d = true ->
  exists forward, i < p <= forward /\ parseRollbackLineage d = Some (p, i, forward).
Proof.
  unfold isDeterministicRollbackLineage. destruct (p <=? i); [done|].
  destruct (parseRollbackLineage d) as [[[f t] w]|]; [|done].
  rewrite !andb_true_iff, !Z.eqb_eq, Z.ltb_lt, Z.leb_le. intros [[[-> ->] ?] ?]. eauto.
Qed.

(** Also: epochs move only as declared.  A transition leaves the digest and the epoch of the
    checkpoint, or the incoming digest with: the epoch of the checkpoint, the next one,
    one a new policy version brings, one its snapshot tokens name as the tail of a cutover
    from the checkpoint, or an earlier one its rollback tokens name as the target of a
    rollback from the checkpoint.  In particular an epoch never goes back without such tokens. *)
Theorem policy_epoch_moves a t :
  pt_HasState t = true ->
  let a' := reconcilePolicyTransition a t in
  moved_to (normalizePolicyManifestDigest (pt_ManifestDigest t))
    (normalizePolicyManifestDigest (po_manifestDigest (a_policy a)))
    (nonneg (pt_Epoch t)) (nonneg (po_epoch (a_policy a)))
    (String.eqb (s_policyVersion (a_settings a)) (normalizePolicyVersion (pt_Version t)))
    (po_manifestDigest (a_policy a')) (po_epoch (a_policy a')).
Proof.
  intros Hs. unfold reconcilePolicyTransition. rewrite Hs. simpl.
  set (hold := normalizeTransitionActivationHold t). generalize hold. clear Hs hold. intros hold.
  assert (forall x, po_manifestDigest (a_policy (raise_hold x hold)) = po_manifestDigest (a_policy x) /\
                    po_epoch (a_policy (raise_hold x hold)) = po_epoch (a_policy x)) as Hrh.
  { intros x. by destruct (raise_hold_policy x hold) as [? ->]. }
  set (pd := normalizePolicyManifestDigest (pt_ManifestDigest t)).
  set (id := normalizePolicyManifestDigest (po_manifestDigest (a_policy a))).
  set (pe := nonneg (pt_Epoch t)). set (ie := nonneg (po_epoch (a_policy a))).
  destruct (String.eqb _ _) eqn:Ev; simpl.
  - destruct (String.eqb id pd) eqn:Ed.
    + destruct (Hrh (if ie =? pe ⊕ 1 then adopt a id ie else own a pd pe)) as [-> ->].
      destruct (Z.eqb_spec ie (pe ⊕ 1)) as [->|]; simpl; [apply moved_next|apply moved_not].
    + destruct (Z.ltb_spec pe ie).
      * destruct (isDeterministicRollbackFencePostReleaseWindowEpochRolloverStaleTransition _ _ _ _).
        { destruct (Hrh (own a pd pe)) as [-> ->]. apply moved_not. }
        destruct (Z.eqb_spec ie (pe ⊕ 1)) as [->|]; simpl; [apply moved_next|].
        destruct (isDeterministicSnapshotCutover _ _ _) eqn:Ec; simpl.
        { apply cutover_declared in Ec as [? ?]. by apply moved_cutover. }
        destruct (Hrh (own a pd pe)) as [-> ->]. apply moved_not.
      * destruct (Z.ltb_spec ie pe).
        { destruct (isDeterministicRollbackLineage _ _ _) eqn:Er; simpl.
          - apply rollback_declared in Er as (fw & ? & ?). by eapply moved_rollback.
          - destruct (Hrh (own a pd pe)) as [-> ->]. apply moved_not. }
        assert (ie = pe) as Heq by lia. rewrite Heq.
        destruct (resolveSameEpochPolicyLineage _ _ _) as [[]|]; simpl; [apply moved_same|apply moved_not|].
        destruct (Hrh (own a pd pe)) as [-> ->]. apply moved_not.
  - unfold maxInt64. destruct (Z.ltb_spec ie (pe ⊕ 1)); [apply moved_next|]. by apply moved_version.
Qed.

(** A rollback that the incoming manifest declares. *)
Lemma policy_epoch_moves_witness :
  let a := set_policy {| po_manifestDigest := fence_lineage; po_epoch := 5; po_activationLeft := 0 |}
             sample_controller in
  let t := {| pt_HasState := true; pt_Version := "policy-v1"; pt_ManifestDigest := "manifest-v1"; pt_Epoch := 9;
              pt_ActivationHoldRemaining := 0; pt_FromWarmCheckpoint := false |} in
  moved_to "manifest-v1" fence_lineage 9 5 true
    (po_manifestDigest (a_policy (reconcilePolicyTransition a t)))
    (po_epoch (a_policy (reconcilePolicyTransition a t))) /\
  po_epoch (a_policy (reconcilePolicyTransition a t)) = 5.
Proof.
  intros a t. split; [|vm_compute; reflexivity]. exact (policy_epoch_moves a t eq_refl).
Defined.

(** ** Checkpoints *)

Record policy_wf (a : autoTuneController) : Prop := {
  pw_version : normalizePolicyVersion (s_policyVersion (a_settings a)) = s_policyVersion (a_settings a);
  pw_digest : normalizePolicyManifestDigest (po_manifestDigest (a_policy a)) = po_manifestDigest (a_policy a);
  pw_epoch : 0 <= po_epoch (a_policy a);
  pw_left : 0 <= po_activationLeft (a_policy a);
  pw_hold : 0 <= s_policyActivationHold (a_settings a)
}.

Lemma nonneg_nonneg v : 0 <= nonneg v.
Proof. unfold nonneg. destruct (Z.ltb_spec v 0); lia. Qed.

Lemma nonneg_id v : 0 <= v -> nonneg v = v.
Proof. unfold nonneg. destruct (Z.ltb_spec v 0); lia. Qed.

Lemma new_policy_wf base cfg seed bounded a :
  newAutoTuneControllerWithSeedMode base cfg seed bounded = Some a ->
  policy_wf a /\ po_activationLeft (a_policy a) = 0.
Proof.
  unfold newAutoTuneControllerWithSeedMode. destruct (cfg_Enabled cfg); [|done]. intros [= <-].
  split; [|done]. split; simpl; [apply normalizeVersion_idem|apply normalizeDigest_idem|apply nonneg_nonneg|lia|
    apply nonneg_nonneg].
Qed.

Lemma raise_hold_wf a h : policy_wf a -> policy_wf (raise_hold a h).
Proof.
  intros []. unfold raise_hold. destruct (Z.ltb_spec (po_activationLeft (a_policy a)) h); [|done].
  split; simpl; done || lia.
Qed.

Lemma adopt_wf a d e : policy_wf a -> normalizePolicyManifestDigest d = d -> 0 <= e -> policy_wf (adopt a d e).
Proof. by intros [] ??. Qed.

Lemma own_wf a d e : policy_wf a -> normalizePolicyManifestDigest d = d -> 0 <= e -> policy_wf (own a d e).
Proof. by intros [] ??. Qed.

#[local] Hint Resolve raise_hold_wf adopt_wf own_wf normalizeDigest_idem nonneg_nonneg : policy.

Lemma act_policy_wf a x : policy_wf a -> policy_wf (act a x).
Proof.
  intros Hw. destruct x as [i|t|t]; simpl.
  - unfold resolved, Resolve. destruct (telemetry_frame a i) as [te Et].
    destruct (resolveTelemetryState a i) as [ts a1]. simpl in Et. subst a1.
    destruct (resolveOverrideState _); [|by destruct Hw..].
    destruct (Z.ltb_spec 0 (po_activationLeft (a_policy (set_telemetry te a)))).
    + destruct Hw. split; simpl in *; done || lia.
    + destruct (resolve_auto_tick (set_telemetry te a) i (lag_of i) ts) as (_ & (F1 & _ & F3 & _) & _).
      destruct (resolve_auto _ _ _ _) as [[sig dec] a2]. simpl in *.
      destruct Hw. by split; simpl; rewrite ?F1, ?F3.
  - unfold reconcileOverrideTransition. repeat case_match; by destruct Hw.
  - unfold reconcilePolicyTransition. repeat case_match; auto 6 with policy.
    apply adopt_wf; auto with policy. unfold maxInt64.
    pose proof (nonneg_nonneg (po_epoch (a_policy a))). case_match; lia.
Qed.

Lemma reachable_policy_wf a : reachable a -> policy_wf a.
Proof. induction 1; [by eapply new_policy_wf|by apply act_policy_wf]. Qed.

(** Also: checkpoints round trip.  A controller constructed with the version and the manifest
    of a reachable one and reconciled with the transition that one exports has the same
    policy state: digest, epoch and what is left of the activation hold.  (A configured
    epoch that is the next one is a new policy, and is adopted instead.) *)
Theorem policy_checkpoint_roundtrip a base cfg seed bounded b :
  reachable a -> newAutoTuneControllerWithSeedMode base cfg seed bounded = Some b ->
  s_policyVersion (a_settings b) = s_policyVersion (a_settings a) ->
  po_manifestDigest (a_policy b) = po_manifestDigest (a_policy a) ->
  po_epoch (a_policy b) <> po_epoch (a_policy a) ⊕ 1 ->
  a_policy (reconcilePolicyTransition b (exportPolicyTransition a)) = a_policy a.
Proof.
  intros Ha Hb Hv Hd He. apply reachable_policy_wf in Ha as [Wv Wd We Wl _].
  destruct (new_policy_wf _ _ _ _ _ Hb) as [[_ Bd Be _ _] Bl].
  unfold reconcilePolicyTransition, exportPolicyTransition. simpl.
  rewrite Wv, Wd, Hv, Hd, Wd, !nonneg_id, !String.eqb_refl by done. simpl.
  apply Z.eqb_neq in He. rewrite He. unfold raise_hold, normalizeTransitionActivationHold. simpl.
  rewrite orb_true_r, Bl. unfold maxInt. destruct (Z.ltb_spec 0 (po_activationLeft (a_policy a))); simpl.
  - destruct (Z.ltb_spec 0 (po_activationLeft (a_policy a))); [|lia]. by destruct (a_policy a).
  - destruct (a_policy a) as [d e l]. simpl in *. rewrite Bl. f_equal. lia.
Qed.

Definition held_config : AutoTuneConfig :=
  {| cfg_Enabled := true; cfg_MinBatchSize := 10; cfg_MaxBatchSize := 100; cfg_StepUp := 20; cfg_StepDown := 30;
     cfg_LagHighWatermark := 50; cfg_LagLowWatermark := 5; cfg_QueueHighWatermarkPct := 80;
     cfg_QueueLowWatermarkPct := 30; cfg_HysteresisTicks := 2; cfg_CooldownTicks := 3;
     cfg_TelemetryStaleTicks := 2; cfg_TelemetryRecoveryTicks := 2; cfg_OperatorOverrideBatchSize := 0;
     cfg_OperatorReleaseHoldTicks := 0; cfg_PolicyVersion := " Policy-V2"; cfg_PolicyManifestDigest := " Manifest-V7 ";
     cfg_PolicyManifestRefreshEpoch := 3; cfg_PolicyActivationHoldTicks := 4 |}.

Definition held_start : autoTuneController :=
  default sample_controller (newAutoTuneControllerWithSeedMode 40 held_config None false).

(** It took over from version 1 at epoch 6, and one of its four hold ticks has passed. *)
Definition held_controller : autoTuneController :=
  act (act held_start (ActPolicy {| pt_HasState := true; pt_Version := "policy-v1"; pt_ManifestDigest := "m";
    pt_Epoch := 6; pt_ActivationHoldRemaining := 0; pt_FromWarmCheckpoint := false |})) (ActResolve lagging).

Lemma policy_checkpoint_roundtrip_witness :
  a_policy (reconcilePolicyTransition held_start (exportPolicyTransition held_controller)) = a_policy held_controller /\
  a_policy held_controller = {| po_manifestDigest := "manifest-v7"; po_epoch := 7; po_activationLeft := 3 |}.
Proof.
  split; [|vm_compute; reflexivity].
  apply (policy_checkpoint_roundtrip held_controller 40 held_config None false).
  - do 2 apply reach_act. eapply (reach_new 40 held_config None false). reflexivity.
  - reflexivity.
  - reflexivity.
  - vm_compute. reflexivity.
  - vm_compute. discriminate.
Defined.
