(* ===== verification/Coordinator.v ===== *)
(** * Coordinator: [pipeline/coordinator/coordinator.go]

    One tick turns the watermark and the chain head into at most one fetch job; the
    auto-tune controller chooses its size.  What the tick reads from the repositories,
    the chain and the channels is an argument, [tick_env]. *)

From Stdlib Require Import ZArith String Lia.
From stdpp Require Import base option list strings.
From S2P Require Import Prelude Retry Domain AutoTune PolicyLineage AutoTuneProofs PolicyProofs.

Open Scope Z_scope.
Open Scope go_scope.

(** ** Jobs and state *)

Record FetchJob := {
  fj_Chain : Chain; fj_Network : Network; fj_Address : string; fj_CursorValue : option string;
  fj_CursorSequence : Z; fj_FetchCutoffSeq : Z; fj_BatchSize : Z; fj_WalletID : option string;
  fj_OrgID : option string;
  fj_BlockScanMode : bool; fj_StartBlock : Z; fj_EndBlock : Z; fj_WatchedAddresses : list string
}.

Record BackfillRequest := { bf_Chain : Chain; bf_Network : Network; bf_FromBlock : Z }.

Record AutoTuneRestartState := {
  rs_Chain : Chain; rs_Network : Network; rs_BatchSize : Z;
  rs_OverrideManualActive : bool; rs_OverrideReleaseRemaining : Z;
  rs_PolicyVersion : string; rs_PolicyManifestDigest : string; rs_PolicyEpoch : Z;
  rs_PolicyActivationRemaining : Z
}.

(** [hasHead], [hasWatermark] and [hasBackfill] say that the provider, the repository
    and the channel are set. *)
Record Coordinator := {
  c_chain : Chain; c_network : Network;
  c_batchSize : Z; c_intervalNs : Z;
  c_hasHead : bool; c_hasWatermark : bool; c_hasBackfill : bool;
  c_maxInitialLookbackBlocks : Z;
  c_autoTune : option autoTuneController;
  c_hasEnqueued : bool; c_lastEnqueuedStart : Z; c_lastEnqueuedEnd : Z
}.

Definition New (chain : Chain) (network : Network) (batchSize interval : Z) : Coordinator :=
  {| c_chain := chain; c_network := network; c_batchSize := wrap32 batchSize; c_intervalNs := interval;
     c_hasHead := false; c_hasWatermark := false; c_hasBackfill := false; c_maxInitialLookbackBlocks := 0;
     c_autoTune := None; c_hasEnqueued := false; c_lastEnqueuedStart := 0; c_lastEnqueuedEnd := 0 |}.

(** The options set a provider, a repository or a channel. *)
Definition WithHeadProvider (c : Coordinator) : Coordinator :=
  {| c_chain := c_chain c; c_network := c_network c; c_batchSize := c_batchSize c;
     c_intervalNs := c_intervalNs c; c_hasHead := true; c_hasWatermark := c_hasWatermark c;
     c_hasBackfill := c_hasBackfill c; c_maxInitialLookbackBlocks := c_maxInitialLookbackBlocks c;
     c_autoTune := c_autoTune c; c_hasEnqueued := c_hasEnqueued c;
     c_lastEnqueuedStart := c_lastEnqueuedStart c; c_lastEnqueuedEnd := c_lastEnqueuedEnd c |}.
Definition WithBlockScanMode (c : Coordinator) : Coordinator :=
  {| c_chain := c_chain c; c_network := c_network c; c_batchSize := c_batchSize c;
     c_intervalNs := c_intervalNs c; c_hasHead := c_hasHead c; c_hasWatermark := true;
     c_hasBackfill := c_hasBackfill c; c_maxInitialLookbackBlocks := c_maxInitialLookbackBlocks c;
     c_autoTune := c_autoTune c; c_hasEnqueued := c_hasEnqueued c;
     c_lastEnqueuedStart := c_lastEnqueuedStart c; c_lastEnqueuedEnd := c_lastEnqueuedEnd c |}.
Definition WithMaxInitialLookbackBlocks (n : Z) (c : Coordinator) : Coordinator :=
  {| c_chain := c_chain c; c_network := c_network c; c_batchSize := c_batchSize c;
     c_intervalNs := c_intervalNs c; c_hasHead := c_hasHead c; c_hasWatermark := c_hasWatermark c;
     c_hasBackfill := c_hasBackfill c; c_maxInitialLookbackBlocks := n; c_autoTune := c_autoTune c;
     c_hasEnqueued := c_hasEnqueued c; c_lastEnqueuedStart := c_lastEnqueuedStart c;
     c_lastEnqueuedEnd := c_lastEnqueuedEnd c |}.
Definition WithBackfillChannel (c : Coordinator) : Coordinator :=
  {| c_chain := c_chain c; c_network := c_network c; c_batchSize := c_batchSize c;
     c_intervalNs := c_intervalNs c; c_hasHead := c_hasHead c; c_hasWatermark := c_hasWatermark c;
     c_hasBackfill := true; c_maxInitialLookbackBlocks := c_maxInitialLookbackBlocks c;
     c_autoTune := c_autoTune c; c_hasEnqueued := c_hasEnqueued c;
     c_lastEnqueuedStart := c_lastEnqueuedStart c; c_lastEnqueuedEnd := c_lastEnqueuedEnd c |}.

Definition set_autoTune (x : option autoTuneController) (c : Coordinator) : Coordinator :=
  {| c_chain := c_chain c; c_network := c_network c; c_batchSize := c_batchSize c;
     c_intervalNs := c_intervalNs c; c_hasHead := c_hasHead c; c_hasWatermark := c_hasWatermark c;
     c_hasBackfill := c_hasBackfill c; c_maxInitialLookbackBlocks := c_maxInitialLookbackBlocks c;
     c_autoTune := x; c_hasEnqueued := c_hasEnqueued c; c_lastEnqueuedStart := c_lastEnqueuedStart c;
     c_lastEnqueuedEnd := c_lastEnqueuedEnd c |}.

Definition set_enqueued (startBlock endBlock : Z) (c : Coordinator) : Coordinator :=
  {| c_chain := c_chain c; c_network := c_network c; c_batchSize := c_batchSize c;
     c_intervalNs := c_intervalNs c; c_hasHead := c_hasHead c; c_hasWatermark := c_hasWatermark c;
     c_hasBackfill := c_hasBackfill c; c_maxInitialLookbackBlocks := c_maxInitialLookbackBlocks c;
     c_autoTune := c_autoTune c; c_hasEnqueued := true; c_lastEnqueuedStart := startBlock;
     c_lastEnqueuedEnd := endBlock |}.

Definition UpdateBatchSize (newBatchSize : Z) (c : Coordinator) : Coordinator :=
  if newBatchSize <=? 0 then c
  else {| c_chain := c_chain c; c_network := c_network c; c_batchSize := wrap32 newBatchSize;
          c_intervalNs := c_intervalNs c; c_hasHead := c_hasHead c; c_hasWatermark := c_hasWatermark c;
          c_hasBackfill := c_hasBackfill c; c_maxInitialLookbackBlocks := c_maxInitialLookbackBlocks c;
          c_autoTune := c_autoTune c; c_hasEnqueued := c_hasEnqueued c;
          c_lastEnqueuedStart := c_lastEnqueuedStart c; c_lastEnqueuedEnd := c_lastEnqueuedEnd c |}.

(** The result says whether the interval changed. *)
Definition UpdateInterval (newInterval : Z) (c : Coordinator) : bool * Coordinator :=
  if newInterval <=? 0 then (false, c)
  else (negb (c_intervalNs c =? newInterval),
        {| c_chain := c_chain c; c_network := c_network c; c_batchSize := c_batchSize c;
           c_intervalNs := newInterval; c_hasHead := c_hasHead c; c_hasWatermark := c_hasWatermark c;
           c_hasBackfill := c_hasBackfill c; c_maxInitialLookbackBlocks := c_maxInitialLookbackBlocks c;
           c_autoTune := c_autoTune c; c_hasEnqueued := c_hasEnqueued c;
           c_lastEnqueuedStart := c_lastEnqueuedStart c; c_lastEnqueuedEnd := c_lastEnqueuedEnd c |}).

(** ** Auto-tune at start *)

Definition ExportAutoTuneRestartState (c : Coordinator) : option AutoTuneRestartState :=
  match c_autoTune c with
  | None => None
  | Some a =>
      let override := exportOverrideTransition a in
      let policy := exportPolicyTransition a in
      Some {| rs_Chain := c_chain c; rs_Network := c_network c; rs_BatchSize := a_currentBatch a;
              rs_OverrideManualActive := ot_WasManualOverride override;
              rs_OverrideReleaseRemaining := ot_ReleaseHoldRemaining override;
              rs_PolicyVersion := pt_Version policy; rs_PolicyManifestDigest := pt_ManifestDigest policy;
              rs_PolicyEpoch := pt_Epoch policy;
              rs_PolicyActivationRemaining := pt_ActivationHoldRemaining policy |}
  end.

Definition no_override : autoTuneOverrideTransition :=
  {| ot_WasManualOverride := false; ot_ReleaseHoldRemaining := 0 |}.
Definition no_policy : autoTunePolicyTransition :=
  {| pt_HasState := false; pt_Version := ""; pt_ManifestDigest := ""; pt_Epoch := 0;
     pt_ActivationHoldRemaining := 0; pt_FromWarmCheckpoint := false |}.

Definition has_policy_state (w : AutoTuneRestartState) : bool :=
  negb (str_empty (trim_space (rs_PolicyVersion w))) ||
  negb (str_empty (trim_space (rs_PolicyManifestDigest w))) ||
  (0 <? rs_PolicyEpoch w) || (0 <? rs_PolicyActivationRemaining w).

(** The seed, whether it is a warm start, and the transitions. *)
Definition warm_seed (c : Coordinator) (warmState : option AutoTuneRestartState)
    : option Z * bool * autoTuneOverrideTransition * autoTunePolicyTransition :=
  match warmState with
  | Some w =>
      if negb (String.eqb (rs_Chain w) (c_chain c)) then (None, false, no_override, no_policy)
      else if negb (String.eqb (rs_Network w) (c_network c)) then (None, false, no_override, no_policy)
      else if rs_BatchSize w <=? 0 then (None, false, no_override, no_policy)
      else
        (Some (rs_BatchSize w), true,
         {| ot_WasManualOverride := rs_OverrideManualActive w;
            ot_ReleaseHoldRemaining := maxInt (rs_OverrideReleaseRemaining w) 0 |},
         if has_policy_state w
         then {| pt_HasState := true; pt_Version := rs_PolicyVersion w;
                 pt_ManifestDigest := rs_PolicyManifestDigest w; pt_Epoch := nonneg (rs_PolicyEpoch w);
                 pt_ActivationHoldRemaining := maxInt (rs_PolicyActivationRemaining w) 0;
                 pt_FromWarmCheckpoint := true |}
         else no_policy)
  | None =>
      match c_autoTune c with
      | Some previous =>
          (Some (a_currentBatch previous), false, exportOverrideTransition previous,
           exportPolicyTransition previous)
      | None => (None, false, no_override, no_policy)
      end
  end.

Definition use_bounded_warm_start (warm : bool) (o : autoTuneOverrideTransition)
    (p : autoTunePolicyTransition) : bool :=
  warm && negb (ot_WasManualOverride o) && (ot_ReleaseHoldRemaining o =? 0) && negb (pt_HasState p).

Definition withAutoTune (cfg : AutoTuneConfig) (warmState : option AutoTuneRestartState) (c : Coordinator)
    : Coordinator :=
  let '(seedBatch, warm, overrideTransition, policyTransition) := warm_seed c warmState in
  let a :=
    if use_bounded_warm_start warm overrideTransition policyTransition
    then newAutoTuneControllerWithRestartSeed (c_batchSize c) cfg seedBatch
    else newAutoTuneControllerWithSeed (c_batchSize c) cfg seedBatch in
  set_autoTune
    ((fun a => reconcilePolicyTransition (reconcileOverrideTransition a overrideTransition) policyTransition) <$> a)
    c.

Definition WithAutoTune (cfg : AutoTuneConfig) (c : Coordinator) : Coordinator := withAutoTune cfg None c.
Definition WithAutoTuneWarmStart (cfg : AutoTuneConfig) (state : option AutoTuneRestartState) (c : Coordinator)
    : Coordinator := withAutoTune cfg state c.

(** ** The tick *)

(** [te_send]: the job is taken from the channel, at once or after a wait, or the context
    ends; [te_backfillRoom]: the backfill channel is not full. *)
Record tick_env := {
  te_active : result go_error (list WatchedAddress);
  te_head : result go_error Z;
  te_watermark : result go_error (option Z);
  te_queueDepth : Z; te_queueCapacity : Z;
  te_send : result go_error unit;
  te_pending : result go_error (list WatchedAddress);
  te_backfillRoom : bool
}.

(** What a tick sends. *)
Record sent := { st_jobs : list FetchJob; st_backfills : list BackfillRequest }.
Definition nothing : sent := {| st_jobs := []; st_backfills := [] |}.

(** The cutoff head of a tick; 0 without a provider. *)
Definition tick_head (c : Coordinator) (e : tick_env) : result go_error Z :=
  if c_hasHead c then
    match te_head e with
    | Err err => Err (EWrap "resolve tick cutoff head" err)
    | Ok head => Ok (nonneg head)
    end
  else Ok 0.

(** The start block and whether a watermark gave it: an error of the read is only logged. *)
Definition watermark_start (c : Coordinator) (e : tick_env) : Z * bool :=
  if c_hasWatermark c then
    match te_watermark e with
    | Ok (Some wm) => if 0 <? wm then (wm ⊕ 1, true) else (0, false)
    | _ => (0, false)
    end
  else (0, false).

Definition start_block (c : Coordinator) (e : tick_env) (head : Z) : Z * bool :=
  let '(startBlock, hasWatermark) := watermark_start c e in
  if negb hasWatermark && (0 <? head) && (0 <? c_maxInitialLookbackBlocks c) then
    let tipStart := nonneg (head ⊖ c_maxInitialLookbackBlocks c ⊕ 1) in
    (if startBlock <? tipStart then tipStart else startBlock, hasWatermark)
  else (startBlock, hasWatermark).

Definition tune_inputs (c : Coordinator) (e : tick_env) (head startBlock : Z) : autoTuneInputs :=
  {| in_Chain := c_chain c; in_Network := c_network c; in_HasHeadSignal := c_hasHead c; in_HeadSequence := head;
     in_HasMinCursorSignal := true; in_MinCursorSequence := startBlock;
     in_QueueDepth := te_queueDepth e; in_QueueCapacity := te_queueCapacity e;
     in_RPCErrorRateBps := 0; in_DBCommitLatencyP95Ms := 0; in_DecisionEpochMs := 0 |}.

(** The batch size of the tick and the coordinator after the controller resolved it. *)
Definition tick_batch (c : Coordinator) (e : tick_env) (head startBlock : Z) : Z * Coordinator :=
  match c_autoTune c with
  | Some a =>
      let '(batchSize, _, a') := Resolve a (tune_inputs c e head startBlock) in
      (if batchSize <=? 0 then c_batchSize c else batchSize, set_autoTune (Some a') c)
  | None => (c_batchSize c, c)
  end.

Definition end_block (head startBlock batchSize : Z) : Z :=
  if (0 <? head) && (batchSize <? head ⊖ startBlock ⊕ 1) then startBlock ⊕ batchSize ⊖ 1 else head.

Definition already_enqueued (c : Coordinator) (startBlock endBlock : Z) : bool :=
  c_hasWatermark c && c_hasEnqueued c && (startBlock =? c_lastEnqueuedStart c) &&
  (endBlock =? c_lastEnqueuedEnd c).

(** After the scan: the first pending address decides. *)
Definition backfill_check (c : Coordinator) (e : tick_env) (startBlock : Z) (hasWatermark : bool)
    : list BackfillRequest :=
  if c_hasBackfill c && c_hasWatermark c && hasWatermark then
    match te_pending e with
    | Ok (addr :: _) =>
        match wa_BackfillFromBlock addr with
        | Some fromBlock =>
            if (fromBlock <? startBlock) && te_backfillRoom e
            then [{| bf_Chain := c_chain c; bf_Network := c_network c; bf_FromBlock := fromBlock |}]
            else []
        | None => []
        end
    | _ => []
    end
  else [].

Definition tickBlockScan (c : Coordinator) (e : tick_env) : result go_error sent * Coordinator :=
  match te_active e with
  | Err err => (Err err, c)
  | Ok [] => (Ok nothing, c)
  | Ok addresses =>
      match tick_head c e with
      | Err err => (Err err, c)
      | Ok head =>
          let '(startBlock, hasWatermark) := start_block c e head in
          if (0 <? head) && (head <? startBlock) then (Ok nothing, c)
          else
            let '(batchSize, c) := tick_batch c e head startBlock in
            let endBlock := end_block head startBlock batchSize in
            if already_enqueued c startBlock endBlock then (Ok nothing, c)
            else
              let job := {| fj_Chain := c_chain c; fj_Network := c_network c; fj_Address := "";
                            fj_CursorValue := None; fj_CursorSequence := 0; fj_FetchCutoffSeq := endBlock;
                            fj_BatchSize := batchSize; fj_WalletID := None; fj_OrgID := None;
                            fj_BlockScanMode := true;
                            fj_StartBlock := startBlock; fj_EndBlock := endBlock;
                            fj_WatchedAddresses := wa_Address <$> addresses |} in
              match te_send e with
              | Err err => (Err err, c)
              | Ok _ =>
                  (Ok {| st_jobs := [job]; st_backfills := backfill_check c e startBlock hasWatermark |},
                   set_enqueued startBlock endBlock c)
              end
      end
  end.

(** [Run]: ticks until one fails; what they sent. *)
Fixpoint Run (c : Coordinator) (es : list tick_env) : option go_error * list sent * Coordinator :=
  match es with
  | [] => (None, [], c)
  | e :: es' =>
      match tickBlockScan c e with
      | (Err err, c') => (Some (EWrap "coordinator tick failed" err), [], c')
      | (Ok s, c') => let '(r, ss, c'') := Run c' es' in (r, s :: ss, c'')
      end
  end.

(** ** The loop of coordinator, fetcher and ingester

    A tick reads the watermark its predecessors left: the job of a tick is ingested before
    the next one.  A range in which the fetcher finds signatures leaves the watermark at the
    block of the last one, the sequence of the last sub-batch; an empty range leaves it at
    its end, the sequence of the empty batch; and the watermark never goes down.  [active]
    says which blocks have signatures. *)

Definition read_watermark (w : Z) (e : tick_env) : tick_env :=
  {| te_active := te_active e; te_head := te_head e; te_watermark := Ok (Some w);
     te_queueDepth := te_queueDepth e; te_queueCapacity := te_queueCapacity e; te_send := te_send e;
     te_pending := te_pending e; te_backfillRoom := te_backfillRoom e |}.

(** The last of the [n] blocks from [start] on that has a signature. *)
Fixpoint newest_block (active : Z -> bool) (start : Z) (n : nat) : option Z :=
  match n with
  | O => None
  | S n => if active (start + Z.of_nat n) then Some (start + Z.of_nat n) else newest_block active start n
  end.

(** The sequence the batches of a job end with. *)
Definition job_cursor (active : Z -> bool) (j : FetchJob) : Z :=
  default (fj_EndBlock j)
    (newest_block active (fj_StartBlock j) (Z.to_nat (fj_EndBlock j - fj_StartBlock j + 1))).

Definition ingested (active : Z -> bool) (w : Z) (jobs : list FetchJob) : Z :=
  foldl (fun w j => Z.max w (job_cursor active j)) w jobs.

(** The jobs of a run of the loop, the last coordinator and the last watermark. *)
Fixpoint closed_run (active : Z -> bool) (c : Coordinator) (w : Z) (es : list tick_env)
    : list FetchJob * Coordinator * Z :=
  match es with
  | [] => ([], c, w)
  | e :: es' =>
      match tickBlockScan c (read_watermark w e) with
      | (Ok s, c') =>
          let '(jobs, c'', w'') := closed_run active c' (ingested active w (st_jobs s)) es' in
          (st_jobs s ++ jobs, c'', w'')
      | (Err _, c') => ([], c', w)
      end
  end.

(** How many of the jobs scan a block. *)
Definition scans (b : Z) (jobs : list FetchJob) : nat :=
  length (filter (fun j => fj_StartBlock j <= b <= fj_EndBlock j) jobs).

Lemma scans_cons b j jobs : scans b (j :: jobs) =
  ((if decide (fj_StartBlock j <= b <= fj_EndBlock j)%Z then 1 else 0) + scans b jobs)%nat.
Proof. unfold scans. rewrite filter_cons. by destruct (decide _). Qed.

Lemma newest_block_spec active start n :
  match newest_block active start n with
  | Some b => start <= b < start + Z.of_nat n /\ active b = true /\
              forall b', b < b' < start + Z.of_nat n -> active b' = false
  | None => forall b', start <= b' < start + Z.of_nat n -> active b' = false
  end.
Proof.
  induction n as [|n IH]; simpl; [intros; lia|].
  destruct (active (start + Z.of_nat n)) eqn:Ea; [split_and!; [lia|lia|done|intros; lia]|].
  assert (forall b', b' < start + Z.of_nat (S n) -> b' = start + Z.of_nat n \/ b' < start + Z.of_nat n) as Hcase by lia.
  destruct (newest_block active start n) as [b|].
  - destruct IH as (H1 & H2 & H3). split_and!; [lia|lia|done|].
    intros b' Hb. destruct (Hcase b'); [lia|by subst|apply H3; lia].
  - intros b' Hb. destruct (Hcase b'); [lia|by subst|apply IH; lia].
Qed.

Lemma job_cursor_spec active j : fj_StartBlock j <= fj_EndBlock j ->
  fj_StartBlock j <= job_cursor active j <= fj_EndBlock j /\
  forall b, job_cursor active j < b <= fj_EndBlock j -> active b = false.
Proof.
  intros Hj. unfold job_cursor.
  pose proof (newest_block_spec active (fj_StartBlock j) (Z.to_nat (fj_EndBlock j - fj_StartBlock j + 1))) as H.
  destruct (newest_block _ _ _) as [b|]; simpl.
  - destruct H as (H1 & _ & H2). split; [lia|]. intros b' Hb. apply H2. lia.
  - split; [lia|]. intros b Hb. lia.
Qed.

(** An environment in which nothing fails, with the head at [head]. *)
Record healthy (head : Z) (e : tick_env) : Prop := {
  hy_active : exists a l, te_active e = Ok (a :: l);
  hy_head : te_head e = Ok head;
  hy_range : 0 < head < max_int64;
  hy_send : te_send e = Ok tt
}.

(** The batch size of every tick is positive. *)
Definition tuned (c : Coordinator) : Prop :=
  0 < c_batchSize c /\ match c_autoTune c with Some a => reachable a | None => True end.

Record loop_inv (c : Coordinator) (w : Z) : Prop := {
  li_tuned : tuned c;
  li_head : c_hasHead c = true;
  li_watermark : c_hasWatermark c = true;
  li_range : 0 < w < max_int64;
  li_enqueued : c_hasEnqueued c = true -> c_lastEnqueuedStart c <= w
}.

Lemma tick_batch_pos c e head start : tuned c ->
  let '(batch, c') := tick_batch c e head start in
  0 < batch /\ tuned c' /\ (c' = c \/ exists a, c' = set_autoTune (Some a) c).
Proof.
  intros [Hb Ha]. unfold tick_batch. destruct (c_autoTune c) as [a|] eqn:Ea; [|unfold tuned; rewrite Ea; auto].
  pose proof (Resolve_result a (tune_inputs c e head start)) as [Hr _].
  destruct (Resolve_wf a (tune_inputs c e head start) (reachable_wf a Ha)) as [Hw _].
  assert (reachable (resolved a (tune_inputs c e head start))) as Hr'
    by (by apply (reach_act a (ActResolve (tune_inputs c e head start)))).
  unfold resolved in *. destruct (Resolve a _) as [[batch d] a']. simpl in *. subst batch.
  pose proof (sw_min _ (wf_settings _ Hw)). pose proof (cw_batch _ _ (wf_control _ Hw)) as Hcb. simpl in Hcb.
  destruct (Z.leb_spec (a_currentBatch a') 0); [lia|]. split_and!; [lia|by split|eauto].
Qed.

Lemma end_block_range head start batch : 0 < start <= head -> head < max_int64 -> 0 < batch ->
  start <= end_block head start batch <= head.
Proof.
  intros Hs Hh Hb. unfold end_block. unfold max_int64 in *.
  rewrite (wrap64_id (head - start)) by (unfold in_int64, min_int64, max_int64; lia).
  rewrite (wrap64_id (head - start + 1)) by (unfold in_int64, min_int64, max_int64; lia).
  destruct (Z.ltb_spec 0 head); [|lia]. simpl. destruct (Z.ltb_spec batch (head - start + 1)); [|lia].
  rewrite (wrap64_id (start + batch)) by (unfold in_int64, min_int64, max_int64; lia).
  rewrite wrap64_id by (unfold in_int64, min_int64, max_int64; lia). lia.
Qed.

(** A healthy tick of the loop: nothing above the head, otherwise the next blocks. *)
Lemma closed_tick active c w head e : loop_inv c w -> healthy head e ->
  exists s c', tickBlockScan c (read_watermark w e) = (Ok s, c') /\ loop_inv c' (ingested active w (st_jobs s)) /\
    ((head <= w /\ st_jobs s = []) \/
     exists j, st_jobs s = [j] /\ fj_StartBlock j = w + 1 /\ w < fj_EndBlock j <= head).
Proof.
  intros [Ht Hh Hw Hr He] [(a & l & Ha) Hhd Hrg Hs]. unfold tickBlockScan, tick_head, start_block, watermark_start.
  simpl. rewrite Ha, Hh, Hhd, Hw, nonneg_id by lia.
  destruct (Z.ltb_spec 0 w); [|lia]. simpl.
  assert (w ⊕ 1 = w + 1) as Hw1
    by (unfold max_int64 in *; rewrite wrap64_id by (unfold in_int64, min_int64, max_int64; lia); lia).
  rewrite Hw1. destruct (Z.ltb_spec 0 head); [|lia]. simpl. destruct (Z.ltb_spec head (w + 1)) as [Hle|Hgt].
  { eexists _, _. split; [done|]. split; [by split|]. left. split; [lia|done]. }
  pose proof (tick_batch_pos c (read_watermark w e) head (w + 1) Ht) as Hb.
  destruct (tick_batch c (read_watermark w e) head (w + 1)) as [batch c1]. destruct Hb as (Hb & Ht1 & Hc1).
  pose proof (end_block_range head (w + 1) batch ltac:(lia) ltac:(lia) Hb) as Hend.
  assert (already_enqueued c1 (w + 1) (end_block head (w + 1) batch) = false) as ->.
  { assert (c_hasEnqueued c1 = c_hasEnqueued c /\ c_lastEnqueuedStart c1 = c_lastEnqueuedStart c) as [E1 E2]
      by (destruct Hc1 as [->|[? ->]]; done).
    unfold already_enqueued. rewrite E1, E2. destruct (c_hasEnqueued c); [|by rewrite andb_false_r].
    specialize (He eq_refl). destruct (Z.eqb_spec (w + 1) (c_lastEnqueuedStart c)); [lia|]. by rewrite !andb_false_r. }
  rewrite Hs. eexists _, _. split; [done|]. cbn [st_jobs].
  match goal with |- context [ingested active w [?j]] =>
    pose proof (job_cursor_spec active j) as Hcur; set (job := j) in * end.
  cbn [job fj_StartBlock fj_EndBlock] in Hcur. destruct Hcur as [Hcur _]; [lia|].
  unfold ingested. cbn [foldl]. split.
  - split; simpl; [exact Ht1|by destruct Hc1 as [->|[? ->]]|by destruct Hc1 as [->|[? ->]]|lia|].
    intros _. lia.
  - right. eexists. split; [done|]. simpl. lia.
Qed.

Lemma closed_run_inv active heads es : Forall2 healthy heads es -> forall c w, loop_inv c w ->
  let '(jobs, c', w') := closed_run active c w es in
  w <= w' /\ (forall b, b <= w -> scans b jobs = 0%nat) /\
  (forall b, w < b <= w' -> (1 <= scans b jobs)%nat) /\
  (forall b, active b = true -> w < b -> scans b jobs = if b <=? w' then 1%nat else 0%nat) /\
  (forall head, Forall (fun h => h <= head) heads -> w <= head ->
     w' <= head /\ Forall (fun j => fj_EndBlock j <= head) jobs) /\
  (forall head, Forall (fun h => head <= h) heads -> head - w <= Z.of_nat (length es) -> head <= w').
Proof.
  induction 1 as [|head e heads es Hh Hall IH]; intros c w Hi; simpl.
  { split_and!; auto; [lia|intros; lia| |intros; lia]. intros b _ Hb. destruct (Z.leb_spec b w); [lia|done]. }
  destruct (closed_tick active c w head e Hi Hh) as (s & c1 & -> & Hi1 & Hcase).
  specialize (IH c1 _ Hi1). destruct (closed_run active c1 (ingested active w (st_jobs s)) es) as [[jobs c'] w'].
  destruct IH as (IH1 & IH2 & IH3 & IH4 & IH5 & IH6).
  destruct Hcase as [[Hle Hj]|(j & Hj & Hst & Hen)]; rewrite Hj in *; unfold ingested in *; cbn [foldl app length] in *.
  - split_and!; auto; [intros h [_ Hhs]%Forall_cons; auto|]. intros h [Hhh Hhs]%Forall_cons Hlen.
    destruct (Z.le_gt_cases h w); [lia|]. lia.
  - destruct (job_cursor_spec active j ltac:(lia)) as [Hcur Hidle]. rewrite Z.max_r in * by lia.
    set (w1 := job_cursor active j) in *. split_and!; [lia| | | | |].
    + intros b Hb. rewrite scans_cons, IH2 by lia. by rewrite decide_False by lia.
    + intros b Hb. rewrite scans_cons. destruct (Z.le_gt_cases b w1); [rewrite decide_True by lia; lia|].
      specialize (IH3 b ltac:(lia)). lia.
    + intros b Ha Hb. rewrite scans_cons. destruct (Z.le_gt_cases b w1) as [Hin|Hout].
      * rewrite decide_True, IH2 by lia. by destruct (Z.leb_spec b w'); [|lia].
      * rewrite IH4 by done. rewrite decide_False; [done|]. intros Hr. by rewrite (Hidle b) in Ha by lia.
    + intros h [Hhh Hhs]%Forall_cons Hw. destruct (IH5 h Hhs ltac:(lia)) as [? ?]. split; [done|].
      constructor; [lia|done].
    + intros h [Hhh Hhs]%Forall_cons Hlen. apply IH6; [done|lia].
Qed.

(** C36: every block is scanned, and a block with signatures once.  In the loop of
    coordinator, fetcher and ingester, each job ingested before the next tick, with the
    configured batch size or any reachable auto-tune controller and whatever the head does:
    no job scans a block at or below the first watermark; every block above it up to the
    last watermark is scanned; a block with signatures above the first watermark is scanned
    by exactly one job when the last watermark has reached it and by none otherwise, so what
    is scanned again are blocks without signatures; neither a job nor the watermark passes
    the highest head; and if the head stays at or above a block for as many ticks as the
    watermark lies below it, the watermark reaches that block. *)
Theorem coordinator_covers active c w (heads : list Z) (es : list tick_env) :
  loop_inv c w -> Forall2 healthy heads es ->
  let '(jobs, _, w') := closed_run active c w es in
  (forall b, b <= w -> scans b jobs = 0%nat) /\
  (forall b, w < b <= w' -> (1 <= scans b jobs)%nat) /\
  (forall b, active b = true -> w < b -> scans b jobs = if b <=? w' then 1%nat else 0%nat) /\
  (forall head, Forall (fun h => h <= head) heads -> w <= head ->
     w' <= head /\ Forall (fun j => fj_EndBlock j <= head) jobs) /\
  (forall head, Forall (fun h => head <= h) heads -> head - w <= Z.of_nat (length es) -> head <= w').
Proof.
  intros Hi Hall. pose proof (closed_run_inv active heads es Hall c w Hi) as H.
  destruct (closed_run active c w es) as [[jobs c'] w']. by destruct H as (_ & ?).
Qed.

(** ** A sample loop *)

Definition sample_coordinator : Coordinator :=
  {| c_chain := "base"; c_network := "mainnet"; c_batchSize := 40; c_intervalNs := 1;
     c_hasHead := true; c_hasWatermark := true; c_hasBackfill := false; c_maxInitialLookbackBlocks := 100;
     c_autoTune := Some sample_controller; c_hasEnqueued := false; c_lastEnqueuedStart := 0;
     c_lastEnqueuedEnd := 0 |}.

Definition sample_address : WatchedAddress :=
  {| wa_Chain := "base"; wa_Network := "mainnet"; wa_Address := "0xa"; wa_WalletID := None;
     wa_OrganizationID := None; wa_Label := None; wa_IsActive := true; wa_Source := "api";
     wa_BackfillFromBlock := None |}.

Definition sample_env (head : Z) : tick_env :=
  {| te_active := Ok [sample_address]; te_head := Ok head; te_watermark := Ok None; te_queueDepth := 0;
     te_queueCapacity := 10; te_send := Ok tt; te_pending := Ok []; te_backfillRoom := true |}.

Lemma sample_healthy head : 0 < head < max_int64 -> healthy head (sample_env head).
Proof. intros. by split; [exists sample_address, []|..]. Qed.

(** Blocks 905 and 950 have signatures: the first job, 901 to 940, leaves the watermark at
    905, and the blocks after it are scanned again. *)
Definition sample_active (b : Z) : bool := (b =? 905) || (b =? 950).

Lemma coordinator_covers_witness :
  let es := [sample_env 1000; sample_env 1000; sample_env 1001] in
  (let '(jobs, _, w') := closed_run sample_active sample_coordinator 900 es in
   (forall b, b <= 900 -> scans b jobs = 0%nat) /\
   (forall b, 900 < b <= w' -> (1 <= scans b jobs)%nat) /\
   (forall b, sample_active b = true -> 900 < b -> scans b jobs = if b <=? w' then 1%nat else 0%nat) /\
   (forall head, Forall (fun h => h <= head) [1000; 1000; 1001] -> 900 <= head ->
      w' <= head /\ Forall (fun j => fj_EndBlock j <= head) jobs) /\
   (forall head, Forall (fun h => head <= h) [1000; 1000; 1001] -> head - 900 <= 3 -> head <= w')) /\
  (let '(jobs, _, w') := closed_run sample_active sample_coordinator 900 es in
   ((fun j => (fj_StartBlock j, fj_EndBlock j)) <$> jobs, scans 905 jobs, scans 920 jobs, w')) =
    ([(901, 940); (906, 965); (951, 1001)], 1%nat, 2%nat, 1001).
Proof.
  intros es. split; [|vm_compute; reflexivity].
  apply (coordinator_covers sample_active sample_coordinator 900 [1000; 1000; 1001] es).
  - split; [split; [reflexivity|eapply reach_new; exact sample_controller_new]|reflexivity..| |].
    + vm_compute. done.
    + discriminate.
  - repeat (constructor; [apply sample_healthy; vm_compute; done|]). constructor.
Defined.

(** Also: a rolled-back range can be lost.  When the last job was cut by the batch size and a
    rollback rewinds the watermark to just below that job, the range is taken for one
    already in flight at every later tick, whatever the head: nothing is ever fetched again. *)
Theorem rollback_of_last_range_stalls active c s e (heads : list Z) (es : list tick_env) :
  c_hasHead c = true -> c_hasWatermark c = true -> c_autoTune c = None -> c_hasEnqueued c = true ->
  c_lastEnqueuedStart c = s -> c_lastEnqueuedEnd c = e -> c_batchSize c = e - s + 1 -> 1 < s <= e ->
  Forall2 healthy heads es -> Forall (fun h => e <= h) heads ->
  closed_run active c (s - 1) es = ([], c, s - 1).
Proof.
  intros Hh Hw Ha He Hs Hen Hb Hse Hall. induction Hall as [|head env heads es Hhy Hall IH]; intros Hge; [done|].
  apply Forall_cons in Hge as [Hge Hrest]. simpl. unfold tickBlockScan, tick_head, start_block, watermark_start. simpl.
  destruct Hhy as [(a & l & ->) -> Hrg _]. rewrite Hh, Hw, nonneg_id by lia.
  destruct (Z.ltb_spec 0 (s - 1)); [|lia]. simpl. unfold max_int64 in *.
  rewrite (wrap64_id (s - 1 + 1)) by (unfold in_int64, min_int64, max_int64; lia).
  replace (s - 1 + 1) with s by lia.
  destruct (Z.ltb_spec 0 head); [|lia]. simpl. destruct (Z.ltb_spec head s); [lia|].
  unfold tick_batch. rewrite Ha. simpl.
  assert (end_block head s (c_batchSize c) = e) as Hend.
  { unfold end_block. rewrite Hb.
    rewrite (wrap64_id (head - s)) by (unfold in_int64, min_int64, max_int64; lia).
    rewrite (wrap64_id (head - s + 1)) by (unfold in_int64, min_int64, max_int64; lia).
    destruct (Z.ltb_spec 0 head); [|lia]. simpl. destruct (Z.ltb_spec (e - s + 1) (head - s + 1)); [|lia].
    rewrite (wrap64_id (s + (e - s + 1))) by (unfold in_int64, min_int64, max_int64; lia).
    rewrite wrap64_id by (unfold in_int64, min_int64, max_int64; lia). lia. }
  unfold already_enqueued. rewrite Hend, Hw, He, Hs, Hen, !Z.eqb_refl. simpl. by rewrite (IH Hrest).
Qed.

(** Blocks 101 to 110 were fetched and rolled back; the head moves to 200. *)
Lemma rollback_of_last_range_stalls_witness :
  let c := {| c_chain := "base"; c_network := "mainnet"; c_batchSize := 10; c_intervalNs := 1;
              c_hasHead := true; c_hasWatermark := true; c_hasBackfill := false; c_maxInitialLookbackBlocks := 0;
              c_autoTune := None; c_hasEnqueued := true; c_lastEnqueuedStart := 101; c_lastEnqueuedEnd := 110 |} in
  closed_run (fun _ => true) c 100 [sample_env 111; sample_env 150; sample_env 200] = ([], c, 100).
Proof.
  intros c. apply (rollback_of_last_range_stalls (fun _ => true) c 101 110 [111; 150; 200]); try reflexivity; try lia.
  - repeat (constructor; [apply sample_healthy; vm_compute; done|]). constructor.
  - repeat (constructor; [lia|]). constructor.
Defined.

(** Also: an unreadable watermark skips blocks.  With the watermark [w] more than the lookback
    below the head, a tick that reads it starts right above it; a tick whose read fails
    starts near the head instead and reports no error, so the blocks between are skipped. *)
Theorem watermark_error_skips c w head err e :
  healthy head e -> c_hasHead c = true -> c_hasWatermark c = true -> tuned c -> c_hasEnqueued c = false ->
  0 < c_maxInitialLookbackBlocks c -> 0 < w -> w < head - c_maxInitialLookbackBlocks c ->
  te_watermark e = Err err ->
  (exists s c', tickBlockScan c (read_watermark w e) = (Ok s, c') /\ fj_StartBlock <$> st_jobs s = [w + 1]) /\
  (exists s c', tickBlockScan c e = (Ok s, c') /\
    fj_StartBlock <$> st_jobs s = [head - c_maxInitialLookbackBlocks c + 1]).
Proof.
  intros Hhy Hh Hw Ht He Hl Hwp Hlt Hwm. pose proof (hy_range _ _ Hhy) as Hr. split.
  - destruct (closed_tick (fun _ => true) c w head e) as (s & c' & Htick & _ & Hcase); [|done|].
    { split; try done; [lia|by rewrite He]. }
    exists s, c'. split; [done|]. destruct Hcase as [[? _]|(j & -> & Hst & _)]; [lia|]. simpl. by rewrite Hst.
  - unfold tickBlockScan, tick_head, start_block, watermark_start. destruct Hhy as [(a & l & ->) -> _ Hs].
    rewrite Hh, Hw, Hwm, nonneg_id by lia. simpl. unfold max_int64 in *.
    destruct (Z.ltb_spec 0 head); [|lia]. destruct (Z.ltb_spec 0 (c_maxInitialLookbackBlocks c)); [|lia]. simpl.
    rewrite (wrap64_id (head - c_maxInitialLookbackBlocks c)) by (unfold in_int64, min_int64, max_int64; lia).
    rewrite (wrap64_id (head - _ + 1)) by (unfold in_int64, min_int64, max_int64; lia).
    rewrite (nonneg_id (head - _ + 1)) by lia.
    set (start := head - c_maxInitialLookbackBlocks c + 1). destruct (Z.ltb_spec 0 start); [|lia].
    destruct (Z.ltb_spec head start); [lia|].
    pose proof (tick_batch_pos c e head start Ht) as Hb. destruct (tick_batch c e head start) as [batch c1].
    destruct Hb as (_ & _ & Hc1).
    assert (already_enqueued c1 start (end_block head start batch) = false) as ->.
    { assert (c_hasEnqueued c1 = false) as E by (destruct Hc1 as [->|[? ->]]; done).
      unfold already_enqueued. by rewrite E, andb_false_r. }
    rewrite Hs. eexists _, _. split; [done|]. done.
Qed.

Lemma watermark_error_skips_witness :
  let e := {| te_active := Ok [sample_address]; te_head := Ok 1000; te_watermark := Err (EMsg "timeout");
              te_queueDepth := 0; te_queueCapacity := 10; te_send := Ok tt; te_pending := Ok [];
              te_backfillRoom := true |} in
  (exists s c', tickBlockScan sample_coordinator (read_watermark 500 e) = (Ok s, c') /\
    fj_StartBlock <$> st_jobs s = [501]) /\
  (exists s c', tickBlockScan sample_coordinator e = (Ok s, c') /\ fj_StartBlock <$> st_jobs s = [901]).
Proof.
  intros e. apply (watermark_error_skips sample_coordinator 500 1000 (EMsg "timeout") e); try reflexivity; try (simpl; lia).
  - split; [by exists sample_address, []|reflexivity|vm_compute; done|reflexivity].
  - split; [reflexivity|eapply reach_new; exact sample_controller_new].
Defined.

(** ** Restarts *)

Lemma normal_nonempty v : normalizePolicyVersion v = v -> str_empty (trim_space v) = false.
Proof.
  unfold normalizePolicyVersion. destruct (str_empty (trim_space (to_lower v))) eqn:E; intros <-; [done|].
  by rewrite trim_space_idem.
Qed.

Lemma start_batch_seed s base seed : settings_wf s -> s_operatorOverrideBatch s <= 0 ->
  s_minBatchSize s <= seed <= s_maxBatchSize s -> start_batch s base (Some seed) false = seed.
Proof.
  intros [] Ho Hs. unfold start_batch. destruct (Z.ltb_spec 0 seed); [|lia].
  rewrite !(clampInt_id seed) by lia. destruct (Z.leb_spec seed 0); [lia|].
  by destruct (Z.ltb_spec 0 (s_operatorOverrideBatch s)); [lia|].
Qed.

Lemma maxInt_0 n : 0 <= n -> maxInt n 0 = n.
Proof. unfold maxInt. destruct (Z.ltb_spec 0 n); lia. Qed.

Lemma reconciled_batch b o p : s_operatorOverrideBatch (a_settings b) <= 0 ->
  a_currentBatch (reconcilePolicyTransition (reconcileOverrideTransition b o) p) = a_currentBatch b.
Proof.
  intros Ho. destruct (reconcilePolicy_only (reconcileOverrideTransition b o) p) as [q Hq].
  assert (a_currentBatch (reconcilePolicyTransition (reconcileOverrideTransition b o) p) =
          a_currentBatch (reconcileOverrideTransition b o)) as -> by (destruct Hq as [-> | ->]; done).
  destruct (reconcileOverride_control b o) as [_ [H|H]]; rewrite (control_batch _ _ H); [done|].
  by destruct (Z.ltb_spec 0 (s_operatorOverrideBatch (a_settings b))); [lia|].
Qed.

Lemma override_policy b o : a_policy (reconcileOverrideTransition b o) = a_policy b /\
  a_settings (reconcileOverrideTransition b o) = a_settings b.
Proof. unfold reconcileOverrideTransition. repeat case_match; done. Qed.

(** The policy a warm checkpoint of the same policy leaves. *)
Lemma same_policy_pinned b t : pt_HasState t = true ->
  s_policyVersion (a_settings b) = normalizePolicyVersion (pt_Version t) ->
  normalizePolicyManifestDigest (po_manifestDigest (a_policy b)) = normalizePolicyManifestDigest (pt_ManifestDigest t) ->
  nonneg (po_epoch (a_policy b)) <> nonneg (pt_Epoch t) ⊕ 1 ->
  let p := a_policy (reconcilePolicyTransition b t) in
  po_manifestDigest p = normalizePolicyManifestDigest (pt_ManifestDigest t) /\ po_epoch p = nonneg (pt_Epoch t).
Proof.
  intros Hs Hv Hd He. unfold reconcilePolicyTransition. rewrite Hs, Hv, Hd, !String.eqb_refl. simpl.
  apply Z.eqb_neq in He. rewrite He.
  match goal with |- context [raise_hold ?a ?h] => destruct (raise_hold_policy a h) as [? ->] end. done.
Qed.

(** Also: restarts resume.  A coordinator of the same chain and configuration that is
    warm-started with the exported state of a running one resumes with its batch size, and
    with its policy digest and epoch unless the configuration brings the next epoch.  The
    bounded warm start is never taken: an exported state always carries a policy version. *)
Theorem warm_restart_resumes c c0 cfg a w :
  c_autoTune c = Some a -> reachable a -> ExportAutoTuneRestartState c = Some w ->
  c_chain c0 = c_chain c -> c_network c0 = c_network c -> cfg_Enabled cfg = true ->
  a_settings a = normalized_settings (c_batchSize c0) cfg -> cfg_OperatorOverrideBatchSize cfg <= 0 ->
  let '(_, warm, o, p) := warm_seed c0 (Some w) in
  warm = true /\ use_bounded_warm_start warm o p = false /\
  exists b, c_autoTune (WithAutoTuneWarmStart cfg (Some w) c0) = Some b /\
    a_currentBatch b = a_currentBatch a /\
    (normalizePolicyManifestDigest (cfg_PolicyManifestDigest cfg) = po_manifestDigest (a_policy a) ->
     nonneg (cfg_PolicyManifestRefreshEpoch cfg) <> po_epoch (a_policy a) ⊕ 1 ->
     po_manifestDigest (a_policy b) = po_manifestDigest (a_policy a) /\
     po_epoch (a_policy b) = po_epoch (a_policy a)).
Proof.
  intros Ha Hr Hw Hc Hn Hen Hset Hov. unfold ExportAutoTuneRestartState in Hw. rewrite Ha in Hw.
  injection Hw as <-. apply reachable_policy_wf in Hr as Hpw. apply reachable_wf in Hr.
  destruct Hr as [Hs Hcw _]. pose proof (cw_batch _ _ Hcw) as Hb. simpl in Hb. pose proof (sw_min _ Hs).
  unfold WithAutoTuneWarmStart, withAutoTune, warm_seed. simpl.
  rewrite Hc, Hn, !String.eqb_refl. simpl. destruct (Z.leb_spec (a_currentBatch a) 0); [lia|].
  unfold has_policy_state. simpl. rewrite (normal_nonempty _ (pw_version _ Hpw)). simpl.
  unfold use_bounded_warm_start at 1 2. simpl. rewrite !andb_false_r. split_and!; [done..|].
  unfold newAutoTuneControllerWithSeed, newAutoTuneControllerWithSeedMode. rewrite Hen. simpl.
  eexists. split; [done|]. split.
  - rewrite reconciled_batch; simpl; [|destruct (Z.ltb_spec 0 (cfg_OperatorOverrideBatchSize cfg)); simpl; lia].
    rewrite <- Hset. apply start_batch_seed; [done| |lia]. rewrite Hset. simpl.
    destruct (Z.ltb_spec 0 (cfg_OperatorOverrideBatchSize cfg)); lia.
  - intros Hd He. destruct Hpw as [Wv Wd We _ _].
    match goal with |- context [reconcilePolicyTransition (reconcileOverrideTransition ?b ?o) ?t] =>
      destruct (override_policy b o) as [Hp Hse];
      destruct (same_policy_pinned (reconcileOverrideTransition b o) t) as [-> ->];
      rewrite ?Hp, ?Hse; simpl; try done end.
    + rewrite Hset in Wv. simpl in Wv. rewrite Hset. simpl. by rewrite Wv.
    + by rewrite normalizeDigest_idem, Hd, Wd.
    + by rewrite !(nonneg_id (nonneg _)) by apply nonneg_nonneg; rewrite (nonneg_id (po_epoch _)) by done.
    + rewrite Wd. by rewrite !nonneg_id by (rewrite ?nonneg_id; done).
Qed.

(** Stopped after the batch went up to 60. *)
Lemma warm_restart_resumes_witness :
  let a := resolved (resolved sample_controller lagging) lagging in
  let c := set_autoTune (Some a) sample_coordinator in
  let w := default {| rs_Chain := ""; rs_Network := ""; rs_BatchSize := 0; rs_OverrideManualActive := false;
                      rs_OverrideReleaseRemaining := 0; rs_PolicyVersion := ""; rs_PolicyManifestDigest := "";
                      rs_PolicyEpoch := 0; rs_PolicyActivationRemaining := 0 |} (ExportAutoTuneRestartState c) in
  let '(_, warm, o, p) := warm_seed sample_coordinator (Some w) in
  warm = true /\ use_bounded_warm_start warm o p = false /\
  exists b, c_autoTune (WithAutoTuneWarmStart sample_config (Some w) sample_coordinator) = Some b /\
    a_currentBatch b = a_currentBatch a /\
    (normalizePolicyManifestDigest (cfg_PolicyManifestDigest sample_config) = po_manifestDigest (a_policy a) ->
     nonneg (cfg_PolicyManifestRefreshEpoch sample_config) <> po_epoch (a_policy a) ⊕ 1 ->
     po_manifestDigest (a_policy b) = po_manifestDigest (a_policy a) /\
     po_epoch (a_policy b) = po_epoch (a_policy a)).
Proof.
  intros a c w. apply (warm_restart_resumes c sample_coordinator sample_config a w); try reflexivity.
  - apply (reach_act (resolved sample_controller lagging) (ActResolve lagging)).
    apply (reach_act sample_controller (ActResolve lagging)). eapply reach_new. exact sample_controller_new.
Defined.
