(* ===== verification/ReorgDetector.v ===== *)
(** * Reorg detector and finalizer: [pipeline/reorgdetector/detector.go],
    [pipeline/finalizer/finalizer.go]

    The periodic check of the indexed hashes against the chain, with its cache of
    verified blocks, and the promotion of newly finalized blocks.  The chain adapter is
    an argument: its answer for every block number. *)

From Stdlib Require Import ZArith String Lia.
From stdpp Require Import base option list strings gmap sorting.
From S2P Require Import Prelude Retry Domain Store Effects.

Open Scope Z_scope.
Open Scope go_scope.

(** ** The detector *)

Definition defaultMaxCheckDepth : nat := 256.
Definition rpcErrorAlertThreshold : Z := 5.

Record Detector := {
  d_chain : Chain; d_network : Network; d_maxCheckDepth : nat; d_hasAlerter : bool;
  d_consecutiveRPCErrs : Z; d_lastVerified : gmap Z string
}.

Definition New (chain : Chain) (network : Network) : Detector :=
  {| d_chain := chain; d_network := network; d_maxCheckDepth := defaultMaxCheckDepth; d_hasAlerter := false;
     d_consecutiveRPCErrs := 0; d_lastVerified := ∅ |}.

Definition WithMaxCheckDepth (depth : Z) (d : Detector) : Detector :=
  {| d_chain := d_chain d; d_network := d_network d;
     d_maxCheckDepth := if 0 <? depth then Z.to_nat depth else d_maxCheckDepth d;
     d_hasAlerter := d_hasAlerter d; d_consecutiveRPCErrs := d_consecutiveRPCErrs d;
     d_lastVerified := d_lastVerified d |}.

Definition WithAlerter (d : Detector) : Detector :=
  {| d_chain := d_chain d; d_network := d_network d; d_maxCheckDepth := d_maxCheckDepth d;
     d_hasAlerter := true; d_consecutiveRPCErrs := d_consecutiveRPCErrs d; d_lastVerified := d_lastVerified d |}.

Definition set_verified (m : gmap Z string) (d : Detector) : Detector :=
  {| d_chain := d_chain d; d_network := d_network d; d_maxCheckDepth := d_maxCheckDepth d;
     d_hasAlerter := d_hasAlerter d; d_consecutiveRPCErrs := d_consecutiveRPCErrs d; d_lastVerified := m |}.

Definition set_rpc_errs (n : Z) (d : Detector) : Detector :=
  {| d_chain := d_chain d; d_network := d_network d; d_maxCheckDepth := d_maxCheckDepth d;
     d_hasAlerter := d_hasAlerter d; d_consecutiveRPCErrs := n; d_lastVerified := d_lastVerified d |}.

(** [GetBlockHash]: the hash and the parent hash of a block number, or an error. *)
Definition adapter : Type := Z -> result go_error (string * string).

(** The indexed block and the answer for it agree. *)
Definition agrees (block : IndexedBlock) (onchainHash onchainParentHash : string) : bool :=
  String.eqb onchainHash (ib_BlockHash block) &&
  negb (negb (str_empty (ib_ParentHash block)) && negb (str_empty onchainParentHash) &&
        negb (String.eqb (ib_ParentHash block) onchainParentHash)).

(** The result, whether an alert is sent, and the detector. *)
Definition verifyBlock (A : adapter) (block : IndexedBlock) (d : Detector)
    : result go_error (bool * string) * bool * Detector :=
  match A (ib_BlockNumber block) with
  | Err err =>
      let n := d_consecutiveRPCErrs d ⊕ 1 in
      (Err err, (rpcErrorAlertThreshold <=? n) && d_hasAlerter d, set_rpc_errs n d)
  | Ok (onchainHash, onchainParentHash) =>
      (Ok (agrees block onchainHash onchainParentHash, onchainHash), false, set_rpc_errs 0 d)
  end.

(** The last entry of a number wins, as in the Go map. *)
Definition hashByNumber (blocks : list IndexedBlock) : gmap Z string :=
  foldl (fun m b => <[ib_BlockNumber b := ib_BlockHash b]> m) ∅ blocks.

Definition breaks_chain (m : gmap Z string) (block : IndexedBlock) : bool :=
  if str_empty (ib_ParentHash block) then false
  else match m !! (ib_BlockNumber block ⊖ 1) with
       | None => false
       | Some parentBlockHash => negb (String.eqb (ib_ParentHash block) parentBlockHash)
       end.

Definition verifyParentHashChain (blocks : list IndexedBlock) : option IndexedBlock :=
  if (length blocks <? 2)%nat then None
  else List.find (breaks_chain (hashByNumber blocks)) blocks.

(** The loop over the blocks after the first: a mismatch, or the blocks verified. *)
Fixpoint scan (A : adapter) (blocks : list IndexedBlock) (newVerified : gmap Z string) (d : Detector)
    : option (IndexedBlock * string) * gmap Z string * Detector :=
  match blocks with
  | [] => (None, newVerified, d)
  | block :: blocks' =>
      let n := ib_BlockNumber block in
      if bool_decide (d_lastVerified d !! n = Some (ib_BlockHash block))
      then scan A blocks' (<[n := ib_BlockHash block]> newVerified) d
      else
        let '(r, _, d) := verifyBlock A block d in
        match r with
        | Err _ => scan A blocks' newVerified d
        | Ok (false, onchainHash) => (Some (block, onchainHash), newVerified, d)
        | Ok (true, onchainHash) => scan A blocks' (<[n := onchainHash]> newVerified) d
        end
  end.

Definition number_ge (a b : IndexedBlock) : Prop := ib_BlockNumber b <= ib_BlockNumber a.
#[export] Instance number_ge_dec a b : Decision (number_ge a b) := Z_le_dec _ _.

(** The blocks of a check: all, or the most recent ones, newest first. *)
Definition limit_depth (depth : nat) (blocks : list IndexedBlock) : list IndexedBlock :=
  if (depth <? length blocks)%nat then take depth (merge_sort number_ge blocks) else blocks.

(** [send] is what the send on the reorg channel does. *)
Definition emitReorg (d : Detector) (block : IndexedBlock) (actualHash : string) (send : result go_error unit)
    : result go_error (list ReorgEvent) :=
  match send with
  | Err err => Err err
  | Ok _ => Ok [{| re_Chain := d_chain d; re_Network := d_network d; re_ForkBlockNumber := ib_BlockNumber block;
                   re_ExpectedHash := ib_BlockHash block; re_ActualHash := actualHash |}]
  end.

(** The events sent. *)
Definition check (A : adapter) (unfinalized : result go_error (list IndexedBlock)) (send : result go_error unit)
    (d : Detector) : result go_error (list ReorgEvent) * Detector :=
  match unfinalized with
  | Err err => (Err (EWrap "get unfinalized blocks" err), d)
  | Ok [] => (Ok [], set_verified ∅ d)
  | Ok unfinalizedBlocks =>
      let unfinalizedBlocks := limit_depth (d_maxCheckDepth d) unfinalizedBlocks in
      match verifyParentHashChain unfinalizedBlocks with
      | Some block => (emitReorg d block (ib_BlockHash block) send, set_verified ∅ d)
      | None =>
          match unfinalizedBlocks with
          | [] => (Ok [], d) (* not reached: the depth is positive *)
          | tipBlock :: rest =>
              let '(tip, _, d) := verifyBlock A tipBlock d in
              match tip with
              | Ok (false, tipHash) => (emitReorg d tipBlock tipHash send, set_verified ∅ d)
              | _ =>
                  let newVerified :=
                    match tip with
                    | Ok (_, tipHash) => <[ib_BlockNumber tipBlock := tipHash]> (∅ : gmap Z string)
                    | Err _ => ∅
                    end in
                  match scan A rest newVerified d with
                  | (Some (block, onchainHash), _, d) =>
                      (emitReorg d block onchainHash send, set_verified ∅ d)
                  | (None, newVerified, d) => (Ok [], set_verified newVerified d)
                  end
              end
          end
      end
  end.

(** ** The finalizer *)

Record Finalizer := {
  f_chain : Chain; f_network : Network; f_retentionBlocks : Z; f_lastFinalized : Z
}.

(** [finalizer.New] with the options given. *)
Definition NewFinalizer (chain : Chain) (network : Network) (opts : list (Finalizer -> Finalizer)) : Finalizer :=
  foldl (fun f o => o f) {| f_chain := chain; f_network := network; f_retentionBlocks := 0; f_lastFinalized := 0 |} opts.

Definition WithRetentionBlocks (n : Z) (f : Finalizer) : Finalizer :=
  {| f_chain := f_chain f; f_network := f_network f; f_retentionBlocks := n;
     f_lastFinalized := f_lastFinalized f |}.

Definition set_lastFinalized (n : Z) (f : Finalizer) : Finalizer :=
  {| f_chain := f_chain f; f_network := f_network f; f_retentionBlocks := f_retentionBlocks f;
     f_lastFinalized := n |}.

(** [GetFinalizedBlockNumber], the send of the promotion, the error of the pruning. *)
Record finalizer_env := {
  fe_finalized : result go_error Z; fe_send : result go_error unit; fe_prune : option go_error
}.

Definition prune (f : Finalizer) (currentFinalized : Z) (err : option go_error) (t : db) : db :=
  if 0 <? f_retentionBlocks f then
    let cutoff := currentFinalized ⊖ f_retentionBlocks f in
    if 0 <? cutoff then
      match err with
      | Some _ => t
      | None => fst (IndexedBlockRepo.PurgeFinalizedBefore t (f_chain f) (f_network f) cutoff)
      end
    else t
  else t.

Definition finalizer_check (e : finalizer_env) (f : Finalizer) (t : db)
    : result go_error (list FinalityPromotion) * Finalizer * db :=
  match fe_finalized e with
  | Err err => (Err (EWrap "get finalized block number" err), f, t)
  | Ok currentFinalized =>
      if currentFinalized <=? f_lastFinalized f then (Ok [], f, t)
      else match fe_send e with
           | Err err => (Err err, f, t)
           | Ok _ =>
               let f := set_lastFinalized currentFinalized f in
               (Ok [{| fp_Chain := f_chain f; fp_Network := f_network f; fp_NewFinalizedBlock := currentFinalized |}],
                f, prune f currentFinalized (fe_prune e) t)
           end
  end.

(** ** What a check establishes *)

Definition mismatch (A : adapter) (b : IndexedBlock) : Prop :=
  exists h p, A (ib_BlockNumber b) = Ok (h, p) /\ agrees b h p = false.

Definition confirmed (A : adapter) (b : IndexedBlock) : Prop :=
  exists h p, A (ib_BlockNumber b) = Ok (h, p) /\ agrees b h p = true.

Definition unanswered (A : adapter) (b : IndexedBlock) : Prop := exists err, A (ib_BlockNumber b) = Err err.

Definition cached (d : Detector) (b : IndexedBlock) : Prop :=
  d_lastVerified d !! ib_BlockNumber b = Some (ib_BlockHash b).

Definition passed (A : adapter) (d : Detector) (b : IndexedBlock) : Prop :=
  cached d b \/ unanswered A b \/ confirmed A b.

(** The detector but for its counter of errors. *)
Definition same_detector (d d' : Detector) : Prop := exists n, d' = set_rpc_errs n d.

Lemma same_detector_refl d : same_detector d d.
Proof. exists (d_consecutiveRPCErrs d). by destruct d. Qed.

Lemma same_detector_trans d1 d2 d3 : same_detector d1 d2 -> same_detector d2 d3 -> same_detector d1 d3.
Proof. intros [n ->] [m ->]. by exists m. Qed.

Lemma agrees_hash b h p : agrees b h p = true -> h = ib_BlockHash b.
Proof. unfold agrees. rewrite andb_true_iff. by intros [?%String.eqb_eq _]. Qed.

Lemma verifyBlock_spec A b d :
  let '(r, _, d') := verifyBlock A b d in
  same_detector d d' /\
  match r with
  | Err err => A (ib_BlockNumber b) = Err err
  | Ok (m, h) => exists p, A (ib_BlockNumber b) = Ok (h, p) /\ agrees b h p = m
  end.
Proof.
  unfold verifyBlock. destruct (A (ib_BlockNumber b)) as [[h p]|err].
  - split; [by eexists|eauto].
  - split; [by eexists|done].
Qed.

(** Every hash of the new map is one of the old map, or an answer, or was verified before. *)
Definition backed (A : adapter) (d : Detector) (m0 m : gmap Z string) : Prop :=
  forall n h, m !! n = Some h -> m0 !! n = Some h \/ d_lastVerified d !! n = Some h \/ exists p, A n = Ok (h, p).

Lemma backed_insert A d m0 m n h : backed A d m0 (<[n:=h]> m0) -> backed A d (<[n:=h]> m0) m -> backed A d m0 m.
Proof. intros H1 H2 k x Hk. destruct (H2 k x Hk) as [Hi|?]; [by apply H1|auto]. Qed.

Lemma scan_spec A blocks : forall m d,
  let '(r, m', d') := scan A blocks m d in
  same_detector d d' /\
  match r with
  | Some (b, h) => exists pre post p, blocks = pre ++ b :: post /\ Forall (passed A d) pre /\
      A (ib_BlockNumber b) = Ok (h, p) /\ agrees b h p = false
  | None => Forall (passed A d) blocks /\ backed A d m m'
  end.
Proof.
  induction blocks as [|b blocks IH]; intros m d; simpl.
  { split; [apply same_detector_refl|]. split; [done|intros n h; auto]. }
  destruct (bool_decide_reflect (d_lastVerified d !! ib_BlockNumber b = Some (ib_BlockHash b))) as [Hc|Hc].
  - specialize (IH (<[ib_BlockNumber b:=ib_BlockHash b]> m) d). destruct (scan _ _ _ _) as [[r m'] d'].
    destruct IH as [Hd Hr]. split; [done|]. destruct r as [[b' h]|].
    + destruct Hr as (pre & post & p & -> & Hp & Ha). exists (b :: pre), post, p.
      split; [done|]. split; [constructor; [by left|done]|done].
    + destruct Hr as [Hp Hb]. split; [constructor; [by left|done]|]. eapply backed_insert; [|exact Hb].
      intros k x Hk. destruct (decide (k = ib_BlockNumber b)) as [->|]; [rewrite lookup_insert_eq in Hk; simplify_eq; auto|].
      rewrite lookup_insert_ne in Hk by congruence. auto.
  - pose proof (verifyBlock_spec A b d) as Hv. destruct (verifyBlock A b d) as [[r al] d1].
    destruct Hv as [Hd1 Hr]. pose proof Hd1 as [n ->]. destruct r as [[[] h]|err].
    + destruct Hr as (p & HA & Hag). specialize (IH (<[ib_BlockNumber b:=h]> m) (set_rpc_errs n d)).
      destruct (scan _ _ _ _) as [[r m'] d']. destruct IH as [Hd Hr]. split; [by eapply same_detector_trans|].
      destruct r as [[b' h']|].
      * destruct Hr as (pre & post & p' & -> & Hp & Ha). exists (b :: pre), post, p'.
        split; [done|]. split; [constructor; [by do 2 right; exists h, p|done]|done].
      * destruct Hr as [Hp Hb]. split; [constructor; [by do 2 right; exists h, p|done]|]. eapply backed_insert; [|exact Hb].
        intros k x Hk. destruct (decide (k = ib_BlockNumber b)) as [->|]; [rewrite lookup_insert_eq in Hk; simplify_eq; eauto|].
        rewrite lookup_insert_ne in Hk by congruence. auto.
    + destruct Hr as (p & HA & Hag). split; [done|]. exists [], blocks, p. auto.
    + specialize (IH m (set_rpc_errs n d)). destruct (scan _ _ _ _) as [[r m'] d']. destruct IH as [Hd Hs].
      split; [by eapply same_detector_trans|]. destruct r as [[b' h']|].
      * destruct Hs as (pre & post & p' & -> & Hp & Ha). exists (b :: pre), post, p'.
        split; [done|]. split; [constructor; [by right; left; eexists|done]|done].
      * destruct Hs as [Hp Hb]. split; [constructor; [by right; left; eexists|done]|done].
Qed.

Lemma limit_depth_elem depth blocks b : b ∈ limit_depth depth blocks -> b ∈ blocks.
Proof.
  unfold limit_depth. destruct (depth <? length blocks)%nat; [|done].
  intros Hb%elem_of_take. destruct Hb as (i & Hi & _).
  apply list_elem_of_lookup_2 in Hi. by rewrite merge_sort_Permutation in Hi.
Qed.

Lemma hashByNumber_lookup blocks n h : hashByNumber blocks !! n = Some h ->
  exists p, p ∈ blocks /\ ib_BlockNumber p = n /\ ib_BlockHash p = h.
Proof.
  unfold hashByNumber. induction blocks as [|b blocks IH] using rev_ind; [done|]. rewrite foldl_app. simpl.
  destruct (decide (ib_BlockNumber b = n)) as [<-|Hn].
  - rewrite lookup_insert_eq. intros [= <-]. exists b. split; [set_solver|done].
  - rewrite lookup_insert_ne by done. intros Hl. destruct (IH Hl) as (p & ? & ?). exists p. split; [set_solver|done].
Qed.

(** The indexed parent of [b] is another block than the one [b] names. *)
Definition parent_break (blocks : list IndexedBlock) (b : IndexedBlock) : Prop :=
  exists p, p ∈ blocks /\ ib_BlockNumber p = ib_BlockNumber b ⊖ 1 /\
    ib_ParentHash b <> EmptyString /\ ib_ParentHash b <> ib_BlockHash p.

Lemma find_some {A} (f : A -> bool) l x : List.find f l = Some x -> x ∈ l /\ f x = true.
Proof. intros H. apply List.find_some in H as [Hin Hf]. split; [by apply list_elem_of_In|done]. Qed.

Lemma verifyParentHashChain_break blocks b :
  verifyParentHashChain blocks = Some b -> b ∈ blocks /\ parent_break blocks b.
Proof.
  unfold verifyParentHashChain. destruct (length blocks <? 2)%nat; [done|].
  intros Hf%find_some. destruct Hf as [Hin Hb]. split; [done|]. unfold breaks_chain, str_empty in Hb.
  destruct (String.eqb_spec (ib_ParentHash b) EmptyString) as [|Hne]; [done|].
  destruct (hashByNumber blocks !! (ib_BlockNumber b ⊖ 1)) as [h|] eqn:E; [|done].
  apply hashByNumber_lookup in E as (p & Hp & Hn & <-).
  destruct (String.eqb_spec (ib_ParentHash b) (ib_BlockHash p)); [done|]. by exists p.
Qed.

(** The outcome of a check that got its blocks and could send. *)
Inductive outcome (A : adapter) (d : Detector) (blocks : list IndexedBlock) : list ReorgEvent -> Detector -> Prop :=
  | out_empty d' : blocks = [] -> d_lastVerified d' = ∅ -> outcome A d blocks [] d'
  | out_break b d' : b ∈ limit_depth (d_maxCheckDepth d) blocks ->
      parent_break (limit_depth (d_maxCheckDepth d) blocks) b ->
      verifyParentHashChain (limit_depth (d_maxCheckDepth d) blocks) = Some b -> d_lastVerified d' = ∅ ->
      outcome A d blocks [{| re_Chain := d_chain d; re_Network := d_network d;
        re_ForkBlockNumber := ib_BlockNumber b; re_ExpectedHash := ib_BlockHash b;
        re_ActualHash := ib_BlockHash b |}] d'
  | out_mismatch pre b post h p d' :
      verifyParentHashChain (limit_depth (d_maxCheckDepth d) blocks) = None ->
      limit_depth (d_maxCheckDepth d) blocks = pre ++ b :: post -> Forall (passed A d) pre ->
      A (ib_BlockNumber b) = Ok (h, p) -> agrees b h p = false -> d_lastVerified d' = ∅ ->
      outcome A d blocks [{| re_Chain := d_chain d; re_Network := d_network d;
        re_ForkBlockNumber := ib_BlockNumber b; re_ExpectedHash := ib_BlockHash b; re_ActualHash := h |}] d'
  | out_clean d' :
      verifyParentHashChain (limit_depth (d_maxCheckDepth d) blocks) = None ->
      Forall (passed A d) (limit_depth (d_maxCheckDepth d) blocks) ->
      (forall b, head (limit_depth (d_maxCheckDepth d) blocks) = Some b -> unanswered A b \/ confirmed A b) ->
      backed A d ∅ (d_lastVerified d') ->
      outcome A d blocks [] d'.

Lemma check_outcome A blocks d : (0 < d_maxCheckDepth d)%nat ->
  let '(r, d') := check A (Ok blocks) (Ok tt) d in
  exists evs, r = Ok evs /\ outcome A d blocks evs d' /\
    d_chain d' = d_chain d /\ d_network d' = d_network d /\ d_maxCheckDepth d' = d_maxCheckDepth d.
Proof.
  intros Hdep. unfold check. destruct blocks as [|b0 bs0]; [eexists; split_and!; [done|by constructor|done..]|].
  set (blocks := b0 :: bs0). destruct (verifyParentHashChain (limit_depth (d_maxCheckDepth d) blocks)) as [b|] eqn:Ev.
  { pose proof (verifyParentHashChain_break _ _ Ev) as [? ?]. eexists. split_and!; [done|by apply out_break|done..]. }
  destruct (limit_depth (d_maxCheckDepth d) blocks) as [|tip rest] eqn:El.
  { exfalso. unfold limit_depth in El. destruct (Nat.ltb_spec (d_maxCheckDepth d) (length blocks)); [|done].
    apply (f_equal length) in El. rewrite length_take, (Permutation_length (merge_sort_Permutation _ _)) in El.
    simpl in El. lia. }
  pose proof (verifyBlock_spec A tip d) as Hv. destruct (verifyBlock A tip d) as [[r al] d1].
  destruct Hv as [[n ->] Hr]. destruct r as [[[] h]|err].
  - destruct Hr as (p & HA & Hag). pose proof (scan_spec A rest {[ib_BlockNumber tip := h]} (set_rpc_errs n d)) as Hs.
    change (<[ib_BlockNumber tip:=h]> ∅) with ({[ib_BlockNumber tip := h]} : gmap Z string).
    destruct (scan _ _ _ _) as [[r m'] d']. destruct Hs as [[n' ->] Hs]. destruct r as [[b h']|].
    + destruct Hs as (pre & post & p' & -> & Hp & HA' & Hag'). eexists. split_and!; [done| |done..].
      apply (out_mismatch A d blocks (tip :: pre) b post h' p'); [by rewrite El|by rewrite El| |done..].
      constructor; [do 2 right; by exists h, p|done].
    + destruct Hs as [Hp Hb]. eexists. split_and!; [done| |done..]. apply out_clean; rewrite ?El; [done|..].
      * constructor; [do 2 right; by exists h, p|done].
      * intros b [= <-]. right. by exists h, p.
      * intros k x Hk. destruct (Hb k x Hk) as [Hs|?]; [|auto]. apply lookup_singleton_Some in Hs as [<- <-]. eauto.
  - destruct Hr as (p & HA & Hag). eexists. split_and!; [done| |done..].
    apply (out_mismatch A d blocks [] tip rest h p); [by rewrite El|by rewrite El|done..].
  - pose proof (scan_spec A rest ∅ (set_rpc_errs n d)) as Hs.
    destruct (scan _ _ _ _) as [[r m'] d']. destruct Hs as [[n' ->] Hs]. destruct r as [[b h']|].
    + destruct Hs as (pre & post & p' & -> & Hp & HA' & Hag'). eexists. split_and!; [done| |done..].
      apply (out_mismatch A d blocks (tip :: pre) b post h' p'); [by rewrite El|by rewrite El| |done..].
      constructor; [right; left; by exists err|done].
    + destruct Hs as [Hp Hb]. eexists. split_and!; [done| |done..]. apply out_clean; rewrite ?El; [done|..].
      * constructor; [right; left; by exists err|done].
      * intros b [= <-]. left. by exists err.
      * exact Hb.
Qed.

(** ** What the detector promises *)

(** Also: events are justified.  A reorg event names a block of the list, with its indexed
    hash, whose hash or parent hash the chain contradicts, or whose indexed parent is
    another block than the one it names. *)
Theorem reorg_event_sound A blocks d evs d' ev :
  (0 < d_maxCheckDepth d)%nat -> check A (Ok blocks) (Ok tt) d = (Ok evs, d') -> ev ∈ evs ->
  exists b, b ∈ blocks /\ re_ForkBlockNumber ev = ib_BlockNumber b /\ re_ExpectedHash ev = ib_BlockHash b /\
    (mismatch A b \/ parent_break blocks b).
Proof.
  intros Hdep Hc Hin. pose proof (check_outcome A blocks d Hdep) as Ho. rewrite Hc in Ho.
  destruct Ho as (evs' & [= <-] & Ho & _). destruct Ho as [|b d' Hb Hp _|pre b post h p d' _ Hl _ HA Hag _|];
    [set_solver| | |set_solver]; apply list_elem_of_singleton in Hin as ->; exists b; simpl.
  - split_and!; [by eapply limit_depth_elem|done..|]. right. destruct Hp as (q & Hq & ?). exists q.
    split; [by eapply limit_depth_elem|done].
  - assert (b ∈ limit_depth (d_maxCheckDepth d) blocks) as Hb by (rewrite Hl; set_solver).
    split_and!; [by eapply limit_depth_elem|done..|]. left. by exists h, p.
Qed.

#[local] Instance block_le_total : Total IndexedBlockRepo.block_le.
Proof. intros x y. unfold IndexedBlockRepo.block_le. lia. Qed.
#[local] Instance block_le_trans : Transitive IndexedBlockRepo.block_le.
Proof. intros x y z. unfold IndexedBlockRepo.block_le. lia. Qed.

(** The rows of the query, oldest first. *)
Lemma GetUnfinalized_sorted t chain network :
  StronglySorted IndexedBlockRepo.block_le (IndexedBlockRepo.GetUnfinalized t chain network).
Proof.
  unfold IndexedBlockRepo.GetUnfinalized. generalize (length (merge_sort IndexedBlockRepo.block_le
    (filter (fun b => IndexedBlockRepo.of_chain chain network b && negb (String.eqb (ib_FinalityState b) "finalized") = true)
       (map snd (map_to_list (db_blocks t))))) - 1000)%nat as n.
  assert (forall (l : list IndexedBlock) n, StronglySorted IndexedBlockRepo.block_le l ->
    StronglySorted IndexedBlockRepo.block_le (drop n l)) as Hdrop.
  { induction l as [|b l IH]; intros [|n] Hs; try done. apply IH. by inversion Hs. }
  intros n. apply Hdrop. apply (StronglySorted_merge_sort _).
Qed.

Lemma sorted_before (pre post : list IndexedBlock) b b' :
  StronglySorted IndexedBlockRepo.block_le (pre ++ b :: post) -> b' ∈ pre ++ b :: post ->
  ib_BlockNumber b' < ib_BlockNumber b -> b' ∈ pre.
Proof.
  induction pre as [|x pre IH]; simpl; intros Hs Hin Hlt.
  - inversion Hs as [|? ? _ Hall]; subst. apply elem_of_cons in Hin as [->|Hin]; [lia|].
    rewrite Forall_forall in Hall. specialize (Hall _ Hin). unfold IndexedBlockRepo.block_le in Hall. lia.
  - inversion Hs; subst. apply elem_of_cons in Hin as [->|Hin]; [set_solver|]. apply elem_of_cons. auto.
Qed.

(** Also: the fork is found.  A detector without verified blocks, over the unfinalized rows
    of the database, a consistent parent chain and answers for all of them: no event is
    sent only if the chain confirms every row, and the fork of an event is a row the chain
    contradicts with every row below it confirmed. *)
Theorem reorg_fork_lowest A t d :
  let blocks := IndexedBlockRepo.GetUnfinalized t (d_chain d) (d_network d) in
  d_lastVerified d = ∅ -> (0 < d_maxCheckDepth d)%nat -> (length blocks <= d_maxCheckDepth d)%nat ->
  verifyParentHashChain blocks = None -> (forall b, b ∈ blocks -> ~ unanswered A b) ->
  match (check A (Ok blocks) (Ok tt) d).1 with
  | Ok [] => forall b, b ∈ blocks -> confirmed A b
  | Ok [ev] => exists b, b ∈ blocks /\ mismatch A b /\ re_ForkBlockNumber ev = ib_BlockNumber b /\
      forall b', b' ∈ blocks -> ib_BlockNumber b' < ib_BlockNumber b -> confirmed A b'
  | _ => False
  end.
Proof.
  intros blocks Hv Hdep Hlen Hch Hans. pose proof (check_outcome A blocks d Hdep) as Ho.
  destruct (check A (Ok blocks) (Ok tt) d) as [r d']. destruct Ho as (evs & -> & Ho & _). simpl.
  assert (limit_depth (d_maxCheckDepth d) blocks = blocks) as Hl
    by (unfold limit_depth; by destruct (Nat.ltb_spec (d_maxCheckDepth d) (length blocks)); [lia|]).
  assert (forall b, b ∈ blocks -> passed A d b -> confirmed A b) as Hpass.
  { intros b Hb [Hc|[Hu|Hc]]; [|by destruct (Hans b Hb)|done]. unfold cached in Hc. by rewrite Hv, lookup_empty in Hc. }
  destruct Ho as [d' Hb _|b d' _ _ Hb _|pre b post h p d' _ Hb Hpre HA Hag _|d' _ Hp _ _]; rewrite ?Hl in *.
  - rewrite Hb. set_solver.
  - congruence.
  - exists b. split_and!; [rewrite Hb; set_solver|by exists h, p|done|]. intros b' Hin Hlt. apply Hpass; [done|].
    rewrite Forall_forall in Hpre. apply Hpre. eapply sorted_before; [|by rewrite <- Hb|done].
    rewrite <- Hb. apply GetUnfinalized_sorted.
  - rewrite Forall_forall in Hp. auto.
Qed.

(** ** Runs *)

(** A detector after checks that could send: the chain and the rows each of them saw. *)
Definition after_checks (d : Detector) (history : list (adapter * list IndexedBlock)) : Detector :=
  foldl (fun d x => (check x.1 (Ok x.2) (Ok tt) d).2) d history.

Lemma after_checks_inv chain network history :
  let d := after_checks (New chain network) history in
  d_maxCheckDepth d = defaultMaxCheckDepth /\
  forall n h, d_lastVerified d !! n = Some h -> exists x p, x ∈ history /\ x.1 n = Ok (h, p).
Proof.
  induction history as [|[A blocks] history [IHd IHv]] using rev_ind; [split; [done|by intros n h]|].
  unfold after_checks in *. rewrite foldl_app. cbv zeta in *. cbn [foldl fst snd] in *. set (d := foldl _ _ _) in *.
  assert (0 < d_maxCheckDepth d)%nat as Hdep by (rewrite IHd; unfold defaultMaxCheckDepth; lia).
  pose proof (check_outcome A blocks d Hdep) as Ho. destruct (check A (Ok blocks) (Ok tt) d) as [r d'].
  destruct Ho as (evs & _ & Ho & _ & _ & Hdd). simpl. split; [congruence|]. intros n h Hn.
  destruct Ho as [d' _ He|b d' _ _ _ He|pre b post h' p d' _ _ _ _ _ He|d' _ _ _ Hb];
    [rewrite He, lookup_empty in Hn; done..|].
  destruct (Hb n h Hn) as [He|[He|[p Hp]]]; [by rewrite lookup_empty in He| |].
  - destruct (IHv n h He) as (x & p & Hx & Hxp). exists x, p. split; [set_solver|done].
  - exists (A, blocks), p. split; [set_solver|done].
Qed.

(** Also: silence is explained.  If a check of a detector that ran any checks before sends
    nothing, then for every row it looked at the chain failed to answer, confirms it now,
    or gave its hash at one of the earlier checks. *)
Theorem silent_check_verified chain network history A blocks b :
  let d := after_checks (New chain network) history in
  (check A (Ok blocks) (Ok tt) d).1 = Ok [] -> b ∈ limit_depth defaultMaxCheckDepth blocks ->
  unanswered A b \/ confirmed A b \/
  exists x p, x ∈ history /\ x.1 (ib_BlockNumber b) = Ok (ib_BlockHash b, p).
Proof.
  intros d Hc Hin. destruct (after_checks_inv chain network history) as [Hdep Hv]. fold d in Hdep, Hv.
  assert (0 < d_maxCheckDepth d)%nat as Hpos by (rewrite Hdep; unfold defaultMaxCheckDepth; lia).
  pose proof (check_outcome A blocks d Hpos) as Ho. destruct (check A (Ok blocks) (Ok tt) d) as [r d'].
  destruct Ho as (evs & Hr & Ho & _). simpl in Hc. assert (evs = []) as -> by congruence.
  rewrite <- Hdep in Hin. inversion Ho as [? Hb| | |? _ Hp _ _]; subst; [set_solver|].
  rewrite Forall_forall in Hp. destruct (Hp b Hin) as [Hca|[?|?]]; auto.
Qed.

(** ** Samples *)

Definition sample_block (n : Z) (hash parent : string) : IndexedBlock :=
  {| ib_Chain := "base"; ib_Network := "mainnet"; ib_BlockNumber := n; ib_BlockHash := hash; ib_ParentHash := parent;
     ib_FinalityState := ""; ib_BlockTime := None |}.

Definition indexed_rows : list IndexedBlock :=
  [sample_block 100 "a100" "a99"; sample_block 101 "a101" "a100"; sample_block 102 "a102" "a101"].

(** The chain the rows came from, and one that forked off after block 100. *)
Definition old_chain : adapter := fun n =>
  if n =? 100 then Ok ("a100", "a99") else if n =? 101 then Ok ("a101", "a100") else Ok ("a102", "a101").
Definition forked_chain : adapter := fun n =>
  if n =? 100 then Ok ("a100", "a99") else if n =? 101 then Ok ("b101", "a100") else Ok ("b102", "b101").

Definition new_detector : Detector := New "base" "mainnet".

Definition rows_db (rows : list IndexedBlock) : db := set_blocks (list_to_map ((fun b => (IndexedBlockRepo.block_pk b, b)) <$> rows)) empty_db.

Lemma reorg_event_sound_witness :
  exists b, b ∈ indexed_rows /\ 101 = ib_BlockNumber b /\ "a101"%string = ib_BlockHash b /\
    (mismatch forked_chain b \/ parent_break indexed_rows b).
Proof.
  apply (reorg_event_sound forked_chain indexed_rows new_detector
    [{| re_Chain := "base"; re_Network := "mainnet"; re_ForkBlockNumber := 101; re_ExpectedHash := "a101";
        re_ActualHash := "b101" |}] new_detector
    {| re_Chain := "base"; re_Network := "mainnet"; re_ForkBlockNumber := 101; re_ExpectedHash := "a101";
       re_ActualHash := "b101" |}).
  - unfold new_detector, New, defaultMaxCheckDepth. simpl. lia.
  - vm_compute. reflexivity.
  - by apply list_elem_of_singleton.
Defined.

Lemma reorg_fork_lowest_witness :
  let t := rows_db indexed_rows in
  let blocks := IndexedBlockRepo.GetUnfinalized t "base" "mainnet" in
  match (check forked_chain (Ok blocks) (Ok tt) new_detector).1 with
  | Ok [] => forall b, b ∈ blocks -> confirmed forked_chain b
  | Ok [ev] => exists b, b ∈ blocks /\ mismatch forked_chain b /\ re_ForkBlockNumber ev = ib_BlockNumber b /\
      forall b', b' ∈ blocks -> ib_BlockNumber b' < ib_BlockNumber b -> confirmed forked_chain b'
  | _ => False
  end.
Proof.
  intros t blocks. apply (reorg_fork_lowest forked_chain t new_detector).
  - reflexivity.
  - unfold new_detector, New, defaultMaxCheckDepth. simpl. lia.
  - vm_compute. lia.
  - vm_compute. reflexivity.
  - intros b _ [err Herr]. unfold forked_chain in Herr. destruct (ib_BlockNumber b =? 100); [done|].
    by destruct (ib_BlockNumber b =? 101).
Defined.

Lemma silent_check_verified_witness :
  let b := sample_block 101 "a101" "a100" in
  unanswered forked_chain b \/ confirmed forked_chain b \/
  exists x p, x ∈ [(old_chain, indexed_rows)] /\ x.1 (ib_BlockNumber b) = Ok (ib_BlockHash b, p).
Proof.
  intros b. apply (silent_check_verified "base" "mainnet" [(old_chain, indexed_rows)] forked_chain indexed_rows b).
  - vm_compute. reflexivity.
  - apply list_elem_of_lookup. exists 1%nat. reflexivity.
Defined.

(** Also: reorganised verified blocks are missed.  The rows come oldest first, so the block
    that is checked every time is the oldest, not the tip: when it is confirmed and the
    other rows were verified before, no event is sent whatever the chain now says of them. *)
Theorem verified_reorg_missed A d oldest rest send :
  (length rest < d_maxCheckDepth d)%nat -> verifyParentHashChain (oldest :: rest) = None ->
  confirmed A oldest -> Forall (cached d) rest ->
  (check A (Ok (oldest :: rest)) send d).1 = Ok [].
Proof.
  intros Hlen Hch (h & p & HA & Hag) Hc. unfold check, limit_depth.
  destruct (Nat.ltb_spec (d_maxCheckDepth d) (length (oldest :: rest))); [simpl in *; lia|].
  rewrite Hch. unfold verifyBlock. rewrite HA, Hag.
  generalize (<[ib_BlockNumber oldest:=h]> (∅ : gmap Z string)). intros m.
  assert (forall m, (scan A rest m (set_rpc_errs 0 d)).1.1 = None) as Hs.
  { clear -Hc. induction rest as [|b rest IH]; intros m; simpl; [done|]. apply Forall_cons in Hc as [Hb Hc].
    unfold cached in Hb. rewrite bool_decide_true by done. by apply IH. }
  specialize (Hs m). by destruct (scan A rest m (set_rpc_errs 0 d)) as [[[]] ?].
Qed.

(** The fork after block 100 is seen by a new detector and missed by one that ran before. *)
Lemma verified_reorg_missed_witness :
  let d := after_checks new_detector [(old_chain, indexed_rows)] in
  (check forked_chain (Ok indexed_rows) (Ok tt) d).1 = Ok [] /\
  (check forked_chain (Ok indexed_rows) (Ok tt) new_detector).1 =
    Ok [{| re_Chain := "base"; re_Network := "mainnet"; re_ForkBlockNumber := 101; re_ExpectedHash := "a101";
           re_ActualHash := "b101" |}].
Proof.
  intros d. split; [|vm_compute; reflexivity].
  apply (verified_reorg_missed forked_chain d (sample_block 100 "a100" "a99")
    [sample_block 101 "a101" "a100"; sample_block 102 "a102" "a101"] (Ok tt)).
  - vm_compute. lia.
  - reflexivity.
  - exists "a100"%string, "a99"%string. split; reflexivity.
  - repeat constructor.
Defined.

(** One round of the pipeline: the check, the rollback from the fork, and the block the
    chain has at that height indexed again. *)
Definition reorg_round (A : adapter) (refetched : IndexedBlock) (t : db) : list Z * db :=
  let blocks := IndexedBlockRepo.GetUnfinalized t "base" "mainnet" in
  match (check A (Ok blocks) (Ok tt) new_detector).1 with
  | Ok evs =>
      (re_ForkBlockNumber <$> evs,
       foldl (fun t ev => IndexedBlockRepo.UpsertTx
                (IndexedBlockRepo.DeleteFromBlockTx t "base" "mainnet" (re_ForkBlockNumber ev)).1 refetched) t evs)
  | Err _ => ([], t)
  end.

(** Also: a stale parent is never rolled back.  With block 101 stale and block 102 of the new
    branch indexed, the break of the parent chain is blamed on block 102, which the chain
    confirms; rolled back and indexed again, the database is the same and every further
    round does the same, while block 101, which the chain contradicts, stays. *)
Theorem stale_parent_blames_child (n : nat) :
  let child := sample_block 102 "b102" "b101" in
  let t := rows_db [sample_block 100 "a100" "a99"; sample_block 101 "a101" "a100"; child] in
  confirmed forked_chain child /\ mismatch forked_chain (sample_block 101 "a101" "a100") /\
  Nat.iter n (fun s => reorg_round forked_chain child s.2) ([], t) =
    (match n with O => [] | _ => [102] end, t).
Proof.
  intros child t. split; [by exists "b102"%string, "b101"%string|]. split; [by exists "b101"%string, "a100"%string|].
  induction n as [|n IH]; [done|]. rewrite Nat.iter_succ, IH. cbn [snd]. vm_compute. reflexivity.
Qed.

(** ** Finality *)

(** The promotions of a run of checks, the finalizer and the database. *)
Fixpoint finalizer_run (f : Finalizer) (t : db) (es : list finalizer_env) : list Z * Finalizer * db :=
  match es with
  | [] => ([], f, t)
  | e :: es' =>
      let '(r, f', t') := finalizer_check e f t in
      let '(ps, f'', t'') := finalizer_run f' t' es' in
      (match r with Ok evs => fp_NewFinalizedBlock <$> evs | Err _ => [] end ++ ps, f'', t'')
  end.

(** A row the pruning may take: finalized, of this chain, and [retention] below the last promotion. *)
Definition prunable (f : Finalizer) (last : Z) (b : IndexedBlock) : Prop :=
  ib_FinalityState b = "finalized" /\ ib_BlockNumber b < last - f_retentionBlocks f.

(** [t'] is [t] without some of the rows [P]; nothing else changes. *)
Definition pruned_to (P : IndexedBlock -> Prop) (t t' : db) : Prop :=
  t' = set_blocks (db_blocks t') t /\ db_blocks t' ⊆ db_blocks t /\
  forall k b, db_blocks t !! k = Some b -> db_blocks t' !! k = None -> P b.

Lemma pruned_refl P t : pruned_to P t t.
Proof. split_and!; [by destruct t|done|congruence]. Qed.

Lemma pruned_trans P t1 t2 t3 : pruned_to P t1 t2 -> pruned_to P t2 t3 -> pruned_to P t1 t3.
Proof.
  intros (E1 & S1 & P1) (E2 & S2 & P2). split_and!.
  - etransitivity; [exact E2|]. by rewrite E1.
  - by etransitivity.
  - intros k b H1 H3. destruct (db_blocks t2 !! k) as [b'|] eqn:H2; [|eauto].
    assert (db_blocks t1 !! k = Some b') by (by eapply lookup_weaken). simplify_eq. eauto.
Qed.

Lemma pruned_impl (P Q : IndexedBlock -> Prop) t t' : (forall b, P b -> Q b) -> pruned_to P t t' -> pruned_to Q t t'.
Proof. intros H (? & ? & ?). split_and!; eauto. Qed.

(** Rows are stored under their own number. *)
Definition keyed (t : db) : Prop := forall k b, db_blocks t !! k = Some b -> IndexedBlockRepo.block_pk b = k.

Lemma keyed_pruned P t t' : pruned_to P t t' -> keyed t -> keyed t'.
Proof. intros (_ & Hs & _) Hk k b Hb. apply Hk. by eapply lookup_weaken. Qed.

Lemma prune_spec f n err t : keyed t -> in_int64 n -> in_int64 (n - f_retentionBlocks f) ->
  pruned_to (prunable f n) t (prune f n err t).
Proof.
  intros Hk Hn Hr. unfold prune. destruct (0 <? f_retentionBlocks f); [|apply pruned_refl].
  rewrite wrap64_id by done. destruct (0 <? n - f_retentionBlocks f); [|apply pruned_refl].
  destruct err; [apply pruned_refl|]. split_and!; [by destruct t|apply map_filter_subseteq|].
  intros k b Hb Hnone. simpl in Hnone. rewrite map_lookup_filter_None in Hnone.
  destruct Hnone as [Hnone|Hnone]; [congruence|]. specialize (Hnone b Hb).
  destruct k as [[c nw] bn]. pose proof (Hk _ _ Hb) as Hpk. unfold IndexedBlockRepo.block_pk in Hpk. simplify_eq.
  apply not_false_iff_true in Hnone. unfold IndexedBlockRepo.purgeable in Hnone. simpl in Hnone.
  rewrite !andb_true_iff, !String.eqb_eq, Z.ltb_lt in Hnone. unfold prunable. tauto.
Qed.

(** The answers of the chain fit, retention included. *)
Definition finalized_fit (f : Finalizer) (e : finalizer_env) : Prop :=
  forall n, fe_finalized e = Ok n -> in_int64 n /\ in_int64 (n - f_retentionBlocks f).

Lemma finalizer_step f t e : keyed t -> finalized_fit f e ->
  let '(r, f', t') := finalizer_check e f t in
  f_retentionBlocks f' = f_retentionBlocks f /\ f_lastFinalized f <= f_lastFinalized f' /\
  pruned_to (prunable f (f_lastFinalized f')) t t' /\
  match r with
  | Ok [] | Err _ => f' = f
  | Ok [p] => f_lastFinalized f < fp_NewFinalizedBlock p /\ f_lastFinalized f' = fp_NewFinalizedBlock p
  | _ => False
  end.
Proof.
  intros Hk Hf. unfold finalizer_check. pose proof (pruned_refl (prunable f (f_lastFinalized f)) t) as Hrefl.
  destruct (fe_finalized e) as [n|] eqn:En; [|by split_and!].
  destruct (Z.leb_spec n (f_lastFinalized f)); [by split_and!|].
  destruct (fe_send e); [|by split_and!]. destruct (Hf n En) as [H1 H2]. split_and!; simpl; [done|lia| |lia|done].
  by apply (prune_spec (set_lastFinalized n f)).
Qed.

(** Also: finality only advances.  In any run of checks the promotions sent grow strictly from
    the last one, and the database loses nothing but finalized blocks more than the
    retention below the last promotion; errors of the chain or of the pruning change
    neither. *)
Theorem finality_promotions_increase f t es :
  keyed t -> Forall (finalized_fit f) es ->
  let '(ps, f', t') := finalizer_run f t es in
  StronglySorted Z.lt (f_lastFinalized f :: ps) /\
  f_lastFinalized f' = default (f_lastFinalized f) (last ps) /\
  pruned_to (prunable f (f_lastFinalized f')) t t'.
Proof.
  intros Hk Hall. revert f t Hk Hall. induction es as [|e es IH]; intros f t Hk Hall; simpl.
  { split_and!; [repeat constructor|done|apply pruned_refl]. }
  apply Forall_cons in Hall as [He Hes]. pose proof (finalizer_step f t e Hk He) as Hs.
  destruct (finalizer_check e f t) as [[r f1] t1]. destruct Hs as (Hret & Hle & Hpr & Hr).
  assert (keyed t1) as Hk1 by (by eapply keyed_pruned).
  assert (Forall (finalized_fit f1) es) as Hes1
    by (eapply Forall_impl; [exact Hes|]; unfold finalized_fit; by rewrite Hret).
  specialize (IH f1 t1 Hk1 Hes1). destruct (finalizer_run f1 t1 es) as [[ps f'] t'].
  destruct IH as (IHs & IHl & IHp).
  assert (f_lastFinalized f1 <= f_lastFinalized f') as Hle'.
  { rewrite IHl. destruct (last ps) as [x|] eqn:El; simpl; [|lia]. inversion IHs as [|? ? _ Hall]; subst.
    rewrite Forall_forall in Hall. apply last_Some_elem_of in El. specialize (Hall _ El). lia. }
  assert (pruned_to (prunable f (f_lastFinalized f')) t t') as Hfin.
  { apply (pruned_trans _ _ t1); [eapply pruned_impl; [|exact Hpr]|eapply pruned_impl; [|exact IHp]];
      intros b [? ?]; split; try done; rewrite ?Hret in *; lia. }
  destruct r as [[|p [|]]|]; try done; simpl in *.
  - subst f1. by split_and!.
  - destruct Hr as [Hlt Heq]. split_and!; [|rewrite IHl, Heq, last_cons; by destruct (last ps)|done].
    rewrite <- Heq. constructor; [done|]. constructor; [lia|]. inversion IHs as [|? ? _ Hall]; subst.
    eapply Forall_impl; [exact Hall|]. simpl. lia.
  - subst f1. by split_and!.
Qed.

Lemma finality_promotions_increase_witness :
  let f := {| f_chain := "base"; f_network := "mainnet"; f_retentionBlocks := 50; f_lastFinalized := 100 |} in
  let env n := {| fe_finalized := Ok n; fe_send := Ok tt; fe_prune := None |} in
  let es := [env 120; env 90; {| fe_finalized := Err (EMsg "rpc"); fe_send := Ok tt; fe_prune := None |}; env 155] in
  (let '(ps, f', t') := finalizer_run f (rows_db indexed_rows) es in
   StronglySorted Z.lt (100 :: ps) /\ f_lastFinalized f' = default 100 (last ps) /\
   pruned_to (prunable f (f_lastFinalized f')) (rows_db indexed_rows) t') /\
  (finalizer_run f (rows_db indexed_rows) es).1.1 = [120; 155].
Proof.
  intros f env es. split; [|vm_compute; reflexivity].
  apply (finality_promotions_increase f (rows_db indexed_rows) es).
  - intros k b Hb. unfold rows_db, indexed_rows in Hb. cbn [db_blocks set_blocks] in Hb.
    apply elem_of_list_to_map_2 in Hb. set_solver.
  - apply Forall_forall. intros e He n Hn. unfold es, env in He. set_unfold.
    destruct He as [->|[->|[->|[->|[]]]]]; simpl in Hn; simplify_eq; split; unfold in_int64, min_int64, max_int64;
      simpl; lia.
Defined.
