(* ===== verification/FetcherRules.v ===== *)
(** * Fetcher, rules: the pure functions of [pipeline/fetcher/fetcher.go]

    Batch sizes and retry delays, and what the fetcher makes of the signatures an adapter
    returns: one spelling per transaction, nothing past the cutoff, not the cursor again,
    and what is left of the sequences up to the cursor. *)

From Stdlib Require Import ZArith String Lia.
From stdpp Require Import base option list strings gmap sorting.
From S2P Require Import Prelude Ordering Domain Identity Cache NormalizerDecode.

Open Scope Z_scope.
Open Scope go_scope.

(** ** Configuration *)

Definition defaultRetryMaxAttempts : Z := 4.
Definition defaultBackoffInitial : Z := 200 * 10 ^ 6.
Definition defaultBackoffMax : Z := 3 * 10 ^ 9.
Definition defaultAdaptiveMinBatch : Z := 1.
Definition boundaryOverlapLookahead : Z := 1.
Definition defaultBlockScanMaxBatchTxs : Z := 500.

(** The fields of [Fetcher] that the options set; durations are nanoseconds. *)
Record fetch_config := {
  f_workerCount : Z;
  f_retryMaxAttempts : Z; f_backoffInitial : Z; f_backoffMax : Z;
  f_adaptiveMinBatch : Z; f_boundaryOverlapLookahead : Z; f_blockScanMaxBatchTxs : Z;
  f_cbFailureThreshold : Z; f_cbSuccessThreshold : Z; f_cbOpenTimeout : Z
}.

Definition or_default (value default : Z) : Z := if value <=? 0 then default else value.

Definition effectiveRetryMaxAttempts (f : fetch_config) : Z :=
  or_default (f_retryMaxAttempts f) defaultRetryMaxAttempts.
Definition effectiveBackoffInitial (f : fetch_config) : Z :=
  or_default (f_backoffInitial f) defaultBackoffInitial.
Definition effectiveBackoffMax (f : fetch_config) : Z :=
  or_default (f_backoffMax f) defaultBackoffMax.
Definition effectiveAdaptiveMinBatch (f : fetch_config) : Z :=
  or_default (f_adaptiveMinBatch f) defaultAdaptiveMinBatch.
Definition effectiveBoundaryOverlapLookahead (f : fetch_config) : Z :=
  or_default (f_boundaryOverlapLookahead f) boundaryOverlapLookahead.
Definition effectiveBlockScanMaxBatchTxs (f : fetch_config) : Z :=
  or_default (f_blockScanMaxBatchTxs f) defaultBlockScanMaxBatchTxs.

(** Half the batch, down to the minimum. *)
Definition reduceBatchSize (f : fetch_config) (current : Z) : Z :=
  let minBatch := effectiveAdaptiveMinBatch f in
  if current <=? minBatch then current
  else Z.max (Z.quot current 2) minBatch.

(** The loop [for i := 1; i < attempt; i++]. *)
Fixpoint backoff (n : nat) (delay max : Z) : Z :=
  match n with
  | O => delay
  | S n' => if Z.quot max 2 <=? delay then max else backoff n' (delay ⊗ 2) max
  end.

(** [None]: [rand.Int64N] panics when the quarter of the delay is zero. *)
Definition retryDelay (f : fetch_config) (rand : Z -> Z) (attempt : Z) : option Z :=
  let base := or_default (effectiveBackoffInitial f) defaultBackoffInitial in
  let max := effectiveBackoffMax f in
  let max := if (max <=? 0) || (max <? base) then base else max in
  let delay := backoff (Z.to_nat (attempt - 1)) base max in
  let delay := if max <? delay then max else delay in
  if 0 <? delay then
    let n := Z.quot delay 4 in
    if n <=? 0 then None else Some (delay ⊕ rand n)
  else Some delay.

(** ** Addresses *)

Definition canonicalizeWatchedAddressIdentity (chainID : Chain) (address : string) : string :=
  let trimmed := trim_space address in
  if str_empty trimmed then ""
  else if IsEVMChain chainID then
    let withoutPrefix := strip_0x trimmed in
    if str_empty withoutPrefix then ""
    else if IsHexString withoutPrefix then "0x" +:+ to_lower withoutPrefix
    else if has_prefix trimmed "0x" || has_prefix trimmed "0X" then "0x" +:+ to_lower withoutPrefix
    else trimmed
  else trimmed.

Definition batchStateKey (chain : Chain) (network : Network) (address : string) : string :=
  chain +:+ "|" +:+ network +:+ "|" +:+ canonicalizeWatchedAddressIdentity chain address.

(** ** Signatures *)

(** Which of two answers for one transaction is kept: the later block, then the later
    time, then the smaller hash. *)
Definition shouldReplaceCanonicalSignature (existing incoming : SignatureInfo) : bool :=
  if negb (sg_Sequence existing =? sg_Sequence incoming)
  then sg_Sequence existing <? sg_Sequence incoming
  else
    match sg_Time existing, sg_Time incoming with
    | None, Some _ => true
    | Some _, None => false
    | Some t1, Some t2 =>
        if negb (t1 =? t2) then t1 <? t2 else str_ltb (sg_Hash incoming) (sg_Hash existing)
    | None, None => str_ltb (sg_Hash incoming) (sg_Hash existing)
    end.

Definition put_signature (byIdentity : gmap string SignatureInfo) (id : string) (sig : SignatureInfo)
    : gmap string SignatureInfo :=
  let candidate := {| sg_Hash := id; sg_Sequence := sg_Sequence sig; sg_Time := sg_Time sig |} in
  match byIdentity !! id with
  | None => <[id := candidate]> byIdentity
  | Some existing =>
      if shouldReplaceCanonicalSignature existing candidate then <[id := candidate]> byIdentity else byIdentity
  end.

Definition sortSignatureInfosBySequenceThenHash : list SignatureInfo -> list SignatureInfo :=
  stable_sort signature_order.

(** Go visits the map in any order; the sort that follows gives one list, because the
    hashes are distinct. *)
Definition canonicalizeSignatures (chainID : Chain) (sigs : list SignatureInfo) : list SignatureInfo :=
  sortSignatureInfosBySequenceThenHash (sorted_values
    (foldl (fun byIdentity sig =>
       let id := CanonicalSignatureIdentity chainID (sg_Hash sig) in
       if str_empty id then byIdentity else put_signature byIdentity id sig) ∅ sigs)).

Definition filter_signature (chainID : Chain) (cutoffSeq : Z) (cursorIdentity : string)
    (byIdentity : gmap string SignatureInfo) (sig : SignatureInfo) : gmap string SignatureInfo :=
  let id := CanonicalSignatureIdentity chainID (sg_Hash sig) in
  if str_empty id then byIdentity
  else if (0 <? cutoffSeq) && (cutoffSeq <? sg_Sequence sig) then byIdentity
  else if negb (str_empty cursorIdentity) && String.eqb id cursorIdentity then byIdentity
  else put_signature byIdentity id sig.

Definition cursor_identity_of (chainID : Chain) (cursor : option string) : string :=
  match cursor with Some c => CanonicalSignatureIdentity chainID c | None => "" end.

Definition filterAndCanonicalizeSignatures (chainID : Chain) (sigs : list SignatureInfo) (cutoffSeq : Z)
    (cursor : option string) : list SignatureInfo :=
  sortSignatureInfosBySequenceThenHash (sorted_values
    (foldl (filter_signature chainID cutoffSeq (cursor_identity_of chainID cursor)) ∅ sigs)).

Definition suppressBoundaryCursorSignatures (chainID : Chain) (sigs : list SignatureInfo) (cursor : option string)
    : list SignatureInfo :=
  match cursor with
  | None => sigs
  | Some c =>
      let cursorIdentity := CanonicalSignatureIdentity chainID c in
      if str_empty cursorIdentity then sigs
      else filter (fun sig => String.eqb (CanonicalSignatureIdentity chainID (sg_Hash sig)) cursorIdentity = false) sigs
  end.

(** ** What is kept of the sequences up to the cursor *)

(** [sigs[from:to_]] *)
Definition slice {A} (from to_ : Z) (l : list A) : list A :=
  take (Z.to_nat (to_ - from)) (drop (Z.to_nat from) l).

(** The indices of the scan, -1 when unset. *)
Record bounds := { missStart : Z; hitStart : Z; hitEnd : Z }.

Definition scan_step (previousCursorSequence : Z) (b : bounds) (i : Z) (sig : SignatureInfo) : bounds :=
  if sg_Sequence sig <? previousCursorSequence then b
  else if sg_Sequence sig =? previousCursorSequence
  then {| missStart := missStart b; hitStart := if hitStart b =? -1 then i else hitStart b; hitEnd := i + 1 |}
  else if missStart b =? -1
  then {| missStart := i; hitStart := hitStart b;
          hitEnd := if (hitEnd b =? -1) && negb (hitStart b =? -1) then i else hitEnd b |}
  else b.

Fixpoint scan_bounds (previousCursorSequence : Z) (i : Z) (b : bounds) (sigs : list SignatureInfo) : bounds :=
  match sigs with
  | [] => b
  | sig :: sigs' => scan_bounds previousCursorSequence (i + 1) (scan_step previousCursorSequence b i sig) sigs'
  end.

Definition hash_descending : SignatureInfo -> SignatureInfo -> comparison :=
  on sg_Hash (opposite String.compare).

(** [None]: [sigs[missStart:]] panics when nothing lies above the cursor's sequence and
    more signatures than requested lie at it. *)
Definition suppressPreCursorSequenceCarryover (sigs : list SignatureInfo)
    (previousCursorSequence requestedBatch : Z) : option (list SignatureInfo) :=
  if (length sigs =? 0)%nat || (previousCursorSequence <=? 0) then Some sigs
  else
    let sigs := sortSignatureInfosBySequenceThenHash sigs in
    let requestedBatch := if requestedBatch <=? 0 then 1 else requestedBatch in
    let b := scan_bounds previousCursorSequence 0 {| missStart := -1; hitStart := -1; hitEnd := -1 |} sigs in
    let len := Z.of_nat (length sigs) in
    let hitEnd := if (0 <=? hitStart b) && (hitEnd b <? 0) then len else hitEnd b in
    let hits := if 0 <=? hitStart b then hitEnd - hitStart b else 0 in
    let misses := if 0 <=? missStart b then len - missStart b else 0 in
    if (hits =? 0) && (misses =? 0) then Some sigs
    else if requestedBatch <=? misses then Some (slice (missStart b) (missStart b + requestedBatch) sigs)
    else if misses + hits <=? requestedBatch
    then Some ((if 0 <=? hitStart b then slice (hitStart b) hitEnd sigs else []) ++
               (if 0 <=? missStart b then slice (missStart b) len sigs else []))
    else if missStart b <? 0 then None
    else
      let keepAtCursor := requestedBatch - misses in
      let cursorSlice := slice 0 keepAtCursor (stable_sort hash_descending (slice (hitStart b) hitEnd sigs)) in
      Some (sortSignatureInfosBySequenceThenHash (cursorSlice ++ slice (missStart b) len sigs)).
