(* ===== verification/Fetcher.v ===== *)
(** * Fetcher: [pipeline/fetcher/fetcher.go]

    A worker turns fetch jobs into raw batches.  A job of one address asks for the
    signatures after its cursor and for their transactions; a block-scan job scans a range
    and sends it in sub-batches.  Failed calls are repeated with smaller batches.

    The state of a worker is the part it shares with the other workers of the fetcher
    (batch sizes, breaker, signals) and what it has sent.  Every access to the shared part
    and every call to the outside is one tick; [fe_others] is what the other workers do to
    the shared part before it, so a run covers the interleavings. *)

From Stdlib Require Import ZArith String Lia.
From stdpp Require Import base option list strings gmap sorting.
From S2P Require Import Prelude Ordering Retry Domain Identity Cache Breaker NormalizerDecode Normalizer RuntimeSignals Coordinator FetcherRules.

Open Scope Z_scope.
Open Scope go_scope.

(** ** The environment *)

(** The adapter of a chain: its answer to each call, by tick.  Cutoffs and block scans are
    interfaces that an adapter may lack. *)
Record ChainAdapter := {
  ad_FetchNewSignatures : nat -> string -> option string -> Z -> result go_error (list SignatureInfo);
  ad_FetchNewSignaturesWithCutoff :
    option (nat -> string -> option string -> Z -> Z -> result go_error (list SignatureInfo));
  ad_ScanBlocks : option (nat -> Z -> Z -> list string -> result go_error (list SignatureInfo));
  ad_FetchTransactions : nat -> list string -> result go_error (list string)
}.

Record fshared (C : Type) := {
  sh_batchSizeByAddress : C; sh_circuitBreaker : option Breaker; sh_autoTuneSignals : option RuntimeSignalRegistry
}.
Arguments sh_batchSizeByAddress {C} _.
Arguments sh_circuitBreaker {C} _.
Arguments sh_autoTuneSignals {C} _.

Record fetch_env (C : Type) := {
  fe_adapter : ChainAdapter;
  fe_now : nat -> Z; fe_rand : nat -> Z -> Z;
  fe_ctxErr : nat -> option go_error; fe_sleep : nat -> Z -> result go_error unit;
  fe_send : nat -> result go_error unit;
  fe_others : nat -> fshared C -> fshared C
}.
Arguments fe_adapter {C} _.
Arguments fe_now {C} _.
Arguments fe_rand {C} _.
Arguments fe_ctxErr {C} _.
Arguments fe_sleep {C} _.
Arguments fe_send {C} _.
Arguments fe_others {C} _.

Record fworld (C : Type) := { fw_shared : fshared C; fw_sent : list RawBatch; fw_tick : nat }.
Arguments fw_shared {C} _.
Arguments fw_sent {C} _.
Arguments fw_tick {C} _.

(** A call ends with an error or a panic, which the worker recovers from. *)
Inductive failure :=
| Failed (err : go_error)
| Panicked (value : string).

Section Monad.
Context {C : Type}.

Definition FM (A : Type) : Type := fworld C -> result failure A * fworld C.

Definition fret {A} (a : A) : FM A := fun w => (Ok a, w).
Definition fthrow {A} (e : failure) : FM A := fun w => (Err e, w).
Definition fbind {A B} (m : FM A) (k : A -> FM B) : FM B := fun w =>
  match m w with
  | (Ok a, w') => k a w'
  | (Err e, w') => (Err e, w')
  end.
End Monad.
Arguments FM : clear implicits.

Declare Scope fetch_scope.
Delimit Scope fetch_scope with fetch.
Notation "'do!' x <- m ; k" := (fbind m (fun x => k))
  (at level 10, x name, m at level 100, k at level 200) : fetch_scope.
Notation "'do!' ' p <- m ; k" := (fbind m (fun x => match x with p => k end))
  (at level 10, p pattern, m at level 100, k at level 200) : fetch_scope.
Open Scope fetch_scope.

Section Fetcher.
Context {C : Type} `{!Cache C string Z} (E : fetch_env C) (f : fetch_config).

(** ** Primitive steps *)

(** One tick: its number, after the other workers have run. *)
Definition tick : FM C nat := fun w =>
  (Ok (fw_tick w), {| fw_shared := fe_others E (fw_tick w) (fw_shared w); fw_sent := fw_sent w; fw_tick := S (fw_tick w) |}).

Definition get_shared : FM C (fshared C) := fun w => (Ok (fw_shared w), w).
Definition put_shared (s : fshared C) : FM C unit := fun w =>
  (Ok tt, {| fw_shared := s; fw_sent := fw_sent w; fw_tick := fw_tick w |}).

Definition cache_get (key : string) : FM C (option Z) :=
  do! t <- tick;
  do! s <- get_shared;
  let '(v, c) := Get (fe_now E t) (sh_batchSizeByAddress s) key in
  do! _ <- put_shared {| sh_batchSizeByAddress := c; sh_circuitBreaker := sh_circuitBreaker s;
                         sh_autoTuneSignals := sh_autoTuneSignals s |};
  fret v.

Definition cache_put (key : string) (size : Z) : FM C unit :=
  do! t <- tick;
  do! s <- get_shared;
  put_shared {| sh_batchSizeByAddress := Put (fe_now E t) (sh_batchSizeByAddress s) key size;
                sh_circuitBreaker := sh_circuitBreaker s; sh_autoTuneSignals := sh_autoTuneSignals s |}.

(** The breaker, when there is one, after an operation at the time of the tick. *)
Definition on_breaker {A} (absent : A) (op : Z -> Breaker -> A * Breaker) : FM C A :=
  do! t <- tick;
  do! s <- get_shared;
  match sh_circuitBreaker s with
  | None => fret absent
  | Some b =>
      let '(a, b) := op (fe_now E t) b in
      do! _ <- put_shared {| sh_batchSizeByAddress := sh_batchSizeByAddress s; sh_circuitBreaker := Some b;
                             sh_autoTuneSignals := sh_autoTuneSignals s |};
      fret a
  end.

Definition record_signal (chain network : string) (isError : bool) : FM C unit :=
  do! _ <- tick;
  do! s <- get_shared;
  put_shared {| sh_batchSizeByAddress := sh_batchSizeByAddress s; sh_circuitBreaker := sh_circuitBreaker s;
                sh_autoTuneSignals :=
                  (fun r => RecordRPCResult r chain network isError) <$> sh_autoTuneSignals s |}.

Definition recordRPCResult (chain network : string) (isError : bool) : FM C unit :=
  do! _ <- record_signal chain network isError;
  on_breaker tt (fun now b => (tt, if isError then RecordFailure b now else RecordSuccess b)).

(** A call of the adapter and the record of its outcome. *)
Definition rpc {A} (job : FetchJob) (call : nat -> result go_error A) : FM C (result go_error A) :=
  do! t <- tick;
  let r := call t in
  do! _ <- recordRPCResult (fj_Chain job) (fj_Network job) (negb (is_ok r));
  fret r.

Definition ctx_err : FM C (option go_error) := do! t <- tick; fret (fe_ctxErr E t).

Definition retry_delay (attempt : Z) : FM C Z :=
  do! t <- tick;
  match retryDelay f (fe_rand E t) attempt with
  | Some d => fret d
  | None => fthrow (Panicked "invalid argument to Int64N")
  end.

Definition sleep (d : Z) : FM C (result go_error unit) :=
  if d <=? 0 then fret (Ok tt) else do! t <- tick; fret (fe_sleep E t d).

(** [select { case f.rawBatchCh <- batch: case <-ctx.Done(): return ctx.Err() }] *)
Definition send (batch : RawBatch) : FM C unit :=
  do! t <- tick;
  match fe_send E t with
  | Ok _ => fun w => (Ok tt, {| fw_shared := fw_shared w; fw_sent := fw_sent w ++ [batch]; fw_tick := fw_tick w |})
  | Err e => fthrow (Failed e)
  end.

(** ** Adaptive batch sizes *)

Definition resolveBatchSize (chain : Chain) (network : Network) (address : string) (hardCap : Z) : FM C Z :=
  let hardCap := if hardCap <=? 0 then 1 else hardCap in
  let key := batchStateKey chain network address in
  do! found <- cache_get key;
  match found with
  | None => do! _ <- cache_put key hardCap; fret hardCap
  | Some size =>
      if size <=? 0 then do! _ <- cache_put key hardCap; fret hardCap
      else
        do! size <- (if hardCap <? size then do! _ <- cache_put key hardCap; fret hardCap else fret size);
        if size <? effectiveAdaptiveMinBatch f
        then do! _ <- cache_put key (effectiveAdaptiveMinBatch f); fret (effectiveAdaptiveMinBatch f)
        else fret size
  end.

Definition setAdaptiveBatchSize (chain : Chain) (network : Network) (address : string) (size : Z) : FM C unit :=
  if size <=? 0 then fret tt
  else
    let size := if size <? effectiveAdaptiveMinBatch f then effectiveAdaptiveMinBatch f else size in
    cache_put (batchStateKey chain network address) size.

Definition updateAdaptiveBatchSize (chain : Chain) (network : Network) (address : string)
    (hardCap requested usedSigBatch usedTxBatch selectedCount : Z) : FM C unit :=
  let usedBatch := if usedTxBatch <? usedSigBatch then usedTxBatch else usedSigBatch in
  if usedBatch <=? 0 then fret tt
  else if usedBatch <? requested then setAdaptiveBatchSize chain network address usedBatch
  else
    let hardCap := if hardCap <=? 0 then requested else hardCap in
    let hardCap := if hardCap <=? 0 then 1 else hardCap in
    if (selectedCount =? requested) && (requested <? hardCap)
    then
      let next := requested ⊗ 2 in
      setAdaptiveBatchSize chain network address (if hardCap <? next then hardCap else next)
    else fret tt.

(** ** Calls with retry *)

Definition terminal_failure (stage : string) (attempt : Z) (d : RetryDecision) (err : go_error) : go_error :=
  EWrap ("terminal_failure stage=" +:+ stage +:+ " attempt=" +:+ show_Z attempt +:+ " reason=" +:+ d_Reason d) err.

Definition recovery_exhausted (stage : string) (attempts : Z) (d : RetryDecision) (err : go_error) : go_error :=
  EWrap ("transient_recovery_exhausted stage=" +:+ stage +:+ " attempts=" +:+ show_Z attempts +:+ " reason=" +:+
         d_Reason d) err.

(** The loop of [fetchSignaturesWithRetry] and [fetchTransactionsWithRetry]: [left]
    attempts are left, [attempt] is the number of the next one; the result comes with the
    batch size in use at the end. *)
Fixpoint reducing_retry {A} (job : FetchJob) (stage : string) (call : Z -> nat -> result go_error A)
    (left : nat) (attempt attempts currentBatch : Z) : FM C (result go_error A * Z) :=
  match left with
  | O => fret (Err (recovery_exhausted stage attempts {| d_Class := ClassTerminal; d_Reason := "unset" |}
                      (EMsg "%!w(<nil>)")), currentBatch)
  | S left' =>
      do! r <- rpc job (call currentBatch);
      match r with
      | Ok a => fret (Ok a, currentBatch)
      | Err err =>
          let lastDecision := Classify (Some err) in
          do! cancelled <- ctx_err;
          match cancelled with
          | Some ctxErr => fret (Err ctxErr, currentBatch)
          | None =>
              if negb (IsTransient lastDecision)
              then fret (Err (terminal_failure stage attempt lastDecision err), currentBatch)
              else match left' with
                   | O => fret (Err (recovery_exhausted stage attempts lastDecision err), currentBatch)
                   | S _ =>
                       let nextBatch := reduceBatchSize f currentBatch in
                       let currentBatch := if nextBatch <? currentBatch then nextBatch else currentBatch in
                       do! delay <- retry_delay attempt;
                       do! slept <- sleep delay;
                       match slept with
                       | Err sleepErr => fret (Err sleepErr, currentBatch)
                       | Ok _ => reducing_retry job stage call left' (attempt + 1) attempts currentBatch
                       end
                   end
          end
      end
  end.

Definition with_retry {A} (job : FetchJob) (stage : string) (call : Z -> nat -> result go_error A) (batchSize : Z)
    : FM C (result go_error A * Z) :=
  let attempts := effectiveRetryMaxAttempts f in
  reducing_retry job stage call (Z.to_nat attempts) 1 attempts batchSize.

Definition fetchNewSignatures (address : string) (cursor : option string) (cutoffSeq batchSize : Z) (t : nat)
    : result go_error (list SignatureInfo) :=
  if 0 <? cutoffSeq then
    match ad_FetchNewSignaturesWithCutoff (fe_adapter E) with
    | Some fetch => fetch t address cursor batchSize cutoffSeq
    | None => ad_FetchNewSignatures (fe_adapter E) t address cursor batchSize
    end
  else ad_FetchNewSignatures (fe_adapter E) t address cursor batchSize.

Definition fetchSignaturesWithRetry (job : FetchJob) (address : string) (cursor : option string) (batchSize : Z)
    : FM C (result go_error (list SignatureInfo) * Z) :=
  with_retry job "fetcher.fetch_signatures" (fetchNewSignatures address cursor (fj_FetchCutoffSeq job)) batchSize.

(** [sigs[:n]] panics when [n] is out of range; [reduceBatchSize] never leaves it, see
    [reduce_in_range]. *)
Definition selected (sigs : list SignatureInfo) (n : Z) : list SignatureInfo := take (Z.to_nat n) sigs.

Definition fetchTransactionsWithRetry (job : FetchJob) (sigs : list SignatureInfo)
    : FM C (result go_error (list SignatureInfo * list string) * Z) :=
  do! '(r, used) <- with_retry job "fetcher.fetch_transactions"
    (fun currentBatch t => ad_FetchTransactions (fe_adapter E) t (sg_Hash <$> selected sigs currentBatch))
    (Z.of_nat (length sigs));
  fret (match r with Ok rawTxs => Ok (selected sigs used, rawTxs) | Err e => Err e end, used).

(** ** A job of one address *)

Definition address_batch (job : FetchJob) (cursor : option string) (sigs : list SignatureInfo) (rawTxs : list string)
    : RawBatch :=
  let newest := List.last sigs {| sg_Hash := ""; sg_Sequence := 0; sg_Time := None |} in
  {| rb_Chain := fj_Chain job; rb_Network := fj_Network job; rb_Address := fj_Address job;
     rb_WalletID := fj_WalletID job; rb_OrgID := fj_OrgID job; rb_PreviousCursorValue := cursor;
     rb_PreviousCursorSequence := fj_CursorSequence job; rb_RawTransactions := rawTxs; rb_Signatures := sigs;
     rb_NewCursorValue := Some (sg_Hash newest); rb_NewCursorSequence := sg_Sequence newest;
     rb_BlockScanMode := false; rb_WatchedAddresses := [] |}.

(** The address the fetcher asks for, and the size and cursor of the request. *)
Definition fetch_address (job : FetchJob) : string :=
  let a := canonicalizeWatchedAddressIdentity (fj_Chain job) (fj_Address job) in
  if str_empty a then fj_Address job else a.

Definition signature_batch (cursor : option string) (requestedBatch : Z) : Z :=
  match cursor with
  | Some _ => requestedBatch ⊕ effectiveBoundaryOverlapLookahead f
  | None => requestedBatch
  end.

(** The signatures of an answer that the batch may contain. *)
Definition usable_signatures (job : FetchJob) (cursor : option string) (requestedBatch : Z) (sigs : list SignatureInfo)
    : option (list SignatureInfo) :=
  let sigs := filterAndCanonicalizeSignatures (fj_Chain job) sigs (fj_FetchCutoffSeq job) cursor in
  match suppressPreCursorSequenceCarryover sigs (fj_CursorSequence job) requestedBatch with
  | None => None
  | Some sigs => Some (take (Z.to_nat requestedBatch) sigs)
  end.

Definition processAddressJob (job : FetchJob) : FM C unit :=
  let fetchAddress := fetch_address job in
  do! requestedBatch <- resolveBatchSize (fj_Chain job) (fj_Network job) fetchAddress (fj_BatchSize job);
  let canonicalCursor := CanonicalizeCursorValue (fj_Chain job) (fj_CursorValue job) in
  do! '(r, sigBatchSize) <-
    fetchSignaturesWithRetry job fetchAddress canonicalCursor (signature_batch canonicalCursor requestedBatch);
  match r with
  | Err err =>
      do! _ <- setAdaptiveBatchSize (fj_Chain job) (fj_Network job) fetchAddress sigBatchSize;
      fthrow (Failed err)
  | Ok [] => fret tt
  | Ok sigs =>
      match usable_signatures job canonicalCursor requestedBatch sigs with
      | None => fthrow (Panicked "runtime error: slice bounds out of range [-1:]")
      | Some [] => fret tt
      | Some sigs =>
          do! '(r, txBatchSize) <- fetchTransactionsWithRetry job sigs;
          match r with
          | Err err =>
              do! _ <- setAdaptiveBatchSize (fj_Chain job) (fj_Network job) fetchAddress txBatchSize;
              fthrow (Failed err)
          | Ok (selectedSigs, rawTxs) =>
              do! _ <- send (address_batch job canonicalCursor selectedSigs rawTxs);
              updateAdaptiveBatchSize (fj_Chain job) (fj_Network job) fetchAddress (fj_BatchSize job)
                requestedBatch sigBatchSize txBatchSize (Z.of_nat (length selectedSigs))
          end
      end
  end.

(** ** A block-scan job *)

(** The loop of both block-scan calls: [prefix] names the call in the error. *)
Fixpoint plain_retry {A} (job : FetchJob) (prefix : string) (call : nat -> result go_error A)
    (left : nat) (attempt : Z) : FM C (option A) :=
  match left with
  | O => fret None
  | S left' =>
      do! r <- rpc job call;
      match r with
      | Ok a => fret (Some a)
      | Err err =>
          match left', IsTransient (Classify (Some err)) with
          | S _, true =>
              do! delay <- retry_delay attempt;
              do! slept <- sleep delay;
              match slept with
              | Err sleepErr => fthrow (Failed sleepErr)
              | Ok _ => plain_retry job prefix call left' (attempt + 1)
              end
          | _, _ => fthrow (Failed (EWrap prefix err))
          end
      end
  end.

(** A call that was never made leaves the nil slice. *)
Definition scan_call {A} (job : FetchJob) (prefix : string) (call : nat -> result go_error (list A)) : FM C (list A) :=
  do! r <- plain_retry job prefix call (Z.to_nat (effectiveRetryMaxAttempts f)) 1;
  fret (default [] r).

(** A batch of the scanned range. *)
Definition scan_batch (job : FetchJob) (rawTxs : list string) (sigs : list SignatureInfo)
    (cursor : option string) (previousSequence sequence : Z) : RawBatch :=
  {| rb_Chain := fj_Chain job; rb_Network := fj_Network job; rb_Address := ""; rb_WalletID := None; rb_OrgID := None;
     rb_PreviousCursorValue := None; rb_PreviousCursorSequence := previousSequence; rb_RawTransactions := rawTxs;
     rb_Signatures := sigs; rb_NewCursorValue := cursor; rb_NewCursorSequence := sequence;
     rb_BlockScanMode := true; rb_WatchedAddresses := fj_WatchedAddresses job |}.

(** The batch without transactions that lets the watermark pass an empty range. *)
Definition empty_scan_batch (job : FetchJob) : RawBatch :=
  scan_batch job [] [] None (fj_StartBlock job) (fj_EndBlock job).

(** Sub-batch [chunkIdx] of the signatures. *)
Definition chunk_signatures (sigs : list SignatureInfo) (maxBatch chunkIdx : Z) : list SignatureInfo :=
  let start := chunkIdx ⊗ maxBatch in
  let end_ := start ⊕ maxBatch in
  let totalSigs := Z.of_nat (length sigs) in
  slice start (if totalSigs <? end_ then totalSigs else end_) sigs.

Definition chunk_batch (job : FetchJob) (sigs : list SignatureInfo) (maxBatch chunkCount chunkIdx : Z)
    (rawTxs : list string) : RawBatch :=
  let newest := List.last sigs {| sg_Hash := ""; sg_Sequence := 0; sg_Time := None |} in
  let isLastChunk := chunkIdx =? chunkCount - 1 in
  scan_batch job rawTxs (chunk_signatures sigs maxBatch chunkIdx)
    (if isLastChunk then Some (sg_Hash newest) else None) 0
    (if isLastChunk then sg_Sequence newest else fj_StartBlock job ⊖ 1).

Definition process_chunk (job : FetchJob) (sigs : list SignatureInfo) (maxBatch chunkCount chunkIdx : Z) : FM C unit :=
  do! chunkRawTxs <-
    scan_call job ("block-scan FetchTransactions chunk " +:+ show_Z (chunkIdx + 1) +:+ "/" +:+ show_Z chunkCount)
      (fun t => ad_FetchTransactions (fe_adapter E) t (sg_Hash <$> chunk_signatures sigs maxBatch chunkIdx));
  send (chunk_batch job sigs maxBatch chunkCount chunkIdx chunkRawTxs).

(** The chunks from [chunkIdx] on, of which [left] are left. *)
Fixpoint process_chunks (job : FetchJob) (sigs : list SignatureInfo) (maxBatch chunkCount : Z)
    (left : nat) (chunkIdx : Z) : FM C unit :=
  match left with
  | O => fret tt
  | S left' =>
      do! _ <- process_chunk job sigs maxBatch chunkCount chunkIdx;
      process_chunks job sigs maxBatch chunkCount left' (chunkIdx + 1)
  end.

Definition chunk_count (totalSigs maxBatch : Z) : Z := Z.quot (totalSigs ⊕ maxBatch ⊖ 1) maxBatch.

Definition processBlockScanJob (job : FetchJob) : FM C unit :=
  match ad_ScanBlocks (fe_adapter E) with
  | None => fthrow (Failed (EMsg ("adapter does not implement BlockScanAdapter for chain " +:+ fj_Chain job)))
  | Some scan =>
      do! found <- scan_call job "block-scan ScanBlocks"
        (fun t => scan t (fj_StartBlock job) (fj_EndBlock job) (fj_WatchedAddresses job));
      match canonicalizeSignatures (fj_Chain job) found with
      | [] => send (empty_scan_batch job)
      | sigs =>
          let maxBatch := effectiveBlockScanMaxBatchTxs f in
          let chunkCount := chunk_count (Z.of_nat (length sigs)) maxBatch in
          process_chunks job sigs maxBatch chunkCount (Z.to_nat chunkCount) 0
      end
  end.

(** ** Jobs and workers *)

Definition processJob (job : FetchJob) : FM C unit :=
  do! rejected <- on_breaker None (fun now b => Allow b now);
  match rejected with
  | Some cbErr => fthrow (Failed (as_transient (EWrap "rpc circuit breaker open" cbErr)))
  | None => if fj_BlockScanMode job then processBlockScanJob job else processAddressJob job
  end.

(** A worker takes jobs until one fails, panics included; the error stops all workers. *)
Fixpoint worker (workerID : Z) (jobs : list FetchJob) (w : fworld C) : option go_error * fworld C :=
  match jobs with
  | [] => (None, w)
  | job :: jobs' =>
      match processJob job w with
      | (Err (Failed err), w) =>
          (Some (EWrap ("fetcher process job failed: address=" +:+ fj_Address job) err), w)
      | (Err (Panicked value), w) =>
          (Some (EMsg ("fetcher worker " +:+ show_Z workerID +:+ " panicked: " +:+ value)), w)
      | (Ok _, w) => worker workerID jobs' w
      end
  end.
End Fetcher.

(** ** Construction *)

Definition New (workerCount : Z) (opts : list (fetch_config -> fetch_config)) : fetch_config :=
  foldl (fun f opt => opt f)
    {| f_workerCount := if workerCount <=? 0 then 1 else workerCount;
       f_retryMaxAttempts := defaultRetryMaxAttempts; f_backoffInitial := defaultBackoffInitial;
       f_backoffMax := defaultBackoffMax; f_adaptiveMinBatch := defaultAdaptiveMinBatch;
       f_boundaryOverlapLookahead := 0; f_blockScanMaxBatchTxs := 0;
       f_cbFailureThreshold := 0; f_cbSuccessThreshold := 0; f_cbOpenTimeout := 0 |} opts.

Definition WithRetryConfig (maxAttempts backoffInitial backoffMax : Z) (f : fetch_config) : fetch_config :=
  {| f_workerCount := f_workerCount f; f_retryMaxAttempts := maxAttempts; f_backoffInitial := backoffInitial;
     f_backoffMax := backoffMax; f_adaptiveMinBatch := f_adaptiveMinBatch f;
     f_boundaryOverlapLookahead := f_boundaryOverlapLookahead f;
     f_blockScanMaxBatchTxs := f_blockScanMaxBatchTxs f; f_cbFailureThreshold := f_cbFailureThreshold f;
     f_cbSuccessThreshold := f_cbSuccessThreshold f; f_cbOpenTimeout := f_cbOpenTimeout f |}.
Definition WithAdaptiveMinBatch (minBatch : Z) (f : fetch_config) : fetch_config :=
  {| f_workerCount := f_workerCount f; f_retryMaxAttempts := f_retryMaxAttempts f;
     f_backoffInitial := f_backoffInitial f; f_backoffMax := f_backoffMax f; f_adaptiveMinBatch := minBatch;
     f_boundaryOverlapLookahead := f_boundaryOverlapLookahead f;
     f_blockScanMaxBatchTxs := f_blockScanMaxBatchTxs f; f_cbFailureThreshold := f_cbFailureThreshold f;
     f_cbSuccessThreshold := f_cbSuccessThreshold f; f_cbOpenTimeout := f_cbOpenTimeout f |}.
Definition WithBoundaryOverlapLookahead (n : Z) (f : fetch_config) : fetch_config :=
  {| f_workerCount := f_workerCount f; f_retryMaxAttempts := f_retryMaxAttempts f;
     f_backoffInitial := f_backoffInitial f; f_backoffMax := f_backoffMax f;
     f_adaptiveMinBatch := f_adaptiveMinBatch f; f_boundaryOverlapLookahead := n;
     f_blockScanMaxBatchTxs := f_blockScanMaxBatchTxs f; f_cbFailureThreshold := f_cbFailureThreshold f;
     f_cbSuccessThreshold := f_cbSuccessThreshold f; f_cbOpenTimeout := f_cbOpenTimeout f |}.
Definition WithBlockScanMaxBatchTxs (maxTxs : Z) (f : fetch_config) : fetch_config :=
  {| f_workerCount := f_workerCount f; f_retryMaxAttempts := f_retryMaxAttempts f;
     f_backoffInitial := f_backoffInitial f; f_backoffMax := f_backoffMax f;
     f_adaptiveMinBatch := f_adaptiveMinBatch f; f_boundaryOverlapLookahead := f_boundaryOverlapLookahead f;
     f_blockScanMaxBatchTxs := maxTxs; f_cbFailureThreshold := f_cbFailureThreshold f;
     f_cbSuccessThreshold := f_cbSuccessThreshold f; f_cbOpenTimeout := f_cbOpenTimeout f |}.
Definition WithCircuitBreaker (failureThreshold successThreshold openTimeout : Z) (f : fetch_config) : fetch_config :=
  {| f_workerCount := f_workerCount f; f_retryMaxAttempts := f_retryMaxAttempts f;
     f_backoffInitial := f_backoffInitial f; f_backoffMax := f_backoffMax f;
     f_adaptiveMinBatch := f_adaptiveMinBatch f; f_boundaryOverlapLookahead := f_boundaryOverlapLookahead f;
     f_blockScanMaxBatchTxs := f_blockScanMaxBatchTxs f; f_cbFailureThreshold := failureThreshold;
     f_cbSuccessThreshold := successThreshold; f_cbOpenTimeout := openTimeout |}.

(** What the workers share at the start of [Run]: an empty cache of 10000 addresses and an
    hour, a closed breaker, and the signals when a sink is configured. *)
Definition start_shared (f : fetch_config) (signals : option RuntimeSignalRegistry) : fshared (LRU string Z) :=
  {| sh_batchSizeByAddress := NewLRU 10000 (3600 * 10 ^ 9);
     sh_circuitBreaker := Some (Breaker.New {|
       cfg_FailureThreshold := or_default (f_cbFailureThreshold f) 10;
       cfg_SuccessThreshold := or_default (f_cbSuccessThreshold f) 3;
       cfg_OpenTimeout := or_default (f_cbOpenTimeout f) (30 * 10 ^ 9) |});
     sh_autoTuneSignals := signals |}.
