(* ===== verification/FetcherProofs.v ===== *)
(** * Fetcher: properties of its batches

    Which signatures a batch has, that none above the cursor is skipped, what becomes of
    those at the cursor's own sequence, and how a scanned range is cut into sub-batches. *)

From Stdlib Require Import ZArith String Lia.
From stdpp Require Import base option list strings gmap sorting.
From S2P Require Import Prelude Ordering Retry Domain Identity Cache Breaker NormalizerRules NormalizerEvents NormalizerProofs NormalizerDecode Normalizer NormalizerBatch RuntimeSignals Coordinator FetcherRules Fetcher.

Open Scope Z_scope.

(** ** One signature per transaction *)

(** A later block, then a later time (none is earliest), then a smaller hash is better. *)
Definition time_rank (t : option Z) : Z * Z := match t with None => (0, 0) | Some z => (1, z) end.

Definition better_first : SignatureInfo -> SignatureInfo -> comparison :=
  lex (on sg_Sequence (opposite Z.compare))
    (lex (on (fun s => (time_rank (sg_Time s)).1) (opposite Z.compare))
      (lex (on (fun s => (time_rank (sg_Time s)).2) (opposite Z.compare)) (on sg_Hash String.compare))).

#[export] Instance better_first_total : TotalCompare better_first.
Proof. unfold better_first. apply _. Qed.

Lemma replace_better x y : FetcherRules.shouldReplaceCanonicalSignature x y = is_gt (better_first x y).
Proof.
  unfold FetcherRules.shouldReplaceCanonicalSignature, better_first, lex, on, opposite, str_ltb.
  rewrite (Z.compare_antisym (sg_Sequence x) (sg_Sequence y)).
  rewrite (cmp_sym (cmp:=String.compare) (sg_Hash x) (sg_Hash y)).
  destruct (Z.compare_spec (sg_Sequence x) (sg_Sequence y)) as [->|Hlt|Hgt].
  - rewrite Z.eqb_refl. cbn [CompOpp negb]. destruct (sg_Time x) as [t1|], (sg_Time y) as [t2|]; cbn [time_rank fst snd].
    2-4: try reflexivity; simpl; by destruct (String.compare _ _).
    rewrite Z.compare_refl. rewrite (Z.compare_antisym t1 t2).
    destruct (Z.compare_spec t1 t2) as [->|Ht|Ht]; cbn [CompOpp].
    + rewrite Z.eqb_refl. cbn [negb]. by destruct (String.compare _ _).
    + destruct (Z.eqb_spec t1 t2); [lia|]. cbn. by apply Z.ltb_lt.
    + destruct (Z.eqb_spec t1 t2); [lia|]. cbn. apply Z.ltb_ge. lia.
  - destruct (Z.eqb_spec (sg_Sequence x) (sg_Sequence y)); [lia|]. cbn. by apply Z.ltb_lt.
  - destruct (Z.eqb_spec (sg_Sequence x) (sg_Sequence y)); [lia|]. cbn. apply Z.ltb_ge. lia.
Qed.

(** The answers that a batch may contain: those with an identity, up to the cutoff, and not
    the cursor again. *)
Definition admitted (chain : Chain) (cutoffSeq : Z) (cursor : option string) (sig : SignatureInfo) : bool :=
  has_identity chain sig && negb ((0 <? cutoffSeq) && (cutoffSeq <? sg_Sequence sig)) &&
  negb (negb (str_empty (cursor_identity_of chain cursor)) &&
        String.eqb (CanonicalSignatureIdentity chain (sg_Hash sig)) (cursor_identity_of chain cursor)).

Lemma put_signature_keep_best chain m sig :
  put_signature m (CanonicalSignatureIdentity chain (sg_Hash sig)) sig =
  keep_best sg_Hash FetcherRules.shouldReplaceCanonicalSignature m (canonical_signature chain sig).
Proof. done. Qed.

Lemma filter_signatures_merge chain cutoffSeq cursor sigs : forall m,
  foldl (filter_signature chain cutoffSeq (cursor_identity_of chain cursor)) m sigs =
  foldl (keep_best sg_Hash FetcherRules.shouldReplaceCanonicalSignature) m
    (canonical_signature chain <$> filter (fun s => admitted chain cutoffSeq cursor s = true) sigs).
Proof.
  induction sigs as [|sig sigs IH]; intros m; simpl; [done|]. rewrite IH.
  destruct (admitted chain cutoffSeq cursor sig) eqn:Ea.
  - rewrite filter_cons_True by done. simpl. f_equal. unfold filter_signature. unfold admitted, has_identity in Ea.
    apply andb_prop in Ea as [Ea E3]. apply andb_prop in Ea as [E1 E2]. apply negb_true_iff in E1, E2, E3.
    by rewrite E1, E2, E3.
  - rewrite filter_cons_False by congruence. f_equal. unfold filter_signature. unfold admitted, has_identity in Ea.
    destruct (str_empty (CanonicalSignatureIdentity chain (sg_Hash sig))); [done|].
    destruct ((0 <? cutoffSeq) && (cutoffSeq <? sg_Sequence sig)); [done|].
    by destruct (negb (str_empty (cursor_identity_of chain cursor)) && _).
Qed.

Lemma canonicalize_signatures_merge chain sigs : forall m,
  foldl (fun byIdentity sig => let id := CanonicalSignatureIdentity chain (sg_Hash sig) in
     if str_empty id then byIdentity else put_signature byIdentity id sig) m sigs =
  foldl (keep_best sg_Hash FetcherRules.shouldReplaceCanonicalSignature) m
    (canonical_signature chain <$> filter (fun s => has_identity chain s = true) sigs).
Proof.
  induction sigs as [|sig sigs IH]; intros m; simpl; [done|]. rewrite IH. unfold has_identity.
  destruct (str_empty _) eqn:E.
  - rewrite filter_cons_False; [done|]. by rewrite E.
  - rewrite filter_cons_True; [|by rewrite E]. done.
Qed.

(** What the fetcher makes of the answers [sigs] that pass [ok]: sorted, one of each
    identity, and that one the best. *)
Record canonical_of (chain : Chain) (ok : SignatureInfo -> bool) (sigs out : list SignatureInfo) : Prop := {
  co_sorted : StronglySorted (cmp_lt signature_order) out;
  co_distinct : NoDup (sg_Hash <$> out);
  co_sound : forall x, x ∈ out -> exists sig, sig ∈ sigs /\ ok sig = true /\ x = canonical_signature chain sig;
  co_complete : forall sig, sig ∈ sigs -> ok sig = true ->
    exists x, x ∈ out /\ sg_Hash x = CanonicalSignatureIdentity chain (sg_Hash sig) /\
              better_first x (canonical_signature chain sig) <> Gt
}.

Lemma merged_canonical_of chain ok sigs :
  canonical_of chain ok sigs (stable_sort signature_order
    (canonical sg_Hash FetcherRules.shouldReplaceCanonicalSignature
      (canonical_signature chain <$> filter (fun s => ok s = true) sigs))).
Proof.
  set (l := canonical_signature chain <$> _).
  destruct (merged_signatures FetcherRules.shouldReplaceCanonicalSignature l) as (H1 & H2 & H3 & H4).
  split; [done|done| |].
  - intros x [sig [-> Hs]]%H3%list_elem_of_fmap. apply list_elem_of_filter in Hs as [? ?]. by exists sig.
  - intros sig Hs Hok. assert (canonical_signature chain sig ∈ l) as Hl by (by apply list_elem_of_fmap_2, list_elem_of_filter).
    destruct (merged_complete sg_Hash FetcherRules.shouldReplaceCanonicalSignature l _ Hl) as [x Hx]. exists x.
    pose proof (merged_spec _ _ _ _ _ Hx) as [Hk _]. split; [apply H4; by rewrite Hk|]. split; [done|].
    eapply (merged_least sg_Hash FetcherRules.shouldReplaceCanonicalSignature better_first (fun _ => True));
      [intros; apply replace_better|by apply Forall_forall|exact Hx|exact Hl|done].
Qed.

Lemma filterAndCanonicalize_spec chain sigs cutoffSeq cursor :
  canonical_of chain (admitted chain cutoffSeq cursor) sigs
    (filterAndCanonicalizeSignatures chain sigs cutoffSeq cursor).
Proof.
  unfold filterAndCanonicalizeSignatures, sortSignatureInfosBySequenceThenHash. rewrite filter_signatures_merge.
  apply merged_canonical_of.
Qed.

Lemma canonicalizeSignatures_spec chain sigs :
  canonical_of chain (has_identity chain) sigs (canonicalizeSignatures chain sigs).
Proof.
  unfold canonicalizeSignatures, sortSignatureInfosBySequenceThenHash. rewrite canonicalize_signatures_merge.
  apply merged_canonical_of.
Qed.

Lemma better_eq x y : better_first x y = Eq -> x = y.
Proof.
  unfold better_first, lex, on, opposite. destruct x as [h1 s1 t1], y as [h2 s2 t2]. simpl.
  destruct (Z.compare_spec s2 s1) as [->| |]; [|done|done].
  destruct (Z.compare_spec (time_rank t2).1 (time_rank t1).1) as [E1| |]; [|done|done].
  destruct (Z.compare_spec (time_rank t2).2 (time_rank t1).2) as [E2| |]; [|done|done].
  intros ->%String.compare_eq_iff. destruct t1, t2; simpl in *; congruence.
Qed.

Lemma hash_inj out x y : NoDup (sg_Hash <$> out) -> x ∈ out -> y ∈ out -> sg_Hash x = sg_Hash y -> x = y.
Proof.
  intros Hnd [i Hi]%list_elem_of_lookup [j Hj]%list_elem_of_lookup He.
  assert (i = j) as ->; [|congruence]. eapply (NoDup_lookup _ i j (sg_Hash x) Hnd).
  - by rewrite list_lookup_fmap, Hi.
  - by rewrite list_lookup_fmap, Hj, He.
Qed.

Lemma canonical_of_incl chain ok ok' sigs sigs' out out' :
  canonical_of chain ok sigs out -> canonical_of chain ok' sigs' out' ->
  (forall sig, sig ∈ sigs /\ ok sig = true <-> sig ∈ sigs' /\ ok' sig = true) -> forall x, x ∈ out -> x ∈ out'.
Proof.
  intros H1 H2 Hsame x Hx. destruct (co_sound _ _ _ _ H1 x Hx) as (sig & Hs & Hok & ->).
  destruct (proj1 (Hsame sig) (conj Hs Hok)) as [Hs' Hok'].
  destruct (co_complete _ _ _ _ H2 sig Hs' Hok') as (y & Hy & Hh & Hbest).
  destruct (co_sound _ _ _ _ H2 y Hy) as (sig' & Hs2 & Hok2 & ->).
  destruct (proj2 (Hsame sig') (conj Hs2 Hok2)) as [Hs3 Hok3].
  destruct (co_complete _ _ _ _ H1 sig' Hs3 Hok3) as (z & Hz & Hh2 & Hbest2).
  assert (z = canonical_signature chain sig) as ->.
  { apply (hash_inj out); [apply (co_distinct _ _ _ _ H1)|done|done|]. simpl in *. congruence. }
  replace (canonical_signature chain sig) with (canonical_signature chain sig'); [done|]. apply better_eq.
  rewrite (cmp_sym (cmp:=better_first) (canonical_signature chain sig') (canonical_signature chain sig)) in Hbest2.
  by destruct (better_first _ _).
Qed.

(** The list depends only on which answers pass. *)
Lemma canonical_of_unique chain ok ok' sigs sigs' out out' :
  canonical_of chain ok sigs out -> canonical_of chain ok' sigs' out' ->
  (forall sig, sig ∈ sigs /\ ok sig = true <-> sig ∈ sigs' /\ ok' sig = true) -> out = out'.
Proof.
  intros H1 H2 Hsame. apply (sorted_unique signature_order);
    [apply (co_sorted _ _ _ _ H1)|apply (co_sorted _ _ _ _ H2)|].
  apply NoDup_Permutation; [eapply NoDup_fmap_1, (co_distinct _ _ _ _ H1)|eapply NoDup_fmap_1, (co_distinct _ _ _ _ H2)|].
  intros x. split; [by eapply canonical_of_incl|]. eapply canonical_of_incl; [done|done|]. intros sig. by rewrite Hsame.
Qed.

(** The separate passes the single pass stands for. *)
Definition within_cutoff (cutoffSeq : Z) (sig : SignatureInfo) : bool :=
  negb ((0 <? cutoffSeq) && (cutoffSeq <? sg_Sequence sig)).
Definition other_than_cursor (chain : Chain) (cursor : option string) (sig : SignatureInfo) : bool :=
  negb (negb (str_empty (cursor_identity_of chain cursor)) &&
        String.eqb (CanonicalSignatureIdentity chain (sg_Hash sig)) (cursor_identity_of chain cursor)).

(** Also: the single pass over an answer equals three passes, and the order and the
    repetitions of the answer do not matter.  Dropping what lies past the cutoff, dropping
    the cursor, and then merging and sorting what is left gives the same list, for any
    answer with the same elements. *)
Theorem single_pass_equiv chain sigs sigs' cutoffSeq cursor :
  (forall sig, sig ∈ sigs <-> sig ∈ sigs') ->
  filterAndCanonicalizeSignatures chain sigs cutoffSeq cursor =
  canonicalizeSignatures chain (suppressBoundaryCursorSignatures chain
    (filter (fun s => within_cutoff cutoffSeq s = true) sigs') cursor).
Proof.
  intros Hsame. eapply canonical_of_unique; [apply filterAndCanonicalize_spec|apply canonicalizeSignatures_spec|].
  intros sig. rewrite Hsame. unfold admitted. fold (within_cutoff cutoffSeq sig).
  assert (sig ∈ suppressBoundaryCursorSignatures chain (filter (fun s => within_cutoff cutoffSeq s = true) sigs') cursor <->
          sig ∈ sigs' /\ within_cutoff cutoffSeq sig = true /\ other_than_cursor chain cursor sig = true) as ->.
  { unfold suppressBoundaryCursorSignatures, other_than_cursor, cursor_identity_of.
    destruct cursor as [c|]; [|rewrite list_elem_of_filter; tauto].
    destruct (str_empty (CanonicalSignatureIdentity chain c)); simpl.
    - rewrite list_elem_of_filter. tauto.
    - rewrite !list_elem_of_filter, negb_true_iff. tauto. }
  unfold other_than_cursor. rewrite !andb_true_iff. tauto.
Qed.

(** ** What is kept of the sequences up to the cursor *)

Definition before (c : Z) (sigs : list SignatureInfo) : list SignatureInfo := filter (fun s => sg_Sequence s < c) sigs.
Definition at_cursor (c : Z) (sigs : list SignatureInfo) : list SignatureInfo := filter (fun s => sg_Sequence s = c) sigs.
Definition after (c : Z) (sigs : list SignatureInfo) : list SignatureInfo := filter (fun s => c < sg_Sequence s) sigs.

(** The contract of [suppressPreCursorSequenceCarryover] on a sorted list. *)
Definition carryover (c : Z) (requested : nat) (sigs : list SignatureInfo) : option (list SignatureInfo) :=
  let hits := at_cursor c sigs in
  let misses := after c sigs in
  match hits, misses with
  | [], [] => Some sigs
  | _, _ =>
      if (requested <=? length misses)%nat then Some (take requested misses)
      else if (length misses + length hits <=? requested)%nat then Some (hits ++ misses)
      else match misses with
           | [] => None
           | _ => Some (drop (length hits - (requested - length misses)) hits ++ misses)
           end
  end.

Lemma signature_order_seq x y : cmp_lt signature_order x y -> sg_Sequence x <= sg_Sequence y.
Proof.
  unfold cmp_lt, signature_order, lex, on. destruct (Z.compare_spec (sg_Sequence x) (sg_Sequence y)); [lia|lia|done].
Qed.

Lemma sorted_partition c sigs : StronglySorted (cmp_lt signature_order) sigs ->
  sigs = before c sigs ++ at_cursor c sigs ++ after c sigs.
Proof.
  induction 1 as [|s l Hl IH Hs]; [done|]. unfold before, at_cursor, after in *.
  assert (forall y, y ∈ l -> sg_Sequence s <= sg_Sequence y) as Hle
    by (rewrite Forall_forall in Hs; intros y Hy; by apply signature_order_seq, Hs).
  destruct (Z.lt_trichotomy (sg_Sequence s) c) as [Hc|[Hc|Hc]].
  - rewrite filter_cons_True, !filter_cons_False by lia. simpl. by f_equal.
  - rewrite filter_cons_False, filter_cons_True, filter_cons_False by lia.
    assert (filter (fun s => sg_Sequence s < c) l = []) as E1 by (apply filter_none; intros y Hy; specialize (Hle y Hy); lia).
    rewrite E1 in IH |- *. simpl in *. by f_equal.
  - rewrite !filter_cons_False, filter_cons_True by lia.
    assert (filter (fun s => sg_Sequence s < c) l = []) as E1 by (apply filter_none; intros y Hy; specialize (Hle y Hy); lia).
    assert (filter (fun s => sg_Sequence s = c) l = []) as E2 by (apply filter_none; intros y Hy; specialize (Hle y Hy); lia).
    rewrite E1, E2 in IH |- *. simpl in *. by f_equal.
Qed.

Lemma scan_bounds_app c b l1 l2 : forall i,
  scan_bounds c i b (l1 ++ l2) = scan_bounds c (i + Z.of_nat (length l1)) (scan_bounds c i b l1) l2.
Proof.
  revert b; induction l1 as [|s l1 IH]; intros b i; simpl; [by rewrite Z.add_0_r|].
  rewrite IH. f_equal. lia.
Qed.

Lemma scan_before c b l : forall i, (forall s, s ∈ l -> sg_Sequence s < c) -> scan_bounds c i b l = b.
Proof.
  induction l as [|s l IH]; intros i Hl; simpl; [done|].
  unfold scan_step at 1. destruct (Z.ltb_spec (sg_Sequence s) c) as [_|Hc]; [apply IH; set_solver|].
  specialize (Hl s ltac:(set_solver)). lia.
Qed.

Lemma scan_hits c l : forall i b, 0 <= i -> (forall s, s ∈ l -> sg_Sequence s = c) -> l <> [] ->
  scan_bounds c i b l =
  {| missStart := missStart b; hitStart := if hitStart b =? -1 then i else hitStart b; hitEnd := i + Z.of_nat (length l) |}.
Proof.
  induction l as [|s l IH]; intros i b Hi Hl Hne; [done|]. cbn [scan_bounds].
  assert (scan_step c b i s = {| missStart := missStart b; hitStart := if hitStart b =? -1 then i else hitStart b;
                                 hitEnd := i + 1 |}) as ->.
  { unfold scan_step. rewrite (Hl s) by set_solver. by rewrite Z.ltb_irrefl, Z.eqb_refl. }
  destruct l as [|s' l]; [simpl; f_equal; lia|].
  rewrite IH; [|lia|set_solver|done]. cbn [missStart hitStart hitEnd]. f_equal; [|simpl length; lia].
  destruct (Z.eqb_spec (hitStart b) (-1)) as [|Hh]; [destruct (Z.eqb_spec i (-1)); [lia|done]|].
  by apply Z.eqb_neq in Hh as ->.
Qed.

Lemma scan_misses c l : forall i b, 0 <= i -> (forall s, s ∈ l -> c < sg_Sequence s) -> l <> [] ->
  (hitEnd b = -1 -> hitStart b = -1) ->
  scan_bounds c i b l =
  {| missStart := if missStart b =? -1 then i else missStart b; hitStart := hitStart b; hitEnd := hitEnd b |}.
Proof.
  induction l as [|s l IH]; intros i b Hi Hl Hne Hb; [done|]. cbn [scan_bounds].
  assert (scan_step c b i s = {| missStart := if missStart b =? -1 then i else missStart b; hitStart := hitStart b;
                                 hitEnd := hitEnd b |}) as ->.
  { specialize (Hl s ltac:(set_solver)). unfold scan_step.
    destruct (Z.ltb_spec (sg_Sequence s) c); [lia|]. destruct (Z.eqb_spec (sg_Sequence s) c); [lia|].
    destruct (Z.eqb_spec (missStart b) (-1)); [|by destruct b].
    destruct (Z.eqb_spec (hitEnd b) (-1)) as [He|]; [|done]. by rewrite (Hb He). }
  destruct l as [|s' l]; [done|]. rewrite IH; [|lia|set_solver|done|done]. cbn [missStart hitStart hitEnd]. f_equal.
  destruct (Z.eqb_spec (missStart b) (-1)) as [|Hm]; [destruct (Z.eqb_spec i (-1)); [lia|done]|].
  by apply Z.eqb_neq in Hm as ->.
Qed.

(** The indices the scan of a sorted list finds. *)
Lemma scan_sorted c l1 l2 l3 :
  (forall s, s ∈ l1 -> sg_Sequence s < c) -> (forall s, s ∈ l2 -> sg_Sequence s = c) ->
  (forall s, s ∈ l3 -> c < sg_Sequence s) ->
  scan_bounds c 0 {| missStart := -1; hitStart := -1; hitEnd := -1 |} (l1 ++ l2 ++ l3) =
  {| missStart := match l3 with [] => -1 | _ => Z.of_nat (length l1 + length l2) end;
     hitStart := match l2 with [] => -1 | _ => Z.of_nat (length l1) end;
     hitEnd := match l2 with [] => -1 | _ => Z.of_nat (length l1 + length l2) end |}.
Proof.
  intros H1 H2 H3. rewrite scan_bounds_app, (scan_before _ _ l1) by done. rewrite scan_bounds_app.
  destruct l2 as [|s2 l2]; [|rewrite (scan_hits _ (s2 :: l2)) by (done || lia)].
  - cbn [scan_bounds length]. destruct l3 as [|s3 l3]; [done|].
    rewrite scan_misses by (done || lia). cbn [missStart hitStart hitEnd]. rewrite Z.eqb_refl. f_equal. lia.
  - destruct l3 as [|s3 l3].
    + cbn [scan_bounds missStart hitStart hitEnd]. rewrite Z.eqb_refl. f_equal; cbn [length]; lia.
    + rewrite scan_misses; [|lia|done|done|cbn [hitEnd length]; lia]. cbn [missStart hitStart hitEnd].
      rewrite !Z.eqb_refl. f_equal; cbn [length]; lia.
Qed.

Lemma slice_app_l {A} (l1 l2 l3 : list A) (a b : Z) :
  a = Z.of_nat (length l1) -> b = Z.of_nat (length l1 + length l2) -> slice a b (l1 ++ l2 ++ l3) = l2.
Proof.
  intros -> ->. unfold slice. rewrite Nat2Z.id, drop_app_length.
  rewrite take_app_le by lia. apply take_ge. lia.
Qed.

Lemma leb_0_nat n : (0 <=? Z.of_nat n) = true.
Proof. apply Z.leb_le. lia. Qed.

Lemma ltb_nat_0 n : (Z.of_nat n <? 0) = false.
Proof. apply Z.ltb_ge. lia. Qed.

Lemma leb_nat n m : (Z.of_nat n <=? Z.of_nat m) = (n <=? m)%nat.
Proof. destruct (Nat.leb_spec n m); [apply Z.leb_le|apply Z.leb_gt]; lia. Qed.

Lemma slice_tail {A} (l1 l2 : list A) (a b : Z) (n : nat) :
  a = Z.of_nat (length l1) -> b = a + Z.of_nat n -> slice a b (l1 ++ l2) = take n l2.
Proof. intros -> ->. unfold slice. rewrite Nat2Z.id, drop_app_length. f_equal. lia. Qed.

Lemma sorted_at_cursor c sigs : StronglySorted (cmp_lt signature_order) sigs ->
  stable_sort hash_descending (at_cursor c sigs) = reverse (at_cursor c sigs).
Proof.
  intros Hs. apply stable_sort_unique; [apply _|by rewrite reverse_Permutation|].
  assert (StronglySorted (cmp_lt signature_order) (at_cursor c sigs)) as Ha
    by (eapply StronglySorted_sublist; [apply sublist_filter|done]).
  assert (forall s, s ∈ reverse (at_cursor c sigs) -> sg_Sequence s = c) as Hc
    by (intros s; rewrite elem_of_reverse; unfold at_cursor; rewrite list_elem_of_filter; tauto).
  apply StronglySorted_reverse in Ha. induction Ha as [|x l Hl IH Hx]; constructor; [apply IH; set_solver|].
  rewrite Forall_forall in Hx |- *. intros y Hy. specialize (Hx y Hy). unfold cmp_lt, signature_order, lex, on in Hx.
  rewrite (Hc x), (Hc y), Z.compare_refl in Hx by set_solver. exact Hx.
Qed.

Lemma sort_carried l1 l2 n : StronglySorted (cmp_lt signature_order) (l1 ++ l2) ->
  stable_sort signature_order (slice 0 (Z.of_nat n) (reverse l1) ++ l2) = drop (length l1 - n) l1 ++ l2.
Proof.
  intros Hs. unfold slice. rewrite Z.sub_0_r, Nat2Z.id, drop_0, take_reverse.
  apply stable_sort_unique; [apply _|by rewrite reverse_Permutation|].
  eapply StronglySorted_sublist; [|exact Hs]. apply sublist_app; [apply sublist_drop|done].
Qed.

(** Also: on a sorted list the index arithmetic of [suppressPreCursorSequenceCarryover]
    does what [carryover] says, the out-of-range slice included. *)
Theorem suppress_refines_carryover c requested sigs :
  StronglySorted (cmp_lt signature_order) sigs -> 0 < c -> 1 <= requested ->
  suppressPreCursorSequenceCarryover sigs c requested = carryover c (Z.to_nat requested) sigs.
Proof.
  intros Hs Hc Hr. unfold suppressPreCursorSequenceCarryover, sortSignatureInfosBySequenceThenHash.
  rewrite (stable_sort_id _ _ Hs). destruct (c <=? 0) eqn:E; [lia|]. rewrite orb_false_r.
  destruct (requested <=? 0) eqn:E2; [lia|]. clear E E2.
  assert (forall s, s ∈ before c sigs -> sg_Sequence s < c) as H1 by (intros s; unfold before; rewrite list_elem_of_filter; tauto).
  assert (forall s, s ∈ at_cursor c sigs -> sg_Sequence s = c) as H2 by (intros s; unfold at_cursor; rewrite list_elem_of_filter; tauto).
  assert (forall s, s ∈ after c sigs -> c < sg_Sequence s) as H3 by (intros s; unfold after; rewrite list_elem_of_filter; tauto).
  pose proof (sorted_partition c sigs Hs) as Hp. pose proof (sorted_at_cursor c sigs Hs) as Hd.
  unfold carryover. revert H1 H2 H3 Hp Hd.
  generalize (before c sigs) (at_cursor c sigs) (after c sigs). intros l1 l2 l3 H1 H2 H3 -> Hd.
  rewrite (scan_sorted c l1 l2 l3 H1 H2 H3). cbn [missStart hitStart hitEnd]. rewrite !length_app.
  destruct (Z_of_nat_complete requested ltac:(lia)) as [r ->]. rewrite Nat2Z.id.
  destruct l2 as [|s2 l2].
  - destruct l3 as [|s3 l3]; [by destruct ((_ =? 0)%nat)|].
    change (0 <=? -1) with false. cbn [andb]. rewrite app_nil_l.
    rewrite (proj2 (Nat.eqb_neq _ _)) by (cbn; lia). rewrite (proj2 (Z.leb_le 0 _)) by lia.
    cbn [Z.eqb andb length]. rewrite (proj2 (Z.eqb_neq _ 0)) by lia.
    destruct (Nat.leb_spec r (S (length l3))).
    + rewrite (proj2 (Z.leb_le _ _)) by lia. f_equal. apply slice_tail; lia.
    + rewrite (proj2 (Z.leb_gt _ _)) by lia. rewrite (proj2 (Z.leb_le _ _)) by lia.
      rewrite (proj2 (Nat.leb_le _ _)) by (cbn; lia). f_equal. rewrite app_nil_l.
      rewrite (slice_tail _ _ _ _ (S (length l3))) by lia. by apply take_ge.
  - rewrite (proj2 (Nat.eqb_neq _ _)) by (cbn; lia).
    rewrite !leb_0_nat, ltb_nat_0, andb_false_r.
    replace (Z.of_nat (length l1 + length (s2 :: l2)) - Z.of_nat (length l1)) with (Z.of_nat (length (s2 :: l2))) by lia.
    rewrite (proj2 (Z.eqb_neq (Z.of_nat (length (s2 :: l2))) 0)) by (cbn; lia). cbn [andb].
    destruct l3 as [|s3 l3].
    + change (0 <=? -1) with false. change (-1 <? 0) with true. cbv iota. rewrite Z.add_0_l, leb_nat.
      rewrite (proj2 (Z.leb_gt (Z.of_nat r) 0)) by lia. rewrite (proj2 (Nat.leb_gt r (length []))) by (cbn; lia).
      change (length [] + length (s2 :: l2))%nat with (length (s2 :: l2)).
      destruct (length (s2 :: l2) <=? r)%nat; [|done]. rewrite (slice_app_l l1 (s2 :: l2) []) by lia. done.
    + rewrite leb_0_nat, ltb_nat_0.
      replace (Z.of_nat (length l1 + (length (s2 :: l2) + length (s3 :: l3))) - Z.of_nat (length l1 + length (s2 :: l2)))
        with (Z.of_nat (length (s3 :: l3))) by lia.
      rewrite leb_nat, <- (Nat2Z.inj_add (length (s3 :: l3))), leb_nat.
      rewrite (slice_app_l l1 (s2 :: l2) (s3 :: l3) (Z.of_nat (length l1))), Hd by done.
      rewrite (app_assoc l1), (slice_tail _ _ _ _ r), (slice_tail _ _ _ _ (length (s3 :: l3))), (take_ge (s3 :: l3) (length (s3 :: l3)))
        by (rewrite ?length_app; lia).
      destruct (Nat.leb_spec r (length (s3 :: l3))) as [|Hm]; [done|]. destruct (_ <=? r)%nat; [done|]. f_equal.
      rewrite <- Nat2Z.inj_sub by lia. rewrite sort_carried; [done|]. apply StronglySorted_app in Hs. tauto.
Qed.

(** The signatures of a batch are the first of a sorted list that has every usable
    signature above the cursor's sequence. *)
Lemma usable_spec job cursor requested answer out :
  let F := filterAndCanonicalizeSignatures (fj_Chain job) answer (fj_FetchCutoffSeq job) cursor in
  1 <= requested -> usable_signatures job cursor requested answer = Some out ->
  exists L n, out = take n L /\ sublist L F /\ 1 <= Z.of_nat n <= requested /\
    forall x, x ∈ F -> fj_CursorSequence job < sg_Sequence x -> x ∈ L.
Proof.
  intros F Hr. unfold usable_signatures. fold F.
  assert (StronglySorted (cmp_lt signature_order) F) as Hs by (eapply co_sorted, filterAndCanonicalize_spec).
  destruct (Z.leb_spec (fj_CursorSequence job) 0) as [Hc|Hc].
  { unfold suppressPreCursorSequenceCarryover. apply Z.leb_le in Hc as ->. rewrite orb_true_r. intros [= <-].
    exists F, (Z.to_nat requested). do 2 (split; [done|]). split; [lia|done]. }
  rewrite suppress_refines_carryover by done. unfold carryover.
  pose proof (sorted_partition (fj_CursorSequence job) F Hs) as Hp.
  assert (forall x, x ∈ F -> fj_CursorSequence job < sg_Sequence x -> x ∈ after (fj_CursorSequence job) F) as Ha
    by (intros x Hx Hlt; unfold after; by apply list_elem_of_filter).
  assert (forall hits, sublist hits (at_cursor (fj_CursorSequence job) F) ->
            sublist (hits ++ after (fj_CursorSequence job) F) F) as Hsub.
  { intros hits Hh. rewrite Hp at 2. apply sublist_inserts_l. by apply sublist_app. }
  revert Ha Hsub. generalize (at_cursor (fj_CursorSequence job) F) (after (fj_CursorSequence job) F).
  intros hits misses Ha Hsub. destruct hits as [|h hits], misses as [|m misses].
  { intros [= <-]. exists F, (Z.to_nat requested). do 2 (split; [done|]). split; [lia|done]. }
  all: destruct (_ <=? _)%nat; [intros [= <-]|destruct (_ <=? _)%nat; [intros [= <-]|try done; intros [= <-]]].
  all: lazymatch goal with
       | |- context [take _ (take _ ?l)] => exists l; rewrite take_take
       | |- context [take _ ?l] => exists l end.
  all: eexists; split; [reflexivity|]; split; [|split; [simpl length in *; lia|intros x Hx Hl; specialize (Ha x Hx Hl); set_solver]].
  all: first [apply (Hsub []), sublist_nil_l|apply (Hsub (h :: hits)); done|apply Hsub, sublist_drop].
Qed.

Lemma prefix_covers {A} (R : A -> A -> Prop) (L : list A) n x d : StronglySorted R L -> x ∈ L -> take n L <> [] ->
  x ∈ take n L \/ R (List.last (take n L) d) x.
Proof.
  intros Hs Hx Hne. rewrite <- (take_drop n L) in Hs, Hx. apply elem_of_app in Hx as [Hx|Hx]; [by left|right].
  eapply StronglySorted_app_1_elem_of; [exact Hs| |exact Hx].
  destruct (@exists_last _ (take n L) Hne) as (l & y & ->). rewrite last_last. set_solver.
Qed.

(** ** Calls and effects *)

Lemma or_default_pos value default : 1 <= default -> 1 <= or_default value default.
Proof. unfold or_default. destruct (Z.leb_spec value 0); lia. Qed.

Section Effects.
Context {C : Type} `{!Cache C string Z} (E : fetch_env C) (f : fetch_config).

Lemma fbind_inv {A B} (m : FM C A) (k : A -> FM C B) w r w' : fbind m k w = (r, w') ->
  (exists a w1, m w = (Ok a, w1) /\ k a w1 = (r, w')) \/ (exists e, m w = (Err e, w') /\ r = Err e).
Proof. unfold fbind. destruct (m w) as [[a|e] w1]; intros H; [left; eauto|right; exists e]. by simplify_eq. Qed.

Lemma fbind_ok {A B} (m : FM C A) (k : A -> FM C B) w b w' : fbind m k w = (Ok b, w') ->
  exists a w1, m w = (Ok a, w1) /\ k a w1 = (Ok b, w').
Proof. intros [?|(? & _ & ?)]%fbind_inv; done. Qed.

(** A computation that sends nothing. *)
Definition silent {A} (m : FM C A) : Prop := forall w, fw_sent (m w).2 = fw_sent w.

Lemma silent_ret {A} (a : A) : silent (fret a).
Proof. done. Qed.

Lemma silent_throw {A} e : silent (A:=A) (fthrow e).
Proof. done. Qed.

Lemma silent_bind {A B} (m : FM C A) (k : A -> FM C B) : silent m -> (forall a, silent (k a)) -> silent (fbind m k).
Proof.
  intros Hm Hk w. unfold fbind. specialize (Hm w). destruct (m w) as [[a|e] w1]; simpl in *; [|done].
  by rewrite (Hk a).
Qed.

Lemma silent_inv {A B} (m : FM C A) (k : A -> FM C B) w r w' : silent m -> fbind m k w = (r, w') ->
  (exists a w1, m w = (Ok a, w1) /\ fw_sent w1 = fw_sent w /\ k a w1 = (r, w')) \/
  (exists e, r = Err e /\ fw_sent w' = fw_sent w).
Proof.
  intros Hm [(a & w1 & H1 & H2)|(e & H1 & ->)]%fbind_inv; specialize (Hm w); rewrite H1 in Hm; [left|right]; eauto.
Qed.

Lemma silent_tick : silent (tick E).
Proof. done. Qed.

Lemma silent_get : silent (get_shared (C:=C)).
Proof. done. Qed.

Lemma silent_put s : silent (put_shared (C:=C) s).
Proof. done. Qed.
End Effects.

Create HintDb fetch.
#[export] Hint Resolve silent_ret silent_throw silent_tick silent_get silent_put : fetch.

(** A computation built from silent ones with binds and case distinctions. *)
Ltac silent :=
  repeat first
    [ solve [auto with fetch]
    | apply silent_bind; [|intro]
    | progress cbv zeta
    | match goal with
      | |- silent (if ?b then _ else _) => destruct b
      | |- silent (match ?x with _ => _ end) => destruct x
      end ].

Section Silent.
Context {C : Type} `{!Cache C string Z} (E : fetch_env C) (f : fetch_config).

Lemma silent_cache_get key : silent (cache_get E key).
Proof. unfold cache_get. silent. Qed.

Lemma silent_cache_put key size : silent (cache_put E key size).
Proof. unfold cache_put. silent. Qed.

Lemma silent_on_breaker {A} (absent : A) op : silent (on_breaker E absent op).
Proof. unfold on_breaker. silent. Qed.

Lemma silent_rpc {A} job (call : nat -> result go_error A) : silent (rpc E job call).
Proof.
  unfold rpc, recordRPCResult, record_signal. silent. all: try apply silent_on_breaker.
Qed.

Lemma silent_ctx_err : silent (ctx_err E).
Proof. unfold ctx_err. silent. Qed.

Lemma silent_retry_delay attempt : silent (retry_delay E f attempt).
Proof. unfold retry_delay. silent. Qed.

Lemma silent_sleep d : silent (sleep E d).
Proof. unfold sleep. silent. Qed.
End Silent.

#[export] Hint Resolve silent_cache_get silent_cache_put silent_on_breaker silent_rpc silent_ctx_err
  silent_retry_delay silent_sleep : fetch.

Section Retries.
Context {C : Type} `{!Cache C string Z} (E : fetch_env C) (f : fetch_config).

Lemma silent_resolve chain network address hardCap : silent (resolveBatchSize E f chain network address hardCap).
Proof. unfold resolveBatchSize. silent. Qed.

Lemma silent_set chain network address size : silent (setAdaptiveBatchSize E f chain network address size).
Proof. unfold setAdaptiveBatchSize. silent. Qed.

Lemma silent_update chain network address hardCap requested s t n :
  silent (updateAdaptiveBatchSize E f chain network address hardCap requested s t n).
Proof. unfold updateAdaptiveBatchSize. silent; apply silent_set. Qed.

Lemma silent_reducing_retry {A} job stage (call : Z -> nat -> result go_error A) left : forall attempt attempts n,
  silent (reducing_retry E f job stage call left attempt attempts n).
Proof. induction left as [|left IH]; intros attempt attempts n; simpl; silent. Qed.

Lemma silent_plain_retry {A} job prefix (call : nat -> result go_error A) left : forall attempt,
  silent (plain_retry E f job prefix call left attempt).
Proof. induction left as [|left IH]; intros attempt; simpl; silent. Qed.

(** [rpc] gives the answer of the adapter. *)
Lemma rpc_answer {A} job (call : nat -> result go_error A) w r w' :
  rpc E job call w = (Ok r, w') -> exists t, r = call t.
Proof.
  intros (t & w1 & _ & H)%fbind_ok. apply fbind_ok in H as (? & w2 & _ & H). injection H as <- _. by exists t.
Qed.

Lemma min_batch_pos : 1 <= effectiveAdaptiveMinBatch f.
Proof. by apply or_default_pos. Qed.

Lemma reduce_in_range n : 1 <= n -> 1 <= reduceBatchSize f n <= n.
Proof.
  intros Hn. unfold reduceBatchSize. destruct (Z.leb_spec n (effectiveAdaptiveMinBatch f)); [lia|].
  pose proof (Z.quot_le_upper_bound n 2 n). pose proof (Z.quot_pos n 2).
  pose proof min_batch_pos.
  lia.
Qed.

Lemma reduce_le n : reduceBatchSize f n <= n.
Proof.
  destruct (Z.le_gt_cases 1 n) as [|Hn]; [by apply reduce_in_range|]. unfold reduceBatchSize.
  pose proof min_batch_pos. destruct (Z.leb_spec n (effectiveAdaptiveMinBatch f)); lia.
Qed.

(** A loop that succeeds got its answer from the adapter, for the size it reports, which is
    at least one and at most the first. *)
Lemma reducing_retry_answer {A} job stage (call : Z -> nat -> result go_error A) left : forall attempt attempts n w r used w',
  reducing_retry E f job stage call left attempt attempts n w = (Ok (r, used), w') ->
  (1 <= n -> 1 <= used <= n) /\ forall a, r = Ok a -> exists t, call used t = Ok a.
Proof.
  induction left as [|left IH]; intros attempt attempts n w r used w' H; cbn [reducing_retry] in H.
  { injection H as <- <- _. split; [lia|done]. }
  apply fbind_ok in H as (ans & w1 & (t & ->)%rpc_answer & H).
  destruct (call n t) as [a|err] eqn:Ec.
  { injection H as <- <- _. split; [lia|]. intros ? [= <-]. eauto. }
  apply fbind_ok in H as (cancelled & w2 & _ & H). destruct cancelled; [injection H as <- <- _; split; [lia|done]|].
  destruct (negb _); [injection H as <- <- _; split; [lia|done]|].
  destruct left as [|left]; [injection H as <- <- _; split; [lia|done]|]. cbv zeta in H.
  pose proof (reduce_in_range n) as Hr. pose proof (reduce_le n) as Hle.
  replace (if reduceBatchSize f n <? n then reduceBatchSize f n else n) with (reduceBatchSize f n) in H
    by (destruct (Z.ltb_spec (reduceBatchSize f n) n); lia).
  apply fbind_ok in H as (delay & w3 & _ & H). apply fbind_ok in H as (slept & w4 & _ & H).
  destruct slept; [|injection H as <- <- _; split; [lia|done]].
  apply IH in H as [Hu Ha]. split; [lia|done].
Qed.

Lemma plain_retry_answer {A} job prefix (call : nat -> result go_error A) left : forall attempt w a w',
  plain_retry E f job prefix call left attempt w = (Ok a, w') -> (left <> 0)%nat -> exists t x, a = Some x /\ call t = Ok x.
Proof.
  induction left as [|left IH]; intros attempt w a w' H Hl; [done|]. cbn [plain_retry] in H.
  apply fbind_ok in H as (ans & w1 & (t & ->)%rpc_answer & H).
  destruct (call t) as [x|err] eqn:Ec; [injection H as <- _; eauto|].
  destruct left as [|left]; [done|]. destruct (IsTransient _); [|done].
  apply fbind_ok in H as (delay & w2 & _ & H). apply fbind_ok in H as (slept & w3 & _ & H).
  destruct slept; [|done]. by apply IH in H.
Qed.

(** The size resolved for an address, whatever the cache holds. *)
Lemma resolve_range chain network address hardCap w n w' :
  resolveBatchSize E f chain network address hardCap w = (Ok n, w') ->
  1 <= n <= Z.max (Z.max 1 hardCap) (effectiveAdaptiveMinBatch f).
Proof.
  unfold resolveBatchSize. cbv zeta.
  pose proof min_batch_pos.
  replace (if hardCap <=? 0 then 1 else hardCap) with (Z.max 1 hardCap) by (destruct (Z.leb_spec hardCap 0); lia).
  intros (found & w1 & _ & H1)%fbind_ok. destruct found as [size|].
  2: { apply fbind_ok in H1 as (? & ? & _ & [= <- _]). lia. }
  destruct (Z.leb_spec size 0). { apply fbind_ok in H1 as (? & ? & _ & [= <- _]). lia. }
  apply fbind_ok in H1 as (s & w2 & Hs & H1).
  assert (1 <= s <= Z.max 1 hardCap).
  { destruct (Z.ltb_spec (Z.max 1 hardCap) size); [apply fbind_ok in Hs as (? & ? & _ & [= <- _])|injection Hs as <- _]; lia. }
  destruct (Z.ltb_spec s (effectiveAdaptiveMinBatch f));
    [apply fbind_ok in H1 as (? & ? & _ & [= <- _])|injection H1 as <- _]; lia.
Qed.
End Retries.

#[export] Hint Resolve silent_resolve silent_set silent_update silent_reducing_retry silent_plain_retry : fetch.

(** ** A job of one address *)

Abbreviation newest sigs := (List.last sigs {| sg_Hash := ""; sg_Sequence := 0; sg_Time := None |}).

(** What a batch delivers of an answer to its job. *)
Record delivered (f : fetch_config) (job : FetchJob) (answer : list SignatureInfo) (batch : RawBatch) : Prop := {
  dl_nonempty : rb_Signatures batch <> [];
  dl_count : Z.of_nat (length (rb_Signatures batch)) <= Z.max (Z.max 1 (fj_BatchSize job)) (effectiveAdaptiveMinBatch f);
  dl_sorted : StronglySorted (cmp_lt signature_order) (rb_Signatures batch);
  dl_sound : forall x, x ∈ rb_Signatures batch -> exists sig, sig ∈ answer /\
    admitted (fj_Chain job) (fj_FetchCutoffSeq job) (CanonicalizeCursorValue (fj_Chain job) (fj_CursorValue job)) sig = true /\
    x = canonical_signature (fj_Chain job) sig;
  dl_no_skip : forall sig, sig ∈ answer ->
    admitted (fj_Chain job) (fj_FetchCutoffSeq job) (CanonicalizeCursorValue (fj_Chain job) (fj_CursorValue job)) sig = true ->
    fj_CursorSequence job < sg_Sequence sig ->
    exists x, sg_Hash x = CanonicalSignatureIdentity (fj_Chain job) (sg_Hash sig) /\ sg_Sequence sig <= sg_Sequence x /\
      (x ∈ rb_Signatures batch \/ cmp_lt signature_order (newest (rb_Signatures batch)) x);
  dl_cursor : rb_NewCursorValue batch = Some (sg_Hash (newest (rb_Signatures batch))) /\
    rb_NewCursorSequence batch = sg_Sequence (newest (rb_Signatures batch)) /\
    rb_PreviousCursorSequence batch = fj_CursorSequence job
}.

Lemma better_seq x y : better_first x y <> Gt -> sg_Sequence y <= sg_Sequence x.
Proof.
  unfold better_first, lex, on, opposite. destruct (Z.compare_spec (sg_Sequence y) (sg_Sequence x)); [lia|lia|done].
Qed.

Lemma usable_delivered f job requested answer out n raws :
  let cursor := CanonicalizeCursorValue (fj_Chain job) (fj_CursorValue job) in
  1 <= requested <= Z.max (Z.max 1 (fj_BatchSize job)) (effectiveAdaptiveMinBatch f) ->
  usable_signatures job cursor requested answer = Some out -> out <> [] -> (1 <= n <= length out)%nat ->
  delivered f job answer (address_batch job cursor (take n out) raws).
Proof.
  intros cursor Hr Hu Hne Hn.
  destruct (usable_spec job cursor requested answer out ltac:(lia) Hu) as (L & k & -> & Hsub & Hk & Hall).
  pose proof (filterAndCanonicalize_spec (fj_Chain job) answer (fj_FetchCutoffSeq job) cursor) as [Hs Hd Hsound Hc].
  rewrite take_take in *. rewrite length_take in Hn. set (j := (n `min` k)%nat) in *.
  assert (StronglySorted (cmp_lt signature_order) L) as HL by (by eapply StronglySorted_sublist).
  assert (take j L <> []) as Hj.
  { intros Hnil. apply (f_equal length) in Hnil. rewrite length_take in Hnil. simpl in Hnil. lia. }
  split; cbn [address_batch rb_Signatures rb_NewCursorValue rb_NewCursorSequence rb_PreviousCursorSequence].
  - done.
  - rewrite length_take. lia.
  - eapply StronglySorted_sublist; [apply sublist_take|done].
  - intros x Hx%elem_of_take. apply Hsound. destruct Hx as (i & Hi%list_elem_of_lookup_2 & _).
    by eapply elem_of_sublist.
  - intros sig Hsig Hadm Hseq. destruct (Hc sig Hsig Hadm) as (x & Hx & Hh & Hb%better_seq). exists x.
    split; [done|]. split; [done|]. apply prefix_covers; [done| |done]. apply Hall; [done|].
    cbn [canonical_signature sg_Sequence] in Hb. lia.
  - done.
Qed.

Lemma usable_nothing job cursor requested answer sig :
  1 <= requested -> usable_signatures job cursor requested answer = Some [] ->
  sig ∈ answer -> admitted (fj_Chain job) (fj_FetchCutoffSeq job) cursor sig = true ->
  sg_Sequence sig <= fj_CursorSequence job.
Proof.
  intros Hr Hu Hsig Hadm. destruct (usable_spec job cursor requested answer [] Hr Hu) as (L & k & Hnil & _ & Hk & Hall).
  destruct (filterAndCanonicalize_spec (fj_Chain job) answer (fj_FetchCutoffSeq job) cursor) as [_ _ _ Hc].
  destruct (Hc sig Hsig Hadm) as (x & Hx & _ & Hb%better_seq). cbn [canonical_signature sg_Sequence] in Hb.
  destruct (Z.le_gt_cases (sg_Sequence x) (fj_CursorSequence job)) as [|Hgt]; [lia|].
  specialize (Hall x Hx ltac:(lia)). destruct L as [|y L]; [set_solver|]. by destruct k as [|k]; [lia|].
Qed.

Section Address.
Context {C : Type} `{!Cache C string Z} (E : fetch_env C) (f : fetch_config).

Lemma set_total chain network address size w :
  exists w', setAdaptiveBatchSize E f chain network address size w = (Ok tt, w').
Proof. unfold setAdaptiveBatchSize. destruct (size <=? 0); eexists; reflexivity. Qed.

Lemma update_total chain network address hardCap requested s t n w :
  exists w', updateAdaptiveBatchSize E f chain network address hardCap requested s t n w = (Ok tt, w').
Proof.
  unfold updateAdaptiveBatchSize. cbv zeta. destruct (_ <=? 0); [by eexists|]. destruct (_ <? requested); [apply set_total|].
  destruct (_ && _); [apply set_total|by eexists].
Qed.

Lemma send_inv {B} batch (k : unit -> FM C B) w r w' : fbind (send E batch) k w = (r, w') ->
  (exists w1, fw_sent w1 = fw_sent w ++ [batch] /\ k tt w1 = (r, w')) \/
  (exists e, r = Err e /\ fw_sent w' = fw_sent w).
Proof.
  unfold send, fbind, tick. destruct (fe_send E (fw_tick w)); simpl; intros H; [left|right].
  - eexists. split; [|exact H]. done.
  - injection H as <- <-. by eexists.
Qed.

(** What a job of one address does: it fails and sends nothing, or it had an answer of the
    adapter and sent a batch of it, or found nothing new in it. *)
Definition address_outcome (job : FetchJob) (w : fworld C) (r : result failure unit) (w' : fworld C) : Prop :=
  (is_ok r = false /\ fw_sent w' = fw_sent w) \/
  (r = Ok tt /\ exists t size answer,
     fetchNewSignatures E (fetch_address job) (CanonicalizeCursorValue (fj_Chain job) (fj_CursorValue job))
       (fj_FetchCutoffSeq job) size t = Ok answer /\
     ((fw_sent w' = fw_sent w /\ forall sig, sig ∈ answer ->
         admitted (fj_Chain job) (fj_FetchCutoffSeq job) (CanonicalizeCursorValue (fj_Chain job) (fj_CursorValue job)) sig = true ->
         sg_Sequence sig <= fj_CursorSequence job) \/
      (exists batch t', fw_sent w' = fw_sent w ++ [batch] /\ delivered f job answer batch /\
         ad_FetchTransactions (fe_adapter E) t' (sg_Hash <$> rb_Signatures batch) = Ok (rb_RawTransactions batch)))).

Lemma processAddressJob_outcome job w r w' : processAddressJob E f job w = (r, w') -> address_outcome job w r w'.
Proof.
  unfold processAddressJob. cbv zeta.
  assert (forall w1 e, fw_sent w1 = fw_sent w -> address_outcome job w (Err e) w1) as Hfail by (intros; by left).
  intros [(requested & w1 & Hreq & S1 & H)|(e & -> & ?)]%silent_inv; [|by apply Hfail|auto with fetch].
  apply resolve_range in Hreq. apply silent_inv in H as [([r1 size] & w2 & Hsigs & S2 & H)|(e & -> & S2)];
    [|apply Hfail; congruence|unfold fetchSignaturesWithRetry, with_retry; auto with fetch].
  apply reducing_retry_answer in Hsigs as [_ Hans].
  destruct r1 as [answer|err].
  2: { apply silent_inv in H as [(? & w3 & _ & S3 & [= <- <-])|(e & -> & S3)]; [apply Hfail; congruence..|auto with fetch]. }
  destruct (Hans answer eq_refl) as [t Ht]. clear Hans.
  destruct answer as [|sig0 rest]; [injection H as <- <-|].
  { right. split; [done|]. exists t, size, []. split; [done|]. left. split; [congruence|set_solver]. }
  set (answer := sig0 :: rest) in *.
  destruct (usable_signatures job _ requested answer) as [[|u us]|] eqn:Hu.
  - injection H as <- <-. right. split; [done|]. exists t, size, answer. split; [done|]. left. split; [congruence|].
    intros sig Hsig Hadm. eapply usable_nothing; [|exact Hu|exact Hsig|exact Hadm]. lia.
  - set (out := u :: us) in *.
    apply silent_inv in H as [([r2 txSize] & w3 & Htxs & S3 & H)|(e & -> & S3)]; [|apply Hfail; congruence|].
    2: { unfold fetchTransactionsWithRetry, with_retry. silent. }
    apply fbind_ok in Htxs as ([r3 used] & w4 & Htxs & Hret).
    apply reducing_retry_answer in Htxs as [Hrange Hraws].
    destruct r3 as [raws|err]; injection Hret as <- <- <-.
    2: { apply silent_inv in H as [(? & w5 & _ & S5 & [= <- <-])|(e & -> & S5)]; [apply Hfail; congruence..|auto with fetch]. }
    destruct (Hraws raws eq_refl) as [t' Ht']. clear Hraws.
    apply send_inv in H as [(w5 & S5 & H)|(e & -> & S5)]; [|apply Hfail; congruence].
    edestruct update_total as [w6 H6]. pose proof H6 as H7. rewrite H in H7. injection H7 as -> ->.
    assert (fw_sent w6 = fw_sent w5) as S6.
    { pose proof (f_equal (fun x => fw_sent x.2) H6) as HH. rewrite silent_update in HH. by symmetry. }
    right. split; [done|]. exists t, size, answer. split; [done|]. right.
    exists (address_batch job (CanonicalizeCursorValue (fj_Chain job) (fj_CursorValue job)) (selected out used) raws), t'.
    split; [congruence|]. split; [|done].
    unfold selected. eapply usable_delivered; [exact Hreq|exact Hu|done|]. simpl length in *. lia.
  - injection H as <- <-. apply Hfail. congruence.
Qed.
End Address.

Lemma processJob_inv {C} `{!Cache C string Z} E f job (w : fworld C) r w' : processJob E f job w = (r, w') ->
  (exists e, r = Err e /\ fw_sent w' = fw_sent w) \/
  (exists w1, fw_sent w1 = fw_sent w /\
     (if fj_BlockScanMode job then processBlockScanJob E f job else processAddressJob E f job) w1 = (r, w')).
Proof.
  unfold processJob. intros [(rejected & w1 & _ & S1 & H)|(e & -> & S1)]%silent_inv; [|by left; eauto|auto with fetch].
  destruct rejected as [cbErr|]; [left|right; by eauto]. injection H as <- <-. by eauto.
Qed.


(** ** Signatures at the cursor's own sequence *)

Lemma after_none c sigs : (forall s, s ∈ sigs -> sg_Sequence s = c) -> after c sigs = [] /\ at_cursor c sigs = sigs.
Proof.
  intros Hs. split; [apply filter_none; intros s Hin; rewrite (Hs s Hin); lia|]. apply filter_all. exact Hs.
Qed.

Lemma admitted_count chain ok sigs out : canonical_of chain ok sigs out ->
  NoDup ((fun s => CanonicalSignatureIdentity chain (sg_Hash s)) <$> sigs) -> (forall s, s ∈ sigs -> ok s = true) ->
  (length sigs <= length out)%nat.
Proof.
  intros [_ _ _ Hc] Hnd Hok.
  rewrite <- (length_fmap (fun s => CanonicalSignatureIdentity chain (sg_Hash s)) sigs), <- (length_fmap sg_Hash out).
  apply submseteq_length, NoDup_submseteq; [done|]. intros k (s & -> & Hs)%list_elem_of_fmap.
  destruct (Hc s Hs (Hok s Hs)) as (x & Hx & Hh & _). rewrite <- Hh. by apply list_elem_of_fmap_2.
Qed.

(** More admissible signatures than requested, all at the cursor's sequence: the slice is
    out of range. *)
Lemma usable_panics job cursor requested answer :
  1 <= requested < Z.of_nat (length answer) -> 0 < fj_CursorSequence job ->
  NoDup ((fun s => CanonicalSignatureIdentity (fj_Chain job) (sg_Hash s)) <$> answer) ->
  (forall s, s ∈ answer -> admitted (fj_Chain job) (fj_FetchCutoffSeq job) cursor s = true /\
                           sg_Sequence s = fj_CursorSequence job) ->
  usable_signatures job cursor requested answer = None.
Proof.
  intros Hr Hc Hnd Ha. unfold usable_signatures.
  pose proof (filterAndCanonicalize_spec (fj_Chain job) answer (fj_FetchCutoffSeq job) cursor) as HF.
  set (F := filterAndCanonicalizeSignatures _ _ _ _) in *.
  rewrite suppress_refines_carryover by (try apply (co_sorted _ _ _ _ HF); lia). unfold carryover.
  assert (length answer <= length F)%nat as Hl by (eapply admitted_count; [exact HF|done|]; intros s Hs; by apply Ha).
  destruct (after_none (fj_CursorSequence job) F) as [-> ->].
  { intros x (sig & Hs & _ & ->)%(co_sound _ _ _ _ HF). exact (proj2 (Ha sig Hs)). }
  destruct F as [|x F]; [simpl in Hl; lia|].
  rewrite (proj2 (Nat.leb_gt _ _)) by (simpl; lia). rewrite (proj2 (Nat.leb_gt _ _)) by (simpl in *; lia). done.
Qed.

Section Panics.
Context {C : Type} `{!Cache C string Z} (E : fetch_env C) (f : fetch_config).

Lemma with_retry_first {A} job stage (call : Z -> nat -> result go_error A) n w r w' :
  (forall t, is_ok (call n t) = true) -> with_retry E f job stage call n w = (r, w') ->
  exists t a, call n t = Ok a /\ r = Ok (Ok a, n).
Proof.
  intros Hok. unfold with_retry. cbv zeta.
  pose proof (or_default_pos (f_retryMaxAttempts f) defaultRetryMaxAttempts ltac:(done)) as Hpos.
  fold (effectiveRetryMaxAttempts f) in Hpos.
  destruct (Z.to_nat (effectiveRetryMaxAttempts f)) as [|left] eqn:El; [lia|]. cbn [reducing_retry].
  intros [(ans & w1 & (t & ->)%rpc_answer & H1)|(e & H1 & ->)]%fbind_inv.
  - specialize (Hok t). destruct (call n t) as [a|] eqn:Ec; [|done]. injection H1 as <- _. by exists t, a.
  - exfalso. revert H1. unfold rpc, recordRPCResult, record_signal, on_breaker, fbind, tick, get_shared, put_shared, fret.
    simpl. destruct (sh_circuitBreaker _); done.
Qed.

(** Also: an address with more transactions in the cursor's block than the batch size stops
    the fetcher for ever.  When the adapter lists the signatures that are left in that
    block, one lookahead more than requested as the fetcher asks, the job panics whatever
    the state of the fetcher, the worker stops, and nothing is sent: a restart from the
    same cursor does the same. *)
Theorem crowded_block_panics job slot workerID jobs w :
  let cursor := CanonicalizeCursorValue (fj_Chain job) (fj_CursorValue job) in
  let most := Z.max (Z.max 1 (fj_BatchSize job)) (effectiveAdaptiveMinBatch f) in
  fj_BlockScanMode job = false -> cursor <> None -> 0 < fj_CursorSequence job ->
  most + effectiveBoundaryOverlapLookahead f <= max_int64 -> most < Z.of_nat (length slot) ->
  NoDup ((fun s => CanonicalSignatureIdentity (fj_Chain job) (sg_Hash s)) <$> slot) ->
  (forall s, s ∈ slot -> admitted (fj_Chain job) (fj_FetchCutoffSeq job) cursor s = true /\
                         sg_Sequence s = fj_CursorSequence job) ->
  (forall t n, fetchNewSignatures E (fetch_address job) cursor (fj_FetchCutoffSeq job) n t =
               Ok (take (Z.to_nat n) slot)) ->
  exists err w', worker E f workerID (job :: jobs) w = (Some err, w') /\ fw_sent w' = fw_sent w.
Proof.
  intros cursor most Hmode Hcur Hc Hfit Hmost Hnd Hslot Hans. simpl.
  destruct (processJob E f job w) as [r w'] eqn:Hj.
  assert (exists e, r = Err e /\ fw_sent w' = fw_sent w) as (e & -> & Hsent); [|destruct e; by eexists _, _].
  apply processJob_inv in Hj as [|(w1 & S1 & Hj)]; [done|]. rewrite Hmode in Hj. rewrite <- S1. clear w S1.
  unfold processAddressJob in Hj. cbv zeta in Hj. fold cursor in Hj.
  apply silent_inv in Hj as [(requested & w2 & Hreq & <- & Hj)|?]; [|done|auto with fetch].
  apply resolve_range in Hreq. fold most in Hreq.
  assert (signature_batch f cursor requested = requested + effectiveBoundaryOverlapLookahead f) as Hb.
  { destruct cursor; [|done]. apply wrap64_id. pose proof (or_default_pos (f_boundaryOverlapLookahead f) 1 ltac:(lia)).
    unfold in_int64, min_int64, effectiveBoundaryOverlapLookahead, boundaryOverlapLookahead in *. lia. }
  rewrite Hb in Hj. set (n := requested + effectiveBoundaryOverlapLookahead f) in *.
  assert (requested < n) as Hn by (pose proof (or_default_pos (f_boundaryOverlapLookahead f) 1 ltac:(lia));
    unfold n, effectiveBoundaryOverlapLookahead, boundaryOverlapLookahead in *; lia).
  apply silent_inv in Hj as [([r1 size] & w3 & Hs & <- & Hj)|?]; [|done|unfold fetchSignaturesWithRetry, with_retry; auto with fetch].
  apply with_retry_first in Hs as (t & a & Ha & Hra); [|intros t; by rewrite Hans].
  rewrite Hans in Ha. injection Ha as <-. injection Hra as -> ->.
  rewrite (usable_panics job cursor requested (take (Z.to_nat n) slot)) in Hj; [|rewrite length_take; lia|done| |].
  - assert (length (take (Z.to_nat n) slot) <> 0)%nat as Hl by (rewrite length_take; lia).
    destruct (take (Z.to_nat n) slot); [done|]. injection Hj as <- <-. by eexists.
  - rewrite fmap_take. eapply sublist_NoDup; [exact Hnd|apply sublist_take].
  - intros s Hin. apply Hslot. eapply elem_of_sublist; [exact Hin|apply sublist_take].
Qed.
End Panics.

(** Signatures below the cursor's sequence are never used when there is one at or above. *)
Lemma usable_above job cursor requested answer out y :
  let F := filterAndCanonicalizeSignatures (fj_Chain job) answer (fj_FetchCutoffSeq job) cursor in
  1 <= requested -> 0 < fj_CursorSequence job -> y ∈ F -> fj_CursorSequence job <= sg_Sequence y ->
  usable_signatures job cursor requested answer = Some out ->
  forall x, x ∈ out -> fj_CursorSequence job <= sg_Sequence x.
Proof.
  intros F Hr Hc Hy Hle. unfold usable_signatures. fold F.
  pose proof (filterAndCanonicalize_spec (fj_Chain job) answer (fj_FetchCutoffSeq job) cursor) as [Hs _ _ _]. fold F in Hs.
  rewrite suppress_refines_carryover by done. unfold carryover. set (c := fj_CursorSequence job) in *.
  assert (y ∈ at_cursor c F ++ after c F) as Hin.
  { apply elem_of_app. unfold at_cursor, after. rewrite !list_elem_of_filter.
    destruct (Z.eq_dec (sg_Sequence y) c); [left|right]; split; [done..|lia|done]. }
  assert (forall x, x ∈ at_cursor c F ++ after c F -> c <= sg_Sequence x) as Hge.
  { intros x. rewrite elem_of_app. unfold at_cursor, after. rewrite !list_elem_of_filter. lia. }
  revert Hin Hge. generalize (at_cursor c F) (after c F). intros hits misses Hin Hge.
  assert (forall x n, x ∈ drop n hits ++ misses -> x ∈ hits ++ misses) as Hdrop.
  { intros x n. rewrite !elem_of_app. intros [Hx|]; [left|by right]. eapply elem_of_sublist; [exact Hx|apply sublist_drop]. }
  destruct hits as [|h hits], misses as [|m misses]; [set_solver|..].
  all: destruct (_ <=? _)%nat; [|destruct (_ <=? _)%nat]; intros [= <-] x Hx; apply Hge.
  all: repeat (eapply elem_of_sublist in Hx; [|apply sublist_take]).
  all: first [exact Hx|apply elem_of_app; by right|eapply Hdrop, Hx].
Qed.

(** Also: the rest of the cursor's block is dropped when later blocks fill the batch.  A
    signature at the cursor's sequence is not in the batch as soon as the answer has as many
    admissible ones above as requested; every signature of the batch, and so the new cursor,
    is above it; and no job from a higher cursor takes it, unless it is all there is. *)
Theorem block_remainder_dropped job cursor requested answer out x :
  let F := filterAndCanonicalizeSignatures (fj_Chain job) answer (fj_FetchCutoffSeq job) cursor in
  1 <= requested <= Z.of_nat (length (after (fj_CursorSequence job) F)) -> 0 < fj_CursorSequence job ->
  usable_signatures job cursor requested answer = Some out ->
  x ∈ F -> sg_Sequence x = fj_CursorSequence job ->
  (x ∉ out) /\ out <> [] /\ (forall y, y ∈ out -> sg_Sequence x < sg_Sequence y) /\
  forall job' cursor' requested' answer' out' y,
    fj_CursorSequence job < fj_CursorSequence job' -> 1 <= requested' ->
    y ∈ filterAndCanonicalizeSignatures (fj_Chain job') answer' (fj_FetchCutoffSeq job') cursor' ->
    fj_CursorSequence job' <= sg_Sequence y ->
    usable_signatures job' cursor' requested' answer' = Some out' -> x ∉ out'.
Proof.
  intros F Hr Hc Hu Hx Hseq.
  assert (out <> [] /\ forall y, y ∈ out -> fj_CursorSequence job < sg_Sequence y) as [Hne Hout].
  { revert Hu. unfold usable_signatures. fold F.
    pose proof (filterAndCanonicalize_spec (fj_Chain job) answer (fj_FetchCutoffSeq job) cursor) as [Hs _ _ _]. fold F in Hs.
    rewrite suppress_refines_carryover by (done || lia). unfold carryover. set (c := fj_CursorSequence job) in *.
    assert (forall y, y ∈ after c F -> c < sg_Sequence y) as Hlt by (intros y; unfold after; rewrite list_elem_of_filter; tauto).
    revert Hr Hlt. generalize (after c F) (at_cursor c F). intros misses hits Hr Hlt.
    destruct misses as [|m misses]; [simpl in Hr; lia|]. rewrite (proj2 (Nat.leb_le _ _)) by (simpl in *; lia).
    assert (Some (take (Z.to_nat requested) (take (Z.to_nat requested) (m :: misses))) = Some out ->
            out <> [] /\ forall y, y ∈ out -> c < sg_Sequence y); [|by destruct hits].
    intros [= <-]. split; [by destruct (Z.to_nat requested) eqn:Ez; [lia|]|].
    intros y Hy. apply Hlt. by repeat (eapply elem_of_sublist in Hy; [|apply sublist_take]). }
  rewrite Hseq. split; [|split; [done|split; [done|]]].
  - intros Hin. specialize (Hout x Hin). lia.
  - intros job' cursor' requested' answer' out' y Hlt Hr' Hy Hle Hu' Hin.
    pose proof (usable_above job' cursor' requested' answer' out' y Hr' ltac:(lia) Hy Hle Hu' x Hin). lia.
Qed.

(** ** A sample fetcher *)

Definition sample_signature (hash : string) (seq : Z) : SignatureInfo :=
  {| sg_Hash := hash; sg_Sequence := seq; sg_Time := None |}.

(** An adapter that lists [sigs] after any cursor and in any range, and has a transaction
    for every signature. *)
Definition sample_adapter (sigs : list SignatureInfo) : ChainAdapter :=
  {| ad_FetchNewSignatures := fun _ _ _ n => Ok (take (Z.to_nat n) sigs);
     ad_FetchNewSignaturesWithCutoff := None;
     ad_ScanBlocks := Some (fun _ _ _ _ => Ok sigs);
     ad_FetchTransactions := fun _ hashes => Ok ((fun _ => "{}"%string) <$> hashes) |}.

Definition sample_fetch_env (sigs : list SignatureInfo) : fetch_env (LRU string Z) :=
  {| fe_adapter := sample_adapter sigs; fe_now := fun _ => 0; fe_rand := fun _ n => n - 1;
     fe_ctxErr := fun _ => None; fe_sleep := fun _ _ => Ok tt; fe_send := fun _ => Ok tt; fe_others := fun _ s => s |}.

Definition sample_job (scan : bool) : FetchJob :=
  {| fj_Chain := "solana"; fj_Network := "mainnet"; fj_Address := "alice"; fj_CursorValue := Some "s0"%string;
     fj_CursorSequence := 5; fj_FetchCutoffSeq := 0; fj_BatchSize := 2; fj_WalletID := None; fj_OrgID := None;
     fj_BlockScanMode := scan; fj_StartBlock := 5; fj_EndBlock := 7; fj_WatchedAddresses := ["alice"%string] |}.

Definition sample_fworld (f : fetch_config) : fworld (LRU string Z) :=
  {| fw_shared := start_shared f None; fw_sent := []; fw_tick := 0 |}.


Definition sample_block : list SignatureInfo :=
  [sample_signature "s1" 5; sample_signature "s2" 5; sample_signature "s3" 5].

Lemma crowded_block_panics_witness :
  exists err w', worker (sample_fetch_env sample_block) (New 1 []) 0 [sample_job false] (sample_fworld (New 1 [])) =
    (Some err, w') /\ fw_sent w' = [].
Proof.
  apply (crowded_block_panics (sample_fetch_env sample_block) (New 1 []) (sample_job false) sample_block 0 []
    (sample_fworld (New 1 []))).
  - reflexivity.
  - discriminate.
  - reflexivity.
  - vm_compute. discriminate.
  - vm_compute. reflexivity.
  - vm_compute. apply (bool_decide_unpack _). vm_compute. reflexivity.
  - intros s Hs. repeat (apply elem_of_cons in Hs as [->|Hs]; [split; vm_compute; reflexivity|]). inversion Hs.
  - reflexivity.
Defined.

Lemma block_remainder_dropped_witness :
  let answer := [sample_signature "s1" 5; sample_signature "s2" 6; sample_signature "s3" 7] in
  exists out, usable_signatures (sample_job false) (Some "s0"%string) 2 answer = Some out /\
    (sample_signature "s1" 5 ∉ out) /\ sg_Hash <$> out = ["s2"; "s3"]%string.
Proof.
  eexists. split; [vm_compute; reflexivity|]. split; [|reflexivity].
  refine (proj1 (block_remainder_dropped (sample_job false) (Some "s0"%string) 2
    [sample_signature "s1" 5; sample_signature "s2" 6; sample_signature "s3" 7] _ _ _ _ _ _ _)).
  - vm_compute. split; discriminate.
  - reflexivity.
  - vm_compute. reflexivity.
  - vm_compute. left.
  - reflexivity.
Defined.

Lemma single_pass_equiv_witness :
  filterAndCanonicalizeSignatures "ethereum" [sample_signature "0xAB" 6; sample_signature "ab" 7; sample_signature "cd" 9] 8 None =
  canonicalizeSignatures "ethereum" (suppressBoundaryCursorSignatures "ethereum"
    (filter (fun s => within_cutoff 8 s = true)
      [sample_signature "cd" 9; sample_signature "ab" 7; sample_signature "0xAB" 6]) None).
Proof.
  apply (single_pass_equiv "ethereum" [sample_signature "0xAB" 6; sample_signature "ab" 7; sample_signature "cd" 9]
    [sample_signature "cd" 9; sample_signature "ab" 7; sample_signature "0xAB" 6] 8 None).
  intros sig. rewrite !elem_of_cons. tauto.
Defined.

Lemma suppress_refines_carryover_witness :
  suppressPreCursorSequenceCarryover sample_block 5 2 = carryover 5 2 sample_block /\ carryover 5 2 sample_block = None.
Proof.
  split; [|vm_compute; reflexivity]. apply (suppress_refines_carryover 5 2 sample_block); [|lia|lia].
  vm_compute. repeat constructor.
Defined.
