(* ===== verification/FetcherScan.v ===== *)
(** * Fetcher: properties of block scans

    A scanned range is sent as sub-batches.  Their signatures are the canonical ones of the
    range, in order; until the last one is sent nothing the fetcher sends moves the cursor.
    The normalizer does not keep that promise: it moves the cursor of every sub-batch. *)

From Stdlib Require Import ZArith String Lia.
From stdpp Require Import base option list strings gmap sorting.
From S2P Require Import Prelude Ordering Retry Domain Identity Cache Breaker NormalizerRules NormalizerEvents NormalizerProofs NormalizerDecode CoverageProofs Normalizer NormalizerBatch RuntimeSignals Coordinator FetcherRules Fetcher FetcherProofs.

Open Scope Z_scope.

(** ** Chunks *)

Section Chunks.
Context (sigs : list SignatureInfo) (maxBatch : Z).
Context (Hmax : 1 <= maxBatch) (Hfit : Z.of_nat (length sigs) + maxBatch <= max_int64).

Abbreviation total := (Z.of_nat (length sigs)).

Lemma chunk_count_bounds : sigs <> [] ->
  let count := chunk_count total maxBatch in
  1 <= count /\ (count - 1) * maxBatch < total <= count * maxBatch.
Proof.
  intros Hne. cbv zeta. unfold chunk_count. assert (0 < total) by (destruct sigs; [done|simpl; lia]).
  unfold max_int64 in Hfit. rewrite (wrap64_id (total + maxBatch)), (wrap64_id (total + maxBatch - 1))
    by (unfold in_int64, min_int64, max_int64; lia).
  rewrite Z.quot_div_nonneg by lia.
  pose proof (Z.div_mod (total + maxBatch - 1) maxBatch ltac:(lia)).
  pose proof (Z.mod_pos_bound (total + maxBatch - 1) maxBatch ltac:(lia)). nia.
Qed.

Lemma chunk_signatures_eq i : 0 <= i -> i * maxBatch < total ->
  chunk_signatures sigs maxBatch i = take (Z.to_nat maxBatch) (drop (Z.to_nat (i * maxBatch)) sigs).
Proof.
  intros Hi Ht. unfold chunk_signatures, max_int64 in *. cbv zeta.
  rewrite (wrap64_id (i * maxBatch)), (wrap64_id (i * maxBatch + maxBatch))
    by (unfold in_int64, min_int64, max_int64; nia).
  unfold slice. destruct (Z.ltb_spec total (i * maxBatch + maxBatch)); [|f_equal; lia].
  rewrite !take_ge; [done| |]; rewrite length_drop; lia.
Qed.

Lemma concat_chunks (chunks : list (list SignatureInfo)) :
  (forall i c, chunks !! i = Some c -> c = take (Z.to_nat maxBatch) (drop (i * Z.to_nat maxBatch) sigs)) ->
  concat chunks = take (length chunks * Z.to_nat maxBatch) sigs.
Proof.
  induction chunks as [|c chunks IH] using rev_ind; intros Hc; [done|].
  rewrite concat_app, length_app, IH.
  - simpl. rewrite app_nil_r, (Hc (length chunks) c) by (by rewrite list_lookup_middle).
    rewrite Nat.mul_add_distr_r, Nat.mul_1_l. apply take_take_drop.
  - intros i c' Hi. apply Hc. by apply lookup_app_l_Some.
Qed.
End Chunks.

(** ** The run of a job *)

(** A sub-batch that does not move the cursor. *)
Definition held (job : FetchJob) (batch : RawBatch) : Prop :=
  rb_NewCursorValue batch = None /\ rb_NewCursorSequence batch = wrap64 (fj_StartBlock job - 1).

Section Scan.
Context {C : Type} `{!Cache C string Z} (E : fetch_env C) (f : fetch_config).

Lemma scan_call_answer {A} job prefix (call : nat -> result go_error (list A)) w a w' :
  scan_call E f job prefix call w = (Ok a, w') -> exists t, call t = Ok a.
Proof.
  intros (o & w1 & H & [= <- _])%fbind_ok.
  pose proof (or_default_pos (f_retryMaxAttempts f) defaultRetryMaxAttempts ltac:(done)) as Hpos.
  fold (effectiveRetryMaxAttempts f) in Hpos.
  apply plain_retry_answer in H as (t & x & -> & Ht); [by exists t|lia].
Qed.

Lemma silent_scan_call {A} job prefix (call : nat -> result go_error (list A)) : silent (scan_call E f job prefix call).
Proof. unfold scan_call. silent. Qed.

Lemma process_chunk_run job sigs maxBatch chunkCount idx w r w' :
  process_chunk E f job sigs maxBatch chunkCount idx w = (r, w') ->
  (exists t raws, r = Ok tt /\ fw_sent w' = fw_sent w ++ [chunk_batch job sigs maxBatch chunkCount idx raws] /\
     ad_FetchTransactions (fe_adapter E) t (sg_Hash <$> chunk_signatures sigs maxBatch idx) = Ok raws) \/
  (exists e, r = Err e /\ fw_sent w' = fw_sent w).
Proof.
  unfold process_chunk. intros [(raws & w1 & H1 & S1 & H)|(e & -> & S1)]%silent_inv; [|by right; eauto|apply silent_scan_call].
  apply scan_call_answer in H1 as [t Ht]. revert H. unfold send, fbind, tick.
  destruct (fe_send E (fw_tick w1)); intros [= <- <-]; simpl; rewrite S1; [left|right]; eauto.
Qed.

Lemma process_chunks_run job sigs maxBatch chunkCount left : forall idx w r w',
  process_chunks E f job sigs maxBatch chunkCount left idx w = (r, w') ->
  exists batches, fw_sent w' = fw_sent w ++ batches /\
    (if is_ok r then length batches = left else (length batches < left)%nat) /\
    forall i b, batches !! i = Some b -> exists t raws,
      b = chunk_batch job sigs maxBatch chunkCount (idx + Z.of_nat i) raws /\
      ad_FetchTransactions (fe_adapter E) t (sg_Hash <$> rb_Signatures b) = Ok raws.
Proof.
  induction left as [|left IH]; intros idx w r w'; cbn [process_chunks].
  { intros [= <- <-]. exists []. by rewrite app_nil_r. }
  intros [([] & w1 & H1 & H2)|(e & H1 & ->)]%fbind_inv;
    apply process_chunk_run in H1 as [(t & raws & Hr & S1 & Ht)|(e' & Hr & S1)]; try done.
  - apply IH in H2 as (batches & Hsent & Hlen & Hall). exists (chunk_batch job sigs maxBatch chunkCount idx raws :: batches).
    split; [by rewrite Hsent, S1, <- app_assoc|]. split; [destruct (is_ok r); simpl; lia|].
    intros [|i] b Hb; simpl in Hb.
    + injection Hb as <-. exists t, raws. by rewrite Z.add_0_r.
    + destruct (Hall i b Hb) as (t' & raws' & -> & Ht'). exists t', raws'. split; [f_equal; lia|done].
  - exists []. rewrite app_nil_r. split; [done|]. split; [simpl; lia|done].
Qed.

(** What every batch of a job carries. *)
Definition batch_of_job (job : FetchJob) (batch : RawBatch) : Prop :=
  rb_Chain batch = fj_Chain job /\ rb_Network batch = fj_Network job /\ rb_BlockScanMode batch = true /\
  rb_WatchedAddresses batch = fj_WatchedAddresses job.

(** The cursor is at [x], and every other signature comes before it. *)
Definition cursor_at_last (sigs : list SignatureInfo) (batch : RawBatch) : Prop :=
  exists x, x ∈ sigs /\ (forall y, y ∈ sigs -> y = x \/ cmp_lt signature_order y x) /\
    rb_NewCursorValue batch = Some (sg_Hash x) /\ rb_NewCursorSequence batch = sg_Sequence x.

(** What a block-scan job sends, of the signatures [sigs] that stand for those found. *)
Definition scan_outcome (job : FetchJob) (w : fworld C) (r : result failure unit) (w' : fworld C) : Prop :=
  (is_ok r = false /\ fw_sent w' = fw_sent w) \/
  exists scan t found sigs, ad_ScanBlocks (fe_adapter E) = Some scan /\
    scan t (fj_StartBlock job) (fj_EndBlock job) (fj_WatchedAddresses job) = Ok found /\
    canonical_of (fj_Chain job) (has_identity (fj_Chain job)) found sigs /\
    ((sigs = [] /\ r = Ok tt /\ exists batch, fw_sent w' = fw_sent w ++ [batch] /\ batch_of_job job batch /\
        rb_Signatures batch = [] /\ rb_RawTransactions batch = [] /\
        rb_NewCursorValue batch = None /\ rb_NewCursorSequence batch = fj_EndBlock job) \/
     (sigs <> [] /\ exists batches, fw_sent w' = fw_sent w ++ batches /\
       concat (rb_Signatures <$> batches) = take (length batches * Z.to_nat (effectiveBlockScanMaxBatchTxs f)) sigs /\
       (forall b, b ∈ batches -> batch_of_job job b /\ rb_Signatures b <> [] /\
          Z.of_nat (length (rb_Signatures b)) <= effectiveBlockScanMaxBatchTxs f /\
          exists t, ad_FetchTransactions (fe_adapter E) t (sg_Hash <$> rb_Signatures b) = Ok (rb_RawTransactions b)) /\
       (is_ok r = false -> forall b, b ∈ batches -> held job b) /\
       (r = Ok tt -> concat (rb_Signatures <$> batches) = sigs /\
          exists init final, batches = init ++ [final] /\ (forall b, b ∈ init -> held job b) /\
            cursor_at_last sigs final))).

Lemma newest_last sigs : StronglySorted (cmp_lt signature_order) sigs -> sigs <> [] ->
  newest sigs ∈ sigs /\ forall y, y ∈ sigs -> y = newest sigs \/ cmp_lt signature_order y (newest sigs).
Proof.
  intros Hs Hne. set (d := {| sg_Hash := ""; sg_Sequence := 0; sg_Time := None |}).
  destruct (@exists_last _ sigs Hne) as (l & x & ->). rewrite List.last_last. split; [set_solver|].
  intros y [Hy|Hy%list_elem_of_singleton]%elem_of_app; [right|by left].
  eapply StronglySorted_app_1_elem_of; [exact Hs|exact Hy|set_solver].
Qed.

Lemma chunk_batch_held job sigs maxBatch chunkCount idx raws : idx <> chunkCount - 1 ->
  held job (chunk_batch job sigs maxBatch chunkCount idx raws).
Proof. intros Hi. unfold held, chunk_batch. simpl. by apply Z.eqb_neq in Hi as ->. Qed.

(** Batches that are the first chunks, in order. *)
Section Sent.
Context (job : FetchJob) (sigs : list SignatureInfo) (maxBatch : Z) (batches : list RawBatch).
Abbreviation count := (chunk_count (Z.of_nat (length sigs)) maxBatch).
Context (Hmax : 1 <= maxBatch) (Hfit : Z.of_nat (length sigs) + maxBatch <= max_int64) (Hne : sigs <> []).
Context (Hlen : Z.of_nat (length batches) <= count).
Context (Hall : forall i b, batches !! i = Some b -> exists t raws,
  b = chunk_batch job sigs maxBatch count (Z.of_nat i) raws /\
  ad_FetchTransactions (fe_adapter E) t (sg_Hash <$> rb_Signatures b) = Ok raws).

Lemma sent_signatures i b : batches !! i = Some b ->
  rb_Signatures b = take (Z.to_nat maxBatch) (drop (i * Z.to_nat maxBatch) sigs) /\
  Z.of_nat i * maxBatch < Z.of_nat (length sigs).
Proof.
  intros Hi. pose proof (chunk_count_bounds sigs maxBatch Hmax Hfit Hne) as [H1 H2].
  pose proof (lookup_lt_Some _ _ _ Hi). destruct (Hall i b Hi) as (t & raws & -> & _).
  assert (Z.of_nat i * maxBatch < Z.of_nat (length sigs)) as Hlt by nia. split; [|done].
  cbn [chunk_batch scan_batch rb_Signatures]. rewrite chunk_signatures_eq by (done || lia). do 2 f_equal. lia.
Qed.

Lemma sent_concat : concat (rb_Signatures <$> batches) = take (length batches * Z.to_nat maxBatch) sigs.
Proof.
  rewrite (concat_chunks sigs maxBatch); [by rewrite length_fmap|]. intros i c Hc.
  rewrite list_lookup_fmap in Hc. destruct (batches !! i) as [b|] eqn:Hi; [|done]. injection Hc as <-.
  by apply sent_signatures.
Qed.

Lemma sent_batch b : b ∈ batches -> batch_of_job job b /\ rb_Signatures b <> [] /\ Z.of_nat (length (rb_Signatures b)) <= maxBatch /\
  exists t, ad_FetchTransactions (fe_adapter E) t (sg_Hash <$> rb_Signatures b) = Ok (rb_RawTransactions b).
Proof.
  intros [i Hi]%list_elem_of_lookup. destruct (sent_signatures i b Hi) as [Hs Hlt]. split; [|split; [|split]].
  - by destruct (Hall i b Hi) as (t & raws & -> & _).
  - rewrite Hs. intros Hnil%(f_equal length). rewrite length_take, length_drop in Hnil. simpl in Hnil. nia.
  - rewrite Hs, length_take. lia.
  - destruct (Hall i b Hi) as (t & raws & -> & Ht). by exists t.
Qed.

Lemma sent_held i b : batches !! i = Some b -> Z.of_nat i <> count - 1 -> held job b.
Proof. intros Hi Hc. destruct (Hall i b Hi) as (t & raws & -> & _). by apply chunk_batch_held. Qed.

Lemma sent_final : Z.of_nat (length batches) = count -> concat (rb_Signatures <$> batches) = sigs /\
  exists init final, batches = init ++ [final] /\ (forall b, b ∈ init -> held job b) /\
    rb_NewCursorValue final = Some (sg_Hash (newest sigs)) /\ rb_NewCursorSequence final = sg_Sequence (newest sigs).
Proof.
  intros Hc. pose proof (chunk_count_bounds sigs maxBatch Hmax Hfit Hne) as [H1 H2]. split.
  - rewrite sent_concat. apply take_ge. nia.
  - assert (batches <> []) as Hbn by (intros Hb; rewrite Hb in Hc; simpl in Hc; lia).
    destruct (@exists_last _ batches Hbn) as (bs & b0 & Hb). exists bs, b0.
    rewrite Hb, length_app in Hc. simpl in Hc. split; [done|]. split.
    + intros b [i Hi]%list_elem_of_lookup. pose proof (lookup_lt_Some _ _ _ Hi).
      apply (sent_held i); [|lia]. rewrite Hb. by apply lookup_app_l_Some.
    + destruct (Hall (length bs) b0) as (t & raws & -> & _); [by rewrite Hb, list_lookup_middle|].
      cbn [chunk_batch scan_batch rb_NewCursorValue rb_NewCursorSequence].
      by rewrite (proj2 (Z.eqb_eq _ _)) by lia.
Qed.
End Sent.

(** C35: what a block-scan job sends.  The signatures found in the range are sent as their
    canonical list: every one found that has an identity is in it under its canonical hash,
    at the best of the answers for that hash, nothing else is, each hash is there once, and
    the list is sorted by sequence and hash.  When it is empty the job sends one empty batch
    with the cursor at the end of the range.  Otherwise the sub-batches are that list, in
    order, cut into pieces of at most the configured size, each with the transactions the
    adapter returned for it; when the job succeeds nothing is missing and only the last
    sub-batch moves the cursor, to the last signature; when it fails none does.  A job that
    fails before it has an answer sends nothing. *)
Theorem block_scan_delivers job w r w' :
  fj_BlockScanMode job = true ->
  (forall scan t found, ad_ScanBlocks (fe_adapter E) = Some scan ->
     scan t (fj_StartBlock job) (fj_EndBlock job) (fj_WatchedAddresses job) = Ok found ->
     Z.of_nat (length (canonicalizeSignatures (fj_Chain job) found)) + effectiveBlockScanMaxBatchTxs f <= max_int64) ->
  processJob E f job w = (r, w') -> scan_outcome job w r w'.
Proof.
  intros Hmode Hfit [(e & -> & S1)|(w1 & S1 & H)]%processJob_inv; [by left|]. rewrite Hmode in H.
  unfold scan_outcome. rewrite <- S1. clear w S1. unfold processBlockScanJob in H.
  destruct (ad_ScanBlocks (fe_adapter E)) as [scan|] eqn:Es; [|injection H as <- <-; by left].
  apply silent_inv in H as [(found & w2 & Hf & <- & H)|(e & -> & S2)]; [|by left|apply silent_scan_call].
  apply scan_call_answer in Hf as [t Ht]. specialize (Hfit scan t found eq_refl Ht).
  pose proof (canonicalizeSignatures_spec (fj_Chain job) found) as Hcan.
  destruct (canonicalizeSignatures (fj_Chain job) found) as [|s0 rest] eqn:Ec.
  { unfold send, fbind, tick in H. destruct (fe_send E (fw_tick w2)); injection H as <- <-; [right|by left].
    exists scan, t, found, []. do 3 (split; [done|]). left. do 2 (split; [done|]). by exists (empty_scan_batch job). }
  set (sigs := s0 :: rest) in *.
  right. exists scan, t, found, sigs. do 3 (split; [done|]). right. split; [done|].
  set (maxBatch := effectiveBlockScanMaxBatchTxs f) in *.
  assert (1 <= maxBatch) as Hmax by (by apply or_default_pos).
  pose proof (chunk_count_bounds sigs maxBatch Hmax Hfit ltac:(done)) as [Hc _].
  apply process_chunks_run in H as (batches & Hsent & Hlen & Hall). exists batches.
  assert (Z.of_nat (length batches) <= chunk_count (Z.of_nat (length sigs)) maxBatch) as Hle by (destruct (is_ok r); lia).
  split; [done|]. split; [by eapply sent_concat|]. split; [by eapply sent_batch|]. split.
  - intros Hr b [i Hi]%list_elem_of_lookup. rewrite Hr in Hlen. pose proof (lookup_lt_Some _ _ _ Hi).
    eapply sent_held; [exact Hall|exact Hi|lia].
  - intros ->. cbn [is_ok] in Hlen.
    destruct (sent_final job sigs maxBatch batches Hmax Hfit ltac:(done) Hle Hall ltac:(lia))
      as (H1 & init & final & H2 & H3 & H4 & H5).
    split; [done|]. exists init, final. do 2 (split; [done|]). exists (newest sigs).
    destruct (newest_last sigs (co_sorted _ _ _ _ Hcan) ltac:(done)) as [H6 H7]. done.
Qed.
End Scan.

(** ** The cursor of a sub-batch in the normalizer *)

(** Also: the normalizer moves the cursor of a sub-batch that should hold it.  The fetcher
    gives every sub-batch but the last the sequence before the range; what the normalizer
    sends for it has the sequence of one of its signatures, inside the range, and the
    ingester raises the watermark to it.  When the job fails afterwards, the rest of that
    block is not scanned again. *)
Theorem chunk_moves_cursor {C : Type} `{Cache C string TransactionResult} e job sigs maxBatch chunkCount idx raws
    (s s' : nstate (C:=C)) sent :
  let batch := chunk_batch job sigs maxBatch chunkCount idx raws in
  processBatch e batch s = (Ok sent, s') -> idx <> chunkCount - 1 -> rb_Signatures batch <> [] ->
  min_int64 < fj_StartBlock job <= max_int64 -> (forall sig, sig ∈ sigs -> fj_StartBlock job <= sg_Sequence sig) ->
  held job batch /\ rb_NewCursorSequence batch = fj_StartBlock job - 1 /\
  fj_StartBlock job <= nb_NewCursorSequence sent /\
  exists sig, sig ∈ rb_Signatures batch /\ nb_NewCursorSequence sent = sg_Sequence sig.
Proof.
  intros batch Hp Hidx Hne Hb Hsigs.
  assert (held job batch) as Hheld by (by apply chunk_batch_held).
  assert (rb_NewCursorSequence batch = fj_StartBlock job - 1) as Hseq.
  { destruct Hheld as [_ ->]. apply wrap64_id. unfold in_int64. lia. }
  destruct (processBatch_loop e batch s s' sent Hp Hne) as (l & resp & p & _ & _ & Hl & -> & Hacc & _ & Hc & _).
  assert (start_cursor batch = (None, fj_StartBlock job - 1)) as Hstart.
  { unfold start_cursor. destruct Hheld as [Hv _]. rewrite Hv, Hseq. done. }
  rewrite Hstart in Hc. cbn [snd] in Hc. set (accepted := fst <$> l) in *.
  assert (accepted <> []) as Ha by (by destruct l). apply accounts_sublist in Hacc as Hsub.
  destruct (cursor_after_spec accepted (fj_StartBlock job - 1)) as (_ & Hreached & Hcur). rewrite <- Hc in Hreached, Hcur.
  assert (forall x, x ∈ accepted -> exists sig, sig ∈ rb_Signatures batch /\ sg_Sequence x = sg_Sequence sig /\
            fj_StartBlock job <= sg_Sequence sig) as Hbound.
  { intros x Hx. destruct (signature_sound (rb_Chain batch) (rb_Signatures batch) x) as (sig & Hin & Hsq);
      [by eapply elem_of_sublist|]. exists sig.
    split; [done|]. split; [done|]. apply Hsigs. cbn in Hin. unfold chunk_signatures, slice in Hin.
    eapply elem_of_sublist; [exact Hin|]. etrans; [apply sublist_take|apply sublist_drop]. }
  split; [done|]. split; [done|]. cbn [finished_batch batch_header nb_NewCursorSequence].
  destruct Hcur as [Hcur|(x & Hx & ->)].
  - exfalso. destruct accepted as [|x rest] eqn:El; [done|]. destruct (Hbound x ltac:(set_solver)) as (sig & _ & Hq & Hle).
    specialize (Hreached x ltac:(set_solver)). lia.
  - destruct (Hbound x Hx) as (sig & Hin & -> & Hle). split; [done|]. by exists sig.
Qed.

(** ** A sample scan *)

Definition sample_scan_config : fetch_config := New 1 [WithBlockScanMaxBatchTxs 2].

Definition sample_scan_run : result failure unit * fworld (LRU string Z) :=
  processJob (sample_fetch_env sample_block) sample_scan_config (sample_job true) (sample_fworld sample_scan_config).

Lemma block_scan_delivers_witness :
  scan_outcome (sample_fetch_env sample_block) sample_scan_config (sample_job true) (sample_fworld sample_scan_config)
    sample_scan_run.1 sample_scan_run.2 /\
  ((fun b => (sg_Hash <$> rb_Signatures b, rb_NewCursorSequence b)) <$> fw_sent sample_scan_run.2) =
    [(["s1"; "s2"]%string, 4); (["s3"]%string, 5)].
Proof.
  split; [|vm_compute; reflexivity].
  apply (block_scan_delivers (sample_fetch_env sample_block) sample_scan_config (sample_job true)
    (sample_fworld sample_scan_config)).
  - reflexivity.
  - intros scan t found [= <-] [= <-]. vm_compute. discriminate.
  - apply surjective_pairing.
Defined.

(** Three transactions of block 9 in chunks of two: the first chunk leaves the normalizer
    with cursor 9, although the third transaction has not been fetched. *)
Definition sample_range : list SignatureInfo :=
  [sample_signature "bad" 9; sample_signature "sig" 9; sample_signature "third" 9].

Definition sample_range_job : FetchJob :=
  {| fj_Chain := "solana"; fj_Network := "mainnet"; fj_Address := ""; fj_CursorValue := None;
     fj_CursorSequence := 0; fj_FetchCutoffSeq := 0; fj_BatchSize := 2; fj_WalletID := None; fj_OrgID := None;
     fj_BlockScanMode := true; fj_StartBlock := 9; fj_EndBlock := 9; fj_WatchedAddresses := ["alice"%string] |}.

Definition sample_chunk : RawBatch := chunk_batch sample_range_job sample_range 2 2 0 ["{}"; "{}"]%string.

Definition sample_chunk_cursor : option Z :=
  match (processBatch NormalizerBatch.sample_env sample_chunk NormalizerBatch.sample_state).1 with
  | Ok sent => Some (nb_NewCursorSequence sent)
  | Err _ => None
  end.

Lemma sample_chunk_cursor_ok : sample_chunk_cursor = Some 9.
Proof. vm_compute. reflexivity. Qed.

Lemma chunk_moves_cursor_witness :
  exists sent, (processBatch NormalizerBatch.sample_env sample_chunk NormalizerBatch.sample_state).1 = Ok sent /\ rb_NewCursorSequence sample_chunk = 8 /\
    nb_NewCursorSequence sent = 9 /\ 9 <= nb_NewCursorSequence sent.
Proof.
  pose proof sample_chunk_cursor_ok as Hv. unfold sample_chunk_cursor in Hv.
  destruct (processBatch NormalizerBatch.sample_env sample_chunk NormalizerBatch.sample_state) as [[sent|err] s'] eqn:E; [|discriminate Hv].
  cbn [fst] in Hv. injection Hv as Hv. exists sent. split; [reflexivity|]. split; [reflexivity|]. split; [exact Hv|].
  pose proof (chunk_moves_cursor NormalizerBatch.sample_env sample_range_job sample_range 2 2 0 ["{}"; "{}"]%string NormalizerBatch.sample_state s' sent E) as H.
  destruct H as (_ & _ & Hle & _); [discriminate|discriminate|vm_compute; split; [reflexivity|discriminate]| |exact Hle].
  intros sig Hs. repeat (apply elem_of_cons in Hs as [->|Hs]; [vm_compute; discriminate|]). inversion Hs.
Defined.
