(* ===== verification/JsonTree.v ===== *)
(** * JSON values: what the source reads with [encoding/json]

    A valid JSON text is the tree of its values; [json.Unmarshal] and [Decoder.Decode] into
    a Go value are functions on trees that fail where a value has the wrong type.  Invalid
    texts have no tree.  Of members that are repeated in an object the last one counts; the
    decoder would merge repeated arrays and objects, which no peer sends. *)

From Stdlib Require Import ZArith String Ascii Lia.
From stdpp Require Import base option strings gmap list.
From S2P Require Import Prelude.

Open Scope Z_scope.

Inductive json :=
| JNull
| JBool (b : bool)
| JNumber (text : string)
| JString (s : string)
| JArray (elements : list json)
| JObject (members : list (string * json)).

(** A [json.RawMessage] is the value it denotes; [None] is the empty message of an absent
    field. *)
Definition RawMessage := option json.

(** The member a struct field is read from.  Names match without regard to the case of
    ASCII letters; of several matching members the last one counts. *)
Definition field (name : string) (members : list (string * json)) : option json :=
  last (omap (fun m : string * json => if equal_fold m.1 name then Some m.2 else None) members).

(** Into a string and into slices: null and absent fields leave the zero value, a value of
    another type is an error of the whole message. *)
Definition read_string (j : option json) : option string :=
  match j with
  | None | Some JNull => Some EmptyString
  | Some (JString s) => Some s
  | Some _ => None
  end.

Definition read_slice {A} (read : json -> option A) (j : option json) : option (list A) :=
  match j with
  | None | Some JNull => Some []
  | Some (JArray l) => mapM read l
  | Some _ => None
  end.

(** Into a struct. *)
Definition read_struct {A} (read : list (string * json) -> option A) (j : json) : option A :=
  match j with
  | JNull => read []
  | JObject members => read members
  | _ => None
  end.

(** Into an [*int64], nil when null or absent: a number without fraction or exponent that
    fits. *)
Definition read_int64_ptr (j : option json) : option (option Z) :=
  match j with
  | None | Some JNull => Some None
  | Some (JNumber text) => Some <$> parse_int64 text
  | Some _ => None
  end.

(** Into an [int64] or an [int]. *)
Definition read_int64 (j : option json) : option Z := default 0 <$> read_int64_ptr j.

(** Into a pointer to a struct. *)
Definition read_ptr {A} (read : json -> option A) (j : option json) : option (option A) :=
  match j with
  | None | Some JNull => Some None
  | Some j => Some <$> read j
  end.

Definition read_bool (j : option json) : option bool :=
  match j with
  | None | Some JNull => Some false
  | Some (JBool b) => Some b
  | Some _ => None
  end.

(** Into a [*string], and into an element of a slice of pointers. *)
Definition read_string_ptr (j : option json) : option (option string) :=
  match j with
  | None | Some JNull => Some None
  | Some (JString s) => Some (Some s)
  | Some _ => None
  end.

Definition read_element {A} (read : json -> option A) (j : json) : option (option A) := read_ptr read (Some j).
