(* ===== verification/SolanaAdapter.v ===== *)
(** * Solana adapter: [internal/chain/solana/adapter.go]

    The chain adapter of Solana over the interface of its RPC client: the signatures of an
    address, page by page, the transactions of a range of slots that name a watched
    address, and the raw transactions.  The client is an argument that gives the node's
    answer to each request of one call of the adapter.  Transactions and metadata stay JSON
    until the adapter looks into them. *)

From Stdlib Require Import ZArith String Ascii Lia.
From stdpp Require Import base option strings gmap list.
From S2P Require Import Prelude Retry ErrGroup JsonTree NormalizerDecode.

Open Scope Z_scope.
Open Scope go_scope.

(** ** Messages of the node: [solana/rpc/types.go] *)

Record rpcSignatureInfo := { si_Signature : string; si_Slot : Z; si_BlockTime : option Z }.
Record GetSignaturesOpts := { go_Limit : Z; go_Before : string; go_Until : string }.
Record BlockTransaction := { bx_Transaction : RawMessage; bx_Meta : RawMessage }.
Record BlockResult := { br_BlockTime : option Z; br_Transactions : list BlockTransaction }.

(** [rpc.RPCClient]; [GetTransactions] is there for clients that can batch. *)
Record RPCClient := {
  GetSlot : string -> result go_error Z;
  GetSignaturesForAddress : string -> GetSignaturesOpts -> result go_error (list rpcSignatureInfo);
  GetTransaction : string -> result go_error RawMessage;
  GetTransactions : option (list string -> result go_error (list RawMessage));
  GetBlock : Z -> result go_error (option BlockResult)
}.

(** ** The adapter *)

Record Adapter := { ad_maxPageSize : Z; ad_maxConcurrentTxs : Z; ad_network : string; ad_headCommitment : string }.

Definition maxPageSize : Z := 1000.
Definition maxConcurrentTxs : Z := 10.

Definition WithMaxPageSize (n : Z) (a : Adapter) : Adapter :=
  {| ad_maxPageSize := n; ad_maxConcurrentTxs := ad_maxConcurrentTxs a; ad_network := ad_network a;
     ad_headCommitment := ad_headCommitment a |}.
Definition WithMaxConcurrentTxs (n : Z) (a : Adapter) : Adapter :=
  {| ad_maxPageSize := ad_maxPageSize a; ad_maxConcurrentTxs := n; ad_network := ad_network a;
     ad_headCommitment := ad_headCommitment a |}.
Definition WithNetwork (network : string) (a : Adapter) : Adapter :=
  {| ad_maxPageSize := ad_maxPageSize a; ad_maxConcurrentTxs := ad_maxConcurrentTxs a; ad_network := network;
     ad_headCommitment := ad_headCommitment a |}.
Definition WithHeadCommitment (commitment : string) (a : Adapter) : Adapter :=
  if str_eqb commitment "confirmed" || str_eqb commitment "finalized"
  then {| ad_maxPageSize := ad_maxPageSize a; ad_maxConcurrentTxs := ad_maxConcurrentTxs a; ad_network := ad_network a;
          ad_headCommitment := commitment |}
  else a.

(** A nil option is [None]. *)
Definition NewAdapter (opts : list (option (Adapter -> Adapter))) : Adapter :=
  foldl (fun a opt => match opt with Some opt => opt a | None => a end)
    {| ad_maxPageSize := maxPageSize; ad_maxConcurrentTxs := maxConcurrentTxs; ad_network := EmptyString;
       ad_headCommitment := "confirmed" |} opts.

(** [time.Unix(sec, 0)] in nanoseconds. *)
Definition unix_time (seconds : option Z) : option Z := (fun s => s * 10 ^ 9) <$> seconds.

(** ** What a transaction of a block names *)

Definition read_message (members : list (string * json)) : option (list json) :=
  read_slice Some (field "accountKeys" members).

(** [blockTxParsed]: the signatures and the account keys, still raw. *)
Definition blockTxParsed : Type := list string * list json.

Definition parse_tx (transaction : RawMessage) : option blockTxParsed :=
  transaction ≫= read_struct (fun members =>
    signatures ← read_slice (fun j => read_string (Some j)) (field "signatures" members);
    keys ← read_struct read_message (default JNull (field "message" members));
    Some (signatures, keys)).

(** The first byte of the raw key decides: a string, an object, or nothing. *)
Definition account_key (raw : json) : option string :=
  match raw with
  | JString s => Some s
  | JObject members =>
      match read_string (field "pubkey" members) with
      | Some pubkey => if str_empty pubkey then None else Some pubkey
      | None => None
      end
  | _ => None
  end.

Definition extractSignatureAndKeys (btx : BlockTransaction) : string * list string :=
  match parse_tx (bx_Transaction btx) with
  | None => (EmptyString, [])
  | Some (signatures, keys) => (default EmptyString (head signatures), omap account_key keys)
  end.

Definition read_owner : json -> option string := read_struct (fun members => read_string (field "owner" members)).

Definition parse_owners (members : list (string * json)) : option (list string * list string) :=
  pre ← read_slice read_owner (field "preTokenBalances" members);
  post ← read_slice read_owner (field "postTokenBalances" members);
  Some (pre, post).

Definition add_owner (st : gset string * list string) (owner : string) : gset string * list string :=
  let '(seen, owners) := st in
  if str_empty owner || bool_decide (owner ∈ seen) then st else ({[owner]} ∪ seen, owners ++ [owner]).

Definition extractTokenBalanceOwners (meta : RawMessage) : list string :=
  match meta ≫= read_struct parse_owners with
  | None => []
  | Some (pre, post) => (foldl add_owner (foldl add_owner (∅, []) pre) post).2
  end.

Definition anyAddressMatches (addrs : list string) (watchedSet : gset string) : bool :=
  existsb (fun addr => bool_decide (addr ∈ watchedSet)) addrs.

(** ** Operations *)

Section Client.
Context (client : RPCClient).

Definition GetHeadSequence (a : Adapter) : result go_error Z := GetSlot client (ad_headCommitment a).

(** The signatures at or below the cutoff; a cutoff of 0 or less disables it. *)
Definition within_cutoff (cutoffSeq : Z) (sig : rpcSignatureInfo) : bool :=
  negb ((0 <? cutoffSeq) && (cutoffSeq <? si_Slot sig)).

(** The loop over pages, newest first; [fuel] bounds the pages. *)
Fixpoint fetch_pages (a : Adapter) (fuel : nat) (address until_ : string) (cutoffSeq remaining : Z) (before : string)
    (allSigs : list rpcSignatureInfo) : option (result go_error (list rpcSignatureInfo)) :=
  if remaining <=? 0 then Some (Ok allSigs)
  else
    match fuel with
    | O => None
    | S fuel =>
        let pageSize := if ad_maxPageSize a <? remaining then ad_maxPageSize a else remaining in
        match GetSignaturesForAddress client address {| go_Limit := pageSize; go_Before := before; go_Until := until_ |} with
        | Err err => Some (Err (EWrap "fetch signatures page" err))
        | Ok sigs =>
            match last sigs with
            | None => Some (Ok allSigs)
            | Some oldest =>
                let accepted := filter (fun sig => within_cutoff cutoffSeq sig = true) sigs in
                let allSigs := allSigs ++ accepted in
                let remaining := remaining - Z.of_nat (length accepted) in
                if remaining <=? 0 then Some (Ok allSigs)
                else if Z.of_nat (length sigs) <? pageSize then Some (Ok allSigs)
                else fetch_pages a fuel address until_ cutoffSeq remaining (si_Signature oldest) allSigs
            end
        end
    end.

Definition signature_of (sig : rpcSignatureInfo) : SignatureInfo :=
  {| sg_Hash := si_Signature sig; sg_Sequence := si_Slot sig; sg_Time := unix_time (si_BlockTime sig) |}.

Definition FetchNewSignaturesWithCutoff (a : Adapter) (fuel : nat) (address : string) (cursor : option string)
    (batchSize cutoffSeq : Z) : option (result go_error (list SignatureInfo)) :=
  match fetch_pages a fuel address (default EmptyString cursor) cutoffSeq batchSize EmptyString [] with
  | None => None
  | Some (Err err) => Some (Err err)
  | Some (Ok allSigs) => Some (Ok (reverse (signature_of <$> allSigs)))
  end.

Definition FetchNewSignatures (a : Adapter) (fuel : nat) (address : string) (cursor : option string) (batchSize : Z)
    : option (result go_error (list SignatureInfo)) :=
  FetchNewSignaturesWithCutoff a fuel address cursor batchSize 0.

Context (first_error : list go_error -> go_error).

(** Token balances are read only when the account keys do not match. *)
Definition tx_matches (watchedSet : gset string) (btx : BlockTransaction) (accounts : list string) : bool :=
  if anyAddressMatches accounts watchedSet then true
  else anyAddressMatches (extractTokenBalanceOwners (bx_Meta btx)) watchedSet.

Definition scan_tx (watchedSet : gset string) (slot : Z) (blockTime : option Z) (btx : BlockTransaction)
    : option SignatureInfo :=
  let '(sig, accounts) := extractSignatureAndKeys btx in
  if str_empty sig then None
  else if tx_matches watchedSet btx accounts then Some {| sg_Hash := sig; sg_Sequence := slot; sg_Time := blockTime |}
  else None.

(** [slotResult]; a skipped slot has no signatures. *)
Definition scan_slot (watchedSet : gset string) (slot : Z) : result go_error (list SignatureInfo) :=
  match GetBlock client slot with
  | Err err => Err (EWrap ("scan slot " +:+ show_Z slot) err)
  | Ok None => Ok []
  | Ok (Some block) => Ok (omap (scan_tx watchedSet slot (unix_time (br_BlockTime block))) (br_Transactions block))
  end.

Definition ScanBlocks (startSlot endSlot : Z) (watchedAddresses : list string) : result go_error (list SignatureInfo) :=
  if (length watchedAddresses =? 0)%nat || (endSlot <? startSlot) then Ok []
  else
    let watchedSet := list_to_set watchedAddresses in
    let! results := wait_all first_error (scan_slot watchedSet <$> seqZ startSlot (endSlot - startSlot + 1)) in
    Ok (concat results).

Definition fetch_one (signature : string) : result go_error RawMessage :=
  match GetTransaction client signature with
  | Err err => Err (EWrap ("fetch tx " +:+ signature) err)
  | Ok tx => Ok tx
  end.

(** A batch that fails falls back to single requests. *)
Definition FetchTransactions (signatures : list string) : result go_error (list RawMessage) :=
  if (length signatures =? 0)%nat then Ok []
  else
    match GetTransactions client with
    | Some batch =>
        match batch signatures with
        | Ok results => Ok results
        | Err _ => wait_all first_error (fetch_one <$> signatures)
        end
    | None => wait_all first_error (fetch_one <$> signatures)
    end.
End Client.
