(* ===== verification/SolanaProofs.v ===== *)
(** * Solana adapter: properties

    Paging through the signatures of an address gives exactly its newest ones since the
    cursor, however the pages are cut; a scan of slots finds exactly the transactions that
    name a watched address; requesting transactions in a batch changes nothing. *)

From Stdlib Require Import ZArith String Ascii Lia.
From stdpp Require Import base option strings gmap sorting list.
From S2P Require Import Prelude Retry ErrGroup JsonTree NormalizerDecode SolanaAdapter.

Open Scope Z_scope.
Open Scope go_scope.

(** ** The signatures of an address *)

(** What lies after (that is, is older than) a signature of a list, newest first, and what
    lies before one; the empty string stands for no bound. *)
Fixpoint older_than (s : string) (l : list rpcSignatureInfo) : list rpcSignatureInfo :=
  match l with
  | [] => []
  | x :: l' => if str_eqb (si_Signature x) s then l' else older_than s l'
  end.

Fixpoint newer_than (s : string) (l : list rpcSignatureInfo) : list rpcSignatureInfo :=
  match l with
  | [] => []
  | x :: l' => if str_eqb (si_Signature x) s then [] else x :: newer_than s l'
  end.

Definition bounded (cut : string -> list rpcSignatureInfo -> list rpcSignatureInfo) (s : string)
    (l : list rpcSignatureInfo) : list rpcSignatureInfo :=
  if str_empty s then l else cut s l.

Lemma newer_than_app s c l : s ∉ (si_Signature <$> c) -> newer_than s (c ++ l) = c ++ newer_than s l.
Proof.
  induction c as [|x c IH]; simpl; [done|]. intros [Hx Hc]%not_elem_of_cons.
  unfold str_eqb. rewrite (proj2 (String.eqb_neq _ _)) by congruence. by rewrite IH.
Qed.

Lemma newer_than_prefix s l :
  exists tail, l = newer_than s l ++ tail /\ (s ∉ (si_Signature <$> newer_than s l)) /\ newer_than s tail = [].
Proof.
  induction l as [|x l (tail & Hl & Hs & Ht)]; simpl.
  { exists []. split_and!; [done|apply not_elem_of_nil|done]. }
  unfold str_eqb. destruct (String.eqb_spec (si_Signature x) s) as [Hx|Hx]; simpl.
  - exists (x :: l). split_and!; [done|apply not_elem_of_nil|]. simpl. unfold str_eqb. by rewrite Hx, String.eqb_refl.
  - exists tail. split_and!; [by rewrite Hl at 1| |done]. by apply not_elem_of_cons.
Qed.

Lemma take_page {A} n (l : list A) :
  exists got left, take n l = got /\ l = got ++ left /\ (length got <= n)%nat /\ ((length got < n)%nat -> left = []).
Proof.
  exists (take n l), (drop n l). rewrite take_drop, length_take. split_and!; [done|done|lia|].
  intros Hn. apply drop_ge. lia.
Qed.

Lemma older_than_app c x l : si_Signature x ∉ (si_Signature <$> c) -> older_than (si_Signature x) (c ++ x :: l) = l.
Proof.
  induction c as [|y c IH]; simpl; unfold str_eqb.
  - by rewrite String.eqb_refl.
  - intros [Hy Hc]%not_elem_of_cons. destruct (String.eqb_spec (si_Signature y) (si_Signature x)); [congruence|]. by apply IH.
Qed.

Section History.
(** The node's record of an address, newest first; signatures are unique and not empty. *)
Context (client : RPCClient) (address : string) (history : list rpcSignatureInfo).
Context (Hunique : NoDup (si_Signature <$> history)) (Hnonempty : EmptyString ∉ (si_Signature <$> history)).

(** [getSignaturesForAddress] answers the newest signatures that are older than [before]
    and newer than [until], up to the limit, which is 1000 when it is not given. *)
Definition page (opts : GetSignaturesOpts) : list rpcSignatureInfo :=
  take (Z.to_nat (if 0 <? go_Limit opts then go_Limit opts else 1000))
    (bounded newer_than (go_Until opts) (bounded older_than (go_Before opts) history)).

Context (Hnode : forall opts, GetSignaturesForAddress client address opts = Ok (page opts)).

Definition since (cursor : option string) : list rpcSignatureInfo := bounded newer_than (default EmptyString cursor) history.

Definition eligible (cutoffSeq : Z) (l : list rpcSignatureInfo) : list rpcSignatureInfo :=
  filter (fun sig => within_cutoff cutoffSeq sig = true) l.

Lemma eligible_app cutoffSeq l l' : eligible cutoffSeq (l ++ l') = eligible cutoffSeq l ++ eligible cutoffSeq l'.
Proof. apply filter_app. Qed.

(** What is left after a part of the list was read is the next page's list. *)
Lemma next_page until_ c x rest :
  bounded newer_than until_ history = c ++ x :: rest ->
  bounded newer_than until_ (bounded older_than (si_Signature x) history) = rest.
Proof.
  intros Hsince.
  assert (Hhist : exists tail, history = c ++ x :: rest ++ tail /\ bounded newer_than until_ (rest ++ tail) = rest).
  { unfold bounded in *. destruct (str_empty until_).
    - exists []. by rewrite app_nil_r, Hsince.
    - destruct (newer_than_prefix until_ history) as (tail & Hl & Hs & Ht). rewrite Hsince in Hl, Hs. exists tail.
      split; [by rewrite Hl, <- app_assoc|].
      rewrite fmap_app, fmap_cons, elem_of_app, elem_of_cons in Hs.
      rewrite newer_than_app by tauto. by rewrite Ht, app_nil_r. }
  destruct Hhist as (tail & Hh & Hrest). unfold bounded at 2.
  rewrite Hh in Hunique, Hnonempty. rewrite !fmap_app, !fmap_cons in Hunique, Hnonempty.
  destruct (str_empty (si_Signature x)) eqn:Hx.
  - apply String.eqb_eq in Hx. exfalso. apply Hnonempty. rewrite Hx. apply elem_of_app. right. apply list_elem_of_here.
  - rewrite Hh, older_than_app; [done|].
    apply NoDup_app in Hunique as (_ & Hd & _). intros Hin. apply (Hd _ Hin). apply list_elem_of_here.
Qed.

Lemma page_rest cursor consumed rest limit : since cursor = consumed ++ rest ->
  page {| go_Limit := limit; go_Before := default EmptyString (si_Signature <$> last consumed);
          go_Until := default EmptyString cursor |} =
  take (Z.to_nat (if 0 <? limit then limit else 1000)) rest.
Proof.
  intros Hsince. unfold page. cbn [go_Limit go_Before go_Until]. f_equal.
  destruct consumed as [|x c _] using rev_ind; [done|].
  rewrite last_snoc. simpl. rewrite <- app_assoc in Hsince. by eapply next_page.
Qed.

(** Each page takes the next part of the list; the loop ends with the newest signatures
    within the cutoff. *)
Lemma fetch_pages_spec a cursor cutoffSeq batchSize fuel : 0 < ad_maxPageSize a ->
  forall consumed rest, since cursor = consumed ++ rest -> (length rest < fuel)%nat ->
  Z.of_nat (length (eligible cutoffSeq consumed)) <= Z.max 0 batchSize ->
  fetch_pages client a fuel address (default EmptyString cursor) cutoffSeq
    (batchSize - Z.of_nat (length (eligible cutoffSeq consumed))) (default EmptyString (si_Signature <$> last consumed))
    (eligible cutoffSeq consumed)
  = Some (Ok (take (Z.to_nat batchSize) (eligible cutoffSeq (since cursor)))).
Proof.
  intros Hmax. induction fuel as [|fuel IH]; intros consumed rest Hsince Hfuel Hlen; [lia|].
  cbn [fetch_pages]. rewrite Hsince, eligible_app.
  destruct (Z.leb_spec (batchSize - Z.of_nat (length (eligible cutoffSeq consumed))) 0) as [Hdone|Hmore].
  { by rewrite take_app_le, take_ge by lia. }
  rewrite Hnode. set (remaining := batchSize - _) in *.
  set (pageSize := if ad_maxPageSize a <? remaining then ad_maxPageSize a else remaining).
  assert (Hps : 0 < pageSize <= remaining) by (unfold pageSize; destruct (Z.ltb_spec (ad_maxPageSize a) remaining); lia).
  rewrite (page_rest cursor consumed rest _ Hsince), (proj2 (Z.ltb_lt 0 pageSize)) by apply Hps.
  destruct (take_page (Z.to_nat pageSize) rest) as (got & left & Hgot & -> & Hlen_got & Hshort).
  rewrite Hgot, eligible_app, app_assoc, <- eligible_app. rewrite length_app in Hfuel.
  destruct (last got) as [oldest|] eqn:Hlast.
  2:{ apply last_None in Hlast as ->. rewrite Hshort by (simpl; lia). rewrite !app_nil_r. by rewrite take_ge by lia. }
  fold (eligible cutoffSeq got).
  pose proof (length_filter (fun sig => within_cutoff cutoffSeq sig = true) got) as Hacc. fold (eligible cutoffSeq got) in Hacc.
  destruct (Z.leb_spec (remaining - Z.of_nat (length (eligible cutoffSeq got))) 0) as [Hfull|Hfull].
  { rewrite eligible_app, take_app_le, take_ge; [done| |]; rewrite length_app; lia. }
  destruct (Z.ltb_spec (Z.of_nat (length got)) pageSize) as [Hend|Hlong].
  { rewrite Hshort by lia. rewrite app_nil_r, eligible_app, take_ge; [done|]. rewrite length_app. lia. }
  assert (0 < length got)%nat by (destruct got; [done|simpl; lia]).
  specialize (IH (consumed ++ got) left). rewrite last_app, Hlast in IH. cbn [default fmap option_fmap option_map] in IH.
  rewrite <- !eligible_app, <- app_assoc, <- Hsince, <- IH; [|by rewrite <- app_assoc|lia|rewrite eligible_app, length_app; lia].
  f_equal. rewrite eligible_app, length_app. lia.
Qed.

Lemma eligible_0 l : eligible 0 l = l.
Proof. apply filter_all. by intros x _. Qed.

Lemma since_prefix cursor : exists tail, history = since cursor ++ tail.
Proof.
  unfold since, bounded. destruct (str_empty _); [exists []; by rewrite app_nil_r|].
  destruct (newer_than_prefix (default EmptyString cursor) history) as (tail & H & _). by exists tail.
Qed.

Lemma since_newest x l cursor : since cursor = x :: l -> since (Some (si_Signature x)) = [].
Proof.
  intros Hs. destruct (since_prefix cursor) as (tail & H). rewrite Hs in H. unfold since, bounded. simpl.
  destruct (str_empty (si_Signature x)) eqn:He.
  - apply String.eqb_eq in He. destruct Hnonempty. rewrite H, <- He. apply list_elem_of_here.
  - rewrite H. simpl. unfold str_eqb. by rewrite String.eqb_refl.
Qed.

Lemma newest_signatures_lemma a cursor batchSize cutoffSeq fuel :
  0 < ad_maxPageSize a -> (length (since cursor) < fuel)%nat ->
  FetchNewSignaturesWithCutoff client a fuel address cursor batchSize cutoffSeq =
  Some (Ok (reverse (signature_of <$> take (Z.to_nat batchSize) (eligible cutoffSeq (since cursor))))).
Proof.
  intros Hmax Hfuel. unfold FetchNewSignaturesWithCutoff.
  pose proof (fetch_pages_spec a cursor cutoffSeq batchSize fuel Hmax [] (since cursor) eq_refl Hfuel) as H.
  unfold eligible in H at 1 2 3. rewrite filter_nil in H. simpl in H. rewrite Z.sub_0_r in H.
  rewrite H by lia. done.
Qed.

(** C39: however the pages are cut, the answer has the newest signatures since the cursor that
    lie within the cutoff, oldest first and at most as many as asked for, after at most one
    request more than the node has signatures since the cursor. *)
Theorem newest_signatures a cursor batchSize cutoffSeq fuel :
  0 < ad_maxPageSize a -> (length (since cursor) < fuel)%nat ->
  FetchNewSignaturesWithCutoff client a fuel address cursor batchSize cutoffSeq =
  Some (Ok (reverse (signature_of <$> take (Z.to_nat batchSize) (eligible cutoffSeq (since cursor))))).
Proof. apply newest_signatures_lemma. Qed.

(** Also: when more signatures wait than a batch holds, the batch has the newest ones, so the
    cursor taken from its last signature passes over the oldest: the next call returns
    nothing and they are never fetched. *)
Theorem backlog_passed_over a cursor batchSize fuel :
  0 < ad_maxPageSize a -> 0 < batchSize < Z.of_nat (length (since cursor)) -> (length (since cursor) < fuel)%nat ->
  exists sigs newest,
    FetchNewSignatures client a fuel address cursor batchSize = Some (Ok sigs) /\ last sigs = Some newest /\
    (exists x, x ∈ since cursor /\ si_Signature x ∉ (sg_Hash <$> sigs)) /\
    FetchNewSignatures client a fuel address (Some (sg_Hash newest)) batchSize = Some (Ok []).
Proof.
  intros Hmax Hbatch Hfuel. destruct (since cursor) as [|x l] eqn:Hs; [simpl in Hbatch; lia|].
  unfold FetchNewSignatures. rewrite !newest_signatures_lemma, Hs, eligible_0 by (rewrite ?Hs; done).
  set (n := Z.to_nat batchSize). assert (Hn : (0 < n < length (x :: l))%nat) by lia.
  eexists _, (signature_of x). split; [reflexivity|]. split_and!.
  - destruct n as [|n]; [lia|]. simpl. by rewrite reverse_cons, last_snoc.
  - destruct (lookup_lt_is_Some_2 (x :: l) n (proj2 Hn)) as (y & Hy). exists y.
    split; [by eapply list_elem_of_lookup_2|].
    rewrite fmap_reverse, elem_of_reverse, <- list_fmap_compose.
    destruct (since_prefix cursor) as (tail & H). rewrite H, Hs, fmap_app in Hunique.
    apply NoDup_app in Hunique as (Hu & _ & _).
    rewrite <- (take_drop_middle _ _ _ Hy), fmap_app, fmap_cons in Hu. apply NoDup_app in Hu as (_ & Hd & _).
    intros Hin. apply (Hd _ Hin). apply list_elem_of_here.
  - assert (Hnil : since (Some (sg_Hash (signature_of x))) = []) by (by eapply since_newest).
    rewrite newest_signatures_lemma, Hnil by (first [done | rewrite Hnil; simpl; lia]).
    by rewrite eligible_0, take_nil.
Qed.
End History.

(** ** Scans of slots *)

(** A transaction names an account by a key, as a string or as an object with a [pubkey], or
    as the owner of a token balance before or after it. *)
Definition names_key (btx : BlockTransaction) (addr : string) : Prop :=
  exists signatures keys raw, parse_tx (bx_Transaction btx) = Some (signatures, keys) /\ raw ∈ keys /\ account_key raw = Some addr.

Definition names_owner (btx : BlockTransaction) (addr : string) : Prop :=
  exists pre post, (bx_Meta btx ≫= read_struct parse_owners) = Some (pre, post) /\ addr ∈ pre ++ post /\ addr <> EmptyString.

Definition signed (btx : BlockTransaction) (sig : string) : Prop :=
  exists signatures keys, parse_tx (bx_Transaction btx) = Some (signatures, keys) /\ head signatures = Some sig /\ sig <> EmptyString.

Lemma add_owners_elem l seen owners addr : (forall x, x ∈ seen <-> x ∈ owners) ->
  (addr ∈ (foldl add_owner (seen, owners) l).2 <-> addr ∈ owners \/ (addr ∈ l /\ addr <> EmptyString)) /\
  (forall x, x ∈ (foldl add_owner (seen, owners) l).1 <-> x ∈ (foldl add_owner (seen, owners) l).2).
Proof.
  revert seen owners. induction l as [|o l IH]; intros seen owners Hseen; simpl.
  { split; [|done]. split; [by left|intros [?|[[]%elem_of_nil _]]; done]. }
  destruct (str_empty o) eqn:Ho; simpl.
  { apply String.eqb_eq in Ho as ->. destruct (IH seen owners Hseen) as [-> H2]. split; [|done].
    rewrite elem_of_cons. intuition congruence. }
  apply String.eqb_neq in Ho. destruct (decide (o ∈ seen)) as [Hin|Hin].
  - rewrite bool_decide_true by done. destruct (IH seen owners Hseen) as [-> H2]. split; [|done].
    rewrite elem_of_cons. apply Hseen in Hin. intuition congruence.
  - rewrite bool_decide_false by done. destruct (IH ({[o]} ∪ seen) (owners ++ [o])) as [-> H2].
    { intros x. rewrite elem_of_union, elem_of_singleton, elem_of_app, list_elem_of_singleton, Hseen. tauto. }
    split; [|done]. rewrite elem_of_app, list_elem_of_singleton, elem_of_cons. intuition congruence.
Qed.

Lemma owners_elem btx addr : addr ∈ extractTokenBalanceOwners (bx_Meta btx) <-> names_owner btx addr.
Proof.
  unfold extractTokenBalanceOwners, names_owner. destruct (bx_Meta btx ≫= _) as [[pre post]|].
  - rewrite <- foldl_app. destruct (add_owners_elem (pre ++ post) ∅ [] addr) as [-> _].
    { intros x. split; [intros []%elem_of_empty|intros []%elem_of_nil]. }
    split; [intros [[]%elem_of_nil|[? ?]]; by exists pre, post|intros (? & ? & [= <- <-] & ? & ?); by right].
  - split; [intros []%elem_of_nil|by intros (? & ? & ? & _)].
Qed.

Lemma any_address addrs watched : anyAddressMatches addrs watched = true <-> exists addr, addr ∈ addrs /\ addr ∈ watched.
Proof.
  unfold anyAddressMatches. rewrite existsb_exists. setoid_rewrite bool_decide_eq_true.
  by setoid_rewrite <- list_elem_of_In.
Qed.

Lemma scan_tx_spec watched slot time btx sig :
  scan_tx watched slot time btx = Some sig <->
  signed btx (sg_Hash sig) /\ sg_Sequence sig = slot /\ sg_Time sig = time /\
  exists addr, addr ∈ watched /\ (names_key btx addr \/ names_owner btx addr).
Proof.
  unfold scan_tx, extractSignatureAndKeys, signed, names_key.
  destruct (parse_tx (bx_Transaction btx)) as [[signatures keys]|]; simpl.
  2:{ split; [done|intros ((? & ? & ? & _) & _)]; done. }
  destruct signatures as [|s signatures]; simpl.
  { split; [done|]. intros ((? & ? & [= <- <-] & ? & _) & _). done. }
  destruct (str_empty s) eqn:Hs; [apply String.eqb_eq in Hs|apply String.eqb_neq in Hs].
  { split; [done|]. intros ((? & ? & [= <- <-] & [= Hh] & Hne) & _). congruence. }
  assert (Hm : tx_matches watched btx (omap account_key keys) = true <->
    exists addr, addr ∈ watched /\ ((exists signatures' keys' raw, Some (s :: signatures, keys) = Some (signatures', keys') /\
      raw ∈ keys' /\ account_key raw = Some addr) \/ names_owner btx addr)).
  { unfold tx_matches. destruct (anyAddressMatches (omap account_key keys) watched) eqn:Ha.
    - apply any_address in Ha as (addr & (raw & Hr & Hk)%list_elem_of_omap & Hw). split; [intros _|done].
      exists addr. split; [done|]. left. by exists (s :: signatures), keys, raw.
    - rewrite any_address. setoid_rewrite owners_elem. split; intros (addr & H1 & H2).
      + exists addr. by split; [|right].
      + destruct H2 as [(? & ? & raw & [= <- <-] & Hr & Hk)|H2]; [|by exists addr].
        apply not_true_iff_false in Ha. destruct Ha. apply any_address. exists addr.
        split; [|done]. apply list_elem_of_omap. by exists raw. }
  destruct (tx_matches watched btx _).
  - split.
    + intros [= <-]. split_and!; [by exists (s :: signatures), keys|done|done|by apply Hm].
    + intros ((? & ? & [= <- <-] & [= Hh] & _) & Hq & Ht & _). destruct sig; simpl in *. by subst.
  - split; [done|]. intros (_ & _ & _ & H). by apply Hm in H.
Qed.

Lemma seqZ_le_sorted m n : StronglySorted Z.le (seqZ m (Z.of_nat n)).
Proof.
  revert m. induction n as [|n IH]; intros m; [constructor|].
  rewrite seqZ_cons by lia. replace (Z.pred (Z.of_nat (S n))) with (Z.of_nat n) by lia. constructor; [apply IH|].
  apply Forall_forall. intros x Hx%elem_of_seqZ. lia.
Qed.

Section Scan.
Context (client : RPCClient) (first_error : list go_error -> go_error).

Lemma scan_slot_ok watched slot sigs : scan_slot client watched slot = Ok sigs <->
  exists block, GetBlock client slot = Ok block /\
    sigs = match block with
           | None => []
           | Some b => omap (scan_tx watched slot (unix_time (br_BlockTime b))) (br_Transactions b)
           end.
Proof.
  unfold scan_slot. destruct (GetBlock client slot) as [[b|]|err].
  - split; [intros [= <-]; by exists (Some b)|by intros (? & [= <-] & ->)].
  - split; [intros [= <-]; by exists None|by intros (? & [= <-] & ->)].
  - split; [done|by intros (? & ? & _)].
Qed.

(** A transaction of the slot that names a watched address. *)
Definition found (watchedAddresses : list string) (block : Z -> option BlockResult) (sig : SignatureInfo) : Prop :=
  exists b btx, block (sg_Sequence sig) = Some b /\ btx ∈ br_Transactions b /\ signed btx (sg_Hash sig) /\
    sg_Time sig = unix_time (br_BlockTime b) /\
    exists addr, addr ∈ watchedAddresses /\ (names_key btx addr \/ names_owner btx addr).

Lemma slot_found watchedAddresses (block : Z -> option BlockResult) slot sigs sig :
  GetBlock client slot = Ok (block slot) -> scan_slot client (list_to_set watchedAddresses) slot = Ok sigs ->
  (sig ∈ sigs <-> sg_Sequence sig = slot /\ found watchedAddresses block sig).
Proof.
  intros Hb (block' & Hb' & ->)%scan_slot_ok. rewrite Hb in Hb'. injection Hb' as <-. unfold found.
  destruct (block slot) as [b|] eqn:Hslot.
  - rewrite list_elem_of_omap. setoid_rewrite scan_tx_spec. setoid_rewrite elem_of_list_to_set. split.
    + intros (btx & Hin & Hs & Hq & Ht & Ha). split; [done|]. exists b, btx. by rewrite Hq.
    + intros (Hq & b' & btx & Hb' & Hin & Hs & Ht & Ha). rewrite Hq, Hslot in Hb'. injection Hb' as <-. by exists btx.
  - split; [intros []%elem_of_nil|]. intros (Hq & b & _ & Hb' & _). rewrite Hq in Hb'. congruence.
Qed.

Lemma slots_sorted watched slots results :
  StronglySorted Z.le slots -> scan_slot client watched <$> slots = Ok <$> results ->
  StronglySorted (fun x y => sg_Sequence x <= sg_Sequence y) (concat results) /\
  (forall sig, sig ∈ concat results -> sg_Sequence sig ∈ slots).
Proof.
  revert results. induction slots as [|slot slots IH]; intros results Hs Hr; destruct results as [|sigs results]; try done.
  { split; [constructor|by intros ? ?%elem_of_nil]. }
  simpl in Hr. injection Hr as Hsigs Hr. apply StronglySorted_inv in Hs as [Hs Hle].
  destruct (IH results Hs Hr) as [Hsort Hin]. rewrite Forall_forall in Hle.
  assert (Hslot : forall sig, sig ∈ sigs -> sg_Sequence sig = slot).
  { apply scan_slot_ok in Hsigs as ([b|] & _ & ->); [|by intros ? ?%elem_of_nil].
    intros sig (btx & _ & H)%list_elem_of_omap. by apply scan_tx_spec in H as (_ & ? & _). }
  clear Hsigs. simpl. split.
  - induction sigs as [|sig sigs IHs]; [done|]. simpl. constructor.
    + apply IHs. intros x Hx. apply Hslot. by apply list_elem_of_further.
    + apply Forall_forall. intros x [Hx|Hx]%elem_of_app.
      * rewrite (Hslot x), (Hslot sig); [done|apply list_elem_of_here|by apply list_elem_of_further].
      * rewrite (Hslot sig) by apply list_elem_of_here. by apply Hle, Hin.
  - intros sig [H|H]%elem_of_app; [rewrite (Hslot sig H); apply list_elem_of_here|].
    apply list_elem_of_further. by apply Hin.
Qed.

(** C23: a scan of slots that succeeds had an answer for every slot and returns, in the order
    of the slots, exactly the signed transactions of their blocks that name a watched address
    by an account key or as the owner of a token balance. *)
Theorem slots_scan_exact startSlot endSlot watchedAddresses sigs : startSlot <= endSlot -> watchedAddresses <> [] ->
  ScanBlocks client first_error startSlot endSlot watchedAddresses = Ok sigs ->
  exists block, (forall slot, startSlot <= slot <= endSlot -> GetBlock client slot = Ok (block slot)) /\
    StronglySorted (fun x y => sg_Sequence x <= sg_Sequence y) sigs /\
    forall sig, sig ∈ sigs <-> startSlot <= sg_Sequence sig <= endSlot /\ found watchedAddresses block sig.
Proof.
  intros Hrange Hwatched H. unfold ScanBlocks in H.
  destruct watchedAddresses as [|w ws]; [done|]. set (watched := w :: ws) in *.
  rewrite (proj2 (Z.ltb_ge _ _) Hrange) in H. cbn [length watched Nat.eqb orb] in H.
  apply rbind_ok in H as (results & Hr%wait_all_ok & [= <-]).
  set (block slot := match GetBlock client slot with Ok b => b | Err _ => None end).
  assert (Hslots : forall slot, slot ∈ seqZ startSlot (endSlot - startSlot + 1) <-> startSlot <= slot <= endSlot)
    by (intros; rewrite elem_of_seqZ; lia).
  assert (Hblock : forall slot, startSlot <= slot <= endSlot ->
    exists sigs, sigs ∈ results /\ scan_slot client (list_to_set watched) slot = Ok sigs /\ GetBlock client slot = Ok (block slot)).
  { intros slot Hslot%Hslots. apply (list_elem_of_fmap_2 (scan_slot client (list_to_set watched))) in Hslot. rewrite Hr in Hslot.
    apply list_elem_of_fmap in Hslot as (sigs & Heq & Hin). exists sigs. split_and!; [done|done|].
    apply scan_slot_ok in Heq as (b & Hb & _). unfold block. by rewrite Hb. }
  pose proof (seqZ_le_sorted startSlot (Z.to_nat (endSlot - startSlot + 1))) as Hsorted. rewrite Z2Nat.id in Hsorted by lia.
  destruct (slots_sorted _ _ _ Hsorted Hr) as [Hsort Hseq].
  exists block. split_and!; [by intros slot (? & _ & _ & ?)%Hblock|done|].
  intros sig. split.
  - intros Hin. assert (Hs := Hseq _ Hin). apply Hslots in Hs. split; [done|].
    apply elem_of_concat in Hin as (sigs & Hsigs & Hin).
    apply (list_elem_of_fmap_2 (@Ok go_error _)) in Hsigs. rewrite <- Hr in Hsigs.
    apply list_elem_of_fmap in Hsigs as (slot & Heq & Hslot%Hslots). destruct (Hblock slot Hslot) as (_ & _ & _ & Hb).
    by apply (slot_found watched block slot sigs sig Hb).
  - intros [Hs Hf]. destruct (Hblock _ Hs) as (sigs & Hin & Heq & Hb).
    apply elem_of_concat. exists sigs. split; [done|]. by apply (slot_found watched block _ sigs sig Hb).
Qed.

(** A client that batches answers as it does one by one. *)
Context (Hbatch : forall batch signatures txs, GetTransactions client = Some batch -> batch signatures = Ok txs ->
  Forall2 (fun s tx => GetTransaction client s = Ok tx) signatures txs).

Lemma one_by_one signatures txs : fetch_one client <$> signatures = Ok <$> txs <->
  Forall2 (fun s tx => GetTransaction client s = Ok tx) signatures txs.
Proof.
  assert (Hone : forall s tx, fetch_one client s = Ok tx <-> GetTransaction client s = Ok tx)
    by (intros s tx; unfold fetch_one; destruct (GetTransaction client s); split; congruence).
  split.
  - revert txs. induction signatures as [|s l IH]; intros [|tx txs] H; try done.
    simpl in H. injection H as H1 H2. constructor; [by apply Hone|by apply IH].
  - induction 1 as [|s tx l txs H _ IH]; [done|]. simpl. f_equal; [by apply Hone|done].
Qed.

(** Also: the transactions fetched are exactly those the node gives for each signature, in
    order, whether the batch request succeeds, fails or does not exist. *)
Theorem transactions_exact signatures txs :
  FetchTransactions client first_error signatures = Ok txs <->
  Forall2 (fun s tx => GetTransaction client s = Ok tx) signatures txs.
Proof.
  unfold FetchTransactions. destruct signatures as [|s l].
  { simpl. split; [by intros [= <-]|by inversion 1]. }
  set (sigs := s :: l). cbn [length sigs Nat.eqb].
  destruct (GetTransactions client) as [batch|] eqn:Hb; [|by rewrite wait_all_ok, one_by_one].
  destruct (batch sigs) as [rs|err] eqn:Hr; [|by rewrite wait_all_ok, one_by_one].
  pose proof (Hbatch _ _ _ eq_refl Hr) as Hrs. split; [by intros [= <-]|]. intros Htxs. f_equal.
  clear -Hrs Htxs. revert txs Htxs. induction Hrs as [|s' tx l' rs Hs _ IH]; inversion 1; subst; [done|].
  f_equal; [congruence|by apply IH].
Qed.
End Scan.

(** ** Witnesses *)

Module Examples.
Definition sig_at (s : string) (slot : Z) : rpcSignatureInfo := {| si_Signature := s; si_Slot := slot; si_BlockTime := Some slot |}.
Definition history : list rpcSignatureInfo := [sig_at "e" 9; sig_at "d" 7; sig_at "c" 7; sig_at "b" 5; sig_at "a" 3].

Definition tx_json (sig : string) (key : json) : RawMessage :=
  Some (JObject [("signatures", JArray [JString sig]); ("message", JObject [("accountKeys", JArray [key])])]).
Definition owner_meta (owner : string) : RawMessage :=
  Some (JObject [("preTokenBalances", JNull); ("postTokenBalances", JArray [JObject [("mint", JString "M"); ("owner", JString owner)]])]).
Definition block_7 : BlockResult :=
  {| br_BlockTime := Some 70; br_Transactions :=
       [{| bx_Transaction := tx_json "t1" (JObject [("pubkey", JString "A"); ("signer", JBool true)]); bx_Meta := None |};
        {| bx_Transaction := tx_json "t2" (JString "X"); bx_Meta := owner_meta "A" |};
        {| bx_Transaction := tx_json "t3" (JString "X"); bx_Meta := Some JNull |}] |}.

Definition client : RPCClient :=
  {| GetSlot _ := Ok 9; GetSignaturesForAddress _ opts := Ok (page history opts);
     GetTransaction s := Ok (tx_json s (JString "A"));
     GetTransactions := Some (fun l => Ok ((fun s => tx_json s (JString "A")) <$> l));
     GetBlock slot := Ok (if slot =? 7 then Some block_7 else None) |}.
Definition adapter : Adapter := NewAdapter [Some (WithMaxPageSize 2); None].
Definition no_error (es : list go_error) : go_error := default (EMsg "none") (head es).

Example pages_of_two : FetchNewSignaturesWithCutoff client adapter 9 "A" (Some "a") 3 7 =
  Some (Ok [{| sg_Hash := "b"; sg_Sequence := 5; sg_Time := Some (5 * 10 ^ 9) |};
            {| sg_Hash := "c"; sg_Sequence := 7; sg_Time := Some (7 * 10 ^ 9) |};
            {| sg_Hash := "d"; sg_Sequence := 7; sg_Time := Some (7 * 10 ^ 9) |}]).
Proof. vm_compute. reflexivity. Qed.

Example scan_finds : ScanBlocks client no_error 6 8 ["A"] =
  Ok [{| sg_Hash := "t1"; sg_Sequence := 7; sg_Time := Some (70 * 10 ^ 9) |};
      {| sg_Hash := "t2"; sg_Sequence := 7; sg_Time := Some (70 * 10 ^ 9) |}].
Proof. vm_compute. reflexivity. Qed.
End Examples.
Import Examples.

Lemma history_unique : NoDup (si_Signature <$> history).
Proof. apply (bool_decide_unpack _). vm_compute. exact I. Defined.
Lemma history_nonempty : EmptyString ∉ (si_Signature <$> history).
Proof. apply (bool_decide_unpack _). vm_compute. exact I. Defined.

Lemma newest_signatures_witness :
  FetchNewSignaturesWithCutoff client adapter 5 "A" (Some "a") 3 7 =
  Some (Ok (reverse (signature_of <$> take (Z.to_nat 3) (eligible 7 (since history (Some "a")))))).
Proof.
  refine (newest_signatures client "A" history history_unique history_nonempty (fun _ => eq_refl) adapter (Some "a") 3 7 5 _ _);
    first [reflexivity | vm_compute; repeat constructor | split; reflexivity].
Defined.

Lemma backlog_passed_over_witness : exists sigs newest,
  FetchNewSignatures client adapter 5 "A" (Some "a") 3 = Some (Ok sigs) /\ last sigs = Some newest /\
  (exists x, x ∈ since history (Some "a") /\ si_Signature x ∉ (sg_Hash <$> sigs)) /\
  FetchNewSignatures client adapter 5 "A" (Some (sg_Hash newest)) 3 = Some (Ok []).
Proof.
  refine (backlog_passed_over client "A" history history_unique history_nonempty (fun _ => eq_refl) adapter (Some "a") 3 5 _ _ _);
    vm_compute; auto; lia.
Defined.

Lemma slots_scan_exact_witness :
  exists block, (forall slot, 6 <= slot <= 8 -> GetBlock client slot = Ok (block slot)) /\
    StronglySorted (fun x y => sg_Sequence x <= sg_Sequence y) (default [] (match ScanBlocks client no_error 6 8 ["A"] with Ok l => Some l | _ => None end)) /\
    forall sig, sig ∈ default [] (match ScanBlocks client no_error 6 8 ["A"] with Ok l => Some l | _ => None end) <->
      6 <= sg_Sequence sig <= 8 /\ found ["A"] block sig.
Proof. refine (slots_scan_exact client no_error 6 8 ["A"] _ _ _ _); [lia|discriminate|reflexivity]. Defined.

Lemma transactions_exact_witness :
  FetchTransactions client no_error ["x"; "y"] = Ok [tx_json "x" (JString "A"); tx_json "y" (JString "A")] <->
  Forall2 (fun s tx => GetTransaction client s = Ok tx) ["x"; "y"] [tx_json "x" (JString "A"); tx_json "y" (JString "A")].
Proof.
  refine (transactions_exact client no_error _ ["x"; "y"] _). intros batch signatures txs [= <-] [= <-].
  induction signatures; constructor; [reflexivity|assumption].
Defined.
