(* ===== verification/EvmAdapter.v ===== *)
(** * EVM adapter: [internal/chain/base/adapter.go]

    The chain adapter of the EVM chains, over the interface of its RPC client: which
    transactions of a block range touch watched addresses, found in the blocks, in the logs
    and, when enabled, in traces.  The client is an argument, [RPCClient], that gives the
    node's answer to each request of one call of the adapter. *)

From Stdlib Require Import ZArith String Ascii Lia.
From stdpp Require Import base option list strings gmap sorting.
From S2P Require Import Prelude Ordering Json Retry ErrGroup NormalizerDecode.

Open Scope Z_scope.
Open Scope go_scope.

(** ** Messages of the node: [base/rpc/types.go] *)

Record Transaction := {
  tx_Hash : string; tx_BlockNumber : string; tx_TransactionIndex : string; tx_From : string; tx_To : string;
  tx_Value : string; tx_GasPrice : string
}.

Record Block := {
  bk_Number : string; bk_Hash : string; bk_ParentHash : string; bk_Timestamp : string;
  bk_Transactions : list (option Transaction)
}.

Record Log := {
  lg_Address : string; lg_Topics : list string; lg_Data : string; lg_BlockNumber : string;
  lg_TransactionHash : string; lg_TransactionIndex : string; lg_LogIndex : string; lg_Removed : bool
}.

Record TransactionReceipt := {
  rc_TransactionHash : string; rc_BlockNumber : string; rc_TransactionIndex : string; rc_Status : string;
  rc_From : string; rc_To : string; rc_GasUsed : string; rc_EffectiveGasPrice : string;
  rc_L1Fee : option string; rc_L1GasUsed : option string; rc_L1GasPrice : option string;
  rc_Logs : list (option Log)
}.

(** One position of a topic filter: anything, one topic, or one of several. *)
Inductive topic := TAny | TOne (t : string) | TMany (l : list string).

Record LogFilter := { lf_FromBlock : string; lf_ToBlock : string; lf_Topics : list topic }.

Inductive CallFrame := Frame {
  cf_Type : string; cf_From : string; cf_To : string; cf_Value : string; cf_Input : string; cf_Output : string;
  cf_Error : string; cf_Calls : list (option CallFrame)
}.

Record BlockTrace := { bt_TxHash : string; bt_Result : CallFrame }.

(** [rpc.RPCClient] *)
Record RPCClient := {
  GetBlockNumber : result go_error Z;
  GetFinalizedBlockNumber : result go_error Z;
  GetBlockByNumber : Z -> bool -> result go_error (option Block);
  GetBlocksByNumber : list Z -> bool -> result go_error (list (option Block));
  GetTransactionByHash : string -> result go_error (option Transaction);
  GetTransactionsByHash : list string -> result go_error (list (option Transaction));
  GetTransactionReceipt : string -> result go_error (option TransactionReceipt);
  GetTransactionReceiptsByHash : list string -> result go_error (list (option TransactionReceipt));
  GetLogs : LogFilter -> result go_error (list (option Log));
  TraceBlockByNumber : Z -> result go_error (list (option BlockTrace))
}.

Record Adapter := {
  ad_chainName : string; ad_evmLayer : string; ad_maxInitialLookbackBlocks : Z; ad_maxConcurrentTxs : Z;
  ad_traceEnabled : bool
}.

(** ** Numbers, addresses and order *)

(** [strconv.ParseUint(s, 16, 64)] on lower case *)
Fixpoint hex_digits (acc : Z) (s : string) : option Z :=
  match s with
  | EmptyString => Some acc
  | String c s' => match hex_value c with Some d => hex_digits (acc * 16 + d) s' | None => None end
  end.

(** [int64(parsed)] wraps around. *)
Definition ParseHexInt64 (value : string) : option Z :=
  let raw := trim_space value in
  if str_empty raw then None
  else
    let raw := trim_prefix (to_lower raw) "0x" in
    if str_empty raw then Some 0
    else match hex_digits 0 raw with
         | Some n => if n <? 2 ^ 64 then Some (wrap64 n) else None
         | None => None
         end.

Fixpoint hex_string (fuel : nat) (n : Z) (acc : string) : string :=
  match fuel with
  | O => acc
  | S fuel' =>
      let acc := String (hex_lower (n mod 16)) acc in
      if n / 16 =? 0 then acc else hex_string fuel' (n / 16) acc
  end.

(** [fmt.Sprintf("0x%x", value)]: sixteen digits are enough for 64 bits. *)
Definition formatHexInt64 (value : Z) : string :=
  if value <? 0 then "0x-" +:+ hex_string 16 (- value) "" else "0x" +:+ hex_string 16 value "".

Definition inferEVMLayer (chainName : string) : string :=
  if str_in chainName ["ethereum"; "polygon"; "bsc"] then "l1" else "l2".

Definition isAfterCursor (blockNum txIndex cursorBlock cursorTxIndex : Z) : bool :=
  if cursorBlock <? 0 then true
  else if blockNum <? cursorBlock then false
  else if cursorBlock <? blockNum then true
  else negb ((0 <=? cursorTxIndex) && (0 <=? txIndex) && (txIndex <=? cursorTxIndex)).

(** [Lt] for a negative result, [Gt] for a positive one; unknown indices come last. *)
Definition compareTxIndex (a b : Z) : comparison :=
  if a =? b then Eq
  else if (a <? 0) && (b <? 0) then Eq
  else if a <? 0 then Gt
  else if b <? 0 then Lt
  else if a <? b then Lt
  else Gt.

Definition addressTopicFromNormalized (addr : string) : string :=
  let raw := trim_prefix addr "0x" in
  if (String.length raw =? 40)%nat then "0x000000000000000000000000" +:+ raw else "".

Definition normal_address (address : string) : string := to_lower (trim_space address).

Definition addressTopic (address : string) : string := addressTopicFromNormalized (normal_address address).

Definition isLikelyLogRangeLimitError (err : go_error) : bool :=
  contains_any (to_lower (error_text err))
    ["10000"; "10,000"; "query returned more than"; "too many results"; "response size exceeded";
     "exceeds max results"; "block range is too wide"; "limit exceeded"; "-32005"].

(** A position that is not a single topic accepts every log, as the type assertion to
    string fails. *)
Fixpoint logMatchesTopics (logTopics : list string) (topics : list topic) : bool :=
  match topics with
  | [] => true
  | expected :: topics' =>
      match expected with
      | TOne t =>
          match logTopics with
          | [] => false
          | found :: _ => equal_fold (trim_space found) (trim_space t)
          end
      | _ => true
      end && logMatchesTopics (tail logTopics) topics'
  end.

(** ** Candidates *)

Record candidateSignature := { cs_hash : string; cs_blockNum : Z; cs_txIndex : Z; cs_blockTime : option Z }.

Definition is_after (a b : candidateSignature) : bool :=
  (cs_blockNum b <? cs_blockNum a) ||
  ((cs_blockNum a =? cs_blockNum b) && is_gt (compareTxIndex (cs_txIndex a) (cs_txIndex b))).

(** The earliest place of a hash is kept, with the first known time. *)
Definition upsertCandidate (candidates : gmap string candidateSignature) (c : candidateSignature)
    : gmap string candidateSignature :=
  if str_empty (trim_space (cs_hash c)) then candidates
  else
    match candidates !! cs_hash c with
    | None => <[cs_hash c := c]> candidates
    | Some existing =>
        let earlier := is_after existing c in
        <[cs_hash c :=
            {| cs_hash := cs_hash existing;
               cs_blockNum := if earlier then cs_blockNum c else cs_blockNum existing;
               cs_txIndex := if earlier then cs_txIndex c else cs_txIndex existing;
               cs_blockTime := match cs_blockTime existing with Some t => Some t | None => cs_blockTime c end |}]>
          candidates
    end.

Definition candidate_order : candidateSignature -> candidateSignature -> comparison :=
  lex (on cs_blockNum Z.compare) (lex (on cs_txIndex compareTxIndex) (on cs_hash String.compare)).

Definition signature_of (c : candidateSignature) : SignatureInfo :=
  {| sg_Hash := cs_hash c; sg_Sequence := cs_blockNum c; sg_Time := cs_blockTime c |}.

(** Go visits the map in any order before it sorts; the hashes are distinct. *)
Definition ordered_candidates (candidates : gmap string candidateSignature) : list candidateSignature :=
  stable_sort candidate_order (map_to_list candidates).*2.

(** ** Logs *)

(** A range of block numbers, both ends included. *)
Definition block_range (from to_ : Z) : list Z := (fun i => from + Z.of_nat i) <$> seq 0 (Z.to_nat (to_ - from + 1)).

Section Client.
Context (client : RPCClient).

Definition or_nil {A} (r : result go_error (option A)) : option A := match r with Ok o => o | Err _ => None end.

Definition block_hashes (block : Block) : list string :=
  omap (fun tx => match tx with
                  | Some tx => if str_empty (trim_space (tx_Hash tx)) then None else Some (tx_Hash tx)
                  | None => None
                  end) (bk_Transactions block).

(** The receipts of a block: in one batch, or one by one when the batch fails, and what a
    short batch lacks one by one; receipts that cannot be fetched are left out. *)
Definition block_receipts (txHashes : list string) : list (option TransactionReceipt) :=
  match GetTransactionReceiptsByHash client txHashes with
  | Err _ => (fun h => or_nil (GetTransactionReceipt client h)) <$> txHashes
  | Ok receipts =>
      if (length receipts <? length txHashes)%nat
      then imap (fun i h => match receipts !! i with
                            | Some (Some r) => Some r
                            | _ => or_nil (GetTransactionReceipt client h)
                            end) txHashes
      else receipts
  end.

Definition complete_log (receipt : TransactionReceipt) (entry : Log) : Log :=
  let or_receipt value dflt := if str_empty (trim_space value) then dflt else value in
  {| lg_Address := lg_Address entry; lg_Topics := lg_Topics entry; lg_Data := lg_Data entry;
     lg_BlockNumber := or_receipt (lg_BlockNumber entry) (rc_BlockNumber receipt);
     lg_TransactionHash := or_receipt (lg_TransactionHash entry) (rc_TransactionHash receipt);
     lg_TransactionIndex := or_receipt (lg_TransactionIndex entry) (rc_TransactionIndex receipt);
     lg_LogIndex := lg_LogIndex entry; lg_Removed := lg_Removed entry |}.

Definition receipt_logs (topics : list topic) (receipt : option TransactionReceipt) : list (option Log) :=
  match receipt with
  | None => []
  | Some receipt =>
      omap (fun entry => match entry with
                         | Some entry => if logMatchesTopics (lg_Topics entry) topics
                                         then Some (Some (complete_log receipt entry)) else None
                         | None => None
                         end) (rc_Logs receipt)
  end.

Definition scanBlockReceiptsForTopics (blockNum : Z) (topics : list topic) : result go_error (list (option Log)) :=
  match GetBlockByNumber client blockNum true with
  | Err err => Err (EWrap ("get block " +:+ show_Z blockNum +:+ " for receipt fallback") err)
  | Ok None => Ok []
  | Ok (Some block) =>
      match block_hashes block with
      | [] => Ok []
      | txHashes => Ok (concat (receipt_logs topics <$> block_receipts txHashes))
      end
  end.

Definition log_filter (fromBlock toBlock : Z) (topics : list topic) : LogFilter :=
  {| lf_FromBlock := formatHexInt64 fromBlock; lf_ToBlock := formatHexInt64 toBlock; lf_Topics := topics |}.

(** [None] only without fuel: the number of blocks of the range is enough, see
    [fetchLogs_total].  Both errors of a failed fallback are wrapped with %w; a chain of
    [go_error] keeps the second and the text of the first. *)
Fixpoint fetchLogsWithFallback (fuel : nat) (fromBlock toBlock : Z) (topics : list topic)
    : option (result go_error (list (option Log))) :=
  match fuel with
  | O => None
  | S fuel' =>
      if toBlock <? fromBlock then Some (Ok [])
      else match GetLogs client (log_filter fromBlock toBlock topics) with
           | Ok logs => Some (Ok logs)
           | Err err =>
               if (fromBlock <? toBlock) && isLikelyLogRangeLimitError err then
                 let mid := fromBlock + Z.quot (toBlock - fromBlock) 2 in
                 match fetchLogsWithFallback fuel' fromBlock mid topics with
                 | Some (Ok lower) =>
                     match fetchLogsWithFallback fuel' (mid + 1) toBlock topics with
                     | Some (Ok upper) => Some (Ok (lower ++ upper))
                     | r => r
                     end
                 | r => r
                 end
               else if fromBlock =? toBlock then
                 match scanBlockReceiptsForTopics fromBlock topics with
                 | Ok receiptLogs => Some (Ok receiptLogs)
                 | Err fallbackErr =>
                     Some (Err (EWrap ("eth_getLogs block " +:+ show_Z fromBlock +:+ " failed (" +:+ error_text err +:+
                                       "), and receipt fallback failed") fallbackErr))
                 end
               else Some (Err err)
           end
  end.

Definition out_of_fuel : go_error := EMsg "unreachable".

Definition fetchLogs (fromBlock toBlock : Z) (topics : list topic) : result go_error (list (option Log)) :=
  default (Err out_of_fuel) (fetchLogsWithFallback (S (Z.to_nat (toBlock - fromBlock))) fromBlock toBlock topics).

(** Which of several errors an error group returns: the one that came first. *)
Context (first_error : list go_error -> go_error).

(** The three positions an indexed address can have in a log. *)
Definition address_filters (expected : topic) : list (list topic) :=
  [[TAny; expected]; [TAny; TAny; expected]; [TAny; TAny; TAny; expected]].

Definition fetchAddressTopicLogs (fromBlock toBlock : Z) (t : string) : result go_error (list (option Log)) :=
  let! logs := wait_all first_error (fetchLogs fromBlock toBlock <$> address_filters (TOne t)) in Ok (concat logs).

(** ** Traces *)

Definition no_value (v : string) : bool := str_in v [""; "0x0"; "0x"; "0"].

Fixpoint hasInternalTransferToWatched (frame : CallFrame) (addrSet : gset string) : bool :=
  let here := negb (no_value (cf_Value frame)) &&
    (bool_decide (normal_address (cf_From frame) ∈ addrSet) || bool_decide (normal_address (cf_To frame) ∈ addrSet)) in
  here || (fix any (calls : list (option CallFrame)) : bool :=
             match calls with
             | [] => false
             | Some child :: calls' => hasInternalTransferToWatched child addrSet || any calls'
             | None :: calls' => any calls'
             end) (cf_Calls frame).

Definition trace_candidates (addrSet : gset string) (blockTimeByNum : gmap Z (option Z)) (blockNum : Z)
    (traces : list (option BlockTrace)) : list candidateSignature :=
  omap (fun trace => match trace with
                     | Some trace =>
                         if hasInternalTransferToWatched (bt_Result trace) addrSet
                         then Some {| cs_hash := bt_TxHash trace; cs_blockNum := blockNum; cs_txIndex := -1;
                                      cs_blockTime := mjoin (blockTimeByNum !! blockNum) |}
                         else None
                     | None => None
                     end) traces.

Definition scanInternalTransfers (startBlock endBlock : Z) (addrSet : gset string) (blockTimeByNum : gmap Z (option Z))
    : result go_error (list candidateSignature) :=
  rfoldl (fun acc blockNum =>
    match TraceBlockByNumber client blockNum with
    | Err err => Err (EWrap ("trace block " +:+ show_Z blockNum) err)
    | Ok traces => Ok (acc ++ trace_candidates addrSet blockTimeByNum blockNum traces)
    end) [] (block_range startBlock endBlock).

(** ** Scanning *)

(** An index that cannot be parsed is -1. *)
Definition parsed_index (value : string) : Z := default (-1) (ParseHexInt64 value).

Definition block_time (timestamp : string) : option Z :=
  match ParseHexInt64 timestamp with
  | Some ts => if 0 <? ts then Some (ts * 10 ^ 9) else None
  | None => None
  end.

Definition touches (watched : string -> bool) (tx : Transaction) : bool :=
  watched (normal_address (tx_From tx)) || watched (normal_address (tx_To tx)).

(** The transactions of a block that touch a watched address and pass [ok] (on the block
    number and the index). *)
Definition block_candidates (watched : string -> bool) (ok : Z -> Z -> bool) (blockNum : Z) (block : Block)
    : list candidateSignature :=
  omap (fun tx => match tx with
                  | None => None
                  | Some tx =>
                      let txIndex := parsed_index (tx_TransactionIndex tx) in
                      if str_empty (trim_space (tx_Hash tx)) then None
                      else if negb (ok blockNum txIndex) then None
                      else if negb (touches watched tx) then None
                      else Some {| cs_hash := tx_Hash tx; cs_blockNum := blockNum; cs_txIndex := txIndex;
                                   cs_blockTime := block_time (bk_Timestamp block) |}
                  end) (bk_Transactions block).

Definition log_candidate (ok : Z -> Z -> bool) (time_of : Z -> option Z) (entry : option Log)
    : option candidateSignature :=
  match entry with
  | None => None
  | Some entry =>
      if str_empty (trim_space (lg_TransactionHash entry)) then None
      else match ParseHexInt64 (lg_BlockNumber entry) with
           | None => None
           | Some blockNum =>
               let txIndex := parsed_index (lg_TransactionIndex entry) in
               if negb (ok blockNum txIndex) then None
               else Some {| cs_hash := lg_TransactionHash entry; cs_blockNum := blockNum; cs_txIndex := txIndex;
                            cs_blockTime := time_of blockNum |}
           end
  end.

Definition upsert_all (candidates : gmap string candidateSignature) (l : list candidateSignature)
    : gmap string candidateSignature := foldl upsertCandidate candidates l.

Definition any_place (blockNum txIndex : Z) : bool := true.

Definition blockFetchBatchSize : Z := 50.

(** The candidates and the times of the blocks seen so far. *)
Definition scan_state : Type := gmap string candidateSignature * gmap Z (option Z).

Definition scan_block (addrSet : gset string) (st : scan_state) (numbered : Z * option Block) : scan_state :=
  match numbered.2 with
  | None => st
  | Some block =>
      (upsert_all st.1 (block_candidates (fun a => bool_decide (a ∈ addrSet)) any_place numbered.1 block),
       <[numbered.1 := block_time (bk_Timestamp block)]> st.2)
  end.

(** [fuel] batches of at most fifty blocks. *)
Fixpoint scan_batches (fuel : nat) (addrSet : gset string) (batchStart endBlock : Z) (st : scan_state)
    : result go_error scan_state :=
  match fuel with
  | O => Ok st
  | S fuel' =>
      if endBlock <? batchStart then Ok st
      else
        let batchEnd := Z.min (batchStart + blockFetchBatchSize - 1) endBlock in
        let blockNums := block_range batchStart batchEnd in
        match GetBlocksByNumber client blockNums true with
        | Err err => Err (EWrap ("batch scan blocks " +:+ show_Z batchStart +:+ "-" +:+ show_Z batchEnd) err)
        | Ok blocks =>
            scan_batches fuel' addrSet (batchStart + blockFetchBatchSize) endBlock
              (foldl (scan_block addrSet) st (zip blockNums blocks))
        end
  end.

Definition batch_count (startBlock endBlock : Z) : nat :=
  Z.to_nat ((endBlock - startBlock) / blockFetchBatchSize + 1).

(** The topics of the watched addresses; Go lists them in map order, and the filter means
    any of them. *)
Definition address_topics (addrSet : gset string) : list string :=
  filter (fun t => str_empty t = false) (addressTopicFromNormalized <$> elements addrSet).

Definition scan_logs (startBlock endBlock : Z) (addrSet : gset string) (st : scan_state)
    : result go_error (gmap string candidateSignature) :=
  match address_topics addrSet with
  | [] => Ok st.1
  | addrTopics =>
      rfoldl (fun candidates topics =>
        match fetchLogs startBlock endBlock topics with
        | Err err => Err (EWrap "scan logs" err)
        | Ok logs => Ok (upsert_all candidates (omap (log_candidate any_place (fun n => mjoin (st.2 !! n))) logs))
        end) st.1 (address_filters (TMany addrTopics))
  end.

Definition ScanBlocks (a : Adapter) (startBlock endBlock : Z) (watchedAddresses : list string)
    : result go_error (list SignatureInfo) :=
  if (endBlock <? startBlock) || (length watchedAddresses =? 0)%nat then Ok []
  else
    let addrSet : gset string := list_to_set (normal_address <$> watchedAddresses) in
    let! st := scan_batches (batch_count startBlock endBlock) addrSet startBlock endBlock (∅, ∅) in
    let! candidates := scan_logs startBlock endBlock addrSet st in
    let candidates :=
      if ad_traceEnabled a then
        match scanInternalTransfers startBlock endBlock addrSet st.2 with
        | Err _ => candidates
        | Ok traceCandidates => upsert_all candidates traceCandidates
        end
      else candidates in
    Ok (signature_of <$> ordered_candidates candidates).

(** ** Signatures of one address *)

(** Where the scan starts and after which place: the block of the cursor, or the blocks of
    the initial lookback. *)
Definition cursor_place (a : Adapter) (head : Z) (cursor : option string) : result go_error (Z * Z * Z) :=
  let startBlock := head ⊖ (ad_maxInitialLookbackBlocks a ⊖ 1) in
  let startBlock := if startBlock <? 0 then 0 else startBlock in
  match cursor with
  | None => Ok (startBlock, -1, -1)
  | Some c =>
      if str_empty (trim_space c) then Ok (startBlock, -1, -1)
      else match GetTransactionByHash client c with
           | Err txErr => Err (EWrap ("resolve cursor tx " +:+ c) txErr)
           | Ok None => Ok (startBlock, -1, -1)
           | Ok (Some cursorTx) =>
               let cursorBlock := ParseHexInt64 (tx_BlockNumber cursorTx) in
               Ok (default startBlock cursorBlock, default (-1) cursorBlock,
                   default (-1) (ParseHexInt64 (tx_TransactionIndex cursorTx)))
           end
  end.

Definition head_of (cutoffSeq : Z) : result go_error Z :=
  if cutoffSeq <=? 0 then
    match GetBlockNumber client with
    | Ok liveHead => Ok liveHead
    | Err err => Err (EWrap "get head block" err)
    end
  else Ok cutoffSeq.

Definition scan_address (address : string) (batchSize head startBlock cursorBlock cursorTxIndex : Z)
    : result go_error (list SignatureInfo) :=
    let addr := normal_address address in
    let ok blockNum txIndex := isAfterCursor blockNum txIndex cursorBlock cursorTxIndex in
    let blockNums := block_range startBlock head in
    match GetBlocksByNumber client blockNums true with
    | Err err => Err (EWrap ("batch get blocks " +:+ show_Z startBlock +:+ "-" +:+ show_Z head) err)
    | Ok blocks =>
        let candidates :=
          foldl (fun m nb => match nb.2 with
                             | Some block => upsert_all m (block_candidates (String.eqb addr) ok nb.1 block)
                             | None => m
                             end) ∅ (zip blockNums blocks) in
        let! candidates :=
          (let t := addressTopic addr in
           if str_empty t then Ok candidates
           else match fetchAddressTopicLogs startBlock head t with
                | Err err => Err (EWrap ("eth_getLogs failed for address " +:+ address) err)
                | Ok logs => Ok (upsert_all candidates (omap (log_candidate ok (fun _ => None)) logs))
                end) in
        Ok (take (Z.to_nat batchSize) (signature_of <$> ordered_candidates candidates))
    end.

(** [None]: a cursor more than one block above the head panics, because the slice of block
    numbers is made with a negative capacity. *)
Definition FetchNewSignaturesWithCutoff (a : Adapter) (address : string) (cursor : option string)
    (batchSize cutoffSeq : Z) : option (result go_error (list SignatureInfo)) :=
  if batchSize <=? 0 then Some (Ok [])
  else
    match (let! head := head_of cutoffSeq in
           let! '(startBlock, cursorBlock, cursorTxIndex) := cursor_place a head cursor in
           Ok (head, startBlock, cursorBlock, cursorTxIndex)) with
    | Err err => Some (Err err)
    | Ok (head, startBlock, cursorBlock, cursorTxIndex) =>
        if head - startBlock + 1 <? 0 then None
        else Some (scan_address address batchSize head startBlock cursorBlock cursorTxIndex)
    end.

Definition FetchNewSignatures (a : Adapter) (address : string) (cursor : option string) (batchSize : Z)
    : option (result go_error (list SignatureInfo)) := FetchNewSignaturesWithCutoff a address cursor batchSize 0.

(** ** Blocks *)

Definition GetHeadSequence : result go_error Z := GetBlockNumber client.

Definition GetBlockHash (blockNumber : Z) : result go_error (string * string) :=
  match GetBlockByNumber client blockNumber false with
  | Err err => Err (EWrap ("get block " +:+ show_Z blockNumber) err)
  | Ok None => Err (EMsg ("block " +:+ show_Z blockNumber +:+ " not found"))
  | Ok (Some block) => Ok (bk_Hash block, bk_ParentHash block)
  end.

(** ** Transactions *)

Definition transaction_json (tx : Transaction) : string :=
  json_fields [json_field "hash" (json_str (tx_Hash tx)); json_field "blockNumber" (json_str (tx_BlockNumber tx));
    json_field "transactionIndex" (json_str (tx_TransactionIndex tx)); json_field "from" (json_str (tx_From tx));
    json_field "to" (json_str (tx_To tx)); json_field "value" (json_str (tx_Value tx));
    json_field "gasPrice" (json_str (tx_GasPrice tx))].

Definition log_json (entry : option Log) : string :=
  match entry with
  | None => "null"
  | Some e =>
      json_fields [json_field "address" (json_str (lg_Address e)); json_field "topics" (json_array json_str (lg_Topics e));
        json_field "data" (json_str (lg_Data e)); json_field "blockNumber" (json_str (lg_BlockNumber e));
        json_field "transactionHash" (json_str (lg_TransactionHash e));
        json_field "transactionIndex" (json_str (lg_TransactionIndex e));
        json_field "logIndex" (json_str (lg_LogIndex e)); json_field "removed" (if lg_Removed e then "true" else "false")]
  end.

Definition receipt_json (r : TransactionReceipt) : string :=
  json_fields [json_field "transactionHash" (json_str (rc_TransactionHash r));
    json_field "blockNumber" (json_str (rc_BlockNumber r));
    json_field "transactionIndex" (json_str (rc_TransactionIndex r)); json_field "status" (json_str (rc_Status r));
    json_field "from" (json_str (rc_From r)); json_field "to" (json_str (rc_To r));
    json_field "gasUsed" (json_str (rc_GasUsed r)); json_field "effectiveGasPrice" (json_str (rc_EffectiveGasPrice r));
    json_field "l1Fee" (json_opt (rc_L1Fee r)); json_field "l1GasUsed" (json_opt (rc_L1GasUsed r));
    json_field "l1GasPrice" (json_opt (rc_L1GasPrice r)); json_field "logs" (json_array log_json (rc_Logs r))].

(** [json.Marshal] of the map, its keys in ascending order; slices of topics and logs come
    from the node as arrays, not as null. *)
Definition payload (a : Adapter) (tx : Transaction) (receipt : TransactionReceipt) : string :=
  json_fields [json_field "chain" (json_str (ad_chainName a)); json_field "evm_layer" (json_str (ad_evmLayer a));
    json_field "receipt" (receipt_json receipt); json_field "tx" (transaction_json tx)].

Definition fetchReceiptsOneByOne (signatures : list string) : result go_error (list (option TransactionReceipt)) :=
  wait_all first_error ((fun txHash => match GetTransactionReceipt client txHash with
                           | Ok receipt => Ok receipt
                           | Err err => Err (EWrap ("fetch receipt " +:+ txHash) err)
                           end) <$> signatures).

Definition fetchTransactionsOneByOne (a : Adapter) (signatures : list string) : result go_error (list string) :=
  wait_all first_error ((fun txHash =>
    match GetTransactionByHash client txHash with
    | Err err => Err (EWrap ("fetch transaction " +:+ txHash) err)
    | Ok None => Err (EMsg ("transaction " +:+ txHash +:+ " not found"))
    | Ok (Some tx) =>
        match GetTransactionReceipt client txHash with
        | Err err => Err (EWrap ("fetch receipt " +:+ txHash) err)
        | Ok None => Err (EMsg ("receipt " +:+ txHash +:+ " not found"))
        | Ok (Some receipt) => Ok (payload a tx receipt)
        end
    end) <$> signatures).

(** The client returns one entry for each hash. *)
Fixpoint payloads (a : Adapter) (signatures : list string) (txs : list (option Transaction))
    (receipts : list (option TransactionReceipt)) : result go_error (list string) :=
  match signatures with
  | [] => Ok []
  | txHash :: signatures' =>
      match mjoin (head txs), mjoin (head receipts) with
      | None, _ => Err (EMsg ("transaction " +:+ txHash +:+ " not found"))
      | _, None => Err (EMsg ("receipt " +:+ txHash +:+ " not found"))
      | Some tx, Some receipt =>
          let! rest := payloads a signatures' (tail txs) (tail receipts) in Ok (payload a tx receipt :: rest)
      end
  end.

Definition FetchTransactions (a : Adapter) (signatures : list string) : result go_error (list string) :=
  if (length signatures =? 0)%nat then Ok []
  else
    match GetTransactionsByHash client signatures with
    | Err _ => fetchTransactionsOneByOne a signatures
    | Ok txs =>
        let! receipts :=
          match GetTransactionReceiptsByHash client signatures with
          | Ok receipts => Ok receipts
          | Err _ => fetchReceiptsOneByOne signatures
          end in
        payloads a signatures txs receipts
    end.
End Client.

(** ** Construction *)

Definition WithMaxInitialLookbackBlocks (n : Z) (a : Adapter) : Adapter :=
  {| ad_chainName := ad_chainName a; ad_evmLayer := ad_evmLayer a; ad_maxInitialLookbackBlocks := n;
     ad_maxConcurrentTxs := ad_maxConcurrentTxs a; ad_traceEnabled := ad_traceEnabled a |}.
Definition WithMaxConcurrentTxs (n : Z) (a : Adapter) : Adapter :=
  {| ad_chainName := ad_chainName a; ad_evmLayer := ad_evmLayer a;
     ad_maxInitialLookbackBlocks := ad_maxInitialLookbackBlocks a; ad_maxConcurrentTxs := n;
     ad_traceEnabled := ad_traceEnabled a |}.
Definition WithTraceEnabled (enabled : bool) (a : Adapter) : Adapter :=
  {| ad_chainName := ad_chainName a; ad_evmLayer := ad_evmLayer a;
     ad_maxInitialLookbackBlocks := ad_maxInitialLookbackBlocks a; ad_maxConcurrentTxs := ad_maxConcurrentTxs a;
     ad_traceEnabled := enabled |}.

Definition NewAdapterWithChain (chainName : string) (opts : list (Adapter -> Adapter)) : Adapter :=
  foldl (fun a opt => opt a)
    {| ad_chainName := chainName; ad_evmLayer := inferEVMLayer chainName; ad_maxInitialLookbackBlocks := 200;
       ad_maxConcurrentTxs := 10; ad_traceEnabled := false |} opts.

Definition NewAdapter (opts : list (Adapter -> Adapter)) : Adapter := NewAdapterWithChain "base" opts.
