(* ===== verification/EvmAdapterProofs.v ===== *)
(** * EVM adapter: properties

    Splitting a log query terminates and answers for every block; a scan returns exactly
    the transactions that occur in the blocks, logs and traces of its range, once each. *)

From Stdlib Require Import ZArith String Ascii Lia.
From stdpp Require Import base option list strings gmap sorting.
From S2P Require Import Prelude Ordering Json Retry NormalizerDecode EvmAdapter.

Open Scope Z_scope.
Open Scope go_scope.

(** ** Ranges *)

Lemma block_range_elem n from to_ : n ∈ block_range from to_ <-> from <= n <= to_.
Proof.
  unfold block_range. rewrite list_elem_of_fmap. split.
  - intros (i & -> & Hi%elem_of_seq). lia.
  - intros Hn. exists (Z.to_nat (n - from)). split; [lia|]. apply elem_of_seq. lia.
Qed.

Lemma block_range_empty from to_ : to_ < from -> block_range from to_ = [].
Proof. intros H. unfold block_range. by replace (Z.to_nat (to_ - from + 1)) with 0%nat by lia. Qed.

Lemma block_range_one n : block_range n n = [n].
Proof. unfold block_range. replace (Z.to_nat (n - n + 1)) with 1%nat by lia. simpl. f_equal. lia. Qed.

Lemma block_range_split from mid to_ : from <= mid + 1 -> mid <= to_ ->
  block_range from to_ = block_range from mid ++ block_range (mid + 1) to_.
Proof.
  intros H1 H2. unfold block_range.
  replace (Z.to_nat (to_ - from + 1)) with (Z.to_nat (mid - from + 1) + Z.to_nat (to_ - (mid + 1) + 1))%nat by lia.
  rewrite seq_app, fmap_app. f_equal.
  rewrite Nat.add_0_l, <- (Nat.add_0_r (Z.to_nat (mid - from + 1))), <- fmap_add_seq, <- list_fmap_compose.
  apply list_fmap_ext. intros i k _. simpl. lia.
Qed.

(** ** Splitting a log query *)

Section Logs.
Context (client : RPCClient).

Lemma mid_bounds from to_ : from < to_ -> from <= from + Z.quot (to_ - from) 2 < to_.
Proof.
  intros H. rewrite Z.quot_div_nonneg by lia.
  pose proof (Z.div_mod (to_ - from) 2 ltac:(lia)). pose proof (Z.mod_pos_bound (to_ - from) 2 ltac:(lia)). lia.
Qed.

(** The node refuses a query for one block. *)
Definition refused (topics : list topic) (n : Z) : Prop := is_ok (GetLogs client (log_filter n n topics)) = false.

(** What a block contributes: the answer of the node or, when it refuses the query for the
    block, the logs of its receipts. *)
Definition block_part (node_logs : list topic -> Z -> list (option Log)) (topics : list topic) (n : Z)
    (part : list (option Log)) : Prop :=
  part = node_logs topics n \/ (refused topics n /\ scanBlockReceiptsForTopics client n topics = Ok part).

Definition parts_of (node_logs : list topic -> Z -> list (option Log)) (topics : list topic) (from to_ : Z)
    (logs : list (option Log)) : Prop :=
  exists parts, logs = concat parts /\ Forall2 (block_part node_logs topics) (block_range from to_) parts.

Context (node_logs : list topic -> Z -> list (option Log)).
Context (Hnode : forall from to_ topics logs, from <= to_ ->
  GetLogs client (log_filter from to_ topics) = Ok logs -> logs = concat (node_logs topics <$> block_range from to_)).

Lemma fetch_split topics fuel : forall from to_, (Z.to_nat (to_ - from) < fuel)%nat ->
  exists r, fetchLogsWithFallback client fuel from to_ topics = Some r /\
    forall logs, r = Ok logs -> parts_of node_logs topics from to_ logs.
Proof.
  induction fuel as [|fuel IH]; intros from to_ Hf; [lia|]. cbn [fetchLogsWithFallback].
  destruct (Z.ltb_spec to_ from) as [Hlt|Hle].
  { exists (Ok []). split; [done|]. intros logs [= <-]. exists []. by rewrite block_range_empty by lia. }
  destruct (GetLogs client _) as [logs|err] eqn:El.
  { exists (Ok logs). split; [done|]. intros ? [= <-]. exists (node_logs topics <$> block_range from to_).
    split; [by apply Hnode|]. apply Forall2_fmap_r, Forall_Forall2_diag, Forall_forall. by left. }
  destruct (Z.ltb_spec from to_) as [Hft|Hft]; cbn [andb].
  - pose proof (mid_bounds from to_ Hft) as Hm. set (mid := from + Z.quot (to_ - from) 2) in *.
    destruct (isLikelyLogRangeLimitError err).
    2: { rewrite (proj2 (Z.eqb_neq _ _)) by lia. by exists (Err err). }
    destruct (IH from mid ltac:(lia)) as (r1 & -> & H1). destruct r1 as [l1|e1]; [|by exists (Err e1)].
    destruct (IH (mid + 1) to_ ltac:(lia)) as (r2 & -> & H2). destruct r2 as [l2|e2]; [|by exists (Err e2)].
    exists (Ok (l1 ++ l2)). split; [done|]. intros logs [= <-].
    destruct (H1 l1 eq_refl) as (p1 & -> & F1), (H2 l2 eq_refl) as (p2 & -> & F2). exists (p1 ++ p2).
    split; [by rewrite concat_app|]. rewrite (block_range_split from mid to_) by lia. by apply Forall2_app.
  - rewrite (proj2 (Z.eqb_eq from to_)) by lia. assert (to_ = from) as -> by lia.
    destruct (scanBlockReceiptsForTopics client from topics) as [part|e] eqn:Es; [|by eexists].
    exists (Ok part). split; [done|]. intros logs [= <-]. exists [part]. split; [simpl; by rewrite app_nil_r|].
    rewrite block_range_one. constructor; [right; split; [|done]|constructor]. unfold refused. by rewrite El.
Qed.

(** Also: a query for the logs of a range always ends, however often it is split, and a
    result has the logs of every block of the range in order: what the node answers for it,
    or what its receipts give when the node refuses even a single block. *)
Theorem logs_every_block topics from to_ :
  exists r, fetchLogsWithFallback client (S (Z.to_nat (to_ - from))) from to_ topics = Some r /\
    fetchLogs client from to_ topics = r /\
    forall logs, r = Ok logs -> parts_of node_logs topics from to_ logs.
Proof.
  destruct (fetch_split topics (S (Z.to_nat (to_ - from))) from to_ ltac:(lia)) as (r & Hr & Hp).
  exists r. split; [done|]. split; [|done]. unfold fetchLogs. by rewrite Hr.
Qed.

Lemma fetchLogs_parts topics from to_ logs : fetchLogs client from to_ topics = Ok logs ->
  parts_of node_logs topics from to_ logs.
Proof.
  destruct (fetch_split topics (S (Z.to_nat (to_ - from))) from to_ ltac:(lia)) as (r & Hr & Hp).
  unfold fetchLogs. rewrite Hr. simpl. intros Hl. by apply Hp.
Qed.

(** *** The receipts of a block, when the positions of an address are searched

    The filters of a scan ask for one of several topics, which every log passes, so the
    fallback takes all logs of the block. *)

Definition named_hashes (block : Block) : list string :=
  filter (fun h => trim_space h <> EmptyString) (tx_Hash <$> omap id (bk_Transactions block)).

Lemma block_hashes_named block : block_hashes block = named_hashes block.
Proof.
  unfold block_hashes, named_hashes. induction (bk_Transactions block) as [|[tx|] l IH]; [done| |done].
  cbn [omap list_omap id fmap list_fmap]. rewrite filter_cons. unfold str_empty at 1.
  destruct (String.eqb_spec (trim_space (tx_Hash tx)) EmptyString) as [E|E].
  - by rewrite decide_False by (intros H; by apply H).
  - rewrite decide_True by done. f_equal. exact IH.
Qed.

(** The receipts that could be had for the transactions: those of a batch of full length, a
    short batch with its gaps filled one by one, or one by one when the batch fails. *)
Inductive had_receipts (hashes : list string) : list (option TransactionReceipt) -> Prop :=
| had_batch l : GetTransactionReceiptsByHash client hashes = Ok l -> (length hashes <= length l)%nat ->
    had_receipts hashes l
| had_short l rs : GetTransactionReceiptsByHash client hashes = Ok l -> (length l < length hashes)%nat ->
    length rs = length hashes ->
    (forall i h, hashes !! i = Some h ->
       rs !! i = Some (match mjoin (l !! i) with
                       | Some r => Some r
                       | None => match GetTransactionReceipt client h with Ok o => o | Err _ => None end
                       end)) -> had_receipts hashes rs
| had_singles err rs : GetTransactionReceiptsByHash client hashes = Err err ->
    length rs = length hashes ->
    (forall i h, hashes !! i = Some h ->
       rs !! i = Some (match GetTransactionReceipt client h with Ok o => o | Err _ => None end)) -> had_receipts hashes rs.

Lemma block_receipts_had hashes : had_receipts hashes (block_receipts client hashes).
Proof.
  unfold block_receipts. destruct (GetTransactionReceiptsByHash client hashes) as [l|err] eqn:E.
  - destruct (Nat.ltb_spec (length l) (length hashes)) as [Hl|Hl]; [|by apply had_batch].
    apply (had_short _ l); [done|done|by rewrite length_imap|]. intros i h Hi. rewrite list_lookup_imap, Hi. simpl.
    by destruct (l !! i) as [[x|]|].
  - apply (had_singles _ err); [done|by rewrite length_fmap|]. intros i h Hi. by rewrite list_lookup_fmap, Hi.
Qed.

(** A log, with what it lacks taken from its receipt. *)
Definition filled (receipt : TransactionReceipt) (entry : Log) : Log :=
  let own value dflt := if decide (trim_space value = EmptyString) then dflt else value in
  {| lg_Address := lg_Address entry; lg_Topics := lg_Topics entry; lg_Data := lg_Data entry;
     lg_BlockNumber := own (lg_BlockNumber entry) (rc_BlockNumber receipt);
     lg_TransactionHash := own (lg_TransactionHash entry) (rc_TransactionHash receipt);
     lg_TransactionIndex := own (lg_TransactionIndex entry) (rc_TransactionIndex receipt);
     lg_LogIndex := lg_LogIndex entry; lg_Removed := lg_Removed entry |}.

Lemma complete_filled receipt entry : complete_log receipt entry = filled receipt entry.
Proof.
  unfold complete_log, filled, str_empty.
  assert (forall v d : string, (if String.eqb (trim_space v) "" then d else v) =
    (if decide (trim_space v = EmptyString) then d else v)) as H.
  { intros v d. by destruct (String.eqb_spec (trim_space v) ""), (decide (trim_space v = EmptyString)). }
  by rewrite !H.
Qed.

Definition all_logs (receipt : option TransactionReceipt) : list (option Log) :=
  match receipt with
  | None => []
  | Some receipt => (fun entry => Some (filled receipt entry)) <$> omap id (rc_Logs receipt)
  end.

(** A filter of a scan has no single topic. *)
Definition address_filter (topics : list topic) : Prop := forall t, TOne t ∉ topics.

Lemma address_filter_matches topics : address_filter topics -> forall logTopics, logMatchesTopics logTopics topics = true.
Proof.
  induction topics as [|t topics IH]; intros Ht logTopics; [done|]. simpl.
  rewrite IH by (intros u Hu; apply (Ht u); by right). destruct t as [|u|]; [done| |done].
  exfalso. apply (Ht u). by left.
Qed.

Lemma receipt_logs_all topics receipt : address_filter topics -> receipt_logs topics receipt = all_logs receipt.
Proof.
  intros Ht. destruct receipt as [receipt|]; [|done]. unfold receipt_logs, all_logs.
  induction (rc_Logs receipt) as [|[entry|] l IH]; [done| |done]. cbn [omap list_omap id fmap list_fmap].
  by rewrite address_filter_matches, complete_filled, <- IH.
Qed.

(** What a block contributes to a scan. *)
Inductive scan_part (topics : list topic) (n : Z) : list (option Log) -> Prop :=
| part_answered : scan_part topics n (node_logs topics n)
| part_no_block : refused topics n -> GetBlockByNumber client n true = Ok None -> scan_part topics n []
| part_no_hashes block : refused topics n -> GetBlockByNumber client n true = Ok (Some block) ->
    named_hashes block = [] -> scan_part topics n []
| part_receipts block rs : refused topics n -> GetBlockByNumber client n true = Ok (Some block) ->
    named_hashes block <> [] -> had_receipts (named_hashes block) rs -> scan_part topics n (concat (all_logs <$> rs)).

Lemma block_scan_part topics n part : address_filter topics -> block_part node_logs topics n part -> scan_part topics n part.
Proof.
  intros Ht [->|[Hr H]]; [constructor|]. unfold scanBlockReceiptsForTopics in H.
  destruct (GetBlockByNumber client n true) as [[block|]|err] eqn:Eb; [|injection H as <-; by apply part_no_block|done].
  rewrite block_hashes_named in H. destruct (named_hashes block) as [|h hs] eqn:Eh; injection H as <-.
  - by apply (part_no_hashes _ _ block).
  - replace (receipt_logs topics <$> block_receipts client (h :: hs)) with (all_logs <$> block_receipts client (h :: hs)).
    + rewrite <- Eh. apply (part_receipts _ _ block); [done|done|by rewrite Eh|apply block_receipts_had].
    + apply list_fmap_ext. intros i receipt _. by rewrite receipt_logs_all.
Qed.

(** The logs of a range, block by block. *)
Definition scan_parts (topics : list topic) (from to_ : Z) (logs : list (option Log)) : Prop :=
  exists parts, logs = concat parts /\ Forall2 (scan_part topics) (block_range from to_) parts.

Lemma fetchLogs_scan topics from to_ logs : address_filter topics -> fetchLogs client from to_ topics = Ok logs ->
  scan_parts topics from to_ logs.
Proof.
  intros Ht (parts & -> & Hp)%fetchLogs_parts. exists parts. split; [done|].
  eapply Forall2_impl; [exact Hp|]. intros n part. by apply block_scan_part.
Qed.
End Logs.

(** ** Candidates *)

Definition index_rank (i : Z) : Z := if i <? 0 then 1 else 0.

Lemma compareTxIndex_lex a b :
  compareTxIndex a b = lex (on index_rank Z.compare) (on (fun i => Z.max 0 i * (1 - index_rank i)) Z.compare) a b.
Proof.
  unfold compareTxIndex, lex, on, index_rank.
  destruct (Z.eqb_spec a b) as [->|]; [by rewrite !Z.compare_refl|].
  destruct (Z.ltb_spec a 0), (Z.ltb_spec b 0); cbn [andb]; simpl Z.compare.
  - simpl. by rewrite !Z.mul_0_r.
  - reflexivity.
  - reflexivity.
  - destruct (Z.ltb_spec a b); simpl.
    + symmetry. apply Z.compare_lt_iff. lia.
    + symmetry. apply Z.compare_gt_iff. lia.
Qed.

#[export] Instance compareTxIndex_total : TotalCompare compareTxIndex.
Proof.
  assert (TotalCompare (lex (on index_rank Z.compare) (on (fun i => Z.max 0 i * (1 - index_rank i)) Z.compare))) as [H1 H2]
    by apply _.
  split.
  - intros x y. rewrite !compareTxIndex_lex. apply H1.
  - intros x y z. rewrite !compareTxIndex_lex. apply H2.
Qed.

#[export] Instance candidate_order_total : TotalCompare candidate_order.
Proof. unfold candidate_order. apply _. Qed.

Lemma ordered_elem m c : c ∈ ordered_candidates m <-> exists h, m !! h = Some c.
Proof.
  unfold ordered_candidates. rewrite stable_sort_perm, list_elem_of_fmap. split.
  - intros ([h c'] & -> & Hm). exists h. by apply elem_of_map_to_list in Hm.
  - intros [h Hm]. exists (h, c). by rewrite elem_of_map_to_list.
Qed.

(** ** Merging candidates *)

(** [a] is not after [b]. *)
Definition not_after (a b : candidateSignature) : Prop := is_after a b = false.

Definition place_order : candidateSignature -> candidateSignature -> comparison :=
  lex (on cs_blockNum Z.compare) (on cs_txIndex compareTxIndex).

#[export] Instance place_order_total : TotalCompare place_order.
Proof. unfold place_order. apply _. Qed.

Lemma not_after_order a b : not_after a b <-> place_order a b <> Gt.
Proof.
  unfold not_after, is_after, place_order, lex, on.
  destruct (Z.compare_spec (cs_blockNum a) (cs_blockNum b)) as [->|H|H].
  - rewrite Z.ltb_irrefl, Z.eqb_refl. simpl. by destruct (compareTxIndex _ _).
  - rewrite (proj2 (Z.ltb_ge _ _)), (proj2 (Z.eqb_neq _ _)) by lia. done.
  - rewrite (proj2 (Z.ltb_lt _ _)) by lia. done.
Qed.

Definition named (c : candidateSignature) : Prop := trim_space (cs_hash c) <> EmptyString.

(** What the map of candidates holds after the candidates [l]. *)
Record merged (l : list candidateSignature) (m : gmap string candidateSignature) : Prop := {
  mg_sound : forall h c, m !! h = Some c -> cs_hash c = h /\ named c /\
    exists c', c' ∈ l /\ cs_hash c' = h /\ cs_blockNum c' = cs_blockNum c /\ cs_txIndex c' = cs_txIndex c;
  mg_complete : forall c', c' ∈ l -> named c' -> exists c, m !! cs_hash c' = Some c /\ not_after c c'
}.

Lemma merged_nil : merged [] ∅.
Proof. split; [intros h c; by rewrite lookup_empty|intros c'; set_solver]. Qed.

(** A named candidate enters under its hash, at the earlier of its own and the old place. *)
Lemma upsert_entry m c : named c -> (forall e, m !! cs_hash c = Some e -> cs_hash e = cs_hash c) ->
  exists x, upsertCandidate m c = <[cs_hash c := x]> m /\ cs_hash x = cs_hash c /\ not_after x c /\
    (forall e, m !! cs_hash c = Some e -> not_after x e) /\
    ((cs_blockNum x = cs_blockNum c /\ cs_txIndex x = cs_txIndex c) \/
     exists e, m !! cs_hash c = Some e /\ cs_blockNum x = cs_blockNum e /\ cs_txIndex x = cs_txIndex e).
Proof.
  intros Hn Hkey. assert (forall a b : candidateSignature, cs_blockNum a = cs_blockNum b -> cs_txIndex a = cs_txIndex b -> not_after a b) as Hsame.
  { intros a b Ha Hb. apply not_after_order. unfold place_order, lex, on. rewrite Ha, Hb, Z.compare_refl.
    by rewrite (cmp_refl compareTxIndex). }
  unfold upsertCandidate. unfold named in Hn. apply String.eqb_neq in Hn. unfold str_empty. rewrite Hn.
  destruct (m !! cs_hash c) as [e|] eqn:Em; [|exists c; split; [done|]; split; [done|]; split; [by apply Hsame|]; split; [done|by left]].
  eexists. split; [reflexivity|]. split; [cbn; by apply (Hkey e)|].
  destruct (is_after e c) eqn:Ea; cbn [cs_blockNum cs_txIndex].
  - split; [by apply Hsame|]. split; [|by left]. intros e' [= <-]. apply not_after_order.
    assert (place_order e c = Gt) as Hgt by (destruct (place_order e c) eqn:Eo; [| |done]; exfalso;
      assert (not_after e c) as Hna by (apply not_after_order; congruence); unfold not_after in Hna; congruence).
    unfold place_order, lex, on in *. cbn [cs_blockNum cs_txIndex].
    rewrite (Z.compare_antisym (cs_blockNum e)). destruct (cs_blockNum e ?= cs_blockNum c); try done. simpl.
    by rewrite (cmp_sym (cmp:=compareTxIndex) (cs_txIndex e)), Hgt.
  - split; [|split; [intros e' [= <-]; by apply Hsame|right; by exists e]].
    apply not_after_order. apply not_after_order in Ea. exact Ea.
Qed.

Lemma upsert_merged l m c : merged l m -> merged (l ++ [c]) (upsertCandidate m c).
Proof.
  intros [Hs Hc]. destruct (decide (trim_space (cs_hash c) = EmptyString)) as [Ee|Hn].
  { unfold upsertCandidate. rewrite Ee. split.
    - intros h x Hx. destruct (Hs h x Hx) as (H1 & H2 & c' & H3 & H4). split; [done|]. split; [done|].
      exists c'. set_solver.
    - intros c' [Hin|Hin%list_elem_of_singleton]%elem_of_app Hn; [by apply Hc|]. by subst. }
  destruct (upsert_entry m c Hn) as (x & -> & Hx & Hxc & Hxe & Hplace); [intros e He; by apply (Hs _ _ He)|]. split.
  - intros h y. destruct (decide (h = cs_hash c)) as [->|Hne].
    + rewrite lookup_insert_eq. intros [= <-]. split; [done|]. split; [unfold named; by rewrite Hx|].
      destruct Hplace as [[? ?]|(e & He & ? & ?)]; [exists c; set_solver|].
      destruct (Hs _ _ He) as (_ & _ & c' & ? & ? & ? & ?). exists c'. split; [set_solver|]. split; [done|]. split; congruence.
    + rewrite lookup_insert_ne by done. intros Hy. destruct (Hs h y Hy) as (H1 & H2 & c' & H3 & H4).
      split; [done|]. split; [done|]. exists c'. set_solver.
  - intros c' [Hin|Hin%list_elem_of_singleton]%elem_of_app Hc'.
    + destruct (Hc c' Hin Hc') as (e & He & Hle). destruct (decide (cs_hash c' = cs_hash c)) as [Heq|Hne].
      * rewrite Heq in *. exists x. rewrite lookup_insert_eq. split; [done|]. specialize (Hxe e He).
        apply not_after_order in Hxe, Hle. apply not_after_order. by eapply cmp_le_trans.
      * exists e. rewrite lookup_insert_ne by done. done.
    + subst c'. exists x. by rewrite lookup_insert_eq.
Qed.

Lemma upsert_all_merged l' : forall l m, merged l m -> merged (l ++ l') (upsert_all m l').
Proof.
  induction l' as [|c l' IH]; intros l m Hm; [by rewrite app_nil_r|]. simpl.
  rewrite cons_middle, app_assoc. by apply IH, upsert_merged.
Qed.

Lemma ordered_signatures l m : merged l m ->
  let out := signature_of <$> ordered_candidates m in
  StronglySorted (fun x y => sg_Sequence x <= sg_Sequence y) out /\ NoDup (sg_Hash <$> out) /\
  (forall sig, sig ∈ out -> exists c, c ∈ l /\ named c /\ sg_Hash sig = cs_hash c /\ sg_Sequence sig = cs_blockNum c) /\
  (forall c, c ∈ l -> named c -> exists sig, sig ∈ out /\ sg_Hash sig = cs_hash c /\ sg_Sequence sig <= cs_blockNum c).
Proof.
  intros [Hs Hc] out. split; [|split; [|split]].
  - apply StronglySorted_fmap. pose proof (stable_sort_sorted candidate_order (map_to_list m).*2) as Hsort.
    unfold ordered_candidates. induction Hsort as [|x q Hq IH Hx]; constructor; [done|].
    rewrite Forall_forall in Hx |- *. intros y Hy. specialize (Hx y Hy). unfold cmp_le, candidate_order, lex, on in Hx.
    simpl. destruct (Z.compare_spec (cs_blockNum x) (cs_blockNum y)); [lia|lia|done].
  - unfold out. rewrite <- list_fmap_compose. unfold ordered_candidates. rewrite stable_sort_perm.
    rewrite <- list_fmap_compose. erewrite (list_fmap_ext _ fst); [apply NoDup_fst_map_to_list|].
    intros i [h c] Hi%list_elem_of_lookup_2%elem_of_map_to_list. by apply (Hs h c Hi).
  - intros sig (c & -> & Hin)%list_elem_of_fmap. apply ordered_elem in Hin as [h Hin].
    destruct (Hs h c Hin) as (Hh & Hn & c' & Hl & Hh' & Hb & _). exists c'. split; [done|].
    split; [unfold named; rewrite Hh'; by rewrite <- Hh|]. simpl. split; congruence.
  - intros c Hin Hn. destruct (Hc c Hin Hn) as (x & Hx & Hle). exists (signature_of x).
    split; [apply list_elem_of_fmap_2, ordered_elem; by eexists|]. destruct (Hs _ _ Hx) as (Hh & _). split; [done|].
    apply not_after_order in Hle. unfold place_order, lex, on in Hle. simpl.
    destruct (Z.compare_spec (cs_blockNum x) (cs_blockNum c)); [lia|lia|done].
Qed.

(** ** Scanning a range *)

Section Scan.
Context (client : RPCClient) (node_block : Z -> option Block).
Context (Hblocks : forall nums blocks, GetBlocksByNumber client nums true = Ok blocks -> blocks = node_block <$> nums).
Context (node_logs : list topic -> Z -> list (option Log)).
Context (Hnode : forall from to_ topics logs, from <= to_ ->
  GetLogs client (log_filter from to_ topics) = Ok logs -> logs = concat (node_logs topics <$> block_range from to_)).

Definition watched_in (addrSet : gset string) (a : string) : bool := bool_decide (a ∈ addrSet).

Definition candidates_at (addrSet : gset string) (n : Z) : list candidateSignature :=
  match node_block n with
  | None => []
  | Some block => block_candidates (watched_in addrSet) any_place n block
  end.

Definition scanned (addrSet : gset string) (from to_ : Z) : list candidateSignature :=
  concat (candidates_at addrSet <$> block_range from to_).

Lemma scan_block_list addrSet nums : forall l st, merged l st.1 ->
  merged (l ++ concat (candidates_at addrSet <$> nums))
    (foldl (scan_block addrSet) st (zip nums (node_block <$> nums))).1.
Proof.
  induction nums as [|n nums IH]; intros l st Hm; simpl; [by rewrite app_nil_r|].
  rewrite app_assoc. apply IH. unfold scan_block, candidates_at. simpl. destruct (node_block n) as [block|].
  - by apply upsert_all_merged.
  - by rewrite app_nil_r.
Qed.

Lemma scan_batches_range addrSet startBlock endBlock fuel : forall batchStart l st st',
  startBlock <= batchStart -> merged l st.1 ->
  endBlock - batchStart < Z.of_nat fuel * blockFetchBatchSize ->
  scan_batches client fuel addrSet batchStart endBlock st = Ok st' ->
  merged (l ++ scanned addrSet batchStart endBlock) st'.1.
Proof.
  unfold blockFetchBatchSize. induction fuel as [|fuel IH]; intros batchStart l st st' Hle Hm Hf; cbn [scan_batches].
  { intros [= <-]. unfold scanned. rewrite block_range_empty by lia. simpl. by rewrite app_nil_r. }
  destruct (Z.ltb_spec endBlock batchStart) as [Hlt|Hge].
  { intros [= <-]. unfold scanned. rewrite block_range_empty by lia. simpl. by rewrite app_nil_r. }
  cbv zeta. unfold blockFetchBatchSize. set (batchEnd := Z.min (batchStart + 50 - 1) endBlock).
  destruct (GetBlocksByNumber client _ true) as [blocks|err] eqn:Eb; [|done].
  apply Hblocks in Eb as ->. intros H.
  apply (IH _ (l ++ scanned addrSet batchStart batchEnd)) in H; [|lia|by apply scan_block_list|lia].
  rewrite <- app_assoc in H. replace (scanned addrSet batchStart endBlock) with
    (scanned addrSet batchStart batchEnd ++ scanned addrSet (batchStart + 50) endBlock); [done|].
  unfold scanned. rewrite <- concat_app, <- fmap_app. do 2 f_equal.
  destruct (Z.le_gt_cases (batchStart + 50) endBlock).
  - rewrite (block_range_split batchStart batchEnd endBlock) by lia. do 2 f_equal. lia.
  - rewrite (block_range_empty (batchStart + 50)) by lia. rewrite app_nil_r. f_equal. lia.
Qed.

Definition log_candidates (times : gmap Z (option Z)) (logs : list (option Log)) : list candidateSignature :=
  omap (log_candidate any_place (fun n => mjoin (times !! n))) logs.

(** The topic of an address that has twenty bytes. *)
Definition topic_of (addr t : string) : Prop :=
  String.length (trim_prefix addr "0x") = 40%nat /\ t = "0x000000000000000000000000" +:+ trim_prefix addr "0x".

(** What the scan learns of logs: for each of the three positions an indexed address can
    have, the logs of every block, asked for with the topics of the watched addresses; nothing
    when no watched address has a topic. *)
Definition queried_logs (addrSet : gset string) (startBlock endBlock : Z) (answers : list (list (option Log))) : Prop :=
  exists topics, (forall t, t ∈ topics <-> exists addr, addr ∈ addrSet /\ topic_of addr t) /\
    ((topics = [] /\ answers = []) \/
     (topics <> [] /\
      Forall2 (fun filters logs => scan_parts client node_logs filters startBlock endBlock logs)
        [[TAny; TMany topics]; [TAny; TAny; TMany topics]; [TAny; TAny; TAny; TMany topics]] answers)).

Lemma address_topics_elem addrSet t : t ∈ address_topics addrSet <-> exists addr, addr ∈ addrSet /\ topic_of addr t.
Proof.
  unfold address_topics, topic_of. rewrite list_elem_of_filter, list_elem_of_fmap. unfold addressTopicFromNormalized.
  setoid_rewrite elem_of_elements. split.
  - intros (Hne & addr & -> & Ha). exists addr. split; [done|].
    destruct (Nat.eqb_spec (String.length (trim_prefix addr "0x")) 40); [done|done].
  - intros (addr & Ha & Hl & ->). split; [done|]. exists addr. by rewrite (proj2 (Nat.eqb_eq _ _) Hl).
Qed.

Lemma filters_are_address topics filters : filters ∈ address_filters (TMany topics) -> address_filter filters.
Proof.
  unfold address_filters, address_filter. intros H t Ht.
  repeat (apply elem_of_cons in H as [->|H];
    [repeat (apply elem_of_cons in Ht as [Ht|Ht]; [discriminate Ht|]); by apply elem_of_nil in Ht|]).
  by apply elem_of_nil in H.
Qed.

Lemma scan_logs_answers addrSet startBlock endBlock l st m : merged l st.1 ->
  scan_logs client startBlock endBlock addrSet st = Ok m ->
  exists answers, queried_logs addrSet startBlock endBlock answers /\
    merged (l ++ concat (log_candidates st.2 <$> answers)) m.
Proof.
  intros Hm. unfold scan_logs, queried_logs. intros H.
  assert (exists answers, match address_topics addrSet with
    | [] => answers = []
    | topics => Forall2 (fun filters logs => fetchLogs client startBlock endBlock filters = Ok logs)
                  (address_filters (TMany topics)) answers
    end /\ merged (l ++ concat (log_candidates st.2 <$> answers)) m) as (answers & Ha & Hm').
  { destruct (address_topics addrSet) as [|t ts].
    { injection H as <-. exists []. by rewrite app_nil_r. }
    revert H. generalize (address_filters (TMany (t :: ts))). intros filters. revert l Hm. generalize st.1 as m0.
    induction filters as [|topics filters IH]; intros m0 l Hm; simpl.
    { intros [= <-]. exists []. by rewrite app_nil_r. }
    destruct (fetchLogs client startBlock endBlock topics) as [logs|err] eqn:El; [|done]. simpl. intros H.
    apply (IH _ (l ++ log_candidates st.2 logs)) in H as (answers & Ha & Hm'); [|by apply upsert_all_merged].
    exists (logs :: answers). split; [by constructor|]. simpl. by rewrite app_assoc. }
  exists answers. split; [|done]. exists (address_topics addrSet). split; [apply address_topics_elem|].
  destruct (address_topics addrSet) as [|t ts]; [by left|]. right. split; [done|].
  change [[TAny; TMany (t :: ts)]; [TAny; TAny; TMany (t :: ts)]; [TAny; TAny; TAny; TMany (t :: ts)]]
    with (address_filters (TMany (t :: ts))).
  pose proof (filters_are_address (t :: ts)) as Hf. revert Hf Ha. generalize (address_filters (TMany (t :: ts))).
  intros filters Hf Ha. clear Hm'. induction Ha as [|f logs filters answers Hfl _ IH]; constructor.
  - apply fetchLogs_scan; [done|apply Hf; by left|done].
  - apply IH. intros g Hg. apply Hf. by right.
Qed.

(** *** Where a transaction occurs *)

Definition in_block (addrSet : gset string) (startBlock endBlock : Z) (h : string) (n : Z) : Prop :=
  exists block tx, startBlock <= n <= endBlock /\ node_block n = Some block /\ Some tx ∈ bk_Transactions block /\
    tx_Hash tx = h /\ (normal_address (tx_From tx) ∈ addrSet \/ normal_address (tx_To tx) ∈ addrSet).

Lemma touches_watched addrSet tx : touches (watched_in addrSet) tx = true <->
  normal_address (tx_From tx) ∈ addrSet \/ normal_address (tx_To tx) ∈ addrSet.
Proof. unfold touches, watched_in. by rewrite orb_true_iff, !bool_decide_eq_true. Qed.

Definition in_log (answers : list (list (option Log))) (h : string) (n : Z) : Prop :=
  exists logs entry, logs ∈ answers /\ Some entry ∈ logs /\ lg_TransactionHash entry = h /\
    ParseHexInt64 (lg_BlockNumber entry) = Some n.

(** A call that moves value from or to a watched address, itself or one below it. *)
Inductive moves_value (addrSet : gset string) (frame : CallFrame) : Prop :=
| moves_here : cf_Value frame ∉ [""; "0x0"; "0x"; "0"]%string ->
    normal_address (cf_From frame) ∈ addrSet \/ normal_address (cf_To frame) ∈ addrSet -> moves_value addrSet frame
| moves_below child : Some child ∈ cf_Calls frame -> moves_value addrSet child -> moves_value addrSet frame.

Lemma value_here (addrSet : gset string) frame :
  negb (no_value (cf_Value frame)) &&
    (bool_decide (normal_address (cf_From frame) ∈ addrSet) || bool_decide (normal_address (cf_To frame) ∈ addrSet)) = true <->
  (cf_Value frame ∉ [""; "0x0"; "0x"; "0"]%string) /\
    (normal_address (cf_From frame) ∈ addrSet \/ normal_address (cf_To frame) ∈ addrSet).
Proof.
  rewrite andb_true_iff, orb_true_iff, !bool_decide_eq_true, negb_true_iff. unfold no_value, str_in.
  rewrite <- not_true_iff_false, existsb_exists. setoid_rewrite String.eqb_eq. setoid_rewrite <- list_elem_of_In. naive_solver.
Qed.

(** Induction over a call and the calls below it. *)
Lemma frame_induction (P : CallFrame -> Prop) :
  (forall frame, Forall (fun o => match o with Some child => P child | None => True end) (cf_Calls frame) -> P frame) ->
  forall frame, P frame.
Proof.
  intros H. fix IH 1. intros [ty from to_ value input output error calls]. apply H. cbn [cf_Calls].
  revert calls. fix IHc 1. intros [|[child|] calls]; constructor; [apply IH|apply IHc|exact I|apply IHc].
Qed.

Lemma moves_value_iff (addrSet : gset string) frame :
  hasInternalTransferToWatched frame addrSet = true <-> moves_value addrSet frame.
Proof.
  induction frame as [frame IH] using frame_induction.
  transitivity (((cf_Value frame ∉ [""; "0x0"; "0x"; "0"]%string) /\
       (normal_address (cf_From frame) ∈ addrSet \/ normal_address (cf_To frame) ∈ addrSet)) \/
    (exists child, Some child ∈ cf_Calls frame /\ moves_value addrSet child)).
  - rewrite <- value_here. destruct frame as [ty from to_ value input output error calls].
    cbn [hasInternalTransferToWatched cf_Calls] in IH |- *. rewrite orb_true_iff. apply or_iff_compat_l.
    induction IH as [|[child|] calls Hc _ IHc].
    + split; [done|]. intros (child & Hc & _). by apply elem_of_nil in Hc.
    + rewrite orb_true_iff, IHc, Hc. setoid_rewrite elem_of_cons. naive_solver.
    + rewrite IHc. setoid_rewrite elem_of_cons. naive_solver.
  - split.
    + intros [[? ?]|(child & ? & ?)]; [by apply moves_here|by apply (moves_below _ _ child)].
    + intros [? ?|child ? ?]; [by left|right; by exists child].
Qed.

Definition in_trace (addrSet : gset string) (startBlock endBlock : Z) (h : string) (n : Z) : Prop :=
  exists traces trace, startBlock <= n <= endBlock /\ TraceBlockByNumber client n = Ok traces /\ Some trace ∈ traces /\
    bt_TxHash trace = h /\ moves_value addrSet (bt_Result trace).

(** Traces count when they are enabled and answered for every block of the range. *)
Definition traced (a : Adapter) (startBlock endBlock : Z) : Prop :=
  ad_traceEnabled a = true /\ forall n, startBlock <= n <= endBlock -> is_ok (TraceBlockByNumber client n) = true.

Definition occurs (a : Adapter) (addrSet : gset string) (startBlock endBlock : Z) (answers : list (list (option Log)))
    (h : string) (n : Z) : Prop :=
  trim_space h <> EmptyString /\
  (in_block addrSet startBlock endBlock h n \/ in_log answers h n \/
   (traced a startBlock endBlock /\ in_trace addrSet startBlock endBlock h n)).

Definition candidate_at (l : list candidateSignature) (h : string) (n : Z) : Prop :=
  exists c, c ∈ l /\ named c /\ cs_hash c = h /\ cs_blockNum c = n.

Lemma scanned_elem addrSet startBlock endBlock h n : trim_space h <> EmptyString ->
  candidate_at (scanned addrSet startBlock endBlock) h n <-> in_block addrSet startBlock endBlock h n.
Proof.
  intros Hh. unfold candidate_at, scanned, in_block. split.
  - intros (c & Hc & _ & <- & <-). apply elem_of_concat in Hc as (l & Hl & Hc).
    apply list_elem_of_fmap in Hl as (n & -> & Hn%block_range_elem). unfold candidates_at in Hc.
    destruct (node_block n) as [block|] eqn:Eb; [|set_solver].
    apply list_elem_of_omap in Hc as ([tx|] & Htx & Hc); [|done].
    destruct (str_empty _); [done|]. simpl in Hc. destruct (touches _ tx) eqn:Et; [|done]. simpl in Hc. injection Hc as <-.
    apply touches_watched in Et. by exists block, tx.
  - intros (block & tx & Hn & Hb & Htx & <- & Ht%touches_watched).
    eexists {| cs_hash := tx_Hash tx; cs_blockNum := n; cs_txIndex := parsed_index (tx_TransactionIndex tx);
               cs_blockTime := block_time (bk_Timestamp block) |}. split; [|done].
    apply elem_of_concat. exists (candidates_at addrSet n). split.
    + by apply list_elem_of_fmap_2, block_range_elem.
    + unfold candidates_at. rewrite Hb. apply list_elem_of_omap. exists (Some tx). split; [done|].
      unfold str_empty. apply String.eqb_neq in Hh as ->. simpl. by rewrite Ht.
Qed.

Lemma logged_elem times answers h n : trim_space h <> EmptyString ->
  candidate_at (concat (log_candidates times <$> answers)) h n <-> in_log answers h n.
Proof.
  intros Hh. unfold candidate_at, in_log. split.
  - intros (c & Hc & _ & <- & <-). apply elem_of_concat in Hc as (l & (logs & -> & Hl)%list_elem_of_fmap & Hc).
    apply list_elem_of_omap in Hc as ([entry|] & He & Hc); [|done]. simpl in Hc.
    destruct (str_empty _); [done|]. destruct (ParseHexInt64 (lg_BlockNumber entry)) eqn:Ep; [|done].
    injection Hc as <-. by exists logs, entry.
  - intros (logs & entry & Hl & He & <- & Hp).
    eexists {| cs_hash := lg_TransactionHash entry; cs_blockNum := n; cs_txIndex := parsed_index (lg_TransactionIndex entry);
               cs_blockTime := mjoin (times !! n) |}. split; [|done].
    apply elem_of_concat. exists (log_candidates times logs). split; [by apply list_elem_of_fmap_2|].
    apply list_elem_of_omap. exists (Some entry). split; [done|]. simpl.
    unfold str_empty. apply String.eqb_neq in Hh as ->. by rewrite Hp.
Qed.

(** The traces of a range are all collected, or one block has none. *)
Lemma transfers_collected addrSet times nums : forall acc,
  match rfoldl (fun acc blockNum =>
          match TraceBlockByNumber client blockNum with
          | Err err => Err (EWrap ("trace block " +:+ show_Z blockNum) err)
          | Ok traces => Ok (acc ++ trace_candidates addrSet times blockNum traces)
          end) acc nums with
  | Ok l => (forall n, n ∈ nums -> is_ok (TraceBlockByNumber client n) = true) /\
      forall c, c ∈ l <-> c ∈ acc \/ exists n traces, n ∈ nums /\ TraceBlockByNumber client n = Ok traces /\
                                       c ∈ trace_candidates addrSet times n traces
  | Err _ => exists n, n ∈ nums /\ is_ok (TraceBlockByNumber client n) = false
  end.
Proof.
  induction nums as [|n nums IH]; intros acc; simpl.
  { split; [set_solver|]. set_solver. }
  destruct (TraceBlockByNumber client n) as [traces|err] eqn:En; simpl.
  2: { exists n. rewrite En. set_solver. }
  specialize (IH (acc ++ trace_candidates addrSet times n traces)).
  destruct (rfoldl _ _ nums) as [l|e].
  - destruct IH as [H1 H2]. split.
    + intros k [->|Hk]%elem_of_cons; [by rewrite En|by apply H1].
    + intros c. rewrite H2, elem_of_app. split; [|intros [?|(k & t & Hk & ? & ?)]; [by left; left|]].
      * intros [[?|?]|(k & t & ? & ? & ?)]; [by left| |]; right; [by exists n, traces; set_solver|exists k, t; set_solver].
      * apply elem_of_cons in Hk as [->|Hk]; [left; right; congruence|right; by exists k, t].
  - destruct IH as (k & Hk & He). exists k. set_solver.
Qed.

Lemma transfers_elem addrSet times startBlock endBlock :
  match scanInternalTransfers client startBlock endBlock addrSet times with
  | Ok l => (forall n, startBlock <= n <= endBlock -> is_ok (TraceBlockByNumber client n) = true) /\
      forall h n, trim_space h <> EmptyString -> candidate_at l h n <-> in_trace addrSet startBlock endBlock h n
  | Err _ => ~ forall n, startBlock <= n <= endBlock -> is_ok (TraceBlockByNumber client n) = true
  end.
Proof.
  unfold scanInternalTransfers. pose proof (transfers_collected addrSet times (block_range startBlock endBlock) []) as H.
  destruct (rfoldl _ _ _) as [l|e].
  - destruct H as [H1 H2]. split; [intros n Hn; by apply H1, block_range_elem|].
    intros h n Hh. unfold candidate_at, in_trace. split.
    + intros (c & Hc & _ & <- & <-). apply H2 in Hc as [Hc|(k & traces & Hk & Ht & Hc)]; [set_solver|].
      apply block_range_elem in Hk. apply list_elem_of_omap in Hc as ([trace|] & Hin & Hc); [|done].
      destruct (hasInternalTransferToWatched _ _) eqn:Eh; [|done]. injection Hc as <-. apply moves_value_iff in Eh. by exists traces, trace.
    + intros (traces & trace & Hn & Ht & Hin & <- & Hw%moves_value_iff).
      eexists {| cs_hash := bt_TxHash trace; cs_blockNum := n; cs_txIndex := -1; cs_blockTime := mjoin (times !! n) |}.
      split; [|done]. apply H2. right. exists n, traces. split; [by apply block_range_elem|]. split; [done|].
      apply list_elem_of_omap. exists (Some trace). by rewrite Hw.
  - destruct H as (n & Hn%block_range_elem & He). intros Hall. specialize (Hall n Hn). congruence.
Qed.

Lemma candidate_at_app l1 l2 h n : candidate_at (l1 ++ l2) h n <-> candidate_at l1 h n \/ candidate_at l2 h n.
Proof. unfold candidate_at. setoid_rewrite elem_of_app. naive_solver. Qed.

Definition watched_set (watchedAddresses : list string) : gset string := list_to_set (normal_address <$> watchedAddresses).

(** The candidates a scan merges are those of its blocks, its logs and, when complete, its
    traces. *)
Lemma scan_candidates a startBlock endBlock watched sigs : startBlock <= endBlock -> watched <> [] ->
  ScanBlocks client a startBlock endBlock watched = Ok sigs ->
  let addrSet := watched_set watched in
  exists answers l m, queried_logs addrSet startBlock endBlock answers /\ merged l m /\
    sigs = signature_of <$> ordered_candidates m /\
    forall h n, trim_space h <> EmptyString -> candidate_at l h n <-> occurs a addrSet startBlock endBlock answers h n.
Proof.
  intros Hr Hw. unfold ScanBlocks. rewrite (proj2 (Z.ltb_ge _ _)) by lia.
  destruct watched as [|w ws]; [done|]. cbn [orb length Nat.eqb].
  change (list_to_set _) with (watched_set (w :: ws)). set (addrSet := watched_set (w :: ws)).
  destruct (scan_batches _ _ _ _ _ _) as [st|err] eqn:Eb; [|done]. cbn [rbind].
  apply (scan_batches_range _ startBlock _ _ _ []) in Eb; [|lia|apply merged_nil|]; simpl in Eb.
  2: { unfold batch_count, blockFetchBatchSize. pose proof (Z.mod_pos_bound (endBlock - startBlock) 50 ltac:(lia)).
       pose proof (Z.div_mod (endBlock - startBlock) 50 ltac:(lia)). pose proof (Z.div_pos (endBlock - startBlock) 50). lia. }
  destruct (scan_logs _ _ _ _ _) as [m|err] eqn:El; [|done]. cbn [rbind]. intros [= <-].
  apply (scan_logs_answers _ _ _ _ _ _ Eb) in El as (answers & Ha & Hm). exists answers.
  pose proof (transfers_elem addrSet st.2 startBlock endBlock) as Ht.
  assert (forall h n, trim_space h <> EmptyString ->
    candidate_at (scanned addrSet startBlock endBlock ++ concat (log_candidates st.2 <$> answers)) h n <->
    in_block addrSet startBlock endBlock h n \/ in_log answers h n) as Hbase.
  { intros h n Hh. by rewrite candidate_at_app, scanned_elem, logged_elem. }
  assert (~ traced a startBlock endBlock -> forall h n, trim_space h <> EmptyString ->
    candidate_at (scanned addrSet startBlock endBlock ++ concat (log_candidates st.2 <$> answers)) h n <->
    occurs a addrSet startBlock endBlock answers h n) as Hno.
  { intros Hnt h n Hh. rewrite Hbase by done. unfold occurs. naive_solver. }
  unfold traced in Hno at 1. destruct (ad_traceEnabled a) eqn:Etr.
  - destruct (scanInternalTransfers _ _ _ _ _) as [traces|e].
    + destruct Ht as [Hall Htr]. eexists (_ ++ traces), _. split; [done|]. split; [by apply upsert_all_merged|]. split; [done|].
      intros h n Hh. rewrite candidate_at_app, Hbase, Htr by done. unfold occurs, traced. naive_solver.
    + eexists _, _. split; [done|]. split; [done|]. split; [done|]. apply Hno. naive_solver.
  - eexists _, _. split; [done|]. split; [done|]. split; [done|]. apply Hno. naive_solver.
Qed.

(** C21: a block scan that succeeds returns exactly the transactions that occur in its range,
    each once and in block order, by what the node tells.  A transaction occurs in a block
    of the range when its sender or recipient is watched; in a block that one of the three
    log queries names (the watched addresses that are twenty bytes as first, second or third
    indexed argument), where each block of the range is answered by the node or, when the
    node refuses the query for that block alone, by all logs of the receipts it could get,
    whether they name a watched address or not; and, when traces are enabled and available
    for every block of the range, when a call of it moves value from or to a watched
    address.  A transaction carries a block it occurs in, the first of them.  The node
    answers a query for several blocks like the queries for each of them. *)
Theorem scan_exact a startBlock endBlock watched sigs : startBlock <= endBlock -> watched <> [] ->
  ScanBlocks client a startBlock endBlock watched = Ok sigs ->
  exists answers, queried_logs (watched_set watched) startBlock endBlock answers /\
    let occurs := occurs a (watched_set watched) startBlock endBlock answers in
    StronglySorted (fun x y => sg_Sequence x <= sg_Sequence y) sigs /\ NoDup (sg_Hash <$> sigs) /\
    (forall sig, sig ∈ sigs -> occurs (sg_Hash sig) (sg_Sequence sig)) /\
    (forall h n, occurs h n -> exists sig, sig ∈ sigs /\ sg_Hash sig = h /\ sg_Sequence sig <= n).
Proof.
  intros Hr Hw Hscan. apply scan_candidates in Hscan as (answers & l & m & Ha & Hm & -> & Hl); [|done..].
  exists answers. split; [done|]. destruct (ordered_signatures l m Hm) as (H1 & H2 & H3 & H4).
  split; [done|]. split; [done|]. split.
  - intros sig Hsig. destruct (H3 sig Hsig) as (c & Hc & Hn & -> & ->). apply Hl; [done|]. by exists c.
  - intros h n Ho. pose proof (proj1 Ho) as Hh. apply Hl in Ho as (c & Hc & Hn & <- & <-); [|done]. by apply H4.
Qed.
End Scan.

(** ** A node to run on: it refuses every log query as too wide, and block 6 has one
    transaction of a watched address and a receipt with a log of another transaction. *)

Definition sample_address : string := "0xb000000000000000000000000000000000000001".

Definition sample_tx : Transaction :=
  {| tx_Hash := "0xaa"; tx_BlockNumber := "0x6"; tx_TransactionIndex := "0x0"; tx_From := "0xF00";
     tx_To := " 0xB000000000000000000000000000000000000001"; tx_Value := "0x1"; tx_GasPrice := "0x1" |}.

Definition sample_block (n : Z) : option Block :=
  if n =? 8 then None
  else Some {| bk_Number := formatHexInt64 n; bk_Hash := "0xb"; bk_ParentHash := "0xa"; bk_Timestamp := "0x10";
               bk_Transactions := if n =? 6 then [Some sample_tx; None] else [] |}.

Definition sample_log : Log :=
  {| lg_Address := "0xc"; lg_Topics := ["0xddf"; addressTopic sample_address]; lg_Data := "0x"; lg_BlockNumber := "";
     lg_TransactionHash := "0xbb";
     lg_TransactionIndex := ""; lg_LogIndex := "0x0"; lg_Removed := false |}.

Definition sample_receipt : TransactionReceipt :=
  {| rc_TransactionHash := "0xaa"; rc_BlockNumber := "0x6"; rc_TransactionIndex := "0x0"; rc_Status := "0x1";
     rc_From := "0xf00"; rc_To := "0xb00"; rc_GasUsed := "0x1"; rc_EffectiveGasPrice := "0x1"; rc_L1Fee := None;
     rc_L1GasUsed := None; rc_L1GasPrice := None; rc_Logs := [Some sample_log; None] |}.

Definition sample_client : RPCClient :=
  {| GetBlockNumber := Ok 8; GetFinalizedBlockNumber := Ok 7;
     GetBlockByNumber := fun n _ => Ok (sample_block n);
     GetBlocksByNumber := fun nums _ => Ok (sample_block <$> nums);
     GetTransactionByHash := fun _ => Ok (Some sample_tx);
     GetTransactionsByHash := fun hs => Ok ((fun _ => Some sample_tx) <$> hs);
     GetTransactionReceipt := fun _ => Ok (Some sample_receipt);
     GetTransactionReceiptsByHash := fun hs => Err (EMsg "batch disabled");
     GetLogs := fun _ => Err (EMsg "query returned more than 10000 results");
     TraceBlockByNumber := fun n => Err (EMsg "method not found") |}.

Lemma logs_every_block_witness :
  exists r, fetchLogsWithFallback sample_client 4 5 8 [TOne "0xDDF"] = Some r /\
    fetchLogs sample_client 5 8 [TOne "0xDDF"] = r /\
    forall logs, r = Ok logs -> parts_of sample_client (fun _ _ => []) [TOne "0xDDF"] 5 8 logs.
Proof. refine (logs_every_block sample_client (fun _ _ => []) _ [TOne "0xDDF"] 5 8). discriminate. Defined.

(** The range is split down to single blocks, whose receipts answer. *)
Example sample_logs : fetchLogs sample_client 5 8 [TOne "0xDDF"] =
  Ok [Some {| lg_Address := "0xc"; lg_Topics := ["0xddf"; addressTopic sample_address]; lg_Data := "0x";
              lg_BlockNumber := "0x6"; lg_TransactionHash := "0xbb"; lg_TransactionIndex := "0x0"; lg_LogIndex := "0x0"; lg_Removed := false |}].
Proof. vm_compute. reflexivity. Qed.

Lemma scan_exact_witness :
  let a := NewAdapter [] in
  let sigs := [{| sg_Hash := "0xaa"; sg_Sequence := 6; sg_Time := Some (16 * 10 ^ 9) |};
               {| sg_Hash := "0xbb"; sg_Sequence := 6; sg_Time := Some (16 * 10 ^ 9) |}] in
  exists answers, queried_logs sample_client (fun _ _ => []) (watched_set [sample_address]) 5 8 answers /\
    let occurs := occurs sample_client sample_block a (watched_set [sample_address]) 5 8 answers in
    StronglySorted (fun x y => sg_Sequence x <= sg_Sequence y) sigs /\ NoDup (sg_Hash <$> sigs) /\
    (forall sig, sig ∈ sigs -> occurs (sg_Hash sig) (sg_Sequence sig)) /\
    (forall h n, occurs h n -> exists sig, sig ∈ sigs /\ sg_Hash sig = h /\ sg_Sequence sig <= n).
Proof.
  refine (scan_exact sample_client sample_block _ (fun _ _ => []) _ (NewAdapter []) 5 8 [sample_address] _ _ _ _).
  - intros nums blocks [= <-]. reflexivity.
  - discriminate.
  - lia.
  - discriminate.
  - vm_compute. reflexivity.
Defined.
