(* ===== verification/BtcAdapter.v ===== *)
(** * BTC adapter: [internal/chain/btc/adapter.go]

    The chain adapter of Bitcoin over the interface of its RPC client: which transactions
    of a block range touch watched addresses, and the envelope of a transaction with its
    resolved inputs and its fee.  The client is an argument that gives the node's answer
    to each request of one call of the adapter; the clock readings of the cache of the head
    block are arguments. *)

From Stdlib Require Import ZArith String Ascii Lia.
From stdpp Require Import base option list strings gmap sorting.
From S2P Require Import Prelude Ordering Json Retry NormalizerDecode.

Open Scope Z_scope.
Open Scope go_scope.

(** ** Messages of the node: [btc/rpc/types.go] *)

Record ScriptPubKey := { sp_Address : string; sp_Addresses : list string; sp_Type : string }.

(** Amounts are [json.Number]: the text of the number. *)
Record Prevout := { pv_Value : string; pv_ScriptPubKey : ScriptPubKey }.
Record Vin := { vi_Txid : string; vi_Vout : Z; vi_Coinbase : string; vi_Prevout : option Prevout }.
Record Vout := { vo_Value : string; vo_N : Z; vo_ScriptPubKey : ScriptPubKey }.

Record Transaction := {
  tx_Txid : string; tx_Hash : string; tx_Blockhash : string; tx_Blocktime : Z; tx_Time : Z; tx_Confirmations : Z;
  tx_Vin : list (option Vin); tx_Vout : list (option Vout)
}.

Record Block := {
  bk_Hash : string; bk_Height : Z; bk_Time : Z; bk_PreviousBlockHash : string; bk_Tx : list (option Transaction)
}.

Record BlockHeader := { bh_Hash : string; bh_Height : Z; bh_PreviousBlockHash : string; bh_Time : Z }.

(** [rpc.RPCClient] *)
Record RPCClient := {
  GetBlockCount : result go_error Z;
  rpc_GetBlockHash : Z -> result go_error string;
  GetBlockHashes : list Z -> result go_error (list string);
  GetBlock : string -> Z -> result go_error (option Block);
  GetBlocks : list string -> Z -> result go_error (list (option Block));
  GetBlockHeader : string -> result go_error (option BlockHeader);
  GetRawTransactionVerbose : string -> result go_error (option Transaction);
  GetRawTransactionsVerbose : list string -> result go_error (list (option Transaction))
}.

(** [headBlockCacheAt] is [None] for the zero time. *)
Record Adapter := {
  ad_maxInitialLookbackBlocks : Z; ad_finalityConfirmations : Z; ad_verbosity3Supported : Z;
  ad_headBlockCache : Z; ad_headBlockCacheAt : option Z; ad_headBlockCacheTTL : Z
}.

Definition blockVerbosityTxObjects : Z := 2.
Definition blockVerbosityPrevout : Z := 3.
Definition satoshiPerBTC : Z := 100000000.

(** ** Names *)

Definition normalizeAddressIdentity (address : string) : string := trim_space address.

Definition canonicalTxID (hash : string) : string :=
  to_lower (trim_prefix (trim_prefix (trim_space hash) "0x") "0X").

(** The first occurrences of the non-empty strings of a list, in order. *)
Fixpoint distinct (seen : gset string) (l : list string) : list string :=
  match l with
  | [] => []
  | s :: l' => if str_empty s || bool_decide (s ∈ seen) then distinct seen l' else s :: distinct ({[s]} ∪ seen) l'
  end.

Definition allOutputAddresses (script : ScriptPubKey) : list string :=
  distinct ∅ (normalizeAddressIdentity <$> sp_Address script :: sp_Addresses script).

Definition firstOutputAddress (script : ScriptPubKey) : string := default "" (head (allOutputAddresses script)).

Definition deterministicAddress (values : list string) : string :=
  default "" (head (sort_strings (distinct ∅ (normalizeAddressIdentity <$> values)))).

Definition unixTimePtr (ts : Z) : option Z := if ts <=? 0 then None else Some (ts * 10 ^ 9).

Definition pickBlockTime (tx : Transaction) : Z :=
  if 0 <? tx_Blocktime tx then tx_Blocktime tx else if 0 <? tx_Time tx then tx_Time tx else 0.

Definition txTimePointer (tx : Transaction) (blockTime : option Z) : option Z :=
  if 0 <? pickBlockTime tx then unixTimePtr (pickBlockTime tx) else blockTime.

Definition isAfterCursor (blockNum txIndex cursorBlock cursorTxIndex : Z) : bool :=
  if cursorBlock <? 0 then true
  else if cursorBlock <? blockNum then true
  else if blockNum <? cursorBlock then false
  else if cursorTxIndex <? 0 then true
  else cursorTxIndex <? txIndex.

(** ** Amounts

    [big.Rat.SetString] on the text of a JSON number: sign, digits, fraction, exponent;
    exponents beyond a million are refused. *)

Fixpoint span_digits (s : string) : string * string :=
  match s with
  | String c s' => if is_digit c then (let '(d, r) := span_digits s' in (String c d, r)) else (EmptyString, s)
  | EmptyString => (EmptyString, EmptyString)
  end.

Definition scan_exponent (s : string) : option Z :=
  match s with
  | EmptyString => Some 0
  | String c s' => if byte_of (lower_ascii c) =? 101 then parse_int64 s' else None
  end.

(** Mantissa and power of ten. *)
Definition scan_unsigned (s : string) : option (Z * Z) :=
  let '(whole, s) := span_digits s in
  let '(frac, s) := match s with String "." s' => span_digits s' | _ => (EmptyString, s) end in
  match parse_unsigned (whole +:+ frac), scan_exponent s with
  | Some m, Some e => Some (m, e - Z.of_nat (String.length frac))
  | _, _ => None
  end.

Definition scan_decimal (s : string) : option (Z * Z) :=
  match s with
  | String "-" s' => prod_map Z.opp id <$> scan_unsigned s'
  | String "+" s' => scan_unsigned s'
  | _ => scan_unsigned s
  end.

Definition parseBTCValueToSatoshi (value : string) : result go_error Z :=
  let raw := trim_space value in
  if str_empty raw then Ok 0
  else
    let invalid := Err (EMsg ("invalid btc amount " +:+ json_str raw)) in
    match scan_decimal raw with
    | None => invalid
    | Some (m, e) =>
        if m =? 0 then Ok 0
        else if 10 ^ 6 <? Z.abs e then invalid
        else
          let num := m * satoshiPerBTC * 10 ^ Z.max 0 e in
          let den := 10 ^ Z.max 0 (- e) in
          if negb (num mod den =? 0) then Err (EMsg ("btc amount " +:+ json_str raw +:+ " is not satoshi-aligned"))
          else
            let sats := num / den in
            if (min_int64 <=? sats) && (sats <=? max_int64) then Ok sats
            else Err (EMsg ("btc amount " +:+ json_str raw +:+ " out of range"))
    end.

(** ** Previous outputs *)

Record resolvedPrevout := { rp_found : bool; rp_address : string; rp_valueSat : Z }.

Definition not_found : resolvedPrevout := {| rp_found := false; rp_address := ""; rp_valueSat := 0 |}.

Definition value_or_zero (value : string) : Z :=
  match parseBTCValueToSatoshi value with Ok v => v | Err _ => 0 end.

Definition resolved (value : string) (script : ScriptPubKey) : resolvedPrevout :=
  {| rp_found := true; rp_address := firstOutputAddress script; rp_valueSat := value_or_zero value |}.

Definition outpoint_key (txid : string) (n : Z) : string := txid +:+ ":" +:+ show_Z n.

Definition is_coinbase (vin : Vin) : bool := negb (str_empty (trim_space (vi_Coinbase vin))).

Abbreviation prevouts := (gmap string resolvedPrevout).

(** The first output with the index. *)
Fixpoint find_vout (n : Z) (vouts : list (option Vout)) : option Vout :=
  match vouts with
  | [] => None
  | Some v :: vouts' => if vo_N v =? n then Some v else find_vout n vouts'
  | None :: vouts' => find_vout n vouts'
  end.

Section Client.
Context (client : RPCClient).

(** What an input spends, without the cache. *)
Definition lookup_prevout (sourceTxID : string) (vin : Vin) : result go_error resolvedPrevout :=
  match vi_Prevout vin with
  | Some p => Ok (resolved (pv_Value p) (pv_ScriptPubKey p))
  | None =>
      let! prevTx := GetRawTransactionVerbose client sourceTxID in
      Ok match prevTx with
         | None => not_found
         | Some prevTx =>
             match find_vout (vi_Vout vin) (tx_Vout prevTx) with
             | Some v => resolved (vo_Value v) (vo_ScriptPubKey v)
             | None => not_found
             end
         end
  end.

(** The output, when found, and the cache after the call. *)
Definition resolveInputPrevout (vin : Vin) (cache : prevouts)
    : result go_error (option resolvedPrevout * prevouts) :=
  let sourceTxID := canonicalTxID (vi_Txid vin) in
  if str_empty sourceTxID || (vi_Vout vin <? 0) then Ok (None, cache)
  else
    let cacheKey := outpoint_key sourceTxID (vi_Vout vin) in
    let found p := if rp_found p then Some p else None in
    match cache !! cacheKey with
    | Some cached => Ok (found cached, cache)
    | None => let! p := lookup_prevout sourceTxID vin in Ok (found p, <[cacheKey := p]> cache)
    end.

(** ** Touched addresses *)

Definition output_touches (watched : string -> bool) (vout : option Vout) : bool :=
  match vout with
  | None => false
  | Some v => existsb (fun address => watched (normalizeAddressIdentity address)) (allOutputAddresses (vo_ScriptPubKey v))
  end.

Fixpoint inputs_touch (watched : string -> bool) (vins : list (option Vin)) (cache : prevouts)
    : result go_error (bool * prevouts) :=
  match vins with
  | [] => Ok (false, cache)
  | None :: vins' => inputs_touch watched vins' cache
  | Some vin :: vins' =>
      if is_coinbase vin then inputs_touch watched vins' cache
      else
        let! '(prevout, cache) := resolveInputPrevout vin cache in
        match prevout with
        | Some p => if watched (normalizeAddressIdentity (rp_address p)) then Ok (true, cache)
                    else inputs_touch watched vins' cache
        | None => inputs_touch watched vins' cache
        end
  end.

Definition tx_touches (watched : string -> bool) (tx : Transaction) (cache : prevouts)
    : result go_error (bool * prevouts) :=
  if existsb (output_touches watched) (tx_Vout tx) then Ok (true, cache)
  else inputs_touch watched (tx_Vin tx) cache.

Definition txTouchesWatchedAddress (tx : Transaction) (watchedAddress : string) (cache : prevouts)
    : result go_error (bool * prevouts) :=
  if str_empty watchedAddress then Ok (false, cache) else tx_touches (String.eqb watchedAddress) tx cache.

(** ** Blocks *)

Definition set_verbosity3 (a : Adapter) (v : Z) : Adapter :=
  {| ad_maxInitialLookbackBlocks := ad_maxInitialLookbackBlocks a; ad_finalityConfirmations := ad_finalityConfirmations a;
     ad_verbosity3Supported := v; ad_headBlockCache := ad_headBlockCache a;
     ad_headBlockCacheAt := ad_headBlockCacheAt a; ad_headBlockCacheTTL := ad_headBlockCacheTTL a |}.

Definition getBlockWithVerbosity (a : Adapter) (blockHash : string) : result go_error (option Block) * Adapter :=
  if negb (ad_verbosity3Supported a =? -1) then
    match GetBlock client blockHash blockVerbosityPrevout with
    | Ok block => (Ok block, set_verbosity3 a 1)
    | Err err =>
        if ad_verbosity3Supported a =? 1 then (Err err, a)
        else (GetBlock client blockHash blockVerbosityTxObjects, set_verbosity3 a (-1))
    end
  else (GetBlock client blockHash blockVerbosityTxObjects, a).

(** [now] at the check of the cache, [later] after the answer. *)
Definition getCachedHeadBlock (now later : Z) (a : Adapter) : result go_error Z * Adapter :=
  if match ad_headBlockCacheAt a with Some t => now - t <? ad_headBlockCacheTTL a | None => false end
  then (Ok (ad_headBlockCache a), a)
  else match GetBlockCount client with
       | Err err => (Err err, a)
       | Ok h =>
           (Ok h, {| ad_maxInitialLookbackBlocks := ad_maxInitialLookbackBlocks a;
                     ad_finalityConfirmations := ad_finalityConfirmations a;
                     ad_verbosity3Supported := ad_verbosity3Supported a; ad_headBlockCache := h;
                     ad_headBlockCacheAt := Some later; ad_headBlockCacheTTL := ad_headBlockCacheTTL a |})
       end.

Definition GetHeadSequence (now later : Z) (a : Adapter) : result go_error Z * Adapter := getCachedHeadBlock now later a.

(** The hash is returned even with the error of the header. *)
Definition GetBlockHash (blockNumber : Z) : string * string * option go_error :=
  match rpc_GetBlockHash client blockNumber with
  | Err err => ("", "", Some (EWrap ("get block hash " +:+ show_Z blockNumber) err))
  | Ok hash =>
      match GetBlockHeader client hash with
      | Err err => (hash, "", Some (EWrap ("get block header " +:+ hash) err))
      | Ok None => (hash, "", None)
      | Ok (Some header) => (hash, bh_PreviousBlockHash header, None)
      end
  end.

Definition GetFinalizedBlockNumber (now later : Z) (a : Adapter) : result go_error Z * Adapter :=
  match getCachedHeadBlock now later a with
  | (Err err, a) => (Err (EWrap "get block count" err), a)
  | (Ok h, a) => let finalized := h ⊖ ad_finalityConfirmations a in (Ok (if finalized <? 0 then 0 else finalized), a)
  end.

(** ** Candidates *)

Record candidateSignature := { cs_hash : string; cs_blockNum : Z; cs_txIndex : Z; cs_blockTime : option Z }.

Abbreviation candidates_map := (gmap string candidateSignature).

Definition is_after (a b : candidateSignature) : bool :=
  (cs_blockNum b <? cs_blockNum a) || ((cs_blockNum a =? cs_blockNum b) && (cs_txIndex b <? cs_txIndex a)).

(** The earliest place of a hash is kept, with the first known time. *)
Definition upsertCandidate (candidates : candidates_map) (c : candidateSignature) : candidates_map :=
  if str_empty (cs_hash c) then candidates
  else
    match candidates !! cs_hash c with
    | None => <[cs_hash c := c]> candidates
    | Some existing =>
        let earlier := is_after existing c in
        <[cs_hash c :=
            {| cs_hash := cs_hash existing;
               cs_blockNum := if earlier then cs_blockNum c else cs_blockNum existing;
               cs_txIndex := if earlier then cs_txIndex c else cs_txIndex existing;
               cs_blockTime := match cs_blockTime existing with Some t => Some t | None => cs_blockTime c end |}]>
          candidates
    end.

(** A block scan keeps the first candidate of a hash. *)
Definition put_first (candidates : candidates_map) (c : candidateSignature) : candidates_map :=
  match candidates !! cs_hash c with None => <[cs_hash c := c]> candidates | Some _ => candidates end.

Definition candidate_order : candidateSignature -> candidateSignature -> comparison :=
  lex (on cs_blockNum Z.compare) (lex (on cs_txIndex Z.compare) (on cs_hash String.compare)).

Definition signature_of (c : candidateSignature) : SignatureInfo :=
  {| sg_Hash := cs_hash c; sg_Sequence := cs_blockNum c; sg_Time := cs_blockTime c |}.

Definition ordered_candidates (candidates : candidates_map) : list candidateSignature :=
  stable_sort candidate_order (map_to_list candidates).*2.

Definition block_range (from to_ : Z) : list Z := (fun i => from + Z.of_nat i) <$> seq 0 (Z.to_nat (to_ - from + 1)).

(** What a scan does with each transaction: whether its place counts, whether it is
    touched, how it enters the candidates, and the texts of its errors. *)
Record scanner := {
  sc_place : Z -> Z -> bool;
  sc_touches : Transaction -> prevouts -> result go_error (bool * prevouts);
  sc_put : candidates_map -> candidateSignature -> candidates_map;
  sc_tx_text : string -> Z -> string;
  sc_block_text : Z -> string
}.

Definition scan_state : Type := prevouts * candidates_map.

Section Scan.
Context (sc : scanner).

Definition scan_tx (height : Z) (blockTime : option Z) (txIndex : Z) (tx : Transaction) (st : scan_state)
    : result go_error scan_state :=
  let txid := canonicalTxID (tx_Txid tx) in
  if str_empty txid then Ok st
  else if negb (sc_place sc height txIndex) then Ok st
  else match sc_touches sc tx st.1 with
       | Err err => Err (EWrap (sc_tx_text sc txid height) err)
       | Ok (touches, cache) =>
           Ok (cache, if touches
                      then sc_put sc st.2 {| cs_hash := txid; cs_blockNum := height; cs_txIndex := txIndex;
                                             cs_blockTime := txTimePointer tx blockTime |}
                      else st.2)
       end.

Fixpoint scan_txs (height : Z) (blockTime : option Z) (txIndex : Z) (txs : list (option Transaction)) (st : scan_state)
    : result go_error scan_state :=
  match txs with
  | [] => Ok st
  | None :: txs' => scan_txs height blockTime (txIndex + 1) txs' st
  | Some tx :: txs' =>
      let! st := scan_tx height blockTime txIndex tx st in scan_txs height blockTime (txIndex + 1) txs' st
  end.

(** A block without a height of its own gets the height asked for. *)
Definition block_height (blockNum : Z) (block : Block) : Z :=
  if (0 <? bk_Height block) || (blockNum =? 0) then bk_Height block else blockNum.

Definition scan_block (blockNum : Z) (block : option Block) (st : scan_state) : result go_error scan_state :=
  match block with
  | None => Ok st
  | Some block => scan_txs (block_height blockNum block) (unixTimePtr (bk_Time block)) 0 (bk_Tx block) st
  end.

Fixpoint scan_blocks (numbered : list (Z * string)) (a : Adapter) (st : scan_state)
    : result go_error scan_state * Adapter :=
  match numbered with
  | [] => (Ok st, a)
  | (blockNum, blockHash) :: numbered' =>
      match getBlockWithVerbosity a blockHash with
      | (Err err, a) => (Err (EWrap (sc_block_text sc blockNum) err), a)
      | (Ok block, a) =>
          match scan_block blockNum block st with
          | Err err => (Err err, a)
          | Ok st => scan_blocks numbered' a st
          end
      end
  end.
End Scan.

Definition scan_range (sc : scanner) (batch_text : string) (startBlock endBlock : Z) (a : Adapter)
    : result go_error candidates_map * Adapter :=
  let heights := block_range startBlock endBlock in
  match GetBlockHashes client heights with
  | Err err => (Err (EWrap (batch_text +:+ " " +:+ show_Z startBlock +:+ "-" +:+ show_Z endBlock) err), a)
  | Ok blockHashes =>
      let '(r, a) := scan_blocks sc (zip heights blockHashes) a (∅, ∅) in
      (let! st := r in Ok st.2, a)
  end.

Definition watched_addresses (watchedAddresses : list string) : gset string :=
  list_to_set (filter (fun s => str_empty s = false) (normalizeAddressIdentity <$> watchedAddresses)).

Definition block_scanner (addrSet : gset string) : scanner :=
  {| sc_place := fun _ _ => true;
     sc_touches := tx_touches (fun address => bool_decide (address ∈ addrSet));
     sc_put := put_first;
     sc_tx_text := fun txid _ => "scan resolve prevout tx=" +:+ txid;
     sc_block_text := fun blockNum => "scan get block " +:+ show_Z blockNum |}.

Definition ScanBlocks (startBlock endBlock : Z) (watchedAddresses : list string) (a : Adapter)
    : result go_error (list SignatureInfo) * Adapter :=
  if (endBlock <? startBlock) || (length watchedAddresses =? 0)%nat then (Ok [], a)
  else
    let sc := block_scanner (watched_addresses watchedAddresses) in
    let '(r, a) := scan_range sc "scan batch get block hashes" startBlock endBlock a in
    (let! candidates := r in Ok (signature_of <$> ordered_candidates candidates), a).

(** ** Signatures of one address *)

(** The index of the first transaction with the id. *)
Fixpoint index_of (txid : string) (idx : Z) (txs : list (option Transaction)) : option Z :=
  match txs with
  | [] => None
  | Some tx :: txs' => if String.eqb (canonicalTxID (tx_Txid tx)) txid then Some idx else index_of txid (idx + 1) txs'
  | None :: txs' => index_of txid (idx + 1) txs'
  end.

Definition resolveCursorPosition (cursorHash : string) : result go_error (Z * Z) :=
  let txid := canonicalTxID cursorHash in
  if str_empty txid then Ok (-1, -1)
  else
    let! tx := GetRawTransactionVerbose client txid in
    match tx with
    | None => Ok (-1, -1)
    | Some tx =>
        if str_empty (trim_space (tx_Blockhash tx)) then Ok (-1, -1)
        else
          let! block := GetBlock client (tx_Blockhash tx) blockVerbosityTxObjects in
          Ok match block with
             | None => (-1, -1)
             | Some block =>
                 (if bk_Height block <? 0 then -1 else bk_Height block,
                  match index_of txid 0 (bk_Tx block) with
                  | Some idx => idx
                  | None => if (length (bk_Tx block) =? 0)%nat then -1 else max_int64
                  end)
             end
    end.

Definition address_scanner (watchedAddress : string) (cursorBlock cursorTxIndex : Z) : scanner :=
  {| sc_place := fun blockNum txIndex => isAfterCursor blockNum txIndex cursorBlock cursorTxIndex;
     sc_touches := fun tx => txTouchesWatchedAddress tx watchedAddress;
     sc_put := upsertCandidate;
     sc_tx_text := fun txid height => "inspect tx " +:+ txid +:+ " in block " +:+ show_Z height;
     sc_block_text := fun blockNum => "get block " +:+ show_Z blockNum |}.

Definition head_of (now later cutoffSeq : Z) (a : Adapter) : result go_error Z * Adapter :=
  if cutoffSeq <=? 0 then
    match getCachedHeadBlock now later a with
    | (Err err, a) => (Err (EWrap "get head block" err), a)
    | r => r
    end
  else (Ok cutoffSeq, a).

(** Where the scan starts, and the place of the cursor. *)
Definition cursor_place (a : Adapter) (h : Z) (cursor : option string) : result go_error (Z * (Z * Z)) :=
  let startBlock := h ⊖ (ad_maxInitialLookbackBlocks a ⊖ 1) in
  let startBlock := if startBlock <? 0 then 0 else startBlock in
  match cursor with
  | None => Ok (startBlock, (-1, -1))
  | Some c =>
      if str_empty (trim_space c) then Ok (startBlock, (-1, -1))
      else match resolveCursorPosition c with
           | Err err => Err (EWrap ("resolve cursor tx " +:+ c) err)
           | Ok (cursorBlock, cursorTxIndex) =>
               Ok (if (0 <=? cursorBlock) && (cursorBlock <? startBlock) then cursorBlock else startBlock,
                   (cursorBlock, cursorTxIndex))
           end
  end.

(** [None]: the slice of heights is made with a negative capacity, which panics. *)
Definition FetchNewSignaturesWithCutoff (now later : Z) (address : string) (cursor : option string)
    (batchSize cutoffSeq : Z) (a : Adapter) : option (result go_error (list SignatureInfo) * Adapter) :=
  if batchSize <=? 0 then Some (Ok [], a)
  else
    let '(r, a) := head_of now later cutoffSeq a in
    match (let! h := r in let! place := cursor_place a h cursor in Ok (h, place)) with
    | Err err => Some (Err err, a)
    | Ok (h, (startBlock, (cursorBlock, cursorTxIndex))) =>
        if h - startBlock + 1 <? 0 then None
        else
          let sc := address_scanner (normalizeAddressIdentity address) cursorBlock cursorTxIndex in
          let '(r, a) := scan_range sc "batch get block hashes" startBlock h a in
          Some (let! candidates := r in
                Ok (take (Z.to_nat batchSize) (signature_of <$> ordered_candidates candidates)), a)
    end.

Definition FetchNewSignatures (now later : Z) (address : string) (cursor : option string) (batchSize : Z) (a : Adapter)
    : option (result go_error (list SignatureInfo) * Adapter) :=
  FetchNewSignaturesWithCutoff now later address cursor batchSize 0 a.

(** ** Transactions *)

Record txEnvelopeIn := {
  ei_Index : Z; ei_Txid : string; ei_Vout : Z; ei_Address : string; ei_ValueSat : string; ei_Coinbase : bool
}.
Record txEnvelopeOut := { eo_Index : Z; eo_Address : string; eo_ValueSat : string }.
Record txEnvelope := {
  en_Txid : string; en_BlockHeight : Z; en_BlockHash : string; en_BlockTime : Z; en_Confirmations : Z;
  en_Vin : list txEnvelopeIn; en_Vout : list txEnvelopeOut; en_FeeSat : string; en_FeePayer : string
}.

(** [json.Marshal] with the tags of the fields. *)
Definition omit_int (name : string) (n : Z) : list string := json_omit (n =? 0) name (show_Z n).
Definition omit_str (name value : string) : list string := json_omit (str_empty value) name (json_str value).

Definition input_json (i : txEnvelopeIn) : string :=
  json_fields ([json_field "index" (show_Z (ei_Index i))] ++ omit_str "txid" (ei_Txid i) ++ omit_int "vout" (ei_Vout i) ++
    omit_str "address" (ei_Address i) ++ omit_str "value_sat" (ei_ValueSat i) ++
    json_omit (negb (ei_Coinbase i)) "coinbase" "true").

Definition output_json (o : txEnvelopeOut) : string :=
  json_fields ([json_field "index" (show_Z (eo_Index o))] ++ omit_str "address" (eo_Address o) ++
    [json_field "value_sat" (json_str (eo_ValueSat o))]).

Definition envelope_json (e : txEnvelope) : string :=
  json_fields ([json_field "chain" (json_str "btc"); json_field "txid" (json_str (en_Txid e));
      json_field "block_height" (show_Z (en_BlockHeight e))] ++
    omit_str "block_hash" (en_BlockHash e) ++ omit_int "block_time" (en_BlockTime e) ++
    omit_int "confirmations" (en_Confirmations e) ++
    [json_field "vin" (json_array input_json (en_Vin e)); json_field "vout" (json_array output_json (en_Vout e));
     json_field "fee_sat" (json_str (en_FeeSat e))] ++ omit_str "fee_payer" (en_FeePayer e)).

(** The inputs from an index on, their addresses and their total. *)
Record resolved_inputs := { ri_vins : list txEnvelopeIn; ri_addresses : list string; ri_total : Z }.

Definition no_inputs : resolved_inputs := {| ri_vins := []; ri_addresses := []; ri_total := 0 |}.

Definition add_input (acc : resolved_inputs) (i : txEnvelopeIn) (value : Z) : resolved_inputs :=
  {| ri_vins := ri_vins acc ++ [i];
     ri_addresses := ri_addresses acc ++ (if str_empty (ei_Address i) then [] else [ei_Address i]);
     ri_total := ri_total acc ⊕ value |}.

(** An input and its value, given what it spends. *)
Definition input_of (vinIndex : Z) (vin : Vin) (prevout : option resolvedPrevout) : txEnvelopeIn * Z :=
  let mk address value coinbase :=
    {| ei_Index := vinIndex; ei_Txid := canonicalTxID (vi_Txid vin); ei_Vout := vi_Vout vin; ei_Address := address;
       ei_ValueSat := value; ei_Coinbase := coinbase |} in
  if is_coinbase vin then (mk "" "" true, 0)
  else match prevout with
       | None => (mk "" "" false, 0)
       | Some p => (mk (normalizeAddressIdentity (rp_address p)) (show_Z (rp_valueSat p)) false, rp_valueSat p)
       end.

Fixpoint resolve_inputs (txid : string) (vinIndex : Z) (vins : list (option Vin)) (acc : resolved_inputs) (cache : prevouts)
    : result go_error (resolved_inputs * prevouts) :=
  match vins with
  | [] => Ok (acc, cache)
  | None :: vins' => resolve_inputs txid (vinIndex + 1) vins' acc cache
  | Some vin :: vins' =>
      let next prevout cache :=
        let '(i, value) := input_of vinIndex vin prevout in
        resolve_inputs txid (vinIndex + 1) vins' (add_input acc i value) cache in
      if is_coinbase vin then next None cache
      else match resolveInputPrevout vin cache with
           | Err err => Err (EWrap ("resolve input prevout tx=" +:+ txid +:+ " vin=" +:+ show_Z vinIndex) err)
           | Ok (prevout, cache) => next prevout cache
           end
  end.

Fixpoint read_outputs (txid : string) (vouts : list (option Vout)) : result go_error (list txEnvelopeOut * Z) :=
  match vouts with
  | [] => Ok ([], 0)
  | None :: vouts' => read_outputs txid vouts'
  | Some vout :: vouts' =>
      match parseBTCValueToSatoshi (vo_Value vout) with
      | Err err => Err (EWrap ("parse tx=" +:+ txid +:+ " vout=" +:+ show_Z (vo_N vout) +:+ " value") err)
      | Ok valueSat =>
          let! '(outs, total) := read_outputs txid vouts' in
          Ok ({| eo_Index := vo_N vout; eo_Address := firstOutputAddress (vo_ScriptPubKey vout);
                 eo_ValueSat := show_Z valueSat |} :: outs, valueSat ⊕ total)
      end
  end.

Definition output_order : txEnvelopeOut -> txEnvelopeOut -> comparison :=
  lex (on eo_Index Z.compare) (on eo_Address String.compare).

Definition fee_of (totalIn totalOut : Z) : Z := if (0 <? totalIn) && (totalOut <=? totalIn) then totalIn ⊖ totalOut else 0.

Definition envelope (txid : string) (tx : Transaction) (blockHeight : Z) (ins : resolved_inputs)
    (outs : list txEnvelopeOut) (totalOut : Z) : txEnvelope :=
  {| en_Txid := if str_empty (canonicalTxID (tx_Txid tx)) then txid else canonicalTxID (tx_Txid tx);
     en_BlockHeight := blockHeight; en_BlockHash := canonicalTxID (tx_Blockhash tx); en_BlockTime := pickBlockTime tx;
     en_Confirmations := tx_Confirmations tx; en_Vin := ri_vins ins; en_Vout := stable_sort output_order outs;
     en_FeeSat := show_Z (fee_of (ri_total ins) totalOut); en_FeePayer := deterministicAddress (ri_addresses ins) |}.

Abbreviation blocks_cache := (gmap string Block).

Definition block_of (txid blockHash : string) (cache : blocks_cache) : result go_error (Z * blocks_cache) :=
  if str_empty blockHash then Ok (0, cache)
  else match cache !! blockHash with
       | Some block => Ok (bk_Height block, cache)
       | None =>
           match GetBlock client blockHash blockVerbosityTxObjects with
           | Err err => Err (EWrap ("fetch block " +:+ blockHash +:+ " for tx " +:+ txid) err)
           | Ok None => Ok (0, cache)
           | Ok (Some block) => Ok (bk_Height block, <[blockHash := block]> cache)
           end
       end.

Definition tx_envelope (txid : string) (tx : Transaction) (caches : prevouts * blocks_cache)
    : result go_error (txEnvelope * (prevouts * blocks_cache)) :=
  let! '(blockHeight, blockCache) := block_of txid (canonicalTxID (tx_Blockhash tx)) caches.2 in
  let! '(ins, prevoutCache) := resolve_inputs txid 0 (tx_Vin tx) no_inputs caches.1 in
  let! '(outs, totalOut) := read_outputs txid (tx_Vout tx) in
  Ok (envelope txid tx blockHeight ins outs totalOut, (prevoutCache, blockCache)).

Fixpoint tx_envelopes (txids : list string) (txs : list (option Transaction)) (caches : prevouts * blocks_cache)
    : result go_error (list txEnvelope) :=
  match txids, txs with
  | txid :: txids', Some tx :: txs' =>
      let! '(e, caches) := tx_envelope txid tx caches in
      let! rest := tx_envelopes txids' txs' caches in
      Ok (e :: rest)
  | txid :: _, None :: _ => Err (EMsg ("transaction " +:+ txid +:+ " not found"))
  | _, _ => Ok []
  end.

(** *** Fetching ahead *)

(** The transactions to ask for, in the order of their first input. *)
Definition missing_source (cache : prevouts) (vin : option Vin) : string :=
  match vin with
  | None => ""
  | Some vin =>
      let sourceTxID := canonicalTxID (vi_Txid vin) in
      if bool_decide (is_Some (vi_Prevout vin)) || is_coinbase vin ||
         bool_decide (is_Some (cache !! outpoint_key sourceTxID (vi_Vout vin)))
      then "" else sourceTxID
  end.

Definition missing_sources (txs : list (option Transaction)) (cache : prevouts) : list string :=
  distinct ∅ (missing_source cache <$> concat ((fun tx => match tx with Some tx => tx_Vin tx | None => [] end) <$> txs)).

Definition cache_vout (txid : string) (cache : prevouts) (vout : option Vout) : prevouts :=
  match vout with
  | None => cache
  | Some v => <[outpoint_key txid (vo_N v) := resolved (vo_Value v) (vo_ScriptPubKey v)]> cache
  end.

Definition cache_outputs (cache : prevouts) (source : string * option Transaction) : prevouts :=
  match source.2 with
  | None => cache
  | Some prevTx => foldl (cache_vout (canonicalTxID source.1)) cache (tx_Vout prevTx)
  end.

(** The cache as it was when the batch fails, which is only logged. *)
Definition prefetchPrevouts (txs : list (option Transaction)) (cache : prevouts) : prevouts :=
  match missing_sources txs cache with
  | [] => cache
  | missingTxIDs =>
      match GetRawTransactionsVerbose client missingTxIDs with
      | Err _ => cache
      | Ok prevTxs => foldl cache_outputs cache (zip missingTxIDs prevTxs)
      end
  end.

Definition block_hashes (txs : list (option Transaction)) : list string :=
  distinct ∅ ((fun tx => match tx with Some tx => canonicalTxID (tx_Blockhash tx) | None => "" end) <$> txs).

Definition cache_block (cache : blocks_cache) (found : string * option Block) : blocks_cache :=
  match found.2 with Some block => <[found.1 := block]> cache | None => cache end.

Definition prefetchBlocks (txs : list (option Transaction)) (cache : blocks_cache) : blocks_cache :=
  match block_hashes txs with
  | [] => cache
  | hashes =>
      match GetBlocks client hashes blockVerbosityTxObjects with
      | Err _ => cache
      | Ok blocks => foldl cache_block cache (zip hashes blocks)
      end
  end.

Fixpoint canonical_ids (i : Z) (signatures : list string) : result go_error (list string) :=
  match signatures with
  | [] => Ok []
  | raw :: signatures' =>
      if str_empty (canonicalTxID raw) then Err (EMsg ("empty tx id in signatures[" +:+ show_Z i +:+ "]"))
      else let! ids := canonical_ids (i + 1) signatures' in Ok (canonicalTxID raw :: ids)
  end.

Definition envelopes (signatures : list string) : result go_error (list txEnvelope) :=
  let! txids := canonical_ids 0 signatures in
  match GetRawTransactionsVerbose client txids with
  | Err err => Err (EWrap "batch fetch transactions" err)
  | Ok txs => tx_envelopes txids txs (prefetchPrevouts txs ∅, prefetchBlocks txs ∅)
  end.

Definition FetchTransactions (signatures : list string) : result go_error (list string) :=
  if (length signatures =? 0)%nat then Ok []
  else let! es := envelopes signatures in Ok (envelope_json <$> es).
End Client.

(** ** Construction *)

Definition WithMaxInitialLookbackBlocks (n : Z) (a : Adapter) : Adapter :=
  {| ad_maxInitialLookbackBlocks := n; ad_finalityConfirmations := ad_finalityConfirmations a;
     ad_verbosity3Supported := ad_verbosity3Supported a; ad_headBlockCache := ad_headBlockCache a;
     ad_headBlockCacheAt := ad_headBlockCacheAt a; ad_headBlockCacheTTL := ad_headBlockCacheTTL a |}.

Definition WithFinalityConfirmations (n : Z) (a : Adapter) : Adapter :=
  if 0 <? n then
    {| ad_maxInitialLookbackBlocks := ad_maxInitialLookbackBlocks a; ad_finalityConfirmations := n;
       ad_verbosity3Supported := ad_verbosity3Supported a; ad_headBlockCache := ad_headBlockCache a;
       ad_headBlockCacheAt := ad_headBlockCacheAt a; ad_headBlockCacheTTL := ad_headBlockCacheTTL a |}
  else a.

Definition NewAdapter (opts : list (Adapter -> Adapter)) : Adapter :=
  foldl (fun a opt => opt a)
    {| ad_maxInitialLookbackBlocks := 200; ad_finalityConfirmations := 6; ad_verbosity3Supported := 0;
       ad_headBlockCache := 0; ad_headBlockCacheAt := None; ad_headBlockCacheTTL := 5 * 10 ^ 9 |} opts.
