(* ===== verification/BtcAdapterProofs.v ===== *)
(** * Bitcoin adapter: properties

    The caches and the requests made ahead change nothing of the envelopes; a block scan
    returns exactly the transactions that touch watched addresses, once each; amounts in
    decimal are read exactly. *)

From Stdlib Require Import ZArith String Ascii Lia DecimalString.
From stdpp Require Import base option list strings gmap sorting.
From S2P Require Import Prelude Ordering Json Retry NormalizerDecode BtcAdapter.

Open Scope Z_scope.
Open Scope go_scope.

(** ** Keys of outputs *)

Lemma split_at_colon (a b x y : string) :
  (forall c, c = ":"%char -> all_chars (fun d => negb (Ascii.eqb d c)) x = true /\
                             all_chars (fun d => negb (Ascii.eqb d c)) y = true) ->
  a +:+ String ":" x = b +:+ String ":" y -> a = b /\ x = y.
Proof.
  intros Hc. destruct (Hc _ eq_refl) as [Hx Hy]. clear Hc. revert b. induction a as [|c a IH]; intros [|d b] H; simpl in H.
  - by injection H as ->.
  - exfalso. injection H as <- H. revert Hx. rewrite H. clear. induction b as [|e b IH]; simpl; [done|].
    by intros [_ ?]%andb_true_iff.
  - exfalso. injection H as -> H. revert Hy. rewrite <- H. clear. induction a as [|e a IH]; simpl; [done|].
    by intros [_ ?]%andb_true_iff.
  - injection H as -> H. by apply IH in H as [-> ->].
Qed.

Lemma uint_no_colon u : all_chars (fun d => negb (Ascii.eqb d ":")) (NilEmpty.string_of_uint u) = true.
Proof. induction u; simpl; done. Qed.

Lemma show_no_colon n : all_chars (fun d => negb (Ascii.eqb d ":")) (show_Z n) = true.
Proof.
  assert (forall u, all_chars (fun d => negb (Ascii.eqb d ":")) (NilZero.string_of_uint u) = true) as Hu
    by (intros []; try done; apply uint_no_colon).
  unfold show_Z, NilZero.string_of_int. destruct (Z.to_int n); simpl; [apply Hu|]. apply Hu.
Qed.

Lemma show_Z_inj m n : show_Z m = show_Z n -> m = n.
Proof. intros H. apply (f_equal parse_decimal) in H. rewrite !parse_show in H. by injection H. Qed.

Lemma outpoint_key_inj t m u n : outpoint_key t m = outpoint_key u n -> t = u /\ m = n.
Proof.
  unfold outpoint_key. intros H. apply split_at_colon in H as [-> H%show_Z_inj]; [done|].
  intros c ->. split; apply show_no_colon.
Qed.

(** ** The cache of outputs is transparent *)

(** What the node has for an output. *)
Definition stored_prevout (client : RPCClient) (txid : string) (n : Z) : result go_error resolvedPrevout :=
  let! prevTx := GetRawTransactionVerbose client txid in
  Ok match prevTx with
     | None => not_found
     | Some prevTx =>
         match find_vout n (tx_Vout prevTx) with
         | Some v => resolved (vo_Value v) (vo_ScriptPubKey v)
         | None => not_found
         end
     end.

Section Transparent.
Context (client : RPCClient).

(** What there is at an outpoint. *)
Context (outputs : string -> Z -> result go_error resolvedPrevout).

Definition found_only (p : resolvedPrevout) : option resolvedPrevout := if rp_found p then Some p else None.

(** What an input spends, asked when it is needed. *)
Definition direct_prevout (vin : Vin) : result go_error (option resolvedPrevout) :=
  let source := canonicalTxID (vi_Txid vin) in
  if str_empty source || (vi_Vout vin <? 0) then Ok None
  else let! p := outputs source (vi_Vout vin) in Ok (found_only p).

(** What is told of an input, inline or asked for, is what there is at its outpoint. *)
Definition honest (vin : Vin) : Prop :=
  lookup_prevout client (canonicalTxID (vi_Txid vin)) vin = outputs (canonicalTxID (vi_Txid vin)) (vi_Vout vin).

Definition all_honest (vins : list (option Vin)) : Prop := forall vin, Some vin ∈ vins -> honest vin.

Definition coherent (cache : prevouts) : Prop :=
  forall t n p, cache !! outpoint_key t n = Some p -> outputs t n = Ok p.

Lemma coherent_empty : coherent ∅.
Proof. intros t n p. by rewrite lookup_empty. Qed.

Lemma coherent_insert cache t n p : coherent cache -> outputs t n = Ok p ->
  coherent (<[outpoint_key t n := p]> cache).
Proof.
  intros Hc Hp u m q. destruct (decide (outpoint_key t n = outpoint_key u m)) as [He|Hne].
  - rewrite He, lookup_insert_eq. intros [= <-]. by apply outpoint_key_inj in He as [-> ->].
  - rewrite lookup_insert_ne by done. apply Hc.
Qed.

(** The answer of a computation with a cache is that of the one without, and leaves the
    cache coherent. *)
Definition agrees {A} (r : result go_error (A * prevouts)) (d : result go_error A) : Prop :=
  match r with
  | Ok (a, cache) => d = Ok a /\ coherent cache
  | Err err => d = Err err
  end.

Lemma resolve_agrees vin cache : coherent cache -> honest vin ->
  agrees (resolveInputPrevout client vin cache) (direct_prevout vin).
Proof.
  intros Hc Hh. unfold resolveInputPrevout, direct_prevout. destruct (str_empty _ || _); [done|].
  destruct (cache !! _) as [p|] eqn:Ep.
  - apply Hc in Ep. by rewrite Ep.
  - rewrite Hh. destruct (outputs _ _) as [p|err] eqn:Es; simpl; [|done]. split; [done|]. by apply coherent_insert.
Qed.

(** *** Inputs *)

Fixpoint direct_inputs (txid : string) (vinIndex : Z) (vins : list (option Vin)) (acc : resolved_inputs)
    : result go_error resolved_inputs :=
  match vins with
  | [] => Ok acc
  | None :: vins' => direct_inputs txid (vinIndex + 1) vins' acc
  | Some vin :: vins' =>
      let next prevout :=
        let '(i, value) := input_of vinIndex vin prevout in
        direct_inputs txid (vinIndex + 1) vins' (add_input acc i value) in
      if is_coinbase vin then next None
      else match direct_prevout vin with
           | Err err => Err (EWrap ("resolve input prevout tx=" +:+ txid +:+ " vin=" +:+ show_Z vinIndex) err)
           | Ok prevout => next prevout
           end
  end.

Lemma inputs_agree txid vins : forall vinIndex acc cache, coherent cache -> all_honest vins ->
  agrees (resolve_inputs client txid vinIndex vins acc cache) (direct_inputs txid vinIndex vins acc).
Proof.
  induction vins as [|[vin|] vins IH]; intros vinIndex acc cache Hc Hh; simpl; [done| |].
  2: { apply IH; [done|]. intros v Hv. apply Hh. set_solver. }
  assert (all_honest vins) as Hh' by (intros v Hv; apply Hh; set_solver).
  assert (honest vin) as Hv by (apply Hh; set_solver).
  destruct (is_coinbase vin). { destruct (input_of _ _ _). by apply IH. }
  pose proof (resolve_agrees vin cache Hc Hv) as Hr.
  destruct (resolveInputPrevout client vin cache) as [[prevout cache']|err]; simpl in Hr.
  - destruct Hr as [-> Hc']. destruct (input_of _ _ _). by apply IH.
  - by rewrite Hr.
Qed.

Fixpoint direct_touch (watched : string -> bool) (vins : list (option Vin)) : result go_error bool :=
  match vins with
  | [] => Ok false
  | None :: vins' => direct_touch watched vins'
  | Some vin :: vins' =>
      if is_coinbase vin then direct_touch watched vins'
      else
        let! prevout := direct_prevout vin in
        match prevout with
        | Some p => if watched (normalizeAddressIdentity (rp_address p)) then Ok true else direct_touch watched vins'
        | None => direct_touch watched vins'
        end
  end.

Definition direct_touches (watched : string -> bool) (tx : Transaction) : result go_error bool :=
  if existsb (output_touches watched) (tx_Vout tx) then Ok true else direct_touch watched (tx_Vin tx).

Lemma touch_agrees watched vins : forall cache, coherent cache -> all_honest vins ->
  agrees (inputs_touch client watched vins cache) (direct_touch watched vins).
Proof.
  induction vins as [|[vin|] vins IH]; intros cache Hc Hh; simpl; [done| |].
  2: { apply IH; [done|]. intros v Hv. apply Hh. set_solver. }
  assert (all_honest vins) as Hh' by (intros v Hv; apply Hh; set_solver).
  assert (honest vin) as Hv by (apply Hh; set_solver).
  destruct (is_coinbase vin); [by apply IH|].
  pose proof (resolve_agrees vin cache Hc Hv) as Hr.
  destruct (resolveInputPrevout client vin cache) as [[prevout cache']|err]; simpl in Hr |- *; [|by rewrite Hr].
  destruct Hr as [-> Hc']. simpl. destruct prevout as [p|]; [|by apply IH].
  destruct (watched _); [done|by apply IH].
Qed.

Lemma touches_agrees watched tx cache : coherent cache -> all_honest (tx_Vin tx) ->
  agrees (tx_touches client watched tx cache) (direct_touches watched tx).
Proof.
  intros Hc Hh. unfold tx_touches, direct_touches. destruct (existsb _ _); [done|]. by apply touch_agrees.
Qed.
End Transparent.

(** ** Requests made ahead *)

Lemma find_vout_unique v vouts : NoDup (vo_N <$> omap id vouts) -> Some v ∈ vouts -> find_vout (vo_N v) vouts = Some v.
Proof.
  induction vouts as [|[w|] vouts IH]; intros Hnd Hv; simpl in *; [set_solver| |].
  - apply NoDup_cons in Hnd as [Hw Hnd]. apply elem_of_cons in Hv as [[= ->]|Hv]; [by rewrite Z.eqb_refl|].
    destruct (Z.eqb_spec (vo_N w) (vo_N v)) as [He|]; [|by apply IH]. exfalso. apply Hw. rewrite He.
    apply list_elem_of_fmap_2. apply list_elem_of_omap. by exists (Some v).
  - apply IH; [done|]. by apply elem_of_cons in Hv as [?|?].
Qed.

Lemma distinct_elem x l : forall seen, x ∈ distinct seen l -> x ∈ l.
Proof. induction l as [|y l IH]; intros seen; simpl; [done|]. destruct (_ || _); set_solver. Qed.

Section Ahead.
Context (client : RPCClient).

(** A batch answers as its requests one by one; the ids of spent transactions have no
    second prefix; the outputs of a transaction have distinct indices; outputs given inline
    are those of their transaction. *)
Context (Hraw : forall ids txs, GetRawTransactionsVerbose client ids = Ok txs ->
  Forall2 (fun id tx => GetRawTransactionVerbose client id = Ok tx) ids txs).
Context (Hblocks : forall hashes verbosity blocks, GetBlocks client hashes verbosity = Ok blocks ->
  Forall2 (fun h b => GetBlock client h verbosity = Ok b) hashes blocks).
Context (Hids : forall txid tx vin, GetRawTransactionVerbose client txid = Ok (Some tx) -> Some vin ∈ tx_Vin tx ->
  canonicalTxID (canonicalTxID (vi_Txid vin)) = canonicalTxID (vi_Txid vin)).
Context (Hindex : forall txid tx, GetRawTransactionVerbose client txid = Ok (Some tx) -> NoDup (vo_N <$> omap id (tx_Vout tx))).
Context (Hhonest : forall id tx, GetRawTransactionVerbose client id = Ok (Some tx) -> all_honest client (stored_prevout client) (tx_Vin tx)).

Lemma cache_outputs_coherent cache source tx : coherent (stored_prevout client) cache -> canonicalTxID source = source ->
  GetRawTransactionVerbose client source = Ok tx -> coherent (stored_prevout client) (cache_outputs cache (source, tx)).
Proof.
  intros Hc Hs Ht. destruct tx as [tx|]; [|done]. unfold cache_outputs. simpl. rewrite Hs.
  assert (forall v, Some v ∈ tx_Vout tx ->
    stored_prevout client source (vo_N v) = Ok (resolved (vo_Value v) (vo_ScriptPubKey v))) as Hv.
  { intros v Hv. unfold stored_prevout. rewrite Ht. simpl.
    by rewrite (find_vout_unique v) by (done || by eapply Hindex). }
  revert Hv cache Hc. generalize (tx_Vout tx) as vouts. induction vouts as [|[v|] vouts IH]; intros Hv cache Hc; simpl; [done| |].
  - apply IH; [set_solver|]. apply coherent_insert; [done|]. apply Hv. set_solver.
  - apply IH; [set_solver|done].
Qed.

Lemma missing_source_plain txs cache source : (forall tx vin, Some tx ∈ txs -> Some vin ∈ tx_Vin tx ->
    canonicalTxID (canonicalTxID (vi_Txid vin)) = canonicalTxID (vi_Txid vin)) ->
  source ∈ missing_sources txs cache -> canonicalTxID source = source.
Proof.
  intros Hplain (vin & -> & Hv)%distinct_elem%list_elem_of_fmap. apply list_elem_of_In, in_concat in Hv as (l & Hl & Hv).
  apply list_elem_of_In, list_elem_of_fmap in Hl as (tx & -> & Htx). apply list_elem_of_In in Hv.
  destruct tx as [tx|]; [|set_solver]. unfold missing_source. destruct vin as [vin|]; [|done]. destruct (_ || _); [done|].
  by eapply Hplain.
Qed.

Lemma prefetch_coherent txs cache : (forall tx, Some tx ∈ txs -> exists txid, GetRawTransactionVerbose client txid = Ok (Some tx)) ->
  coherent (stored_prevout client) cache -> coherent (stored_prevout client) (prefetchPrevouts client txs cache).
Proof.
  intros Htxs Hc. unfold prefetchPrevouts. pose proof (missing_source_plain txs cache) as Hplain.
  destruct (missing_sources txs cache) as [|t ts]; [done|].
  destruct (GetRawTransactionsVerbose client _) as [prevTxs|err] eqn:Er; [|done]. apply Hraw in Er.
  assert (forall source, source ∈ t :: ts -> canonicalTxID source = source) as Hsrc.
  { intros source. apply Hplain. intros tx vin [txid Ht]%Htxs. by eapply Hids. }
  clear Hplain Htxs. revert cache Hc Hsrc. induction Er as [|id tx ids prevTxs Hid _ IH]; intros cache Hc Hsrc; simpl; [done|].
  apply IH; [|set_solver]. apply cache_outputs_coherent; [done|apply Hsrc; set_solver|done].
Qed.

(** *** Blocks *)

Definition direct_block (txid blockHash : string) : result go_error Z :=
  if str_empty blockHash then Ok 0
  else match GetBlock client blockHash blockVerbosityTxObjects with
       | Err err => Err (EWrap ("fetch block " +:+ blockHash +:+ " for tx " +:+ txid) err)
       | Ok block => Ok (from_option bk_Height 0 block)
       end.

Definition blocks_coherent (cache : gmap string Block) : Prop :=
  forall h b, cache !! h = Some b -> GetBlock client h blockVerbosityTxObjects = Ok (Some b).

Lemma blocks_coherent_insert cache h b : blocks_coherent cache -> GetBlock client h blockVerbosityTxObjects = Ok (Some b) ->
  blocks_coherent (<[h := b]> cache).
Proof.
  intros Hc Hb k b'. destruct (decide (h = k)) as [<-|Hne].
  - rewrite lookup_insert_eq. by intros [= <-].
  - rewrite lookup_insert_ne by done. apply Hc.
Qed.

Lemma prefetch_blocks_coherent txs : blocks_coherent (prefetchBlocks client txs ∅).
Proof.
  assert (blocks_coherent ∅) as Hc by (intros h b; by rewrite lookup_empty).
  unfold prefetchBlocks. destruct (block_hashes txs) as [|h hs]; [done|].
  destruct (GetBlocks client _ _) as [blocks|err] eqn:Er; [|done]. apply Hblocks in Er. revert Hc. generalize (∅ : gmap string Block).
  induction Er as [|k b hashes blocks Hk _ IH]; intros cache Hc; simpl; [done|]. apply IH.
  unfold cache_block. simpl. destruct b; [by apply blocks_coherent_insert|done].
Qed.

Lemma block_agrees txid blockHash cache : blocks_coherent cache ->
  match block_of client txid blockHash cache with
  | Ok (height, cache') => direct_block txid blockHash = Ok height /\ blocks_coherent cache'
  | Err err => direct_block txid blockHash = Err err
  end.
Proof.
  intros Hc. unfold block_of, direct_block. destruct (str_empty blockHash); [done|].
  destruct (cache !! blockHash) as [b|] eqn:Eb; [by rewrite (Hc _ _ Eb)|].
  destruct (GetBlock client blockHash _) as [[b|]|err] eqn:Eg; [|done..]. split; [done|]. by apply blocks_coherent_insert.
Qed.

(** *** Envelopes *)

Definition direct_envelope (txid : string) (tx : Transaction) : result go_error txEnvelope :=
  let! blockHeight := direct_block txid (canonicalTxID (tx_Blockhash tx)) in
  let! ins := direct_inputs (stored_prevout client) txid 0 (tx_Vin tx) no_inputs in
  let! '(outs, totalOut) := read_outputs txid (tx_Vout tx) in
  Ok (envelope txid tx blockHeight ins outs totalOut).

Fixpoint direct_envelopes_of (txids : list string) (txs : list (option Transaction)) : result go_error (list txEnvelope) :=
  match txids, txs with
  | txid :: txids', Some tx :: txs' =>
      let! e := direct_envelope txid tx in let! rest := direct_envelopes_of txids' txs' in Ok (e :: rest)
  | txid :: _, None :: _ => Err (EMsg ("transaction " +:+ txid +:+ " not found"))
  | _, _ => Ok []
  end.

(** Every input and block asked from the node when it is needed. *)
Definition direct_envelopes (signatures : list string) : result go_error (list txEnvelope) :=
  let! txids := canonical_ids 0 signatures in
  match GetRawTransactionsVerbose client txids with
  | Err err => Err (EWrap "batch fetch transactions" err)
  | Ok txs => direct_envelopes_of txids txs
  end.

Lemma envelope_agrees txid tx cache blocks : coherent (stored_prevout client) cache -> blocks_coherent blocks -> all_honest client (stored_prevout client) (tx_Vin tx) ->
  match tx_envelope client txid tx (cache, blocks) with
  | Ok (e, (cache', blocks')) => direct_envelope txid tx = Ok e /\ coherent (stored_prevout client) cache' /\ blocks_coherent blocks'
  | Err err => direct_envelope txid tx = Err err
  end.
Proof.
  intros Hc Hb Hh. unfold tx_envelope, direct_envelope. simpl.
  pose proof (block_agrees txid (canonicalTxID (tx_Blockhash tx)) blocks Hb) as H1.
  destruct (block_of _ _ _ _) as [[height blocks']|err]; simpl; [|by rewrite H1]. destruct H1 as [-> Hb']. simpl.
  pose proof (inputs_agree client (stored_prevout client) txid (tx_Vin tx) 0 no_inputs cache Hc Hh) as H2. unfold agrees in H2.
  destruct (resolve_inputs _ _ _ _ _ _) as [[ins cache']|err]; simpl; [|by rewrite H2]. destruct H2 as [-> Hc']. simpl.
  by destruct (read_outputs txid (tx_Vout tx)) as [[outs totalOut]|err].
Qed.

Lemma envelopes_agree txids txs : (forall tx, Some tx ∈ txs -> all_honest client (stored_prevout client) (tx_Vin tx)) ->
  forall cache blocks, coherent (stored_prevout client) cache -> blocks_coherent blocks ->
  tx_envelopes client txids txs (cache, blocks) = direct_envelopes_of txids txs.
Proof.
  intros Hh. revert txids. induction txs as [|[tx|] txs IH]; intros [|txid txids] cache blocks Hc Hb; simpl; try done.
  pose proof (envelope_agrees txid tx cache blocks Hc Hb ltac:(apply Hh; set_solver)) as He.
  destruct (tx_envelope _ _ _ _) as [[e [cache' blocks']]|err]; simpl; [|by rewrite He].
  destruct He as (-> & Hc' & Hb'). simpl. rewrite IH; [done|set_solver|done|done].
Qed.

Lemma delivered txids txs : GetRawTransactionsVerbose client txids = Ok txs ->
  forall tx, Some tx ∈ txs -> exists txid, GetRawTransactionVerbose client txid = Ok (Some tx).
Proof.
  intros Er%Hraw tx Htx. induction Er as [|i t ids txs Hi _ IH]; [set_solver|].
  apply elem_of_cons in Htx as [<-|Htx]; [by eexists|by apply IH].
Qed.

Lemma envelopes_direct signatures : envelopes client signatures = direct_envelopes signatures.
Proof.
  unfold envelopes, direct_envelopes. destruct (canonical_ids 0 signatures) as [txids|err] eqn:Ei; simpl; [|done].
  destruct (GetRawTransactionsVerbose client txids) as [txs|err] eqn:Er; [|done].
  apply envelopes_agree; [|apply prefetch_coherent; [by eapply delivered|apply coherent_empty]|apply prefetch_blocks_coherent].
  intros tx Htx. destruct (delivered _ _ Er tx Htx) as [txid Ht]. by eapply Hhonest.
Qed.

(** C26: the caches of outputs and blocks, and the batches that fill them ahead, change
    nothing: the envelopes of the transactions, and the error when there is one, are those
    of asking the node for each input and block when it is needed. *)
Theorem caches_transparent signatures : envelopes client signatures = direct_envelopes signatures.
Proof. apply envelopes_direct. Qed.

(** *** What an envelope accounts for *)

(** The inputs that are there, with their indices. *)
Fixpoint present (vinIndex : Z) (vins : list (option Vin)) : list (Z * Vin) :=
  match vins with
  | [] => []
  | Some vin :: vins' => (vinIndex, vin) :: present (vinIndex + 1) vins'
  | None :: vins' => present (vinIndex + 1) vins'
  end.

(** What each input spends: nothing for a coinbase, the output the node has otherwise. *)
Definition spends (tx : Transaction) (spent : list (option resolvedPrevout)) : Prop :=
  Forall2 (fun iv p => if is_coinbase iv.2 then p = None else direct_prevout (stored_prevout client) iv.2 = Ok p)
    (present 0 (tx_Vin tx)) spent.

Definition pays (tx : Transaction) (paid : list Z) : Prop :=
  Forall2 (fun vout v => parseBTCValueToSatoshi (vo_Value vout) = Ok v) (omap id (tx_Vout tx)) paid.

Definition spent_value (p : option resolvedPrevout) : Z := from_option rp_valueSat 0 p.

Definition input_entry (iv : Z * Vin) (p : option resolvedPrevout) : txEnvelopeIn := (input_of iv.1 iv.2 p).1.

Lemma wrap64_add_wrap x y : wrap64 (x + wrap64 y) = wrap64 (x + y).
Proof.
  unfold wrap64. f_equal. replace (x + ((y + 2 ^ 63) mod 2 ^ 64 - 2 ^ 63) + 2 ^ 63) with (x + (y + 2 ^ 63) mod 2 ^ 64) by lia.
  rewrite Zplus_mod_idemp_r. f_equal. lia.
Qed.

Lemma inputs_account txid vins : forall vinIndex acc ins, in_int64 (ri_total acc) ->
  direct_inputs (stored_prevout client) txid vinIndex vins acc = Ok ins ->
  exists spent, Forall2 (fun iv p => if is_coinbase iv.2 then p = None else direct_prevout (stored_prevout client) iv.2 = Ok p)
                  (present vinIndex vins) spent /\
    ri_vins ins = ri_vins acc ++ zip_with input_entry (present vinIndex vins) spent /\
    ri_total ins = wrap64 (ri_total acc + sum_of spent_value spent).
Proof.
  induction vins as [|[vin|] vins IH]; intros vinIndex acc ins Ha; simpl.
  - intros [= <-]. exists []. split; [constructor|]. simpl. rewrite app_nil_r, Z.add_0_r. by rewrite wrap64_id.
  - assert (forall p, (if is_coinbase vin then p = None else direct_prevout (stored_prevout client) vin = Ok p) ->
      (let '(i, value) := input_of vinIndex vin p in direct_inputs (stored_prevout client) txid (vinIndex + 1) vins (add_input acc i value)) = Ok ins ->
      exists spent, Forall2 (fun iv p => if is_coinbase iv.2 then p = None else direct_prevout (stored_prevout client) iv.2 = Ok p)
                      ((vinIndex, vin) :: present (vinIndex + 1) vins) spent /\
        ri_vins ins = ri_vins acc ++ zip_with input_entry ((vinIndex, vin) :: present (vinIndex + 1) vins) spent /\
        ri_total ins = wrap64 (ri_total acc + sum_of spent_value spent)) as Hnext.
    { intros p Hp. destruct (input_of vinIndex vin p) as [i value] eqn:Ei. intros Hd.
      apply IH in Hd as (spent & Hs & Hv & Ht); [|apply wrap64_range]. exists (p :: spent). split; [by constructor|].
      simpl. rewrite Hv, Ht. simpl. unfold input_entry at 2. simpl. rewrite Ei. split; [by rewrite <- app_assoc|].
      assert (value = spent_value p) as ->.
      { unfold input_of in Ei. destruct (is_coinbase vin); [subst p; by injection Ei as <- <-|].
        destruct p; by injection Ei as <- <-. }
      rewrite Z.add_comm, wrap64_add_wrap. f_equal. unfold sum_of. simpl. lia. }
    destruct (is_coinbase vin) eqn:Ec; [by apply Hnext|].
    destruct (direct_prevout (stored_prevout client) vin) as [p|err] eqn:Ed; [|done]. by apply Hnext.
  - intros Hd. apply IH in Hd; [done|done].
Qed.

Lemma outputs_account txid vouts outs total : read_outputs txid vouts = Ok (outs, total) ->
  exists paid, Forall2 (fun vout v => parseBTCValueToSatoshi (vo_Value vout) = Ok v) (omap id vouts) paid /\
    outs = zip_with (fun vout v => {| eo_Index := vo_N vout; eo_Address := firstOutputAddress (vo_ScriptPubKey vout);
                                      eo_ValueSat := show_Z v |}) (omap id vouts) paid /\
    total = wrap64 (sum_of id paid).
Proof.
  revert outs total. induction vouts as [|[vout|] vouts IH]; intros outs total; simpl.
  - intros [= <- <-]. by exists [].
  - destruct (parseBTCValueToSatoshi (vo_Value vout)) as [v|err] eqn:Ev; [|done].
    destruct (read_outputs txid vouts) as [[outs' total']|err]; [|done]. simpl. intros [= <- <-].
    destruct (IH _ _ eq_refl) as (paid & Hp & -> & ->). exists (v :: paid). split; [by constructor|]. split; [done|].
    by rewrite wrap64_add_wrap.
  - apply IH.
Qed.

Definition output_entry (vout : Vout) (v : Z) : txEnvelopeOut :=
  {| eo_Index := vo_N vout; eo_Address := firstOutputAddress (vo_ScriptPubKey vout); eo_ValueSat := show_Z v |}.

(** What the envelope says of a transaction. *)
Definition accounts (raw : string) (e : txEnvelope) : Prop :=
  exists tx spent paid,
    GetRawTransactionVerbose client (canonicalTxID raw) = Ok (Some tx) /\ spends tx spent /\ pays tx paid /\
    en_Vin e = zip_with input_entry (present 0 (tx_Vin tx)) spent /\
    en_Vout e ≡ₚ zip_with output_entry (omap id (tx_Vout tx)) paid /\
    let totalIn := sum_of spent_value spent in
    let totalOut := sum_of id paid in
    (in_int64 totalIn -> 0 <= totalOut <= max_int64 ->
     en_FeeSat e = show_Z (if (0 <? totalIn) && (totalOut <=? totalIn) then totalIn - totalOut else 0)).

Lemma envelope_accounts raw txid tx e : GetRawTransactionVerbose client (canonicalTxID raw) = Ok (Some tx) ->
  direct_envelope txid tx = Ok e -> accounts raw e.
Proof.
  intros Ht. unfold direct_envelope. destruct (direct_block _ _) as [height|err]; simpl; [|done].
  destruct (direct_inputs _ _ _ _ _) as [ins|err] eqn:Ei; simpl; [|done].
  destruct (read_outputs _ _) as [[outs totalOut]|err] eqn:Eo; simpl; [|done]. intros [= <-].
  apply inputs_account in Ei as (spent & Hs & Hv & Hin); [|unfold in_int64, min_int64, max_int64; simpl; lia].
  apply outputs_account in Eo as (paid & Hp & Hout & ->). exists tx, spent, paid. split; [done|]. split; [done|]. split; [done|].
  split; [done|]. split; [simpl; by rewrite stable_sort_perm, Hout|].
  cbv zeta. intros Hi Ho. simpl. f_equal. change (ri_total no_inputs) with 0 in Hin. rewrite Z.add_0_l, wrap64_id in Hin by done.
  unfold fee_of. rewrite Hin, (wrap64_id (sum_of id paid)) by (unfold in_int64, min_int64, max_int64 in *; lia).
  destruct (Z.ltb_spec 0 (sum_of spent_value spent)); [|done].
  destruct (Z.leb_spec (sum_of id paid) (sum_of spent_value spent)); [|done]. simpl.
  apply wrap64_id. unfold in_int64, min_int64, max_int64 in *. lia.
Qed.

(** Also: the envelope of a transaction lists every input with the output it spends, and
    every output, and its fee is what the inputs found exceed the outputs by, as long as the
    totals fit 64 bits. *)
Theorem envelopes_account signatures es : envelopes client signatures = Ok es -> Forall2 accounts signatures es.
Proof.
  rewrite envelopes_direct. unfold direct_envelopes. destruct (canonical_ids 0 signatures) as [txids|err] eqn:Ei; simpl; [|done].
  destruct (GetRawTransactionsVerbose client txids) as [txs|err] eqn:Er; [|done]. apply Hraw in Er.
  revert Ei. generalize 0 as i. intros i Hcan. revert i signatures Hcan es.
  induction Er as [|txid tx txids txs Htx _ IH]; intros i signatures Hcan es; simpl.
  - intros [= <-]. destruct signatures as [|raw sigs]; [constructor|]. simpl in Hcan.
    destruct (str_empty _); [done|]. by destruct (canonical_ids (i + 1) sigs).
  - destruct signatures as [|raw sigs]; [done|]. simpl in Hcan. destruct (str_empty _); [done|].
    destruct (canonical_ids (i + 1) sigs) as [ids|err] eqn:Es; simpl in Hcan; [|done]. injection Hcan as <- <-.
    destruct tx as [tx|]; [|done]. destruct (direct_envelope _ tx) as [e|err] eqn:Ee; simpl; [|done].
    destruct (direct_envelopes_of ids txs) as [rest|err] eqn:Ed; simpl; [|done]. intros [= <-].
    constructor; [by eapply envelope_accounts|by eapply IH].
Qed.
End Ahead.

(** ** Scanning a range *)

Section Scan.
Context (client : RPCClient) (addrSet : gset string).

Definition watched_in (address : string) : bool := bool_decide (address ∈ addrSet).

(** *** What touches a watched address *)

(** One of the addresses of an output is watched. *)
Definition output_pays (script : ScriptPubKey) : Prop :=
  exists address, address ∈ sp_Address script :: sp_Addresses script /\ trim_space address ∈ addrSet.

(** The first address an output names. *)
Definition first_named (script : ScriptPubKey) (address : string) : Prop :=
  exists l1 a l2, sp_Address script :: sp_Addresses script = l1 ++ a :: l2 /\
    (forall b, b ∈ l1 -> trim_space b = EmptyString) /\ trim_space a = address /\ address <> EmptyString.

(** The output an input spends: given inline, or the first with its index in the transaction
    the node has. *)
Inductive spent_script (vin : Vin) : ScriptPubKey -> Prop :=
| spent_inline p : vi_Prevout vin = Some p -> spent_script vin (pv_ScriptPubKey p)
| spent_asked prev v l1 l2 : vi_Prevout vin = None ->
    GetRawTransactionVerbose client (canonicalTxID (vi_Txid vin)) = Ok (Some prev) ->
    tx_Vout prev = l1 ++ Some v :: l2 -> vo_N v = vi_Vout vin ->
    (forall w, Some w ∈ l1 -> vo_N w <> vi_Vout vin) -> spent_script vin (vo_ScriptPubKey v).

(** An input that is not a coinbase and names an outpoint, whose output names a watched
    address first. *)
Definition input_spends (vin : Vin) : Prop :=
  trim_space (vi_Coinbase vin) = EmptyString /\ canonicalTxID (vi_Txid vin) <> EmptyString /\ 0 <= vi_Vout vin /\
  exists script address, spent_script vin script /\ first_named script address /\ address ∈ addrSet.

Definition touches_watched (tx : Transaction) : Prop :=
  (exists vout, Some vout ∈ tx_Vout tx /\ output_pays (vo_ScriptPubKey vout)) \/
  (exists vin, Some vin ∈ tx_Vin tx /\ input_spends vin).

Context (Hempty : EmptyString ∉ addrSet).

Lemma distinct_spec x l : forall seen, x ∈ distinct seen l <-> x ∈ l /\ x <> EmptyString /\ x ∉ seen.
Proof.
  induction l as [|y l IH]; intros seen; simpl; [set_solver|].
  destruct (str_empty y) eqn:Ey; simpl.
  - apply str_empty_spec in Ey as ->. rewrite IH. set_solver.
  - apply str_empty_false in Ey. destruct (bool_decide_reflect (y ∈ seen)) as [Hin|Hout]; rewrite ?elem_of_cons, IH; [set_solver|].
    destruct (decide (x = y)); set_solver.
Qed.

Lemma output_pays_spec v : output_touches watched_in (Some v) = true <-> output_pays (vo_ScriptPubKey v).
Proof.
  unfold output_touches, output_pays, allOutputAddresses, watched_in. rewrite existsb_exists. split.
  - intros (x & Hx & Hw%bool_decide_eq_true). apply list_elem_of_In, distinct_spec in Hx as ((address & -> & Ha)%list_elem_of_fmap & _).
    exists address. split; [done|]. unfold normalizeAddressIdentity in Hw. by rewrite trim_space_idem in Hw.
  - intros (address & Ha & Hw). exists (trim_space address). split.
    + apply list_elem_of_In, distinct_spec. split; [by apply (list_elem_of_fmap_2 normalizeAddressIdentity)|].
      split; [intros E; by rewrite E in Hw|set_solver].
    + apply bool_decide_eq_true. unfold normalizeAddressIdentity. by rewrite trim_space_idem.
Qed.

Lemma head_distinct l : match head (distinct ∅ l) with
  | Some x => exists l1 l2, l = l1 ++ x :: l2 /\ (forall y, y ∈ l1 -> y = EmptyString) /\ x <> EmptyString
  | None => forall y, y ∈ l -> y = EmptyString
  end.
Proof.
  induction l as [|y l IH]; simpl; [set_solver|]. rewrite orb_comm. rewrite bool_decide_eq_false_2 by set_solver. simpl.
  destruct (str_empty y) eqn:Ey; simpl.
  - apply str_empty_spec in Ey as ->. destruct (head (distinct ∅ l)) as [x|].
    + destruct IH as (l1 & l2 & -> & H1 & H2). exists (EmptyString :: l1), l2. split; [done|]. split; [set_solver|done].
    + set_solver.
  - apply str_empty_false in Ey. exists [], l. set_solver.
Qed.

Lemma first_named_spec script : normalizeAddressIdentity (firstOutputAddress script) ∈ addrSet <->
  exists address, first_named script address /\ address ∈ addrSet.
Proof.
  unfold firstOutputAddress, allOutputAddresses, normalizeAddressIdentity, first_named.
  set (l := sp_Address script :: sp_Addresses script). pose proof (head_distinct (trim_space <$> l)) as H.
  destruct (head _) as [x|]; cbn [default from_option].
  - destruct H as (l1 & l2 & Hl & H1 & H2). apply fmap_app_inv in Hl as (k1 & k2 & -> & Hk2 & ->).
    destruct k2 as [|a k2']; [done|]. injection Hk2 as -> ->. unfold id. rewrite trim_space_idem. split.
    + intros Hx. exists (trim_space a). split; [|done]. exists k1, a, k2'. split; [done|]. split; [|done].
      intros b Hb. apply H1. by apply list_elem_of_fmap_2.
    + intros (address & (m1 & b & m2 & Hm & Hm1 & <- & Hb) & Hw).
      assert (a = b) as <-; [|done].
      revert m1 Hm Hm1. clear -H1 H2 Hb. induction k1 as [|c k1 IH]; intros [|d m1] Hm Hm1; simpl in Hm.
      * by injection Hm as <-.
      * injection Hm as -> _. by rewrite (Hm1 d) in H2 by by left.
      * injection Hm as -> _. by rewrite (H1 (trim_space b)) in Hb by by left.
      * injection Hm as -> Hm. eapply IH; [intros y Hy; apply H1; by right|exact Hm|]. intros y Hy. apply Hm1. by right.
  - split; [done|]. intros (address & (m1 & b & m2 & -> & _ & <- & Hb) & _). exfalso. apply Hb, H.
    apply list_elem_of_fmap_2. set_solver.
Qed.

Lemma find_vout_spec n l : match find_vout n l with
  | Some v => exists l1 l2, l = l1 ++ Some v :: l2 /\ vo_N v = n /\ forall w, Some w ∈ l1 -> vo_N w <> n
  | None => forall w, Some w ∈ l -> vo_N w <> n
  end.
Proof.
  induction l as [|[v|] l IH]; simpl; [set_solver| |].
  - destruct (Z.eqb_spec (vo_N v) n); [exists [], l; set_solver|]. destruct (find_vout n l).
    + destruct IH as (l1 & l2 & -> & H1 & H2). exists (Some v :: l1), l2. split; [done|]. split; [done|].
      intros w [[= ->]|Hw]%elem_of_cons; [done|by apply H2].
    + intros w [[= ->]|Hw]%elem_of_cons; [done|by apply IH].
  - destruct (find_vout n l).
    + destruct IH as (l1 & l2 & -> & H1 & H2). exists (None :: l1), l2. split; [done|]. split; [done|].
      intros w [|Hw]%elem_of_cons; [done|by apply H2].
    + intros w [|Hw]%elem_of_cons; [done|by apply IH].
Qed.

Lemma lookup_script vin p : lookup_prevout client (canonicalTxID (vi_Txid vin)) vin = Ok p ->
  if rp_found p then (exists script, spent_script vin script /\ rp_address p = firstOutputAddress script) /\
                     (forall script, spent_script vin script -> rp_address p = firstOutputAddress script)
  else forall script, ~ spent_script vin script.
Proof.
  unfold lookup_prevout. destruct (vi_Prevout vin) as [pv|] eqn:Ep.
  { intros [= <-]. simpl. split; [exists (pv_ScriptPubKey pv); split; [by apply spent_inline|done]|].
    intros script Hs. destruct Hs as [p Hp|]; congruence. }
  destruct (GetRawTransactionVerbose client _) as [[prev|]|err] eqn:Er; simpl; [|intros [= <-]|done].
  2: { intros script Hs. destruct Hs; congruence. }
  intros [= <-]. pose proof (find_vout_spec (vi_Vout vin) (tx_Vout prev)) as Hf. destruct (find_vout _ _) as [v|]; simpl.
  - destruct Hf as (l1 & l2 & Hl & Hn & H1). split.
    + exists (vo_ScriptPubKey v). split; [by eapply spent_asked|done].
    + intros script Hs. destruct Hs as [p Hp|prev' w m1 m2 _ Hr Hm Hwn H2]; [congruence|].
      rewrite Er in Hr. injection Hr as <-. rewrite Hl in Hm. assert (v = w) as <-; [|done]. clear -Hm Hn Hwn H1 H2.
      revert m1 Hm H2. induction l1 as [|c l1 IH]; intros [|d m1] Hm H2; simpl in Hm.
      * by injection Hm as <-.
      * injection Hm as <- _. exfalso. by apply (H2 v); [left|].
      * injection Hm as -> _. exfalso. by apply (H1 w); [left|].
      * injection Hm as -> Hm. eapply IH; [intros y Hy; apply H1; by right|exact Hm|]. intros y Hy. apply H2. by right.
  - intros script Hs. destruct Hs as [p Hp|prev' w m1 m2 _ Hr Hm Hwn H2]; [congruence|].
    rewrite Er in Hr. injection Hr as <-. apply (Hf w); [|done]. rewrite Hm. set_solver.
Qed.

(** What there is at the outpoints, as far as the node tells: what it tells of one outpoint,
    inline or as an output of a transaction, is the same wherever it is spent. *)
Context (outputs : string -> Z -> result go_error resolvedPrevout).

Lemma direct_touch_spec vins b : all_honest client outputs vins -> direct_touch outputs watched_in vins = Ok b ->
  b = true <-> exists vin, Some vin ∈ vins /\ input_spends vin.
Proof.
  assert (forall vin vins, (b = true <-> exists v, Some v ∈ vins /\ input_spends v) -> ~ input_spends vin ->
    b = true <-> exists v, Some v ∈ Some vin :: vins /\ input_spends v) as Hskip.
  { intros vin l IH Hn. rewrite IH. setoid_rewrite elem_of_cons. naive_solver. }
  induction vins as [|[vin|] vins IH]; intros Hh; cbn [direct_touch].
  - intros [= <-]. split; [done|]. intros (? & ?%elem_of_nil & _). done.
  - assert (honest client outputs vin) as Hv by (apply Hh; by left).
    assert (all_honest client outputs vins) as Hh' by (intros v Hin; apply Hh; by right).
    unfold is_coinbase. destruct (str_empty (trim_space (vi_Coinbase vin))) eqn:Ec; cbn [negb].
    2: { apply str_empty_false in Ec. intros Hd. apply Hskip; [by apply IH|]. by intros [? _]. }
    unfold direct_prevout. destruct (str_empty (canonicalTxID (vi_Txid vin))) eqn:Et; cbn [orb].
    { apply str_empty_spec in Et. simpl. intros Hd. apply Hskip; [by apply IH|]. by intros (_ & ? & _). }
    destruct (Z.ltb_spec (vi_Vout vin) 0) as [Hneg|Hpos].
    { simpl. intros Hd. apply Hskip; [by apply IH|]. intros (_ & _ & ? & _). lia. }
    rewrite <- Hv. destruct (lookup_prevout client _ vin) as [p|err] eqn:El; simpl; [|done].
    pose proof (lookup_script vin p El) as Hs. unfold found_only. destruct (rp_found p).
    + destruct Hs as [(script & Hss & Ha) Hall].
      destruct (watched_in (normalizeAddressIdentity (rp_address p))) eqn:Ew; unfold watched_in in Ew.
      * intros [= <-]. apply bool_decide_eq_true in Ew. rewrite Ha in Ew. apply first_named_spec in Ew as (address & Hf & Hw).
        split; [intros _|done]. exists vin. split; [by left|]. apply str_empty_spec in Ec. apply str_empty_false in Et.
        split; [done|]. split; [done|]. split; [done|]. by exists script, address.
      * intros Hd. apply Hskip; [by apply IH|]. apply bool_decide_eq_false in Ew.
        intros (_ & _ & _ & script' & address & Hs' & Hf & Hw). apply Ew. rewrite (Hall script' Hs'). apply first_named_spec. by exists address.
    + intros Hd. apply Hskip; [by apply IH|]. intros (_ & _ & _ & script & address & Hss & _). by apply (Hs script).
  - intros Hd. rewrite IH; [|intros v Hv; apply Hh; by right|done]. setoid_rewrite elem_of_cons. naive_solver.
Qed.

Lemma direct_touches_spec tx b : all_honest client outputs (tx_Vin tx) -> direct_touches outputs watched_in tx = Ok b ->
  b = true <-> touches_watched tx.
Proof.
  intros Hh. unfold direct_touches, touches_watched.
  assert (existsb (output_touches watched_in) (tx_Vout tx) = true <->
    exists vout, Some vout ∈ tx_Vout tx /\ output_pays (vo_ScriptPubKey vout)) as Hout.
  { rewrite existsb_exists. split.
    - intros ([v|] & Hv%list_elem_of_In & Ht); [|done]. exists v. split; [done|]. by apply output_pays_spec.
    - intros (v & Hv & Hp). exists (Some v). split; [by apply list_elem_of_In|by apply output_pays_spec]. }
  destruct (existsb _ _).
  - intros [= <-]. split; [|done]. intros _. left. by apply Hout.
  - intros Hd. rewrite (direct_touch_spec _ b Hh Hd). split; [by right|]. intros [Ho|?]; [|done]. by apply Hout in Ho.
Qed.

(** The verbosity an adapter asks blocks with once it knows. *)
Definition used_verbosity (a : Adapter) : Z :=
  if ad_verbosity3Supported a =? -1 then blockVerbosityTxObjects else blockVerbosityPrevout.

Definition settled (a : Adapter) : Prop := ad_verbosity3Supported a = 1 \/ ad_verbosity3Supported a = -1.

Lemma verbosity_settles a blockHash block a' : getBlockWithVerbosity client a blockHash = (Ok block, a') ->
  GetBlock client blockHash (used_verbosity a') = Ok block /\ settled a' /\
  (settled a -> ad_verbosity3Supported a' = ad_verbosity3Supported a).
Proof.
  unfold getBlockWithVerbosity, used_verbosity, settled. destruct (Z.eqb_spec (ad_verbosity3Supported a) (-1)) as [He|Hne]; simpl.
  - intros [= Hb <-]. rewrite He. simpl. eauto.
  - destruct (GetBlock client blockHash blockVerbosityPrevout) as [b|err] eqn:Eb.
    + intros [= <- <-]. simpl. rewrite Eb. intuition lia.
    + destruct (Z.eqb_spec (ad_verbosity3Supported a) 1) as [|H1]; [done|]. intros [= Hb <-]. simpl. intuition lia.
Qed.

(** The candidates are exactly the transactions of [P] (by hash and height), one each. *)
Record kept (P : string -> Z -> Prop) (m : gmap string candidateSignature) : Prop := {
  kp_sound : forall h c, m !! h = Some c -> cs_hash c = h /\ P h (cs_blockNum c);
  kp_complete : forall h n, P h n -> is_Some (m !! h)
}.

Lemma kept_iff P Q m : (forall h n, P h n <-> Q h n) -> kept P m -> kept Q m.
Proof.
  intros He [H1 H2]. split.
  - intros h c Hc. rewrite <- He. by apply H1.
  - intros h n. rewrite <- He. apply H2.
Qed.

#[local] Instance kept_proper : Proper (pointwise_relation string (pointwise_relation Z iff) ==> (=) ==> iff) kept.
Proof. intros P Q HPQ m _ <-. split; apply kept_iff; intros h n; [apply HPQ|symmetry; apply HPQ]. Qed.

Lemma kept_put P m c : kept P m -> kept (fun h n => P h n \/ (h = cs_hash c /\ n = cs_blockNum c)) (put_first m c).
Proof.
  intros [H1 H2]. unfold put_first. destruct (m !! cs_hash c) as [e|] eqn:Ee.
  - split; [naive_solver|]. intros h n [Hp|[-> _]]; [by eapply H2|by exists e].
  - split.
    + intros h d. destruct (decide (cs_hash c = h)) as [<-|Hne].
      * rewrite lookup_insert_eq. intros [= <-]. by eauto.
      * rewrite lookup_insert_ne by done. intros Hd. destruct (H1 _ _ Hd). by eauto.
    + intros h n. destruct (decide (cs_hash c = h)) as [<-|Hne]; [by rewrite lookup_insert_eq|].
      rewrite lookup_insert_ne by done. intros [Hp|[-> _]]; [by eapply H2|done].
Qed.

(** The transactions of a list that touch a watched address. *)
Definition touched_in (txs : list (option Transaction)) (height : Z) (h : string) (n : Z) : Prop :=
  n = height /\ exists tx, Some tx ∈ txs /\ canonicalTxID (tx_Txid tx) = h /\ h <> "" /\
    touches_watched tx.

Definition txs_honest (txs : list (option Transaction)) : Prop :=
  forall tx, Some tx ∈ txs -> all_honest client outputs (tx_Vin tx).

Abbreviation sc := (block_scanner client addrSet).

Lemma touched_cons tx txs height h n :
  touched_in (tx :: txs) height h n <->
  (n = height /\ exists t, tx = Some t /\ canonicalTxID (tx_Txid t) = h /\ h <> "" /\ touches_watched t) \/
  touched_in txs height h n.
Proof.
  unfold touched_in. setoid_rewrite elem_of_cons. split.
  - intros (Hn & t & [Ht|Hin] & Hrest); [left; by eauto|right; by eauto].
  - intros [(Hn & t & Ht & Hrest)|(Hn & t & Hin & Hrest)]; (split; [done|]); exists t; by eauto.
Qed.

(** One transaction. *)
Lemma scan_tx_kept height blockTime txIndex tx P st st' : all_honest client outputs (tx_Vin tx) -> coherent outputs st.1 -> kept P st.2 ->
  scan_tx sc height blockTime txIndex tx st = Ok st' ->
  coherent outputs st'.1 /\ kept (fun h n => P h n \/ (n = height /\ canonicalTxID (tx_Txid tx) = h /\ h <> "" /\
                                               touches_watched tx)) st'.2.
Proof.
  intros Hh Hc Hk. unfold scan_tx. set (txid := canonicalTxID (tx_Txid tx)). destruct (str_empty txid) eqn:Ee.
  { apply String.eqb_eq in Ee. intros [= <-]. split; [done|]. eapply kept_iff; [|done]. naive_solver. }
  simpl. apply String.eqb_neq in Ee. pose proof (touches_agrees client outputs watched_in tx st.1 Hc Hh) as Ht.
  unfold watched_in at 1 in Ht. unfold agrees in Ht. destruct (tx_touches _ _ _ _) as [[touches cache]|err]; simpl; [|done].
  destruct Ht as [Ht Hc']. intros [= <-]. split; [done|]. apply (direct_touches_spec tx touches Hh) in Ht. destruct touches; simpl.
  - eapply kept_iff; [|by apply kept_put]. simpl. naive_solver.
  - eapply kept_iff; [|done]. intros h n. split; [by left|]. intros [?|(_ & _ & _ & Hw)]; [done|]. by apply Ht in Hw.
Qed.

Lemma scan_txs_kept height blockTime txs : txs_honest txs -> forall txIndex P st st',
  coherent outputs st.1 -> kept P st.2 -> scan_txs sc height blockTime txIndex txs st = Ok st' ->
  coherent outputs st'.1 /\ kept (fun h n => P h n \/ touched_in txs height h n) st'.2.
Proof.
  induction txs as [|tx txs IH]; intros Hh txIndex P st st' Hc Hk; simpl.
  { intros [= <-]. split; [done|]. eapply kept_iff; [|done]. intros h n. unfold touched_in. set_solver. }
  assert (txs_honest txs) as Hh' by (intros t Ht; apply Hh; set_solver).
  setoid_rewrite touched_cons. destruct tx as [tx|].
  - destruct (scan_tx sc height blockTime txIndex tx st) as [st1|err] eqn:E1; [|done]. simpl. intros Hs.
    apply (scan_tx_kept _ _ _ _ P) in E1 as [Hc1 Hk1]; [|apply Hh; set_solver|done|done].
    apply (IH Hh' _ _ _ _ Hc1 Hk1) in Hs as [Hc2 Hk2]. split; [done|]. eapply kept_iff; [|done]. naive_solver.
  - intros Hs. apply (IH Hh' _ _ _ _ Hc Hk) in Hs as [Hc2 Hk2]. split; [done|]. eapply kept_iff; [|done]. naive_solver.
Qed.

Context (Hhonest : forall blockHash verbosity block,
  GetBlock client blockHash verbosity = Ok (Some block) -> txs_honest (bk_Tx block)).

(** The transactions of the blocks of a list of heights and hashes. *)
Definition touched_blocks (verbosity : Z) (numbered : list (Z * string)) (h : string) (n : Z) : Prop :=
  exists blockNum blockHash block, (blockNum, blockHash) ∈ numbered /\
    GetBlock client blockHash verbosity = Ok (Some block) /\ touched_in (bk_Tx block) (block_height blockNum block) h n.

Lemma touched_blocks_cons verbosity blockNum blockHash numbered h n :
  touched_blocks verbosity ((blockNum, blockHash) :: numbered) h n <->
  (exists block, GetBlock client blockHash verbosity = Ok (Some block) /\
                 touched_in (bk_Tx block) (block_height blockNum block) h n) \/
  touched_blocks verbosity numbered h n.
Proof.
  unfold touched_blocks. setoid_rewrite elem_of_cons. split.
  - intros (k & hash & block & [[= -> ->]|Hin] & Hb & Ht); [left; by eauto|right; by eauto 10].
  - intros [(block & Hb & Ht)|(k & hash & block & Hin & Hb & Ht)]; by eauto 10.
Qed.

Lemma scan_blocks_kept numbered : forall a P st st' a', coherent outputs st.1 -> kept P st.2 ->
  scan_blocks client sc numbered a st = (Ok st', a') ->
  (settled a -> ad_verbosity3Supported a' = ad_verbosity3Supported a) /\
  kept (fun h n => P h n \/ touched_blocks (used_verbosity a') numbered h n) st'.2.
Proof.
  induction numbered as [|[blockNum blockHash] numbered IH]; intros a P st st' a' Hc Hk; simpl.
  { intros [= <- <-]. split; [done|]. eapply kept_iff; [|done]. unfold touched_blocks. set_solver. }
  destruct (getBlockWithVerbosity client a blockHash) as [[block|err] a1] eqn:Eb; [|done].
  apply verbosity_settles in Eb as (Hb & Hs1 & Hv1).
  destruct (scan_block sc blockNum block st) as [st1|err] eqn:E1; [|done]. intros Hs.
  assert (coherent outputs st1.1 /\ kept (fun h n => P h n \/ exists b, block = Some b /\
            touched_in (bk_Tx b) (block_height blockNum b) h n) st1.2) as [Hc1 Hk1].
  { destruct block as [b|]; simpl in E1.
    - apply (scan_txs_kept _ _ _ (Hhonest _ _ _ Hb) _ P) in E1 as [Hc1 Hk1]; [|done|done]. split; [done|].
      eapply kept_iff; [|done]. naive_solver.
    - injection E1 as <-. split; [done|]. eapply kept_iff; [|done]. naive_solver. }
  apply (IH _ _ _ _ _ Hc1 Hk1) in Hs as [Hv2 Hk2]. specialize (Hv2 Hs1). split; [intros Hs; by rewrite Hv2, Hv1|].
  setoid_rewrite touched_blocks_cons. assert (used_verbosity a' = used_verbosity a1) as Hu by (unfold used_verbosity; by rewrite Hv2).
  rewrite Hu in *. eapply kept_iff; [|done]. intros h n. rewrite Hb. naive_solver.
Qed.
End Scan.

#[export] Instance candidate_order_total : TotalCompare candidate_order.
Proof. unfold candidate_order. apply _. Qed.

Lemma ordered_kept P m : kept P m ->
  let sigs := signature_of <$> ordered_candidates m in
  StronglySorted (fun x y => sg_Sequence x <= sg_Sequence y) sigs /\ NoDup (sg_Hash <$> sigs) /\
  (forall sig, sig ∈ sigs -> P (sg_Hash sig) (sg_Sequence sig)) /\ (forall h n, P h n -> h ∈ sg_Hash <$> sigs).
Proof.
  intros [Hs Hc] sigs.
  assert (forall c, c ∈ ordered_candidates m <-> exists h, m !! h = Some c) as Helem.
  { intros c. unfold ordered_candidates. rewrite stable_sort_perm, list_elem_of_fmap. split.
    - intros ([h c'] & -> & Hm). exists h. by apply elem_of_map_to_list in Hm.
    - intros [h Hm]. exists (h, c). by rewrite elem_of_map_to_list. }
  split; [|split; [|split]].
  - apply StronglySorted_fmap. unfold ordered_candidates. pose proof (stable_sort_sorted candidate_order (map_to_list m).*2) as Hsort.
    induction Hsort as [|x q Hq IH Hx]; constructor; [done|]. rewrite Forall_forall in Hx |- *. intros y Hy.
    specialize (Hx y Hy). unfold cmp_le, candidate_order, lex, on in Hx. simpl.
    destruct (Z.compare_spec (cs_blockNum x) (cs_blockNum y)); [lia|lia|done].
  - unfold sigs. rewrite <- list_fmap_compose. unfold ordered_candidates. rewrite stable_sort_perm.
    rewrite <- list_fmap_compose. erewrite (list_fmap_ext _ fst); [apply NoDup_fst_map_to_list|].
    intros i [h c] Hi%list_elem_of_lookup_2%elem_of_map_to_list. by apply (Hs h c Hi).
  - intros sig (c & -> & [h Hm]%Helem)%list_elem_of_fmap. destruct (Hs _ _ Hm) as [<- Hp]. done.
  - intros h n Hp. destruct (Hc _ _ Hp) as [c Hm]. destruct (Hs _ _ Hm) as [<- _].
    change (cs_hash c) with (sg_Hash (signature_of c)). apply list_elem_of_fmap_2, list_elem_of_fmap_2, Helem. by exists (cs_hash c).
Qed.

Section ScanBlocks.
Context (client : RPCClient).
Context (Hhashes : forall heights hashes, GetBlockHashes client heights = Ok hashes ->
  Forall2 (fun n h => rpc_GetBlockHash client n = Ok h) heights hashes).

(** What the node tells of an outpoint that inputs of its blocks spend, inline or by the
    transaction it belongs to, does not depend on the input. *)
Context (outputs : string -> Z -> result go_error resolvedPrevout).
Context (Hhonest : forall blockHash verbosity block,
  GetBlock client blockHash verbosity = Ok (Some block) -> txs_honest client outputs (bk_Tx block)).

(** The transaction [h] of a block of the range, at the height [n], touches a watched address. *)
Definition touching (addrSet : gset string) (verbosity startBlock endBlock : Z) (h : string) (n : Z) : Prop :=
  exists blockNum blockHash block, startBlock <= blockNum <= endBlock /\ rpc_GetBlockHash client blockNum = Ok blockHash /\
    GetBlock client blockHash verbosity = Ok (Some block) /\
    touched_in client addrSet (bk_Tx block) (block_height blockNum block) h n.

Lemma watched_nonempty watched : EmptyString ∉ watched_addresses watched.
Proof. unfold watched_addresses. rewrite elem_of_list_to_set, list_elem_of_filter. by intros [? _]. Qed.

Lemma zip_heights heights hashes n h : Forall2 (fun n h => rpc_GetBlockHash client n = Ok h) heights hashes ->
  (n, h) ∈ zip heights hashes <-> n ∈ heights /\ rpc_GetBlockHash client n = Ok h.
Proof.
  induction 1 as [|k hash heights hashes Hk _ IH]; simpl; [set_solver|]. rewrite !elem_of_cons, IH. split.
  - intros [[= -> ->]|[? ?]]; [by eauto|by eauto].
  - intros [[->|Hin] Hn]; [left; congruence|by eauto].
Qed.

Lemma btc_block_range_elem n from to_ : n ∈ block_range from to_ <-> from <= n <= to_.
Proof.
  unfold block_range. rewrite list_elem_of_fmap. split.
  - intros (i & -> & Hi%elem_of_seq). lia.
  - intros Hn. exists (Z.to_nat (n - from)). split; [lia|]. apply elem_of_seq. lia.
Qed.

(** C22: a block scan that succeeds returns exactly the transactions of its range that touch a
    watched address, each once and in the order of the blocks.  A transaction touches one
    when any of the addresses of one of its outputs is watched, or when an input, not a
    coinbase, spends an output whose first address is watched: the one given inline or,
    without it, the one of the spent transaction, asked from the node.  An input whose spent
    transaction or output the node does not have counts as touching nothing, so that a node
    without inline outputs must be able to answer every spent transaction (an index of all
    transactions) for the scan to see every spending.  The hashes of several heights are
    those of each, and what the node tells of an outpoint is the same for every input. *)
Theorem btc_scan_exact a startBlock endBlock watched sigs a' : startBlock <= endBlock -> watched <> [] ->
  ScanBlocks client startBlock endBlock watched a = (Ok sigs, a') ->
  let touching := touching (watched_addresses watched) (used_verbosity a') startBlock endBlock in
  StronglySorted (fun x y => sg_Sequence x <= sg_Sequence y) sigs /\ NoDup (sg_Hash <$> sigs) /\
  (forall sig, sig ∈ sigs -> touching (sg_Hash sig) (sg_Sequence sig)) /\ (forall h n, touching h n -> h ∈ sg_Hash <$> sigs).
Proof.
  intros Hr Hw. unfold ScanBlocks. rewrite (proj2 (Z.ltb_ge _ _)) by lia. destruct watched as [|w ws]; [done|].
  cbn [orb length Nat.eqb]. unfold scan_range. destruct (GetBlockHashes client _) as [hashes|err] eqn:Eh; [|done].
  apply Hhashes in Eh. destruct (scan_blocks _ _ _ _ _) as [[st|err] a1] eqn:Es; [|done]. simpl. intros [= <- <-].
  apply (scan_blocks_kept client _ (watched_nonempty _) outputs Hhonest _ _ (fun _ _ => False)) in Es as [_ Hk];
    [|apply coherent_empty|split; [intros h c; simpl; by rewrite lookup_empty|done]].
  apply ordered_kept. eapply kept_iff; [|exact Hk]. intros h n. unfold touching, touched_blocks.
  setoid_rewrite zip_heights; [|exact Eh]. setoid_rewrite btc_block_range_elem. naive_solver.
Qed.
End ScanBlocks.

(** ** Amounts *)

Lemma span_digits_app d r : all_chars is_digit d = true -> span_digits r = (EmptyString, r) -> span_digits (d +:+ r) = (d, r).
Proof.
  intros Hd Hr. induction d as [|c d IH]; [exact Hr|]. simpl in *. apply andb_true_iff in Hd as [-> Hd]. by rewrite IH.
Qed.

Lemma digits_val_app s t : forall acc a, digits_val acc s = Some a -> digits_val acc (s +:+ t) = digits_val a t.
Proof.
  induction s as [|c s IH]; intros acc a; simpl; [by intros [= ->]|]. destruct (is_digit c); [|done]. apply IH.
Qed.

Lemma uint_digits u : all_chars is_digit (NilEmpty.string_of_uint u) = true.
Proof. by induction u. Qed.

Lemma abs_digits z : all_chars is_digit (show_abs z) = true /\ digits_val 0 (show_abs z) = Some (Z.abs z) /\ str_empty (show_abs z) = false.
Proof.
  unfold show_abs. set (u := N.to_uint (Z.abs_N z)).
  assert (all_chars is_digit (NilZero.string_of_uint u) = true) as Hd by (destruct u; try done; apply uint_digits).
  pose proof (parse_unsigned_show u) as Hp. unfold u in Hp at 2. change (Pos.of_uint (N.to_uint (Z.abs_N z))) with (N.of_uint (N.to_uint (Z.abs_N z))) in Hp.
  rewrite DecimalN.Unsigned.of_to, N2Z.inj_abs_N in Hp. split; [done|]. unfold parse_unsigned in Hp.
  by destruct (NilZero.string_of_uint u).
Qed.

(** [k] digits of [n]. *)
Fixpoint fixed_digits (k : nat) (n : Z) : string :=
  match k with
  | O => EmptyString
  | S k' => fixed_digits k' (n / 10) +:+ String (chr (48 + n mod 10)) EmptyString
  end.

Lemma digit_chr d : 0 <= d < 10 -> is_digit (chr (48 + d)) = true /\ digit_val (chr (48 + d)) = d.
Proof.
  intros H. assert (d = 0 \/ d = 1 \/ d = 2 \/ d = 3 \/ d = 4 \/ d = 5 \/ d = 6 \/ d = 7 \/ d = 8 \/ d = 9) as Hd by lia.
  by intuition subst.
Qed.

Lemma all_chars_app p s t : all_chars p (s +:+ t) = all_chars p s && all_chars p t.
Proof. induction s as [|c s IH]; simpl; [done|]. by rewrite IH, andb_assoc. Qed.

Lemma fixed_digits_spec k : forall n, 0 <= n ->
  all_chars is_digit (fixed_digits k n) = true /\ String.length (fixed_digits k n) = k /\
  forall acc, digits_val acc (fixed_digits k n) = Some (acc * 10 ^ Z.of_nat k + n mod 10 ^ Z.of_nat k).
Proof.
  induction k as [|k IH]; intros n Hn; cbn [fixed_digits].
  { split; [done|]. split; [done|]. intros acc. simpl. f_equal. rewrite Z.mod_1_r. lia. }
  destruct (IH (n / 10)) as (H1 & H2 & H3); [by apply Z.div_pos|].
  destruct (digit_chr (n mod 10)) as [Hd Hv]; [by apply Z.mod_pos_bound|].
  split; [|split].
  - rewrite all_chars_app, H1. cbn [all_chars]. by rewrite Hd.
  - rewrite length_append_string, H2. simpl. lia.
  - intros acc. rewrite (digits_val_app _ _ _ _ (H3 acc)). cbn [digits_val]. rewrite Hd, Hv. f_equal.
    replace (Z.of_nat (S k)) with (Z.succ (Z.of_nat k)) by lia. rewrite (Z.pow_succ_r 10 (Z.of_nat k)) by lia.
    rewrite (Z.rem_mul_r n 10 (10 ^ Z.of_nat k)) by (try apply Z.pow_nonzero; try apply Z.pow_pos_nonneg; lia). lia.
Qed.

(** An amount as a node prints it: bitcoins with eight decimals. *)
Definition btc_text (sats : Z) : string :=
  (if sats <? 0 then "-" else "") +:+ show_abs (Z.abs sats / satoshiPerBTC) +:+ "." +:+
  fixed_digits 8 (Z.abs sats mod satoshiPerBTC).

Lemma digits_not_space s : all_chars is_digit s = true -> no_space s = true.
Proof.
  unfold no_space. induction s as [|c s IH]; simpl; [done|]. intros [Hc Hs]%andb_true_iff. rewrite IH by done.
  rewrite andb_true_r. unfold is_digit, is_space, byte_of in *. lia.
Qed.

Lemma append_nil_r (s : string) : (s +:+ EmptyString)%string = s.
Proof. induction s as [|c s IH]; [done|]. change (String c (s +:+ EmptyString) = String c s). by rewrite IH. Qed.

Lemma scan_text n : 0 <= n ->
  scan_unsigned (show_abs (n / satoshiPerBTC) +:+ "." +:+ fixed_digits 8 (n mod satoshiPerBTC)) = Some (n, -8).
Proof.
  intros Hn. destruct (abs_digits (n / satoshiPerBTC)) as (Hd & Hv & Hne).
  destruct (fixed_digits_spec 8 (n mod satoshiPerBTC)) as (Fd & Fl & Fv); [by apply Z.mod_pos_bound|].
  assert (digits_val 0 (show_abs (n / satoshiPerBTC) +:+ fixed_digits 8 (n mod satoshiPerBTC)) = Some n) as Hval.
  { rewrite (digits_val_app _ _ _ _ Hv), Fv. f_equal. change (10 ^ Z.of_nat 8) with satoshiPerBTC. unfold satoshiPerBTC.
    rewrite Z.abs_eq by (apply Z.div_pos; lia). rewrite Z.mod_mod by lia. pose proof (Z.div_mod n 100000000). lia. }
  revert Hd Hne Fd Fl Hval. generalize (show_abs (n / satoshiPerBTC)) as whole, (fixed_digits 8 (n mod satoshiPerBTC)) as frac.
  clear. intros whole frac Hd Hne Fd Fl Hval. unfold scan_unsigned. rewrite (span_digits_app whole) by done.
  change ("." +:+ frac)%string with (String "." frac). cbv iota beta.
  rewrite <- (append_nil_r frac) at 1. rewrite (span_digits_app frac) by done. unfold parse_unsigned.
  destruct whole as [|c whole]; [done|]. change (String c whole +:+ frac)%string with (String c (whole +:+ frac)) in *.
  rewrite Hval. simpl. by rewrite Fl.
Qed.

Lemma text_no_space n : 0 <= n -> no_space (show_abs (n / satoshiPerBTC) +:+ "." +:+ fixed_digits 8 (n mod satoshiPerBTC)) = true.
Proof.
  intros Hn. destruct (abs_digits (n / satoshiPerBTC)) as (Hd & _).
  destruct (fixed_digits_spec 8 (n mod satoshiPerBTC)) as (Fd & _); [by apply Z.mod_pos_bound|].
  apply digits_not_space in Hd, Fd. unfold no_space in *. by rewrite !all_chars_app, Hd, Fd.
Qed.

Lemma scan_decimal_text sats : scan_decimal (btc_text sats) = Some (sats, -8).
Proof.
  unfold btc_text. pose proof (scan_text (Z.abs sats) ltac:(lia)) as Hs. destruct (Z.ltb_spec sats 0) as [Hneg|Hpos].
  - change ("-" +:+ ?s)%string with (String "-" s). unfold scan_decimal. rewrite Hs. simpl. do 2 f_equal. lia.
  - change ("" +:+ ?s)%string with s. rewrite Z.abs_eq in * by done. destruct (abs_digits (sats / satoshiPerBTC)) as (Hd & _ & Hne).
    revert Hs Hd Hne. generalize (show_abs (sats / satoshiPerBTC)). intros [|c whole] Hs Hd _; [done|].
    simpl in Hd. apply andb_true_iff in Hd as [Hc _]. rewrite <- Hs. unfold scan_decimal.
    change (String c whole +:+ ?s)%string with (String c (whole +:+ s)). by destruct c as [[] [] [] [] [] [] [] []].
Qed.

(** Also: an amount of satoshis in 64 bits, printed in bitcoins with eight decimals, is
    read back exactly. *)
Theorem amount_roundtrip sats : in_int64 sats -> parseBTCValueToSatoshi (btc_text sats) = Ok sats.
Proof.
  intros Hs. assert (no_space (btc_text sats) = true) as Hn.
  { unfold btc_text. pose proof (text_no_space (Z.abs sats) ltac:(lia)). by destruct (sats <? 0). }
  unfold parseBTCValueToSatoshi. rewrite trim_space_no_space by done.
  assert (str_empty (btc_text sats) = false) as ->.
  { unfold btc_text. destruct (abs_digits (Z.abs sats / satoshiPerBTC)) as (_ & _ & He).
    destruct (sats <? 0); [done|]. by destruct (show_abs _). }
  rewrite scan_decimal_text. destruct (Z.eqb_spec sats 0) as [->|Hz]; [done|].
  change (10 ^ 6 <? Z.abs (-8)) with false. change (10 ^ Z.max 0 (-8)) with 1. change (10 ^ Z.max 0 (- -8)) with satoshiPerBTC.
  cbv zeta iota. rewrite Z.mul_1_r, Z.mod_mul, Z.div_mul by (unfold satoshiPerBTC; lia). simpl negb. cbv iota.
  unfold in_int64 in Hs. by rewrite (proj2 (Z.leb_le _ _)), (proj2 (Z.leb_le _ _)) by lia.
Qed.

(** ** A node to run on: block 6 has a coinbase that pays to "w" and a transaction that
    spends an output of "w"; the node knows no verbosity 3 and no batch of blocks. *)

Definition script_of (address : string) : ScriptPubKey := {| sp_Address := address; sp_Addresses := []; sp_Type := "" |}.
Definition vout_of (n : Z) (value address : string) : option Vout :=
  Some {| vo_Value := value; vo_N := n; vo_ScriptPubKey := script_of address |}.
Definition vin_of (txid : string) (n : Z) (coinbase : string) : option Vin :=
  Some {| vi_Txid := txid; vi_Vout := n; vi_Coinbase := coinbase; vi_Prevout := None |}.
Definition tx_of (txid : string) (vins : list (option Vin)) (vouts : list (option Vout)) : Transaction :=
  {| tx_Txid := txid; tx_Hash := txid; tx_Blockhash := "b6"; tx_Blocktime := 100; tx_Time := 100; tx_Confirmations := 1;
     tx_Vin := vins; tx_Vout := vouts |}.

Definition source_tx : Transaction := tx_of "a0" [] [vout_of 1 "1.50000000" "w"; vout_of 0 "0.5" "x"].
Definition coinbase_tx : Transaction := tx_of "a1" [vin_of "" 0 "04ff"] [vout_of 0 "1.00000000" "w"].
Definition spending_tx : Transaction := tx_of "A2" [vin_of "0xA0" 1 ""] [vout_of 0 "1.49990000" "y"].

Definition node_tx (txid : string) : option Transaction :=
  if str_eqb txid "a0" then Some source_tx
  else if str_eqb txid "a1" then Some coinbase_tx
  else if str_eqb txid "a2" then Some spending_tx
  else None.

Definition sample_block (blockHash : string) : option Block :=
  if str_eqb blockHash "b6"
  then Some {| bk_Hash := "b6"; bk_Height := 6; bk_Time := 100; bk_PreviousBlockHash := "b5";
               bk_Tx := [Some coinbase_tx; None; Some spending_tx] |}
  else None.

Definition sample_client : RPCClient :=
  {| GetBlockCount := Ok 7;
     rpc_GetBlockHash := fun n => Ok (if n =? 6 then "b6" else "b0");
     GetBlockHashes := fun heights => Ok ((fun n => if n =? 6 then "b6" else "b0") <$> heights);
     GetBlock := fun h verbosity => if verbosity =? 3 then Err (EMsg "verbosity") else Ok (sample_block h);
     GetBlocks := fun _ _ => Err (EMsg "batch");
     GetBlockHeader := fun h => Ok None;
     GetRawTransactionVerbose := fun txid => Ok (node_tx txid);
     GetRawTransactionsVerbose := fun txids => Ok (node_tx <$> txids) |}.

Lemma node_tx_cases (P : Transaction -> Prop) : P source_tx -> P coinbase_tx -> P spending_tx ->
  forall txid tx, GetRawTransactionVerbose sample_client txid = Ok (Some tx) -> P tx.
Proof.
  intros H0 H1 H2 txid tx. simpl. unfold node_tx. intros [= H]. revert H.
  destruct (str_eqb txid "a0"); [by intros [= <-]|]. destruct (str_eqb txid "a1"); [by intros [= <-]|].
  destruct (str_eqb txid "a2"); [by intros [= <-]|done].
Qed.

Lemma sample_raw ids txs : GetRawTransactionsVerbose sample_client ids = Ok txs ->
  Forall2 (fun id tx => GetRawTransactionVerbose sample_client id = Ok tx) ids txs.
Proof. intros [= <-]. apply Forall2_fmap_r, Forall_Forall2_diag, Forall_forall. done. Qed.

Lemma sample_plain txid tx vin : GetRawTransactionVerbose sample_client txid = Ok (Some tx) -> Some vin ∈ tx_Vin tx ->
  canonicalTxID (canonicalTxID (vi_Txid vin)) = canonicalTxID (vi_Txid vin).
Proof.
  revert txid tx. apply (node_tx_cases (fun tx => Some vin ∈ tx_Vin tx -> _ = _));
    simpl; unfold vin_of; rewrite ?elem_of_cons, elem_of_nil; [done|intros [[= ->]|[]]; vm_compute; reflexivity..].
Qed.

Lemma sample_indices txid tx : GetRawTransactionVerbose sample_client txid = Ok (Some tx) -> NoDup (vo_N <$> omap id (tx_Vout tx)).
Proof. revert txid tx. apply node_tx_cases; apply (bool_decide_unpack _); vm_compute; exact I. Qed.

Lemma sample_honest vins : (forall vin, Some vin ∈ vins -> vi_Prevout vin = None) -> all_honest sample_client (stored_prevout sample_client) vins.
Proof. intros Hv vin Hin. unfold honest, lookup_prevout. by rewrite (Hv vin Hin). Qed.

Lemma sample_inline : (forall vin, Some vin ∈ tx_Vin source_tx -> vi_Prevout vin = None) /\
  (forall vin, Some vin ∈ tx_Vin coinbase_tx -> vi_Prevout vin = None) /\
  (forall vin, Some vin ∈ tx_Vin spending_tx -> vi_Prevout vin = None).
Proof.
  split; [|split]; intros vin; simpl; unfold vin_of; rewrite ?elem_of_cons, elem_of_nil; [done|by intros [[= ->]|[]]..].
Qed.

Lemma sample_delivered txid tx : GetRawTransactionVerbose sample_client txid = Ok (Some tx) ->
  all_honest sample_client (stored_prevout sample_client) (tx_Vin tx).
Proof. destruct sample_inline as (H0 & H1 & H2). revert txid tx. apply node_tx_cases; by apply sample_honest. Qed.

Lemma sample_block_honest blockHash verbosity block : GetBlock sample_client blockHash verbosity = Ok (Some block) ->
  txs_honest sample_client (stored_prevout sample_client) (bk_Tx block).
Proof.
  simpl. destruct (verbosity =? 3); [done|]. unfold sample_block. destruct (str_eqb blockHash "b6"); [|done].
  intros [= <-] tx. destruct sample_inline as (_ & H1 & H2). simpl. rewrite !elem_of_cons, elem_of_nil.
  intros [[= ->]|[|[[= ->]|[]]]]; [by apply sample_honest|done|by apply sample_honest].
Qed.

Definition sample_envelopes : list txEnvelope :=
  [{| en_Txid := "a2"; en_BlockHeight := 6; en_BlockHash := "b6"; en_BlockTime := 100; en_Confirmations := 1;
      en_Vin := [{| ei_Index := 0; ei_Txid := "a0"; ei_Vout := 1; ei_Address := "w"; ei_ValueSat := "150000000";
                    ei_Coinbase := false |}];
      en_Vout := [{| eo_Index := 0; eo_Address := "y"; eo_ValueSat := "149990000" |}];
      en_FeeSat := "10000"; en_FeePayer := "w" |}].

Lemma caches_transparent_witness : envelopes sample_client ["0xA2"] = direct_envelopes sample_client ["0xA2"] /\
  envelopes sample_client ["0xA2"] = Ok sample_envelopes.
Proof.
  split; [|vm_compute; reflexivity].
  refine (caches_transparent sample_client sample_raw _ sample_plain sample_indices sample_delivered ["0xA2"]). discriminate.
Defined.

Lemma envelopes_account_witness : Forall2 (accounts sample_client) ["0xA2"] sample_envelopes.
Proof.
  refine (envelopes_account sample_client sample_raw _ sample_plain sample_indices sample_delivered ["0xA2"] sample_envelopes _).
  - discriminate.
  - vm_compute. reflexivity.
Defined.

Lemma btc_scan_exact_witness :
  let a := NewAdapter [] in
  let sigs := [{| sg_Hash := "a1"; sg_Sequence := 6; sg_Time := Some (100 * 10 ^ 9) |};
               {| sg_Hash := "a2"; sg_Sequence := 6; sg_Time := Some (100 * 10 ^ 9) |}] in
  let touching := touching sample_client (watched_addresses [" w"]) blockVerbosityTxObjects 5 7 in
  StronglySorted (fun x y => sg_Sequence x <= sg_Sequence y) sigs /\ NoDup (sg_Hash <$> sigs) /\
  (forall sig, sig ∈ sigs -> touching (sg_Hash sig) (sg_Sequence sig)) /\ (forall h n, touching h n -> h ∈ sg_Hash <$> sigs).
Proof.
  refine (btc_scan_exact sample_client _ (stored_prevout sample_client) sample_block_honest (NewAdapter []) 5 7 [" w"] _ (set_verbosity3 (NewAdapter []) (-1)) _ _ _).
  - intros heights hashes [= <-]. apply Forall2_fmap_r, Forall_Forall2_diag, Forall_forall. reflexivity.
  - lia.
  - discriminate.
  - vm_compute. reflexivity.
Defined.

Lemma amount_roundtrip_witness : in_int64 (-1) /\ btc_text (-1) = "-0.00000001" /\ parseBTCValueToSatoshi "-0.00000001" = Ok (-1).
Proof.
  split; [|split].
  - unfold in_int64, min_int64, max_int64. lia.
  - vm_compute. reflexivity.
  - refine (amount_roundtrip (-1) _). unfold in_int64, min_int64, max_int64. lia.
Defined.
