(* ===== verification/PipelineHealth.v ===== *)
(** * Pipeline health: [internal/pipeline/health.go]

    The health tracker of a pipeline, and the proof that it follows from the history of
    recorded successes, failures and latencies. *)

From Stdlib Require Import ZArith String Lia.
From stdpp Require Import base option list strings sorting.
From S2P Require Import Prelude Ordering Domain RuntimeSignals.

Open Scope Z_scope.
Open Scope go_scope.

Inductive HealthStatus :=
| HealthStatusUnknown | HealthStatusHealthy | HealthStatusDegraded | HealthStatusUnhealthy | HealthStatusInactive.

#[export] Instance HealthStatus_eq_dec : EqDecision HealthStatus.
Proof. solve_decision. Defined.

Definition status_string (s : HealthStatus) : string :=
  match s with
  | HealthStatusUnknown => "UNKNOWN"
  | HealthStatusHealthy => "HEALTHY"
  | HealthStatusDegraded => "DEGRADED"
  | HealthStatusUnhealthy => "UNHEALTHY"
  | HealthStatusInactive => "INACTIVE"
  end.

Definition DefaultUnhealthyThreshold : Z := 5.
Definition DefaultDegradedLatencyThreshold : Z := 5 * 10 ^ 9.
Definition latencyWindowSize : nat := 10.

(** Times are nanoseconds; [None] is a nil pointer. *)
Record PipelineHealth := {
  ph_chain : Chain; ph_network : Network; ph_status : HealthStatus; ph_consecutiveFailures : Z;
  ph_lastSuccessAt : option Z; ph_lastFailureAt : option Z; ph_unhealthyThreshold : Z;
  ph_latencyBuf : list Z; ph_latencyHead : nat; ph_latencyCount : nat; ph_degradedLatencyThreshold : Z
}.

Definition NewPipelineHealth (chain : Chain) (network : Network) : PipelineHealth :=
  {| ph_chain := chain; ph_network := network; ph_status := HealthStatusUnknown; ph_consecutiveFailures := 0;
     ph_lastSuccessAt := None; ph_lastFailureAt := None; ph_unhealthyThreshold := DefaultUnhealthyThreshold;
     ph_latencyBuf := replicate latencyWindowSize 0; ph_latencyHead := 0; ph_latencyCount := 0;
     ph_degradedLatencyThreshold := DefaultDegradedLatencyThreshold |}.

(** [update h status failures lastSuccess lastFailure] *)
Definition update (h : PipelineHealth) (status : HealthStatus) (failures : Z) (lastSuccess lastFailure : option Z)
    : PipelineHealth :=
  {| ph_chain := ph_chain h; ph_network := ph_network h; ph_status := status; ph_consecutiveFailures := failures;
     ph_lastSuccessAt := lastSuccess; ph_lastFailureAt := lastFailure; ph_unhealthyThreshold := ph_unhealthyThreshold h;
     ph_latencyBuf := ph_latencyBuf h; ph_latencyHead := ph_latencyHead h; ph_latencyCount := ph_latencyCount h;
     ph_degradedLatencyThreshold := ph_degradedLatencyThreshold h |}.

Definition SetStatus (status : HealthStatus) (h : PipelineHealth) : PipelineHealth :=
  update h status (ph_consecutiveFailures h) (ph_lastSuccessAt h) (ph_lastFailureAt h).

Definition percentileLatency (pct : Z) (h : PipelineHealth) : Z :=
  let n := ph_latencyCount h in
  if (n =? 0)%nat then 0
  else
    let sorted := stable_sort Z.compare (take n (ph_latencyBuf h)) in
    let idx := Z.quot (pct * Z.of_nat n - 1) 100 in
    let idx := if idx <? 0 then 0 else idx in
    let idx := if Z.of_nat n <=? idx then Z.of_nat n - 1 else idx in
    default 0 (sorted !! Z.to_nat idx).

Definition isLatencyDegraded (h : PipelineHealth) : bool :=
  if (ph_latencyCount h <? 2)%nat then false else ph_degradedLatencyThreshold h <? percentileLatency 95 h.

Definition healthy_status (h : PipelineHealth) : HealthStatus :=
  if isLatencyDegraded h then HealthStatusDegraded else HealthStatusHealthy.

Definition RecordSuccess (now : Z) (h : PipelineHealth) : PipelineHealth :=
  update h (healthy_status h) 0 (Some now) (ph_lastFailureAt h).

(** True when the success ends an unhealthy state. *)
Definition RecordSuccessWithRecovery (now : Z) (h : PipelineHealth) : bool * PipelineHealth :=
  (bool_decide (ph_status h = HealthStatusUnhealthy), RecordSuccess now h).

Definition push_latency (d : Z) (h : PipelineHealth) : PipelineHealth :=
  {| ph_chain := ph_chain h; ph_network := ph_network h; ph_status := ph_status h;
     ph_consecutiveFailures := ph_consecutiveFailures h; ph_lastSuccessAt := ph_lastSuccessAt h;
     ph_lastFailureAt := ph_lastFailureAt h; ph_unhealthyThreshold := ph_unhealthyThreshold h;
     ph_latencyBuf := <[ph_latencyHead h := d]> (ph_latencyBuf h);
     ph_latencyHead := (S (ph_latencyHead h) mod latencyWindowSize)%nat;
     ph_latencyCount := if (ph_latencyCount h <? latencyWindowSize)%nat then S (ph_latencyCount h) else ph_latencyCount h;
     ph_degradedLatencyThreshold := ph_degradedLatencyThreshold h |}.

Definition RecordLatency (d : Z) (h : PipelineHealth) : PipelineHealth :=
  let h := push_latency d h in
  if bool_decide (ph_status h = HealthStatusHealthy) || bool_decide (ph_status h = HealthStatusDegraded) then
    if isLatencyDegraded h then SetStatus HealthStatusDegraded h
    else if bool_decide (ph_status h = HealthStatusDegraded) && (ph_consecutiveFailures h =? 0)
         then SetStatus HealthStatusHealthy h else h
  else h.

(** True when the failure makes the pipeline unhealthy. *)
Definition RecordFailure (now : Z) (h : PipelineHealth) : bool * PipelineHealth :=
  let failures := ph_consecutiveFailures h ⊕ 1 in
  if (ph_unhealthyThreshold h <=? failures) && negb (bool_decide (ph_status h = HealthStatusUnhealthy))
  then (true, update h HealthStatusUnhealthy failures (ph_lastSuccessAt h) (Some now))
  else (false, update h (ph_status h) failures (ph_lastSuccessAt h) (Some now)).

Record HealthSnapshot := {
  hs_Chain : string; hs_Network : string; hs_Status : string; hs_ConsecutiveFailures : Z;
  hs_LastSuccessAt : option Z; hs_LastFailureAt : option Z
}.

Definition Snapshot (h : PipelineHealth) : HealthSnapshot :=
  {| hs_Chain := ph_chain h; hs_Network := ph_network h; hs_Status := status_string (ph_status h);
     hs_ConsecutiveFailures := ph_consecutiveFailures h; hs_LastSuccessAt := ph_lastSuccessAt h;
     hs_LastFailureAt := ph_lastFailureAt h |}.

(** ** The history *)

Inductive record := Success (now : Z) | Failure (now : Z) | Latency (d : Z).

Definition apply_record (h : PipelineHealth) (r : record) : PipelineHealth :=
  match r with
  | Success now => (RecordSuccessWithRecovery now h).2
  | Failure now => (RecordFailure now h).2
  | Latency d => RecordLatency d h
  end.

(** Failures since the last success, of a history with the newest record first. *)
Fixpoint failures_of (hist : list record) : Z :=
  match hist with
  | [] => 0
  | Success _ :: _ => 0
  | Failure _ :: hist' => failures_of hist' + 1
  | Latency _ :: hist' => failures_of hist'
  end.

Definition succeeded (hist : list record) : Prop := exists now, Success now ∈ hist.

Definition latencies_of (hist : list record) : list Z := omap (fun r => match r with Latency d => Some d | _ => None end) hist.

(** Among the last ten latencies, two at least, one is beyond the threshold. *)
Definition slow (threshold : Z) (hist : list record) : Prop :=
  let recent := take latencyWindowSize (latencies_of hist) in
  (2 <= length recent)%nat /\ exists d, d ∈ recent /\ threshold < d.

Record tracks (threshold : Z) (hist : list record) (h : PipelineHealth) : Prop := {
  tr_failures : ph_consecutiveFailures h = failures_of hist;
  tr_unhealthy : ph_status h = HealthStatusUnhealthy <-> threshold <= failures_of hist;
  tr_unknown : ph_status h = HealthStatusUnknown <-> ~ succeeded hist /\ failures_of hist < threshold;
  tr_active : ph_status h <> HealthStatusInactive;
  tr_healthy : ph_status h = HealthStatusHealthy -> ~ slow (ph_degradedLatencyThreshold h) hist;
  tr_settled : succeeded hist -> failures_of hist = 0 ->
    ph_status h = HealthStatusDegraded <-> slow (ph_degradedLatencyThreshold h) hist
}.

(** ** The window of latencies *)

Definition health_ring (h : PipelineHealth) : list Z * nat * nat := (ph_latencyBuf h, ph_latencyHead h, ph_latencyCount h).

Definition window_of (hist : list record) (h : PipelineHealth) : Prop :=
  ring_inv latencyWindowSize (reverse (latencies_of hist)) (health_ring h).

Lemma window_pos : (0 < latencyWindowSize)%nat.
Proof. unfold latencyWindowSize. lia. Qed.

Lemma push_window hist h d : window_of hist h -> window_of (Latency d :: hist) (push_latency d h).
Proof.
  intros Hw. unfold window_of. replace (reverse (latencies_of (Latency d :: hist))) with (reverse (latencies_of hist) ++ [d])
    by (unfold latencies_of; simpl; by rewrite reverse_cons).
  replace (health_ring (push_latency d h)) with (ring_step latencyWindowSize (health_ring h) d).
  - apply ring_step_inv; [apply window_pos|exact Hw].
  - destruct (ri_next _ _ _ Hw) as [Hn _]. cbn [fst snd health_ring] in Hn.
    assert (bump_index latencyWindowSize (ph_latencyHead h) = S (ph_latencyHead h) mod latencyWindowSize)%nat as Hb; [|
      unfold health_ring, push_latency, ring_step; cbn [ph_latencyBuf ph_latencyHead ph_latencyCount]; by rewrite Hb].
    unfold bump_index. destruct (Nat.leb_spec latencyWindowSize (S (ph_latencyHead h))).
    + replace (S (ph_latencyHead h)) with latencyWindowSize by lia. by rewrite Nat.Div0.mod_same.
    + by rewrite Nat.mod_small by lia.
Qed.

Lemma last_n_reverse {A} n (l : list A) : last_n n (reverse l) = reverse (take n l).
Proof. unfold last_n. by rewrite reverse_take, length_reverse. Qed.

Lemma window_elem hist h : window_of hist h ->
  ph_latencyCount h = length (take latencyWindowSize (latencies_of hist)) /\
  take (ph_latencyCount h) (ph_latencyBuf h) ≡ₚ take latencyWindowSize (latencies_of hist).
Proof.
  intros Hw. split.
  - rewrite length_take. pose proof (ri_count _ _ _ Hw) as Hc. cbn [snd health_ring] in Hc. by rewrite Hc, length_reverse, Nat.min_comm.
  - pose proof (ring_perm _ _ _ Hw) as Hp. cbn [fst snd health_ring] in Hp. rewrite Hp, last_n_reverse.
    apply reverse_Permutation.
Qed.

(** The last element of a sorted list is its greatest. *)
Lemma sorted_last (l : list Z) d : StronglySorted Z.le l -> l !! (length l - 1)%nat = Some d -> forall x, x ∈ l -> x <= d.
Proof.
  induction 1 as [|y l Hl IH Hy]; [done|]. cbn [length]. destruct l as [|z l].
  - simpl. intros [= <-] x Hx%list_elem_of_singleton. lia.
  - replace (S (length (z :: l)) - 1)%nat with (S (length (z :: l) - 1)) by (simpl; lia). intros Hd x [->|Hx]%elem_of_cons.
    + rewrite Forall_forall in Hy. apply Hy. by eapply list_elem_of_lookup_2.
    + by apply IH.
Qed.

Lemma stable_sort_le (l : list Z) : StronglySorted Z.le (stable_sort Z.compare l).
Proof.
  pose proof (stable_sort_sorted Z.compare l) as H. induction H as [|x q Hq IH Hx]; constructor; [done|].
  eapply Forall_impl; [exact Hx|]. intros y Hy. exact Hy.
Qed.

(** Of at most ten latencies the 95th percentile is the greatest. *)
Lemma p95_greatest h t : (0 < ph_latencyCount h <= 10)%nat -> (ph_latencyCount h <= length (ph_latencyBuf h))%nat ->
  t < percentileLatency 95 h <-> exists d, d ∈ take (ph_latencyCount h) (ph_latencyBuf h) /\ t < d.
Proof.
  intros Hn Hlen. unfold percentileLatency. set (n := ph_latencyCount h) in *. set (window := take n (ph_latencyBuf h)).
  rewrite (proj2 (Nat.eqb_neq _ _)) by lia.
  assert (Z.quot (95 * Z.of_nat n - 1) 100 = Z.of_nat n - 1) as ->.
  { rewrite Z.quot_div_nonneg by lia. symmetry. apply (Z.div_unique _ _ _ (95 * Z.of_nat n - 1 - 100 * (Z.of_nat n - 1))); lia. }
  cbv zeta. rewrite (proj2 (Z.ltb_ge (Z.of_nat n - 1) 0)), (proj2 (Z.leb_gt _ _)) by lia.
  replace (Z.to_nat (Z.of_nat n - 1)) with (length (stable_sort Z.compare window) - 1)%nat.
  2: { rewrite stable_sort_perm. unfold window. rewrite length_take. lia. }
  destruct (lookup_lt_is_Some_2 (stable_sort Z.compare window) (length (stable_sort Z.compare window) - 1)) as [d Hd].
  { rewrite stable_sort_perm. unfold window. rewrite length_take. lia. }
  rewrite Hd. simpl. split.
  - intros Ht. exists d. split; [|done]. rewrite <- (stable_sort_perm Z.compare). by eapply list_elem_of_lookup_2.
  - intros (x & Hx & Ht). rewrite <- (stable_sort_perm Z.compare) in Hx.
    pose proof (sorted_last _ d (stable_sort_le window) Hd x Hx). lia.
Qed.

Lemma degraded_slow hist h : window_of hist h -> isLatencyDegraded h = true <-> slow (ph_degradedLatencyThreshold h) hist.
Proof.
  intros Hw. destruct (window_elem hist h Hw) as [Hc Hp]. unfold isLatencyDegraded, slow. cbv zeta. rewrite <- Hc.
  destruct (Nat.ltb_spec (ph_latencyCount h) 2) as [Hlt|Hge]; [split; [done|lia]|].
  pose proof (ri_len _ _ _ Hw) as Hl. cbn [fst health_ring] in Hl.
  assert (ph_latencyCount h <= 10)%nat by (rewrite Hc, length_take; unfold latencyWindowSize; lia).
  rewrite Z.ltb_lt, p95_greatest by (rewrite ?Hl; unfold latencyWindowSize; lia). setoid_rewrite Hp. naive_solver.
Qed.

(** ** The tracker follows the history *)

Lemma failures_bounds hist : 0 <= failures_of hist <= Z.of_nat (length hist).
Proof. induction hist as [|[| |] hist IH]; simpl; lia. Qed.

(** A tracker with a threshold of its own, as the pipeline sets it up. *)
Definition set_threshold (t : Z) (h : PipelineHealth) : PipelineHealth :=
  {| ph_chain := ph_chain h; ph_network := ph_network h; ph_status := ph_status h;
     ph_consecutiveFailures := ph_consecutiveFailures h; ph_lastSuccessAt := ph_lastSuccessAt h;
     ph_lastFailureAt := ph_lastFailureAt h; ph_unhealthyThreshold := if 0 <? t then t else ph_unhealthyThreshold h;
     ph_latencyBuf := ph_latencyBuf h; ph_latencyHead := ph_latencyHead h; ph_latencyCount := ph_latencyCount h;
     ph_degradedLatencyThreshold := ph_degradedLatencyThreshold h |}.

Section History.
Context (chain : Chain) (network : Network) (threshold : Z) (Hthreshold : 0 < threshold).

(** The tracker after a history, newest record first. *)
Definition tracker (hist : list record) : PipelineHealth :=
  foldr (fun r h => apply_record h r) (set_threshold threshold (NewPipelineHealth chain network)) hist.

Lemma slow_other t r hist : (forall d, r <> Latency d) -> slow t (r :: hist) <-> slow t hist.
Proof. intros Hr. unfold slow, latencies_of. destruct r as [| |d]; [done..|]. by destruct (Hr d). Qed.

Lemma tracker_fixed hist : ph_unhealthyThreshold (tracker hist) = threshold /\
  ph_degradedLatencyThreshold (tracker hist) = DefaultDegradedLatencyThreshold /\ window_of hist (tracker hist).
Proof.
  induction hist as [|r hist (H1 & H2 & H3)]; simpl.
  { rewrite (proj2 (Z.ltb_lt 0 threshold)) by done. split; [done|]. split; [done|]. apply (ring_init_inv latencyWindowSize 0), window_pos. }
  destruct r as [now|now|d]; simpl.
  - done.
  - unfold RecordFailure. by destruct (_ && _).
  - apply (push_window _ _ d) in H3. unfold RecordLatency.
    destruct (_ || _); [|done]. destruct (isLatencyDegraded _); [done|]. by destruct (_ && _).
Qed.

Lemma succeeded_cons r hist : succeeded (r :: hist) <-> (exists now, r = Success now) \/ succeeded hist.
Proof. unfold succeeded. setoid_rewrite elem_of_cons. naive_solver. Qed.

Lemma tracks_success now hist h : window_of hist h -> tracks threshold hist h ->
  tracks threshold (Success now :: hist) (RecordSuccess now h).
Proof.
  intros Hw Ht. pose proof (degraded_slow hist h Hw) as Hd. unfold RecordSuccess, healthy_status.
  split; simpl; rewrite ?slow_other, ?succeeded_cons by done; destruct (isLatencyDegraded h);
    first [done | split; [done|lia] | split; [done|naive_solver] | naive_solver].
Qed.

Lemma tracks_failure now hist h : ph_unhealthyThreshold h = threshold -> failures_of hist < max_int64 -> tracks threshold hist h ->
  tracks threshold (Failure now :: hist) (RecordFailure now h).2.
Proof.
  intros Hth Hb [H1 H2 H3 H4 H5 H6]. pose proof (failures_bounds hist). unfold RecordFailure. rewrite Hth, H1.
  rewrite wrap64_id by (unfold in_int64, min_int64, max_int64 in *; lia).
  destruct (Z.leb_spec threshold (failures_of hist + 1)) as [Hle|Hlt];
    [destruct (bool_decide_reflect (ph_status h = HealthStatusUnhealthy)) as [Hu|Hu]|]; simpl;
    split; simpl; rewrite ?slow_other, ?succeeded_cons by done;
    first [done | lia | split; [done|lia] | split; [done|naive_solver lia] | naive_solver lia].
Qed.

(** The clauses that do not depend on the latencies, for a status that stays as it is or
    moves between healthy and degraded. *)
Lemma tracks_moved d hist h s' : tracks threshold hist h ->
  s' = ph_status h \/ (ph_status h <> HealthStatusUnhealthy /\ ph_status h <> HealthStatusUnknown /\
                       (s' = HealthStatusHealthy \/ s' = HealthStatusDegraded)) ->
  (s' = HealthStatusUnhealthy <-> threshold <= failures_of (Latency d :: hist)) /\
  (s' = HealthStatusUnknown <-> ~ succeeded (Latency d :: hist) /\ failures_of (Latency d :: hist) < threshold) /\
  s' <> HealthStatusInactive.
Proof.
  intros [_ H2 H3 H4 _ _] Hs. rewrite succeeded_cons. cbn [failures_of].
  assert ((exists now, Latency d = Success now) \/ succeeded hist <-> succeeded hist) as -> by naive_solver.
  rewrite <- H2, <- H3. destruct Hs as [->|(Hu & Hk & [-> | ->])]; [done|..]; (split; [|split]); intuition congruence.
Qed.

Lemma tracks_latency d hist h : window_of hist h -> tracks threshold hist h ->
  tracks threshold (Latency d :: hist) (RecordLatency d h).
Proof.
  intros Hw Ht. pose proof (degraded_slow _ _ (push_window _ _ d Hw)) as Hd.
  pose proof (tracks_moved d hist h) as Hm. destruct Ht as [H1 H2 H3 H4 H5 H6] eqn:Et. clear Et.
  unfold RecordLatency. change (ph_status (push_latency d h)) with (ph_status h).
  change (ph_consecutiveFailures (push_latency d h)) with (ph_consecutiveFailures h). rewrite H1.
  assert (succeeded (Latency d :: hist) -> succeeded hist) as Hs by (rewrite succeeded_cons; intros [[? ?]|?]; done).
  change (ph_degradedLatencyThreshold (push_latency d h)) with (ph_degradedLatencyThreshold h) in Hd.
  destruct (isLatencyDegraded (push_latency d h)), (ph_status h) eqn:Es; simpl;
    try destruct (Z.eqb_spec (failures_of hist) 0) as [Hf|Hf]; simpl;
    match goal with |- tracks _ _ ?h' => destruct (Hm (ph_status h') Ht) as (M2 & M3 & M4); [simpl; rewrite ?Es; intuition congruence|] end;
    (split; [exact H1|exact M2|exact M3|exact M4| |]); simpl in *; rewrite ?Es in *; rewrite <- Hd; try congruence;
    intros Hsucc Hzero; try (exfalso; intuition lia); intuition congruence.
Qed.

(** Also: after any history of successes, failures and latencies the tracker counts the
    failures since the last success, is unhealthy exactly from the threshold on, unknown only
    before the first success, and otherwise degraded when one of the last ten latencies is
    beyond five seconds; it reports the transition to unhealthy once, at the failure that
    reaches the threshold, and a recovery at the success that ends an unhealthy state. *)
Theorem health_follows_history hist : Z.of_nat (length hist) < max_int64 ->
  tracks threshold hist (tracker hist) /\
  forall now, (RecordFailure now (tracker hist)).1 = bool_decide (failures_of hist + 1 = threshold) /\
              (RecordSuccessWithRecovery now (tracker hist)).1 = bool_decide (threshold <= failures_of hist).
Proof.
  intros Hlen. assert (tracks threshold hist (tracker hist)) as Ht.
  { induction hist as [|r hist IH]; [split; simpl; try naive_solver lia|].
    - split; [|done]. split; [|done]. intros (now & Hn). by apply elem_of_nil in Hn.
    - intros (now & Hn). by apply elem_of_nil in Hn.
    - cbn [length] in Hlen. specialize (IH ltac:(lia)). destruct (tracker_fixed hist) as (Hth & _ & Hw).
      pose proof (failures_bounds hist). destruct r; simpl.
      + by apply tracks_success.
      + apply tracks_failure; [done|lia|done].
      + by apply tracks_latency. }
  split; [done|]. intros now. destruct Ht as [H1 H2 _ _ _ _]. destruct (tracker_fixed hist) as (Hth & _ & _).
  pose proof (failures_bounds hist). split.
  - unfold RecordFailure. rewrite Hth, H1, wrap64_id by (unfold in_int64, min_int64, max_int64 in *; lia).
    destruct (Z.leb_spec threshold (failures_of hist + 1)); simpl; repeat (case_bool_decide; simpl); naive_solver lia.
  - simpl. apply bool_decide_ext, H2.
Qed.
End History.

Lemma health_follows_history_witness :
  let hist := [Failure 9; Failure 8; Latency (6 * 10 ^ 9); Latency 1; Success 1; Failure 0] in
  let h := tracker "base" "mainnet" 3 hist in
  (ph_status h = HealthStatusDegraded /\ ph_consecutiveFailures h = 2) /\ tracks 3 hist h /\
  forall now, (RecordFailure now h).1 = bool_decide (failures_of hist + 1 = 3) /\
              (RecordSuccessWithRecovery now h).1 = bool_decide (3 <= failures_of hist).
Proof.
  split; [vm_compute; done|].
  exact (health_follows_history "base" "mainnet" 3 eq_refl
           [Failure 9; Failure 8; Latency (6 * 10 ^ 9); Latency 1; Success 1; Failure 0] eq_refl).
Defined.
