(* ===== verification/ConfigWatcher.v ===== *)
(** * Config watcher: [internal/pipeline/config_watcher.go]

    The watcher polls the runtime configuration and applies what changed to the running
    coordinator and to the activation of the pipeline, both behind interfaces.  Go visits
    the map of configurations in any order; the effect is the same for each. *)

From Stdlib Require Import ZArith String Lia.
From stdpp Require Import base option list strings gmap.
From S2P Require Import Prelude Coordinator.

Open Scope Z_scope.
Open Scope go_scope.

(** ** Interfaces *)

(** [CoordinatorUpdater]; the two updates touch different settings. *)
Class CoordinatorUpdater (C : Type) := {
  cu_UpdateBatchSize : Z -> C -> C;
  cu_UpdateInterval : Z -> C -> bool * C;
  cu_comm : forall n d c, (cu_UpdateInterval d (cu_UpdateBatchSize n c)).2 = cu_UpdateBatchSize n (cu_UpdateInterval d c).2
}.

(** [ActivationController] *)
Class ActivationController (P : Type) := {
  ac_IsActive : P -> bool;
  ac_Activate : P -> P;
  ac_Deactivate : P -> P;
  ac_activated : forall p, ac_IsActive (ac_Activate p) = true;
  ac_deactivated : forall p, ac_IsActive (ac_Deactivate p) = false
}.

#[export] Instance coordinator_updater : CoordinatorUpdater Coordinator.
Proof.
  refine {| cu_UpdateBatchSize := UpdateBatchSize; cu_UpdateInterval := UpdateInterval |}.
  intros n d c. unfold UpdateBatchSize, UpdateInterval. destruct (n <=? 0), (d <=? 0); done.
Defined.

(** ** The watcher *)

Definition ConfigKeyBatchSize : string := "batch_size".
Definition ConfigKeyIndexingInterval : string := "indexing_interval_ms".
Definition ConfigKeyIsActive : string := "is_active".

Definition configWatcherDefaultInterval : Z := 30 * 10 ^ 9.

(** The interval between polls and the last seen values. *)
Record ConfigWatcher := { cw_interval : Z; cw_lastSeen : gmap string string }.

Definition NewConfigWatcher (interval : Z) : ConfigWatcher :=
  {| cw_interval := if interval <=? 0 then configWatcherDefaultInterval else interval; cw_lastSeen := ∅ |}.

Section Watcher.
Context {C P : Type} `{CoordinatorUpdater C} `{ActivationController P}.

(** The coordinator, and the activation controller when one is set. *)
Definition world : Type := C * option P.

Definition apply_batch_size (value : string) (c : C) : C :=
  match parse_int64 (trim_space value) with
  | Some v => if (0 <? v) && (v <=? 10000) then cu_UpdateBatchSize v c else c
  | None => c
  end.

Definition apply_interval (value : string) (c : C) : C :=
  match parse_int64 (trim_space value) with
  | Some v => if 0 <? v then (cu_UpdateInterval (v ⊗ 10 ^ 6) c).2 else c
  | None => c
  end.

Definition apply_is_active (value : string) (p : P) : P :=
  let trimmed := to_lower (trim_space value) in
  if str_in trimmed ["false"; "0"; "no"; "off"] then (if ac_IsActive p then ac_Deactivate p else p)
  else if str_in trimmed ["true"; "1"; "yes"; "on"] then (if ac_IsActive p then p else ac_Activate p)
  else p.

Definition applyConfig (key value : string) (w : world) : world :=
  let key := trim_space key in
  if str_eqb key ConfigKeyBatchSize then (apply_batch_size value w.1, w.2)
  else if str_eqb key ConfigKeyIndexingInterval then (apply_interval value w.1, w.2)
  else if str_eqb key ConfigKeyIsActive then (w.1, apply_is_active value <$> w.2)
  else w.

Definition seen (lastSeen : gmap string string) (key : string) : string := default "" (lastSeen !! key).

Definition visit (st : gmap string string * world) (kv : string * string) : gmap string string * world :=
  if str_eqb (seen st.1 kv.1) kv.2 then st else (<[kv.1 := kv.2]> st.1, applyConfig kv.1 kv.2 st.2).

(** [order] is the order in which Go visits the active configurations; [None] when the
    query failed. *)
Definition poll (order : option (list (string * string))) (st : gmap string string * world) : gmap string string * world :=
  match order with
  | None => st
  | Some order => foldl visit (filter (fun kv => kv.1 ∈ order.*1) st.1, st.2) order
  end.

(** ** What a poll leaves *)

Lemma str_eqb_true (s t : string) : str_eqb s t = true <-> s = t.
Proof. apply String.eqb_eq. Qed.

Lemma visits_seen order : NoDup order.*1 -> forall st,
  let st' := foldl visit st order in
  (forall k v, (k, v) ∈ order -> seen st'.1 k = v) /\ (forall k, k ∉ order.*1 -> st'.1 !! k = st.1 !! k).
Proof.
  induction order as [|[k v] order IH]; intros Hnd st; simpl; [split; [set_solver|done]|].
  apply NoDup_cons in Hnd as [Hk Hnd]. destruct (IH Hnd (visit st (k, v))) as [H1 H2].
  assert (seen (visit st (k, v)).1 k = v) as Hv.
  { unfold visit. simpl. destruct (str_eqb (seen st.1 k) v) eqn:Ee; [by apply str_eqb_true|]. unfold seen. simpl. by rewrite lookup_insert_eq. }
  split.
  - intros k' v' [[= -> ->]|Hin]%elem_of_cons; [|by apply H1]. unfold seen in *. by rewrite H2.
  - intros k' Hk'. rewrite H2 by set_solver. unfold visit. simpl. destruct (str_eqb _ _); [done|]. simpl.
    rewrite lookup_insert_ne; [done|set_solver].
Qed.

Lemma visits_stable order st : (forall k v, (k, v) ∈ order -> seen st.1 k = v) -> foldl visit st order = st.
Proof.
  induction order as [|[k v] order IH]; intros Hs; simpl; [done|].
  assert (visit st (k, v) = st) as ->; [|apply IH; set_solver].
  unfold visit. simpl. rewrite (proj2 (str_eqb_true _ _)); [done|]. apply Hs. set_solver.
Qed.

Lemma interval_batch_comm v v' c : apply_interval v (apply_batch_size v' c) = apply_batch_size v' (apply_interval v c).
Proof.
  unfold apply_batch_size, apply_interval. destruct (parse_int64 (trim_space v')) as [n|]; [|done].
  destruct ((0 <? n) && (n <=? 10000)); [|done]. destruct (parse_int64 (trim_space v)) as [d|]; [|done].
  destruct (0 <? d); [|done]. apply cu_comm.
Qed.

(** A setting takes its new value when it changed. *)
Definition updated {S : Type} (apply : string -> S -> S) (lastSeen configs : gmap string string) (key : string) (s : S) : S :=
  match configs !! key with
  | Some v => if str_eqb (seen lastSeen key) v then s else apply v s
  | None => s
  end.

(** The world after a poll, setting by setting. *)
Definition polled (lastSeen configs : gmap string string) (w : world) : world :=
  (updated apply_interval lastSeen configs ConfigKeyIndexingInterval
     (updated apply_batch_size lastSeen configs ConfigKeyBatchSize w.1),
   updated apply_is_active lastSeen configs ConfigKeyIsActive <$> w.2).

Lemma updated_none {S : Type} (apply : string -> S -> S) lastSeen configs key s : configs !! key = None ->
  updated apply lastSeen configs key s = s.
Proof. intros Hk. unfold updated. by rewrite Hk. Qed.

(** One more configuration: applied when it changed, and then seen. *)
Lemma updated_step {S : Type} (apply : string -> S -> S) lastSeen configs k v key s : configs !! k = None ->
  str_eqb (seen lastSeen k) v = false ->
  updated apply lastSeen (<[k := v]> configs) key s =
  updated apply (<[k := v]> lastSeen) configs key (if str_eqb k key then apply v s else s).
Proof.
  intros Hk Hv. unfold updated. destruct (str_eqb k key) eqn:E.
  - apply str_eqb_true in E as <-. by rewrite lookup_insert_eq, Hk, Hv.
  - assert (k <> key) by (intros ->; by rewrite (proj2 (str_eqb_true key key) eq_refl) in E).
    rewrite lookup_insert_ne by done. unfold seen. by rewrite lookup_insert_ne.
Qed.

Lemma updated_same {S : Type} (apply : string -> S -> S) lastSeen configs k v key s : configs !! k = None ->
  str_eqb (seen lastSeen k) v = true -> updated apply lastSeen (<[k := v]> configs) key s = updated apply lastSeen configs key s.
Proof.
  intros Hk Hv. unfold updated. destruct (decide (k = key)) as [<-|Hne]; [by rewrite lookup_insert_eq, Hk, Hv|].
  by rewrite lookup_insert_ne.
Qed.

Lemma updated_interval_comm v lastSeen configs key c :
  apply_interval v (updated apply_batch_size lastSeen configs key c) = updated apply_batch_size lastSeen configs key (apply_interval v c).
Proof. unfold updated. destruct (configs !! key); [|done]. destruct (str_eqb _ _); [done|]. apply interval_batch_comm. Qed.

Lemma polled_step lastSeen configs k v w : configs !! k = None -> str_eqb (seen lastSeen k) v = false -> trim_space k = k ->
  polled lastSeen (<[k := v]> configs) w = polled (<[k := v]> lastSeen) configs (applyConfig k v w).
Proof.
  intros Hk Hv Ht. unfold polled, applyConfig. rewrite Ht. rewrite !(updated_step _ _ _ _ _ _ _ Hk Hv).
  assert (updated apply_is_active lastSeen (<[k:=v]> configs) ConfigKeyIsActive <$> w.2 =
          updated apply_is_active (<[k:=v]> lastSeen) configs ConfigKeyIsActive <$>
            (if str_eqb k ConfigKeyIsActive then apply_is_active v <$> w.2 else w.2)) as ->.
  { destruct w as [c [p|]]; simpl; [rewrite (updated_step _ _ _ _ _ _ _ Hk Hv)|]; by destruct (str_eqb k ConfigKeyIsActive). }
  destruct (str_eqb k ConfigKeyBatchSize) eqn:E1; [apply str_eqb_true in E1 as ->; done|].
  destruct (str_eqb k ConfigKeyIndexingInterval) eqn:E2.
  - apply str_eqb_true in E2 as ->. change (str_eqb ConfigKeyIndexingInterval ConfigKeyIsActive) with false.
    cbn [fst snd]. by rewrite updated_interval_comm.
  - by destruct (str_eqb k ConfigKeyIsActive).
Qed.

Definition canonical_keys (order : list (string * string)) : Prop := forall k, k ∈ order.*1 -> trim_space k = k.

Lemma polled_empty lastSeen w : polled lastSeen ∅ w = w.
Proof.
  unfold polled. rewrite !updated_none by (by rewrite lookup_empty). destruct w as [c [p|]]; simpl; [|done].
  by rewrite updated_none by (by rewrite lookup_empty).
Qed.

Lemma visits_world order : NoDup order.*1 -> canonical_keys order -> forall lastSeen w,
  (foldl visit (lastSeen, w) order).2 = polled lastSeen (list_to_map order) w.
Proof.
  induction order as [|[k v] order IH]; intros Hnd Hc lastSeen w; simpl; [by rewrite polled_empty|].
  apply NoDup_cons in Hnd as [Hk Hnd]. assert (trim_space k = k) as Htrim by (apply Hc; set_solver).
  assert (canonical_keys order) as Hc' by (intros x Hx; apply Hc; set_solver).
  assert ((list_to_map order : gmap string string) !! k = None) as Hnone by (by apply not_elem_of_list_to_map_1).
  unfold visit at 2. simpl. destruct (str_eqb (seen lastSeen k) v) eqn:Es.
  - rewrite IH by done. unfold polled. rewrite !(updated_same _ _ _ _ _ _ _ Hnone Es).
    f_equal. destruct w.2; simpl; [|done]. by rewrite (updated_same _ _ _ _ _ _ _ Hnone Es).
  - by rewrite IH, polled_step by done.
Qed.

Lemma seen_filter (order : list (string * string)) lastSeen k : k ∈ order.*1 ->
  seen (filter (fun kv => kv.1 ∈ order.*1) lastSeen) k = seen lastSeen k.
Proof.
  intros Hk. unfold seen. f_equal. destruct (lastSeen !! k) as [v|] eqn:E.
  - apply map_lookup_filter_Some. done.
  - apply map_lookup_filter_None. by left.
Qed.

Lemma polled_seen lastSeen lastSeen' configs w : (forall k v, configs !! k = Some v -> seen lastSeen k = seen lastSeen' k) ->
  polled lastSeen configs w = polled lastSeen' configs w.
Proof.
  intros Hs. assert (forall (S : Type) (apply : string -> S -> S) key s,
    updated apply lastSeen configs key s = updated apply lastSeen' configs key s) as He.
  { intros S0 apply key s. unfold updated. destruct (configs !! key) as [v|] eqn:E; [|done]. by rewrite (Hs _ _ E). }
  unfold polled. rewrite !He. f_equal. destruct w.2; simpl; [by rewrite He|done].
Qed.

(** Also: in whatever order the active configurations are visited, a poll applies to each
    setting exactly the value that differs from the one last seen, forgets the settings that
    are gone, and leaves nothing to do for a second poll of the same configurations. *)
Theorem poll_settles (configs : gmap string string) order order' lastSeen (w : world) :
  order ≡ₚ map_to_list configs -> order' ≡ₚ map_to_list configs -> canonical_keys order ->
  let st := poll (Some order) (lastSeen, w) in
  st.2 = polled lastSeen configs w /\
  (forall k, seen st.1 k = default "" (configs !! k)) /\ (forall k, configs !! k = None -> st.1 !! k = None) /\
  poll (Some order') st = st.
Proof.
  intros Ho Ho' Hc st. assert (NoDup order.*1) as Hnd by (rewrite Ho; apply NoDup_fst_map_to_list).
  assert (forall k v, (k, v) ∈ order <-> configs !! k = Some v) as Hin by (intros k v; rewrite Ho; apply elem_of_map_to_list).
  assert (list_to_map order = configs) as Hmap.
  { rewrite (list_to_map_proper order (map_to_list configs)) by done. apply list_to_map_to_list. }
  assert (forall k, k ∈ order.*1 <-> is_Some (configs !! k)) as Hkeys.
  { intros k. rewrite list_elem_of_fmap. split; [intros ([k' v] & -> & Hkv%Hin); by eexists|].
    intros [v Hv%Hin]. by exists (k, v). }
  destruct (visits_seen order Hnd (filter (fun kv => kv.1 ∈ order.*1) lastSeen, w)) as [Hs Hother].
  assert (forall k, seen st.1 k = default "" (configs !! k)) as Hseen.
  { intros k. destruct (configs !! k) as [v|] eqn:E; [by apply Hs, Hin|].
    unfold seen. unfold st, poll. cbn [fst snd]. rewrite Hother by (rewrite Hkeys, E; by intros []). cbn [fst].
    rewrite (proj2 (map_lookup_filter_None _ _ _)); [done|]. right. intros v _ Hk%Hkeys. simpl in Hk. rewrite E in Hk. by destruct Hk. }
  assert (forall k, configs !! k = None -> st.1 !! k = None) as Hgone.
  { intros k E. unfold st, poll. cbn [fst snd]. rewrite Hother by (rewrite Hkeys, E; by intros []). cbn [fst].
    apply map_lookup_filter_None. right. intros v _ Hk%Hkeys. simpl in Hk. rewrite E in Hk. by destruct Hk. }
  split; [|split; [done|split; [done|]]].
  - unfold st, poll. cbn [fst snd]. rewrite visits_world, Hmap by done. apply polled_seen. intros k v Hk.
    apply seen_filter, Hkeys. by eexists.
  - unfold poll at 1. assert (filter (fun kv => kv.1 ∈ order'.*1) st.1 = st.1) as ->.
    { apply map_filter_id. intros k v Hkv. simpl. rewrite Ho', <- Ho. apply Hkeys.
      destruct (configs !! k) eqn:E; [by eexists|]. by rewrite (Hgone _ E) in Hkv. }
    rewrite <- surjective_pairing. apply visits_stable. intros k v. rewrite Ho', <- Ho, Hin. intros Hk. by rewrite Hseen, Hk.
Qed.
End Watcher.

(** ** A poll to run on *)

Definition sample_configs : gmap string string := {["batch_size" := "250"; "is_active" := "off"; "indexing_interval_ms" := "x"]}.

(** An activation that is just a flag. *)
#[local] Instance flag_activation : ActivationController bool.
Proof. refine {| ac_IsActive := id; ac_Activate := fun _ => true; ac_Deactivate := fun _ => false |}; done. Defined.

Lemma poll_settles_witness :
  let order := map_to_list sample_configs in
  let w := (New "base" "mainnet" 100 1000, Some true) in
  let st := poll (Some order) (∅, w) in
  (c_batchSize st.2.1 = 250 /\ c_intervalNs st.2.1 = 1000 /\ st.2.2 = Some false) /\
  st.2 = polled ∅ sample_configs w /\
  (forall k, seen st.1 k = default "" (sample_configs !! k)) /\ (forall k, sample_configs !! k = None -> st.1 !! k = None) /\
  poll (Some (reverse order)) st = st.
Proof.
  split; [vm_compute; done|].
  refine (poll_settles sample_configs (map_to_list sample_configs) (reverse (map_to_list sample_configs)) ∅
           (New "base" "mainnet" 100 1000, Some true) _ _ _).
  - reflexivity.
  - apply reverse_Permutation.
  - unfold canonical_keys. rewrite <- Forall_forall. apply (bool_decide_unpack _). vm_compute. exact I.
Defined.
