(* ===== verification/Lifecycle.v ===== *)
(** * Lifecycle of a pipeline: [internal/pipeline/pipeline.go]

    The loop of [Pipeline.Run] as a state machine: it starts the stages, stops them for a
    replay, a backfill or a deactivation, and restarts them after failures.  The stages of
    one run, the operator and the watcher of the runtime configuration act between any two
    steps of the loop. *)

From Stdlib Require Import ZArith String Lia.
From stdpp Require Import base option list strings.
From S2P Require Import Prelude Domain Retry Coordinator Replay PipelineHealth ConfigWatcher.

Open Scope Z_scope.
Open Scope go_scope.

(** ** State *)

(** Why the loop stops a run. *)
Inductive stop_reason :=
| ForReplay (req : PurgeRequest)
| ForBackfill (req : BackfillRequest)
| ForDeactivation
| ForContext.

(** Where the loop is: at its head; past the check of activity; waiting for activation;
    activated; in the select over a run; waiting for a run it cancelled; in the backoff. *)
Inductive phase :=
| AtHead
| Starting
| Waiting
| Woken
| Selecting
| Stopping (why : stop_reason)
| BackingOff (d : Z)
| Returned (err : option go_error)
| Panicked.

(** [p_result] is the buffered error channel of a run. The two last fields are not in the
    code: the number of runs started, and for each message left in the channels between the
    stages the run that sent it. *)
Record Pipeline := {
  p_active : bool; p_stateFlag : Z; p_deactiveCh : bool; p_health : PipelineHealth; p_consecutiveFailures : Z;
  p_replayCh : option PurgeRequest; p_backfillCh : option BackfillRequest; p_cancelled : bool;
  p_phase : phase; p_workers : bool; p_result : option (option go_error);
  p_runs : nat; p_messages : list nat
}.

(** What the loop does to the rest of the system. [OPurge] carries the outcome. *)
Inductive output :=
| OStart
| OAlertUnhealthy (failures : Z)
| OAlertRecovery
| OPurge (req : PurgeRequest) (ok : bool)
| OClearBackfill (chain : Chain) (network : Network).

Definition with_phase (ph : phase) (p : Pipeline) : Pipeline :=
  {| p_active := p_active p; p_stateFlag := p_stateFlag p; p_deactiveCh := p_deactiveCh p; p_health := p_health p;
     p_consecutiveFailures := p_consecutiveFailures p; p_replayCh := p_replayCh p; p_backfillCh := p_backfillCh p;
     p_cancelled := p_cancelled p; p_phase := ph; p_workers := p_workers p; p_result := p_result p;
     p_runs := p_runs p; p_messages := p_messages p |}.

Definition with_health (h : PipelineHealth) (failures : Z) (p : Pipeline) : Pipeline :=
  {| p_active := p_active p; p_stateFlag := p_stateFlag p; p_deactiveCh := p_deactiveCh p; p_health := h;
     p_consecutiveFailures := failures; p_replayCh := p_replayCh p; p_backfillCh := p_backfillCh p;
     p_cancelled := p_cancelled p; p_phase := p_phase p; p_workers := p_workers p; p_result := p_result p;
     p_runs := p_runs p; p_messages := p_messages p |}.

Definition with_requests (deactive : bool) (rp : option PurgeRequest) (bf : option BackfillRequest) (p : Pipeline) : Pipeline :=
  {| p_active := p_active p; p_stateFlag := p_stateFlag p; p_deactiveCh := deactive; p_health := p_health p;
     p_consecutiveFailures := p_consecutiveFailures p; p_replayCh := rp; p_backfillCh := bf;
     p_cancelled := p_cancelled p; p_phase := p_phase p; p_workers := p_workers p; p_result := p_result p;
     p_runs := p_runs p; p_messages := p_messages p |}.

(** The goroutine of a run. *)
Definition with_run (workers : bool) (res : option (option go_error)) (runs : nat) (messages : list nat) (p : Pipeline) : Pipeline :=
  {| p_active := p_active p; p_stateFlag := p_stateFlag p; p_deactiveCh := p_deactiveCh p; p_health := p_health p;
     p_consecutiveFailures := p_consecutiveFailures p; p_replayCh := p_replayCh p; p_backfillCh := p_backfillCh p;
     p_cancelled := p_cancelled p; p_phase := p_phase p; p_workers := workers; p_result := res;
     p_runs := runs; p_messages := messages |}.

Definition with_cancelled (p : Pipeline) : Pipeline :=
  {| p_active := p_active p; p_stateFlag := p_stateFlag p; p_deactiveCh := p_deactiveCh p; p_health := p_health p;
     p_consecutiveFailures := p_consecutiveFailures p; p_replayCh := p_replayCh p; p_backfillCh := p_backfillCh p;
     p_cancelled := true; p_phase := p_phase p; p_workers := p_workers p; p_result := p_result p;
     p_runs := p_runs p; p_messages := p_messages p |}.

Definition with_active (active : bool) (flag : Z) (token : bool) (h : PipelineHealth) (p : Pipeline) : Pipeline :=
  {| p_active := active; p_stateFlag := flag; p_deactiveCh := token; p_health := h;
     p_consecutiveFailures := p_consecutiveFailures p; p_replayCh := p_replayCh p; p_backfillCh := p_backfillCh p;
     p_cancelled := p_cancelled p; p_phase := p_phase p; p_workers := p_workers p; p_result := p_result p;
     p_runs := p_runs p; p_messages := p_messages p |}.

(** [New]: the health threshold of the configuration, when positive. *)
Definition New (chain : Chain) (network : Network) (unhealthyThreshold : Z) : Pipeline :=
  {| p_active := true; p_stateFlag := 1; p_deactiveCh := false;
     p_health := set_threshold unhealthyThreshold (NewPipelineHealth chain network); p_consecutiveFailures := 0;
     p_replayCh := None; p_backfillCh := None; p_cancelled := false; p_phase := AtHead; p_workers := false;
     p_result := None; p_runs := 0; p_messages := [] |}.

(** The size of a channel: of the stage, of all stages, or the default. *)
Definition buffer_size (stage fallback dflt : Z) : Z :=
  if 0 <? stage then stage else if 0 <? fallback then fallback else dflt.

(** ** Operations *)

Definition Deactivate (p : Pipeline) : Pipeline :=
  if p_active p then with_active false 0 true (SetStatus HealthStatusInactive (p_health p)) p else p.

Definition Activate (p : Pipeline) : Pipeline :=
  if p_active p then p else with_active true 1 (p_deactiveCh p) (p_health p) p.

#[export] Instance pipeline_activation : ActivationController Pipeline.
Proof.
  refine {| ac_IsActive := p_active; ac_Activate := Activate; ac_Deactivate := Deactivate |}.
  - intros p. unfold Activate. by destruct (p_active p) eqn:E.
  - intros p. unfold Deactivate. by destruct (p_active p) eqn:E.
Defined.

Definition maxRestartBackoff : Z := 300 * 10 ^ 9.

(** [time.Second << failures] in 64 bits, at most five minutes. *)
Definition calcRestartBackoff (failures : Z) : Z :=
  let d := wrap64 (10 ^ 9 * 2 ^ failures) in if maxRestartBackoff <? d then maxRestartBackoff else d.

Definition canceled_err : go_error := ECanceled.

(** The end of a run, with an alerter or without. *)
Definition run_ended (has_alerter : bool) (now : Z) (err : option go_error) (p : Pipeline) : list output * Pipeline :=
  match err with
  | Some e =>
      if is_canceled e then
        let '(recovered, h) := RecordSuccessWithRecovery now (p_health p) in
        (if recovered && has_alerter then [OAlertRecovery] else [], with_phase (Returned None) (with_health h 0 p))
      else
        let failures := p_consecutiveFailures p ⊕ 1 in
        let '(becameUnhealthy, h) := RecordFailure now (p_health p) in
        (if becameUnhealthy && has_alerter then [OAlertUnhealthy (ph_consecutiveFailures h)] else [],
         with_phase (BackingOff (calcRestartBackoff failures)) (with_health h failures p))
  | None =>
      let '(recovered, h) := RecordSuccessWithRecovery now (p_health p) in
      (if recovered && has_alerter then [OAlertRecovery] else [], with_phase (Returned None) (with_health h 0 p))
  end.

Definition backfill_purge (req : BackfillRequest) : PurgeRequest :=
  {| pr_Chain := bf_Chain req; pr_Network := bf_Network req; pr_FromBlock := bf_FromBlock req; pr_DryRun := false;
     pr_Force := true; pr_Reason := "address backfill" |}.

(** What follows once a cancelled run has ended; [purged] is the outcome of the purge.  A
    replay without a replay service dereferences a nil pointer. *)
Definition run_stopped (has_replay : bool) (purged : bool) (why : stop_reason) (p : Pipeline) : list output * Pipeline :=
  match why with
  | ForReplay req => if has_replay then ([OPurge req purged], with_phase AtHead p) else ([], with_phase Panicked p)
  | ForBackfill req =>
      ((if has_replay then [OPurge (backfill_purge req) purged] else []) ++ [OClearBackfill (bf_Chain req) (bf_Network req)],
       with_phase AtHead p)
  | ForDeactivation => ([], with_phase AtHead p)
  | ForContext => ([], with_phase (Returned (Some canceled_err)) p)
  end.

(** The run is started, with the channels drained first. *)
Definition start_run (p : Pipeline) : Pipeline :=
  with_phase Selecting
    (with_health (SetStatus HealthStatusHealthy (p_health p)) (p_consecutiveFailures p)
       (with_run true None (S (p_runs p)) [] p)).

(** ** Steps *)

Section Steps.
Context (has_alerter has_replay : bool).

Inductive step : Pipeline -> list output -> Pipeline -> Prop :=
(* the loop *)
| s_head_cancelled p : p_phase p = AtHead -> p_cancelled p = true ->
    step p [] (with_phase (Returned (Some canceled_err)) p)
| s_head_active p : p_phase p = AtHead -> p_cancelled p = false -> p_active p = true -> step p [] (with_phase Starting p)
| s_head_inactive p : p_phase p = AtHead -> p_cancelled p = false -> p_active p = false -> step p [] (with_phase Waiting p)
| s_wake p : p_phase p = Waiting -> p_cancelled p = false -> p_stateFlag p <> 0 -> step p [] (with_phase Woken p)
| s_wake_cancelled p : p_phase p = Waiting \/ p_phase p = Woken -> p_cancelled p = true ->
    step p [] (with_phase (Returned (Some canceled_err)) p)
| s_woken p : p_phase p = Woken ->
    step p [] (with_phase AtHead (with_health (SetStatus HealthStatusHealthy (p_health p)) (p_consecutiveFailures p) p))
| s_start p : p_phase p = Starting -> step p [OStart] (start_run p)
| s_ended p now err : p_phase p = Selecting -> p_result p = Some err ->
    step p (run_ended has_alerter now err (with_run (p_workers p) None (p_runs p) (p_messages p) p)).1
           (run_ended has_alerter now err (with_run (p_workers p) None (p_runs p) (p_messages p) p)).2
| s_replay p req : p_phase p = Selecting -> p_replayCh p = Some req ->
    step p [] (with_phase (Stopping (ForReplay req)) (with_requests (p_deactiveCh p) None (p_backfillCh p) p))
| s_backfill p req : p_phase p = Selecting -> p_backfillCh p = Some req ->
    step p [] (with_phase (Stopping (ForBackfill req)) (with_requests (p_deactiveCh p) (p_replayCh p) None p))
| s_deactivation p : p_phase p = Selecting -> p_deactiveCh p = true ->
    step p [] (with_phase (Stopping ForDeactivation) (with_requests false (p_replayCh p) (p_backfillCh p) p))
| s_context p : p_phase p = Selecting -> p_cancelled p = true -> step p [] (with_phase (Stopping ForContext) p)
| s_stopped p why err purged : p_phase p = Stopping why -> p_result p = Some err ->
    step p (run_stopped has_replay purged why (with_run (p_workers p) None (p_runs p) (p_messages p) p)).1
           (run_stopped has_replay purged why (with_run (p_workers p) None (p_runs p) (p_messages p) p)).2
| s_backoff p d : p_phase p = BackingOff d -> step p [] (with_phase AtHead p)
| s_backoff_cancelled p d : p_phase p = BackingOff d -> p_cancelled p = true ->
    step p [] (with_phase (Returned (Some canceled_err)) p)
(* the stages of the run: messages between them, its end, a backfill of the coordinator, and
   the watcher of the configuration *)
| s_messages p messages : p_workers p = true -> (forall m, m ∈ messages -> m ∈ p_messages p \/ m = p_runs p) ->
    step p [] (with_run true (p_result p) (p_runs p) messages p)
| s_run_ends p err : p_workers p = true -> step p [] (with_run false (Some err) (p_runs p) (p_messages p) p)
| s_request_backfill p req : p_workers p = true -> p_backfillCh p = None ->
    step p [] (with_requests (p_deactiveCh p) (p_replayCh p) (Some req) p)
| s_watcher p value : p_workers p = true -> step p [] (apply_is_active value p)
(* the rest of the process *)
| s_request_replay p req : p_replayCh p = None -> step p [] (with_requests (p_deactiveCh p) (Some req) (p_backfillCh p) p)
| s_cancel p : step p [] (with_cancelled p).

(** An operator who calls the pipeline, as no code of the repository does. *)
Inductive operator_step : Pipeline -> list output -> Pipeline -> Prop :=
| o_step p outs p' : step p outs p' -> operator_step p outs p'
| o_activate p : operator_step p [] (Activate p)
| o_deactivate p : operator_step p [] (Deactivate p).

Inductive run_from (rel : Pipeline -> list output -> Pipeline -> Prop) (p : Pipeline) : list output -> Pipeline -> Prop :=
| r_refl : run_from rel p [] p
| r_step outs q outs' r : run_from rel p outs q -> rel q outs' r -> run_from rel p (outs ++ outs') r.
End Steps.
