(* ===== verification/LifecycleProofs.v ===== *)
(** * Lifecycle of a pipeline: properties

    Nothing is purged while stages run and no run reads what an earlier one left; what the
    loop reports of failures and recoveries; a deactivated pipeline stays so; the backoff
    vanishes after many failures. *)

From Stdlib Require Import ZArith String Lia.
From stdpp Require Import base option list strings sets.
From S2P Require Import Prelude Domain Retry Coordinator Replay PipelineHealth ConfigWatcher Lifecycle.

Open Scope Z_scope.
Open Scope go_scope.

(** The phases with a run, and those that may start one without another check. *)
Definition over_run (ph : phase) : bool := match ph with Selecting | Stopping _ => true | _ => false end.
Definition about_to_run (ph : phase) : bool := match ph with Starting | Selecting => true | _ => false end.

Record inv (threshold : Z) (p : Pipeline) : Prop := {
  i_flag : p_stateFlag p = if p_active p then 1 else 0;
  i_workers : p_workers p = true -> over_run (p_phase p) = true /\ p_result p = None;
  i_result : forall err, p_result p = Some err -> p_workers p = false;
  i_messages : p_workers p = true -> forall m, m ∈ p_messages p -> m = p_runs p;
  i_token : p_active p = false -> about_to_run (p_phase p) = true -> p_deactiveCh p = true;
  i_status : p_phase p = Selecting -> ph_status (p_health p) <> HealthStatusUnhealthy;
  i_failures : ph_consecutiveFailures (p_health p) = p_consecutiveFailures p;
  i_threshold : ph_unhealthyThreshold (p_health p) = threshold
}.

Lemma new_inv chain network t : inv (if 0 <? t then t else DefaultUnhealthyThreshold) (New chain network t).
Proof. by split. Qed.

Lemma deactivate_inv t p : inv t p -> inv t (Deactivate p).
Proof. intros Hi. unfold Deactivate. destruct (p_active p); [|exact Hi]. destruct Hi. by split. Qed.

Lemma activate_inv t p : inv t p -> inv t (Activate p).
Proof. intros Hi. unfold Activate. destruct (p_active p); [exact Hi|]. destruct Hi. by split. Qed.

Lemma is_active_inv t value p : inv t p -> inv t (apply_is_active value p).
Proof.
  intros Hi. unfold apply_is_active. cbv zeta. cbn [ac_IsActive ac_Activate ac_Deactivate pipeline_activation].
  destruct (str_in _ _); [destruct (p_active p); [by apply deactivate_inv|done]|].
  destruct (str_in _ _); [destruct (p_active p); [done|by apply activate_inv]|done].
Qed.

(** The end of a run keeps the counters together. *)
Lemma ended_inv has_alerter now t err p : inv t p -> p_workers p = false ->
  inv t (run_ended has_alerter now err (with_run (p_workers p) None (p_runs p) (p_messages p) p)).2.
Proof.
  intros [H1 H2 H3 H4 H5 H6 H7 H8] Hw. unfold run_ended.
  destruct err as [e|]; [destruct (is_canceled e)|]; [|unfold RecordFailure; simpl; destruct (_ && _)|];
    split; simpl; rewrite ?Hw, ?H7; done.
Qed.

Lemma stopped_inv has_replay purged t why p : inv t p -> p_workers p = false ->
  inv t (run_stopped has_replay purged why (with_run (p_workers p) None (p_runs p) (p_messages p) p)).2.
Proof.
  intros [H1 H2 H3 H4 H5 H6 H7 H8] Hw. unfold run_stopped.
  destruct why; [destruct has_replay|..]; split; simpl; rewrite ?Hw; done.
Qed.

Section Steps.
Context (has_alerter has_replay : bool).

Lemma lifecycle_step_inv t p outs p' : inv t p -> step has_alerter has_replay p outs p' -> inv t p'.
Proof.
  intros Hi Hstep. destruct Hstep as [p Hp Hc|p Hp Hc Ha|p Hp Hc Ha|p Hp Hc Hf|p Hp Hc|p Hp|p Hp|p now err Hp Hr|p req Hp Hr|
    p req Hp Hr|p Hp Ht|p Hp Hc|p why err purged Hp Hr|p d Hp|p d Hp Hc|p messages Hw Hm|p err Hw|p req Hw Hb|p value Hw|p req Hr|p].
  all: try (apply is_active_inv, Hi).
  all: try (apply ended_inv; [done|by eapply i_result]).
  all: try (apply stopped_inv; [done|by eapply i_result]).
  all: try (destruct Hp as [Hp|Hp]).
  all: destruct Hi as [H1 H2 H3 H4 H5 H6 H7 H8]; split; simpl; rewrite ?Hp in *; try done.
  all: try (intros Hw; by destruct (H2 Hw)).
  - congruence.
  - by intros _ m ?%elem_of_nil.
  - intros _. by apply H2.
  - intros err Hr. rewrite (H3 _ Hr) in Hw. done.
  - intros _ m Hin. destruct (Hm m Hin) as [?|?]; [by apply H4|done].
Qed.

Lemma operator_inv t p outs p' : inv t p -> operator_step has_alerter has_replay p outs p' -> inv t p'.
Proof.
  intros Hi Hs. destruct Hs as [q o q' Hs|q|q]; [by eapply lifecycle_step_inv|by apply activate_inv|by apply deactivate_inv].
Qed.

Lemma lifecycle_reachable_inv t p outs p' : inv t p -> run_from (operator_step has_alerter has_replay) p outs p' -> inv t p'.
Proof. intros Hi. induction 1 as [|outs q outs' r _ IH Hs]; [done|]. by eapply operator_inv. Qed.

(** ** What the loop does *)

(** A step with an effect on the rest of the system finds no run alive. *)
Lemma output_quiet t p outs p' : inv t p -> operator_step has_alerter has_replay p outs p' -> outs <> [] -> p_workers p = false.
Proof.
  intros Hi Hstep Hne. destruct Hstep as [q o q' Hs| |]; [|done..].
  assert (p_workers q = true -> over_run (p_phase q) = true) as Hover by (intros Hw; by apply (i_workers _ _ Hi)).
  destruct Hs as [p Hp Hc|p Hp Hc Ha|p Hp Hc Ha|p Hp Hc Hf|p Hp Hc|p Hp|p Hp|p now err Hp Hr|p req Hp Hr|
    p req Hp Hr|p Hp Ht|p Hp Hc|p why err purged Hp Hr|p d Hp|p d Hp Hc|p messages Hw Hm|p err Hw|p req Hw Hb|p value Hw|p req Hr|p];
    try done; try (by eapply i_result).
  rewrite Hp in Hover. destruct (p_workers p); [by specialize (Hover eq_refl)|done].
Qed.

(** C11: whoever acts and whenever, the stages of an earlier run are gone when a run is
    started, when the watermark is rewound for a replay or a backfill, when backfill flags
    are cleared and when an alert is sent; and a run never finds a message that an earlier
    run left in the channels. *)
Theorem lifecycle_safe chain network t outs p : run_from (operator_step has_alerter has_replay) (New chain network t) outs p ->
  (forall outs' p', operator_step has_alerter has_replay p outs' p' -> outs' <> [] -> p_workers p = false) /\
  (p_workers p = true -> forall m, m ∈ p_messages p -> m = p_runs p).
Proof.
  intros Hr. pose proof (lifecycle_reachable_inv _ _ _ _ (new_inv chain network t) Hr) as Hi. split.
  - intros outs' p' Hs. by eapply output_quiet.
  - apply (i_messages _ _ Hi).
Qed.

(** The alerts at the end of a run. *)
Lemma ended_alerts t now err p : inv t p -> p_phase p = Selecting -> 0 <= p_consecutiveFailures p < max_int64 ->
  (run_ended true now err p).1 =
  match err with
  | Some e => if is_canceled e then []
              else if t <=? p_consecutiveFailures p + 1 then [OAlertUnhealthy (p_consecutiveFailures p + 1)] else []
  | None => []
  end.
Proof.
  intros Hi Hp Hb. pose proof (i_status _ _ Hi Hp) as Hs. pose proof (i_failures _ _ Hi) as Hf. pose proof (i_threshold _ _ Hi) as Ht.
  unfold run_ended. assert (bool_decide (ph_status (p_health p) = HealthStatusUnhealthy) = false) as Hu by (by apply bool_decide_eq_false).
  destruct err as [e|]; [destruct (is_canceled e)|].
  - simpl. by rewrite Hu.
  - unfold RecordFailure. rewrite Hu, Hf, Ht, wrap64_id by (unfold in_int64, min_int64, max_int64 in *; lia).
    by destruct (t <=? p_consecutiveFailures p + 1).
  - simpl. by rewrite Hu.
Qed.
End Steps.

Lemma consumed_inv t p : inv t p -> p_workers p = false -> inv t (with_run (p_workers p) None (p_runs p) (p_messages p) p).
Proof. intros [H1 H2 H3 H4 H5 H6 H7 H8] Hw. split; simpl; rewrite ?Hw; done. Qed.

Lemma run_from_operator has_alerter has_replay p outs p' : run_from (step has_alerter has_replay) p outs p' ->
  run_from (operator_step has_alerter has_replay) p outs p'.
Proof. induction 1 as [|outs q outs' r _ IH Hs]; [constructor|]. eapply r_step; [exact IH|by apply o_step]. Qed.

Section Alerts.
Context (has_replay : bool).

(** Also: no recovery is ever alerted, as every run starts by setting the status to healthy;
    and for the same reason not only the failure that reaches the threshold but every later
    one of the same series is alerted as a transition to unhealthy. *)
Theorem recovery_never_alerted chain network t outs p : 0 < t ->
  run_from (operator_step true has_replay) (New chain network t) outs p -> 0 <= p_consecutiveFailures p < max_int64 ->
  (forall outs' p', operator_step true has_replay p outs' p' -> OAlertRecovery ∉ outs') /\
  (forall e, p_phase p = Selecting -> p_result p = Some (Some e) -> is_canceled e = false -> t <= p_consecutiveFailures p + 1 ->
   exists p', operator_step true has_replay p [OAlertUnhealthy (p_consecutiveFailures p + 1)] p').
Proof.
  intros Hpos Hr Hb. pose proof (lifecycle_reachable_inv _ _ _ _ _ _ (new_inv chain network t) Hr) as Hi.
  rewrite (proj2 (Z.ltb_lt 0 t)) in Hi by done. split.
  - intros outs' p' Hs. destruct Hs as [q o q' Hs| |]; [|apply not_elem_of_nil..].
    destruct Hs; try apply not_elem_of_nil.
    + rewrite elem_of_cons, elem_of_nil. naive_solver.
    + erewrite ended_alerts; [|apply consumed_inv; [exact Hi|by eapply i_result]|done|done].
      destruct err as [e|]; [|apply not_elem_of_nil]. destruct (is_canceled e); [apply not_elem_of_nil|].
      destruct (_ <=? _); [|apply not_elem_of_nil]. rewrite elem_of_cons, elem_of_nil. naive_solver.
    + unfold run_stopped. destruct why; [destruct has_replay|destruct has_replay|..]; simpl;
        rewrite ?elem_of_cons, ?elem_of_nil; naive_solver.
  - intros e Hp He Hc Ht. eexists. apply o_step.
    pose proof (s_ended true has_replay p 0 (Some e) Hp He) as Hs.
    rewrite (ended_alerts t 0 (Some e)) in Hs; [|apply consumed_inv; [exact Hi|by eapply i_result]|done|done].
    rewrite Hc in Hs. simpl in Hs. rewrite (proj2 (Z.leb_le _ _)) in Hs by done. exact Hs.
Qed.
End Alerts.

(** ** A deactivated pipeline *)

(** A waiting pipeline that no run can wake, or one that returned. *)
Definition dormant (p : Pipeline) : Prop :=
  p_workers p = false /\ ((p_phase p = Waiting /\ p_stateFlag p = 0) \/ exists err, p_phase p = Returned err).

Lemma dormant_step has_alerter has_replay p outs p' : dormant p -> step has_alerter has_replay p outs p' -> dormant p' /\ outs = [].
Proof.
  intros [Hw Hd] Hs. unfold dormant.
  destruct Hs as [p Hp Hc|p Hp Hc Ha|p Hp Hc Ha|p Hp Hc Hf|p Hp Hc|p Hp|p Hp|p now err Hp Hr|p req Hp Hr|
    p req Hp Hr|p Hp Ht|p Hp Hc|p why err purged Hp Hr|p d Hp|p d Hp Hc|p messages Hw' Hm|p err Hw'|p req Hw' Hb|p value Hw'|p req Hr|p];
    simpl; try congruence; try (destruct Hd as [[Hd Hz]|[err' Hd]]; congruence); try (split; [|done]; split; [done|]); eauto.
Qed.

(** Also: once a pipeline that was deactivated through the runtime configuration waits, it
    never runs again, whatever the configuration says later: the watcher that would activate
    it is one of the stages that stopped. *)
Theorem deactivation_final has_alerter has_replay chain network t outs p outs' p' :
  run_from (step has_alerter has_replay) (New chain network t) outs p -> p_phase p = Waiting -> p_active p = false ->
  run_from (step has_alerter has_replay) p outs' p' ->
  outs' = [] /\ (p_phase p' = Waiting \/ exists err, p_phase p' = Returned err).
Proof.
  intros Hr Hp Ha Hr'. pose proof (lifecycle_reachable_inv _ _ _ _ _ _ (new_inv chain network t) (run_from_operator _ _ _ _ _ Hr)) as Hi.
  assert (dormant p) as Hd.
  { split; [|left; split; [done|by rewrite (i_flag _ _ Hi), Ha]]. destruct (p_workers p) eqn:Hw; [|done].
    destruct (i_workers _ _ Hi Hw) as [Ho _]. by rewrite Hp in Ho. }
  clear Hr. assert (dormant p' /\ outs' = []) as [[_ Hd'] ->].
  { induction Hr' as [|o q o' r _ IH Hs]; [done|]. destruct IH as [Hq ->]. by destruct (dormant_step _ _ _ _ _ Hq Hs) as [? ->]. }
  split; [done|]. destruct Hd' as [[? _]|?]; eauto.
Qed.

(** ** Restarts *)

(** Also: the pause before a restart doubles from two seconds on up to five minutes until
    the thirty-third failure in a row, is negative at the next, and from the fifty-fifth on
    there is none: the pipeline restarts in a loop. *)
Theorem backoff_vanishes failures :
  (0 <= failures <= 33 -> calcRestartBackoff failures = Z.min (10 ^ 9 * 2 ^ failures) maxRestartBackoff) /\
  calcRestartBackoff 34 < 0 /\
  (55 <= failures -> calcRestartBackoff failures = 0).
Proof.
  split; [|split].
  - intros Hf. unfold calcRestartBackoff. assert (1 <= 2 ^ failures) by (apply (Z.pow_le_mono_r 2 0); lia).
    assert (2 ^ failures <= 2 ^ 33) by (apply Z.pow_le_mono_r; lia).
    rewrite wrap64_id by (unfold in_int64, min_int64, max_int64; lia). destruct (Z.ltb_spec maxRestartBackoff (10 ^ 9 * 2 ^ failures)); lia.
  - vm_compute. done.
  - intros Hf. unfold calcRestartBackoff. replace failures with (55 + (failures - 55)) by lia. rewrite Z.pow_add_r by lia.
    unfold wrap64. replace (10 ^ 9 * (2 ^ 55 * 2 ^ (failures - 55)) + 2 ^ 63) with (2 ^ 63 + (5 ^ 9 * 2 ^ (failures - 55)) * 2 ^ 64) by lia.
    rewrite Z.mod_add by lia. done.
Qed.

(** ** Runs *)

(** A pipeline whose first run is alive. *)
Definition first_run (chain : Chain) (network : Network) (t : Z) : Pipeline := start_run (with_phase Starting (New chain network t)).

Lemma first_run_reached has_alerter has_replay chain network t :
  run_from (step has_alerter has_replay) (New chain network t) [OStart] (first_run chain network t).
Proof.
  change [OStart] with (([] ++ []) ++ [OStart]). eapply r_step; [eapply r_step; [constructor|]|].
  - by apply s_head_active.
  - by apply s_start.
Qed.

(** Also: when the purge of a backfill fails, the backfill flags are cleared all the same and
    the pipeline goes on from its old watermark: the request is lost. *)
Theorem failed_backfill_lost chain network t req :
  exists p, run_from (step true true) (New chain network t)
    [OStart; OPurge (backfill_purge req) false; OClearBackfill (bf_Chain req) (bf_Network req)] p /\
    p_phase p = AtHead /\ p_backfillCh p = None /\ p_cancelled p = false /\ p_active p = true.
Proof.
  set (p0 := first_run chain network t).
  set (p1 := with_requests (p_deactiveCh p0) (p_replayCh p0) (Some req) p0).
  set (p2 := with_phase (Stopping (ForBackfill req)) (with_requests (p_deactiveCh p1) (p_replayCh p1) None p1)).
  set (p3 := with_run false (Some (Some canceled_err)) (p_runs p2) (p_messages p2) p2).
  exists (run_stopped true false (ForBackfill req) (with_run (p_workers p3) None (p_runs p3) (p_messages p3) p3)).2.
  split; [|done].
  change [OStart; OPurge (backfill_purge req) false; OClearBackfill (bf_Chain req) (bf_Network req)] with
    (((([OStart] ++ []) ++ []) ++ []) ++
     (run_stopped true false (ForBackfill req) (with_run (p_workers p3) None (p_runs p3) (p_messages p3) p3)).1).
  eapply r_step; [eapply r_step; [eapply r_step; [eapply r_step; [apply first_run_reached|]|]|]|].
  - by apply s_request_backfill.
  - by apply (s_backfill true true p1 req).
  - by apply (s_run_ends true true p2).
  - by apply (s_stopped true true p3 (ForBackfill req) (Some canceled_err)).
Qed.

Lemma lifecycle_safe_witness :
  let p := first_run "base" "mainnet" 5 in
  (forall outs' p', operator_step true true p outs' p' -> outs' <> [] -> p_workers p = false) /\
  (p_workers p = true -> forall m, m ∈ p_messages p -> m = p_runs p).
Proof.
  exact (lifecycle_safe true true "base" "mainnet" 5 [OStart] (first_run "base" "mainnet" 5)
           (run_from_operator _ _ _ _ _ (first_run_reached true true "base" "mainnet" 5))).
Defined.

(** The first run fails, with a threshold of one. *)
Definition failed_run : Pipeline :=
  with_run false (Some (Some (EMsg "stage failed"))) 1 [] (first_run "base" "mainnet" 1).

Lemma failed_run_reached : run_from (step true true) (New "base" "mainnet" 1) [OStart] failed_run.
Proof.
  change [OStart] with ([OStart] ++ []). eapply r_step; [apply first_run_reached|].
  by apply (s_run_ends true true (first_run "base" "mainnet" 1)).
Qed.

Lemma recovery_never_alerted_witness :
  (forall outs' p', operator_step true true failed_run outs' p' -> OAlertRecovery ∉ outs') /\
  exists p', operator_step true true failed_run [OAlertUnhealthy 1] p'.
Proof.
  destruct (recovery_never_alerted true "base" "mainnet" 1 [OStart] failed_run) as [H1 H2].
  - lia.
  - apply run_from_operator, failed_run_reached.
  - vm_compute. split; congruence.
  - split; [exact H1|]. exact (H2 (EMsg "stage failed") eq_refl eq_refl eq_refl ltac:(vm_compute; congruence)).
Defined.

(** A pipeline deactivated by its own watcher, up to the wait. *)
Definition waiting_pipeline : Pipeline :=
  with_phase Waiting (with_phase AtHead (with_run false None 1 []
    (with_phase (Stopping ForDeactivation) (with_requests false None None
       (apply_is_active "false" (first_run "base" "mainnet" 5)))))).

Lemma waiting_reached : run_from (step true true) (New "base" "mainnet" 5) [OStart] waiting_pipeline.
Proof.
  set (p0 := first_run "base" "mainnet" 5). set (p1 := apply_is_active "false" p0).
  set (p2 := with_phase (Stopping ForDeactivation) (with_requests false (p_replayCh p1) (p_backfillCh p1) p1)).
  set (p3 := with_run false (Some None) (p_runs p2) (p_messages p2) p2).
  change [OStart] with ((((([OStart] ++ []) ++ []) ++ []) ++ []) ++ []).
  eapply r_step; [eapply r_step; [eapply r_step; [eapply r_step; [eapply r_step; [apply first_run_reached|]|]|]|]|].
  - by apply (s_watcher true true p0 "false").
  - by apply (s_deactivation true true p1).
  - by apply (s_run_ends true true p2 None).
  - by apply (s_stopped true true p3 ForDeactivation None true).
  - by apply (s_head_inactive true true).
Qed.

Lemma deactivation_final_witness :
  [] = ([] : list output) /\
  (p_phase (with_cancelled waiting_pipeline) = Waiting \/ exists err, p_phase (with_cancelled waiting_pipeline) = Returned err).
Proof.
  refine (deactivation_final true true "base" "mainnet" 5 [OStart] waiting_pipeline ([] ++ []) (with_cancelled waiting_pipeline)
           waiting_reached eq_refl eq_refl _).
  eapply r_step; [constructor|apply s_cancel].
Defined.

Lemma backoff_vanishes_witness : calcRestartBackoff 1 = 2 * 10 ^ 9 /\ calcRestartBackoff 55 = 0.
Proof.
  split.
  - exact (proj1 (backoff_vanishes 1) ltac:(lia)).
  - exact (proj2 (proj2 (backoff_vanishes 55)) ltac:(lia)).
Defined.
