(* ===== verification/Alerter.v ===== *)
(** * Alerts (src/internal/alert/alerter.go)

    The fan-out with its cooldown and its rule for changes of state, and the
    payloads of the two channels.  Posting a payload is a parameter that
    answers a status code, or nothing when the request fails. *)

From S2P Require Import Prelude Json.
From Stdlib Require Import ZArith Lia Ascii String.
From stdpp Require Import base option list strings gmap.

Open Scope Z_scope.

Definition AlertTypeUnhealthy : string := "UNHEALTHY".
Definition AlertTypeRecovery : string := "RECOVERY".
Definition AlertTypeReorg : string := "REORG".
Definition AlertTypeScamToken : string := "SCAM_TOKEN".
Definition AlertTypeReconcileErr : string := "RECONCILE_MISMATCH".
Definition AlertTypeDBPool : string := "DB_POOL".
Definition AlertTypeNegativeBalance : string := "NEGATIVE_BALANCE".

Definition alert_types : list string :=
  [AlertTypeUnhealthy; AlertTypeRecovery; AlertTypeReorg; AlertTypeScamToken; AlertTypeReconcileErr;
   AlertTypeDBPool; AlertTypeNegativeBalance].

(** [Fields] is nil when there are none: no caller passes an empty map. *)
Record Alert := {
  al_Type : string;
  al_Chain : string;
  al_Network : string;
  al_Title : string;
  al_Message : string;
  al_Fields : gmap string string
}.

(** ** Channels *)

Inductive channel := SlackAlerter (webhookURL : string) | WebhookAlerter (url : string).

Definition alerterName (c : channel) : string :=
  match c with SlackAlerter _ => "slack" | WebhookAlerter _ => "webhook" end.

Definition slack_emoji (alertType : string) : string :=
  if str_eqb alertType AlertTypeRecovery then ":white_check_mark:"
  else if str_eqb alertType AlertTypeReorg then ":rotating_light:"
  else if str_eqb alertType AlertTypeScamToken then ":no_entry:"
  else if str_eqb alertType AlertTypeReconcileErr then ":scales:"
  else if str_eqb alertType AlertTypeDBPool then ":hourglass_flowing_sand:"
  else if str_eqb alertType AlertTypeNegativeBalance then ":chart_with_downwards_trend:"
  else ":warning:".

Definition newline : string := String "010" EmptyString.

(** The fields in the order the map iteration gives them. *)
Definition slack_text (a : Alert) (fields : list (string * string)) : string :=
  (slack_emoji (al_Type a) +:+ " *[" +:+ al_Type a +:+ "]* " +:+ al_Chain a +:+ "/" +:+ al_Network a +:+ ": " +:+
   al_Title a +:+ newline +:+ al_Message a +:+
   match fields with
   | [] => ""
   | _ => newline +:+ String.concat "" ((fun kv => "- *" +:+ kv.1 +:+ "*: " +:+ kv.2 +:+ newline) <$> fields)
   end)%string.

Definition slack_body (a : Alert) (fields : list (string * string)) : string :=
  marshal_map {[ "text" := slack_text a fields ]}.

(** The members of a marshalled map are in the order of their names. *)
Definition webhook_body (a : Alert) (time : string) : string :=
  json_fields [json_field "chain" (json_str (al_Chain a)); json_field "fields" (marshal_metadata (al_Fields a));
    json_field "message" (json_str (al_Message a)); json_field "network" (json_str (al_Network a));
    json_field "time" (json_str time); json_field "title" (json_str (al_Title a));
    json_field "type" (json_str (al_Type a))].

Inductive send_error := RequestFailed | StatusRejected (code : Z).

Definition post_result (status : option Z) : option send_error :=
  match status with
  | None => Some RequestFailed
  | Some code => if (code <? 200) || (300 <=? code) then Some (StatusRejected code) else None
  end.

(** What a channel posts and how it judges the answer.  [iter] is the order of
    a map iteration and [time] the formatted clock. *)
Definition channel_send (post : string -> string -> option Z) (iter : gmap string string -> list (string * string))
    (time : string) (c : channel) (a : Alert) : option send_error :=
  match c with
  | SlackAlerter url => post_result (post url (slack_body a (iter (al_Fields a))))
  | WebhookAlerter url => post_result (post url (webhook_body a time))
  end.

(** ** The fan-out *)

Record MultiAlerter := {
  ma_alerters : list channel;
  ma_cooldown : Z;
  ma_lastSent : gmap string Z;
  ma_lastAlertType : gmap string string
}.

Definition NewMultiAlerter (cooldown : Z) (alerters : list channel) : MultiAlerter :=
  {| ma_alerters := alerters; ma_cooldown := cooldown; ma_lastSent := ∅; ma_lastAlertType := ∅ |}.

Definition stateKey (a : Alert) : string := (al_Chain a +:+ ":" +:+ al_Network a)%string.
Definition cooldownKey (a : Alert) : string := (al_Type a +:+ ":" +:+ al_Chain a +:+ ":" +:+ al_Network a)%string.

(** Whether the cooldown suppresses an alert at time [now]. *)
Definition suppressed (m : MultiAlerter) (now : Z) (a : Alert) : bool :=
  let stateChanged := match ma_lastAlertType m !! stateKey a with
                      | Some prevType => negb (str_eqb prevType (al_Type a))
                      | None => false
                      end in
  negb stateChanged &&
  match ma_lastSent m !! cooldownKey a with
  | Some last => now - last <? ma_cooldown m
  | None => false
  end.

Fixpoint first_error (l : list (option send_error)) : option send_error :=
  match l with
  | [] => None
  | Some e :: _ => Some e
  | None :: l' => first_error l'
  end.

(** The state is updated before the channels are tried, and whatever they
    answer.  Returns whether the alert was dispatched, and the first error. *)
Definition Send (channel_result : channel -> Alert -> option send_error) (now : Z) (a : Alert) (m : MultiAlerter)
  : bool * option send_error * MultiAlerter :=
  if suppressed m now a then (false, None, m)
  else
    (true, first_error ((fun c => channel_result c a) <$> ma_alerters m),
     {| ma_alerters := ma_alerters m; ma_cooldown := ma_cooldown m;
        ma_lastSent := <[cooldownKey a := now]> (ma_lastSent m);
        ma_lastAlertType := <[stateKey a := al_Type a]> (ma_lastAlertType m) |}).

(** A sequence of alerts at their times: which ones are dispatched. *)
Fixpoint Sends (channel_result : channel -> Alert -> option send_error) (l : list (Z * Alert)) (m : MultiAlerter)
  : list bool * MultiAlerter :=
  match l with
  | [] => ([], m)
  | (now, a) :: l' =>
      let '(b, _, m') := Send channel_result now a m in
      let '(bs, m'') := Sends channel_result l' m' in
      (b :: bs, m'')
  end.

(** ** What it promises

    The specification remembers the alerts dispatched, newest first. *)

Definition latest (p : Alert -> bool) (dispatched : list (Z * Alert)) : option (Z * Alert) :=
  head (filter (fun x => p x.2 = true) dispatched).

Definition same_state (a b : Alert) : bool := str_eqb (stateKey a) (stateKey b).

(** An alert is held back when the last one of its chain and network had the
    same type and is younger than the cooldown. *)
Definition held_back (cooldown : Z) (dispatched : list (Z * Alert)) (now : Z) (a : Alert) : bool :=
  match latest (same_state a) dispatched with
  | Some (last, b) => str_eqb (al_Type b) (al_Type a) && (now - last <? cooldown)
  | None => false
  end.

Fixpoint spec_sends (cooldown : Z) (dispatched : list (Z * Alert)) (l : list (Z * Alert)) : list bool :=
  match l with
  | [] => []
  | (now, a) :: l' =>
      if held_back cooldown dispatched now a
      then false :: spec_sends cooldown dispatched l'
      else true :: spec_sends cooldown ((now, a) :: dispatched) l'
  end.

(** The maps hold the type and the time of the latest dispatches. *)
Record reflects (dispatched : list (Z * Alert)) (m : MultiAlerter) : Prop := {
  re_typed : forall x, x ∈ dispatched -> al_Type x.2 ∈ alert_types;
  re_state : forall a, ma_lastAlertType m !! stateKey a = (fun x => al_Type x.2) <$> latest (same_state a) dispatched;
  re_sent : forall a, ma_lastSent m !! cooldownKey a =
              fst <$> latest (fun b => str_eqb (cooldownKey a) (cooldownKey b)) dispatched
}.

Lemma latest_cons p x l : latest p (x :: l) = if p x.2 then Some x else latest p l.
Proof. unfold latest. rewrite filter_cons. by destruct (p x.2). Qed.

Lemma type_no_colon t : t ∈ alert_types -> cut_on ":" t = None.
Proof.
  unfold alert_types. rewrite !elem_of_cons.
  by intros [-> |[-> |[-> |[-> |[-> |[-> |[-> |H]]]]]]]; [..|apply not_elem_of_nil in H].
Qed.

(** Types hold no colon, so a cooldown key determines type and state key. *)
Lemma cooldownKey_inj a b :
  al_Type a ∈ alert_types -> al_Type b ∈ alert_types ->
  cooldownKey a = cooldownKey b <-> al_Type a = al_Type b /\ stateKey a = stateKey b.
Proof.
  intros Ha%type_no_colon Hb%type_no_colon. split.
  - intros Hk. pose proof (cut_on_app _ _ (stateKey a) Ha) as H1.
    pose proof (cut_on_app _ _ (stateKey b) Hb) as H2.
    change (cut_on ":" (cooldownKey a) = Some (al_Type a, stateKey a)) in H1.
    change (cut_on ":" (cooldownKey b) = Some (al_Type b, stateKey b)) in H2.
    rewrite Hk, H2 in H1. by injection H1.
  - intros [Ht Hs]. unfold cooldownKey. by rewrite Ht; f_equal; f_equal.
Qed.

Lemma eqb_spec_str s t : str_eqb s t = true <-> s = t.
Proof. apply String.eqb_eq. Qed.

(** On the state of an alert, the latest dispatch with its key is the latest
    dispatch of the state when the types agree. *)
Lemma latest_key a l x :
  al_Type a ∈ alert_types -> (forall y, y ∈ l -> al_Type y.2 ∈ alert_types) ->
  latest (same_state a) l = Some x -> al_Type x.2 = al_Type a ->
  latest (fun b => str_eqb (cooldownKey a) (cooldownKey b)) l = Some x.
Proof.
  intros Ha. induction l as [|y l IH]; intros Hl; [done|]. rewrite !latest_cons.
  assert (Hy : al_Type y.2 ∈ alert_types) by (apply Hl; set_solver).
  pose proof (cooldownKey_inj a y.2 Ha Hy) as Hk. unfold same_state at 1.
  destruct (str_eqb (stateKey a) (stateKey y.2)) eqn:Es.
  - apply eqb_spec_str in Es. intros [= ->] Ht.
    rewrite (proj2 (eqb_spec_str _ _)); [done|]. apply Hk. auto.
  - intros Hx Ht. destruct (str_eqb (cooldownKey a) (cooldownKey y.2)) eqn:Ek; [|apply IH; [set_solver|done|done]].
    apply eqb_spec_str, Hk in Ek as [_ Hs]. apply eqb_spec_str in Hs. by rewrite Hs in Es.
Qed.

Lemma suppressed_spec dispatched m now a :
  reflects dispatched m -> al_Type a ∈ alert_types ->
  suppressed m now a = held_back (ma_cooldown m) dispatched now a.
Proof.
  intros [Hty Hst Hse] Ha. unfold suppressed, held_back. rewrite Hst, Hse.
  destruct (latest (same_state a) dispatched) as [[last b]|] eqn:El; simpl.
  - destruct (str_eqb (al_Type b) (al_Type a)) eqn:Et; [|done]. simpl.
    apply eqb_spec_str in Et. by rewrite (latest_key a dispatched (last, b)).
  - destruct (latest (fun b => str_eqb (cooldownKey a) (cooldownKey b)) dispatched) as [[last b]|] eqn:Ek; [|done].
    exfalso. unfold latest in Ek, El.
    destruct (filter (fun x => str_eqb (cooldownKey a) (cooldownKey x.2) = true) dispatched) as [|y ys] eqn:Ef; [done|].
    assert (Hin : y ∈ filter (fun x => str_eqb (cooldownKey a) (cooldownKey x.2) = true) dispatched) by (rewrite Ef; set_solver).
    apply list_elem_of_filter in Hin as [Hk Hin]. apply eqb_spec_str, cooldownKey_inj in Hk as [_ Hs]; [|done|by apply Hty].
    assert (Hf : y ∈ filter (fun x => same_state a x.2 = true) dispatched).
    { apply list_elem_of_filter. split; [by apply eqb_spec_str|done]. }
    destruct (filter (fun x => same_state a x.2 = true) dispatched); [by apply not_elem_of_nil in Hf|done].
Qed.

Lemma reflects_dispatch dispatched m now a :
  reflects dispatched m -> al_Type a ∈ alert_types ->
  reflects ((now, a) :: dispatched)
    {| ma_alerters := ma_alerters m; ma_cooldown := ma_cooldown m;
       ma_lastSent := <[cooldownKey a := now]> (ma_lastSent m);
       ma_lastAlertType := <[stateKey a := al_Type a]> (ma_lastAlertType m) |}.
Proof.
  intros [Hty Hst Hse] Ha. constructor; simpl.
  - intros x [-> |Hx]%elem_of_cons; [done|by apply Hty].
  - intros b. rewrite latest_cons. simpl. unfold same_state at 1.
    destruct (str_eqb (stateKey b) (stateKey a)) eqn:E.
    + apply eqb_spec_str in E. by rewrite E, lookup_insert_eq.
    + rewrite lookup_insert_ne; [apply Hst|]. intros Hx. rewrite Hx in E.
      by rewrite (proj2 (eqb_spec_str _ _) eq_refl) in E.
  - intros b. rewrite latest_cons. simpl.
    destruct (str_eqb (cooldownKey b) (cooldownKey a)) eqn:E.
    + apply eqb_spec_str in E. by rewrite E, lookup_insert_eq.
    + rewrite lookup_insert_ne; [apply Hse|]. intros Hx. rewrite Hx in E.
      by rewrite (proj2 (eqb_spec_str _ _) eq_refl) in E.
Qed.

Lemma sends_spec res dispatched l m :
  reflects dispatched m -> (forall x, x ∈ l -> al_Type x.2 ∈ alert_types) ->
  (Sends res l m).1 = spec_sends (ma_cooldown m) dispatched l.
Proof.
  revert dispatched m; induction l as [|[now a] l IH]; intros dispatched m Hr Hl; [done|].
  assert (Ha : al_Type a ∈ alert_types) by (apply (Hl (now, a)); set_solver).
  simpl. unfold Send. rewrite (suppressed_spec dispatched) by done.
  destruct (held_back (ma_cooldown m) dispatched now a).
  - pose proof (IH dispatched m Hr ltac:(set_solver)) as IH'.
    destruct (Sends res l m) as [bs m'']. simpl in *. by rewrite IH'.
  - pose proof (IH _ _ (reflects_dispatch dispatched m now a Hr Ha) ltac:(set_solver)) as IH'.
    destruct (Sends res l _) as [bs m'']. simpl in *. by rewrite IH'.
Qed.

Lemma reflects_new cooldown alerters : reflects [] (NewMultiAlerter cooldown alerters).
Proof. constructor; [set_solver|done|done]. Qed.

(** Also: from a new alerter, over any sequence of alerts and whatever the
    channels answer, an alert is held back exactly when the last alert
    dispatched for its chain and network had the same type and is younger than
    the cooldown. *)
Theorem alerter_cooldown res cooldown alerters l :
  (forall x, x ∈ l -> al_Type x.2 ∈ alert_types) ->
  (Sends res l (NewMultiAlerter cooldown alerters)).1 = spec_sends cooldown [] l.
Proof. intros Hl. apply (sends_spec res [] l (NewMultiAlerter cooldown alerters)); [apply reflects_new|done]. Qed.

Definition sample_alert (t : string) : Alert :=
  {| al_Type := t; al_Chain := "btc"; al_Network := "testnet"; al_Title := "t"; al_Message := "m"; al_Fields := ∅ |}.

Definition sample_alerts : list (Z * Alert) :=
  [(0, sample_alert AlertTypeUnhealthy); (5, sample_alert AlertTypeUnhealthy);
   (6, sample_alert AlertTypeReconcileErr); (7, sample_alert AlertTypeUnhealthy);
   (8, sample_alert AlertTypeUnhealthy)].

Lemma sample_alert_types x : x ∈ sample_alerts -> al_Type x.2 ∈ alert_types.
Proof.
  revert x. apply Forall_forall. unfold sample_alerts, alert_types.
  repeat apply List.Forall_cons; try apply List.Forall_nil; simpl; set_solver.
Qed.

(** Two types in turn are both dispatched every time; the same type is held
    back, also when no channel accepted it. *)
Lemma alerter_cooldown_witness :
  spec_sends 100 [] sample_alerts = [true; false; true; true; false] /\
  (Sends (fun _ _ => Some RequestFailed) sample_alerts (NewMultiAlerter 100 [SlackAlerter "u"])).1 =
    spec_sends 100 [] sample_alerts.
Proof.
  split; [reflexivity|].
  exact (alerter_cooldown (fun _ _ => Some RequestFailed) 100 [SlackAlerter "u"] sample_alerts sample_alert_types).
Defined.
