(* ===== verification/Float64.v ===== *)
(** * float64 values and [strconv.ParseFloat]

    A Go [float64] is an IEEE 754 binary64 number, here [spec_float] of the
    Standard Library at precision 53.  [ParseFloat(s, 64)] reads decimal and
    hexadecimal literals with the syntax of package [strconv], infinities and
    NaN, rounds to the nearest number with ties to even and reports a value
    out of range as an error. *)

From Stdlib Require Import SpecFloat.
From S2P Require Import Prelude.
From Stdlib Require Import ZArith Lia Ascii String.
From stdpp Require Import base option list strings.

Open Scope Z_scope.

Definition float64 : Type := spec_float.

Definition f64_zero : float64 := S754_zero false.
Definition f64_nan : float64 := S754_nan.

(** Go's [==] and [<] on float64: NaN is equal to nothing and below nothing. *)
Definition f64_eqb (x y : float64) : bool := SFeqb x y.
Definition f64_ltb (x y : float64) : bool := SFltb x y.
Definition f64_leb (x y : float64) : bool := SFleb x y.

(** The quotient of two naturals rounded to the nearest float64. *)
Definition f64_ratio (neg : bool) (num den : positive) : float64 :=
  SFdiv 53 1024 (S754_finite neg num 0) (S754_finite false den 0).

(** The number with mantissa [m] and exponent [e] in base [b]. *)
Definition f64_scale (neg : bool) (b m e : Z) : float64 :=
  match m with
  | Zpos p => f64_ratio neg (Z.to_pos (m * b ^ Z.max 0 e)) (Z.to_pos (b ^ Z.max 0 (- e)))
  | _ => S754_zero neg
  end.

(** ** The literal syntax *)

Definition hex_val (c : ascii) : option Z :=
  let b := byte_of (lower_ascii c) in
  if is_digit c then Some (digit_val c)
  else if (97 <=? b) && (b <=? 102) then Some (b - 87) else None.

(** [special]: infinities with an optional sign, NaN without one. *)
Definition parse_special (s : string) : option float64 :=
  let inf neg t := if str_in (to_lower t) ["inf"; "infinity"] then Some (S754_infinity neg) else None in
  match s with
  | String "+" t => inf false t
  | String "-" t => inf true t
  | _ => if str_eqb (to_lower s) "nan" then Some S754_nan else inf false s
  end.

(** The mantissa: digits in base 10 or 16, at most one point, underscores
    skipped.  [m] is the value of the digits read, [frac] how many of them
    stand after the point and [any] tells that there was one. *)
Record mantissa := { m_val : Z; m_frac : Z; m_any : bool; m_under : bool; m_rest : string }.

Fixpoint read_mantissa (hex : bool) (s : string) (dot any under : bool) (m frac : Z) : mantissa :=
  let stop := {| m_val := m; m_frac := frac; m_any := any; m_under := under; m_rest := s |} in
  match s with
  | EmptyString => stop
  | String c s' =>
      if Ascii.eqb c "_" then read_mantissa hex s' dot any true m frac
      else if Ascii.eqb c "." then
        if dot then stop else read_mantissa hex s' true any under m frac
      else
        match (if hex then hex_val c else if is_digit c then Some (digit_val c) else None) with
        | Some d => read_mantissa hex s' dot true under
                      (m * (if hex then 16 else 10) + d) (if dot then frac + 1 else frac)
        | None => stop
        end
  end.

(** The digits of the exponent; the value stops growing at five digits. *)
Fixpoint read_exponent (s : string) (e : Z) (under : bool) : Z * bool * string :=
  match s with
  | EmptyString => (e, under, s)
  | String c s' =>
      if Ascii.eqb c "_" then read_exponent s' e true
      else if is_digit c then read_exponent s' (if e <? 10000 then e * 10 + digit_val c else e) under
      else (e, under, s)
  end.

(** [underscoreOK]: every underscore stands between digits or after the base
    prefix. *)
Inductive seen := SeenStart | SeenDigit | SeenUnder | SeenOther.

Fixpoint under_scan (hex : bool) (s : string) (saw : seen) : bool :=
  match s with
  | EmptyString => match saw with SeenUnder => false | _ => true end
  | String c s' =>
      if is_digit c || (hex && match hex_val c with Some _ => true | None => false end)
      then under_scan hex s' SeenDigit
      else if Ascii.eqb c "_" then
        match saw with SeenDigit => under_scan hex s' SeenUnder | _ => false end
      else match saw with SeenUnder => false | _ => under_scan hex s' SeenOther end
  end.

Definition drop_sign (s : string) : string :=
  match s with
  | String "+" t => t
  | String "-" t => t
  | _ => s
  end.

Definition base_prefix (s : string) : option ascii :=
  match s with
  | String "0" (String c _) =>
      if str_in (String (lower_ascii c) EmptyString) ["b"; "o"; "x"] then Some (lower_ascii c) else None
  | _ => None
  end.

Definition underscoreOK (s : string) : bool :=
  let t := drop_sign s in
  match base_prefix t with
  | Some c => under_scan (Ascii.eqb c "x") (drop_bytes 2 t) SeenDigit
  | None => under_scan false t SeenStart
  end.

(** [readFloat] and the conversion of [atof64]. *)
Definition parse_literal (s : string) : option float64 :=
  let neg := match s with String "-" _ => true | _ => false end in
  let t := drop_sign s in
  let hex := match t with
             | String "0" (String c (String _ _)) => Ascii.eqb (lower_ascii c) "x"
             | _ => false
             end in
  let m := read_mantissa hex (if hex then drop_bytes 2 t else t) false false false 0 0 in
  if negb (m_any m) then None else
  let finish (e : Z) (under : bool) (rest : string) : option float64 :=
    if negb (str_empty rest) then None
    else if under && negb (underscoreOK s) then None
    else
      let v := if hex then f64_scale neg 2 (m_val m) (e - 4 * m_frac m)
               else f64_scale neg 10 (m_val m) (e - m_frac m) in
      match v with S754_infinity _ => None | _ => Some v end in
  match m_rest m with
  | String c r =>
      if Ascii.eqb (lower_ascii c) (if hex then "p" else "e") then
        let '(sign, digits) := match r with
                               | String "+" d => (1, d)
                               | String "-" d => (-1, d)
                               | _ => (1, r)
                               end in
        match digits with
        | String d _ =>
            if is_digit d then
              let '(e, under, rest) := read_exponent digits 0 (m_under m) in
              finish (sign * e) under rest
            else None
        | EmptyString => None
        end
      else None
  | EmptyString => if hex then None else finish 0 (m_under m) EmptyString
  end.

Definition ParseFloat (s : string) : option float64 :=
  match parse_special s with
  | Some f => Some f
  | None => parse_literal s
  end.

(** A float64 constant of the source. *)
Definition f64 (s : string) : float64 := default S754_nan (ParseFloat s).

Example f64_tenth : f64 "0.1" = S754_finite false 7205759403792794 (-56).
Proof. vm_compute. reflexivity. Qed.
Example f64_ten : f64 "1_0" = S754_finite false 5629499534213120 (-49).
Proof. vm_compute. reflexivity. Qed.
Example f64_hex : ParseFloat "0x1p-2" = ParseFloat "0.25".
Proof. vm_compute. reflexivity. Qed.
Example f64_range : ParseFloat "1e400" = None /\ ParseFloat "-1e-400" = Some (S754_zero true).
Proof. vm_compute. done. Qed.
Example f64_syntax : ParseFloat "1e" = None /\ ParseFloat "_1" = None /\ ParseFloat "." = None
  /\ ParseFloat "-Inf" = Some (S754_infinity true) /\ ParseFloat "nan" = Some S754_nan.
Proof. vm_compute. done. Qed.
