(* ===== verification/Config.v ===== *)
(** * Configuration (src/internal/config/config.go)

    The configuration is built in stages: the YAML file, environment variables
    over it, defaults for what is still zero, derived durations, validation.
    The process environment is a function from names to values
    ([os.LookupEnv]); reading the file and the third-party YAML decoder are
    parameters of [Load].  Warnings are not modelled. *)

From S2P Require Import Prelude Float64.
From Stdlib Require Import ZArith Lia Ascii String.
From stdpp Require Import base option list strings gmap.

Open Scope string_scope.
Open Scope Z_scope.

Definition dbPoolStatsIntervalDefaultMS : Z := 5000.
Definition dbPoolStatsIntervalMinMS : Z := 100.
Definition dbPoolStatsIntervalMaxMS : Z := 3600000.

Definition RuntimeDeploymentModeLikeGroup : string := "like-group".
Definition RuntimeDeploymentModeIndependent : string := "independent".
Definition RuntimeLikeGroupSolana : string := "solana-like".
Definition RuntimeLikeGroupEVM : string := "evm-like".
Definition RuntimeLikeGroupBTC : string := "btc-like".

(** ** The structures *)

Record RPCRateLimitConfig := mkRPCRateLimitConfig {
  rl_RPS : float64; rl_Burst : Z
}.

Record CircuitBreakerConfig := mkCircuitBreakerConfig {
  cb_FailureThreshold : Z; cb_SuccessThreshold : Z; cb_OpenTimeoutMs : Z
}.

Record AlertConfig := mkAlertConfig {
  alert_SlackWebhookURL : string; alert_WebhookURL : string; alert_CooldownMS : Z
}.

Record DBConfig := mkDBConfig {
  db_URL : string; db_MaxOpenConns : Z; db_MaxIdleConns : Z; db_ConnMaxLifetimeMin : Z;
  db_ConnMaxIdleTimeMin : Z; db_ConnMaxLifetime : Z; db_ConnMaxIdleTime : Z;
  db_PoolStatsIntervalMS : Z; db_PoolExhaustionThreshold : float64
}.

Record SidecarConfig := mkSidecarConfig {
  sc_Addr : string; sc_TimeoutSec : Z; sc_Timeout : Z; sc_TLSEnabled : bool; sc_TLSCert : string;
  sc_TLSKey : string; sc_TLSCA : string; sc_MaxMsgSizeMB : Z
}.

Record SolanaConfig := mkSolanaConfig {
  sol_RPCURL : string; sol_Network : string; sol_RateLimit : RPCRateLimitConfig;
  sol_MaxPageSize : Z; sol_MaxConcurrentTxs : Z; sol_BlockScanBatchSize : Z;
  sol_BlockScanConcurrency : Z; sol_MaxInitialLookbackBlocks : Z
}.

Record BaseConfig := mkBaseConfig {
  base_RPCURL : string; base_Network : string; base_RateLimit : RPCRateLimitConfig;
  base_MaxInitialLookbackBlocks : Z; base_MaxConcurrentTxs : Z; base_TraceEnabled : bool
}.

Record EthereumConfig := mkEthereumConfig {
  eth_RPCURL : string; eth_Network : string; eth_RateLimit : RPCRateLimitConfig;
  eth_MaxInitialLookbackBlocks : Z; eth_MaxConcurrentTxs : Z; eth_TraceEnabled : bool
}.

Record BTCConfig := mkBTCConfig {
  btc_RPCURL : string; btc_Network : string; btc_RateLimit : RPCRateLimitConfig;
  btc_MaxInitialLookbackBlocks : Z; btc_BlockScanBatchSize : Z
}.

Record PolygonConfig := mkPolygonConfig {
  poly_RPCURL : string; poly_Network : string; poly_RateLimit : RPCRateLimitConfig;
  poly_MaxInitialLookbackBlocks : Z; poly_MaxConcurrentTxs : Z; poly_TraceEnabled : bool
}.

Record ArbitrumConfig := mkArbitrumConfig {
  arb_RPCURL : string; arb_Network : string; arb_RateLimit : RPCRateLimitConfig;
  arb_MaxInitialLookbackBlocks : Z; arb_MaxConcurrentTxs : Z; arb_TraceEnabled : bool
}.

Record BSCConfig := mkBSCConfig {
  bsc_RPCURL : string; bsc_Network : string; bsc_RateLimit : RPCRateLimitConfig;
  bsc_MaxInitialLookbackBlocks : Z; bsc_MaxConcurrentTxs : Z; bsc_TraceEnabled : bool
}.

Record RuntimeConfig := mkRuntimeConfig {
  rt_DeploymentMode : string; rt_LikeGroup : string; rt_ChainTargets : list string
}.

Record FetcherStageConfig := mkFetcherStageConfig {
  fs_RetryMaxAttempts : Z; fs_BackoffInitialMs : Z; fs_BackoffMaxMs : Z; fs_AdaptiveMinBatch : Z;
  fs_BoundaryOverlapLookahead : Z; fs_BlockScanMaxBatchTxs : Z;
  fs_CircuitBreaker : CircuitBreakerConfig
}.

Record NormalizerStageConfig := mkNormalizerStageConfig {
  ns_RetryMaxAttempts : Z; ns_RetryDelayInitialMs : Z; ns_RetryDelayMaxMs : Z;
  ns_CircuitBreaker : CircuitBreakerConfig
}.

Record IngesterStageConfig := mkIngesterStageConfig {
  is_RetryMaxAttempts : Z; is_RetryDelayInitialMs : Z; is_RetryDelayMaxMs : Z;
  is_DeniedCacheCapacity : Z; is_DeniedCacheTTLSec : Z; is_BlockScanAddrCacheTTLSec : Z
}.

Record HealthStageConfig := mkHealthStageConfig {
  hs_UnhealthyThreshold : Z
}.

Record ConfigWatcherStageConfig := mkConfigWatcherStageConfig {
  cw_IntervalSec : Z
}.

Record AddressIndexConfig := mkAddressIndexConfig {
  ai_BloomExpectedItems : Z; ai_BloomFPR : float64; ai_LRUCapacity : Z; ai_LRUTTLSec : Z
}.

Record PipelineConfig := mkPipelineConfig {
  pl_ShutdownTimeoutSec : Z; pl_ReorgDetectorIntervalMs : Z; pl_FinalizerIntervalMs : Z;
  pl_BTCFinalityConfirmations : Z; pl_SolanaWatchedAddresses : list string;
  pl_BaseWatchedAddresses : list string; pl_EthereumWatchedAddresses : list string;
  pl_BTCWatchedAddresses : list string; pl_PolygonWatchedAddresses : list string;
  pl_ArbitrumWatchedAddresses : list string; pl_BSCWatchedAddresses : list string;
  pl_FetchWorkers : Z; pl_NormalizerWorkers : Z; pl_BatchSize : Z; pl_IndexingIntervalMs : Z;
  pl_ChannelBufferSize : Z; pl_JobChBufferSize : Z; pl_RawBatchChBufferSize : Z;
  pl_NormalizedChBufferSize : Z; pl_CoordinatorAutoTuneEnabled : bool;
  pl_CoordinatorAutoTuneMinBatchSize : Z; pl_CoordinatorAutoTuneMaxBatchSize : Z;
  pl_CoordinatorAutoTuneStepUp : Z; pl_CoordinatorAutoTuneStepDown : Z;
  pl_CoordinatorAutoTuneLagHighWatermark : Z; pl_CoordinatorAutoTuneLagLowWatermark : Z;
  pl_CoordinatorAutoTuneQueueHighPct : Z; pl_CoordinatorAutoTuneQueueLowPct : Z;
  pl_CoordinatorAutoTuneHysteresisTicks : Z; pl_CoordinatorAutoTuneTelemetryStaleTicks : Z;
  pl_CoordinatorAutoTuneTelemetryRecoveryTicks : Z;
  pl_CoordinatorAutoTuneOperatorOverrideBatch : Z; pl_CoordinatorAutoTuneOperatorReleaseTicks : Z;
  pl_CoordinatorAutoTunePolicyVersion : string;
  pl_CoordinatorAutoTunePolicyManifestDigest : string;
  pl_CoordinatorAutoTunePolicyManifestRefreshEpoch : Z;
  pl_CoordinatorAutoTunePolicyActivationHoldTicks : Z; pl_IndexedBlocksRetention : Z;
  pl_AddressIndex : AddressIndexConfig; pl_Fetcher : FetcherStageConfig;
  pl_Normalizer : NormalizerStageConfig; pl_Ingester : IngesterStageConfig;
  pl_Health : HealthStageConfig; pl_ConfigWatcher : ConfigWatcherStageConfig;
  pl_InterleaveMaxSkewMs : Z
}.

Record ServerConfig := mkServerConfig {
  srv_HealthPort : Z; srv_MetricsAuthUser : string; srv_MetricsAuthPass : string;
  srv_AdminAddr : string; srv_AdminAuthUser : string; srv_AdminAuthPass : string;
  srv_AdminAuthToken : string; srv_AdminRateLimitEnabled : bool; srv_AdminRequireAuth : bool
}.

Record ReconciliationConfig := mkReconciliationConfig {
  rc_IntervalMS : Z
}.

Record ReorgDetectorConfig := mkReorgDetectorConfig {
  rd_MaxCheckDepth : Z
}.

Record LogConfig := mkLogConfig {
  log_Level : string
}.

Record TracingConfig := mkTracingConfig {
  tr_Enabled : bool; tr_Endpoint : string; tr_Insecure : bool; tr_SampleRatio : float64
}.

Record Config := mkConfig {
  cfg_DB : DBConfig; cfg_Sidecar : SidecarConfig; cfg_Solana : SolanaConfig; cfg_Base : BaseConfig;
  cfg_Ethereum : EthereumConfig; cfg_BTC : BTCConfig; cfg_Polygon : PolygonConfig;
  cfg_Arbitrum : ArbitrumConfig; cfg_BSC : BSCConfig; cfg_Runtime : RuntimeConfig;
  cfg_Pipeline : PipelineConfig; cfg_Server : ServerConfig; cfg_Log : LogConfig;
  cfg_Tracing : TracingConfig; cfg_Alert : AlertConfig; cfg_Reconciliation : ReconciliationConfig;
  cfg_ReorgDetector : ReorgDetectorConfig
}.

(** ** The environment and the override helpers

    [LookupEnv] tells an unset variable ([None]) from an empty one. *)

Definition Env : Type := string -> option string.
Definition Getenv (env : Env) (key : string) : string := default "" (env key).

Fixpoint overrideStr (env : Env) (target : string) (envKeys : list string) : string :=
  match envKeys with
  | [] => target
  | key :: rest =>
      match env key with
      | Some v => if str_empty v then overrideStr env target rest else v
      | None => overrideStr env target rest
      end
  end.

Fixpoint overrideStrAny (env : Env) (target : string) (envKeys : list string) : string :=
  match envKeys with
  | [] => target
  | key :: rest =>
      match env key with
      | Some v => if str_empty v then overrideStrAny env target rest else v
      | None => overrideStrAny env target rest
      end
  end.

Fixpoint overrideStrLower (env : Env) (target : string) (envKeys : list string) : string :=
  match envKeys with
  | [] => target
  | key :: rest =>
      match env key with
      | Some v => if str_empty v then overrideStrLower env target rest else to_lower v
      | None => overrideStrLower env target rest
      end
  end.

Fixpoint overrideInt (env : Env) (target : Z) (envKeys : list string) : Z :=
  match envKeys with
  | [] => target
  | key :: rest =>
      match env key with
      | Some v =>
          let trimmed := trim_space v in
          if str_empty trimmed then overrideInt env target rest
          else match parse_int64 trimmed with
               | Some i => i
               | None => overrideInt env target rest
               end
      | None => overrideInt env target rest
      end
  end.

Fixpoint overrideIntBounded (env : Env) (target : Z) (envKeys : list string) : Z :=
  match envKeys with
  | [] => target
  | key :: rest =>
      match env key with
      | Some v =>
          let trimmed := trim_space v in
          if str_empty trimmed then overrideIntBounded env target rest
          else match parse_int64 trimmed with
               | Some i =>
                   if (i <? dbPoolStatsIntervalMinMS) || (dbPoolStatsIntervalMaxMS <? i)
                   then overrideIntBounded env target rest else i
               | None => overrideIntBounded env target rest
               end
      | None => overrideIntBounded env target rest
      end
  end.

Fixpoint overrideInt64 (env : Env) (target : Z) (envKeys : list string) : Z :=
  match envKeys with
  | [] => target
  | key :: rest =>
      match env key with
      | Some v =>
          let trimmed := trim_space v in
          if str_empty trimmed then overrideInt64 env target rest
          else match parse_int64 trimmed with
               | Some i => i
               | None => overrideInt64 env target rest
               end
      | None => overrideInt64 env target rest
      end
  end.

Fixpoint overrideBool (env : Env) (target : bool) (envKeys : list string) : bool :=
  match envKeys with
  | [] => target
  | key :: rest =>
      match env key with
      | Some v =>
          let s := to_lower (trim_space v) in
          if str_in s ["1"; "true"; "yes"; "on"] then true
          else if str_in s ["0"; "false"; "no"; "off"] then false
          else overrideBool env target rest
      | None => overrideBool env target rest
      end
  end.

Fixpoint overrideFloat64 (env : Env) (target : float64) (envKeys : list string) : float64 :=
  match envKeys with
  | [] => target
  | key :: rest =>
      match env key with
      | Some v =>
          let trimmed := trim_space v in
          if str_empty trimmed then overrideFloat64 env target rest
          else match ParseFloat trimmed with
               | Some f => f
               | None => overrideFloat64 env target rest
               end
      | None => overrideFloat64 env target rest
      end
  end.

(** [parseAddressCSV] returns nil only for the empty string; a list of blank
    entries is an empty list, which still replaces the target. *)
Definition parseAddressCSV (addrs : string) : option (list string) :=
  if str_empty addrs then None
  else Some (filter (fun a => str_empty a = false) (trim_space <$> split_on "," addrs)).

Fixpoint overrideCSVList (env : Env) (target : list string) (envKeys : list string) : list string :=
  match envKeys with
  | [] => target
  | key :: rest =>
      match env key with
      | Some v =>
          match parseAddressCSV v with
          | Some parsed => parsed
          | None => overrideCSVList env target rest
          end
      | None => overrideCSVList env target rest
      end
  end.

Fixpoint normalize_values (seen : list string) (values : list string) : list string :=
  match values with
  | [] => []
  | value :: rest =>
      let candidate := to_lower (trim_space value) in
      if str_empty candidate then normalize_values seen rest
      else if str_in candidate seen then normalize_values seen rest
      else candidate :: normalize_values (candidate :: seen) rest
  end.

Definition normalizeCSVValues (values : list string) : list string := normalize_values [] values.

Definition setDefaultStr (target defaultVal : string) : string :=
  if str_empty target then defaultVal else target.
Definition setDefault (target defaultVal : Z) : Z :=
  if target =? 0 then defaultVal else target.
Definition setDefaultInt64 (target defaultVal : Z) : Z :=
  if target =? 0 then defaultVal else target.
Definition setDefaultFloat (target defaultVal : float64) : float64 :=
  if f64_eqb target f64_zero then defaultVal else target.

Definition clampWorkers (target min max : Z) : Z :=
  if target <? min then min else if max <? target then max else target.

Definition getEnvInt (env : Env) (key : string) (fallback : Z) : Z :=
  let v := trim_space (Getenv env key) in
  if str_empty v then fallback
  else match parse_int64 v with
       | Some i => i
       | None => fallback
       end.

(** ** Environment overrides, one definition per structure *)

Definition env_db (env : Env) (c : DBConfig) : DBConfig :=
  {|
    db_URL := overrideStr env (db_URL c) ["DB_URL"];
    db_MaxOpenConns := overrideInt env (db_MaxOpenConns c) ["DB_MAX_OPEN_CONNS"];
    db_MaxIdleConns := overrideInt env (db_MaxIdleConns c) ["DB_MAX_IDLE_CONNS"];
    db_ConnMaxLifetimeMin := overrideInt env (db_ConnMaxLifetimeMin c) ["DB_CONN_MAX_LIFETIME_MIN"];
    db_ConnMaxIdleTimeMin := overrideInt env (db_ConnMaxIdleTimeMin c) ["DB_CONN_MAX_IDLE_TIME_MIN"];
    db_ConnMaxLifetime := db_ConnMaxLifetime c; db_ConnMaxIdleTime := db_ConnMaxIdleTime c;
    db_PoolStatsIntervalMS := overrideIntBounded env (db_PoolStatsIntervalMS c) ["DB_POOL_STATS_INTERVAL_MS"];
    db_PoolExhaustionThreshold := overrideFloat64 env (db_PoolExhaustionThreshold c) ["DB_POOL_EXHAUSTION_THRESHOLD"]
  |}.

Definition env_sc (env : Env) (c : SidecarConfig) : SidecarConfig :=
  {|
    sc_Addr := overrideStr env (sc_Addr c) ["SIDECAR_ADDR"];
    sc_TimeoutSec := overrideInt env (sc_TimeoutSec c) ["SIDECAR_TIMEOUT_SEC"];
    sc_Timeout := sc_Timeout c;
    sc_TLSEnabled := overrideBool env (sc_TLSEnabled c) ["SIDECAR_TLS_ENABLED"];
    sc_TLSCert := overrideStr env (sc_TLSCert c) ["SIDECAR_TLS_CERT"];
    sc_TLSKey := overrideStr env (sc_TLSKey c) ["SIDECAR_TLS_KEY"];
    sc_TLSCA := overrideStr env (sc_TLSCA c) ["SIDECAR_TLS_CA"];
    sc_MaxMsgSizeMB := overrideInt env (sc_MaxMsgSizeMB c) ["SIDECAR_MAX_MSG_SIZE_MB"]
  |}.

Definition applyInfraEnvOverrides (env : Env) (cfg : Config) : Config := {|
  cfg_DB := env_db env (cfg_DB cfg); cfg_Sidecar := env_sc env (cfg_Sidecar cfg);
  cfg_Solana := cfg_Solana cfg; cfg_Base := cfg_Base cfg; cfg_Ethereum := cfg_Ethereum cfg;
  cfg_BTC := cfg_BTC cfg; cfg_Polygon := cfg_Polygon cfg; cfg_Arbitrum := cfg_Arbitrum cfg;
  cfg_BSC := cfg_BSC cfg; cfg_Runtime := cfg_Runtime cfg; cfg_Pipeline := cfg_Pipeline cfg;
  cfg_Server := cfg_Server cfg; cfg_Log := cfg_Log cfg; cfg_Tracing := cfg_Tracing cfg;
  cfg_Alert := cfg_Alert cfg; cfg_Reconciliation := cfg_Reconciliation cfg;
  cfg_ReorgDetector := cfg_ReorgDetector cfg
|}.

Definition env_sol (env : Env) (c : SolanaConfig) : SolanaConfig :=
  {|
    sol_RPCURL := overrideStrAny env (sol_RPCURL c) ["SOLANA_DEVNET_RPC_URL"; "SOLANA_RPC_URL"];
    sol_Network := overrideStr env (sol_Network c) ["SOLANA_NETWORK"];
    sol_RateLimit := {|
      rl_RPS := overrideFloat64 env (rl_RPS (sol_RateLimit c)) ["SOLANA_RPC_RATE_LIMIT"];
      rl_Burst := overrideInt env (rl_Burst (sol_RateLimit c)) ["SOLANA_RPC_BURST"]
    |};
    sol_MaxPageSize := overrideInt env (sol_MaxPageSize c) ["SOLANA_MAX_PAGE_SIZE"];
    sol_MaxConcurrentTxs := overrideInt env (sol_MaxConcurrentTxs c) ["SOLANA_MAX_CONCURRENT_TXS"];
    sol_BlockScanBatchSize := overrideInt env (sol_BlockScanBatchSize c) ["SOLANA_BLOCK_SCAN_BATCH_SIZE"];
    sol_BlockScanConcurrency := overrideInt env (sol_BlockScanConcurrency c) ["SOLANA_BLOCK_SCAN_CONCURRENCY"];
    sol_MaxInitialLookbackBlocks := overrideInt env (sol_MaxInitialLookbackBlocks c) ["SOLANA_MAX_INITIAL_LOOKBACK_BLOCKS"]
  |}.

Definition env_base (env : Env) (c : BaseConfig) : BaseConfig :=
  {|
    base_RPCURL := overrideStrAny env (base_RPCURL c) ["BASE_SEPOLIA_RPC_URL"; "BASE_RPC_URL"];
    base_Network := overrideStr env (base_Network c) ["BASE_NETWORK"];
    base_RateLimit := {|
      rl_RPS := overrideFloat64 env (rl_RPS (base_RateLimit c)) ["BASE_RPC_RATE_LIMIT"];
      rl_Burst := overrideInt env (rl_Burst (base_RateLimit c)) ["BASE_RPC_BURST"]
    |};
    base_MaxInitialLookbackBlocks := overrideInt env (base_MaxInitialLookbackBlocks c) ["BASE_MAX_INITIAL_LOOKBACK_BLOCKS"];
    base_MaxConcurrentTxs := overrideInt env (base_MaxConcurrentTxs c) ["BASE_MAX_CONCURRENT_TXS"];
    base_TraceEnabled := overrideBool env (base_TraceEnabled c) ["BASE_TRACE_ENABLED"]
  |}.

Definition env_eth (env : Env) (c : EthereumConfig) : EthereumConfig :=
  {|
    eth_RPCURL := overrideStrAny env (eth_RPCURL c) ["ETH_MAINNET_RPC_URL"; "ETHEREUM_RPC_URL"];
    eth_Network := overrideStr env (eth_Network c) ["ETHEREUM_NETWORK"];
    eth_RateLimit := {|
      rl_RPS := overrideFloat64 env (rl_RPS (eth_RateLimit c)) ["ETH_RPC_RATE_LIMIT"];
      rl_Burst := overrideInt env (rl_Burst (eth_RateLimit c)) ["ETH_RPC_BURST"]
    |};
    eth_MaxInitialLookbackBlocks := overrideInt env (eth_MaxInitialLookbackBlocks c) ["ETH_MAX_INITIAL_LOOKBACK_BLOCKS"];
    eth_MaxConcurrentTxs := overrideInt env (eth_MaxConcurrentTxs c) ["ETH_MAX_CONCURRENT_TXS"];
    eth_TraceEnabled := overrideBool env (eth_TraceEnabled c) ["ETH_TRACE_ENABLED"]
  |}.

Definition env_btc (env : Env) (c : BTCConfig) : BTCConfig :=
  {|
    btc_RPCURL := overrideStrAny env (btc_RPCURL c) ["BTC_TESTNET_RPC_URL"; "BTC_RPC_URL"];
    btc_Network := overrideStr env (btc_Network c) ["BTC_NETWORK"];
    btc_RateLimit := {|
      rl_RPS := overrideFloat64 env (rl_RPS (btc_RateLimit c)) ["BTC_RPC_RATE_LIMIT"];
      rl_Burst := overrideInt env (rl_Burst (btc_RateLimit c)) ["BTC_RPC_BURST"]
    |};
    btc_MaxInitialLookbackBlocks := overrideInt env (btc_MaxInitialLookbackBlocks c) ["BTC_MAX_INITIAL_LOOKBACK_BLOCKS"];
    btc_BlockScanBatchSize := overrideInt env (btc_BlockScanBatchSize c) ["BTC_BLOCK_SCAN_BATCH_SIZE"]
  |}.

Definition env_poly (env : Env) (c : PolygonConfig) : PolygonConfig :=
  {|
    poly_RPCURL := overrideStrAny env (poly_RPCURL c) ["POLYGON_RPC_URL"; "POLYGON_MAINNET_RPC_URL"];
    poly_Network := overrideStr env (poly_Network c) ["POLYGON_NETWORK"];
    poly_RateLimit := {|
      rl_RPS := overrideFloat64 env (rl_RPS (poly_RateLimit c)) ["POLYGON_RPC_RATE_LIMIT"];
      rl_Burst := overrideInt env (rl_Burst (poly_RateLimit c)) ["POLYGON_RPC_BURST"]
    |};
    poly_MaxInitialLookbackBlocks := overrideInt env (poly_MaxInitialLookbackBlocks c) ["POLYGON_MAX_INITIAL_LOOKBACK_BLOCKS"];
    poly_MaxConcurrentTxs := overrideInt env (poly_MaxConcurrentTxs c) ["POLYGON_MAX_CONCURRENT_TXS"];
    poly_TraceEnabled := overrideBool env (poly_TraceEnabled c) ["POLYGON_TRACE_ENABLED"]
  |}.

Definition env_arb (env : Env) (c : ArbitrumConfig) : ArbitrumConfig :=
  {|
    arb_RPCURL := overrideStrAny env (arb_RPCURL c) ["ARBITRUM_RPC_URL"; "ARBITRUM_MAINNET_RPC_URL"];
    arb_Network := overrideStr env (arb_Network c) ["ARBITRUM_NETWORK"];
    arb_RateLimit := {|
      rl_RPS := overrideFloat64 env (rl_RPS (arb_RateLimit c)) ["ARBITRUM_RPC_RATE_LIMIT"];
      rl_Burst := overrideInt env (rl_Burst (arb_RateLimit c)) ["ARBITRUM_RPC_BURST"]
    |};
    arb_MaxInitialLookbackBlocks := overrideInt env (arb_MaxInitialLookbackBlocks c) ["ARBITRUM_MAX_INITIAL_LOOKBACK_BLOCKS"];
    arb_MaxConcurrentTxs := overrideInt env (arb_MaxConcurrentTxs c) ["ARBITRUM_MAX_CONCURRENT_TXS"];
    arb_TraceEnabled := overrideBool env (arb_TraceEnabled c) ["ARBITRUM_TRACE_ENABLED"]
  |}.

Definition env_bsc (env : Env) (c : BSCConfig) : BSCConfig :=
  {|
    bsc_RPCURL := overrideStrAny env (bsc_RPCURL c) ["BSC_RPC_URL"; "BSC_MAINNET_RPC_URL"];
    bsc_Network := overrideStr env (bsc_Network c) ["BSC_NETWORK"];
    bsc_RateLimit := {|
      rl_RPS := overrideFloat64 env (rl_RPS (bsc_RateLimit c)) ["BSC_RPC_RATE_LIMIT"];
      rl_Burst := overrideInt env (rl_Burst (bsc_RateLimit c)) ["BSC_RPC_BURST"]
    |};
    bsc_MaxInitialLookbackBlocks := overrideInt env (bsc_MaxInitialLookbackBlocks c) ["BSC_MAX_INITIAL_LOOKBACK_BLOCKS"];
    bsc_MaxConcurrentTxs := overrideInt env (bsc_MaxConcurrentTxs c) ["BSC_MAX_CONCURRENT_TXS"];
    bsc_TraceEnabled := overrideBool env (bsc_TraceEnabled c) ["BSC_TRACE_ENABLED"]
  |}.

Definition applyChainEnvOverrides (env : Env) (cfg : Config) : Config := {|
  cfg_DB := cfg_DB cfg; cfg_Sidecar := cfg_Sidecar cfg; cfg_Solana := env_sol env (cfg_Solana cfg);
  cfg_Base := env_base env (cfg_Base cfg); cfg_Ethereum := env_eth env (cfg_Ethereum cfg);
  cfg_BTC := env_btc env (cfg_BTC cfg); cfg_Polygon := env_poly env (cfg_Polygon cfg);
  cfg_Arbitrum := env_arb env (cfg_Arbitrum cfg); cfg_BSC := env_bsc env (cfg_BSC cfg);
  cfg_Runtime := cfg_Runtime cfg; cfg_Pipeline := cfg_Pipeline cfg; cfg_Server := cfg_Server cfg;
  cfg_Log := cfg_Log cfg; cfg_Tracing := cfg_Tracing cfg; cfg_Alert := cfg_Alert cfg;
  cfg_Reconciliation := cfg_Reconciliation cfg; cfg_ReorgDetector := cfg_ReorgDetector cfg
|}.

Definition env_rt (env : Env) (c : RuntimeConfig) : RuntimeConfig :=
  let targets := overrideCSVList env (rt_ChainTargets c) ["RUNTIME_CHAIN_TARGETS"; "RUNTIME_CHAIN_TARGET"] in
  {|
    rt_DeploymentMode := overrideStrLower env (rt_DeploymentMode c) ["RUNTIME_DEPLOYMENT_MODE"];
    rt_LikeGroup := overrideStrLower env (rt_LikeGroup c) ["RUNTIME_LIKE_GROUP"];
    rt_ChainTargets := match targets with [] => targets | _ => normalizeCSVValues targets end
  |}.

Definition applyRuntimeEnvOverrides (env : Env) (cfg : Config) : Config := {|
  cfg_DB := cfg_DB cfg; cfg_Sidecar := cfg_Sidecar cfg; cfg_Solana := cfg_Solana cfg;
  cfg_Base := cfg_Base cfg; cfg_Ethereum := cfg_Ethereum cfg; cfg_BTC := cfg_BTC cfg;
  cfg_Polygon := cfg_Polygon cfg; cfg_Arbitrum := cfg_Arbitrum cfg; cfg_BSC := cfg_BSC cfg;
  cfg_Runtime := env_rt env (cfg_Runtime cfg); cfg_Pipeline := cfg_Pipeline cfg;
  cfg_Server := cfg_Server cfg; cfg_Log := cfg_Log cfg; cfg_Tracing := cfg_Tracing cfg;
  cfg_Alert := cfg_Alert cfg; cfg_Reconciliation := cfg_Reconciliation cfg;
  cfg_ReorgDetector := cfg_ReorgDetector cfg
|}.

Definition env_pl (env : Env) (c : PipelineConfig) : PipelineConfig :=
  {|
    pl_ShutdownTimeoutSec := overrideInt env (pl_ShutdownTimeoutSec c) ["PIPELINE_SHUTDOWN_TIMEOUT_SEC"];
    pl_ReorgDetectorIntervalMs := overrideInt env (pl_ReorgDetectorIntervalMs c) ["REORG_DETECTOR_INTERVAL_MS"];
    pl_FinalizerIntervalMs := overrideInt env (pl_FinalizerIntervalMs c) ["FINALIZER_INTERVAL_MS"];
    pl_BTCFinalityConfirmations := overrideInt env (pl_BTCFinalityConfirmations c) ["BTC_FINALITY_CONFIRMATIONS"];
    pl_SolanaWatchedAddresses := overrideCSVList env (pl_SolanaWatchedAddresses c) ["SOLANA_WATCHED_ADDRESSES"; "WATCHED_ADDRESSES"];
    pl_BaseWatchedAddresses := overrideCSVList env (pl_BaseWatchedAddresses c) ["BASE_WATCHED_ADDRESSES"];
    pl_EthereumWatchedAddresses := overrideCSVList env (pl_EthereumWatchedAddresses c) ["ETH_WATCHED_ADDRESSES"];
    pl_BTCWatchedAddresses := overrideCSVList env (pl_BTCWatchedAddresses c) ["BTC_WATCHED_ADDRESSES"];
    pl_PolygonWatchedAddresses := overrideCSVList env (pl_PolygonWatchedAddresses c) ["POLYGON_WATCHED_ADDRESSES"];
    pl_ArbitrumWatchedAddresses := overrideCSVList env (pl_ArbitrumWatchedAddresses c) ["ARBITRUM_WATCHED_ADDRESSES"];
    pl_BSCWatchedAddresses := overrideCSVList env (pl_BSCWatchedAddresses c) ["BSC_WATCHED_ADDRESSES"];
    pl_FetchWorkers := overrideInt env (pl_FetchWorkers c) ["FETCH_WORKERS"];
    pl_NormalizerWorkers := overrideInt env (pl_NormalizerWorkers c) ["NORMALIZER_WORKERS"];
    pl_BatchSize := overrideInt env (pl_BatchSize c) ["BATCH_SIZE"];
    pl_IndexingIntervalMs := overrideInt env (pl_IndexingIntervalMs c) ["INDEXING_INTERVAL_MS"];
    pl_ChannelBufferSize := overrideInt env (pl_ChannelBufferSize c) ["CHANNEL_BUFFER_SIZE"];
    pl_JobChBufferSize := overrideInt env (pl_JobChBufferSize c) ["JOB_CH_BUFFER_SIZE"];
    pl_RawBatchChBufferSize := overrideInt env (pl_RawBatchChBufferSize c) ["RAW_BATCH_CH_BUFFER_SIZE"];
    pl_NormalizedChBufferSize := overrideInt env (pl_NormalizedChBufferSize c) ["NORMALIZED_CH_BUFFER_SIZE"];
    pl_CoordinatorAutoTuneEnabled := overrideBool env (pl_CoordinatorAutoTuneEnabled c) ["COORDINATOR_AUTOTUNE_ENABLED"];
    pl_CoordinatorAutoTuneMinBatchSize := overrideInt env (pl_CoordinatorAutoTuneMinBatchSize c) ["COORDINATOR_AUTOTUNE_MIN_BATCH_SIZE"];
    pl_CoordinatorAutoTuneMaxBatchSize := overrideInt env (pl_CoordinatorAutoTuneMaxBatchSize c) ["COORDINATOR_AUTOTUNE_MAX_BATCH_SIZE"];
    pl_CoordinatorAutoTuneStepUp := overrideInt env (pl_CoordinatorAutoTuneStepUp c) ["COORDINATOR_AUTOTUNE_STEP_UP"];
    pl_CoordinatorAutoTuneStepDown := overrideInt env (pl_CoordinatorAutoTuneStepDown c) ["COORDINATOR_AUTOTUNE_STEP_DOWN"];
    pl_CoordinatorAutoTuneLagHighWatermark := overrideInt64 env (pl_CoordinatorAutoTuneLagHighWatermark c) ["COORDINATOR_AUTOTUNE_LAG_HIGH_WATERMARK"];
    pl_CoordinatorAutoTuneLagLowWatermark := overrideInt64 env (pl_CoordinatorAutoTuneLagLowWatermark c) ["COORDINATOR_AUTOTUNE_LAG_LOW_WATERMARK"];
    pl_CoordinatorAutoTuneQueueHighPct := overrideInt env (pl_CoordinatorAutoTuneQueueHighPct c) ["COORDINATOR_AUTOTUNE_QUEUE_HIGH_PCT"];
    pl_CoordinatorAutoTuneQueueLowPct := overrideInt env (pl_CoordinatorAutoTuneQueueLowPct c) ["COORDINATOR_AUTOTUNE_QUEUE_LOW_PCT"];
    pl_CoordinatorAutoTuneHysteresisTicks := overrideInt env (pl_CoordinatorAutoTuneHysteresisTicks c) ["COORDINATOR_AUTOTUNE_HYSTERESIS_TICKS"];
    pl_CoordinatorAutoTuneTelemetryStaleTicks := overrideInt env (pl_CoordinatorAutoTuneTelemetryStaleTicks c) ["COORDINATOR_AUTOTUNE_TELEMETRY_STALE_TICKS"];
    pl_CoordinatorAutoTuneTelemetryRecoveryTicks := overrideInt env (pl_CoordinatorAutoTuneTelemetryRecoveryTicks c) ["COORDINATOR_AUTOTUNE_TELEMETRY_RECOVERY_TICKS"];
    pl_CoordinatorAutoTuneOperatorOverrideBatch := overrideInt env (pl_CoordinatorAutoTuneOperatorOverrideBatch c) ["COORDINATOR_AUTOTUNE_OPERATOR_OVERRIDE_BATCH_SIZE"];
    pl_CoordinatorAutoTuneOperatorReleaseTicks := overrideInt env (pl_CoordinatorAutoTuneOperatorReleaseTicks c) ["COORDINATOR_AUTOTUNE_OPERATOR_RELEASE_HOLD_TICKS"];
    pl_CoordinatorAutoTunePolicyVersion := overrideStr env (pl_CoordinatorAutoTunePolicyVersion c) ["COORDINATOR_AUTOTUNE_POLICY_VERSION"];
    pl_CoordinatorAutoTunePolicyManifestDigest := overrideStr env (pl_CoordinatorAutoTunePolicyManifestDigest c) ["COORDINATOR_AUTOTUNE_POLICY_MANIFEST_DIGEST"];
    pl_CoordinatorAutoTunePolicyManifestRefreshEpoch := overrideInt64 env (pl_CoordinatorAutoTunePolicyManifestRefreshEpoch c) ["COORDINATOR_AUTOTUNE_POLICY_MANIFEST_REFRESH_EPOCH"];
    pl_CoordinatorAutoTunePolicyActivationHoldTicks := overrideInt env (pl_CoordinatorAutoTunePolicyActivationHoldTicks c) ["COORDINATOR_AUTOTUNE_POLICY_ACTIVATION_HOLD_TICKS"];
    pl_IndexedBlocksRetention := overrideInt env (pl_IndexedBlocksRetention c) ["INDEXED_BLOCKS_RETENTION"];
    pl_AddressIndex := {|
      ai_BloomExpectedItems := overrideInt env (ai_BloomExpectedItems (pl_AddressIndex c)) ["ADDRESS_INDEX_BLOOM_EXPECTED_ITEMS"];
      ai_BloomFPR := overrideFloat64 env (ai_BloomFPR (pl_AddressIndex c)) ["ADDRESS_INDEX_BLOOM_FPR"];
      ai_LRUCapacity := overrideInt env (ai_LRUCapacity (pl_AddressIndex c)) ["ADDRESS_INDEX_LRU_CAPACITY"];
      ai_LRUTTLSec := overrideInt env (ai_LRUTTLSec (pl_AddressIndex c)) ["ADDRESS_INDEX_LRU_TTL_SEC"]
    |};
    pl_Fetcher := {|
      fs_RetryMaxAttempts := overrideInt env (fs_RetryMaxAttempts (pl_Fetcher c)) ["FETCHER_RETRY_MAX_ATTEMPTS"];
      fs_BackoffInitialMs := overrideInt env (fs_BackoffInitialMs (pl_Fetcher c)) ["FETCHER_BACKOFF_INITIAL_MS"];
      fs_BackoffMaxMs := overrideInt env (fs_BackoffMaxMs (pl_Fetcher c)) ["FETCHER_BACKOFF_MAX_MS"];
      fs_AdaptiveMinBatch := overrideInt env (fs_AdaptiveMinBatch (pl_Fetcher c)) ["FETCHER_ADAPTIVE_MIN_BATCH"];
      fs_BoundaryOverlapLookahead := overrideInt env (fs_BoundaryOverlapLookahead (pl_Fetcher c)) ["FETCHER_BOUNDARY_OVERLAP_LOOKAHEAD"];
      fs_BlockScanMaxBatchTxs := overrideInt env (fs_BlockScanMaxBatchTxs (pl_Fetcher c)) ["BLOCK_SCAN_MAX_BATCH_TXS"];
      fs_CircuitBreaker := {|
        cb_FailureThreshold := overrideInt env (cb_FailureThreshold (fs_CircuitBreaker (pl_Fetcher c))) ["FETCHER_CB_FAILURE_THRESHOLD"];
        cb_SuccessThreshold := overrideInt env (cb_SuccessThreshold (fs_CircuitBreaker (pl_Fetcher c))) ["FETCHER_CB_SUCCESS_THRESHOLD"];
        cb_OpenTimeoutMs := overrideInt env (cb_OpenTimeoutMs (fs_CircuitBreaker (pl_Fetcher c))) ["FETCHER_CB_OPEN_TIMEOUT_MS"]
      |}
    |};
    pl_Normalizer := {|
      ns_RetryMaxAttempts := overrideInt env (ns_RetryMaxAttempts (pl_Normalizer c)) ["NORMALIZER_RETRY_MAX_ATTEMPTS"];
      ns_RetryDelayInitialMs := overrideInt env (ns_RetryDelayInitialMs (pl_Normalizer c)) ["NORMALIZER_RETRY_DELAY_INITIAL_MS"];
      ns_RetryDelayMaxMs := overrideInt env (ns_RetryDelayMaxMs (pl_Normalizer c)) ["NORMALIZER_RETRY_DELAY_MAX_MS"];
      ns_CircuitBreaker := {|
        cb_FailureThreshold := overrideInt env (cb_FailureThreshold (ns_CircuitBreaker (pl_Normalizer c))) ["NORMALIZER_CB_FAILURE_THRESHOLD"];
        cb_SuccessThreshold := overrideInt env (cb_SuccessThreshold (ns_CircuitBreaker (pl_Normalizer c))) ["NORMALIZER_CB_SUCCESS_THRESHOLD"];
        cb_OpenTimeoutMs := overrideInt env (cb_OpenTimeoutMs (ns_CircuitBreaker (pl_Normalizer c))) ["NORMALIZER_CB_OPEN_TIMEOUT_MS"]
      |}
    |};
    pl_Ingester := {|
      is_RetryMaxAttempts := overrideInt env (is_RetryMaxAttempts (pl_Ingester c)) ["INGESTER_RETRY_MAX_ATTEMPTS"];
      is_RetryDelayInitialMs := overrideInt env (is_RetryDelayInitialMs (pl_Ingester c)) ["INGESTER_RETRY_DELAY_INITIAL_MS"];
      is_RetryDelayMaxMs := overrideInt env (is_RetryDelayMaxMs (pl_Ingester c)) ["INGESTER_RETRY_DELAY_MAX_MS"];
      is_DeniedCacheCapacity := overrideInt env (is_DeniedCacheCapacity (pl_Ingester c)) ["INGESTER_DENIED_CACHE_CAPACITY"];
      is_DeniedCacheTTLSec := overrideInt env (is_DeniedCacheTTLSec (pl_Ingester c)) ["INGESTER_DENIED_CACHE_TTL_SEC"];
      is_BlockScanAddrCacheTTLSec := overrideInt env (is_BlockScanAddrCacheTTLSec (pl_Ingester c)) ["INGESTER_BLOCK_SCAN_ADDR_CACHE_TTL_SEC"]
    |};
    pl_Health := {|
      hs_UnhealthyThreshold := overrideInt env (hs_UnhealthyThreshold (pl_Health c)) ["HEALTH_UNHEALTHY_THRESHOLD"]
    |};
    pl_ConfigWatcher := {|
      cw_IntervalSec := overrideInt env (cw_IntervalSec (pl_ConfigWatcher c)) ["CONFIG_WATCHER_INTERVAL_SEC"]
    |};
    pl_InterleaveMaxSkewMs := overrideInt env (pl_InterleaveMaxSkewMs c) ["INTERLEAVE_MAX_SKEW_MS"]
  |}.

Definition applyPipelineEnvOverrides (env : Env) (cfg : Config) : Config := {|
  cfg_DB := cfg_DB cfg; cfg_Sidecar := cfg_Sidecar cfg; cfg_Solana := cfg_Solana cfg;
  cfg_Base := cfg_Base cfg; cfg_Ethereum := cfg_Ethereum cfg; cfg_BTC := cfg_BTC cfg;
  cfg_Polygon := cfg_Polygon cfg; cfg_Arbitrum := cfg_Arbitrum cfg; cfg_BSC := cfg_BSC cfg;
  cfg_Runtime := cfg_Runtime cfg; cfg_Pipeline := env_pl env (cfg_Pipeline cfg);
  cfg_Server := cfg_Server cfg; cfg_Log := cfg_Log cfg; cfg_Tracing := cfg_Tracing cfg;
  cfg_Alert := cfg_Alert cfg; cfg_Reconciliation := cfg_Reconciliation cfg;
  cfg_ReorgDetector := cfg_ReorgDetector cfg
|}.

Definition env_srv (env : Env) (c : ServerConfig) : ServerConfig :=
  {|
    srv_HealthPort := overrideInt env (srv_HealthPort c) ["HEALTH_PORT"];
    srv_MetricsAuthUser := overrideStr env (srv_MetricsAuthUser c) ["METRICS_AUTH_USER"];
    srv_MetricsAuthPass := overrideStr env (srv_MetricsAuthPass c) ["METRICS_AUTH_PASS"];
    srv_AdminAddr := overrideStr env (srv_AdminAddr c) ["ADMIN_ADDR"];
    srv_AdminAuthUser := overrideStr env (srv_AdminAuthUser c) ["ADMIN_AUTH_USER"];
    srv_AdminAuthPass := overrideStr env (srv_AdminAuthPass c) ["ADMIN_AUTH_PASS"];
    srv_AdminAuthToken := overrideStr env (srv_AdminAuthToken c) ["ADMIN_AUTH_TOKEN"];
    srv_AdminRateLimitEnabled := overrideBool env (srv_AdminRateLimitEnabled c) ["ADMIN_RATE_LIMIT_ENABLED"];
    srv_AdminRequireAuth := overrideBool env (srv_AdminRequireAuth c) ["ADMIN_REQUIRE_AUTH"]
  |}.

Definition applyServerEnvOverrides (env : Env) (cfg : Config) : Config := {|
  cfg_DB := cfg_DB cfg; cfg_Sidecar := cfg_Sidecar cfg; cfg_Solana := cfg_Solana cfg;
  cfg_Base := cfg_Base cfg; cfg_Ethereum := cfg_Ethereum cfg; cfg_BTC := cfg_BTC cfg;
  cfg_Polygon := cfg_Polygon cfg; cfg_Arbitrum := cfg_Arbitrum cfg; cfg_BSC := cfg_BSC cfg;
  cfg_Runtime := cfg_Runtime cfg; cfg_Pipeline := cfg_Pipeline cfg;
  cfg_Server := env_srv env (cfg_Server cfg); cfg_Log := cfg_Log cfg;
  cfg_Tracing := cfg_Tracing cfg; cfg_Alert := cfg_Alert cfg;
  cfg_Reconciliation := cfg_Reconciliation cfg; cfg_ReorgDetector := cfg_ReorgDetector cfg
|}.

Definition env_log (env : Env) (c : LogConfig) : LogConfig :=
  {|
    log_Level := overrideStr env (log_Level c) ["LOG_LEVEL"]
  |}.

Definition env_tr (env : Env) (c : TracingConfig) : TracingConfig :=
  {|
    tr_Enabled := overrideBool env (tr_Enabled c) ["OTEL_TRACING_ENABLED"];
    tr_Endpoint := overrideStr env (tr_Endpoint c) ["OTEL_EXPORTER_OTLP_ENDPOINT"];
    tr_Insecure := overrideBool env (tr_Insecure c) ["OTEL_EXPORTER_OTLP_INSECURE"];
    tr_SampleRatio := overrideFloat64 env (tr_SampleRatio c) ["OTEL_TRACE_SAMPLE_RATIO"]
  |}.

Definition env_alert (env : Env) (c : AlertConfig) : AlertConfig :=
  {|
    alert_SlackWebhookURL := overrideStr env (alert_SlackWebhookURL c) ["SLACK_WEBHOOK_URL"];
    alert_WebhookURL := overrideStr env (alert_WebhookURL c) ["ALERT_WEBHOOK_URL"];
    alert_CooldownMS := overrideInt env (alert_CooldownMS c) ["ALERT_COOLDOWN_MS"]
  |}.

Definition env_rc (env : Env) (c : ReconciliationConfig) : ReconciliationConfig :=
  {|
    rc_IntervalMS := overrideInt env (rc_IntervalMS c) ["RECONCILIATION_INTERVAL_MS"]
  |}.

Definition env_rd (env : Env) (c : ReorgDetectorConfig) : ReorgDetectorConfig :=
  {|
    rd_MaxCheckDepth := overrideInt env (rd_MaxCheckDepth c) ["REORG_DETECTOR_MAX_CHECK_DEPTH"]
  |}.

Definition applyObservabilityEnvOverrides (env : Env) (cfg : Config) : Config := {|
  cfg_DB := cfg_DB cfg; cfg_Sidecar := cfg_Sidecar cfg; cfg_Solana := cfg_Solana cfg;
  cfg_Base := cfg_Base cfg; cfg_Ethereum := cfg_Ethereum cfg; cfg_BTC := cfg_BTC cfg;
  cfg_Polygon := cfg_Polygon cfg; cfg_Arbitrum := cfg_Arbitrum cfg; cfg_BSC := cfg_BSC cfg;
  cfg_Runtime := cfg_Runtime cfg; cfg_Pipeline := cfg_Pipeline cfg; cfg_Server := cfg_Server cfg;
  cfg_Log := env_log env (cfg_Log cfg); cfg_Tracing := env_tr env (cfg_Tracing cfg);
  cfg_Alert := env_alert env (cfg_Alert cfg);
  cfg_Reconciliation := env_rc env (cfg_Reconciliation cfg);
  cfg_ReorgDetector := env_rd env (cfg_ReorgDetector cfg)
|}.

Definition applyEnvOverrides (env : Env) (cfg : Config) : Config :=
  applyObservabilityEnvOverrides env (applyServerEnvOverrides env (applyPipelineEnvOverrides env
    (applyRuntimeEnvOverrides env (applyChainEnvOverrides env (applyInfraEnvOverrides env cfg))))).

(** ** Defaults for zero values *)

Definition defaults_db (c : DBConfig) : DBConfig :=
  {|
    db_URL := db_URL c; db_MaxOpenConns := setDefault (db_MaxOpenConns c) 50;
    db_MaxIdleConns := setDefault (db_MaxIdleConns c) 10;
    db_ConnMaxLifetimeMin := setDefault (db_ConnMaxLifetimeMin c) 30;
    db_ConnMaxIdleTimeMin := setDefault (db_ConnMaxIdleTimeMin c) 2;
    db_ConnMaxLifetime := db_ConnMaxLifetime c; db_ConnMaxIdleTime := db_ConnMaxIdleTime c;
    db_PoolStatsIntervalMS := setDefault (db_PoolStatsIntervalMS c) dbPoolStatsIntervalDefaultMS;
    db_PoolExhaustionThreshold := setDefaultFloat (db_PoolExhaustionThreshold c) (f64 "0.8")
  |}.

Definition defaults_sc (c : SidecarConfig) : SidecarConfig :=
  {|
    sc_Addr := setDefaultStr (sc_Addr c) "localhost:50051";
    sc_TimeoutSec := setDefault (sc_TimeoutSec c) 30; sc_Timeout := sc_Timeout c;
    sc_TLSEnabled := sc_TLSEnabled c; sc_TLSCert := sc_TLSCert c; sc_TLSKey := sc_TLSKey c;
    sc_TLSCA := sc_TLSCA c; sc_MaxMsgSizeMB := setDefault (sc_MaxMsgSizeMB c) 64
  |}.

Definition defaults_sol (c : SolanaConfig) : SolanaConfig :=
  {|
    sol_RPCURL := setDefaultStr (sol_RPCURL c) "https://api.devnet.solana.com";
    sol_Network := setDefaultStr (sol_Network c) "devnet";
    sol_RateLimit := {|
      rl_RPS := setDefaultFloat (rl_RPS (sol_RateLimit c)) (f64 "10");
      rl_Burst := setDefault (rl_Burst (sol_RateLimit c)) 20
    |};
    sol_MaxPageSize := setDefault (sol_MaxPageSize c) 1000;
    sol_MaxConcurrentTxs := setDefault (sol_MaxConcurrentTxs c) 10;
    sol_BlockScanBatchSize := setDefault (sol_BlockScanBatchSize c) 10;
    sol_BlockScanConcurrency := setDefault (sol_BlockScanConcurrency c) 10;
    sol_MaxInitialLookbackBlocks := setDefault (sol_MaxInitialLookbackBlocks c) 100
  |}.

Definition defaults_base (c : BaseConfig) : BaseConfig :=
  {|
    base_RPCURL := base_RPCURL c; base_Network := setDefaultStr (base_Network c) "sepolia";
    base_RateLimit := {|
      rl_RPS := setDefaultFloat (rl_RPS (base_RateLimit c)) (f64 "25");
      rl_Burst := setDefault (rl_Burst (base_RateLimit c)) 50
    |};
    base_MaxInitialLookbackBlocks := setDefault (base_MaxInitialLookbackBlocks c) 200;
    base_MaxConcurrentTxs := setDefault (base_MaxConcurrentTxs c) 10;
    base_TraceEnabled := base_TraceEnabled c
  |}.

Definition defaults_eth (c : EthereumConfig) : EthereumConfig :=
  {|
    eth_RPCURL := eth_RPCURL c; eth_Network := setDefaultStr (eth_Network c) "mainnet";
    eth_RateLimit := {|
      rl_RPS := setDefaultFloat (rl_RPS (eth_RateLimit c)) (f64 "25");
      rl_Burst := setDefault (rl_Burst (eth_RateLimit c)) 50
    |};
    eth_MaxInitialLookbackBlocks := setDefault (eth_MaxInitialLookbackBlocks c) 200;
    eth_MaxConcurrentTxs := setDefault (eth_MaxConcurrentTxs c) 10;
    eth_TraceEnabled := eth_TraceEnabled c
  |}.

Definition defaults_btc (c : BTCConfig) : BTCConfig :=
  {|
    btc_RPCURL := btc_RPCURL c; btc_Network := setDefaultStr (btc_Network c) "testnet";
    btc_RateLimit := {|
      rl_RPS := setDefaultFloat (rl_RPS (btc_RateLimit c)) (f64 "5");
      rl_Burst := setDefault (rl_Burst (btc_RateLimit c)) 10
    |};
    btc_MaxInitialLookbackBlocks := setDefault (btc_MaxInitialLookbackBlocks c) 10;
    btc_BlockScanBatchSize := setDefault (btc_BlockScanBatchSize c) 6
  |}.

Definition defaults_poly (c : PolygonConfig) : PolygonConfig :=
  {|
    poly_RPCURL := poly_RPCURL c; poly_Network := setDefaultStr (poly_Network c) "mainnet";
    poly_RateLimit := {|
      rl_RPS := setDefaultFloat (rl_RPS (poly_RateLimit c)) (f64 "25");
      rl_Burst := setDefault (rl_Burst (poly_RateLimit c)) 50
    |};
    poly_MaxInitialLookbackBlocks := setDefault (poly_MaxInitialLookbackBlocks c) 200;
    poly_MaxConcurrentTxs := setDefault (poly_MaxConcurrentTxs c) 10;
    poly_TraceEnabled := poly_TraceEnabled c
  |}.

Definition defaults_arb (c : ArbitrumConfig) : ArbitrumConfig :=
  {|
    arb_RPCURL := arb_RPCURL c; arb_Network := setDefaultStr (arb_Network c) "mainnet";
    arb_RateLimit := {|
      rl_RPS := setDefaultFloat (rl_RPS (arb_RateLimit c)) (f64 "25");
      rl_Burst := setDefault (rl_Burst (arb_RateLimit c)) 50
    |};
    arb_MaxInitialLookbackBlocks := setDefault (arb_MaxInitialLookbackBlocks c) 200;
    arb_MaxConcurrentTxs := setDefault (arb_MaxConcurrentTxs c) 10;
    arb_TraceEnabled := arb_TraceEnabled c
  |}.

Definition defaults_bsc (c : BSCConfig) : BSCConfig :=
  {|
    bsc_RPCURL := bsc_RPCURL c; bsc_Network := setDefaultStr (bsc_Network c) "mainnet";
    bsc_RateLimit := {|
      rl_RPS := setDefaultFloat (rl_RPS (bsc_RateLimit c)) (f64 "25");
      rl_Burst := setDefault (rl_Burst (bsc_RateLimit c)) 50
    |};
    bsc_MaxInitialLookbackBlocks := setDefault (bsc_MaxInitialLookbackBlocks c) 200;
    bsc_MaxConcurrentTxs := setDefault (bsc_MaxConcurrentTxs c) 10;
    bsc_TraceEnabled := bsc_TraceEnabled c
  |}.

Definition defaults_rt (c : RuntimeConfig) : RuntimeConfig :=
  {|
    rt_DeploymentMode := setDefaultStr (rt_DeploymentMode c) RuntimeDeploymentModeLikeGroup;
    rt_LikeGroup := rt_LikeGroup c; rt_ChainTargets := rt_ChainTargets c
  |}.

Definition defaults_pl (c : PipelineConfig) : PipelineConfig :=
  {|
    pl_ShutdownTimeoutSec := setDefault (pl_ShutdownTimeoutSec c) 30;
    pl_ReorgDetectorIntervalMs := setDefault (pl_ReorgDetectorIntervalMs c) 30000;
    pl_FinalizerIntervalMs := setDefault (pl_FinalizerIntervalMs c) 60000;
    pl_BTCFinalityConfirmations := setDefault (pl_BTCFinalityConfirmations c) 6;
    pl_SolanaWatchedAddresses := pl_SolanaWatchedAddresses c;
    pl_BaseWatchedAddresses := pl_BaseWatchedAddresses c;
    pl_EthereumWatchedAddresses := pl_EthereumWatchedAddresses c;
    pl_BTCWatchedAddresses := pl_BTCWatchedAddresses c;
    pl_PolygonWatchedAddresses := pl_PolygonWatchedAddresses c;
    pl_ArbitrumWatchedAddresses := pl_ArbitrumWatchedAddresses c;
    pl_BSCWatchedAddresses := pl_BSCWatchedAddresses c;
    pl_FetchWorkers := setDefault (pl_FetchWorkers c) 1;
    pl_NormalizerWorkers := setDefault (pl_NormalizerWorkers c) 1;
    pl_BatchSize := setDefault (pl_BatchSize c) 100;
    pl_IndexingIntervalMs := setDefault (pl_IndexingIntervalMs c) 5000;
    pl_ChannelBufferSize := setDefault (pl_ChannelBufferSize c) 10;
    pl_JobChBufferSize := pl_JobChBufferSize c;
    pl_RawBatchChBufferSize := pl_RawBatchChBufferSize c;
    pl_NormalizedChBufferSize := pl_NormalizedChBufferSize c;
    pl_CoordinatorAutoTuneEnabled := pl_CoordinatorAutoTuneEnabled c;
    pl_CoordinatorAutoTuneMinBatchSize := setDefault (pl_CoordinatorAutoTuneMinBatchSize c) 10;
    pl_CoordinatorAutoTuneMaxBatchSize := pl_CoordinatorAutoTuneMaxBatchSize c;
    pl_CoordinatorAutoTuneStepUp := setDefault (pl_CoordinatorAutoTuneStepUp c) 10;
    pl_CoordinatorAutoTuneStepDown := setDefault (pl_CoordinatorAutoTuneStepDown c) 10;
    pl_CoordinatorAutoTuneLagHighWatermark := setDefaultInt64 (pl_CoordinatorAutoTuneLagHighWatermark c) 500;
    pl_CoordinatorAutoTuneLagLowWatermark := setDefaultInt64 (pl_CoordinatorAutoTuneLagLowWatermark c) 100;
    pl_CoordinatorAutoTuneQueueHighPct := setDefault (pl_CoordinatorAutoTuneQueueHighPct c) 80;
    pl_CoordinatorAutoTuneQueueLowPct := setDefault (pl_CoordinatorAutoTuneQueueLowPct c) 30;
    pl_CoordinatorAutoTuneHysteresisTicks := setDefault (pl_CoordinatorAutoTuneHysteresisTicks c) 2;
    pl_CoordinatorAutoTuneTelemetryStaleTicks := setDefault (pl_CoordinatorAutoTuneTelemetryStaleTicks c) 2;
    pl_CoordinatorAutoTuneTelemetryRecoveryTicks := setDefault (pl_CoordinatorAutoTuneTelemetryRecoveryTicks c) 1;
    pl_CoordinatorAutoTuneOperatorOverrideBatch := pl_CoordinatorAutoTuneOperatorOverrideBatch c;
    pl_CoordinatorAutoTuneOperatorReleaseTicks := setDefault (pl_CoordinatorAutoTuneOperatorReleaseTicks c) 2;
    pl_CoordinatorAutoTunePolicyVersion := setDefaultStr (pl_CoordinatorAutoTunePolicyVersion c) "policy-v1";
    pl_CoordinatorAutoTunePolicyManifestDigest := setDefaultStr (pl_CoordinatorAutoTunePolicyManifestDigest c) "manifest-v1";
    pl_CoordinatorAutoTunePolicyManifestRefreshEpoch := pl_CoordinatorAutoTunePolicyManifestRefreshEpoch c;
    pl_CoordinatorAutoTunePolicyActivationHoldTicks := setDefault (pl_CoordinatorAutoTunePolicyActivationHoldTicks c) 1;
    pl_IndexedBlocksRetention := setDefault (pl_IndexedBlocksRetention c) 10000;
    pl_AddressIndex := {|
      ai_BloomExpectedItems := setDefault (ai_BloomExpectedItems (pl_AddressIndex c)) 10000000;
      ai_BloomFPR := setDefaultFloat (ai_BloomFPR (pl_AddressIndex c)) (f64 "0.001");
      ai_LRUCapacity := setDefault (ai_LRUCapacity (pl_AddressIndex c)) 100000;
      ai_LRUTTLSec := setDefault (ai_LRUTTLSec (pl_AddressIndex c)) 600
    |};
    pl_Fetcher := {|
      fs_RetryMaxAttempts := setDefault (fs_RetryMaxAttempts (pl_Fetcher c)) 4;
      fs_BackoffInitialMs := setDefault (fs_BackoffInitialMs (pl_Fetcher c)) 200;
      fs_BackoffMaxMs := setDefault (fs_BackoffMaxMs (pl_Fetcher c)) 3000;
      fs_AdaptiveMinBatch := setDefault (fs_AdaptiveMinBatch (pl_Fetcher c)) 1;
      fs_BoundaryOverlapLookahead := setDefault (fs_BoundaryOverlapLookahead (pl_Fetcher c)) 1;
      fs_BlockScanMaxBatchTxs := setDefault (fs_BlockScanMaxBatchTxs (pl_Fetcher c)) 500;
      fs_CircuitBreaker := {|
        cb_FailureThreshold := setDefault (cb_FailureThreshold (fs_CircuitBreaker (pl_Fetcher c))) 10;
        cb_SuccessThreshold := setDefault (cb_SuccessThreshold (fs_CircuitBreaker (pl_Fetcher c))) 3;
        cb_OpenTimeoutMs := setDefault (cb_OpenTimeoutMs (fs_CircuitBreaker (pl_Fetcher c))) 30000
      |}
    |};
    pl_Normalizer := {|
      ns_RetryMaxAttempts := setDefault (ns_RetryMaxAttempts (pl_Normalizer c)) 3;
      ns_RetryDelayInitialMs := setDefault (ns_RetryDelayInitialMs (pl_Normalizer c)) 100;
      ns_RetryDelayMaxMs := setDefault (ns_RetryDelayMaxMs (pl_Normalizer c)) 1000;
      ns_CircuitBreaker := {|
        cb_FailureThreshold := setDefault (cb_FailureThreshold (ns_CircuitBreaker (pl_Normalizer c))) 5;
        cb_SuccessThreshold := setDefault (cb_SuccessThreshold (ns_CircuitBreaker (pl_Normalizer c))) 2;
        cb_OpenTimeoutMs := setDefault (cb_OpenTimeoutMs (ns_CircuitBreaker (pl_Normalizer c))) 30000
      |}
    |};
    pl_Ingester := {|
      is_RetryMaxAttempts := setDefault (is_RetryMaxAttempts (pl_Ingester c)) 3;
      is_RetryDelayInitialMs := setDefault (is_RetryDelayInitialMs (pl_Ingester c)) 100;
      is_RetryDelayMaxMs := setDefault (is_RetryDelayMaxMs (pl_Ingester c)) 1000;
      is_DeniedCacheCapacity := setDefault (is_DeniedCacheCapacity (pl_Ingester c)) 10000;
      is_DeniedCacheTTLSec := setDefault (is_DeniedCacheTTLSec (pl_Ingester c)) 300;
      is_BlockScanAddrCacheTTLSec := setDefault (is_BlockScanAddrCacheTTLSec (pl_Ingester c)) 30
    |};
    pl_Health := {|
      hs_UnhealthyThreshold := setDefault (hs_UnhealthyThreshold (pl_Health c)) 5
    |};
    pl_ConfigWatcher := {|
      cw_IntervalSec := setDefault (cw_IntervalSec (pl_ConfigWatcher c)) 30
    |};
    pl_InterleaveMaxSkewMs := setDefault (pl_InterleaveMaxSkewMs c) 250
  |}.

(** A stage buffer falls back to the common size, then to its own default. *)
Definition stage_buffer (own common dflt : Z) : Z :=
  if own <=? 0 then (if 0 <? common then common else dflt) else own.

(** The worker counts are clamped, and the sizes that fall back on other
    settings are filled in, after the settings they depend on have theirs. *)
Definition bound_pl (c : PipelineConfig) : PipelineConfig := {|
  pl_ShutdownTimeoutSec := pl_ShutdownTimeoutSec c;
  pl_ReorgDetectorIntervalMs := pl_ReorgDetectorIntervalMs c;
  pl_FinalizerIntervalMs := pl_FinalizerIntervalMs c;
  pl_BTCFinalityConfirmations := pl_BTCFinalityConfirmations c;
  pl_SolanaWatchedAddresses := pl_SolanaWatchedAddresses c;
  pl_BaseWatchedAddresses := pl_BaseWatchedAddresses c;
  pl_EthereumWatchedAddresses := pl_EthereumWatchedAddresses c;
  pl_BTCWatchedAddresses := pl_BTCWatchedAddresses c;
  pl_PolygonWatchedAddresses := pl_PolygonWatchedAddresses c;
  pl_ArbitrumWatchedAddresses := pl_ArbitrumWatchedAddresses c;
  pl_BSCWatchedAddresses := pl_BSCWatchedAddresses c;
  pl_FetchWorkers := clampWorkers (pl_FetchWorkers c) 1 100;
  pl_NormalizerWorkers := clampWorkers (pl_NormalizerWorkers c) 1 100;
  pl_BatchSize := pl_BatchSize c; pl_IndexingIntervalMs := pl_IndexingIntervalMs c;
  pl_ChannelBufferSize := pl_ChannelBufferSize c;
  pl_JobChBufferSize := stage_buffer (pl_JobChBufferSize c) (pl_ChannelBufferSize c) 20;
  pl_RawBatchChBufferSize := stage_buffer (pl_RawBatchChBufferSize c) (pl_ChannelBufferSize c) 10;
  pl_NormalizedChBufferSize := stage_buffer (pl_NormalizedChBufferSize c) (pl_ChannelBufferSize c) 5;
  pl_CoordinatorAutoTuneEnabled := pl_CoordinatorAutoTuneEnabled c;
  pl_CoordinatorAutoTuneMinBatchSize := pl_CoordinatorAutoTuneMinBatchSize c;
  pl_CoordinatorAutoTuneMaxBatchSize := if pl_CoordinatorAutoTuneMaxBatchSize c =? 0 then pl_BatchSize c else pl_CoordinatorAutoTuneMaxBatchSize c;
  pl_CoordinatorAutoTuneStepUp := pl_CoordinatorAutoTuneStepUp c;
  pl_CoordinatorAutoTuneStepDown := pl_CoordinatorAutoTuneStepDown c;
  pl_CoordinatorAutoTuneLagHighWatermark := pl_CoordinatorAutoTuneLagHighWatermark c;
  pl_CoordinatorAutoTuneLagLowWatermark := pl_CoordinatorAutoTuneLagLowWatermark c;
  pl_CoordinatorAutoTuneQueueHighPct := pl_CoordinatorAutoTuneQueueHighPct c;
  pl_CoordinatorAutoTuneQueueLowPct := pl_CoordinatorAutoTuneQueueLowPct c;
  pl_CoordinatorAutoTuneHysteresisTicks := pl_CoordinatorAutoTuneHysteresisTicks c;
  pl_CoordinatorAutoTuneTelemetryStaleTicks := pl_CoordinatorAutoTuneTelemetryStaleTicks c;
  pl_CoordinatorAutoTuneTelemetryRecoveryTicks := pl_CoordinatorAutoTuneTelemetryRecoveryTicks c;
  pl_CoordinatorAutoTuneOperatorOverrideBatch := pl_CoordinatorAutoTuneOperatorOverrideBatch c;
  pl_CoordinatorAutoTuneOperatorReleaseTicks := pl_CoordinatorAutoTuneOperatorReleaseTicks c;
  pl_CoordinatorAutoTunePolicyVersion := pl_CoordinatorAutoTunePolicyVersion c;
  pl_CoordinatorAutoTunePolicyManifestDigest := pl_CoordinatorAutoTunePolicyManifestDigest c;
  pl_CoordinatorAutoTunePolicyManifestRefreshEpoch := pl_CoordinatorAutoTunePolicyManifestRefreshEpoch c;
  pl_CoordinatorAutoTunePolicyActivationHoldTicks := pl_CoordinatorAutoTunePolicyActivationHoldTicks c;
  pl_IndexedBlocksRetention := pl_IndexedBlocksRetention c; pl_AddressIndex := pl_AddressIndex c;
  pl_Fetcher := pl_Fetcher c; pl_Normalizer := pl_Normalizer c; pl_Ingester := pl_Ingester c;
  pl_Health := pl_Health c; pl_ConfigWatcher := pl_ConfigWatcher c;
  pl_InterleaveMaxSkewMs := pl_InterleaveMaxSkewMs c
|}.

(** An admin security switch that is off is turned on when an admin address is
    configured, unless its variable is set. *)
Definition defaults_srv (env : Env) (c : ServerConfig) : ServerConfig :=
  let secure_default (on : bool) (addr key : string) : bool :=
    if negb on && negb (str_empty addr)
    then match env key with Some _ => on | None => true end
    else on in
  {|
    srv_HealthPort := setDefault (srv_HealthPort c) 8080;
    srv_MetricsAuthUser := srv_MetricsAuthUser c; srv_MetricsAuthPass := srv_MetricsAuthPass c;
    srv_AdminAddr := srv_AdminAddr c; srv_AdminAuthUser := srv_AdminAuthUser c;
    srv_AdminAuthPass := srv_AdminAuthPass c; srv_AdminAuthToken := srv_AdminAuthToken c;
    srv_AdminRateLimitEnabled := secure_default (srv_AdminRateLimitEnabled c) (srv_AdminAddr c) "ADMIN_RATE_LIMIT_ENABLED";
    srv_AdminRequireAuth := secure_default (srv_AdminRequireAuth c) (srv_AdminAddr c) "ADMIN_REQUIRE_AUTH"
  |}.

Definition defaults_log (c : LogConfig) : LogConfig :=
  {|
    log_Level := setDefaultStr (log_Level c) "info"
  |}.

Definition defaults_tr (c : TracingConfig) : TracingConfig :=
  {|
    tr_Enabled := tr_Enabled c; tr_Endpoint := tr_Endpoint c; tr_Insecure := tr_Insecure c;
    tr_SampleRatio := setDefaultFloat (tr_SampleRatio c) (f64 "0.1")
  |}.

Definition defaults_alert (c : AlertConfig) : AlertConfig :=
  {|
    alert_SlackWebhookURL := alert_SlackWebhookURL c; alert_WebhookURL := alert_WebhookURL c;
    alert_CooldownMS := setDefault (alert_CooldownMS c) 1800000
  |}.

Definition defaults_rc (c : ReconciliationConfig) : ReconciliationConfig :=
  {|
    rc_IntervalMS := setDefault (rc_IntervalMS c) 3600000
  |}.

Definition defaults_rd (c : ReorgDetectorConfig) : ReorgDetectorConfig :=
  {|
    rd_MaxCheckDepth := setDefault (rd_MaxCheckDepth c) 256
  |}.
Definition applyDefaults (env : Env) (cfg : Config) : Config := {|
  cfg_DB := defaults_db (cfg_DB cfg); cfg_Sidecar := defaults_sc (cfg_Sidecar cfg);
  cfg_Solana := defaults_sol (cfg_Solana cfg); cfg_Base := defaults_base (cfg_Base cfg);
  cfg_Ethereum := defaults_eth (cfg_Ethereum cfg); cfg_BTC := defaults_btc (cfg_BTC cfg);
  cfg_Polygon := defaults_poly (cfg_Polygon cfg); cfg_Arbitrum := defaults_arb (cfg_Arbitrum cfg);
  cfg_BSC := defaults_bsc (cfg_BSC cfg); cfg_Runtime := defaults_rt (cfg_Runtime cfg);
  cfg_Pipeline := bound_pl (defaults_pl (cfg_Pipeline cfg));
  cfg_Server := defaults_srv env (cfg_Server cfg); cfg_Log := defaults_log (cfg_Log cfg);
  cfg_Tracing := defaults_tr (cfg_Tracing cfg); cfg_Alert := defaults_alert (cfg_Alert cfg);
  cfg_Reconciliation := defaults_rc (cfg_Reconciliation cfg);
  cfg_ReorgDetector := defaults_rd (cfg_ReorgDetector cfg)
|}.

(** ** Derived durations, in nanoseconds of an [int64] *)

Definition Second : Z := 1000000000.
Definition Minute : Z := 60 * Second.

Definition derive_db (c : DBConfig) : DBConfig := {|
  db_URL := db_URL c; db_MaxOpenConns := db_MaxOpenConns c; db_MaxIdleConns := db_MaxIdleConns c;
  db_ConnMaxLifetimeMin := db_ConnMaxLifetimeMin c;
  db_ConnMaxIdleTimeMin := db_ConnMaxIdleTimeMin c;
  db_ConnMaxLifetime := wrap64 (db_ConnMaxLifetimeMin c * Minute);
  db_ConnMaxIdleTime := wrap64 (db_ConnMaxIdleTimeMin c * Minute);
  db_PoolStatsIntervalMS := db_PoolStatsIntervalMS c;
  db_PoolExhaustionThreshold := db_PoolExhaustionThreshold c
|}.

Definition derive_sc (c : SidecarConfig) : SidecarConfig := {|
  sc_Addr := sc_Addr c; sc_TimeoutSec := sc_TimeoutSec c;
  sc_Timeout := wrap64 (sc_TimeoutSec c * Second); sc_TLSEnabled := sc_TLSEnabled c;
  sc_TLSCert := sc_TLSCert c; sc_TLSKey := sc_TLSKey c; sc_TLSCA := sc_TLSCA c;
  sc_MaxMsgSizeMB := sc_MaxMsgSizeMB c
|}.

Definition set_pool_interval (v : Z) (c : DBConfig) : DBConfig := {|
  db_URL := db_URL c; db_MaxOpenConns := db_MaxOpenConns c; db_MaxIdleConns := db_MaxIdleConns c;
  db_ConnMaxLifetimeMin := db_ConnMaxLifetimeMin c;
  db_ConnMaxIdleTimeMin := db_ConnMaxIdleTimeMin c; db_ConnMaxLifetime := db_ConnMaxLifetime c;
  db_ConnMaxIdleTime := db_ConnMaxIdleTime c; db_PoolStatsIntervalMS := v;
  db_PoolExhaustionThreshold := db_PoolExhaustionThreshold c
|}.

Definition with_db (f : DBConfig -> DBConfig) (cfg : Config) : Config := {|
  cfg_DB := f (cfg_DB cfg); cfg_Sidecar := cfg_Sidecar cfg; cfg_Solana := cfg_Solana cfg;
  cfg_Base := cfg_Base cfg; cfg_Ethereum := cfg_Ethereum cfg; cfg_BTC := cfg_BTC cfg;
  cfg_Polygon := cfg_Polygon cfg; cfg_Arbitrum := cfg_Arbitrum cfg; cfg_BSC := cfg_BSC cfg;
  cfg_Runtime := cfg_Runtime cfg; cfg_Pipeline := cfg_Pipeline cfg; cfg_Server := cfg_Server cfg;
  cfg_Log := cfg_Log cfg; cfg_Tracing := cfg_Tracing cfg; cfg_Alert := cfg_Alert cfg;
  cfg_Reconciliation := cfg_Reconciliation cfg; cfg_ReorgDetector := cfg_ReorgDetector cfg
|}.

Definition computeDerived (cfg : Config) : Config := {|
  cfg_DB := derive_db (cfg_DB cfg); cfg_Sidecar := derive_sc (cfg_Sidecar cfg);
  cfg_Solana := cfg_Solana cfg; cfg_Base := cfg_Base cfg; cfg_Ethereum := cfg_Ethereum cfg;
  cfg_BTC := cfg_BTC cfg; cfg_Polygon := cfg_Polygon cfg; cfg_Arbitrum := cfg_Arbitrum cfg;
  cfg_BSC := cfg_BSC cfg; cfg_Runtime := cfg_Runtime cfg; cfg_Pipeline := cfg_Pipeline cfg;
  cfg_Server := cfg_Server cfg; cfg_Log := cfg_Log cfg; cfg_Tracing := cfg_Tracing cfg;
  cfg_Alert := cfg_Alert cfg; cfg_Reconciliation := cfg_Reconciliation cfg;
  cfg_ReorgDetector := cfg_ReorgDetector cfg
|}.

(** ** Validation *)

Inductive target_error :=
| TargetEmpty
| TargetFormat (target : string)
| TargetChain (target chain : string)
| TargetNetwork (target network chain : string).

Definition supportedNetworks : list (string * list string) :=
  [("solana", ["devnet"; "mainnet"]); ("base", ["sepolia"]); ("ethereum", ["mainnet"]);
   ("btc", ["testnet"; "mainnet"]); ("polygon", ["mainnet"; "amoy"]);
   ("arbitrum", ["mainnet"; "sepolia"]); ("bsc", ["mainnet"; "testnet"])].

Fixpoint networks_of (chain : string) (l : list (string * list string)) : option (list string) :=
  match l with
  | [] => None
  | (c, ns) :: l' => if str_eqb c chain then Some ns else networks_of chain l'
  end.

(** [strings.SplitN(s, "-", 2)] has two parts when the separator occurs. *)
Definition parseRuntimeTargetKey (target : string) : result target_error (string * string) :=
  let normalized := trim_space (to_lower target) in
  if str_empty normalized then Err TargetEmpty
  else match cut_on "-" normalized with
       | None => Err (TargetFormat target)
       | Some (p0, p1) =>
           if str_empty (trim_space p1) then Err (TargetFormat target)
           else
             let chain := trim_space p0 in
             let network := trim_space p1 in
             match networks_of chain supportedNetworks with
             | None => Err (TargetChain target chain)
             | Some networks =>
                 if str_in network networks then Ok (chain, network)
                 else Err (TargetNetwork target network chain)
             end
       end.

Definition chainNameFromTargetKey (target : string) : result target_error string :=
  match parseRuntimeTargetKey target with
  | Ok (chainName, _) => Ok chainName
  | Err e => Err e
  end.

(** The keys already seen only skip work on duplicates. *)
Fixpoint validate_targets (seen : list string) (targets : list string) : result target_error unit :=
  match targets with
  | [] => Ok tt
  | target :: rest =>
      match parseRuntimeTargetKey target with
      | Err e => Err e
      | Ok (chain, network) =>
          let key := chain +:+ "-" +:+ network in
          if str_in key seen then validate_targets seen rest
          else validate_targets (key :: seen) rest
      end
  end.

Definition validateRuntimeChainTargets (targets : list string) : result target_error unit :=
  validate_targets [] targets.

Inductive load_error :=
| FileRead
| FileParse
| PoolIntervalNotInteger
| PoolIntervalOutOfRange
| DBURLRequired
| SidecarAddrRequired
| SidecarCARequired
| DeploymentModeInvalid
| LikeGroupInvalid
| LikeGroupNotAllowed
| ChainTargetRequired
| ChainTargetNotSingle
| ChainTargetInvalid (e : target_error)
| RPCURLRequired (key : string)
| MaxOpenConnsExceeded
| BatchSizeExceeded
| AdminAddrInvalid
| RateLimitNegative (prefix : string)
| BurstNegative (prefix : string).

(** The chains that are required, each name at most once. *)
Definition addChainTargets (required : gmap string bool) (targets : list string)
  : result load_error (gmap string bool) :=
  rfoldl (fun required target =>
    match chainNameFromTargetKey target with
    | Ok chainName => Ok (<[chainName := true]> required)
    | Err e => Err (ChainTargetInvalid e)
    end) required targets.

Definition no_chains : gmap string bool :=
  list_to_map [("solana", false); ("base", false); ("ethereum", false); ("btc", false);
               ("polygon", false); ("arbitrum", false); ("bsc", false)].

Definition requiredRuntimeChains (runtime : RuntimeConfig) : result load_error (gmap string bool) :=
  if str_eqb (rt_DeploymentMode runtime) RuntimeDeploymentModeIndependent then
    addChainTargets no_chains (rt_ChainTargets runtime)
  else if str_eqb (rt_DeploymentMode runtime) RuntimeDeploymentModeLikeGroup then
    match rt_ChainTargets runtime with
    | _ :: _ => addChainTargets no_chains (rt_ChainTargets runtime)
    | [] =>
        if str_empty (rt_LikeGroup runtime) then
          Ok (<["btc" := true]> (<["base" := true]> (<["solana" := true]> no_chains)))
        else if str_eqb (rt_LikeGroup runtime) RuntimeLikeGroupSolana then
          Ok (<["solana" := true]> no_chains)
        else if str_eqb (rt_LikeGroup runtime) RuntimeLikeGroupEVM then
          Ok (<["base" := true]> no_chains)
        else if str_eqb (rt_LikeGroup runtime) RuntimeLikeGroupBTC then
          Ok (<["btc" := true]> no_chains)
        else Err LikeGroupInvalid
    end
  else Err DeploymentModeInvalid.

Definition isValidAddr (addr : string) : bool :=
  if str_empty addr then false
  else
    let parts := split_on ":" addr in
    if (length parts <? 2)%nat then false
    else match parse_int64 (List.last parts "") with
         | Some port => negb ((port <? 1) || (65535 <? port))
         | None => false
         end.

Definition validateRateLimitConfig (prefix : string) (rl : RPCRateLimitConfig) : result load_error unit :=
  if f64_ltb (rl_RPS rl) f64_zero then Err (RateLimitNegative prefix)
  else if rl_Burst rl <? 0 then Err (BurstNegative prefix)
  else Ok tt.

(** [return fmt.Errorf(...)] when the condition holds. *)
Definition reject_if (b : bool) (e : load_error) : result load_error unit :=
  if b then Err e else Ok tt.

Definition is_required (required : gmap string bool) (chain : string) : bool :=
  default false (required !! chain).

Local Open Scope go_scope.

Definition validate_runtime (r : RuntimeConfig) : result load_error unit :=
  let! _ := reject_if (negb (str_in (rt_DeploymentMode r)
              [RuntimeDeploymentModeLikeGroup; RuntimeDeploymentModeIndependent]))
              DeploymentModeInvalid in
  let! _ := reject_if (negb (str_empty (rt_LikeGroup r)) &&
              negb (str_in (rt_LikeGroup r)
                [RuntimeLikeGroupSolana; RuntimeLikeGroupEVM; RuntimeLikeGroupBTC]))
              LikeGroupInvalid in
  let! _ :=
    if str_eqb (rt_DeploymentMode r) RuntimeDeploymentModeIndependent then
      let! _ := reject_if (negb (str_empty (rt_LikeGroup r))) LikeGroupNotAllowed in
      let! _ := reject_if (length (rt_ChainTargets r) =? 0)%nat ChainTargetRequired in
      reject_if (negb (length (rt_ChainTargets r) =? 1)%nat) ChainTargetNotSingle
    else Ok tt in
  match validateRuntimeChainTargets (rt_ChainTargets r) with
  | Ok _ => Ok tt
  | Err e => Err (ChainTargetInvalid e)
  end.

Definition validate_urls (required : gmap string bool) (c : Config) : result load_error unit :=
  let require (chain url key : string) : result load_error unit :=
    reject_if (is_required required chain && str_empty url) (RPCURLRequired key) in
  let! _ := require "solana" (sol_RPCURL (cfg_Solana c)) "SOLANA_RPC_URL" in
  let! _ := require "base" (base_RPCURL (cfg_Base c)) "BASE_SEPOLIA_RPC_URL" in
  let! _ := require "ethereum" (eth_RPCURL (cfg_Ethereum c)) "ETH_MAINNET_RPC_URL" in
  let! _ := require "btc" (btc_RPCURL (cfg_BTC c)) "BTC_TESTNET_RPC_URL" in
  let! _ := require "polygon" (poly_RPCURL (cfg_Polygon c)) "POLYGON_RPC_URL" in
  let! _ := require "arbitrum" (arb_RPCURL (cfg_Arbitrum c)) "ARBITRUM_RPC_URL" in
  require "bsc" (bsc_RPCURL (cfg_BSC c)) "BSC_RPC_URL".

Definition validate_bounds (c : Config) : result load_error unit :=
  let! _ := reject_if (200 <? db_MaxOpenConns (cfg_DB c)) MaxOpenConnsExceeded in
  let! _ := reject_if (10000 <? pl_BatchSize (cfg_Pipeline c)) BatchSizeExceeded in
  let! _ := reject_if (negb (str_empty (srv_AdminAddr (cfg_Server c))) &&
                       negb (isValidAddr (srv_AdminAddr (cfg_Server c)))) AdminAddrInvalid in
  let! _ := validateRateLimitConfig "SOLANA" (sol_RateLimit (cfg_Solana c)) in
  let! _ := validateRateLimitConfig "BASE" (base_RateLimit (cfg_Base c)) in
  let! _ := validateRateLimitConfig "ETH" (eth_RateLimit (cfg_Ethereum c)) in
  let! _ := validateRateLimitConfig "BTC" (btc_RateLimit (cfg_BTC c)) in
  let! _ := validateRateLimitConfig "POLYGON" (poly_RateLimit (cfg_Polygon c)) in
  let! _ := validateRateLimitConfig "ARBITRUM" (arb_RateLimit (cfg_Arbitrum c)) in
  validateRateLimitConfig "BSC" (bsc_RateLimit (cfg_BSC c)).

Definition validate (c : Config) : result load_error unit :=
  let! _ := reject_if (str_empty (db_URL (cfg_DB c))) DBURLRequired in
  let! _ := reject_if (str_empty (sc_Addr (cfg_Sidecar c))) SidecarAddrRequired in
  let! _ := reject_if (sc_TLSEnabled (cfg_Sidecar c) && str_empty (sc_TLSCA (cfg_Sidecar c)))
              SidecarCARequired in
  let! _ := validate_runtime (cfg_Runtime c) in
  let! requiredChains := requiredRuntimeChains (cfg_Runtime c) in
  let! _ := validate_urls requiredChains c in
  validate_bounds c.

(** ** Loading *)

Inductive read_result :=
| FileData (data : string)
| FileMissing
| FileFailed.

(** What the process runs in: its environment, the files it can read, and the
    YAML decoder, which fills a configuration from a document. *)
Record Host := {
  h_env : Env;
  h_read : string -> read_result;
  h_yaml : string -> Config -> option Config
}.

Definition zero_Config : Config :=
  mkConfig (mkDBConfig "" 0 0 0 0 0 0 0 f64_zero) (mkSidecarConfig "" 0 0 false "" "" "" 0)
  (mkSolanaConfig "" "" (mkRPCRateLimitConfig f64_zero 0) 0 0 0 0 0) (mkBaseConfig "" ""
  (mkRPCRateLimitConfig f64_zero 0) 0 0 false) (mkEthereumConfig "" "" (mkRPCRateLimitConfig
  f64_zero 0) 0 0 false) (mkBTCConfig "" "" (mkRPCRateLimitConfig f64_zero 0) 0 0)
  (mkPolygonConfig "" "" (mkRPCRateLimitConfig f64_zero 0) 0 0 false) (mkArbitrumConfig "" ""
  (mkRPCRateLimitConfig f64_zero 0) 0 0 false) (mkBSCConfig "" "" (mkRPCRateLimitConfig f64_zero
  0) 0 0 false) (mkRuntimeConfig "" "" []) (mkPipelineConfig 0 0 0 0 [] [] [] [] [] [] [] 0 0 0 0
  0 0 0 0 false 0 0 0 0 0 0 0 0 0 0 0 0 0 "" "" 0 0 0 (mkAddressIndexConfig 0 f64_zero 0 0)
  (mkFetcherStageConfig 0 0 0 0 0 0 (mkCircuitBreakerConfig 0 0 0)) (mkNormalizerStageConfig 0 0
  0 (mkCircuitBreakerConfig 0 0 0)) (mkIngesterStageConfig 0 0 0 0 0 0) (mkHealthStageConfig 0)
  (mkConfigWatcherStageConfig 0) 0) (mkServerConfig 0 "" "" "" "" "" "" false false) (mkLogConfig
  "") (mkTracingConfig false "" false f64_zero) (mkAlertConfig "" "" 0) (mkReconciliationConfig
  0) (mkReorgDetectorConfig 0).

Definition loadYAMLFile (h : Host) (cfg : Config) : result load_error Config :=
  let p := Getenv (h_env h) "CONFIG_FILE" in
  let path := if str_empty p then "config.yaml" else p in
  match h_read h path with
  | FileMissing => Ok cfg
  | FileFailed => Err FileRead
  | FileData data =>
      match h_yaml h data cfg with
      | Some cfg' => Ok cfg'
      | None => Err FileParse
      end
  end.

(** Step 5 of [Load]. *)
Definition check_pool_interval (env : Env) (cfg : Config) : result load_error Config :=
  let trimmed := trim_space (Getenv env "DB_POOL_STATS_INTERVAL_MS") in
  if negb (str_empty trimmed) then
    match parse_int64 trimmed with
    | None => Err PoolIntervalNotInteger
    | Some parsed =>
        if (parsed <? dbPoolStatsIntervalMinMS) || (dbPoolStatsIntervalMaxMS <? parsed)
        then Err PoolIntervalOutOfRange else Ok cfg
    end
  else if (db_PoolStatsIntervalMS (cfg_DB cfg) <? dbPoolStatsIntervalMinMS)
          || (dbPoolStatsIntervalMaxMS <? db_PoolStatsIntervalMS (cfg_DB cfg))
  then Ok (with_db (set_pool_interval dbPoolStatsIntervalDefaultMS) cfg)
  else Ok cfg.

Definition Load (h : Host) : result load_error Config :=
  let! cfg := loadYAMLFile h zero_Config in
  let cfg := applyEnvOverrides (h_env h) cfg in
  let cfg := applyDefaults (h_env h) cfg in
  let cfg := computeDerived cfg in
  let! cfg := check_pool_interval (h_env h) cfg in
  let! _ := validate cfg in
  Ok cfg.
