(* ===== verification/ConfigReload.v ===== *)
(** * Loading a configuration again

    A configuration that was loaded, written to a file and loaded in the same
    environment is the same configuration: every override either fixes a value
    or leaves it alone, and every default leaves what it set alone. *)

From S2P Require Import Prelude Float64 Config ConfigProofs.
From Stdlib Require Import ZArith Lia Ascii String.
From stdpp Require Import base option list strings gmap.

Open Scope string_scope.
Open Scope Z_scope.

(** An override fixes the value whatever the target, or returns the target. *)
Definition sticky {A} (f : A -> A) : Prop := (exists k, forall v, f v = k) \/ (forall v, f v = v).

Lemma sticky_again {A} (f g : A -> A) v :
  sticky f -> (forall x, g (g x) = g x) -> g (f (g (f v))) = g (f v).
Proof. intros [[k Hf]|Hf] Hg; rewrite !Hf; [done|by rewrite Hg]. Qed.

Lemma sticky_plain {A} (f : A -> A) v : sticky f -> f (f v) = f v.
Proof. intros [[k Hf]|Hf]; by rewrite !Hf. Qed.

(** Each helper walks the keys: the first one that decides fixes the value. *)
Ltac sticky_keys keys env :=
  induction keys as [|key keys IH]; [by right|]; simpl;
  destruct (env key) as [v|]; [|done]; simpl;
  repeat match goal with
  | |- context [if ?b then _ else _] => destruct b
  | |- context [match ?o with Some _ => _ | None => _ end] => destruct o
  end; first [exact IH | left; eexists; intros ?; reflexivity].

Lemma overrideStr_sticky env keys : sticky (fun t => overrideStr env t keys).
Proof. sticky_keys keys env. Qed.
Lemma overrideStrAny_sticky env keys : sticky (fun t => overrideStrAny env t keys).
Proof. sticky_keys keys env. Qed.
Lemma overrideStrLower_sticky env keys : sticky (fun t => overrideStrLower env t keys).
Proof. sticky_keys keys env. Qed.
Lemma overrideInt_sticky env keys : sticky (fun t => overrideInt env t keys).
Proof. sticky_keys keys env. Qed.
Lemma overrideInt64_sticky env keys : sticky (fun t => overrideInt64 env t keys).
Proof. sticky_keys keys env. Qed.
Lemma overrideIntBounded_sticky env keys : sticky (fun t => overrideIntBounded env t keys).
Proof. sticky_keys keys env. Qed.
Lemma overrideBool_sticky env keys : sticky (fun t => overrideBool env t keys).
Proof. sticky_keys keys env. Qed.
Lemma overrideFloat64_sticky env keys : sticky (fun t => overrideFloat64 env t keys).
Proof. sticky_keys keys env. Qed.
Lemma overrideCSVList_sticky env keys : sticky (fun t => overrideCSVList env t keys).
Proof. sticky_keys keys env. Qed.

Lemma setDefault_again t d : setDefault (setDefault t d) d = setDefault t d.
Proof. unfold setDefault. destruct (t =? 0) eqn:E; [by destruct (d =? 0)|by rewrite E]. Qed.
Lemma setDefaultStr_again t d : setDefaultStr (setDefaultStr t d) d = setDefaultStr t d.
Proof. unfold setDefaultStr. destruct (str_empty t) eqn:E; [by destruct (str_empty d)|by rewrite E]. Qed.
Lemma setDefaultFloat_again t d : setDefaultFloat (setDefaultFloat t d) d = setDefaultFloat t d.
Proof. unfold setDefaultFloat. destruct (f64_eqb t f64_zero) eqn:E; [by destruct (f64_eqb d f64_zero)|by rewrite E]. Qed.

(** ** The rows of the structures *)

Lemma reload_int env keys d v :
  setDefault (overrideInt env (setDefault (overrideInt env v keys) d) keys) d = setDefault (overrideInt env v keys) d.
Proof. apply (sticky_again (fun t => overrideInt env t keys) (fun t => setDefault t d)); [apply overrideInt_sticky|intros; apply setDefault_again]. Qed.
Lemma reload_bounded env keys d v :
  setDefault (overrideIntBounded env (setDefault (overrideIntBounded env v keys) d) keys) d = setDefault (overrideIntBounded env v keys) d.
Proof. apply (sticky_again (fun t => overrideIntBounded env t keys) (fun t => setDefault t d)); [apply overrideIntBounded_sticky|intros; apply setDefault_again]. Qed.
Lemma reload_int64 env keys d v :
  setDefaultInt64 (overrideInt64 env (setDefaultInt64 (overrideInt64 env v keys) d) keys) d = setDefaultInt64 (overrideInt64 env v keys) d.
Proof. apply (sticky_again (fun t => overrideInt64 env t keys) (fun t => setDefaultInt64 t d)); [apply overrideInt64_sticky|intros; apply setDefault_again]. Qed.
Lemma reload_str env keys d v :
  setDefaultStr (overrideStr env (setDefaultStr (overrideStr env v keys) d) keys) d = setDefaultStr (overrideStr env v keys) d.
Proof. apply (sticky_again (fun t => overrideStr env t keys) (fun t => setDefaultStr t d)); [apply overrideStr_sticky|intros; apply setDefaultStr_again]. Qed.
Lemma reload_strany env keys d v :
  setDefaultStr (overrideStrAny env (setDefaultStr (overrideStrAny env v keys) d) keys) d = setDefaultStr (overrideStrAny env v keys) d.
Proof. apply (sticky_again (fun t => overrideStrAny env t keys) (fun t => setDefaultStr t d)); [apply overrideStrAny_sticky|intros; apply setDefaultStr_again]. Qed.
Lemma reload_strlower env keys d v :
  setDefaultStr (overrideStrLower env (setDefaultStr (overrideStrLower env v keys) d) keys) d = setDefaultStr (overrideStrLower env v keys) d.
Proof. apply (sticky_again (fun t => overrideStrLower env t keys) (fun t => setDefaultStr t d)); [apply overrideStrLower_sticky|intros; apply setDefaultStr_again]. Qed.
Lemma reload_float env keys d v :
  setDefaultFloat (overrideFloat64 env (setDefaultFloat (overrideFloat64 env v keys) d) keys) d = setDefaultFloat (overrideFloat64 env v keys) d.
Proof. apply (sticky_again (fun t => overrideFloat64 env t keys) (fun t => setDefaultFloat t d)); [apply overrideFloat64_sticky|intros; apply setDefaultFloat_again]. Qed.

Lemma keep_bool env keys v : overrideBool env (overrideBool env v keys) keys = overrideBool env v keys.
Proof. apply (sticky_plain (fun t => overrideBool env t keys)), overrideBool_sticky. Qed.
Lemma keep_str env keys v : overrideStr env (overrideStr env v keys) keys = overrideStr env v keys.
Proof. apply (sticky_plain (fun t => overrideStr env t keys)), overrideStr_sticky. Qed.
Lemma keep_strany env keys v : overrideStrAny env (overrideStrAny env v keys) keys = overrideStrAny env v keys.
Proof. apply (sticky_plain (fun t => overrideStrAny env t keys)), overrideStrAny_sticky. Qed.
Lemma keep_strlower env keys v : overrideStrLower env (overrideStrLower env v keys) keys = overrideStrLower env v keys.
Proof. apply (sticky_plain (fun t => overrideStrLower env t keys)), overrideStrLower_sticky. Qed.
Lemma keep_int env keys v : overrideInt env (overrideInt env v keys) keys = overrideInt env v keys.
Proof. apply (sticky_plain (fun t => overrideInt env t keys)), overrideInt_sticky. Qed.
Lemma keep_int64 env keys v : overrideInt64 env (overrideInt64 env v keys) keys = overrideInt64 env v keys.
Proof. apply (sticky_plain (fun t => overrideInt64 env t keys)), overrideInt64_sticky. Qed.
Lemma keep_csv env keys v : overrideCSVList env (overrideCSVList env v keys) keys = overrideCSVList env v keys.
Proof. apply (sticky_plain (fun t => overrideCSVList env t keys)), overrideCSVList_sticky. Qed.

#[local] Arguments overrideInt : simpl never.
#[local] Arguments overrideInt64 : simpl never.
#[local] Arguments overrideIntBounded : simpl never.
#[local] Arguments overrideBool : simpl never.
#[local] Arguments overrideStr : simpl never.
#[local] Arguments overrideStrAny : simpl never.
#[local] Arguments overrideStrLower : simpl never.
#[local] Arguments overrideFloat64 : simpl never.
#[local] Arguments overrideCSVList : simpl never.
#[local] Arguments f64 : simpl never.
#[local] Arguments setDefaultFloat : simpl never.
#[local] Arguments clampWorkers : simpl never.
#[local] Arguments stage_buffer : simpl never.
#[local] Arguments setDefault : simpl never.
#[local] Arguments setDefaultStr : simpl never.

Create Rewrite HintDb reload.
#[export] Hint Rewrite reload_int reload_bounded reload_int64 reload_str reload_strany reload_strlower reload_float
  keep_bool keep_str keep_strany keep_strlower keep_int keep_int64 keep_csv : reload.

(** ** The workers and the sizes that depend on others *)

Lemma clamp_again env keys v d :
  clampWorkers (setDefault (overrideInt env (clampWorkers (setDefault (overrideInt env v keys) d) 1 100) keys) d) 1 100 =
  clampWorkers (setDefault (overrideInt env v keys) d) 1 100.
Proof.
  apply (sticky_again (fun t => overrideInt env t keys) (fun t => clampWorkers (setDefault t d) 1 100)).
  - apply overrideInt_sticky.
  - intros x. pose proof (clampWorkers_bounds (setDefault x d) 1 100 ltac:(lia)) as Hb.
    set (y := clampWorkers (setDefault x d) 1 100) in *.
    assert (Hy : setDefault y d = y) by (unfold setDefault; destruct (y =? 0) eqn:E; lia).
    rewrite Hy. unfold clampWorkers. repeat case_match; lia.
Qed.

Lemma buffer_again env keys v common d :
  0 < d ->
  stage_buffer (overrideInt env (stage_buffer (overrideInt env v keys) common d) keys) common d =
  stage_buffer (overrideInt env v keys) common d.
Proof.
  intros Hd. apply (sticky_again (fun t => overrideInt env t keys) (fun t => stage_buffer t common d)).
  - apply overrideInt_sticky.
  - intros x. pose proof (stage_buffer_pos x common d Hd). unfold stage_buffer at 1.
    destruct (_ <=? 0) eqn:E; [lia|done].
Qed.

Lemma max_again env keys v batch :
  let fill t := if t =? 0 then batch else t in
  fill (overrideInt env (fill (overrideInt env v keys)) keys) = fill (overrideInt env v keys).
Proof.
  simpl. apply (sticky_again (fun t => overrideInt env t keys) (fun t => if t =? 0 then batch else t)).
  - apply overrideInt_sticky.
  - intros x. destruct (x =? 0) eqn:E; [|by rewrite E]. by destruct (batch =? 0) eqn:E'.
Qed.

Lemma secure_again env keys v (dep : bool) :
  let secure (on : bool) := if negb on && dep then true else on in
  secure (overrideBool env (secure (overrideBool env v keys)) keys) = secure (overrideBool env v keys).
Proof.
  simpl. apply (sticky_again (fun t => overrideBool env t keys)
    (fun on => if negb on && dep then true else on)); [apply overrideBool_sticky|].
  by intros [] ; destruct dep.
Qed.

(** ** The runtime targets *)

Lemma normalize_again l seen :
  (forall x, x ∈ normalize_values seen l -> to_lower (trim_space x) = x) /\
  forall seen', (forall x, x ∈ seen' -> x ∈ seen) ->
    normalize_values seen' (normalize_values seen l) = normalize_values seen l.
Proof.
  revert seen; induction l as [|v l IH]; intros seen; simpl; [split; [set_solver|done]|].
  set (c := to_lower (trim_space v)).
  assert (Hc : to_lower (trim_space c) = c).
  { unfold c. by rewrite (to_lower_trim (to_lower (trim_space v))), to_lower_idem, <- to_lower_trim, trim_space_idem. }
  destruct (str_empty c) eqn:Ee; [apply IH|].
  destruct (str_in c seen) eqn:Es; [apply IH|].
  destruct (IH (c :: seen)) as [IH1 IH2]. split.
  - intros x [->|Hx]%elem_of_cons; [done|by apply IH1].
  - intros seen' Hsub. simpl. rewrite Hc, Ee.
    assert (Hn : str_in c seen' = false).
    { apply not_true_iff_false. rewrite str_in_elem. intros Hin%Hsub%str_in_elem. by rewrite Hin in Es. }
    rewrite Hn. f_equal. apply IH2. set_solver.
Qed.

Definition normal_targets (l : list string) : list string :=
  match l with [] => l | _ => normalizeCSVValues l end.

Lemma normal_targets_again l : normal_targets (normal_targets l) = normal_targets l.
Proof.
  assert (H : normalizeCSVValues (normalizeCSVValues l) = normalizeCSVValues l).
  { apply (normalize_again l []). done. }
  unfold normal_targets. destruct l as [|v l]; [done|].
  rewrite H. by destruct (normalizeCSVValues (v :: l)).
Qed.

Lemma targets_again env keys v :
  normal_targets (overrideCSVList env (normal_targets (overrideCSVList env v keys)) keys) =
  normal_targets (overrideCSVList env v keys).
Proof.
  apply (sticky_again (fun t => overrideCSVList env t keys)); [apply overrideCSVList_sticky|apply normal_targets_again].
Qed.

(** ** The structures *)

(** Reduce the projections of the records a stage builds, and nothing of the
    values in them. *)
Ltac fields := lazy -[overrideInt overrideInt64 overrideIntBounded overrideBool overrideStr overrideStrAny
  overrideStrLower overrideFloat64 overrideCSVList setDefault setDefaultInt64 setDefaultStr setDefaultFloat
  clampWorkers stage_buffer f64 wrap64 Z.mul Second Minute dbPoolStatsIntervalDefaultMS negb andb Z.eqb
  str_empty RuntimeDeploymentModeLikeGroup normalizeCSVValues].

Definition part_db env c := derive_db (defaults_db (env_db env c)).
Definition part_sc env c := derive_sc (defaults_sc (env_sc env c)).

Lemma part_db_again env c : part_db env (part_db env c) = part_db env c.
Proof. fields. by autorewrite with reload. Qed.

Lemma part_sc_again env c : part_sc env (part_sc env c) = part_sc env c.
Proof. fields. by autorewrite with reload. Qed.

Lemma sol_again env c : defaults_sol (env_sol env (defaults_sol (env_sol env c))) = defaults_sol (env_sol env c).
Proof. fields. by autorewrite with reload. Qed.
Lemma base_again env c : defaults_base (env_base env (defaults_base (env_base env c))) = defaults_base (env_base env c).
Proof. fields. by autorewrite with reload. Qed.
Lemma eth_again env c : defaults_eth (env_eth env (defaults_eth (env_eth env c))) = defaults_eth (env_eth env c).
Proof. fields. by autorewrite with reload. Qed.
Lemma btc_again env c : defaults_btc (env_btc env (defaults_btc (env_btc env c))) = defaults_btc (env_btc env c).
Proof. fields. by autorewrite with reload. Qed.
Lemma poly_again env c : defaults_poly (env_poly env (defaults_poly (env_poly env c))) = defaults_poly (env_poly env c).
Proof. fields. by autorewrite with reload. Qed.
Lemma arb_again env c : defaults_arb (env_arb env (defaults_arb (env_arb env c))) = defaults_arb (env_arb env c).
Proof. fields. by autorewrite with reload. Qed.
Lemma bsc_again env c : defaults_bsc (env_bsc env (defaults_bsc (env_bsc env c))) = defaults_bsc (env_bsc env c).
Proof. fields. by autorewrite with reload. Qed.

Lemma rt_again env c : defaults_rt (env_rt env (defaults_rt (env_rt env c))) = defaults_rt (env_rt env c).
Proof.
  destruct c as [mode group targets].
  pose proof (targets_again env ["RUNTIME_CHAIN_TARGETS"; "RUNTIME_CHAIN_TARGET"] targets) as Ht.
  fields. unfold normal_targets in Ht. rewrite Ht.
  by autorewrite with reload.
Qed.

Lemma srv_again env c : defaults_srv env (env_srv env (defaults_srv env (env_srv env c))) = defaults_srv env (env_srv env c).
Proof.
  fields. autorewrite with reload. f_equal.
  - destruct (env "ADMIN_RATE_LIMIT_ENABLED") eqn:E; [by repeat case_match; autorewrite with reload|].
    apply (secure_again env ["ADMIN_RATE_LIMIT_ENABLED"]).
  - destruct (env "ADMIN_REQUIRE_AUTH") eqn:E; [by repeat case_match; autorewrite with reload|].
    apply (secure_again env ["ADMIN_REQUIRE_AUTH"]).
Qed.

Definition part_pl env c := bound_pl (defaults_pl (env_pl env c)).

Lemma part_pl_again env c : part_pl env (part_pl env c) = part_pl env c.
Proof.
  fields. autorewrite with reload.
  rewrite !clamp_again, !buffer_again by lia. f_equal.
  exact (max_again env ["COORDINATOR_AUTOTUNE_MAX_BATCH_SIZE"] _ _).
Qed.

(** ** The whole configuration *)

Lemma staged_parts env c :
  staged env c = {|
    cfg_DB := part_db env (cfg_DB c); cfg_Sidecar := part_sc env (cfg_Sidecar c);
    cfg_Solana := defaults_sol (env_sol env (cfg_Solana c)); cfg_Base := defaults_base (env_base env (cfg_Base c));
    cfg_Ethereum := defaults_eth (env_eth env (cfg_Ethereum c)); cfg_BTC := defaults_btc (env_btc env (cfg_BTC c));
    cfg_Polygon := defaults_poly (env_poly env (cfg_Polygon c));
    cfg_Arbitrum := defaults_arb (env_arb env (cfg_Arbitrum c)); cfg_BSC := defaults_bsc (env_bsc env (cfg_BSC c));
    cfg_Runtime := defaults_rt (env_rt env (cfg_Runtime c)); cfg_Pipeline := part_pl env (cfg_Pipeline c);
    cfg_Server := defaults_srv env (env_srv env (cfg_Server c)); cfg_Log := defaults_log (env_log env (cfg_Log c));
    cfg_Tracing := defaults_tr (env_tr env (cfg_Tracing c)); cfg_Alert := defaults_alert (env_alert env (cfg_Alert c));
    cfg_Reconciliation := defaults_rc (env_rc env (cfg_Reconciliation c));
    cfg_ReorgDetector := defaults_rd (env_rd env (cfg_ReorgDetector c))
  |}.
Proof. reflexivity. Qed.

Lemma log_again env c : defaults_log (env_log env (defaults_log (env_log env c))) = defaults_log (env_log env c).
Proof. fields. by autorewrite with reload. Qed.
Lemma tr_again env c : defaults_tr (env_tr env (defaults_tr (env_tr env c))) = defaults_tr (env_tr env c).
Proof. fields. by autorewrite with reload. Qed.
Lemma alert_again env c : defaults_alert (env_alert env (defaults_alert (env_alert env c))) = defaults_alert (env_alert env c).
Proof. fields. by autorewrite with reload. Qed.
Lemma rc_again env c : defaults_rc (env_rc env (defaults_rc (env_rc env c))) = defaults_rc (env_rc env c).
Proof. fields. by autorewrite with reload. Qed.
Lemma rd_again env c : defaults_rd (env_rd env (defaults_rd (env_rd env c))) = defaults_rd (env_rd env c).
Proof. fields. by autorewrite with reload. Qed.

Lemma staged_again env c : staged env (staged env c) = staged env c.
Proof.
  rewrite !staged_parts. cbn [cfg_DB cfg_Sidecar cfg_Solana cfg_Base cfg_Ethereum cfg_BTC cfg_Polygon
    cfg_Arbitrum cfg_BSC cfg_Runtime cfg_Pipeline cfg_Server cfg_Log cfg_Tracing cfg_Alert
    cfg_Reconciliation cfg_ReorgDetector].
  by rewrite part_db_again, part_sc_again, sol_again, base_again, eth_again, btc_again, poly_again,
    arb_again, bsc_again, rt_again, part_pl_again, srv_again, log_again, tr_again, alert_again,
    rc_again, rd_again.
Qed.

(** A pool interval that was reset stays reset. *)
Definition blank (env : Env) (key : string) : Prop := trim_space (Getenv env key) = "".

Lemma blank_pool env t : blank env "DB_POOL_STATS_INTERVAL_MS" ->
  overrideIntBounded env t ["DB_POOL_STATS_INTERVAL_MS"] = t.
Proof.
  unfold blank, Getenv, overrideIntBounded. destruct (env "DB_POOL_STATS_INTERVAL_MS") as [w|]; simpl; [|done].
  by intros ->.
Qed.

Lemma part_db_reset env v c :
  (v =? 0) = false -> overrideIntBounded env v ["DB_POOL_STATS_INTERVAL_MS"] = v ->
  part_db env (set_pool_interval v (part_db env c)) = set_pool_interval v (part_db env c).
Proof.
  intros Hv Hb. fields. autorewrite with reload. rewrite Hb.
  assert (Hs : setDefault v dbPoolStatsIntervalDefaultMS = v) by (unfold setDefault; by rewrite Hv).
  by rewrite Hs.
Qed.

Lemma with_db_parts f c : with_db f c = {|
  cfg_DB := f (cfg_DB c); cfg_Sidecar := cfg_Sidecar c; cfg_Solana := cfg_Solana c;
  cfg_Base := cfg_Base c; cfg_Ethereum := cfg_Ethereum c; cfg_BTC := cfg_BTC c;
  cfg_Polygon := cfg_Polygon c; cfg_Arbitrum := cfg_Arbitrum c; cfg_BSC := cfg_BSC c;
  cfg_Runtime := cfg_Runtime c; cfg_Pipeline := cfg_Pipeline c; cfg_Server := cfg_Server c;
  cfg_Log := cfg_Log c; cfg_Tracing := cfg_Tracing c; cfg_Alert := cfg_Alert c;
  cfg_Reconciliation := cfg_Reconciliation c; cfg_ReorgDetector := cfg_ReorgDetector c |}.
Proof. reflexivity. Qed.

Lemma staged_reset env v c :
  (v =? 0) = false -> overrideIntBounded env v ["DB_POOL_STATS_INTERVAL_MS"] = v ->
  staged env (with_db (set_pool_interval v) (staged env c)) = with_db (set_pool_interval v) (staged env c).
Proof.
  intros Hv Hb. rewrite !staged_parts, !with_db_parts. cbn [cfg_DB cfg_Sidecar cfg_Solana cfg_Base cfg_Ethereum
    cfg_BTC cfg_Polygon cfg_Arbitrum cfg_BSC cfg_Runtime cfg_Pipeline cfg_Server cfg_Log cfg_Tracing
    cfg_Alert cfg_Reconciliation cfg_ReorgDetector].
  by rewrite part_db_reset, part_sc_again, sol_again, base_again, eth_again, btc_again, poly_again,
    arb_again, bsc_again, rt_again, part_pl_again, srv_again, log_again, tr_again, alert_again,
    rc_again, rd_again by done.
Qed.

(** The durations are derived anew, whatever stood in their fields. *)
Lemma staged_derived env c : staged env (computeDerived c) = staged env c.
Proof. rewrite !staged_parts. reflexivity. Qed.

Lemma check_pool_blank env s c :
  check_pool_interval env s = Ok c ->
  c = s \/ (blank env "DB_POOL_STATS_INTERVAL_MS" /\
            c = with_db (set_pool_interval dbPoolStatsIntervalDefaultMS) s).
Proof.
  unfold check_pool_interval. intros H. destruct (negb _) eqn:Eb.
  - repeat case_match; simplify_eq; by left.
  - apply negb_false_iff, str_empty_spec in Eb. repeat case_match; simplify_eq; auto.
Qed.

Lemma check_pool_reset env s :
  blank env "DB_POOL_STATS_INTERVAL_MS" ->
  check_pool_interval env (with_db (set_pool_interval dbPoolStatsIntervalDefaultMS) s) =
  Ok (with_db (set_pool_interval dbPoolStatsIntervalDefaultMS) s).
Proof. unfold blank, check_pool_interval. by intros ->. Qed.

Lemma reload_stages env c0 c :
  check_pool_interval env (staged env c0) = Ok c ->
  staged env c = c /\ check_pool_interval env c = Ok c.
Proof.
  intros H. destruct (check_pool_blank _ _ _ H) as [E|[Hb E]]; rewrite E in *.
  - split; [apply staged_again|exact H].
  - split; [apply staged_reset; [reflexivity|by apply blank_pool]|by apply check_pool_reset].
Qed.

(** C37: a loaded configuration is a fixed point of loading: a file that holds
    it, up to the durations that are never written, loads in the same
    environment to the same configuration. *)
Theorem load_pinned h h' c c' :
  Load h = Ok c -> h_env h' = h_env h ->
  loadYAMLFile h' zero_Config = Ok c' -> computeDerived c' = computeDerived c ->
  Load h' = Ok c.
Proof.
  intros (c0 & _ & Hs & Hv)%Load_inv He Hl Hd.
  destruct (reload_stages _ _ _ Hs) as [Hst Hck].
  unfold Load. rewrite Hl. cbn [rbind]. rewrite He.
  change (computeDerived (applyDefaults (h_env h) (applyEnvOverrides (h_env h) c'))) with (staged (h_env h) c').
  rewrite <- staged_derived, Hd, staged_derived, Hst, Hck. cbn [rbind]. by rewrite Hv.
Qed.

(** The host of the sample with a file that holds the loaded configuration,
    its durations dropped. *)
Definition pinned_config : Config :=
  let c := loaded sample_host in
  with_db (fun d => {|
    db_URL := db_URL d; db_MaxOpenConns := db_MaxOpenConns d; db_MaxIdleConns := db_MaxIdleConns d;
    db_ConnMaxLifetimeMin := db_ConnMaxLifetimeMin d; db_ConnMaxIdleTimeMin := db_ConnMaxIdleTimeMin d;
    db_ConnMaxLifetime := 0; db_ConnMaxIdleTime := 0;
    db_PoolStatsIntervalMS := db_PoolStatsIntervalMS d;
    db_PoolExhaustionThreshold := db_PoolExhaustionThreshold d |}) c.

Definition pinned_host : Host := {|
  h_env := sample_env; h_read := fun _ => FileData "pinned"; h_yaml := fun _ _ => Some pinned_config |}.

Lemma load_pinned_witness : Load pinned_host = Ok (loaded sample_host).
Proof.
  refine (load_pinned sample_host pinned_host (loaded sample_host) pinned_config sample_loads eq_refl eq_refl _).
  vm_compute. reflexivity.
Defined.
