(* ===== verification/Startup.v ===== *)
(** * Process start (src/cmd/indexer/main.go)

    From the configuration to the pipelines: the targets that can be built,
    the ones that are selected, the wiring and connectivity checks, the watched
    addresses of the environment and the settings of every pipeline.  The
    database, the endpoints and tracing are answers of the record [World];
    an adapter is the options and the limiter it is constructed with.  The
    HTTP servers, signal handling and the goroutines are not modelled. *)

From S2P Require Import Prelude Float64 Config Domain Cache AddressIndex PipelineHealth.
From Stdlib Require Import ZArith Lia Ascii String.
From stdpp Require Import base option list strings gmap.

Open Scope Z_scope.

Definition Millisecond : Z := 1000000.
Definition AddressSourceEnv : string := "env".

(** ** Adapters as they are configured *)

Inductive adapter_option :=
| WithMaxPageSize (n : Z)
| WithMaxConcurrentTxs (n : Z)
| WithNetwork (network : string)
| WithMaxInitialLookbackBlocks (n : Z)
| WithFinalityConfirmations (n : Z)
| WithTraceEnabled (enabled : bool).

Record limiter := { lim_rps : float64; lim_burst : Z; lim_chain : string }.

Record adapter := {
  ad_Chain : string;
  ad_rpcURL : string;
  ad_options : list adapter_option;
  ad_limiter : option limiter
}.

Definition new_adapter (chain rpcURL : string) (opts : list adapter_option) : adapter :=
  {| ad_Chain := chain; ad_rpcURL := rpcURL; ad_options := opts; ad_limiter := None |}.

Definition applyRateLimit (a : adapter) (rlCfg : RPCRateLimitConfig) (chainName : string) : adapter :=
  if f64_leb (rl_RPS rlCfg) f64_zero then a
  else {| ad_Chain := ad_Chain a; ad_rpcURL := ad_rpcURL a; ad_options := ad_options a;
          ad_limiter := Some {| lim_rps := rl_RPS rlCfg; lim_burst := rl_Burst rlCfg; lim_chain := chainName |} |}.

Record runtimeTarget := {
  rt_target_chain : Chain;
  rt_target_network : Network;
  rt_target_group : string;
  rt_target_watched : list string;
  rt_target_adapter : option adapter;
  rt_target_rpcURL : string
}.

Definition shouldBuildChainRuntimeTarget (targets : list string) (chainName : string) : bool :=
  existsb (fun target => has_prefix (to_lower (trim_space target)) (chainName +:+ "-")) targets.

(** The options of an EVM adapter. *)
Definition evm_options (lookback concurrency : Z) (trace : bool) : list adapter_option :=
  (if 0 <? lookback then [WithMaxInitialLookbackBlocks lookback] else []) ++
  (if 0 <? concurrency then [WithMaxConcurrentTxs concurrency] else []) ++
  (if trace then [WithTraceEnabled true] else []).

Definition solana_target (cfg : Config) : runtimeTarget :=
  let s := cfg_Solana cfg in
  let opts := (if 0 <? sol_MaxPageSize s then [WithMaxPageSize (sol_MaxPageSize s)] else []) ++
              (if 0 <? sol_MaxConcurrentTxs s then [WithMaxConcurrentTxs (sol_MaxConcurrentTxs s)] else []) ++
              [WithNetwork (sol_Network s)] in
  {| rt_target_chain := ChainSolana; rt_target_network := sol_Network s;
     rt_target_group := RuntimeLikeGroupSolana;
     rt_target_watched := pl_SolanaWatchedAddresses (cfg_Pipeline cfg);
     rt_target_adapter := Some (applyRateLimit (new_adapter "solana" (sol_RPCURL s) opts) (sol_RateLimit s) "solana");
     rt_target_rpcURL := sol_RPCURL s |}.

Definition base_target (cfg : Config) : runtimeTarget :=
  let b := cfg_Base cfg in
  let opts := evm_options (base_MaxInitialLookbackBlocks b) (base_MaxConcurrentTxs b) (base_TraceEnabled b) in
  {| rt_target_chain := ChainBase; rt_target_network := base_Network b;
     rt_target_group := RuntimeLikeGroupEVM;
     rt_target_watched := pl_BaseWatchedAddresses (cfg_Pipeline cfg);
     rt_target_adapter := Some (applyRateLimit (new_adapter "base" (base_RPCURL b) opts) (base_RateLimit b) "base");
     rt_target_rpcURL := base_RPCURL b |}.

Definition btc_target (cfg : Config) : runtimeTarget :=
  let b := cfg_BTC cfg in
  let conf := pl_BTCFinalityConfirmations (cfg_Pipeline cfg) in
  let opts := (if 0 <? btc_MaxInitialLookbackBlocks b
               then [WithMaxInitialLookbackBlocks (btc_MaxInitialLookbackBlocks b)] else []) ++
              (if 0 <? conf then [WithFinalityConfirmations conf] else []) in
  {| rt_target_chain := ChainBTC; rt_target_network := btc_Network b;
     rt_target_group := RuntimeLikeGroupBTC;
     rt_target_watched := pl_BTCWatchedAddresses (cfg_Pipeline cfg);
     rt_target_adapter := Some (applyRateLimit (new_adapter "btc" (btc_RPCURL b) opts) (btc_RateLimit b) "btc");
     rt_target_rpcURL := btc_RPCURL b |}.

(** Ethereum runs on mainnet whatever [ETHEREUM_NETWORK] says. *)
Definition ethereum_target (cfg : Config) : runtimeTarget :=
  let e := cfg_Ethereum cfg in
  let opts := evm_options (eth_MaxInitialLookbackBlocks e) (eth_MaxConcurrentTxs e) (eth_TraceEnabled e) in
  {| rt_target_chain := ChainEthereum; rt_target_network := NetworkMainnet;
     rt_target_group := RuntimeLikeGroupEVM;
     rt_target_watched := pl_EthereumWatchedAddresses (cfg_Pipeline cfg);
     rt_target_adapter := Some (applyRateLimit (new_adapter "ethereum" (eth_RPCURL e) opts) (eth_RateLimit e) "ethereum");
     rt_target_rpcURL := eth_RPCURL e |}.

Definition polygon_target (cfg : Config) : runtimeTarget :=
  let e := cfg_Polygon cfg in
  let opts := evm_options (poly_MaxInitialLookbackBlocks e) (poly_MaxConcurrentTxs e) (poly_TraceEnabled e) in
  {| rt_target_chain := ChainPolygon; rt_target_network := poly_Network e;
     rt_target_group := RuntimeLikeGroupEVM;
     rt_target_watched := pl_PolygonWatchedAddresses (cfg_Pipeline cfg);
     rt_target_adapter := Some (applyRateLimit (new_adapter "polygon" (poly_RPCURL e) opts) (poly_RateLimit e) "polygon");
     rt_target_rpcURL := poly_RPCURL e |}.

Definition arbitrum_target (cfg : Config) : runtimeTarget :=
  let e := cfg_Arbitrum cfg in
  let opts := evm_options (arb_MaxInitialLookbackBlocks e) (arb_MaxConcurrentTxs e) (arb_TraceEnabled e) in
  {| rt_target_chain := ChainArbitrum; rt_target_network := arb_Network e;
     rt_target_group := RuntimeLikeGroupEVM;
     rt_target_watched := pl_ArbitrumWatchedAddresses (cfg_Pipeline cfg);
     rt_target_adapter := Some (applyRateLimit (new_adapter "arbitrum" (arb_RPCURL e) opts) (arb_RateLimit e) "arbitrum");
     rt_target_rpcURL := arb_RPCURL e |}.

Definition bsc_target (cfg : Config) : runtimeTarget :=
  let e := cfg_BSC cfg in
  let opts := evm_options (bsc_MaxInitialLookbackBlocks e) (bsc_MaxConcurrentTxs e) (bsc_TraceEnabled e) in
  {| rt_target_chain := ChainBSC; rt_target_network := bsc_Network e;
     rt_target_group := RuntimeLikeGroupEVM;
     rt_target_watched := pl_BSCWatchedAddresses (cfg_Pipeline cfg);
     rt_target_adapter := Some (applyRateLimit (new_adapter "bsc" (bsc_RPCURL e) opts) (bsc_RateLimit e) "bsc");
     rt_target_rpcURL := bsc_RPCURL e |}.

Definition buildRuntimeTargets (cfg : Config) : list runtimeTarget :=
  let wanted := shouldBuildChainRuntimeTarget (rt_ChainTargets (cfg_Runtime cfg)) in
  [solana_target cfg; base_target cfg; btc_target cfg] ++
  (if wanted "ethereum" then [ethereum_target cfg] else []) ++
  (if wanted "polygon" then [polygon_target cfg] else []) ++
  (if wanted "arbitrum" then [arbitrum_target cfg] else []) ++
  (if wanted "bsc" then [bsc_target cfg] else []).

(** ** Selection *)

Definition runtimeTargetKey (chain : Chain) (network : Network) : string := chain +:+ "-" +:+ network.
Definition target_key (t : runtimeTarget) : string := runtimeTargetKey (rt_target_chain t) (rt_target_network t).
Definition runtimeTargetKeys (targets : list runtimeTarget) : list string := target_key <$> targets.

(** The same normal form as [normalizeCSVValues] of the configuration. *)
Definition normalizeRuntimeTargetKeys (keys : list string) : list string := normalize_values [] keys.

Definition filterRuntimeTargetsByKeys (targets : list runtimeTarget) (keys : list string)
  : list runtimeTarget * list string :=
  match keys with
  | [] => ([], [])
  | _ =>
      let requested := normalizeRuntimeTargetKeys keys in
      let filtered := filter (fun t => str_in (target_key t) requested = true) targets in
      let seen := runtimeTargetKeys filtered in
      (filtered, filter (fun key => str_in key seen = false) requested)
  end.

Inductive select_error :=
| TargetsMissing (keys : list string)
| NoTargets
| ModeUnsupported (mode : string).

Definition selectRuntimeTargets (all : list runtimeTarget) (r : RuntimeConfig)
  : result select_error (list runtimeTarget) :=
  if str_eqb (rt_DeploymentMode r) RuntimeDeploymentModeLikeGroup then
    let selected := if str_empty (rt_LikeGroup r) then all
                    else filter (fun t => rt_target_group t = rt_LikeGroup r) all in
    let checked : result select_error (list runtimeTarget) :=
      match rt_ChainTargets r with
      | [] => Ok selected
      | _ =>
          let '(filtered, missing) := filterRuntimeTargetsByKeys selected (rt_ChainTargets r) in
          match missing with
          | [] => Ok filtered
          | _ => Err (TargetsMissing missing)
          end
      end in
    match checked with
    | Ok [] => Err NoTargets
    | other => other
    end
  else if str_eqb (rt_DeploymentMode r) RuntimeDeploymentModeIndependent then
    let '(filtered, missing) := filterRuntimeTargetsByKeys all (rt_ChainTargets r) in
    match missing with
    | [] => match filtered with [] => Err NoTargets | _ => Ok filtered end
    | _ => Err (TargetsMissing missing)
    end
  else Err (ModeUnsupported (rt_DeploymentMode r)).

(** ** The wiring check *)

Definition runtimeLikeGroupForChain (chain : Chain) : string :=
  if str_eqb chain ChainSolana then RuntimeLikeGroupSolana
  else if str_in chain [ChainBase; ChainEthereum; ChainPolygon; ChainArbitrum; ChainBSC]
  then RuntimeLikeGroupEVM
  else if str_eqb chain ChainBTC then RuntimeLikeGroupBTC
  else "".

Inductive wiring_failure :=
| NoneSelected
| DuplicateTarget (key : string)
| UnsupportedChain (key : string)
| MissingGroup (key : string)
| GroupMismatch (key expected got : string)
| NilAdapter (key : string)
| AdapterMismatch (key expected got : string).

Definition wiring_of (target : runtimeTarget) : list wiring_failure :=
  let key := target_key target in
  let expectedGroup := runtimeLikeGroupForChain (rt_target_chain target) in
  if str_empty expectedGroup then [UnsupportedChain key]
  else
    (if str_empty (rt_target_group target) then [MissingGroup key] else []) ++
    (if str_eqb (rt_target_group target) expectedGroup then []
     else [GroupMismatch key expectedGroup (rt_target_group target)]) ++
    match rt_target_adapter target with
    | None => [NilAdapter key]
    | Some a =>
        if str_eqb (ad_Chain a) (rt_target_chain target) then []
        else [AdapterMismatch key (rt_target_chain target) (ad_Chain a)]
    end.

Fixpoint wiring_failures (seen : list string) (targets : list runtimeTarget) : list wiring_failure :=
  match targets with
  | [] => []
  | target :: rest =>
      let key := target_key target in
      if str_in key seen then DuplicateTarget key :: wiring_failures seen rest
      else wiring_of target ++ wiring_failures (key :: seen) rest
  end.

Definition validateRuntimeWiring (targets : list runtimeTarget) : result (list wiring_failure) unit :=
  match targets with
  | [] => Err [NoneSelected]
  | _ => match wiring_failures [] targets with
         | [] => Ok tt
         | failures => Err failures
         end
  end.

(** ** Pipeline settings *)

Inductive Alerter := NoopAlerter | MultiAlerter (cooldown : Z) (slack webhook : option string).

Definition buildAlerter (cfg : Config) : Alerter :=
  let url (u : string) : option string := if str_empty u then None else Some u in
  match url (alert_SlackWebhookURL (cfg_Alert cfg)), url (alert_WebhookURL (cfg_Alert cfg)) with
  | None, None => NoopAlerter
  | slack, webhook => MultiAlerter (wrap64 (alert_CooldownMS (cfg_Alert cfg) * Millisecond)) slack webhook
  end.

Record AutoTuneSettings := {
  at_Enabled : bool; at_MinBatchSize : Z; at_MaxBatchSize : Z; at_StepUp : Z; at_StepDown : Z;
  at_LagHighWatermark : Z; at_LagLowWatermark : Z; at_QueueHighWatermarkPct : Z;
  at_QueueLowWatermarkPct : Z; at_HysteresisTicks : Z; at_TelemetryStaleTicks : Z;
  at_TelemetryRecoveryTicks : Z; at_OperatorOverrideBatch : Z; at_OperatorReleaseHoldTicks : Z;
  at_PolicyVersion : string; at_PolicyManifestDigest : string; at_PolicyManifestRefreshEpoch : Z;
  at_PolicyActivationHoldTicks : Z
}.

Record PipelineSettings := {
  ps_Chain : Chain; ps_Network : Network; ps_BatchSize : Z; ps_IndexingInterval : Z;
  ps_CoordinatorAutoTune : AutoTuneSettings; ps_FetchWorkers : Z; ps_NormalizerWorkers : Z;
  ps_ChannelBufferSize : Z; ps_JobChBufferSize : Z; ps_RawBatchChBufferSize : Z;
  ps_NormalizedChBufferSize : Z; ps_SidecarAddr : string; ps_SidecarTimeout : Z;
  ps_SidecarMaxMsgSizeMB : Z; ps_SidecarTLSEnabled : bool; ps_SidecarTLSCert : string;
  ps_SidecarTLSKey : string; ps_SidecarTLSCA : string; ps_CommitInterleaver : Z;
  ps_ReorgDetectorInterval : Z; ps_FinalizerInterval : Z; ps_IndexedBlocksRetention : Z;
  ps_AddressIndex : AddressIndexConfig; ps_Fetcher : FetcherStageConfig;
  ps_Normalizer : NormalizerStageConfig; ps_Ingester : IngesterStageConfig;
  ps_Health : HealthStageConfig; ps_ConfigWatcher : ConfigWatcherStageConfig;
  ps_ReorgDetectorMaxCheckDepth : Z; ps_MaxInitialLookbackBlocks : Z; ps_Alerter : Alerter
}.

Definition resolveMaxInitialLookbackBlocks (cfg : Config) (ch : Chain) : Z :=
  if str_eqb ch ChainSolana then sol_MaxInitialLookbackBlocks (cfg_Solana cfg)
  else if str_eqb ch ChainBase then base_MaxInitialLookbackBlocks (cfg_Base cfg)
  else if str_eqb ch ChainEthereum then eth_MaxInitialLookbackBlocks (cfg_Ethereum cfg)
  else if str_eqb ch ChainBTC then btc_MaxInitialLookbackBlocks (cfg_BTC cfg)
  else if str_eqb ch ChainPolygon then poly_MaxInitialLookbackBlocks (cfg_Polygon cfg)
  else if str_eqb ch ChainArbitrum then arb_MaxInitialLookbackBlocks (cfg_Arbitrum cfg)
  else if str_eqb ch ChainBSC then bsc_MaxInitialLookbackBlocks (cfg_BSC cfg)
  else 0.

Definition resolveBlockScanBatchSize (cfg : Config) (ch : Chain) : Z :=
  if str_eqb ch ChainBTC && (0 <? btc_BlockScanBatchSize (cfg_BTC cfg)) then btc_BlockScanBatchSize (cfg_BTC cfg)
  else if str_eqb ch ChainSolana && (0 <? sol_BlockScanBatchSize (cfg_Solana cfg))
  then sol_BlockScanBatchSize (cfg_Solana cfg)
  else pl_BatchSize (cfg_Pipeline cfg).

Definition buildPipelineConfig (cfg : Config) (target : runtimeTarget) (alerter : Alerter) (commitInterleaver : Z)
  : PipelineSettings := {|
  ps_Chain := rt_target_chain target; ps_Network := rt_target_network target;
  ps_BatchSize := resolveBlockScanBatchSize cfg (rt_target_chain target);
  ps_IndexingInterval := wrap64 (pl_IndexingIntervalMs (cfg_Pipeline cfg) * Millisecond);
  ps_CoordinatorAutoTune := {|
      at_Enabled := pl_CoordinatorAutoTuneEnabled (cfg_Pipeline cfg);
      at_MinBatchSize := pl_CoordinatorAutoTuneMinBatchSize (cfg_Pipeline cfg);
      at_MaxBatchSize := pl_CoordinatorAutoTuneMaxBatchSize (cfg_Pipeline cfg);
      at_StepUp := pl_CoordinatorAutoTuneStepUp (cfg_Pipeline cfg);
      at_StepDown := pl_CoordinatorAutoTuneStepDown (cfg_Pipeline cfg);
      at_LagHighWatermark := pl_CoordinatorAutoTuneLagHighWatermark (cfg_Pipeline cfg);
      at_LagLowWatermark := pl_CoordinatorAutoTuneLagLowWatermark (cfg_Pipeline cfg);
      at_QueueHighWatermarkPct := pl_CoordinatorAutoTuneQueueHighPct (cfg_Pipeline cfg);
      at_QueueLowWatermarkPct := pl_CoordinatorAutoTuneQueueLowPct (cfg_Pipeline cfg);
      at_HysteresisTicks := pl_CoordinatorAutoTuneHysteresisTicks (cfg_Pipeline cfg);
      at_TelemetryStaleTicks := pl_CoordinatorAutoTuneTelemetryStaleTicks (cfg_Pipeline cfg);
      at_TelemetryRecoveryTicks := pl_CoordinatorAutoTuneTelemetryRecoveryTicks (cfg_Pipeline cfg);
      at_OperatorOverrideBatch := pl_CoordinatorAutoTuneOperatorOverrideBatch (cfg_Pipeline cfg);
      at_OperatorReleaseHoldTicks := pl_CoordinatorAutoTuneOperatorReleaseTicks (cfg_Pipeline cfg);
      at_PolicyVersion := pl_CoordinatorAutoTunePolicyVersion (cfg_Pipeline cfg);
      at_PolicyManifestDigest := pl_CoordinatorAutoTunePolicyManifestDigest (cfg_Pipeline cfg);
      at_PolicyManifestRefreshEpoch := pl_CoordinatorAutoTunePolicyManifestRefreshEpoch (cfg_Pipeline cfg);
      at_PolicyActivationHoldTicks := pl_CoordinatorAutoTunePolicyActivationHoldTicks (cfg_Pipeline cfg)
    |};
  ps_FetchWorkers := pl_FetchWorkers (cfg_Pipeline cfg);
  ps_NormalizerWorkers := pl_NormalizerWorkers (cfg_Pipeline cfg);
  ps_ChannelBufferSize := pl_ChannelBufferSize (cfg_Pipeline cfg);
  ps_JobChBufferSize := pl_JobChBufferSize (cfg_Pipeline cfg);
  ps_RawBatchChBufferSize := pl_RawBatchChBufferSize (cfg_Pipeline cfg);
  ps_NormalizedChBufferSize := pl_NormalizedChBufferSize (cfg_Pipeline cfg);
  ps_SidecarAddr := sc_Addr (cfg_Sidecar cfg); ps_SidecarTimeout := sc_Timeout (cfg_Sidecar cfg);
  ps_SidecarMaxMsgSizeMB := sc_MaxMsgSizeMB (cfg_Sidecar cfg);
  ps_SidecarTLSEnabled := sc_TLSEnabled (cfg_Sidecar cfg);
  ps_SidecarTLSCert := sc_TLSCert (cfg_Sidecar cfg);
  ps_SidecarTLSKey := sc_TLSKey (cfg_Sidecar cfg); ps_SidecarTLSCA := sc_TLSCA (cfg_Sidecar cfg);
  ps_CommitInterleaver := commitInterleaver;
  ps_ReorgDetectorInterval := wrap64 (pl_ReorgDetectorIntervalMs (cfg_Pipeline cfg) * Millisecond);
  ps_FinalizerInterval := wrap64 (pl_FinalizerIntervalMs (cfg_Pipeline cfg) * Millisecond);
  ps_IndexedBlocksRetention := pl_IndexedBlocksRetention (cfg_Pipeline cfg);
  ps_AddressIndex := pl_AddressIndex (cfg_Pipeline cfg);
  ps_Fetcher := pl_Fetcher (cfg_Pipeline cfg); ps_Normalizer := pl_Normalizer (cfg_Pipeline cfg);
  ps_Ingester := pl_Ingester (cfg_Pipeline cfg); ps_Health := pl_Health (cfg_Pipeline cfg);
  ps_ConfigWatcher := pl_ConfigWatcher (cfg_Pipeline cfg);
  ps_ReorgDetectorMaxCheckDepth := rd_MaxCheckDepth (cfg_ReorgDetector cfg);
  ps_MaxInitialLookbackBlocks := resolveMaxInitialLookbackBlocks cfg (rt_target_chain target);
  ps_Alerter := alerter
|}.

(** ** Security checks and log output *)

Definition admin_unprotected (cfg : Config) : bool :=
  negb (str_empty (srv_AdminAddr (cfg_Server cfg))) && str_empty (srv_AdminAuthUser (cfg_Server cfg)) &&
  str_empty (srv_AdminAuthToken (cfg_Server cfg)).

(** The warnings in order; the error when the admin interface must be protected
    and is not. *)
Definition logSecurityWarnings (cfg : Config) : result unit (list string) :=
  let warn (b : bool) (what : string) : list string := if b then [what] else [] in
  let warnings :=
    warn (contains (db_URL (cfg_DB cfg)) "sslmode=disable") "database without TLS" ++
    warn (negb (sc_TLSEnabled (cfg_Sidecar cfg))) "sidecar without TLS" ++
    warn (tr_Enabled (cfg_Tracing cfg) && tr_Insecure (cfg_Tracing cfg)) "tracing without TLS" ++
    warn (str_empty (srv_MetricsAuthUser (cfg_Server cfg))) "metrics without authentication" in
  if admin_unprotected cfg then
    if srv_AdminRequireAuth (cfg_Server cfg) then Err tt
    else Ok (warnings ++ ["admin without authentication"])
  else Ok warnings.

(** [strings.Index], counted in bytes. *)
Fixpoint index_of (sub s : string) : option nat :=
  if String.prefix sub s then Some 0%nat
  else match s with
       | EmptyString => None
       | String _ s' => S <$> index_of sub s'
       end.

Definition take_bytes (n : nat) (s : string) : string := String.substring 0 n s.

Definition maskCredentials (rawURL : string) : string :=
  if str_empty rawURL then ""
  else
    let keyed := contains rawURL "/v2/" || contains rawURL "/v3/" ||
                 contains rawURL "apikey=" || contains rawURL "api_key=" in
    let mask_key :=
      if keyed then
        match index_of "://" rawURL with
        | None => "***"
        | Some schemeEnd =>
            match index_of "/" (drop_bytes (schemeEnd + 3) rawURL) with
            | None => rawURL
            | Some hostEnd => take_bytes (schemeEnd + 3 + hostEnd) rawURL +:+ "/***"
            end
        end
      else rawURL in
    match index_of "@" rawURL with
    | Some (S i) =>
        match index_of "://" rawURL with
        | None => rawURL
        | Some schemeEnd => take_bytes (schemeEnd + 3) rawURL +:+ "***@" +:+ drop_bytes (S i + 1) rawURL
        end
    | _ => mask_key
    end.

(** ** The services the start-up talks to *)

Record World := {
  w_tracing : bool;                     (** tracing initialises *)
  w_connect : bool;                     (** the database connection opens *)
  w_ping : bool;                        (** the database answers the preflight *)
  w_head : adapter -> option Z;         (** the head an endpoint answers *)
  w_upsert : WatchedAddress -> bool     (** the insertion of a row succeeds *)
}.

Inductive preflight_error := PingFailed | HeadFailed (chain : Chain) (network : Network).

(** A nil adapter would panic; the wiring check excludes it. *)
Fixpoint preflight_heads (w : World) (targets : list runtimeTarget) : result preflight_error unit :=
  match targets with
  | [] => Ok tt
  | t :: rest =>
      match rt_target_adapter t ≫= w_head w with
      | None => Err (HeadFailed (rt_target_chain t) (rt_target_network t))
      | Some _ => preflight_heads w rest
      end
  end.

Definition preflightConnectivity (w : World) (targets : list runtimeTarget) : result preflight_error unit :=
  if w_ping w then preflight_heads w targets else Err PingFailed.

Definition env_address (chain : Chain) (network : Network) (addr : string) : WatchedAddress :=
  {| wa_Chain := chain; wa_Network := network; wa_Address := addr; wa_WalletID := None;
     wa_OrganizationID := None; wa_Label := None; wa_IsActive := true; wa_Source := AddressSourceEnv;
     wa_BackfillFromBlock := None |}.

(** Returns the address that failed, if any, with the rows already written. *)
Fixpoint syncWatchedAddresses (w : World) (chain : Chain) (network : Network) (addresses : list string)
    (t : WatchedAddressRepo.table) : option string * WatchedAddressRepo.table :=
  match addresses with
  | [] => (None, t)
  | addr :: rest =>
      let wa := env_address chain network addr in
      if w_upsert w wa then syncWatchedAddresses w chain network rest (WatchedAddressRepo.Upsert t wa)
      else (Some addr, t)
  end.

Fixpoint sync_targets (w : World) (targets : list runtimeTarget) (t : WatchedAddressRepo.table)
    : option string * WatchedAddressRepo.table :=
  match targets with
  | [] => (None, t)
  | tg :: rest =>
      match syncWatchedAddresses w (rt_target_chain tg) (rt_target_network tg) (rt_target_watched tg) t with
      | (None, t') => sync_targets w rest t'
      | failed => failed
      end
  end.

Inductive run_error :=
| LoadFailed (e : load_error)
| AdminAuthRequired
| TracingFailed
| DatabaseFailed
| SelectFailed (e : select_error)
| WiringFailed (failures : list wiring_failure)
| PreflightFailed (e : preflight_error)
| SyncFailed (addr : string).

(** The skew of the commit interleaver: none for a single pipeline. *)
Definition interleave_skew (cfg : Config) (targets : list runtimeTarget) : Z :=
  if (length targets <=? 1)%nat then 0
  else wrap64 (pl_InterleaveMaxSkewMs (cfg_Pipeline cfg) * Millisecond).

(** [run] up to the start of the goroutines: the pipelines it creates, and the
    watched addresses as it leaves them. *)
Definition run_start (w : World) (h : Host) (t : WatchedAddressRepo.table)
    : result run_error (list (runtimeTarget * PipelineSettings)) * WatchedAddressRepo.table :=
  match Load h with
  | Err e => (Err (LoadFailed e), t)
  | Ok cfg =>
      match logSecurityWarnings cfg with
      | Err _ => (Err AdminAuthRequired, t)
      | Ok _ =>
          if negb (w_tracing w) then (Err TracingFailed, t)
          else if negb (w_connect w) then (Err DatabaseFailed, t)
          else
            match selectRuntimeTargets (buildRuntimeTargets cfg) (cfg_Runtime cfg) with
            | Err e => (Err (SelectFailed e), t)
            | Ok targets =>
                match validateRuntimeWiring targets with
                | Err f => (Err (WiringFailed f), t)
                | Ok _ =>
                    match preflightConnectivity w targets with
                    | Err e => (Err (PreflightFailed e), t)
                    | Ok _ =>
                        match sync_targets w targets t with
                        | (Some addr, t') => (Err (SyncFailed addr), t')
                        | (None, t') =>
                            let alerter := buildAlerter cfg in
                            let skew := interleave_skew cfg targets in
                            (Ok ((fun tg => (tg, buildPipelineConfig cfg tg alerter skew)) <$> targets), t')
                        end
                    end
                end
            end
      end
  end.

(** ** Readiness: [healthChecker.check] *)

Inductive check_error := DatabaseUninitialised | DatabaseUnreachable | PipelineUnhealthy (chain : Chain) (network : Network) (failures : Z).

Fixpoint check_pipelines (pipelines : list PipelineHealth) : result check_error unit :=
  match pipelines with
  | [] => Ok tt
  | p :: rest =>
      let snap := Snapshot p in
      if str_eqb (hs_Status snap) (status_string HealthStatusUnhealthy)
      then Err (PipelineUnhealthy (hs_Chain snap) (hs_Network snap) (hs_ConsecutiveFailures snap))
      else check_pipelines rest
  end.

Definition check (db_initialised ping : bool) (pipelines : list PipelineHealth) : result check_error unit :=
  if negb db_initialised then Err DatabaseUninitialised
  else if negb ping then Err DatabaseUnreachable
  else check_pipelines pipelines.

(** ** The pool alert: [startDBPoolExhaustionAlert] *)

(** One tick over [sql.DBStats]: whether an alert is sent. *)
Definition pool_alert (inUse maxOpen : Z) (threshold : float64) : bool :=
  if maxOpen <=? 0 then false
  else
    let usage := match inUse with
                 | Zpos n => f64_ratio false n (Z.to_pos maxOpen)
                 | _ => f64_zero
                 end in
    f64_ltb threshold usage.
