(* ===== verification/StartupProofs.v ===== *)
(** * Correctness of the process start

    The targets that are selected have distinct keys, pass the wiring check and
    have an RPC address; a start that succeeds runs a pipeline for each of
    them, with the settings of the configuration and the watched addresses of
    the environment in the table. *)

From S2P Require Import Prelude Float64 Config ConfigProofs Domain Cache AddressIndex PipelineHealth Startup.
From Stdlib Require Import ZArith Lia Ascii String.
From stdpp Require Import base option list strings gmap.

Open Scope Z_scope.

(** ** The targets that are built *)

(** The names of the chains hold no dash, so a key determines its chain. *)
Definition chain_names : list string := fst <$> supportedNetworks.

Lemma chain_no_dash chain : In chain chain_names -> cut_on "-" chain = None.
Proof. intros H. simpl in H. by repeat destruct H as [<-|H]. Qed.

Lemma chain_trimmed chain : In chain chain_names -> trim_space chain = chain /\ chain <> "".
Proof. intros H. simpl in H. by repeat destruct H as [<-|H]. Qed.

Lemma cut_key chain network :
  In chain chain_names -> cut_on "-" (runtimeTargetKey chain network) = Some (chain, network).
Proof. intros H. unfold runtimeTargetKey. apply cut_on_app, chain_no_dash, H. Qed.

Record built (cfg : Config) (t : runtimeTarget) : Prop := {
  bt_chain : In (rt_target_chain t) chain_names;
  bt_group : rt_target_group t = runtimeLikeGroupForChain (rt_target_chain t);
  bt_adapter : exists a, rt_target_adapter t = Some a /\ ad_Chain a = rt_target_chain t;
  bt_url : rt_target_rpcURL t = chain_url cfg (rt_target_chain t)
}.

Lemma limited_chain a rl name : ad_Chain (applyRateLimit a rl name) = ad_Chain a.
Proof. unfold applyRateLimit. by destruct (f64_leb _ _). Qed.

Ltac built_target :=
  constructor; [vm_compute; auto 10 | reflexivity | eexists; split; [reflexivity|apply limited_chain] | reflexivity].

Lemma buildRuntimeTargets_built cfg t : t ∈ buildRuntimeTargets cfg -> built cfg t.
Proof.
  unfold buildRuntimeTargets. rewrite !elem_of_app. intros [Ht|[Ht|[Ht|[Ht|Ht]]]];
    repeat match type of Ht with
    | _ ∈ (if ?b then _ else _) => destruct b
    | _ ∈ _ :: _ => apply elem_of_cons in Ht as [->|Ht]
    | _ ∈ [] => by apply not_elem_of_nil in Ht
    end; built_target.
Qed.

Lemma built_wiring cfg t : built cfg t -> wiring_of t = [].
Proof.
  intros [Hc Hg (a & Ha & Hac) _]. unfold wiring_of. rewrite Ha, Hac, Hg.
  simpl in Hc. repeat destruct Hc as [<-|Hc]; try reflexivity. done.
Qed.

(** Every chain is built at most once. *)
Lemma buildRuntimeTargets_chains cfg : NoDup (rt_target_chain <$> buildRuntimeTargets cfg).
Proof.
  assert (Hs : sublist (rt_target_chain <$> buildRuntimeTargets cfg)
    [ChainSolana; ChainBase; ChainBTC; ChainEthereum; ChainPolygon; ChainArbitrum; ChainBSC]).
  { unfold buildRuntimeTargets. rewrite !fmap_app.
    change [ChainSolana; ChainBase; ChainBTC; ChainEthereum; ChainPolygon; ChainArbitrum; ChainBSC] with
      ([ChainSolana; ChainBase; ChainBTC] ++ [ChainEthereum] ++ [ChainPolygon] ++ [ChainArbitrum] ++ [ChainBSC]).
    assert (Hb : forall (b : bool) x, sublist (rt_target_chain <$> (if b then [x] else []))
      [rt_target_chain x]) by (intros [] x; [done|apply sublist_nil_l]).
    apply sublist_app; [done|]. apply sublist_app; [apply Hb|]. apply sublist_app; [apply Hb|].
    apply sublist_app; apply Hb. }
  eapply sublist_NoDup; [|exact Hs].
  repeat (apply NoDup_cons; split; [rewrite ?not_elem_of_cons; repeat split; try done; apply not_elem_of_nil|]).
  apply NoDup_nil_2.
Qed.

Lemma keys_of_chains cfg l :
  (forall t, t ∈ l -> built cfg t) -> NoDup (rt_target_chain <$> l) -> NoDup (runtimeTargetKeys l).
Proof.
  unfold runtimeTargetKeys. induction l as [|t l IH]; intros Hb Hnd; [constructor|].
  apply NoDup_cons in Hnd as [Hn Hnd]. apply NoDup_cons. split; [|apply IH; [set_solver|done]].
  intros (u & Hu & Hin)%list_elem_of_fmap. apply Hn, list_elem_of_fmap. exists u. split; [|done].
  assert (Ht : built cfg t) by (apply Hb; set_solver). assert (Hbu : built cfg u) by (apply Hb; set_solver).
  pose proof (cut_key _ (rt_target_network t) (bt_chain _ _ Ht)) as H1.
  pose proof (cut_key _ (rt_target_network u) (bt_chain _ _ Hbu)) as H2.
  unfold target_key in Hu. rewrite Hu, H2 in H1. by injection H1.
Qed.

Lemma buildRuntimeTargets_keys cfg : NoDup (runtimeTargetKeys (buildRuntimeTargets cfg)).
Proof. apply (keys_of_chains cfg); [apply buildRuntimeTargets_built|apply buildRuntimeTargets_chains]. Qed.

(** ** Selection *)

(** The targets the group of the configuration leaves. *)
Definition eligible (all : list runtimeTarget) (r : RuntimeConfig) : list runtimeTarget :=
  if str_eqb (rt_DeploymentMode r) RuntimeDeploymentModeIndependent || str_empty (rt_LikeGroup r) then all
  else filter (fun t => rt_target_group t = rt_LikeGroup r) all.

(** The targets selected, when nothing requested is missing. *)
Definition selection (all : list runtimeTarget) (r : RuntimeConfig) : list runtimeTarget :=
  match rt_ChainTargets r with
  | [] => eligible all r
  | keys => filter (fun t => str_in (target_key t) (normalizeRuntimeTargetKeys keys) = true) (eligible all r)
  end.

Definition all_found (all : list runtimeTarget) (r : RuntimeConfig) : Prop :=
  forall key, key ∈ normalizeRuntimeTargetKeys (rt_ChainTargets r) ->
    exists t, t ∈ eligible all r /\ target_key t = key.

Lemma filter_missing targets keys :
  keys <> [] ->
  filterRuntimeTargetsByKeys targets keys =
    (filter (fun t => str_in (target_key t) (normalizeRuntimeTargetKeys keys) = true) targets,
     filter (fun key => str_in key (runtimeTargetKeys
       (filter (fun t => str_in (target_key t) (normalizeRuntimeTargetKeys keys) = true) targets)) = false)
       (normalizeRuntimeTargetKeys keys)).
Proof. by destruct keys. Qed.

Lemma missing_none targets requested :
  filter (fun key => str_in key (runtimeTargetKeys
    (filter (fun t => str_in (target_key t) requested = true) targets)) = false) requested = [] <->
  forall key, key ∈ requested -> exists t, t ∈ targets /\ target_key t = key.
Proof.
  split.
  - intros Hf key Hk. destruct (str_in key (runtimeTargetKeys
      (filter (fun t => str_in (target_key t) requested = true) targets))) eqn:E.
    + apply str_in_elem in E. unfold runtimeTargetKeys in E.
      apply list_elem_of_fmap in E as (t & -> & Ht). apply list_elem_of_filter in Ht as [_ Ht]. eauto.
    + exfalso. apply (not_elem_of_nil key). rewrite <- Hf. by apply list_elem_of_filter.
  - intros Hall. apply filter_none. intros key Hk Hn. destruct (Hall key Hk) as (t & Ht & <-).
    apply not_true_iff_false in Hn. apply Hn, str_in_elem. unfold runtimeTargetKeys.
    apply list_elem_of_fmap. exists t. split; [done|]. apply list_elem_of_filter. split; [|done].
    by apply str_in_elem.
Qed.

Lemma select_inv all r targets :
  selectRuntimeTargets all r = Ok targets ->
  targets = selection all r /\ targets <> [] /\ (rt_ChainTargets r <> [] -> all_found all r) \/
  (str_eqb (rt_DeploymentMode r) RuntimeDeploymentModeIndependent = true /\ rt_ChainTargets r = []).
Proof.
  unfold selectRuntimeTargets, selection, all_found, eligible. intros H.
  destruct (str_eqb (rt_DeploymentMode r) RuntimeDeploymentModeLikeGroup) eqn:El.
  - assert (Ei : str_eqb (rt_DeploymentMode r) RuntimeDeploymentModeIndependent = false).
    { apply str_eqb_eq in El. by rewrite El. }
    rewrite Ei. simpl. left.
    set (sel := if str_empty (rt_LikeGroup r) then all else filter _ all) in *.
    destruct (rt_ChainTargets r) as [|k ks] eqn:Ek.
    + destruct sel; simplify_eq. split_and!; done.
    + rewrite filter_missing in H by done.
      destruct (filter _ (normalizeRuntimeTargetKeys (k :: ks))) eqn:Em; [|done].
      pose proof (proj1 (missing_none sel _) Em) as Hall.
      destruct (filter _ sel) eqn:Ef; simplify_eq. split_and!; [done|done|intros _; exact Hall].
  - destruct (str_eqb (rt_DeploymentMode r) RuntimeDeploymentModeIndependent) eqn:Ei; [|done]. simpl.
    destruct (rt_ChainTargets r) as [|k ks] eqn:Ek; [by right|left].
    rewrite filter_missing in H by done.
    destruct (filter _ (normalizeRuntimeTargetKeys (k :: ks))) eqn:Em; [|done].
    pose proof (proj1 (missing_none all _) Em) as Hall.
    destruct (filter _ all) eqn:Ef; simplify_eq. split_and!; [done|done|intros _; exact Hall].
Qed.

Lemma select_complete all r :
  (rt_DeploymentMode r = RuntimeDeploymentModeLikeGroup \/
   rt_DeploymentMode r = RuntimeDeploymentModeIndependent /\ rt_ChainTargets r <> []) ->
  (rt_ChainTargets r <> [] -> all_found all r) -> selection all r <> [] ->
  selectRuntimeTargets all r = Ok (selection all r).
Proof.
  unfold selectRuntimeTargets, selection, all_found, eligible. intros Hm Hall Hne.
  destruct Hm as [Hm|[Hm Hk]]; rewrite Hm in *; simpl in *.
  - set (sel := if str_empty (rt_LikeGroup r) then all else filter _ all) in *.
    destruct (rt_ChainTargets r) as [|k ks] eqn:Ek.
    + by destruct sel.
    + rewrite filter_missing by done.
      assert (Hf := proj2 (missing_none sel (normalizeRuntimeTargetKeys (k :: ks))) (Hall ltac:(done))).
      rewrite Hf. by destruct (filter _ sel).
  - destruct (rt_ChainTargets r) as [|k ks] eqn:Ek; [done|].
    rewrite filter_missing by done.
    assert (Hf := proj2 (missing_none all (normalizeRuntimeTargetKeys (k :: ks))) (Hall ltac:(done))).
    rewrite Hf. by destruct (filter _ all).
Qed.

(** ** Selected targets are required ones *)

Lemma normalize_values_from seen l x :
  x ∈ normalize_values seen l -> exists v, v ∈ l /\ x = to_lower (trim_space v).
Proof.
  revert seen; induction l as [|v l IH]; intros seen; simpl; [set_solver|].
  intros H. destruct (str_empty _); [|destruct (str_in _ seen)].
  - destruct (IH _ H) as (u & Hu & ->). set_solver.
  - destruct (IH _ H) as (u & Hu & ->). set_solver.
  - apply elem_of_cons in H as [->|H]; [set_solver|]. destruct (IH _ H) as (u & Hu & ->). set_solver.
Qed.

Lemma key_names_chain target chain network :
  supported target -> In chain chain_names ->
  to_lower (trim_space target) = runtimeTargetKey chain network ->
  chainNameFromTargetKey target = Ok chain.
Proof.
  intros (c & n & Hp) Hc Hk. unfold chainNameFromTargetKey. rewrite Hp.
  unfold parseRuntimeTargetKey in Hp. rewrite <- to_lower_trim, Hk, (cut_key _ _ Hc) in Hp.
  destruct (str_empty (runtimeTargetKey chain network)); [done|].
  destruct (str_empty (trim_space network)); [done|].
  rewrite (proj1 (chain_trimmed _ Hc)) in Hp.
  destruct (networks_of chain supportedNetworks); [|done].
  destruct (str_in (trim_space network) l); [|done]. by injection Hp as <- _.
Qed.

Lemma eligible_group cfg r t :
  t ∈ eligible (buildRuntimeTargets cfg) r ->
  t ∈ buildRuntimeTargets cfg /\
  (str_eqb (rt_DeploymentMode r) RuntimeDeploymentModeIndependent = true \/ rt_LikeGroup r = "" \/
   rt_target_group t = rt_LikeGroup r).
Proof.
  unfold eligible. destruct (str_eqb _ _); simpl; [auto|].
  destruct (str_empty (rt_LikeGroup r)) eqn:E; [apply str_empty_spec in E; auto|].
  intros [Hg Ht]%list_elem_of_filter. auto.
Qed.

Lemma selection_built cfg r t :
  t ∈ selection (buildRuntimeTargets cfg) r -> t ∈ eligible (buildRuntimeTargets cfg) r.
Proof.
  unfold selection. destruct (rt_ChainTargets r); [done|]. by intros [_ Ht]%list_elem_of_filter.
Qed.

(** Without chain targets only the chains of the default groups are built. *)
Lemma default_targets cfg t :
  rt_ChainTargets (cfg_Runtime cfg) = [] -> t ∈ buildRuntimeTargets cfg ->
  (rt_target_chain t = ChainSolana /\ rt_target_group t = RuntimeLikeGroupSolana) \/
  (rt_target_chain t = ChainBase /\ rt_target_group t = RuntimeLikeGroupEVM) \/
  (rt_target_chain t = ChainBTC /\ rt_target_group t = RuntimeLikeGroupBTC).
Proof.
  intros Hn. unfold buildRuntimeTargets. rewrite Hn. simpl. rewrite !elem_of_cons.
  intros [-> |[-> |[-> |Ht]]]; [left|right; left|right; right|by apply not_elem_of_nil in Ht]; done.
Qed.

Lemma selected_required cfg m t :
  runtime_ok (cfg_Runtime cfg) -> requiredRuntimeChains (cfg_Runtime cfg) = Ok m ->
  t ∈ selection (buildRuntimeTargets cfg) (cfg_Runtime cfg) -> is_required m (rt_target_chain t) = true.
Proof.
  set (r := cfg_Runtime cfg). intros (Hmode & Hgroup & Hsup) Hm Ht.
  pose proof (selection_built _ _ _ Ht) as Hel. apply eligible_group in Hel as [Hin Hg].
  assert (Hadd : rt_ChainTargets r <> [] -> addChainTargets no_chains (rt_ChainTargets r) = Ok m).
  { unfold requiredRuntimeChains in Hm. destruct Hmode as [Hmo|(Hmo & _ & _)]; rewrite Hmo in Hm; simpl in Hm; [|done].
    by destruct (rt_ChainTargets r). }
  destruct (rt_ChainTargets r) as [|k ks] eqn:Ek.
  - destruct Hmode as [Hmo|(_ & _ & (? & Hx))]; [|by rewrite Hx in Ek].
    unfold requiredRuntimeChains in Hm. rewrite Hmo, Ek in Hm. simpl in Hm.
    rewrite Hmo in Hg. destruct Hg as [Hg|Hg]; [done|].
    apply (default_targets cfg t Ek) in Hin.
    rewrite !elem_of_cons in Hgroup.
    destruct Hgroup as [Eg|[Eg|[Eg|[Eg|Eg]]]]; [| | | |by apply not_elem_of_nil in Eg];
      rewrite Eg in Hm, Hg; simpl in Hm; injection Hm as <-; rewrite !is_required_insert;
      destruct Hin as [[Hc Hgt]|[[Hc Hgt]|[Hc Hgt]]]; rewrite Hc; rewrite Hgt in Hg;
      try (destruct Hg; done); auto.
  - apply (addChainTargets_spec _ _ _ (Hadd ltac:(done))). right.
    unfold selection in Ht. fold r in Ht. rewrite Ek in Ht.
    apply list_elem_of_filter in Ht as [Hs _]. apply str_in_elem, normalize_values_from in Hs as (v & Hv & Hkey).
    exists v. split; [done|]. apply (key_names_chain v _ (rt_target_network t)).
    + by apply Hsup.
    + apply (bt_chain cfg). by apply buildRuntimeTargets_built.
    + by rewrite <- Hkey.
Qed.

Lemma selection_sublist cfg r : sublist (selection (buildRuntimeTargets cfg) r) (buildRuntimeTargets cfg).
Proof.
  assert (He : sublist (eligible (buildRuntimeTargets cfg) r) (buildRuntimeTargets cfg)).
  { unfold eligible. destruct (_ || _); [done|apply sublist_filter]. }
  unfold selection. destruct (rt_ChainTargets r); [done|].
  etrans; [apply sublist_filter|done].
Qed.

Lemma selection_keys cfg r : NoDup (runtimeTargetKeys (selection (buildRuntimeTargets cfg) r)).
Proof.
  eapply sublist_NoDup; [apply (buildRuntimeTargets_keys cfg)|].
  unfold runtimeTargetKeys. apply fmap_sublist, selection_sublist.
Qed.

(** ** The wiring check *)

Lemma wiring_ok cfg seen l :
  (forall t, t ∈ l -> built cfg t) -> NoDup (runtimeTargetKeys l) ->
  (forall t, t ∈ l -> target_key t ∉ seen) -> wiring_failures seen l = [].
Proof.
  revert seen; induction l as [|t l IH]; intros seen Hb Hnd Hs; [done|].
  unfold runtimeTargetKeys in Hnd. apply NoDup_cons in Hnd as [Hn Hnd]. simpl.
  destruct (str_in (target_key t) seen) eqn:E.
  { apply str_in_elem in E. exfalso. apply (Hs t); [set_solver|done]. }
  rewrite (built_wiring cfg) by (apply Hb; set_solver). simpl. apply IH; [set_solver|done|].
  intros u Hu [Hk|Hk]%elem_of_cons; [|by apply (Hs u); [set_solver|]].
  apply Hn. apply list_elem_of_fmap. exists u. split; [by rewrite Hk|done].
Qed.

Lemma selected_wiring cfg r :
  selection (buildRuntimeTargets cfg) r <> [] ->
  validateRuntimeWiring (selection (buildRuntimeTargets cfg) r) = Ok tt.
Proof.
  intros Hne. unfold validateRuntimeWiring.
  rewrite (wiring_ok cfg []); [by destruct (selection _ _)| |apply selection_keys|set_solver].
  intros t Ht. apply buildRuntimeTargets_built. by apply selection_built, eligible_group in Ht as [? _].
Qed.

(** ** Watched addresses *)

Definition active_in (t : WatchedAddressRepo.table) (k : Chain * Network * string) : Prop :=
  exists row, row ∈ t /\ WatchedAddressRepo.key_of row = k /\ wa_IsActive row = true.

Lemma upsert_active t wa : wa_IsActive wa = true -> active_in (WatchedAddressRepo.Upsert t wa) (WatchedAddressRepo.key_of wa).
Proof.
  intros Ha. unfold WatchedAddressRepo.Upsert. case_bool_decide as Hin.
  - apply list_elem_of_fmap in Hin as (row & Hk & Hrow).
    exists (WatchedAddressRepo.set_active (wa_IsActive wa) row). split_and!; try done.
    apply list_elem_of_fmap. exists row. split; [|done]. by rewrite decide_True.
  - exists (WatchedAddressRepo.set_backfill None wa). split_and!; try done. set_solver.
Qed.

Lemma upsert_keeps t wa k :
  wa_IsActive wa = true -> active_in t k -> active_in (WatchedAddressRepo.Upsert t wa) k.
Proof.
  intros Ha (row & Hrow & Hk & Hact). unfold WatchedAddressRepo.Upsert. case_bool_decide as Hin.
  - destruct (decide (WatchedAddressRepo.key_of row = WatchedAddressRepo.key_of wa)) as [He|Hne].
    + exists (WatchedAddressRepo.set_active (wa_IsActive wa) row). split_and!; try done.
      apply list_elem_of_fmap. exists row. split; [|done]. by rewrite decide_True.
    + exists row. split_and!; try done. apply list_elem_of_fmap. exists row. split; [|done]. by rewrite decide_False.
  - exists row. split_and!; try done. set_solver.
Qed.

Lemma sync_active w chain network l t t' :
  syncWatchedAddresses w chain network l t = (None, t') ->
  (forall k, active_in t k -> active_in t' k) /\ (forall a, a ∈ l -> active_in t' (chain, network, a)).
Proof.
  revert t; induction l as [|a l IH]; intros t H; simpl in H; [simplify_eq; split; [done|set_solver]|].
  destruct (w_upsert w (env_address chain network a)); [|done].
  apply IH in H as [Hk Hl]. split.
  - intros k Hact. apply Hk, upsert_keeps; done.
  - intros b [->|Hb]%elem_of_cons; [|by apply Hl]. apply Hk. by apply (upsert_active t (env_address chain network a)).
Qed.

Lemma sync_targets_active w l t t' :
  sync_targets w l t = (None, t') ->
  (forall k, active_in t k -> active_in t' k) /\
  (forall tg a, tg ∈ l -> a ∈ rt_target_watched tg ->
     active_in t' (rt_target_chain tg, rt_target_network tg, a)).
Proof.
  revert t; induction l as [|tg l IH]; intros t H; simpl in H; [simplify_eq; split; [done|set_solver]|].
  destruct (syncWatchedAddresses _ _ _ _ t) as [[e|] t1] eqn:E; [done|].
  apply sync_active in E as [Hk1 Hl1]. apply IH in H as [Hk Hl]. split; [by eauto|].
  intros u x [->|Hu]%elem_of_cons Ha; [|by apply Hl]. apply Hk. by apply Hl1.
Qed.

(** ** The start *)

Lemma run_start_inv w h t plan t' :
  run_start w h t = (Ok plan, t') ->
  exists cfg targets, Load h = Ok cfg /\
    (admin_unprotected cfg = true -> srv_AdminRequireAuth (cfg_Server cfg) = false) /\
    selectRuntimeTargets (buildRuntimeTargets cfg) (cfg_Runtime cfg) = Ok targets /\
    preflightConnectivity w targets = Ok tt /\
    sync_targets w targets t = (None, t') /\
    plan = (fun tg => (tg, buildPipelineConfig cfg tg (buildAlerter cfg) (interleave_skew cfg targets))) <$> targets.
Proof.
  unfold run_start. intros H.
  destruct (Load h) as [cfg|] eqn:El; [|done]. exists cfg.
  destruct (logSecurityWarnings cfg) as [ws|] eqn:Es; [|done].
  destruct (negb _); [done|]. destruct (negb _); [done|].
  destruct (selectRuntimeTargets _ _) as [targets|]; [|done]. exists targets.
  destruct (validateRuntimeWiring targets); [|done].
  destruct (preflightConnectivity w targets) as [[]|]; [|done].
  destruct (sync_targets w targets t) as [[bad|] t1]; [done|]. injection H as <- <-.
  split_and!; try done. intros Hu. unfold logSecurityWarnings in Es. rewrite Hu in Es.
  by destruct (srv_AdminRequireAuth (cfg_Server cfg)).
Qed.

Lemma preflight_answers w l t :
  preflight_heads w l = Ok tt -> t ∈ l -> exists a n, rt_target_adapter t = Some a /\ w_head w a = Some n.
Proof.
  induction l as [|u l IH]; intros H Ht; [set_solver|]. simpl in H.
  destruct (rt_target_adapter u ≫= w_head w) as [n|] eqn:E; [|done].
  apply elem_of_cons in Ht as [->|Ht]; [|by apply IH].
  destruct (rt_target_adapter u) as [a|] eqn:Ea; [|done]. exists a, n. done.
Qed.

(** What a started pipeline has: settings within the bounds of its stages, an
    endpoint that answered, its addresses in the table. *)
Record ready (w : World) (cfg : Config) (t' : WatchedAddressRepo.table) (tg : runtimeTarget) (ps : PipelineSettings) : Prop := {
  rd_built : built cfg tg;
  rd_url : rt_target_rpcURL tg <> "";
  rd_head : exists a n, rt_target_adapter tg = Some a /\ ad_Chain a = rt_target_chain tg /\ w_head w a = Some n;
  rd_settings : ps_Chain ps = rt_target_chain tg /\ ps_Network ps = rt_target_network tg /\
                1 <= ps_FetchWorkers ps <= 100 /\ 1 <= ps_NormalizerWorkers ps <= 100 /\
                0 < ps_JobChBufferSize ps /\ 0 < ps_RawBatchChBufferSize ps /\
                0 < ps_NormalizedChBufferSize ps /\ ps_BatchSize ps <> 0;
  rd_watched : forall a, a ∈ rt_target_watched tg ->
                 active_in t' (rt_target_chain tg, rt_target_network tg, a)
}.

Lemma resolve_nonzero cfg chain :
  pl_BatchSize (cfg_Pipeline cfg) <> 0 -> resolveBlockScanBatchSize cfg chain <> 0.
Proof. unfold resolveBlockScanBatchSize. intros H. repeat case_match; lia. Qed.

Lemma independent_single cfg :
  runtime_ok (cfg_Runtime cfg) -> rt_DeploymentMode (cfg_Runtime cfg) = RuntimeDeploymentModeIndependent ->
  selection (buildRuntimeTargets cfg) (cfg_Runtime cfg) <> [] ->
  exists tg, selection (buildRuntimeTargets cfg) (cfg_Runtime cfg) = [tg].
Proof.
  set (r := cfg_Runtime cfg). intros ([Hm|(_ & _ & (k & Hk))] & _) Hi Hne; [by rewrite Hm in Hi|].
  pose proof (selection_keys cfg r) as Hnd.
  assert (Hall : forall t, t ∈ selection (buildRuntimeTargets cfg) r -> target_key t = to_lower (trim_space k)).
  { intros t Ht. unfold selection in Ht. rewrite Hk in Ht.
    apply list_elem_of_filter in Ht as [Hs _]. apply str_in_elem, normalize_values_from in Hs as (v & Hv & ->).
    apply list_elem_of_singleton in Hv as ->. done. }
  destruct (selection (buildRuntimeTargets cfg) r) as [|a [|b l]]; [done|by exists a|].
  exfalso. unfold runtimeTargetKeys in Hnd. simpl in Hnd. apply NoDup_cons in Hnd as [Hn _].
  apply Hn. rewrite (Hall a), <- (Hall b) by set_solver. set_solver.
Qed.

Lemma independent_targets r : runtime_ok r ->
  str_eqb (rt_DeploymentMode r) RuntimeDeploymentModeIndependent = true -> rt_ChainTargets r <> [].
Proof. intros ([Hm|(_ & _ & (k & Hk))] & _) Hi; [by rewrite Hm in Hi|by rewrite Hk]. Qed.

(** C15: a start that succeeds runs pipelines with distinct keys, at least one, exactly one in
    independent mode, each with an endpoint that is configured and answered, with workers
    within 1 and 100, positive buffers, a batch size other than zero, and the addresses of the
    environment active in the table; an admin interface with neither a user nor a token starts
    only if the environment sets whether authentication is required.  (With a user and no
    password it starts too, and is open: see [user_without_password_open].) *)
Theorem startup_ready w h t plan t' :
  yaml_typed h -> run_start w h t = (Ok plan, t') ->
  exists cfg, Load h = Ok cfg /\ plan <> [] /\ NoDup (target_key ∘ fst <$> plan) /\
    (forall tg ps, (tg, ps) ∈ plan -> ready w cfg t' tg ps) /\
    (rt_DeploymentMode (cfg_Runtime cfg) = RuntimeDeploymentModeIndependent -> length plan = 1%nat) /\
    (srv_AdminAddr (cfg_Server cfg) <> "" -> srv_AdminAuthUser (cfg_Server cfg) = "" ->
     srv_AdminAuthToken (cfg_Server cfg) = "" -> h_env h "ADMIN_REQUIRE_AUTH" <> None).
Proof.
  intros Hy (cfg & targets & Hl & Hadm & Hsel & Hpre & Hsync & ->)%run_start_inv. exists cfg.
  pose proof (loaded_well_formed h cfg Hy Hl) as [_ _ _ _ _ _ Hw Hb (_ & Hbat & _) _ Hrt (m & Hm & Hurl) Hsrv].
  destruct (select_inv _ _ _ Hsel) as [(-> & Hne & _)|[Hi Hn]]; [|by destruct (independent_targets _ Hrt Hi)].
  set (sel := selection (buildRuntimeTargets cfg) (cfg_Runtime cfg)) in *.
  apply sync_targets_active in Hsync as [_ Hact].
  split; [done|]. split; [by destruct sel|]. split; [|split; [|split]].
  - rewrite <- list_fmap_compose. exact (selection_keys cfg (cfg_Runtime cfg)).
  - intros tg ps (tg' & [= -> ->] & Htg)%list_elem_of_fmap.
    assert (Hbt : built cfg tg') by (apply buildRuntimeTargets_built; by apply selection_built, eligible_group in Htg as [? _]).
    unfold preflightConnectivity in Hpre. destruct (w_ping w); [|done].
    destruct (preflight_answers _ _ _ Hpre Htg) as (a & n & Ha & Hh).
    constructor; [done| | | |by eauto].
    + rewrite (bt_url _ _ Hbt). apply Hurl. by eapply selected_required.
    + exists a, n. destruct (bt_adapter _ _ Hbt) as (a' & Ha' & Hc). rewrite Ha in Ha'. by injection Ha' as <-.
    + simpl. split_and!; try apply Hw; try apply Hb; try done. by apply resolve_nonzero.
  - intros Hi. rewrite length_fmap. destruct (independent_single cfg Hrt Hi Hne) as (tg & Htg).
    unfold sel. by rewrite Htg.
  - intros Haddr Hu Htok. destruct (Hsrv Haddr) as (_ & Hq & _). apply Hq, Hadm. unfold admin_unprotected.
    rewrite Hu, Htok. by destruct (srv_AdminAddr (cfg_Server cfg)).
Qed.

Lemma filter_nonempty {A} (P : A -> Prop) `{!forall x, Decision (P x)} (l : list A) x :
  x ∈ l -> P x -> filter P l <> [].
Proof. intros Hx HP Hf. apply (not_elem_of_nil x). rewrite <- Hf. by apply list_elem_of_filter. Qed.

Lemma supported_normal k : supported k -> exists c s, to_lower (trim_space k) = String c s.
Proof.
  intros (c & n & H). unfold parseRuntimeTargetKey in H. rewrite <- to_lower_trim in H.
  destruct (to_lower (trim_space k)) as [|c' s]; [done|eauto].
Qed.

(** A configuration that is valid selects something when nothing is missing:
    without targets the group keeps one of the default chains, with targets the
    first of them names a target. *)
Lemma nonempty_selection cfg :
  runtime_ok (cfg_Runtime cfg) -> all_found (buildRuntimeTargets cfg) (cfg_Runtime cfg) ->
  selection (buildRuntimeTargets cfg) (cfg_Runtime cfg) <> [].
Proof.
  set (r := cfg_Runtime cfg). intros (Hmode & Hg & Hsup) Hall.
  unfold selection. destruct (rt_ChainTargets r) as [|k ks] eqn:Ek.
  - destruct Hmode as [Hm|(_ & _ & (? & Hx))]; [|by rewrite Hx in Ek].
    unfold eligible. rewrite Hm. simpl. rewrite !elem_of_cons in Hg.
    destruct Hg as [Eg|[Eg|[Eg|[Eg|Eg]]]]; [| | | |by apply not_elem_of_nil in Eg]; rewrite Eg; [done|..].
    + apply (filter_nonempty _ _ (solana_target cfg)); [set_solver|done].
    + apply (filter_nonempty _ _ (base_target cfg)); [set_solver|done].
    + apply (filter_nonempty _ _ (btc_target cfg)); [set_solver|done].
  - destruct (supported_normal k) as (c & s & Hx); [apply Hsup; set_solver|].
    set (x := String c s) in *. assert (Hin : x ∈ normalizeRuntimeTargetKeys (k :: ks)).
    { unfold normalizeRuntimeTargetKeys. simpl. rewrite Hx. simpl. set_solver. }
    destruct (Hall x) as (t & Ht & Hk); [by rewrite Ek|].
    apply (filter_nonempty _ _ t); [done|]. rewrite Hk. by apply str_in_elem.
Qed.

(** Also: for a loaded configuration the selection fails exactly when a
    requested target is not among the built targets its group leaves, and what
    it selects always passes the wiring check. *)
Theorem selection_decided h cfg :
  yaml_typed h -> Load h = Ok cfg ->
  let all := buildRuntimeTargets cfg in
  let r := cfg_Runtime cfg in
  (all_found all r -> selectRuntimeTargets all r = Ok (selection all r) /\
                      validateRuntimeWiring (selection all r) = Ok tt) /\
  (~ all_found all r -> exists e, selectRuntimeTargets all r = Err e).
Proof.
  intros Hy Hl all r.
  pose proof (wf_runtime _ _ (loaded_well_formed h cfg Hy Hl)) as Hrt. fold r in Hrt. split.
  - intros Hall. assert (Hne : selection all r <> []) by (by apply nonempty_selection).
    split; [|by apply selected_wiring]. apply select_complete; [|auto|done].
    destruct Hrt as ([Hm|(Hm & _ & (k & Hk))] & _); [by left|right]. by rewrite Hk.
  - intros Hn. destruct (selectRuntimeTargets all r) as [targets|e] eqn:E; [|by exists e].
    exfalso. apply Hn. destruct (select_inv _ _ _ E) as [(_ & _ & Ha)|[Hi Hz]].
    + destruct (rt_ChainTargets r) as [|k ks] eqn:Ek; [|by apply Ha].
      unfold all_found. rewrite Ek. simpl. set_solver.
    + by destruct (independent_targets _ Hrt Hi).
Qed.

(** ** Credentials in log output *)

Lemma prefix_app s t : String.prefix s (s +:+ t) = true.
Proof. induction s as [|c s IH]; [by destruct t|]. simpl. destruct (ascii_dec c c); [exact IH|done]. Qed.

Lemma contains_app s sub t : contains (s +:+ sub +:+ t) sub = true.
Proof.
  induction s as [|c s IH]; simpl.
  - pose proof (prefix_app sub t) as Hp.
    change (contains (sub +:+ t) sub = true). destruct (sub +:+ t); cbn [contains]; by rewrite Hp.
  - rewrite IH. apply orb_true_r.
Qed.

Definition lacks (c : ascii) (s : string) : Prop := cut_on c s = None.

Lemma lacks_app c s t : lacks c (s +:+ t) <-> lacks c s /\ lacks c t.
Proof.
  unfold lacks. induction s as [|a s IH]; simpl; [tauto|].
  destruct (Ascii.eqb a c); [split; [done|by intros [? _]]|].
  destruct (cut_on c (s +:+ t)) as [[k v]|]; destruct (cut_on c s) as [[k' v']|]; intuition congruence.
Qed.

(** The first occurrence of a string that starts with a byte the text before it
    lacks. *)
Lemma index_of_first c sub s t :
  lacks c s -> index_of (String c sub) (s +:+ String c sub +:+ t) = Some (String.length s).
Proof.
  unfold lacks. induction s as [|a s IH]; intros H.
  - change (EmptyString +:+ String c sub +:+ t) with (String c (sub +:+ t)).
    cbn [index_of]. change (String c (sub +:+ t)) with (String c sub +:+ t). by rewrite prefix_app.
  - simpl in H. destruct (Ascii.eqb a c) eqn:E; [done|].
    destruct (cut_on c s) as [[k v]|]; [done|]. apply Ascii.eqb_neq in E.
    change (String a s +:+ String c sub +:+ t) with (String a (s +:+ String c sub +:+ t)).
    cbn [index_of]. simpl String.prefix. destruct (ascii_dec c a); [congruence|].
    by rewrite IH.
Qed.

Lemma index_of_absent c sub s : lacks c s -> index_of (String c sub) s = None.
Proof.
  unfold lacks. induction s as [|a s IH]; [done|]. simpl. intros H.
  destruct (Ascii.eqb a c) eqn:E; [done|]. apply Ascii.eqb_neq in E.
  destruct (cut_on c s) as [[k v]|]; [done|].
  destruct (ascii_dec c a); [congruence|]. by rewrite IH.
Qed.

Lemma take_app s t : take_bytes (String.length s) (s +:+ t) = s.
Proof. unfold take_bytes. induction s as [|c s IH]; simpl; [by destruct t|by rewrite IH]. Qed.

Lemma drop_app s t : drop_bytes (String.length s) (s +:+ t) = t.
Proof. by induction s as [|c s IH]. Qed.

Lemma length_str_app s t : String.length (s +:+ t) = (String.length s + String.length t)%nat.
Proof. induction s as [|c s IH]; simpl; [done|by rewrite IH]. Qed.

Lemma take_app_at n s t : n = String.length s -> take_bytes n (s +:+ t) = s.
Proof. intros ->. apply take_app. Qed.
Lemma drop_app_at n s t : n = String.length s -> drop_bytes n (s +:+ t) = t.
Proof. intros ->. apply drop_app. Qed.

(** Also: the part of an address before its first [@] is masked, up to the
    scheme; so a password that holds an [@] keeps what follows it. *)
Theorem credentials_masked scheme user rest :
  lacks ":" scheme -> lacks "@" scheme -> lacks "@" user -> scheme <> EmptyString ->
  maskCredentials (scheme +:+ "://" +:+ user +:+ "@" +:+ rest) = scheme +:+ "://***@" +:+ rest.
Proof.
  intros Hc Hs Hu Hne. set (before := scheme +:+ "://" +:+ user).
  set (url := scheme +:+ "://" +:+ user +:+ "@" +:+ rest).
  assert (Hb : url = before +:+ "@" +:+ rest) by (unfold url, before; by rewrite !append_assoc_string).
  assert (Hl : lacks "@" before) by (unfold before; rewrite !lacks_app; done).
  assert (Hat : index_of "@" url = Some (String.length before)) by (rewrite Hb; by apply index_of_first).
  assert (Hcol : index_of "://" url = Some (String.length scheme)) by (by apply index_of_first).
  assert (Htake : take_bytes (String.length scheme + 3) url = scheme +:+ "://").
  { unfold url. rewrite <- append_assoc_string. apply take_app_at. by rewrite length_str_app. }
  assert (Hdrop : drop_bytes (String.length before + 1) url = rest).
  { rewrite Hb, <- append_assoc_string. apply drop_app_at. by rewrite length_str_app. }
  assert (Hurl : str_empty url = false) by (apply str_empty_false; unfold url; by destruct scheme).
  assert (Hpos : exists i, String.length before = S i) by (unfold before; destruct scheme; [done|by eexists]).
  destruct Hpos as [i Hi]. rewrite Hi in Hat, Hdrop.
  unfold maskCredentials. rewrite Hurl, Hat, Hcol, Htake, Hdrop. by rewrite append_assoc_string.
Qed.

(** A key in the query of an address without a path is printed as it is. *)
Lemma query_key_printed scheme host key :
  lacks ":" scheme -> lacks "@" (scheme +:+ "://" +:+ host +:+ "?apikey=" +:+ key) ->
  lacks "/" (host +:+ "?apikey=" +:+ key) -> scheme <> EmptyString ->
  maskCredentials (scheme +:+ "://" +:+ host +:+ "?apikey=" +:+ key) =
    scheme +:+ "://" +:+ host +:+ "?apikey=" +:+ key.
Proof.
  intros Hc Ha Hs Hne. set (url := scheme +:+ "://" +:+ host +:+ "?apikey=" +:+ key) in *.
  assert (Hurl : str_empty url = false) by (apply str_empty_false; unfold url; by destruct scheme).
  assert (Hat : index_of "@" url = None) by (by apply index_of_absent).
  assert (Hcol : index_of "://" url = Some (String.length scheme)) by (by apply index_of_first).
  assert (Hdrop : drop_bytes (String.length scheme + 3) url = host +:+ "?apikey=" +:+ key).
  { unfold url. rewrite <- append_assoc_string. apply drop_app_at. by rewrite length_str_app. }
  unfold maskCredentials. rewrite Hurl, Hat, Hcol, Hdrop, (index_of_absent "/" "") by done.
  by destruct (_ || _).
Qed.

Lemma credentials_masked_witness :
  lacks ":" "postgres" /\ maskCredentials "postgres://indexer:s3cret@db/custody" = "postgres://***@db/custody".
Proof.
  split; [reflexivity|].
  exact (credentials_masked "postgres" "indexer:s3cret" "db/custody" eq_refl eq_refl eq_refl ltac:(discriminate)).
Defined.

Example password_tail_printed :
  maskCredentials "postgres://indexer:p@ss@db/custody" = "postgres://***@ss@db/custody".
Proof. reflexivity. Qed.

(** ** A start *)

Definition sample_world : World := {|
  w_tracing := true; w_connect := true; w_ping := true;
  w_head := fun a => if str_eqb (ad_Chain a) "btc" then Some 800000 else Some 12345678;
  w_upsert := fun _ => true |}.

(** The sample host with an admin token and an address to watch. *)
Definition start_env : Env := fun key =>
  if str_eqb key "ADMIN_AUTH_TOKEN" then Some "token"
  else if str_eqb key "BTC_WATCHED_ADDRESSES" then Some "tb1qexample, "
  else sample_env key.
Definition start_host : Host := {| h_env := start_env; h_read := fun _ => FileMissing; h_yaml := fun _ _ => None |}.

Lemma start_typed : yaml_typed start_host.
Proof. done. Qed.

Definition started := run_start sample_world start_host [].

Example started_targets :
  match started with
  | (Ok plan, t') => (target_key ∘ fst <$> plan, (fun p => ps_BatchSize p.2) <$> plan, wa_Address <$> t')
  | _ => ([], [], [])
  end = (["base-sepolia"; "btc-testnet"], [100; 6], ["tb1qexample"]).
Proof. vm_compute. reflexivity. Qed.

Definition start_plan : list (runtimeTarget * PipelineSettings) :=
  match started.1 with Ok plan => plan | Err _ => [] end.

Lemma start_eq : run_start sample_world start_host [] = (Ok start_plan, started.2).
Proof. vm_compute. reflexivity. Qed.

Lemma start_loads : Load start_host = Ok (loaded start_host).
Proof. vm_compute. reflexivity. Qed.

Lemma startup_ready_witness :
  exists cfg, Load start_host = Ok cfg /\ NoDup (target_key ∘ fst <$> start_plan) /\ start_plan <> [].
Proof.
  destruct (startup_ready sample_world start_host [] start_plan started.2 start_typed start_eq)
    as (cfg & Hl & Hne & Hnd & _).
  exists cfg. split; [exact Hl|]. split; [exact Hnd|exact Hne].
Defined.

Lemma start_found : all_found (buildRuntimeTargets (loaded start_host)) (cfg_Runtime (loaded start_host)).
Proof.
  exact (proj1 (missing_none (eligible (buildRuntimeTargets (loaded start_host)) (cfg_Runtime (loaded start_host)))
    (normalizeRuntimeTargetKeys (rt_ChainTargets (cfg_Runtime (loaded start_host))))) ltac:(vm_compute; reflexivity)).
Qed.

Lemma selection_decided_witness :
  validateRuntimeWiring (selection (buildRuntimeTargets (loaded start_host)) (cfg_Runtime (loaded start_host))) = Ok tt.
Proof.
  exact (proj2 (proj1 (selection_decided start_host (loaded start_host) start_typed start_loads) start_found)).
Defined.

(** A supported target whose network is not the configured one passes
    validation, and the start fails at the selection. *)
Example mainnet_not_configured :
  let env key := if str_eqb key "RUNTIME_CHAIN_TARGETS" then Some "btc-mainnet" else start_env key in
  let h := {| h_env := env; h_read := fun _ => FileMissing; h_yaml := fun _ _ => None |} in
  is_ok (Load h) = true /\
  (run_start sample_world h []).1 = Err (SelectFailed (TargetsMissing ["btc-mainnet"])).
Proof. vm_compute. done. Qed.
