(* ===== verification/Reconciliation.v ===== *)
(** * Reconciliation (src/internal/reconciliation/service.go,
    src/internal/store/postgres/reconciliation_repo.go)

    The comparison of stored balances with the chain.  The tables and the
    chain may change while a run queries them, so every answer depends on the
    number of the call; a snapshot carries the number of its query in place of
    the clock. *)

From S2P Require Import Prelude Domain Cache AddressIndex Alerter.
From Stdlib Require Import ZArith Lia Ascii String.
From stdpp Require Import base option list strings gmap.

Open Scope Z_scope.

(** A row of [balances] as the service reads it. *)
Record Balance := { b_TokenID : uuid; b_Amount : string }.

Record SnapshotResult := {
  sr_Chain : string;
  sr_Network : string;
  sr_Address : string;
  sr_TokenContract : string;
  sr_OnChainBalance : string;
  sr_DBBalance : string;
  sr_Difference : string;
  sr_IsMatch : bool;
  sr_CheckedAt : nat
}.

Record RunResult := {
  rr_Chain : string;
  rr_Network : string;
  rr_Total : Z;
  rr_Matched : Z;
  rr_Mismatched : Z;
  rr_Errors : Z;
  rr_Snapshots : list SnapshotResult
}.

(** [chain.BalanceQueryAdapter]: [None] is an error. *)
Definition BalanceQueryAdapter : Type := nat -> string -> string -> option string.

(** What a run reads. *)
Record Sources := {
  s_GetActive : option (list WatchedAddress);
  s_GetByAddress : string -> option (list Balance);
  s_FindByID : nat -> uuid -> option (option Token)
}.

Record Service := {
  sv_adapters : gmap string BalanceQueryAdapter;
  sv_has_alerter : bool;
  sv_has_snapshotRepo : bool
}.

Definition adapter_key (ch : Chain) (net : Network) : string := (ch +:+ ":" +:+ net)%string.

Definition NewService (has_alerter : bool) : Service :=
  {| sv_adapters := ∅; sv_has_alerter := has_alerter; sv_has_snapshotRepo := false |}.

Definition SetSnapshotRepository (s : Service) : Service :=
  {| sv_adapters := sv_adapters s; sv_has_alerter := sv_has_alerter s; sv_has_snapshotRepo := true |}.

Definition RegisterAdapter (ch : Chain) (net : Network) (a : BalanceQueryAdapter) (s : Service) : Service :=
  {| sv_adapters := <[adapter_key ch net := a]> (sv_adapters s); sv_has_alerter := sv_has_alerter s;
     sv_has_snapshotRepo := sv_has_snapshotRepo s |}.

Definition HasAdapter (ch : Chain) (net : Network) (s : Service) : bool :=
  bool_decide (is_Some (sv_adapters s !! adapter_key ch net)).

(** ** One comparison *)

Definition snapshot (ch net address contract onChain db diff : string) (matches : bool) (n : nat) : SnapshotResult :=
  {| sr_Chain := ch; sr_Network := net; sr_Address := address; sr_TokenContract := contract;
     sr_OnChainBalance := onChain; sr_DBBalance := db; sr_Difference := diff; sr_IsMatch := matches;
     sr_CheckedAt := n |}.

Definition reconcileOne (a : BalanceQueryAdapter) (n : nat) (ch : Chain) (net : Network)
    (address tokenContract dbAmount : string) : SnapshotResult :=
  match a n address tokenContract with
  | None => snapshot ch net address tokenContract "ERROR" dbAmount "N/A" false n
  | Some onChain =>
      match parse_decimal onChain, parse_decimal dbAmount with
      | Some x, Some y =>
          snapshot ch net address tokenContract onChain dbAmount (show_Z (x - y)) (x - y =? 0) n
      | _, _ => snapshot ch net address tokenContract onChain dbAmount "PARSE_ERROR" (str_eqb onChain dbAmount) n
      end
  end.

(** A token that the table lacks is an error like a failed query. *)
Definition findTokenContract (src : Sources) (n : nat) (id : uuid) : option string :=
  match s_FindByID src n id with
  | Some (Some token) => Some (tk_ContractAddress token)
  | _ => None
  end.

(** ** A run

    The numbers of the next token and balance queries, the cache of token
    contracts, and the result so far. *)
Record run_state := {
  rs_finds : nat;
  rs_checks : nat;
  rs_cache : gmap uuid string;
  rs_result : RunResult
}.

Definition add_snapshot (snap : SnapshotResult) (r : RunResult) : RunResult :=
  {| rr_Chain := rr_Chain r; rr_Network := rr_Network r; rr_Total := rr_Total r + 1;
     rr_Matched := if sr_IsMatch snap then rr_Matched r + 1 else rr_Matched r;
     rr_Mismatched := if sr_IsMatch snap then rr_Mismatched r else rr_Mismatched r + 1;
     rr_Errors := rr_Errors r; rr_Snapshots := rr_Snapshots r ++ [snap] |}.

Definition add_error (r : RunResult) : RunResult :=
  {| rr_Chain := rr_Chain r; rr_Network := rr_Network r; rr_Total := rr_Total r;
     rr_Matched := rr_Matched r; rr_Mismatched := rr_Mismatched r;
     rr_Errors := rr_Errors r + 1; rr_Snapshots := rr_Snapshots r |}.

(** The contract of a token: cached, looked up, or empty when that fails. *)
Definition token_contract (src : Sources) (id : uuid) (st : run_state) : string * nat * gmap uuid string :=
  match rs_cache st !! id with
  | Some cached => (cached, rs_finds st, rs_cache st)
  | None =>
      match findTokenContract src (rs_finds st) id with
      | Some contract => (contract, S (rs_finds st), <[id := contract]> (rs_cache st))
      | None => (EmptyString, S (rs_finds st), rs_cache st)
      end
  end.

Definition check_balance (src : Sources) (a : BalanceQueryAdapter) (ch : Chain) (net : Network) (address : string)
    (st : run_state) (bal : Balance) : run_state :=
  let '(contract, finds, cache) := token_contract src (b_TokenID bal) st in
  let snap := reconcileOne a (rs_checks st) ch net address contract (b_Amount bal) in
  {| rs_finds := finds; rs_checks := S (rs_checks st); rs_cache := cache;
     rs_result := add_snapshot snap (rs_result st) |}.

Definition check_address (src : Sources) (a : BalanceQueryAdapter) (ch : Chain) (net : Network)
    (st : run_state) (wa : WatchedAddress) : run_state :=
  match s_GetByAddress src (wa_Address wa) with
  | None => {| rs_finds := rs_finds st; rs_checks := rs_checks st; rs_cache := rs_cache st;
               rs_result := add_error (rs_result st) |}
  | Some [] =>
      let snap := reconcileOne a (rs_checks st) ch net (wa_Address wa) EmptyString "0" in
      {| rs_finds := rs_finds st; rs_checks := S (rs_checks st); rs_cache := rs_cache st;
         rs_result := add_snapshot snap (rs_result st) |}
  | Some balances => foldl (check_balance src a ch net (wa_Address wa)) st balances
  end.

Definition empty_result (ch : Chain) (net : Network) : RunResult :=
  {| rr_Chain := ch; rr_Network := net; rr_Total := 0; rr_Matched := 0; rr_Mismatched := 0; rr_Errors := 0;
     rr_Snapshots := [] |}.

Definition start_run (ch : Chain) (net : Network) : run_state :=
  {| rs_finds := 0; rs_checks := 0; rs_cache := ∅; rs_result := empty_result ch net |}.

Definition mismatch_alert (ch : Chain) (net : Network) (r : RunResult) : Alert :=
  {| al_Type := AlertTypeReconcileErr; al_Chain := ch; al_Network := net;
     al_Title := "Balance reconciliation mismatch detected";
     al_Message := (show_Z (rr_Mismatched r) +:+ "/" +:+ show_Z (rr_Total r) +:+ " addresses have balance mismatch")%string;
     al_Fields := list_to_map [("matched", show_Z (rr_Matched r)); ("mismatched", show_Z (rr_Mismatched r));
                               ("errors", show_Z (rr_Errors r))] |}.

Inductive reconcile_error := NoAdapter (key : string) | WatchedFailed.

(** The result, the alert sent and the snapshots handed to the repository. *)
Definition Reconcile (s : Service) (src : Sources) (ch : Chain) (net : Network)
    : result reconcile_error (RunResult * option Alert * option (list SnapshotResult)) :=
  match sv_adapters s !! adapter_key ch net with
  | None => Err (NoAdapter (adapter_key ch net))
  | Some a =>
      match s_GetActive src with
      | None => Err WatchedFailed
      | Some addresses =>
          let r := rs_result (foldl (check_address src a ch net) (start_run ch net) addresses) in
          Ok (r,
              (if (0 <? rr_Mismatched r) && sv_has_alerter s then Some (mismatch_alert ch net r) else None),
              (if sv_has_snapshotRepo s && negb (length (rr_Snapshots r) =? 0)%nat
               then Some (rr_Snapshots r) else None))
      end
  end.

(** ** The snapshot repository

    A batch is one INSERT of up to 1000 rows; [insert] is the table's answer.
    The transaction commits only when every batch was inserted. *)
Definition snapshot_batch : nat := 1000.

Fixpoint chunks (fuel n : nat) {A} (l : list A) : list (list A) :=
  match fuel, l with
  | O, _ | _, [] => []
  | S fuel', _ => take n l :: chunks fuel' n (drop n l)
  end.

Definition SaveSnapshots (insert : nat -> list SnapshotResult -> bool) (l : list SnapshotResult)
    : option (list SnapshotResult) :=
  let batches := chunks (length l) snapshot_batch l in
  if forallb (fun ib => insert ib.1 ib.2) (imap (fun i b => (i, b)) batches)
  then Some (concat batches) else None.

(** The table after the run: all snapshots, or none. *)
Definition persist (begins commits : bool) (insert : nat -> list SnapshotResult -> bool)
    (l : list SnapshotResult) (table : list SnapshotResult) : list SnapshotResult :=
  if begins then
    match SaveSnapshots insert l with
    | Some rows => if commits then table ++ rows else table
    | None => table
    end
  else table.

(** ** The periodic run *)

Definition splitAdapterKey (key : string) : option (string * string) := cut_on ":" key.

(** One tick over the keys in the order of the map iteration. *)
Definition periodic_tick (s : Service) (src : string -> Sources) (keys : list string)
    : list (result reconcile_error (RunResult * option Alert * option (list SnapshotResult))) :=
  omap (fun key => (fun cn => Reconcile s (src key) cn.1 cn.2) <$> splitAdapterKey key) keys.
