(* ===== verification/ReconciliationProofs.v ===== *)
(** * Correctness of the reconciliation

    A run compares every stored balance of every watched address once, in
    order, with the answer of the chain to its own query, counts what it
    compared, alerts exactly when something differs, and stores all of its
    snapshots or none. *)

From S2P Require Import Prelude Domain Cache AddressIndex Alerter Reconciliation.
From Stdlib Require Import ZArith Lia Ascii String.
From stdpp Require Import base option list strings gmap.

Open Scope Z_scope.

(** ** What is to be compared *)

(** An address, the token of the stored balance if there is one, the amount. *)
Record db_entry := { en_address : string; en_token : option uuid; en_amount : string }.

Definition entries_of (src : Sources) (wa : WatchedAddress) : list db_entry :=
  match s_GetByAddress src (wa_Address wa) with
  | None => []
  | Some [] => [{| en_address := wa_Address wa; en_token := None; en_amount := "0" |}]
  | Some balances =>
      (fun b => {| en_address := wa_Address wa; en_token := Some (b_TokenID b); en_amount := b_Amount b |}) <$> balances
  end.

Definition entries (src : Sources) (addresses : list WatchedAddress) : list db_entry :=
  addresses ≫= entries_of src.

Definition failed_lookups (src : Sources) (addresses : list WatchedAddress) : list WatchedAddress :=
  filter (fun wa => s_GetByAddress src (wa_Address wa) = None) addresses.

(** The contract a comparison uses: that of the row some lookup of the token found, or none
    when a lookup of it failed or found no row. *)
Definition contract_of (src : Sources) (token : option uuid) (contract : string) : Prop :=
  match token with
  | None => contract = EmptyString
  | Some id => exists n,
      (exists row, s_FindByID src n id = Some (Some row) /\ contract = tk_ContractAddress row) \/
      ((s_FindByID src n id = None \/ s_FindByID src n id = Some None) /\ contract = EmptyString)
  end.

(** What the answer of the chain and the stored amount give: the balance that is shown, the
    difference, and whether they match.  Amounts are compared as decimal integers, and as
    texts when one of them is none; a failed query never matches. *)
Inductive verdict : option string -> string -> string -> string -> bool -> Prop :=
| verdict_failed db : verdict None db "ERROR" "N/A" false
| verdict_amounts onChain db x y : parse_decimal onChain = Some x -> parse_decimal db = Some y ->
    verdict (Some onChain) db onChain (show_Z (x - y)) (bool_decide (x = y))
| verdict_texts onChain db : parse_decimal onChain = None \/ parse_decimal db = None ->
    verdict (Some onChain) db onChain "PARSE_ERROR" (bool_decide (onChain = db)).

(** A snapshot is the comparison of its entry by its own query. *)
Record compared (src : Sources) (a : BalanceQueryAdapter) (ch : Chain) (net : Network) (n : nat)
    (e : db_entry) (snap : SnapshotResult) : Prop := {
  cm_chain : sr_Chain snap = ch;
  cm_network : sr_Network snap = net;
  cm_address : sr_Address snap = en_address e;
  cm_contract : contract_of src (en_token e) (sr_TokenContract snap);
  cm_stored : sr_DBBalance snap = en_amount e;
  cm_query : sr_CheckedAt snap = n;
  cm_verdict : verdict (a n (en_address e) (sr_TokenContract snap)) (en_amount e)
                 (sr_OnChainBalance snap) (sr_Difference snap) (sr_IsMatch snap)
}.

Lemma same_text s t : str_eqb s t = bool_decide (s = t).
Proof. unfold str_eqb. destruct (String.eqb_spec s t); [by rewrite bool_decide_eq_true_2|by rewrite bool_decide_eq_false_2]. Qed.

Lemma reconcileOne_compared src a n ch net e contract : contract_of src (en_token e) contract ->
  compared src a ch net n e (reconcileOne a n ch net (en_address e) contract (en_amount e)).
Proof.
  intros Hc. unfold reconcileOne. destruct (a n (en_address e) contract) as [onChain|] eqn:Ea.
  - destruct (parse_decimal onChain) as [x|] eqn:Ex; [destruct (parse_decimal (en_amount e)) as [y|] eqn:Ey|];
      split; try done; cbn [snapshot sr_TokenContract sr_OnChainBalance sr_Difference sr_IsMatch]; rewrite Ea.
    + replace (x - y =? 0) with (bool_decide (x = y)); [by constructor|].
      destruct (Z.eqb_spec (x - y) 0); [by rewrite bool_decide_eq_true_2 by lia|by rewrite bool_decide_eq_false_2 by lia].
    + rewrite same_text. constructor. by right.
    + rewrite same_text. constructor. by left.
  - split; try done. cbn [snapshot sr_TokenContract sr_OnChainBalance sr_Difference sr_IsMatch]. rewrite Ea. constructor.
Qed.

(** Both answers of [findTokenContract] are contracts of the token. *)
Lemma found_contract src n id contract : findTokenContract src n id = Some contract -> contract_of src (Some id) contract.
Proof.
  unfold findTokenContract. intros H. exists n. left. destruct (s_FindByID src n id) as [[row|]|]; [|done|done].
  injection H as <-. by exists row.
Qed.

Lemma missing_contract src n id : findTokenContract src n id = None -> contract_of src (Some id) EmptyString.
Proof.
  unfold findTokenContract. intros H. exists n. right. split; [|done].
  destruct (s_FindByID src n id) as [[row|]|]; [done|by right|by left].
Qed.

Definition count_matches (l : list SnapshotResult) : Z := Z.of_nat (length (filter (fun s => sr_IsMatch s = true) l)).

(** ** The invariant of a run *)

Record accounts (src : Sources) (a : BalanceQueryAdapter) (ch : Chain) (net : Network)
    (done : list db_entry) (errors : nat) (st : run_state) : Prop := {
  ac_checks : rs_checks st = length done;
  ac_length : length (rr_Snapshots (rs_result st)) = length done;
  ac_compared : forall i e snap, done !! i = Some e -> rr_Snapshots (rs_result st) !! i = Some snap ->
                  compared src a ch net i e snap;
  ac_total : rr_Total (rs_result st) = Z.of_nat (length done);
  ac_matched : rr_Matched (rs_result st) = count_matches (rr_Snapshots (rs_result st));
  ac_mismatched : rr_Mismatched (rs_result st) = rr_Total (rs_result st) - rr_Matched (rs_result st);
  ac_errors : rr_Errors (rs_result st) = Z.of_nat errors;
  ac_cache : forall id contract, rs_cache st !! id = Some contract -> contract_of src (Some id) contract
}.

Lemma count_app l1 l2 : count_matches (l1 ++ l2) = count_matches l1 + count_matches l2.
Proof. unfold count_matches. rewrite filter_app, length_app. lia. Qed.

Lemma count_one s : count_matches [s] = if sr_IsMatch s then 1 else 0.
Proof. unfold count_matches. rewrite filter_cons. by destruct (sr_IsMatch s). Qed.

Lemma accounts_snapshot src a ch net done errors st e contract finds cache :
  accounts src a ch net done errors st ->
  contract_of src (en_token e) contract ->
  (forall id c, cache !! id = Some c -> contract_of src (Some id) c) ->
  accounts src a ch net (done ++ [e]) errors
    {| rs_finds := finds; rs_checks := S (rs_checks st); rs_cache := cache;
       rs_result := add_snapshot (reconcileOne a (rs_checks st) ch net (en_address e) contract (en_amount e)) (rs_result st) |}.
Proof.
  intros [Hc Hl Hcmp Ht Hm Hmm He Hca] Hco Hcache.
  set (snap := reconcileOne _ _ _ _ _ _ _).
  constructor; simpl; rewrite ?length_app; simpl; try lia; try done.
  - intros i e' snap' Hi Hs. destruct (decide (i = length done)) as [-> |Hne].
    + rewrite lookup_app_r, Nat.sub_diag in Hi by lia. injection Hi as <-.
      rewrite <- Hl, lookup_app_r, Nat.sub_diag in Hs by lia. injection Hs as <-.
      unfold snap. rewrite Hc. by apply reconcileOne_compared.
    + assert (Hlt : (i < length done)%nat).
      { apply lookup_lt_Some in Hi. rewrite length_app in Hi. simpl in Hi. lia. }
      rewrite lookup_app_l in Hi by done. rewrite lookup_app_l in Hs by lia. eauto.
  - rewrite count_app, count_one, Hm. destruct (sr_IsMatch snap); lia.
  - destruct (sr_IsMatch snap); lia.
Qed.

Lemma check_balance_accounts src a ch net address done errors st bal :
  accounts src a ch net done errors st ->
  accounts src a ch net
    (done ++ [{| en_address := address; en_token := Some (b_TokenID bal); en_amount := b_Amount bal |}]) errors
    (check_balance src a ch net address st bal).
Proof.
  intros Hac. unfold check_balance, token_contract.
  destruct (rs_cache st !! b_TokenID bal) as [cached|] eqn:Ec.
  - apply (accounts_snapshot src a ch net done errors st
      {| en_address := address; en_token := Some (b_TokenID bal); en_amount := b_Amount bal |}); [done| |apply Hac].
    by apply (ac_cache _ _ _ _ _ _ _ Hac).
  - destruct (findTokenContract src (rs_finds st) (b_TokenID bal)) as [contract|] eqn:Ef.
    + apply (accounts_snapshot src a ch net done errors st
        {| en_address := address; en_token := Some (b_TokenID bal); en_amount := b_Amount bal |}); [done| |].
      * by eapply found_contract.
      * intros id c. rewrite lookup_insert. case_decide; [|apply Hac]. intros [= <-]. subst. by eapply found_contract.
    + apply (accounts_snapshot src a ch net done errors st
        {| en_address := address; en_token := Some (b_TokenID bal); en_amount := b_Amount bal |}); [done| |apply Hac].
      by eapply missing_contract.
Qed.

Lemma check_balances_accounts src a ch net address balances done errors st :
  accounts src a ch net done errors st ->
  accounts src a ch net
    (done ++ ((fun b => {| en_address := address; en_token := Some (b_TokenID b); en_amount := b_Amount b |}) <$> balances))
    errors (foldl (check_balance src a ch net address) st balances).
Proof.
  revert done st; induction balances as [|b balances IH]; intros done st Hac; simpl; [by rewrite app_nil_r|].
  rewrite cons_middle, app_assoc. apply IH. by apply check_balance_accounts.
Qed.

Lemma check_address_accounts src a ch net wa done errors st :
  accounts src a ch net done errors st ->
  accounts src a ch net (done ++ entries_of src wa)
    (errors + length (failed_lookups src [wa])) (check_address src a ch net st wa).
Proof.
  intros Hac. unfold check_address, entries_of, failed_lookups.
  destruct (s_GetByAddress src (wa_Address wa)) as [[|b bs]|] eqn:E.
  - rewrite filter_cons_False by (by rewrite E). rewrite Nat.add_0_r.
    apply (accounts_snapshot src a ch net done errors st
      {| en_address := wa_Address wa; en_token := None; en_amount := "0" |}); [done|done|apply Hac].
  - rewrite filter_cons_False by (by rewrite E). rewrite Nat.add_0_r. by apply check_balances_accounts.
  - rewrite filter_cons_True by done. rewrite app_nil_r. simpl.
    destruct Hac as [Hc Hl Hcmp Ht Hm Hmm He Hca]. constructor; simpl; try done; lia.
Qed.

Lemma check_addresses_accounts src a ch net addresses done errors st :
  accounts src a ch net done errors st ->
  accounts src a ch net (done ++ entries src addresses) (errors + length (failed_lookups src addresses))
    (foldl (check_address src a ch net) st addresses).
Proof.
  revert done errors st; induction addresses as [|wa addresses IH]; intros done errors st Hac.
  - unfold entries, failed_lookups. simpl. by rewrite app_nil_r, Nat.add_0_r.
  - apply (check_address_accounts src a ch net wa) in Hac. apply IH in Hac.
    replace (entries src (wa :: addresses)) with (entries_of src wa ++ entries src addresses) by done.
    replace (length (failed_lookups src (wa :: addresses))) with
      (length (failed_lookups src [wa]) + length (failed_lookups src addresses))%nat.
    + by rewrite app_assoc, Nat.add_assoc.
    + unfold failed_lookups. rewrite (filter_cons _ wa addresses), (filter_cons _ wa []). by case_decide.
Qed.

Lemma start_accounts src a ch net : accounts src a ch net [] 0 (start_run ch net).
Proof. constructor; try done. Qed.

Lemma mismatches_exist l :
  0 < Z.of_nat (length l) - count_matches l <-> exists snap, snap ∈ l /\ sr_IsMatch snap = false.
Proof.
  induction l as [|x l IH].
  - unfold count_matches. simpl. split; [lia|]. intros (? & Hx & _). by apply not_elem_of_nil in Hx.
  - change (x :: l) with ([x] ++ l) at 2. rewrite count_app, count_one. simpl. assert (count_matches l <= Z.of_nat (length l)).
    { unfold count_matches. pose proof (length_filter (fun s => sr_IsMatch s = true) l). lia. }
    destruct (sr_IsMatch x) eqn:E; simpl.
    + replace (Z.of_nat (S (length l)) - (1 + count_matches l)) with (Z.of_nat (length l) - count_matches l) by lia.
      rewrite IH. split; [intros (y & Hy & ?); exists y; set_solver|].
      intros (y & [-> |Hy]%elem_of_cons & Hf); [congruence|eauto].
    + split; [intros _; exists x; set_solver|]. intros _. lia.
Qed.

(** C27: a run compares the entries of the watched addresses one to one and in order, each
    by its own query and with the contract a lookup of its token found (or none when the
    lookup failed).  A comparison of two decimal integers gives their difference and matches
    exactly when they are equal; other texts match when they are the same; a failed query is
    recorded as an error and no match.  The counts are those of the snapshots, the errors the
    addresses whose balances could not be read; an alert for the chain is sent exactly when
    an alerter is set and a comparison does not match, and all snapshots go to the repository
    if there is one. *)
Theorem reconcile_exact s src ch net a addresses r alert saved :
  sv_adapters s !! adapter_key ch net = Some a -> s_GetActive src = Some addresses ->
  Reconcile s src ch net = Ok (r, alert, saved) ->
  length (rr_Snapshots r) = length (entries src addresses) /\
  (forall i e snap, entries src addresses !! i = Some e -> rr_Snapshots r !! i = Some snap ->
     compared src a ch net i e snap) /\
  rr_Total r = Z.of_nat (length (rr_Snapshots r)) /\ rr_Matched r = count_matches (rr_Snapshots r) /\
  rr_Mismatched r = rr_Total r - rr_Matched r /\
  rr_Errors r = Z.of_nat (length (failed_lookups src addresses)) /\
  (is_Some alert <-> sv_has_alerter s = true /\ exists snap, snap ∈ rr_Snapshots r /\ sr_IsMatch snap = false) /\
  (forall al, alert = Some al -> al_Type al = AlertTypeReconcileErr /\ al_Chain al = ch /\ al_Network al = net) /\
  (forall rows, saved = Some rows <-> sv_has_snapshotRepo s = true /\ rows = rr_Snapshots r /\ rows <> []).
Proof.
  intros Ha Hg H. unfold Reconcile in H. rewrite Ha, Hg in H. injection H as Hr Hal Hsv.
  pose proof (check_addresses_accounts src a ch net addresses [] 0 _ (start_accounts src a ch net)) as Hac.
  rewrite Hr in *. simpl in Hac. destruct Hac as [Hc Hl Hcmp Ht Hm Hmm He _]. rewrite Hr in *.
  split; [done|]. split; [done|]. split; [by rewrite Ht, Hl|]. split; [done|]. split; [done|]. split; [done|].
  split.
  - assert (Hmis : 0 < rr_Mismatched r <-> exists snap, snap ∈ rr_Snapshots r /\ sr_IsMatch snap = false).
    { rewrite Hmm, Hm, Ht, <- Hl. apply mismatches_exist. }
    rewrite <- Hmis, <- Hal, <- Z.ltb_lt. destruct (0 <? rr_Mismatched r), (sv_has_alerter s); simpl;
      split; try done; try (by intros [? ?]); by eexists.
  - split; [intros al ->; by destruct (_ && _); [injection Hal as <-|]|].
    intros rows. rewrite <- Hsv. destruct (sv_has_snapshotRepo s); simpl; [|by split; [|intros [? _]]].
    destruct (rr_Snapshots r) as [|x l]; simpl.
    + split; [done|]. intros (_ & -> & Hne). by destruct Hne.
    + split; [by intros [= <-]|]. by intros (_ & -> & _).
Qed.

(** ** A failed lookup of a token *)

(** Also: when the token of a stored balance cannot be looked up, its amount is
    compared with the native balance of the address: amounts that differ raise
    the mismatch alert, whatever the chain holds of the token itself. *)
Theorem lookup_failure_false_alarm s src ch net (a : BalanceQueryAdapter) wa bal native token :
  sv_adapters s !! adapter_key ch net = Some a -> s_GetActive src = Some [wa] ->
  s_GetByAddress src (wa_Address wa) = Some [bal] -> sv_has_alerter s = true ->
  findTokenContract src 0 (b_TokenID bal) = None ->
  b_Amount bal = show_Z token -> a 0%nat (wa_Address wa) EmptyString = Some (show_Z native) -> native <> token ->
  exists r alert saved, Reconcile s src ch net = Ok (r, Some alert, saved) /\
    al_Type alert = AlertTypeReconcileErr /\
    rr_Snapshots r = [snapshot ch net (wa_Address wa) EmptyString (show_Z native) (show_Z token)
                        (show_Z (native - token)) false 0].
Proof.
  intros Ha Hg Hb Hal Hf Ham Hn Hne. unfold Reconcile. rewrite Ha, Hg. cbn [foldl].
  unfold check_address. rewrite Hb. cbn [foldl]. unfold check_balance, token_contract, start_run.
  cbn [rs_cache rs_finds]. rewrite lookup_empty, Hf. unfold reconcileOne. cbn [rs_checks].
  rewrite Hn, Ham, !parse_show, (proj2 (Z.eqb_neq (native - token) 0)) by lia.
  cbn [rs_result]. rewrite Hal. simpl. by eexists _, _, _.
Qed.

(** ** The snapshots in the table *)

Lemma chunks_concat {A} fuel n (l : list A) : (0 < n)%nat -> (length l <= fuel)%nat -> concat (chunks fuel n l) = l.
Proof.
  intros Hn. revert l; induction fuel as [|fuel IH]; intros l Hl.
  - destruct l; simpl in *; [done|lia].
  - destruct l as [|x l]; [done|]. cbn [chunks concat]. rewrite IH, take_drop; [done|].
    rewrite length_drop. simpl in *. lia.
Qed.

Lemma chunks_size {A} fuel n (l : list A) b : (0 < n)%nat -> b ∈ chunks fuel n l -> (0 < length b <= n)%nat.
Proof.
  intros Hn. revert l; induction fuel as [|fuel IH]; intros l; [by intros ?%not_elem_of_nil|].
  destruct l as [|x l]; [by intros ?%not_elem_of_nil|].
  intros [-> |Hb]%elem_of_cons; [|eauto]. rewrite length_take. simpl. lia.
Qed.

(** Also: the snapshots of a run are inserted in batches of at most a thousand,
    in order, and the table afterwards holds all of them when the transaction
    begins, every batch is inserted and the commit succeeds, and is unchanged
    otherwise. *)
Theorem snapshots_all_or_none begins commits insert l table :
  let batches := chunks (length l) snapshot_batch l in
  concat batches = l /\ (forall b, b ∈ batches -> (0 < length b <= 1000)%nat) /\
  persist begins commits insert l table =
    if begins && commits && forallb (fun ib => insert ib.1 ib.2) (imap (fun i b => (i, b)) batches)
    then table ++ l else table.
Proof.
  intros batches.
  assert (Hc : concat batches = l) by (apply chunks_concat; [unfold snapshot_batch; lia|lia]).
  split; [done|]. split; [intros b; apply chunks_size; unfold snapshot_batch; lia|].
  unfold persist, SaveSnapshots. fold batches. rewrite Hc.
  by destruct begins, commits, (forallb _ _).
Qed.

(** ** The periodic run *)

Lemma split_adapter_key ch net : cut_on ":" ch = None -> splitAdapterKey (adapter_key ch net) = Some (ch, net).
Proof. intros H. by apply cut_on_app. Qed.

(** ** A run with a failing lookup, a matching and a native balance *)

Definition sample_wa (address : string) : WatchedAddress :=
  {| wa_Chain := ChainBase; wa_Network := NetworkSepolia; wa_Address := address; wa_WalletID := None;
     wa_OrganizationID := None; wa_Label := None; wa_IsActive := true; wa_Source := "env"; wa_BackfillFromBlock := None |}.

Definition sample_token (contract : string) : Token :=
  {| tk_Chain := ChainBase; tk_Network := NetworkSepolia; tk_ContractAddress := contract; tk_Symbol := "T"; tk_Name := "T";
     tk_Decimals := 6; tk_TokenType := TokenTypeFungible; tk_ChainData := None |}.

Definition sample_sources : Sources := {|
  s_GetActive := Some [sample_wa "0xa"; sample_wa "0xb"; sample_wa "0xc"];
  s_GetByAddress := fun address =>
    if str_eqb address "0xa" then Some [{| b_TokenID := 1%N; b_Amount := "50" |}; {| b_TokenID := 1%N; b_Amount := "51" |}]
    else if str_eqb address "0xb" then Some [] else None;
  s_FindByID := fun n id => match n with O => Some (Some (sample_token "0xt")) | _ => None end |}.

Definition sample_adapter : BalanceQueryAdapter := fun _ _ contract =>
  if str_eqb contract "0xt" then Some "50" else Some "0".

Definition sample_service : Service :=
  RegisterAdapter ChainBase NetworkSepolia sample_adapter (SetSnapshotRepository (NewService true)).

Definition sample_run : RunResult * option Alert * option (list SnapshotResult) :=
  match Reconcile sample_service sample_sources ChainBase NetworkSepolia with
  | Ok x => x
  | Err _ => (empty_result ChainBase NetworkSepolia, None, None)
  end.

Example sample_counts :
  let r := sample_run.1.1 in (rr_Total r, rr_Matched r, rr_Mismatched r, rr_Errors r) = (3, 2, 1, 1) /\
  is_Some sample_run.1.2 /\ (sr_Difference <$> rr_Snapshots r) = ["0"; "-1"; "0"].
Proof. split_and!; [reflexivity|by eexists|reflexivity]. Qed.

Lemma reconcile_exact_witness :
  length (rr_Snapshots sample_run.1.1) = length (entries sample_sources [sample_wa "0xa"; sample_wa "0xb"; sample_wa "0xc"]) /\
  ((fun s => (sr_TokenContract s, sr_OnChainBalance s, sr_DBBalance s, sr_Difference s, sr_IsMatch s)) <$>
     rr_Snapshots sample_run.1.1) =
  [("0xt", "50", "50", "0", true); ("0xt", "50", "51", "-1", false); ("", "0", "0", "0", true)]%string.
Proof.
  split; [|vm_compute; reflexivity].
  exact (proj1 (reconcile_exact sample_service sample_sources ChainBase NetworkSepolia sample_adapter
    [sample_wa "0xa"; sample_wa "0xb"; sample_wa "0xc"] sample_run.1.1 sample_run.1.2 sample_run.2
    ltac:(reflexivity) ltac:(reflexivity) ltac:(reflexivity))).
Defined.

Definition broken_sources : Sources := {|
  s_GetActive := Some [sample_wa "0xa"];
  s_GetByAddress := fun _ => Some [{| b_TokenID := 1%N; b_Amount := "50" |}];
  s_FindByID := fun _ _ => None |}.

Lemma lookup_failure_false_alarm_witness :
  sample_adapter 0%nat "0xa" "0xt" = Some "50" /\
  exists r alert saved, Reconcile sample_service broken_sources ChainBase NetworkSepolia = Ok (r, Some alert, saved) /\
    al_Type alert = AlertTypeReconcileErr /\
    rr_Snapshots r = [snapshot ChainBase NetworkSepolia "0xa" EmptyString (show_Z 0) (show_Z 50) (show_Z (0 - 50)) false 0].
Proof.
  split; [reflexivity|].
  exact (lookup_failure_false_alarm sample_service broken_sources ChainBase NetworkSepolia sample_adapter
    (sample_wa "0xa") {| b_TokenID := 1%N; b_Amount := "50" |} 0 50 eq_refl eq_refl eq_refl eq_refl eq_refl eq_refl eq_refl
    ltac:(discriminate)).
Defined.
