(* ===== verification/Net.v ===== *)
(** * IP addresses: what the source uses of package [net]

    [net.ParseIP] and [net.SplitHostPort] on strings, and [IPNet.Contains] on the parsed
    bytes.  An address is its 16 bytes, IPv4 addresses mapped to [::ffff:a.b.c.d]. *)

From Stdlib Require Import ZArith String Ascii Lia.
From stdpp Require Import base option strings gmap list.
From S2P Require Import Prelude Json.

Open Scope Z_scope.

Definition colon : ascii := chr 58.
Definition dot : ascii := chr 46.
Definition lbracket : ascii := chr 91.
Definition rbracket : ascii := chr 93.
Definition percent : ascii := chr 37.

Definition has_char (c : ascii) (s : string) : bool := negb (all_chars (fun d => negb (Ascii.eqb c d)) s).

(** ** [net.ParseIP] *)

(** A field of an IPv4 address: decimal, without leading zeros, at most 255. *)
Definition parse_octet (s : string) : option Z :=
  match s with
  | String c (String _ _) => if Ascii.eqb c (chr 48) then None else z ← parse_unsigned s; if z <=? 255 then Some z else None
  | _ => parse_unsigned s
  end.

Definition parse_ipv4 (s : string) : option (list Z) :=
  let fields := split_on dot s in
  if (length fields =? 4)%nat then mapM parse_octet fields else None.

(** The hexadecimal digits at the start of a string, with their number and value. *)
Fixpoint hex_group (s : string) (digits acc : Z) : Z * Z * string :=
  match s with
  | String c s' =>
      match hex_value c with
      | Some d => hex_group s' (digits + 1) (acc * 16 + d)
      | None => (digits, acc, s)
      end
  | EmptyString => (digits, acc, s)
  end.

(** The bytes of the groups, the position of the double colon, and what is left.  There are
    at most eight groups. *)
Fixpoint ipv6_groups (fuel : nat) (s : string) (ellipsis : option nat) (bytes : list Z)
    : option (list Z * option nat * string) :=
  match fuel with
  | O => Some (bytes, ellipsis, s)
  | S fuel =>
      let '(digits, acc, rest) := hex_group s 0 0 in
      if (digits =? 0) || (4 <? digits) then None
      else
        match rest with
        | String c rest' =>
            if Ascii.eqb c dot then
              if (match ellipsis with None => negb (length bytes =? 12)%nat | Some _ => (12 <? length bytes)%nat end)
              then None
              else v4 ← parse_ipv4 s; Some (bytes ++ v4, ellipsis, EmptyString)
            else
              let bytes := bytes ++ [acc / 256; acc mod 256] in
              if negb (Ascii.eqb c colon) then None
              else
                match rest' with
                | EmptyString => None
                | String c' rest'' =>
                    if Ascii.eqb c' colon then
                      match ellipsis with
                      | Some _ => None
                      | None =>
                          if str_empty rest'' then Some (bytes, Some (length bytes), EmptyString)
                          else ipv6_groups fuel rest'' (Some (length bytes)) bytes
                      end
                    else ipv6_groups fuel rest' ellipsis bytes
                end
        | EmptyString => Some (bytes ++ [acc / 256; acc mod 256], ellipsis, EmptyString)
        end
  end.

Definition parse_ipv6 (s : string) : option (list Z) :=
  let '(ellipsis, s') := if has_prefix s "::" then (Some 0%nat, drop_bytes 2 s) else (None, s) in
  if bool_decide (ellipsis <> None) && str_empty s' then Some (replicate 16 0)
  else
    '(bytes, ellipsis, rest) ← ipv6_groups 8 s' ellipsis [];
    if negb (str_empty rest) then None
    else
      match ellipsis with
      | None => if (length bytes =? 16)%nat then Some bytes else None
      | Some i =>
          if (length bytes <? 16)%nat
          then Some (take i bytes ++ replicate (16 - length bytes) 0 ++ drop i bytes)
          else None
      end.

Definition v4_mapped : list Z := replicate 10 0 ++ [255; 255].

(** The first of a dot and a colon decides the family; zones are refused. *)
Definition ParseIP (s : string) : option (list Z) :=
  if has_char percent s then None
  else if has_char colon s && (negb (has_char dot s) ||
            match cut_on colon s, cut_on dot s with
            | Some (a, _), Some (b, _) => (String.length a <? String.length b)%nat
            | _, _ => true
            end)
  then parse_ipv6 s
  else if has_char dot s then app v4_mapped <$> parse_ipv4 s
  else None.

(** ** [IPNet.Contains] *)

Definition To4 (ip : list Z) : option (list Z) :=
  if bool_decide (take 12 ip = v4_mapped) then Some (drop 12 ip) else None.

(** A network is the bytes of its address and the length of its mask. *)
Definition bits_of (bytes : list Z) : Z := foldl (fun acc b => acc * 256 + b) 0 bytes.

Definition Contains (n : list Z * Z) (ip : list Z) : bool :=
  let ip := default ip (To4 ip) in
  (length ip =? length n.1)%nat &&
  (let shift := 8 * Z.of_nat (length ip) - n.2 in Z.shiftr (bits_of ip) shift =? Z.shiftr (bits_of n.1) shift).

(** ** [net.SplitHostPort]: the host, when the address has one *)

(** A string cut at the last occurrence of a character. *)
Fixpoint cut_last (sep : ascii) (s : string) : option (string * string) :=
  match s with
  | EmptyString => None
  | String c s' =>
      match cut_last sep s' with
      | Some (a, b) => Some (String c a, b)
      | None => if Ascii.eqb c sep then Some (EmptyString, s') else None
      end
  end.

Definition split_host (hostport : string) : option string :=
  match cut_last colon hostport with
  | None => None
  | Some (front, port) =>
      match hostport with
      | String c inner =>
          if Ascii.eqb c lbracket then
            match cut_on rbracket inner with
            | None => None
            | Some (host, after) =>
                (* the bracket must be right before the last colon, and no further bracket may follow *)
                if str_eqb after (String colon port) && negb (has_char lbracket inner) && negb (has_char rbracket after)
                then Some host else None
            end
          else if has_char colon front || has_char lbracket hostport || has_char rbracket hostport then None
          else Some front
      | EmptyString => None
      end
  end.

(** ** The bytes of an address *)

Definition byte_range (bytes : list Z) : Prop := Forall (fun b => 0 <= b < 256) bytes.

Lemma parse_octet_range s v : parse_octet s = Some v -> 0 <= v < 256.
Proof.
  unfold parse_octet. destruct s as [|c [|c' s]]; [done| |].
  - simpl. unfold is_digit, digit_val. destruct (Z.leb_spec 48 (byte_of c)); [|done].
    destruct (Z.leb_spec (byte_of c) 57); [|done]. intros [= <-]. lia.
  - destruct (Ascii.eqb _ _); [done|]. intros (z & Hz & Hv)%bind_Some. apply parse_unsigned_nonneg in Hz.
    destruct (Z.leb_spec z 255); [|done]. injection Hv as <-. lia.
Qed.

Lemma parse_ipv4_range s v4 : parse_ipv4 s = Some v4 -> byte_range v4 /\ length v4 = 4%nat.
Proof.
  unfold parse_ipv4. destruct (Nat.eqb_spec (length (split_on dot s)) 4) as [Hl|]; [|done].
  intros H%mapM_Some. split; [|rewrite <- Hl; symmetry; by eapply Forall2_length].
  eapply Forall2_Forall_r; [exact H|]. apply Forall_true. intros f v. apply parse_octet_range.
Qed.

Lemma hex_value_range c v : hex_value c = Some v -> 0 <= v < 16.
Proof.
  unfold hex_value. destruct (Z.leb_spec 48 (byte_of c)), (Z.leb_spec (byte_of c) 57); simpl; [intros [= <-]; lia|..];
    destruct (Z.leb_spec 97 (byte_of c)), (Z.leb_spec (byte_of c) 102); simpl; try (intros [= <-]; lia);
    destruct (Z.leb_spec 65 (byte_of c)), (Z.leb_spec (byte_of c) 70); simpl; try done; intros [= <-]; lia.
Qed.

Lemma hex_group_range s : forall digits acc, 0 <= digits -> 0 <= acc < 16 ^ digits ->
  let '(digits', acc', _) := hex_group s digits acc in 0 <= digits' /\ 0 <= acc' < 16 ^ digits'.
Proof.
  induction s as [|c s IH]; intros digits acc Hd Ha; simpl; [done|].
  destruct (hex_value c) as [v|] eqn:Hv; [|done]. apply hex_value_range in Hv. apply IH; [lia|].
  rewrite Z.pow_add_r by lia. lia.
Qed.

Lemma pair_range acc : 0 <= acc < 65536 -> byte_range [acc / 256; acc mod 256].
Proof.
  intros Ha. pose proof (Z.div_mod acc 256 ltac:(lia)). pose proof (Z.mod_pos_bound acc 256 ltac:(lia)).
  repeat constructor; lia.
Qed.

Lemma ipv6_groups_range fuel : forall s ellipsis bytes out,
  byte_range bytes -> ipv6_groups fuel s ellipsis bytes = Some out -> byte_range out.1.1.
Proof.
  induction fuel as [|fuel IH]; intros s ellipsis bytes out Hb; cbn [ipv6_groups]; [by intros [= <-]|].
  pose proof (hex_group_range s 0 0 ltac:(lia) ltac:(simpl; lia)) as Hg.
  destruct (hex_group s 0 0) as [[digits acc] rest]. destruct Hg as [Hd Ha].
  destruct (Z.eqb_spec digits 0); [done|]. destruct (Z.ltb_spec 4 digits); [done|]. cbn [orb].
  assert (byte_range (bytes ++ [acc / 256; acc mod 256])) as Hb'.
  { apply Forall_app. split; [done|]. apply pair_range.
    pose proof (Z.pow_le_mono_r 16 digits 4 ltac:(lia) ltac:(lia)). lia. }
  destruct rest as [|c rest']; [by intros [= <-]|]. destruct (Ascii.eqb c dot).
  { destruct (match ellipsis with None => _ | Some _ => _ end); [done|].
    intros (v4 & [Hv _]%parse_ipv4_range & [= <-])%bind_Some. by apply Forall_app. }
  destruct (negb _); [done|]. destruct rest' as [|c' rest'']; [done|]. destruct (Ascii.eqb c' colon).
  - destruct ellipsis; [done|]. destruct (str_empty rest''); [by intros [= <-]|]. by apply IH.
  - by apply IH.
Qed.

(** A parsed address is 16 bytes. *)
Lemma ParseIP_range s ip : ParseIP s = Some ip -> byte_range ip /\ length ip = 16%nat.
Proof.
  unfold ParseIP. destruct (has_char percent s); [done|]. destruct (has_char colon s && _).
  - unfold parse_ipv6. destruct (if has_prefix s "::" then _ else _) as [ellipsis s'].
    destruct (_ && str_empty s'); [by intros [= <-]; split; [repeat constructor|]|].
    intros ([[bytes e] rest] & Hg & H)%bind_Some. apply ipv6_groups_range in Hg; [|constructor]. simpl in Hg, H.
    destruct (str_empty rest); [|done]. simpl in H. destruct e as [i|].
    + destruct (Nat.ltb_spec (length bytes) 16); [|done]. injection H as <-. split.
      * repeat (apply Forall_app; split); [by apply Forall_take|apply Forall_replicate; lia|by apply Forall_drop].
      * rewrite !length_app, length_replicate, length_take, length_drop. lia.
    + destruct (Nat.eqb_spec (length bytes) 16); [|done]. by injection H as <-.
  - destruct (has_char dot s); [|done]. intros (v4 & [Hv Hl]%parse_ipv4_range & ->)%fmap_Some.
    split; [apply Forall_app; split; [repeat constructor; lia|done]|]. rewrite length_app, Hl. done.
Qed.

(** ** Examples *)

Example ipv4 : ParseIP "10.1.2.3" = Some (v4_mapped ++ [10; 1; 2; 3]). Proof. reflexivity. Qed.
Example ipv4_zeros : ParseIP "10.01.2.3" = None. Proof. reflexivity. Qed.
Example ipv6 : ParseIP "fc00::1:2" = Some ([252; 0] ++ replicate 11 0 ++ [1; 0; 2]). Proof. reflexivity. Qed.
Example ipv6_v4 : ParseIP "::ffff:10.0.0.1" = ParseIP "10.0.0.1". Proof. reflexivity. Qed.
Example ipv6_zone : ParseIP "fe80::1%eth0" = None. Proof. reflexivity. Qed.
Example host_v6 : split_host "[::1]:8080" = Some "::1". Proof. reflexivity. Qed.
Example host_v4 : split_host "10.0.0.1:1234" = Some "10.0.0.1". Proof. reflexivity. Qed.
Example host_none : split_host "10.0.0.1" = None. Proof. reflexivity. Qed.
