(* ===== verification/AdminServer.v ===== *)
(** * Admin API: [internal/admin/server.go], [internal/admin/dashboard.go]

    A handler is a program over the calls it makes to repositories and services: it replies,
    or makes one call and goes on with the answer.  Programs are run against an oracle for
    the answers, or against tables ([AdminStack]).  Bodies of requests are the JSON value they
    start with ([None] when there is none within the first megabyte); bodies of responses are
    the values that are encoded.  Headers of responses, logging and the paths that
    [http.ServeMux] rewrites before it matches are left out. *)

From Stdlib Require Import ZArith String Ascii Lia.
From stdpp Require Import base option strings gmap list.
From S2P Require Import Prelude Retry Domain Cache Effects Replay Json JsonTree.

Open Scope Z_scope.

(** ** Requests *)

Record request := {
  hr_Method : string; hr_Path : string; hr_Query : string -> string; hr_Authorization : string; hr_Body : option json
}.

Definition allowedChains : list Chain :=
  [ChainSolana; ChainEthereum; ChainBase; ChainBTC; ChainPolygon; ChainArbitrum; ChainBSC].
Definition allowedNetworks : list Network :=
  [NetworkMainnet; NetworkDevnet; NetworkTestnet; NetworkSepolia; NetworkAmoy].
Definition validateChainNetwork (chain : Chain) (network : Network) : bool :=
  str_in chain allowedChains && str_in network allowedNetworks.

Definition AddressSourceAdmin : string := "admin".

(** [utf8.RuneCountInString] of a decoded JSON string, which is valid UTF-8: the bytes that do
    not continue a character. *)
Fixpoint RuneCountInString (s : string) : Z :=
  match s with
  | EmptyString => 0
  | String c s' => (if (128 <=? byte_of c) && (byte_of c <? 192) then 0 else 1) + RuneCountInString s'
  end.

Record addWatchedAddressRequest := { wr_Chain : string; wr_Network : string; wr_Address : string }.
Record replayRequest := {
  rr_Chain : string; rr_Network : string; rr_FromBlock : option Z; rr_DryRun : bool; rr_Force : bool;
  rr_ConfirmForce : bool; rr_Reason : string
}.
Record reconcileRequest := { cr_Chain : string; cr_Network : string }.
Record backfillRequest := {
  br_Chain : string; br_Network : string; br_Addresses : list string; br_FromBlock : option Z; br_Reason : string
}.
Record addressBookRequest := {
  ar_Chain : string; ar_Network : string; ar_Address : string; ar_Name : string; ar_Status : string; ar_OrgID : string
}.

Definition text (name : string) (members : list (string * json)) : option string := read_string (field name members).

Definition read_addWatchedAddressRequest : json -> option addWatchedAddressRequest := read_struct (fun ms =>
  chain ← text "chain" ms; network ← text "network" ms; address ← text "address" ms;
  Some {| wr_Chain := chain; wr_Network := network; wr_Address := address |}).

Definition read_replayRequest : json -> option replayRequest := read_struct (fun ms =>
  chain ← text "chain" ms; network ← text "network" ms; from ← read_int64_ptr (field "from_block" ms);
  dry ← read_bool (field "dry_run" ms); force ← read_bool (field "force" ms);
  confirm ← read_bool (field "confirm_force" ms); reason ← text "reason" ms;
  Some {| rr_Chain := chain; rr_Network := network; rr_FromBlock := from; rr_DryRun := dry; rr_Force := force;
          rr_ConfirmForce := confirm; rr_Reason := reason |}).

Definition read_reconcileRequest : json -> option reconcileRequest := read_struct (fun ms =>
  chain ← text "chain" ms; network ← text "network" ms; Some {| cr_Chain := chain; cr_Network := network |}).

Definition read_backfillRequest : json -> option backfillRequest := read_struct (fun ms =>
  chain ← text "chain" ms; network ← text "network" ms;
  addresses ← read_slice (fun j => read_string (Some j)) (field "addresses" ms);
  from ← read_int64_ptr (field "from_block" ms); reason ← text "reason" ms;
  Some {| br_Chain := chain; br_Network := network; br_Addresses := addresses; br_FromBlock := from; br_Reason := reason |}).

Definition read_addressBookRequest : json -> option addressBookRequest := read_struct (fun ms =>
  chain ← text "chain" ms; network ← text "network" ms; address ← text "address" ms; name ← text "name" ms;
  status ← text "status" ms; org ← text "org_id" ms;
  Some {| ar_Chain := chain; ar_Network := network; ar_Address := address; ar_Name := name; ar_Status := status;
          ar_OrgID := org |}).

Record AddressBookEntry := {
  ab_Chain : Chain; ab_Network : Network; ab_Address : string; ab_Name : string; ab_Status : string; ab_OrgID : string
}.

Record PipelineWatermark := {
  wm_Chain : Chain; wm_Network : Network; wm_IngestedSequence : Z; wm_LastHeartbeatAt : Z
}.

(** ** Calls and responses

    What the services return for the health, reconciliation and dashboard endpoints is passed
    on as it is: its types are parameters. *)

Section Server.
Context {Health Run Balance Event : Type}.

Inductive call :=
| CGetActive (chain : Chain) (network : Network)
| CUpsertAddress (addr : WatchedAddress)
| CSetBackfill (chain : Chain) (network : Network) (addresses : list string) (fromBlock : Z)
| CGetWatermark (chain : Chain) (network : Network)
| CHasPipeline (chain : Chain) (network : Network)
| CRequestReplay (req : PurgeRequest)
| CDryRunPurge (req : PurgeRequest)
| CReplayWatermark (chain : Chain) (network : Network)
| CHealthSnapshots
| CHasAdapter (chain : Chain) (network : Network)
| CReconcileAny (chain : Chain) (network : Network)
| CListBooks (chain : Chain) (network : Network)
| CUpsertBook (entry : AddressBookEntry)
| CDeleteBook (chain : Chain) (network : Network) (address : string)
| CGetAllWatermarks
| CCountWatchedAddresses
| CGetBalanceSummary (chain : Chain) (network : Network)
| CGetRecentEvents (chain : Chain) (network : Network) (address : string) (limit offset : Z).

Definition answer (c : call) : Type :=
  match c with
  | CGetActive _ _ => result go_error (list WatchedAddress)
  | CUpsertAddress _ | CSetBackfill _ _ _ _ | CUpsertBook _ | CDeleteBook _ _ _ => result go_error unit
  | CGetWatermark _ _ | CReplayWatermark _ _ => result go_error (option PipelineWatermark)
  | CHasPipeline _ _ | CHasAdapter _ _ => bool
  | CRequestReplay _ | CDryRunPurge _ => result go_error (option PurgeResult)
  | CHealthSnapshots => Health
  | CReconcileAny _ _ => result go_error Run
  | CListBooks _ _ => result go_error (list AddressBookEntry)
  | CGetAllWatermarks => result go_error (list PipelineWatermark)
  | CCountWatchedAddresses => result go_error Z
  | CGetBalanceSummary _ _ => result go_error (list Balance)
  | CGetRecentEvents _ _ _ _ _ => result go_error (list Event * Z)
  end.

Record watchedAddressResponse := {
  wp_Address : string; wp_Chain : string; wp_Network : string; wp_Active : bool; wp_WalletID : option string;
  wp_OrganizationID : option string
}.

Inductive body :=
| BEmpty
| BError (message : string)
| BForceWarning (fromBlock : Z)
| BSuccess
| BWatched (l : list watchedAddressResponse)
| BStatus (chain network : string) (watermark : Z)
| BPurge (result : option PurgeResult)
| BReplayStatus (chain network : string) (watermark : Z)
| BHealth (snapshots : Health)
| BReconcile (run : Run)
| BBackfill (fromBlock addresses : Z)
| BBooks (books : list AddressBookEntry)
| BOverview (pipelines : list PipelineWatermark) (addresses : Z)
| BBalances (balances : list Balance)
| BEvents (events : list Event) (total : Z)
| BFile (path : string).

Record response := { rs_Status : Z; rs_Body : body }.

Inductive program :=
| Reply (r : response)
| Act (c : call) (k : answer c -> program).

Definition reply (status : Z) (b : body) : program := Reply {| rs_Status := status; rs_Body := b |}.
Definition error (status : Z) (message : string) : program := reply status (BError message).
Definition internal_error : program := error 500 "internal server error".

(** A call that fails is answered with a fixed message. *)
Definition or_internal {A} (r : result go_error A) (k : A -> program) : program :=
  match r with Ok a => k a | Err _ => internal_error end.

(** ** The server *)

(** Which optional dependencies are set. *)
Record Server := {
  s_replayReq : bool; s_healthProvider : bool; s_reconcileReq : bool; s_addressBookRepo : bool; s_dashboardRepo : bool;
  s_authToken : string
}.

Definition requireChainNetworkQuery (r : request) (k : Chain -> Network -> program) : program :=
  let chain := hr_Query r "chain" in
  let network := hr_Query r "network" in
  if str_empty chain || str_empty network then error 400 "chain and network query params required"
  else if negb (validateChainNetwork chain network) then error 400 "invalid chain or network value"
  else k chain network.

Definition decodeJSONBody {A} (read : json -> option A) (r : request) (k : A -> program) : program :=
  match hr_Body r ≫= read with Some v => k v | None => error 400 "invalid JSON body" end.

Definition require_valid (chain network : string) (k : program) : program :=
  if validateChainNetwork chain network then k else error 400 "invalid chain or network value".

Definition require_dependency (set : bool) (message : string) (k : program) : program :=
  if set then k else error 503 message.

Definition handleListWatchedAddresses (r : request) : program :=
  requireChainNetworkQuery r (fun chain network =>
    Act (CGetActive chain network) (fun addresses => or_internal addresses (fun addresses =>
      reply 200 (BWatched ((fun a => {| wp_Address := wa_Address a; wp_Chain := wa_Chain a; wp_Network := wa_Network a;
        wp_Active := wa_IsActive a; wp_WalletID := wa_WalletID a; wp_OrganizationID := wa_OrganizationID a |}) <$> addresses))))).

Definition handleAddWatchedAddress (r : request) : program :=
  decodeJSONBody read_addWatchedAddressRequest r (fun req =>
    if str_empty (wr_Chain req) || str_empty (wr_Network req) || str_empty (wr_Address req)
    then error 400 "chain, network, and address are required"
    else require_valid (wr_Chain req) (wr_Network req)
      (let addr := {| wa_Chain := wr_Chain req; wa_Network := wr_Network req; wa_Address := wr_Address req;
                      wa_WalletID := None; wa_OrganizationID := None; wa_Label := None; wa_IsActive := true;
                      wa_Source := AddressSourceAdmin; wa_BackfillFromBlock := None |} in
       Act (CUpsertAddress addr) (fun done => or_internal done (fun _ => reply 201 BSuccess)))).

Definition handleGetStatus (r : request) : program :=
  requireChainNetworkQuery r (fun chain network =>
    Act (CGetWatermark chain network) (fun watermark => or_internal watermark (fun watermark =>
      reply 200 (BStatus chain network (default 0 (wm_IngestedSequence <$> watermark)))))).

Definition is_finalized_error (err : go_error) : bool :=
  existsb (fun e => match e with EMsg t => String.eqb t (error_text ErrFinalizedBlock) | _ => false end) (chain_of err).

Definition replay_response (result : result go_error (option PurgeResult)) : program :=
  match result with
  | Ok result => reply 200 (BPurge result)
  | Err err =>
      if is_finalized_error err then error 409 "target block is finalized; set force=true to override"
      else error 500 "replay operation failed"
  end.

Definition handleReplay (s : Server) (r : request) : program :=
  require_dependency (s_replayReq s) "replay not available" (
  decodeJSONBody read_replayRequest r (fun req =>
    match rr_FromBlock req with
    | None => error 400 "chain, network, and from_block are required"
    | Some fromBlock =>
        if str_empty (rr_Chain req) || str_empty (rr_Network req)
        then error 400 "chain, network, and from_block are required"
        else if fromBlock <? 0 then error 400 "from_block must be >= 0"
        else if 500 <? RuneCountInString (rr_Reason req) then error 400 "reason too long (max 500 chars)"
        else require_valid (rr_Chain req) (rr_Network req)
          (Act (CHasPipeline (rr_Chain req) (rr_Network req)) (fun present =>
            if negb present then error 404 "pipeline not found for chain/network"
            else if rr_Force req && negb (rr_DryRun req) && negb (rr_ConfirmForce req) then reply 400 (BForceWarning fromBlock)
            else
              let purgeReq := {| pr_Chain := rr_Chain req; pr_Network := rr_Network req; pr_FromBlock := fromBlock;
                                 pr_DryRun := rr_DryRun req; pr_Force := rr_Force req; pr_Reason := rr_Reason req |} in
              if rr_DryRun req then Act (CDryRunPurge purgeReq) replay_response
              else Act (CRequestReplay purgeReq) replay_response))
    end)).

Definition handleReplayStatus (s : Server) (r : request) : program :=
  require_dependency (s_replayReq s) "replay not available" (
  requireChainNetworkQuery r (fun chain network =>
    Act (CHasPipeline chain network) (fun present =>
      if negb present then error 404 "pipeline not found for chain/network"
      else Act (CReplayWatermark chain network) (fun watermark => or_internal watermark (fun watermark =>
        reply 200 (BReplayStatus chain network (default 0 (wm_IngestedSequence <$> watermark)))))))).

Definition handleHealth (s : Server) (r : request) : program :=
  require_dependency (s_healthProvider s) "health provider not available"
    (Act CHealthSnapshots (fun snapshots => reply 200 (BHealth snapshots))).

Definition handleReconcile (s : Server) (r : request) : program :=
  require_dependency (s_reconcileReq s) "reconciliation not available" (
  decodeJSONBody read_reconcileRequest r (fun req =>
    if str_empty (cr_Chain req) || str_empty (cr_Network req) then error 400 "chain and network are required"
    else require_valid (cr_Chain req) (cr_Network req)
      (Act (CHasAdapter (cr_Chain req) (cr_Network req)) (fun present =>
        if negb present then error 404 "reconciliation not supported for this chain/network"
        else Act (CReconcileAny (cr_Chain req) (cr_Network req)) (fun result =>
          match result with Ok run => reply 200 (BReconcile run) | Err _ => error 500 "reconciliation failed" end))))).

Definition handleBackfill (r : request) : program :=
  decodeJSONBody read_backfillRequest r (fun req =>
    match br_FromBlock req with
    | None => error 400 "chain, network, from_block, and addresses are required"
    | Some fromBlock =>
        if str_empty (br_Chain req) || str_empty (br_Network req) || (length (br_Addresses req) =? 0)%nat
        then error 400 "chain, network, from_block, and addresses are required"
        else if fromBlock <? 0 then error 400 "from_block must be >= 0"
        else if 1000 <? Z.of_nat (length (br_Addresses req)) then error 400 "max 1000 addresses per request"
        else require_valid (br_Chain req) (br_Network req)
          (Act (CSetBackfill (br_Chain req) (br_Network req) (br_Addresses req) fromBlock) (fun done =>
            or_internal done (fun _ => reply 200 (BBackfill fromBlock (Z.of_nat (length (br_Addresses req)))))))
    end).

Definition handleListAddressBooks (s : Server) (r : request) : program :=
  require_dependency (s_addressBookRepo s) "address book not available" (
  requireChainNetworkQuery r (fun chain network =>
    Act (CListBooks chain network) (fun books => or_internal books (fun books => reply 200 (BBooks books))))).

Definition handleAddAddressBook (s : Server) (r : request) : program :=
  require_dependency (s_addressBookRepo s) "address book not available" (
  decodeJSONBody read_addressBookRequest r (fun req =>
    if str_empty (ar_Chain req) || str_empty (ar_Network req) || str_empty (ar_Address req) || str_empty (ar_Name req)
    then error 400 "chain, network, address, and name are required"
    else if 255 <? RuneCountInString (ar_Name req) then error 400 "name too long (max 255 chars)"
    else if 255 <? RuneCountInString (ar_OrgID req) then error 400 "org_id too long (max 255 chars)"
    else require_valid (ar_Chain req) (ar_Network req)
      (Act (CUpsertBook {| ab_Chain := ar_Chain req; ab_Network := ar_Network req; ab_Address := ar_Address req;
                           ab_Name := ar_Name req; ab_Status := ar_Status req; ab_OrgID := ar_OrgID req |})
        (fun done => or_internal done (fun _ => reply 201 BSuccess))))).

Definition handleDeleteAddressBook (s : Server) (r : request) : program :=
  require_dependency (s_addressBookRepo s) "address book not available" (
  requireChainNetworkQuery r (fun chain network =>
    let address := hr_Query r "address" in
    if str_empty address then error 400 "chain, network, and address query params required"
    else Act (CDeleteBook chain network address) (fun done => or_internal done (fun _ => reply 200 BSuccess)))).

(** ** The dashboard *)

Definition handleDashboardOverview (s : Server) (r : request) : program :=
  require_dependency (s_dashboardRepo s) "dashboard not available"
    (Act CGetAllWatermarks (fun watermarks => or_internal watermarks (fun watermarks =>
      Act CCountWatchedAddresses (fun total => or_internal total (fun total => reply 200 (BOverview watermarks total)))))).

Definition handleDashboardBalances (s : Server) (r : request) : program :=
  require_dependency (s_dashboardRepo s) "dashboard not available" (
  requireChainNetworkQuery r (fun chain network =>
    Act (CGetBalanceSummary chain network) (fun balances => or_internal balances (fun balances => reply 200 (BBalances balances))))).

(** [strconv.Atoi] of a parameter that may be missing or wrong. *)
Definition int_param (value : string) (accept : Z -> bool) (fallback : Z) : Z :=
  match parse_int64 value with Some n => if accept n then n else fallback | None => fallback end.

Definition handleDashboardEvents (s : Server) (r : request) : program :=
  require_dependency (s_dashboardRepo s) "dashboard not available" (
  requireChainNetworkQuery r (fun chain network =>
    let limit := int_param (hr_Query r "limit") (fun n => 0 <? n) 50 in
    let offset := int_param (hr_Query r "offset") (fun n => 0 <=? n) 0 in
    Act (CGetRecentEvents chain network (hr_Query r "address") limit offset) (fun events =>
      or_internal events (fun '(events, total) => reply 200 (BEvents events total))))).

(** ** Routes and middleware *)

Definition handler : Type := Server -> request -> program.

Definition routes : list (string * string * handler) :=
  [("GET", "/admin/v1/watched-addresses", fun _ => handleListWatchedAddresses);
   ("POST", "/admin/v1/watched-addresses", fun _ => handleAddWatchedAddress);
   ("GET", "/admin/v1/status", fun _ => handleGetStatus);
   ("POST", "/admin/v1/replay", handleReplay);
   ("GET", "/admin/v1/replay/status", handleReplayStatus);
   ("GET", "/admin/v1/health", handleHealth);
   ("POST", "/admin/v1/reconcile", handleReconcile);
   ("GET", "/admin/v1/address-books", handleListAddressBooks);
   ("POST", "/admin/v1/address-books", handleAddAddressBook);
   ("DELETE", "/admin/v1/address-books", handleDeleteAddressBook);
   ("POST", "/admin/v1/backfill", fun _ => handleBackfill);
   ("GET", "/admin/v1/dashboard/overview", handleDashboardOverview);
   ("GET", "/admin/v1/dashboard/balances", handleDashboardBalances);
   ("GET", "/admin/v1/dashboard/events", handleDashboardEvents)].

(** A pattern for GET also serves HEAD. *)
Definition method_matches (pattern method : string) : bool :=
  str_eqb pattern method || (str_eqb pattern "GET" && str_eqb method "HEAD").

Definition adminMux : handler := fun s r =>
  match List.find (fun '(method, path, _) => str_eqb path (hr_Path r) && method_matches method (hr_Method r)) routes with
  | Some (_, _, h) => h s r
  | None =>
      if existsb (fun '(_, path, _) => str_eqb path (hr_Path r)) routes then error 405 "Method Not Allowed"
      else error 404 "404 page not found"
  end.

Definition authMiddleware (next : handler) : handler := fun s r =>
  if str_empty (s_authToken s) then next s r
  else if str_empty (hr_Authorization r) || negb (str_eqb (hr_Authorization r) ("Bearer " +:+ s_authToken s))
  then error 401 "Unauthorized"
  else next s r.

Definition static_files : handler := fun _ r => reply 200 (BFile (trim_prefix (hr_Path r) "/dashboard/")).
Definition handleDashboardIndex : handler := fun _ _ => reply 200 (BFile "index.html").

(** The file server answers for the files it has; [BFile] stands for whatever it answers. *)
Definition Handler : handler := fun s r =>
  if has_prefix (hr_Path r) "/admin/v1/" then authMiddleware adminMux s r
  else if str_eqb (hr_Path r) "/admin/v1" then reply 301 BEmpty
  else if has_prefix (hr_Path r) "/dashboard/" then authMiddleware static_files s r
  else if str_eqb (hr_Path r) "/dashboard" then authMiddleware handleDashboardIndex s r
  else error 404 "404 page not found".

End Server.
Arguments call : clear implicits.
Arguments body : clear implicits.
Arguments response : clear implicits.
Arguments program : clear implicits.
Arguments handler : clear implicits.
