(* ===== verification/AdminRateLimit.v ===== *)
(** * Rate limit of the admin API: [internal/admin/ratelimit.go]

    One limiter per endpoint rule and client address, created at the first request and
    removed by a sweep when it was idle for ten minutes.  The limiter itself is
    golang.org/x/time/rate, here the class [RateLimiter] with the one law the sweep relies
    on: a limiter that was idle long enough answers like a new one. *)

From Stdlib Require Import ZArith QArith String Ascii Lia.
From stdpp Require Import base option strings gmap list.
From S2P Require Import Prelude Net.

Open Scope Z_scope.

(** ** Rules *)

Definition staleLimiterTTL : Z := 600 * 10 ^ 9.

(** Requests per second, as the exact quotient of the source. *)
Record endpointLimit := { el_rps : Q; el_burst : Z }.
Record endpointRule := { er_method : string; er_prefix : string; er_limit : endpointLimit }.

Definition rule (method prefix : string) (rps : Q) (burst : Z) : endpointRule :=
  {| er_method := method; er_prefix := prefix; er_limit := {| el_rps := rps; el_burst := burst |} |}.

Definition rules : list endpointRule :=
  [rule "POST" "/admin/v1/replay" (1 # 300) 1; rule "POST" "/admin/v1/reconcile" (1 # 300) 1;
   rule "POST" "/admin/v1/watched-addresses" (10 # 60) 3; rule "DELETE" "/admin/v1/address-books" (10 # 60) 3;
   rule "" "" 1 5].

Definition rule_key (r : endpointRule) : string := er_method r +:+ ":" +:+ er_prefix r.

Definition rule_matches (method path : string) (r : endpointRule) : bool :=
  (str_empty (er_method r) || equal_fold (er_method r) method) &&
  (str_empty (er_prefix r) || has_prefix path (er_prefix r)).

Definition resolveEndpointKey (method path : string) : string :=
  match List.find (rule_matches method path) rules with Some r => rule_key r | None => "default" end.

Definition resolveLimit (endpointKey : string) : endpointLimit :=
  match List.find (fun r => str_eqb (rule_key r) endpointKey) rules with
  | Some r => er_limit r
  | None => {| el_rps := 1; el_burst := 5 |}
  end.

(** ** The address of a client *)

(** The parts of a request the middleware reads; a header that is not set is empty. *)
Record request := { rq_Method : string; rq_Path : string; rq_RemoteAddr : string; rq_XForwardedFor : string; rq_XRealIP : string }.

Definition privateNetworks : list (list Z * Z) :=
  [([10; 0; 0; 0], 8); ([172; 16; 0; 0], 12); ([192; 168; 0; 0], 16); ([127; 0; 0; 0], 8);
   (replicate 15 0 ++ [1], 128); ([252] ++ replicate 15 0, 7)].

Definition isTrustedProxy (ip : string) : bool :=
  match ParseIP ip with
  | None => false
  | Some parsed => existsb (fun n => Contains n parsed) privateNetworks
  end.

Definition remote_host (r : request) : string := default (rq_RemoteAddr r) (split_host (rq_RemoteAddr r)).

Definition comma : ascii := Json.chr 44.

Definition extractClientIP (r : request) : string :=
  if isTrustedProxy (remote_host r) then
    if negb (str_empty (rq_XForwardedFor r)) then
      match cut_on comma (rq_XForwardedFor r) with
      | Some (first, _) => trim_space first
      | None => trim_space (rq_XForwardedFor r)
      end
    else if negb (str_empty (rq_XRealIP r)) then trim_space (rq_XRealIP r)
    else remote_host r
  else remote_host r.

(** ** The middleware *)

(** [rate.Limiter]: construction, and [Allow] at a time in nanoseconds. *)
Class RateLimiter (L : Type) := { new_limiter : endpointLimit -> L; allow : L -> Z -> bool * L }.

Section Middleware.
Context {L : Type} {rate_limiter : RateLimiter L}.

Record limiterEntry := { le_limiter : L; le_lastSeen : Z }.
#[local] Abbreviation limiters := (gmap string limiterEntry).

(** [now.Sub(lastSeen) > staleLimiterTTL] removes an entry. *)
Definition evictStale (now : Z) (m : limiters) : limiters :=
  filter (fun kv => now - le_lastSeen kv.2 <= staleLimiterTTL) m.

Definition getOrCreateLimiter (now : Z) (key endpointKey : string) (m : limiters) : L * limiters :=
  let limiter :=
    match m !! key with
    | Some entry => le_limiter entry
    | None => new_limiter (resolveLimit endpointKey)
    end in
  (limiter, <[key := {| le_limiter := limiter; le_lastSeen := now |}]> m).

Definition endpoint_of (r : request) : string := resolveEndpointKey (rq_Method r) (rq_Path r).
Definition limiter_key (r : request) : string := endpoint_of r +:+ "|" +:+ extractClientIP r.

(** [now] is the clock of the middleware and [at_] the one [Allow] reads; [Allow] changes the
    limiter that the entry of the map points to, and nothing else of the entry.  The answer is whether the request goes on; one that does not
    gets status 429. *)
Definition Wrap (r : request) (now at_ : Z) (m : limiters) : bool * limiters :=
  let key := limiter_key r in
  let '(limiter, m) := getOrCreateLimiter now key (endpoint_of r) m in
  let '(ok, limiter) := allow limiter at_ in
  (ok, alter (fun entry => {| le_limiter := limiter; le_lastSeen := le_lastSeen entry |}) key m).

(** Requests and sweeps as they reach the middleware. *)
Inductive event :=
| Request (r : request) (now at_ : Z)
| Sweep (now : Z).

Fixpoint run (m : limiters) (l : list event) : list bool :=
  match l with
  | [] => []
  | Request r now at_ :: l' => let '(ok, m') := Wrap r now at_ m in ok :: run m' l'
  | Sweep now :: l' => run (evictStale now m) l'
  end.
End Middleware.
Arguments limiterEntry : clear implicits.
