(* ===== verification/AdminRateLimitProofs.v ===== *)
(** * Rate limit of the admin API: properties

    Every request is counted with the other requests of its kind and client, and removing idle
    limiters changes no decision; headers count only behind a proxy of a private network, and
    there they choose the limiter. *)

From Stdlib Require Import ZArith QArith String Ascii Lia.
From stdpp Require Import base option strings gmap list.
From S2P Require Import Prelude Net AdminRateLimit.

Open Scope Z_scope.

(** ** Rules *)

Lemma endpoint_key method path : exists r, r ∈ rules /\ resolveEndpointKey method path = rule_key r.
Proof.
  unfold resolveEndpointKey. destruct (List.find _ _) as [r|] eqn:Hf.
  - exists r. split; [|done]. apply list_elem_of_In. by eapply List.find_some.
  - exfalso. assert (rule "" "" 1 5 ∈ rules) as Hin by (unfold rules; set_solver).
    apply list_elem_of_In in Hin. by apply (List.find_none _ _ Hf) in Hin.
Qed.

Lemma rule_limit r : r ∈ rules -> resolveLimit (rule_key r) = er_limit r.
Proof.
  unfold rules. intros Hr. repeat (apply elem_of_cons in Hr as [->|Hr]; [reflexivity|]). by apply elem_of_nil in Hr.
Qed.

(** ** The reference

    What is limited, how much of it, and for whom, said without the table of rules and the
    composite keys. *)

Inductive action := ReplayCall | ReconcileCall | WatchCall | BookCall | OtherCall.
#[export] Instance action_eq_dec : EqDecision action.
Proof. solve_decision. Defined.
#[export] Instance action_countable : Countable action.
Proof.
  apply (inj_countable' (fun a => match a with ReplayCall => 0 | ReconcileCall => 1 | WatchCall => 2 | BookCall => 3 | OtherCall => 4 end)%nat
    (fun n => match n with 0 => ReplayCall | 1 => ReconcileCall | 2 => WatchCall | 3 => BookCall | _ => OtherCall end)%nat).
  by intros [].
Defined.

Definition action_of (r : request) : action :=
  let post := equal_fold "POST" (rq_Method r) in
  if post && has_prefix (rq_Path r) "/admin/v1/replay" then ReplayCall
  else if post && has_prefix (rq_Path r) "/admin/v1/reconcile" then ReconcileCall
  else if post && has_prefix (rq_Path r) "/admin/v1/watched-addresses" then WatchCall
  else if equal_fold "DELETE" (rq_Method r) && has_prefix (rq_Path r) "/admin/v1/address-books" then BookCall
  else OtherCall.

(** One in five minutes, ten in a minute with three at once, one in a second with five at
    once. *)
Definition allowance (a : action) : endpointLimit :=
  match a with
  | ReplayCall | ReconcileCall => {| el_rps := 1 # 300; el_burst := 1 |}
  | WatchCall | BookCall => {| el_rps := 10 # 60; el_burst := 3 |}
  | OtherCall => {| el_rps := 1; el_burst := 5 |}
  end.

(** 10.0.0.0/8, 172.16.0.0/12, 192.168.0.0/16, 127.0.0.0/8, ::1 and fc00::/7. *)
Definition private_address (ip : list Z) : bool :=
  if bool_decide (take 12 ip = replicate 10 0 ++ [255; 255]) then
    match drop 12 ip with
    | a :: b :: _ =>
        (a =? 10) || ((a =? 172) && (16 <=? b) && (b <=? 31)) || ((a =? 192) && (b =? 168)) || (a =? 127)
    | _ => false
    end
  else bool_decide (ip = replicate 15 0 ++ [1]) ||
       match ip with b :: _ => (b =? 252) || (b =? 253) | [] => false end.

Fixpoint before_comma (s : string) : string :=
  match s with
  | EmptyString => ""
  | String c s' => if Ascii.eqb c comma then "" else String c (before_comma s')
  end.

(** The peer of the connection; behind a private one the first entry of the forwarding
    header, or the address of the other header. *)
Definition client_of (r : request) : string :=
  let peer := default (rq_RemoteAddr r) (split_host (rq_RemoteAddr r)) in
  match ParseIP peer with
  | Some ip =>
      if private_address ip then
        match rq_XForwardedFor r, rq_XRealIP r with
        | EmptyString, EmptyString => peer
        | EmptyString, real => trim_space real
        | forwarded, _ => trim_space (before_comma forwarded)
        end
      else peer
  | None => peer
  end.

Lemma before_comma_cut s : before_comma s = match cut_on comma s with Some (first, _) => first | None => s end.
Proof.
  induction s as [|c s IH]; simpl; [done|]. destruct (Ascii.eqb c comma); [done|]. rewrite IH.
  by destruct (cut_on comma s) as [[? ?]|].
Qed.

Lemma bits_of_cons_aux l : forall acc, foldl (fun acc b => acc * 256 + b) acc l = acc * 256 ^ Z.of_nat (length l) + bits_of l.
Proof.
  unfold bits_of. induction l as [|b l IH]; intros acc; [simpl; lia|]. cbn [foldl length].
  rewrite IH, (IH (0 * 256 + b)), Nat2Z.inj_succ, Z.pow_succ_r by lia. ring.
Qed.

Lemma bits_of_cons b l : bits_of (b :: l) = b * 256 ^ Z.of_nat (length l) + bits_of l.
Proof. unfold bits_of at 1. cbn [foldl]. by rewrite bits_of_cons_aux. Qed.

Lemma bits_of_range l : byte_range l -> 0 <= bits_of l < 256 ^ Z.of_nat (length l).
Proof.
  induction 1 as [|b l Hb _ IH]; [done|]. rewrite bits_of_cons. cbn [length]. rewrite Nat2Z.inj_succ, Z.pow_succ_r by lia. nia.
Qed.

Lemma bits_of_inj l : forall l', byte_range l -> byte_range l' -> length l = length l' -> bits_of l = bits_of l' -> l = l'.
Proof.
  induction l as [|b l IH]; intros [|b' l'] Hl Hl' Hlen He; [done|done|done|].
  apply Forall_cons in Hl as [Hb Hl], Hl' as [Hb' Hl']. injection Hlen as Hlen. rewrite !bits_of_cons, Hlen in He.
  pose proof (bits_of_range l Hl) as R. pose proof (bits_of_range l' Hl') as R'. rewrite Hlen in R.
  assert (b = b') as -> by nia. f_equal. apply IH; [done..|lia].
Qed.

Lemma contains_same n mask ip : length (default ip (To4 ip)) = length n ->
  Contains (n, mask) ip =
  let k := 8 * Z.of_nat (length n) - mask in Z.shiftr (bits_of (default ip (To4 ip))) k =? Z.shiftr (bits_of n) k.
Proof. intros Hl. unfold Contains. cbn [fst snd]. cbv zeta. by rewrite Hl, Nat.eqb_refl. Qed.

Lemma contains_other n mask ip : length (default ip (To4 ip)) <> length n -> Contains (n, mask) ip = false.
Proof. intros Hl. unfold Contains. cbn [fst snd]. cbv zeta. by apply Nat.eqb_neq in Hl as ->. Qed.

Lemma masked_4 a b c d : byte_range [a; b; c; d] ->
  Z.shiftr (bits_of [a; b; c; d]) 24 = a /\ Z.shiftr (bits_of [a; b; c; d]) 20 = a * 16 + b / 16 /\
  Z.shiftr (bits_of [a; b; c; d]) 16 = a * 256 + b.
Proof.
  intros Hr. repeat (apply Forall_cons in Hr as [? Hr]). unfold bits_of. cbn [foldl].
  rewrite !Z.shiftr_div_pow2 by lia. change (2 ^ 24) with 16777216. change (2 ^ 20) with 1048576. change (2 ^ 16) with 65536.
  split_and!; Z.div_mod_to_equations; lia.
Qed.

Lemma masked_6 b ip : byte_range (b :: ip) -> length ip = 15%nat -> Z.shiftr (bits_of (b :: ip)) 121 = b / 2.
Proof.
  intros Hr Hl. apply Forall_cons in Hr as [Hb Hr]. apply bits_of_range in Hr. rewrite bits_of_cons. rewrite Hl in *.
  rewrite Z.shiftr_div_pow2 by lia. change (256 ^ Z.of_nat 15) with (2 ^ 120) in *.
  replace (2 ^ 121) with (2 ^ 120 * 2) by done. rewrite <- Z.div_div by lia. rewrite Z.div_add_l, (Z.div_small (bits_of ip)) by lia.
  by rewrite Z.add_0_r.
Qed.

(** The masks of the private networks select the private addresses. *)
Lemma private_networks ip : byte_range ip -> length ip = 16%nat ->
  existsb (fun n => Contains n ip) privateNetworks = private_address ip.
Proof.
  intros Hr Hl. unfold privateNetworks, private_address. cbn [existsb].
  destruct (bool_decide_reflect (take 12 ip = replicate 10 0 ++ [255; 255])) as [H4|H6].
  - assert (default ip (To4 ip) = drop 12 ip) as Hd by (unfold To4; by rewrite bool_decide_eq_true_2).
    assert (length (drop 12 ip) = 4%nat) as Hlen by (rewrite length_drop; lia).
    rewrite !(contains_same [_; _; _; _]), !(contains_other (_ ++ _)) by (rewrite Hd, Hlen; done). rewrite Hd.
    apply (Forall_drop _ 12) in Hr. destruct (drop 12 ip) as [|a [|b [|c [|d [|]]]]]; try done.
    destruct (masked_4 a b c d Hr) as (E1 & E2 & E3). cbn [length Z.of_nat Z.mul Z.sub].
    repeat (apply Forall_cons in Hr as [? Hr]).
    change (8 * Z.of_nat 4 - 8) with 24. change (8 * Z.of_nat 4 - 12) with 20. change (8 * Z.of_nat 4 - 16) with 16.
    rewrite E1, E2, E3. cbv zeta.
    change (Z.shiftr (bits_of [10; 0; 0; 0]) 24) with 10. change (Z.shiftr (bits_of [172; 16; 0; 0]) 20) with 2753.
    change (Z.shiftr (bits_of [192; 168; 0; 0]) 16) with 49320. change (Z.shiftr (bits_of [127; 0; 0; 0]) 24) with 127.
    rewrite !orb_false_r, !orb_assoc. f_equal. f_equal; [f_equal|]; apply eq_true_iff_eq;
      rewrite ?andb_true_iff, !Z.eqb_eq, ?Z.leb_le; Z.div_mod_to_equations; lia.
  - assert (default ip (To4 ip) = ip) as Hd by (unfold To4; by rewrite bool_decide_eq_false_2).
    rewrite !(contains_other [_; _; _; _]), !(contains_same (_ ++ _)) by (rewrite Hd, Hl; done). rewrite Hd. cbn [orb]. cbv zeta.
    change (8 * Z.of_nat (length (replicate 15 0 ++ [1])) - 128) with 0.
    change (8 * Z.of_nat (length ([252] ++ replicate 15 0)) - 7) with 121.
    rewrite !Z.shiftr_0_r, orb_false_r. f_equal.
    + apply eq_true_iff_eq. rewrite Z.eqb_eq, bool_decide_eq_true. split; [|by intros ->].
      apply bits_of_inj; [done|repeat constructor; lia|done].
    + destruct ip as [|b ip]; [done|]. injection Hl as Hl. rewrite masked_6 by done.
      change (Z.shiftr (bits_of ([252] ++ replicate 15 0)) 121) with 126. apply Forall_cons in Hr as [Hb _].
      apply eq_true_iff_eq. rewrite orb_true_iff, !Z.eqb_eq. Z.div_mod_to_equations; lia.
Qed.

Lemma client_extracted r : extractClientIP r = client_of r.
Proof.
  unfold extractClientIP, client_of, isTrustedProxy. change (default (rq_RemoteAddr r) (split_host (rq_RemoteAddr r))) with (remote_host r).
  destruct (ParseIP (remote_host r)) as [ip|] eqn:Hp; [|done]. apply ParseIP_range in Hp as [Hr Hl].
  rewrite private_networks by done. destruct (private_address ip); [|done].
  destruct (rq_XForwardedFor r) as [|c s]; cbn [str_empty negb].
  - by destruct (rq_XRealIP r).
  - rewrite before_comma_cut. by destruct (cut_on comma (String c s)) as [[? ?]|].
Qed.

(** The rule of an action. *)
Definition rule_of (a : action) : endpointRule :=
  match a with
  | ReplayCall => rule "POST" "/admin/v1/replay" (1 # 300) 1
  | ReconcileCall => rule "POST" "/admin/v1/reconcile" (1 # 300) 1
  | WatchCall => rule "POST" "/admin/v1/watched-addresses" (10 # 60) 3
  | BookCall => rule "DELETE" "/admin/v1/address-books" (10 # 60) 3
  | OtherCall => rule "" "" 1 5
  end.

Lemma rule_of_in a : rule_of a ∈ rules.
Proof. unfold rules. destruct a; set_solver. Qed.

Lemma endpoint_action r : endpoint_of r = rule_key (rule_of (action_of r)).
Proof.
  unfold endpoint_of, resolveEndpointKey, action_of, rules, rule_matches. cbn [List.find er_method er_prefix rule]. cbv zeta.
  by destruct (equal_fold "POST" _), (equal_fold "DELETE" _), (has_prefix _ "/admin/v1/replay"),
    (has_prefix _ "/admin/v1/reconcile"), (has_prefix _ "/admin/v1/watched-addresses"), (has_prefix _ "/admin/v1/address-books").
Qed.

Lemma limit_action a : resolveLimit (rule_key (rule_of a)) = allowance a.
Proof. by destruct a. Qed.

Definition bar : ascii := Json.chr 124.

(** The composite key of an action and a client. *)
Definition key_of (k : action * string) : string := rule_key (rule_of k.1) +:+ String bar k.2.

Lemma limiter_key_of r : limiter_key r = key_of (action_of r, client_of r).
Proof. unfold limiter_key, key_of. by rewrite endpoint_action, client_extracted. Qed.

Lemma cut_limiter_key k : cut_on bar (key_of k) = Some (rule_key (rule_of k.1), k.2).
Proof. destruct k as [[] c]; unfold key_of; by rewrite cut_on_app. Qed.

#[export] Instance key_of_inj : Inj (=) (=) key_of.
Proof.
  intros [a c] [a' c'] H. pose proof (cut_limiter_key (a, c)) as H1. rewrite H, cut_limiter_key in H1. injection H1 as Ha ->. f_equal.
  by destruct a, a'.
Qed.

(** ** Eviction *)

(** Every rule refills its burst in five minutes, and the clock [Allow] reads is at most five
    minutes after that of the middleware. *)
Definition refill_time : Z := 300 * 10 ^ 9.

Section Eviction.
Context {L : Type} {rate_limiter : RateLimiter L}.

(** A limiter of a limit that was last used at a time. *)
Inductive used (limit : endpointLimit) : L -> Z -> Prop :=
| used_first at_ : used limit (allow (new_limiter limit) at_).2 at_
| used_again lim s at_ : used limit lim s -> s <= at_ -> used limit (allow lim at_).2 at_.

(** A token bucket is full after its refill time and answers like a new one. *)
Class Refills : Prop :=
  refills : forall r lim s at_, r ∈ rules -> used (er_limit r) lim s -> s + refill_time <= at_ ->
    allow lim at_ = allow (new_limiter (er_limit r)) at_.
Context {rate_refills : Refills}.

(** The reference: one limiter per action and client for ever. *)
Definition spec_step (r : request) (at_ : Z) (m : gmap (action * string) L) : bool * gmap (action * string) L :=
  let k := (action_of r, client_of r) in
  let '(ok, lim) := allow (default (new_limiter (allowance (action_of r))) (m !! k)) at_ in
  (ok, <[k := lim]> m).

Fixpoint spec_run (m : gmap (action * string) L) (l : list event) : list bool :=
  match l with
  | [] => []
  | Request r now at_ :: l' => let '(ok, m') := spec_step r at_ m in ok :: spec_run m' l'
  | Sweep _ :: l' => spec_run m l'
  end.

(** The clocks of a run never go back, and [Allow] is called soon after the lookup. *)
Fixpoint clocked (now at_ : Z) (l : list event) : Prop :=
  match l with
  | [] => True
  | Request _ now' at_' :: l' => now <= now' /\ at_ <= at_' /\ now' <= at_' <= now' + refill_time /\ clocked now' at_' l'
  | Sweep now' :: l' => now <= now' /\ clocked now' at_ l'
  end.

(** A key is in both maps with the same limiter, or its limiter has refilled since. *)
Definition key_agrees (now at_ : Z) (limit : endpointLimit) (entry : option (limiterEntry L)) (lim : option L) : Prop :=
  match entry, lim with
  | Some e, Some lim => le_limiter e = lim /\ exists s, used limit lim s /\
      le_lastSeen e <= now /\ s <= at_ /\ s <= le_lastSeen e + refill_time
  | Some _, None => False
  | None, Some lim => exists s, used limit lim s /\ s <= at_ /\ s + refill_time <= now
  | None, None => True
  end.

Definition agrees (now at_ : Z) (m : gmap string (limiterEntry L)) (m' : gmap (action * string) L) : Prop :=
  forall k, key_agrees now at_ (allowance k.1) (m !! key_of k) (m' !! k).

Lemma agrees_later now at_ now' at_' m m' : now <= now' -> at_ <= at_' -> agrees now at_ m m' -> agrees now' at_' m m'.
Proof.
  intros Hn Ha H k. specialize (H k). unfold key_agrees in *.
  destruct (m !! key_of k), (m' !! k); [|done| |done].
  - destruct H as (He & s & Hu & ? & ? & ?). split; [done|]. exists s. split; [done|lia].
  - destruct H as (s & Hu & ? & ?). exists s. split; [done|lia].
Qed.

Lemma lookup_evict now (m : gmap string (limiterEntry L)) key :
  evictStale now m !! key = m !! key ≫= fun e => if decide (now - le_lastSeen e <= staleLimiterTTL) then Some e else None.
Proof.
  apply option_eq. intros e. unfold evictStale. rewrite map_lookup_filter_Some, bind_Some. split.
  - intros [Hm He]. exists e. split; [done|]. by apply decide_True.
  - intros (e' & Hm & He). case_decide; [|done]. by injection He as <-.
Qed.

Lemma agrees_sweep now at_ m m' : agrees now at_ m m' -> agrees now at_ (evictStale now m) m'.
Proof.
  intros Hkeys k. specialize (Hkeys k). rewrite lookup_evict. unfold key_agrees in *.
  destruct (m !! key_of k) as [e|]; simpl; [|done]. case_decide as Hidle; [done|].
  destruct (m' !! k); [|done]. destruct Hkeys as (He & s & Hu & ? & ? & ?).
  exists s. split; [done|]. unfold staleLimiterTTL, refill_time in *. lia.
Qed.

Lemma agrees_request r now at_ m m' : now <= at_ <= now + refill_time -> agrees now at_ m m' ->
  (Wrap r now at_ m).1 = (spec_step r at_ m').1 /\ agrees now at_ (Wrap r now at_ m).2 (spec_step r at_ m').2.
Proof.
  intros Hat H. unfold Wrap, spec_step, getOrCreateLimiter. cbv zeta. rewrite limiter_key_of, endpoint_action, limit_action.
  set (k := (action_of r, client_of r)).
  set (lim := match m !! key_of k with Some e => le_limiter e | None => _ end).
  set (lim' := default _ _).
  assert (Heq : allow lim at_ = allow lim' at_ /\ used (allowance k.1) (allow lim' at_).2 at_).
  { unfold lim, lim'. pose proof (H k) as Hk. unfold key_agrees in Hk.
    destruct (m !! key_of k) as [e|], (m' !! k) as [l|]; simpl.
    - destruct Hk as (-> & s & Hu & _ & Hs & _). split; [done|]. by eapply used_again.
    - done.
    - destruct Hk as (s & Hu & Hs & Hidle). simpl in Hu.
      assert (allowance (action_of r) = er_limit (rule_of (action_of r))) as Hlim by by destruct (action_of r).
      rewrite Hlim in *. split.
      + symmetry. eapply refills; [apply rule_of_in|done|lia].
      + eapply used_again; [done|lia].
    - split; [done|apply used_first]. }
  destruct Heq as [Heq Hused]. rewrite Heq. destruct (allow lim' at_) as [ok l] eqn:Ha. simpl. split; [done|].
  intros k'. destruct (decide (k' = k)) as [->|Hne].
  - rewrite lookup_alter_eq, !lookup_insert_eq. split; [done|]. exists at_. simpl in *. split; [done|lia].
  - assert (key_of k <> key_of k') by (intros Hk%(inj key_of); by subst).
    rewrite lookup_alter_ne, !lookup_insert_ne by done. apply H.
Qed.

(** C38: the sweeps change no decision.  With limiters that are like new after five idle
    minutes, as every allowance fills up in five minutes, and clocks that do not go back,
    every request is let through or refused as it would be with one limiter for ever for its
    action and client.  The action is a POST to replay, to reconcile or to watch addresses, a
    DELETE of address books, or any other call, each with its own allowance; the client is the
    peer of the connection or, behind a peer with a private address, what its headers say. *)
Theorem eviction_transparent now at_ l : clocked now at_ l -> run (∅ : gmap string (limiterEntry L)) l = spec_run ∅ l.
Proof.
  assert (Hinit : agrees now at_ (∅ : gmap string (limiterEntry L)) ∅) by (intros k; by rewrite !lookup_empty).
  revert Hinit. generalize (∅ : gmap string (limiterEntry L)), (∅ : gmap (action * string) L).
  revert now at_. induction l as [|[r now' at_'|now'] l IH]; intros now at_ m m' H Hc; [done| |]; simpl in Hc |- *.
  - destruct Hc as (Hn & Ha & Hat & Hc). apply (agrees_later _ _ now' at_') in H; [|done|done].
    destruct (agrees_request r now' at_' m m' Hat H) as [Hok Hnext].
    destruct (Wrap r now' at_' m) as [ok mm], (spec_step r at_' m') as [ok' mm']. simpl in *. subst ok'.
    f_equal. by eapply IH.
  - destruct Hc as (Hn & Hc). apply (agrees_later _ _ now' at_) in H; [|done|done].
    eapply IH; [by apply agrees_sweep|done].
Qed.
End Eviction.

(** ** Which requests share a limiter *)

(** Also: the proxy headers of a request whose peer is not in a private network are ignored:
    whatever they say, the request counts for the address of its peer. *)
Theorem direct_headers_ignored r xff xri : isTrustedProxy (remote_host r) = false ->
  limiter_key r = endpoint_of r +:+ "|" +:+ remote_host r /\
  limiter_key {| rq_Method := rq_Method r; rq_Path := rq_Path r; rq_RemoteAddr := rq_RemoteAddr r;
                 rq_XForwardedFor := xff; rq_XRealIP := xri |} = limiter_key r.
Proof.
  intros Hd. unfold limiter_key, extractClientIP, endpoint_of, remote_host in *. simpl. by rewrite Hd.
Qed.

Section Spoofing.
Context {L : Type} {rate_limiter : RateLimiter L}.
(** A new limiter lets the first request through. *)
Context (Hfresh : forall r at_, r ∈ rules -> (allow (new_limiter (er_limit r)) at_).1 = true).

(** The request of a client behind a proxy that appends the address it sees. *)
Definition claiming (r : request) (claim seen : string) : request :=
  {| rq_Method := rq_Method r; rq_Path := rq_Path r; rq_RemoteAddr := rq_RemoteAddr r;
     rq_XForwardedFor := claim +:+ String comma seen; rq_XRealIP := rq_XRealIP r |}.

Lemma claimed_key r claim seen : isTrustedProxy (remote_host r) = true -> cut_on comma claim = None -> no_space claim = true ->
  limiter_key (claiming r claim seen) = endpoint_of r +:+ "|" +:+ claim.
Proof.
  intros Ht Hc Hs. unfold limiter_key, extractClientIP, endpoint_of, claiming, remote_host in *. simpl. rewrite Ht.
  replace (str_empty (claim +:+ String comma seen)) with false by (by destruct claim). cbn [negb].
  rewrite cut_on_app by done. by rewrite trim_space_no_space.
Qed.

(** Also: behind a proxy of a private network a client chooses its limiter by the first entry it
    puts in the header: requests that claim different addresses are all let through, however
    many there are and whatever address the proxy appends. *)
Theorem claims_escape_limit r seen now claims : isTrustedProxy (remote_host r) = true ->
  NoDup claims -> Forall (fun claim => cut_on comma claim = None /\ no_space claim = true) claims ->
  run (∅ : gmap string (limiterEntry L)) ((fun claim => Request (claiming r claim seen) now now) <$> claims) =
  replicate (length claims) true.
Proof.
  intros Ht Hnd Hclaims.
  assert (Hm : forall claim, claim ∈ claims -> (∅ : gmap string (limiterEntry L)) !! (endpoint_of r +:+ "|" +:+ claim) = None)
    by (intros; apply lookup_empty).
  revert Hm. generalize (∅ : gmap string (limiterEntry L)).
  induction claims as [|claim claims IH]; intros m Hm; [done|]. simpl.
  apply NoDup_cons in Hnd as [Hnew Hnd]. apply Forall_cons in Hclaims as [[Hc Hs] Hclaims].
  unfold Wrap, getOrCreateLimiter. rewrite claimed_key by done. rewrite Hm by apply list_elem_of_here.
  change (endpoint_of (claiming r claim seen)) with (endpoint_of r).
  destruct (endpoint_key (rq_Method r) (rq_Path r)) as (ru & Hru & Heq).
  change (resolveEndpointKey (rq_Method r) (rq_Path r)) with (endpoint_of r) in Heq.
  pose proof (Hfresh ru now Hru) as Hok. rewrite <- (rule_limit ru Hru), <- Heq in Hok.
  destruct (allow _ now) as [ok lim]. simpl in Hok. subst ok. f_equal.
  apply IH; [done|done|]. intros claim' Hin.
  assert (endpoint_of r +:+ "|" +:+ claim <> endpoint_of r +:+ "|" +:+ claim') as Hk
    by (intros Hk; do 2 apply append_cancel in Hk; by subst).
  rewrite lookup_alter_ne, lookup_insert_ne by done. apply Hm. by apply list_elem_of_further.
Qed.
End Spoofing.

(** ** A token bucket has the laws *)

Module TokenBucket.
(** A token is [den * 10^9] units, so that the rate is [num] units in a nanosecond. *)
Record bucket := { bu_limit : endpointLimit; bu_units : Z; bu_last : Z }.

Definition unit_of (l : endpointLimit) : Z := Z.pos (Qden (el_rps l)) * 10 ^ 9.
Definition full (l : endpointLimit) : Z := el_burst l * unit_of l.

Definition take_token (b : bucket) (at_ : Z) : bool * bucket :=
  let l := bu_limit b in
  let units := Z.min (full l) (bu_units b + Z.max 0 (at_ - bu_last b) * Qnum (el_rps l)) in
  let ok := unit_of l <=? units in
  (ok, {| bu_limit := l; bu_units := if ok then units - unit_of l else units; bu_last := at_ |}).

#[export] Instance token_bucket : RateLimiter bucket :=
  { new_limiter l := {| bu_limit := l; bu_units := full l; bu_last := 0 |}; allow := take_token }.

Lemma rule_refills r : r ∈ rules ->
  0 <= Qnum (el_rps (er_limit r)) /\ 1 <= el_burst (er_limit r) /\
  full (er_limit r) <= refill_time * Qnum (el_rps (er_limit r)).
Proof.
  unfold rules. intros Hr.
  repeat (apply elem_of_cons in Hr as [->|Hr]; [split_and!; vm_compute; discriminate|]). by apply elem_of_nil in Hr.
Qed.

Lemma used_bucket r b s : r ∈ rules -> used (er_limit r) b s -> bu_limit b = er_limit r /\ bu_last b = s /\ 0 <= bu_units b.
Proof.
  intros (Hn & Hb & Hf)%rule_refills. assert (0 < unit_of (er_limit r)) by (unfold unit_of; lia).
  assert (0 <= full (er_limit r)) by (unfold full; nia).
  induction 1 as [at_|b s at_ _ (Hl & Hs & Hu) Hle]; simpl.
  - split_and!; [done|done|]. destruct (Z.leb_spec (unit_of (er_limit r)) (Z.min (full (er_limit r))
      (full (er_limit r) + Z.max 0 (at_ - 0) * Qnum (el_rps (er_limit r))))); nia.
  - rewrite Hl. split_and!; [done|done|]. destruct (Z.leb_spec (unit_of (er_limit r)) (Z.min (full (er_limit r))
      (bu_units b + Z.max 0 (at_ - bu_last b) * Qnum (el_rps (er_limit r))))); nia.
Qed.

#[export] Instance bucket_refills : Refills.
Proof.
  intros r b s at_ Hr Hu Hidle. destruct (used_bucket r b s Hr Hu) as (Hl & Hs & Hun).
  destruct (rule_refills r Hr) as (Hn & Hb & Hf). simpl. unfold take_token. simpl. rewrite Hl, Hs.
  rewrite !(Z.min_l (full (er_limit r))); [done|nia|nia].
Qed.

Lemma bucket_fresh r at_ : r ∈ rules -> (allow (new_limiter (er_limit r)) at_).1 = true.
Proof.
  intros (Hn & Hb & _)%rule_refills. simpl. rewrite Z.min_l by nia. apply Z.leb_le.
  unfold full. assert (0 < unit_of (er_limit r)) by (unfold unit_of; lia). nia.
Qed.
End TokenBucket.
Import TokenBucket.

(** ** Witnesses *)

Definition replay_from (remote : string) : request :=
  {| rq_Method := "POST"; rq_Path := "/admin/v1/replay"; rq_RemoteAddr := remote; rq_XForwardedFor := ""; rq_XRealIP := "" |}.
Definition minute : Z := 60 * 10 ^ 9.

(** Two replays in a minute, a sweep after eleven, and a third. *)
Definition three_replays : list event :=
  [Request (replay_from "192.0.2.1:9") 0 0; Request (replay_from "192.0.2.1:9") minute minute; Sweep (12 * minute);
   Request (replay_from "192.0.2.1:9") (12 * minute) (12 * minute)].

Example second_refused : run (∅ : gmap string (limiterEntry bucket)) three_replays = [true; false; true].
Proof. vm_compute. reflexivity. Qed.

Lemma eviction_transparent_witness : run (∅ : gmap string (limiterEntry bucket)) three_replays = spec_run ∅ three_replays.
Proof. refine (eviction_transparent 0 0 three_replays _). vm_compute. intuition discriminate. Defined.

Lemma direct_headers_ignored_witness :
  limiter_key (replay_from "192.0.2.1:9") = endpoint_of (replay_from "192.0.2.1:9") +:+ "|" +:+ remote_host (replay_from "192.0.2.1:9") /\
  limiter_key {| rq_Method := "POST"; rq_Path := "/admin/v1/replay"; rq_RemoteAddr := "192.0.2.1:9";
                 rq_XForwardedFor := "203.0.113.5"; rq_XRealIP := "" |} = limiter_key (replay_from "192.0.2.1:9").
Proof. refine (direct_headers_ignored (replay_from "192.0.2.1:9") "203.0.113.5" "" _). vm_compute. reflexivity. Defined.

Lemma claims_escape_limit_witness :
  run (∅ : gmap string (limiterEntry bucket))
    ((fun claim => Request (claiming (replay_from "10.0.0.1:80") claim "192.0.2.1") 5 5) <$> ["a"; "b"; "c"]) = [true; true; true].
Proof.
  refine (claims_escape_limit bucket_fresh (replay_from "10.0.0.1:80") "192.0.2.1" 5 ["a"; "b"; "c"] _ _ _).
  - vm_compute. reflexivity.
  - apply (bool_decide_unpack _). vm_compute. exact I.
  - repeat constructor.
Defined.
