(* ===== verification/AdminStack.v ===== *)
(** * The admin API as it is served: [cmd/indexer/main.go], [internal/admin/audit.go],
    [internal/store/postgres/address_book_repo.go]

    The middleware around the handlers of [AdminServer] (basic authentication, rate limit,
    audit), programs run against answers of their calls, and the tables behind the calls
    that change something. *)

From Stdlib Require Import ZArith String Ascii Lia.
From stdpp Require Import base option strings gmap sorting list.
From S2P Require Import Prelude Config Retry Domain Json JsonTree Net AddressIndex AdminRateLimit AdminServer.

Open Scope list_scope.
Open Scope Z_scope.

(** ** [Request.BasicAuth] *)

Definition base64_value (c : ascii) : option Z :=
  let b := byte_of c in
  if (65 <=? b) && (b <=? 90) then Some (b - 65)
  else if (97 <=? b) && (b <=? 122) then Some (b - 71)
  else if (48 <=? b) && (b <=? 57) then Some (b + 4)
  else if b =? 43 then Some 62
  else if b =? 47 then Some 63
  else None.

Definition equals_sign : ascii := chr 61.

(** [base64.StdEncoding]: groups of four characters, the last one padded; line breaks are
    skipped before. *)
Fixpoint base64_groups (s : string) : option string :=
  match s with
  | EmptyString => Some EmptyString
  | String c1 (String c2 (String c3 (String c4 rest))) =>
      v1 ← base64_value c1; v2 ← base64_value c2;
      let b1 := chr (v1 * 4 + v2 / 16) in
      if Ascii.eqb c3 equals_sign then
        if Ascii.eqb c4 equals_sign && str_empty rest then Some (String b1 EmptyString) else None
      else
        v3 ← base64_value c3;
        let b2 := chr (v2 mod 16 * 16 + v3 / 4) in
        if Ascii.eqb c4 equals_sign then
          if str_empty rest then Some (String b1 (String b2 EmptyString)) else None
        else
          v4 ← base64_value c4;
          more ← base64_groups rest;
          Some (String b1 (String b2 (String (chr (v3 mod 4 * 64 + v4)) more)))
  | _ => None
  end.

Fixpoint strip_line_breaks (s : string) : string :=
  match s with
  | EmptyString => EmptyString
  | String c s' => if (byte_of c =? 13) || (byte_of c =? 10) then strip_line_breaks s' else String c (strip_line_breaks s')
  end.

Definition BasicAuth (authorization : string) : option (string * string) :=
  if String.prefix "basic " (to_lower authorization)
  then decoded ← base64_groups (strip_line_breaks (drop_bytes 6 authorization)); cut_on colon decoded
  else None.

(** ** Middleware of the process *)

Section Stack.
Context {Health Run Balance Event : Type}.
Abbreviation handler := (handler Health Run Balance Event).

(** Whether [basicAuthMiddleware] lets a request through. *)
Definition basicAuthMiddleware (user pass authorization : string) : bool :=
  match BasicAuth authorization with
  | Some (u, p) => str_eqb u user && str_eqb p pass
  | None => false
  end.

(** What the process sets up: every dependency is there. *)
Definition admin_server (c : ServerConfig) : Server :=
  {| s_replayReq := true; s_healthProvider := true; s_reconcileReq := true; s_addressBookRepo := true;
     s_dashboardRepo := true; s_authToken := srv_AdminAuthToken c |}.

(** [AuditMiddleware] writes an entry after a request that changes something. *)
Record audit_entry := { au_Method : string; au_Path : string; au_Status : Z }.

Definition audited (r : AdminServer.request) : bool := str_in (hr_Method r) ["POST"; "DELETE"].

(** ** Running programs *)

Fixpoint respond (oracle : forall c, @answer Health Run Balance Event c) (p : program Health Run Balance Event)
    : response Health Run Balance Event :=
  match p with
  | Reply r => r
  | Act c k => respond oracle (k (oracle c))
  end.

Definition AuditMiddleware (oracle : forall c, @answer Health Run Balance Event c) (next : handler) (s : Server)
    (r : AdminServer.request) : response Health Run Balance Event * list audit_entry :=
  let rs := respond oracle (next s r) in
  (rs, if audited r then [{| au_Method := hr_Method r; au_Path := hr_Path r; au_Status := rs_Status rs |}] else []).

Context {L : Type} {rate_limiter : RateLimiter L}.

(** The request as the rate limiter sees it. *)
Definition wire (r : AdminServer.request) (remote xff xri : string) : AdminRateLimit.request :=
  {| rq_Method := hr_Method r; rq_Path := hr_Path r; rq_RemoteAddr := remote; rq_XForwardedFor := xff; rq_XRealIP := xri |}.

Definition too_many : response Health Run Balance Event := {| rs_Status := 429; rs_Body := BError "rate limit exceeded" |}.

(** The whole stack: basic authentication when a user and a password are set, the rate limit
    when it is enabled, the audit, the handlers. *)
Definition admin_stack (c : ServerConfig) (oracle : forall call, @answer Health Run Balance Event call)
    (r : AdminServer.request) (w : AdminRateLimit.request) (now : Z) (m : gmap string (limiterEntry L))
    : response Health Run Balance Event * list audit_entry * gmap string (limiterEntry L) :=
  let inner := AuditMiddleware oracle Handler (admin_server c) r in
  let limited :=
    if srv_AdminRateLimitEnabled c then
      let '(ok, m') := Wrap w now now m in if ok then (inner, m') else ((too_many, []), m')
    else (inner, m) in
  if negb (str_empty (srv_AdminAuthUser c)) && negb (str_empty (srv_AdminAuthPass c)) then
    if basicAuthMiddleware (srv_AdminAuthUser c) (srv_AdminAuthPass c) (hr_Authorization r) then limited
    else (({| rs_Status := 401; rs_Body := BEmpty |}, []), m)
  else limited.
End Stack.
Arguments admin_stack {_ _ _ _ L rate_limiter} c oracle r w now m.

(** ** [store/postgres/address_book_repo.go]

    The rows of [address_books]; (chain, network, organisation, address) is unique. *)
Module AddressBookRepo.

Definition table : Type := list AddressBookEntry.

Definition key_of (e : AddressBookEntry) : Chain * Network * string * string :=
  (ab_Chain e, ab_Network e, ab_OrgID e, ab_Address e).

Definition with_status (e : AddressBookEntry) : AddressBookEntry :=
  {| ab_Chain := ab_Chain e; ab_Network := ab_Network e; ab_Address := ab_Address e; ab_Name := ab_Name e;
     ab_Status := if str_empty (ab_Status e) then "ACTIVE" else ab_Status e; ab_OrgID := ab_OrgID e |}.

Definition Upsert (t : table) (entry : AddressBookEntry) : table :=
  let entry := with_status entry in
  if bool_decide (key_of entry ∈ key_of <$> t)
  then (fun e => if decide (key_of e = key_of entry) then entry else e) <$> t
  else t ++ [entry].

Definition has_address (chain : Chain) (network : Network) (address : string) (e : AddressBookEntry) : bool :=
  String.eqb (ab_Chain e) chain && String.eqb (ab_Network e) network && String.eqb (ab_Address e) address.

Definition Delete (t : table) (chain : Chain) (network : Network) (address : string) : table :=
  filter (fun e => has_address chain network address e = false) t.

(** The rows in the order of their names, which the collation of the database decides. *)
Definition List_ (name_le : relation AddressBookEntry) `{!RelDecision name_le} (t : table) (chain : Chain)
    (network : Network) : list AddressBookEntry :=
  merge_sort name_le (filter (fun e => String.eqb (ab_Chain e) chain && String.eqb (ab_Network e) network = true) t).

(** One of the active rows of the address, whichever the database returns. *)
Definition FindByAddress (pick : list AddressBookEntry -> option AddressBookEntry) (t : table) (chain : Chain)
    (network : Network) (address : string) : option AddressBookEntry :=
  pick (filter (fun e => has_address chain network address e && String.eqb (ab_Status e) "ACTIVE" = true) t).

End AddressBookRepo.

(** ** Programs against the tables

    A call on the two tables reads or changes them, or fails; the other answers are those of
    an oracle. *)

Record tables := { tb_watched : WatchedAddressRepo.table; tb_books : AddressBookRepo.table }.

Section Tables.
Context {Health Run Balance Event : Type} (oracle : forall c, @answer Health Run Balance Event c).
Context (fails : call -> option go_error) (name_le : relation AddressBookEntry) `{!RelDecision name_le}.

Definition on_watched (t : tables) (w : WatchedAddressRepo.table) : tables := {| tb_watched := w; tb_books := tb_books t |}.
Definition on_books (t : tables) (b : AddressBookRepo.table) : tables := {| tb_watched := tb_watched t; tb_books := b |}.

(** A call that fails returns its error and leaves the tables. *)
Definition attempt {A} (c : call) (t : tables) (a : A) (t' : tables) : result go_error A * tables :=
  match fails c with Some err => (Err err, t) | None => (Ok a, t') end.

Definition perform (c : call) (t : tables) : @answer Health Run Balance Event c * tables :=
  match c with
  | CGetActive chain network =>
      attempt (CGetActive chain network) t (WatchedAddressRepo.GetActive (tb_watched t) chain network) t
  | CUpsertAddress addr =>
      attempt (CUpsertAddress addr) t tt (on_watched t (WatchedAddressRepo.Upsert (tb_watched t) addr))
  | CSetBackfill chain network addresses fromBlock =>
      attempt (CSetBackfill chain network addresses fromBlock) t tt
        (on_watched t (WatchedAddressRepo.SetBackfillFromBlock (tb_watched t) chain network addresses fromBlock))
  | CListBooks chain network =>
      attempt (CListBooks chain network) t (AddressBookRepo.List_ name_le (tb_books t) chain network) t
  | CUpsertBook entry => attempt (CUpsertBook entry) t tt (on_books t (AddressBookRepo.Upsert (tb_books t) entry))
  | CDeleteBook chain network address =>
      attempt (CDeleteBook chain network address) t tt (on_books t (AddressBookRepo.Delete (tb_books t) chain network address))
  | c => (oracle c, t)
  end.

Fixpoint execute (p : program Health Run Balance Event) (t : tables) : response Health Run Balance Event * tables :=
  match p with
  | Reply r => (r, t)
  | Act c k => let '(a, t') := perform c t in execute (k a) t'
  end.
End Tables.
