(* ===== verification/AdminProofs.v ===== *)
(** * Admin API: properties

    What a request may do: nothing without its token, nothing that changes data by a GET, and
    only calls whose arguments were checked.  What a request does to the tables, what becomes
    of errors, and where the layers of middleware do not fit together. *)

From Stdlib Require Import ZArith String Ascii Lia.
From stdpp Require Import base option strings gmap sorting list.
From S2P Require Import Prelude Config Startup Retry Domain Replay Json JsonTree Net AddressIndex AdminRateLimit AdminServer AdminStack.

Open Scope list_scope.
Open Scope Z_scope.

Section Programs.
Context {Health Run Balance Event : Type}.
Abbreviation program := (program Health Run Balance Event).
Abbreviation answer := (@answer Health Run Balance Event).

(** ** Every call of a program

    [always P h p]: after the calls and answers [h], whatever is answered, every call of [p]
    satisfies [P] of the calls before it. *)
Definition history : Type := list {c : call & answer c}.

Fixpoint always (P : history -> call -> Prop) (h : history) (p : program) : Prop :=
  match p with
  | Reply _ => True
  | Act c k => P h c /\ forall a, always P (h ++ [existT c a]) (k a)
  end.

Section Rules.
Context (P : history -> call -> Prop) (h : history) (r : AdminServer.request).

Lemma always_or_internal {A} (res : result go_error A) k : (forall a, always P h (k a)) -> always P h (or_internal res k).
Proof. by destruct res; simpl. Qed.

Lemma always_query k :
  (forall chain network, chain = hr_Query r "chain" -> network = hr_Query r "network" ->
     validateChainNetwork chain network = true -> always P h (k chain network)) ->
  always P h (requireChainNetworkQuery r k).
Proof.
  intros Hk. unfold requireChainNetworkQuery. destruct (_ || _); [done|].
  destruct (validateChainNetwork _ _) eqn:Hv; [|done]. by apply Hk.
Qed.

Lemma always_body {A} (read : json -> option A) k :
  (forall v, (hr_Body r ≫= read) = Some v -> always P h (k v)) -> always P h (decodeJSONBody read r k).
Proof. intros Hk. unfold decodeJSONBody. destruct (_ ≫= _); [by apply Hk|done]. Qed.

Lemma always_valid chain network k :
  (validateChainNetwork chain network = true -> always P h k) -> always P h (require_valid chain network k).
Proof. intros Hk. unfold require_valid. destruct (validateChainNetwork _ _); [by apply Hk|done]. Qed.

Lemma always_dependency set message k : always P h k -> always P h (require_dependency set message k).
Proof. by destruct set. Qed.

Lemma always_replay_response (res : result go_error (option PurgeResult)) : always P h (replay_response res).
Proof. destruct res; simpl; [done|]. by destruct (is_finalized_error _). Qed.
End Rules.

(** Goes through a handler down to its calls. *)
Ltac walk :=
  repeat first
    [ apply always_query; intros ? ? ? ? ?
    | apply always_body; intros ? ?
    | apply always_valid; intros ?
    | apply always_dependency
    | apply always_or_internal; intros ?
    | apply always_replay_response
    | progress cbn [always reply error internal_error]
    | match goal with
      | |- always _ _ (if ?b then _ else _) => destruct b eqn:?
      | |- always _ _ (match ?o with Some _ => _ | None => _ end) => destruct o eqn:?
      | |- always _ _ (match ?res with Ok _ => _ | Err _ => _ end) => destruct res
      | |- always _ _ (let '(_, _) := ?p in _) => destruct p
      | |- _ /\ forall _, _ => split; [|intros ?]
      | |- True => exact I
      end ].

(** ** What calls are allowed *)

(** The method by which a call that changes something is asked for. *)
Definition writing_method (c : call) : option string :=
  match c with
  | CUpsertAddress _ | CSetBackfill _ _ _ _ | CRequestReplay _ | CReconcileAny _ _ | CUpsertBook _ => Some "POST"
  | CDeleteBook _ _ _ => Some "DELETE"
  | _ => None
  end.

Definition valid_purge (req : PurgeRequest) : Prop :=
  validateChainNetwork (pr_Chain req) (pr_Network req) = true /\ 0 <= pr_FromBlock req /\
  RuneCountInString (pr_Reason req) <= 500.

(** The arguments of a call, and what was asked before it. *)
Definition checked (h : history) (c : call) : Prop :=
  match c with
  | CGetActive chain network | CGetWatermark chain network | CHasPipeline chain network | CHasAdapter chain network
  | CListBooks chain network | CGetBalanceSummary chain network => validateChainNetwork chain network = true
  | CReplayWatermark chain network =>
      validateChainNetwork chain network = true /\ h = [existT (CHasPipeline chain network) true]
  | CUpsertAddress addr =>
      validateChainNetwork (wa_Chain addr) (wa_Network addr) = true /\ wa_Address addr <> EmptyString /\ wa_IsActive addr = true
  | CSetBackfill chain network addresses fromBlock =>
      validateChainNetwork chain network = true /\ 0 <= fromBlock /\ 1 <= Z.of_nat (length addresses) <= 1000
  | CRequestReplay req =>
      valid_purge req /\ pr_DryRun req = false /\ h = [existT (CHasPipeline (pr_Chain req) (pr_Network req)) true]
  | CDryRunPurge req =>
      valid_purge req /\ pr_DryRun req = true /\ h = [existT (CHasPipeline (pr_Chain req) (pr_Network req)) true]
  | CReconcileAny chain network =>
      validateChainNetwork chain network = true /\ h = [existT (CHasAdapter chain network) true]
  | CUpsertBook entry =>
      validateChainNetwork (ab_Chain entry) (ab_Network entry) = true /\ ab_Address entry <> EmptyString /\
      ab_Name entry <> EmptyString /\ RuneCountInString (ab_Name entry) <= 255 /\ RuneCountInString (ab_OrgID entry) <= 255
  | CDeleteBook chain network address => validateChainNetwork chain network = true /\ address <> EmptyString
  | CGetRecentEvents chain network _ limit offset => validateChainNetwork chain network = true /\ 0 < limit /\ 0 <= offset
  | CHealthSnapshots | CGetAllWatermarks | CCountWatchedAddresses => True
  end.

(** A replay is the one its body asks for, and was confirmed if it overrides finality. *)
Definition confirmed (r : AdminServer.request) (c : call) : Prop :=
  match c with
  | CRequestReplay req => exists body, (hr_Body r ≫= read_replayRequest) = Some body /\
      pr_Chain req = rr_Chain body /\ pr_Network req = rr_Network body /\ rr_FromBlock body = Some (pr_FromBlock req) /\
      (pr_Force req = true -> rr_ConfirmForce body = true)
  | _ => True
  end.

Definition authorised (s : Server) (r : AdminServer.request) : Prop :=
  s_authToken s = EmptyString \/ hr_Authorization r = "Bearer " +:+ s_authToken s.

Definition guarded (s : Server) (r : AdminServer.request) (h : history) (c : call) : Prop :=
  authorised s r /\ (forall m, writing_method c = Some m -> hr_Method r = m) /\ checked h c /\ confirmed r c.

Lemma int_param_accepted value accept fallback : accept fallback = true -> accept (int_param value accept fallback) = true.
Proof. unfold int_param. destruct (parse_int64 value) as [n|]; [|done]. by destruct (accept n) eqn:?. Qed.

(** Turns the tests a handler made into facts. *)
Ltac tests :=
  repeat match goal with
    | H : _ || _ = false |- _ => apply orb_false_iff in H as [? ?]
    | H : str_empty _ = false |- _ => apply str_empty_false in H
    | H : (_ <? _) = false |- _ => apply Z.ltb_ge in H
    | H : (_ =? _)%nat = false |- _ => apply Nat.eqb_neq in H
    | H : negb _ = false |- _ => apply negb_false_iff in H
    end; subst.

Lemma method_matches_eq pattern method : pattern <> "GET" -> method_matches pattern method = true -> method = pattern.
Proof.
  unfold method_matches. intros Hne [H|[H _]%andb_true_iff]%orb_true_iff; apply String.eqb_eq in H; [done|contradiction].
Qed.

Ltac unfold_handler :=
  unfold handleListWatchedAddresses, handleAddWatchedAddress, handleGetStatus, handleReplay, handleReplayStatus, handleHealth,
    handleReconcile, handleListAddressBooks, handleAddAddressBook, handleDeleteAddressBook, handleBackfill,
    handleDashboardOverview, handleDashboardBalances, handleDashboardEvents.

Ltac prove_checked :=
  tests; cbn [checked valid_purge pr_Chain pr_Network pr_FromBlock pr_DryRun pr_Reason wa_Chain wa_Network wa_Address
    wa_IsActive ab_Chain ab_Network ab_Address ab_Name ab_OrgID app]; unfold valid_purge;
  split_and?; try done; try lia;
  try (apply Z.ltb_lt; apply (int_param_accepted _ (fun n => 0 <? n)); done);
  try (apply Z.leb_le; apply (int_param_accepted _ (fun n => 0 <=? n)); done).

Ltac prove_confirmed :=
  first [exact I|
    eexists; split; [eassumption|]; split_and!; [done|done|done|];
    let Hforce := fresh "Hforce" in intros Hforce; cbn [pr_Force] in Hforce; rewrite Hforce in *;
    match goal with |- ?b = true => destruct b; [done|discriminate] end].

(** Every route of the table makes guarded calls. *)
Lemma routes_guarded s r method path h : (method, path, h) ∈ @routes Health Run Balance Event ->
  method_matches method (hr_Method r) = true -> authorised s r -> always (guarded s r) [] (h s r).
Proof.
  intros Hin Hm Ha. unfold routes in Hin.
  assert (Hsame : method <> "GET" -> hr_Method r = method) by (intros Hne; by apply method_matches_eq).
  repeat (apply elem_of_cons in Hin as [[= -> -> ->]|Hin]); [..|by apply elem_of_nil in Hin];
    unfold_handler; walk; (split; [exact Ha|split; [intros m Hmethod; first [discriminate|injection Hmethod as <-; by apply Hsame]|]]);
    (split; [|prove_confirmed]); prove_checked.
Qed.

Lemma admin_mux_guarded s r : authorised s r -> always (guarded s r) [] (adminMux s r).
Proof.
  intros Ha. unfold adminMux. destruct (List.find _ _) as [[[method path] h]|] eqn:Hf; [|by destruct (existsb _ _)].
  apply List.find_some in Hf as [Hin [_ Hm]%andb_true_iff]. apply list_elem_of_In in Hin. by eapply routes_guarded.
Qed.

Lemma auth_guarded P s r (next : handler Health Run Balance Event) :
  (authorised s r -> always P [] (next s r)) -> always P [] (authMiddleware next s r).
Proof.
  intros Hn. unfold authMiddleware. destruct (str_empty (s_authToken s)) eqn:Ht.
  { apply Hn. left. by apply String.eqb_eq. }
  destruct (str_empty (hr_Authorization r)) eqn:He; [done|]. simpl.
  destruct (str_eqb _ _) eqn:Heq; [|done]. apply Hn. right. by apply String.eqb_eq.
Qed.

Lemma handler_guarded s r : always (guarded s r) [] (@Handler Health Run Balance Event s r).
Proof.
  unfold Handler. destruct (has_prefix _ "/admin/v1/"); [by apply auth_guarded, admin_mux_guarded|].
  destruct (str_eqb _ "/admin/v1"); [done|]. destruct (has_prefix _ _); [by apply auth_guarded|].
  destruct (str_eqb _ _); [by apply auth_guarded|done].
Qed.

(** C13: whatever the request and the answers, a request makes calls only with the token of the
    server, if it has one; it changes something only by POST, and deletes by DELETE; every call has
    arguments within their bounds, for a supported chain and network, and after the check
    for its pipeline or adapter; and a replay that overrides finality was confirmed. *)
Theorem admin_calls_guarded s r : always (guarded s r) [] (@Handler Health Run Balance Event s r).
Proof. apply handler_guarded. Qed.

(** ** Errors *)

(** Two answers that agree on values, on success and on whether a replay met a finalized block. *)
Definition similar_results {A} (same_error : go_error -> go_error -> Prop) (a b : result go_error A) : Prop :=
  match a, b with Ok x, Ok y => x = y | Err e, Err e' => same_error e e' | _, _ => False end.

Definition any_error (e e' : go_error) : Prop := True.
Definition same_finality (e e' : go_error) : Prop := is_finalized_error e = is_finalized_error e'.

Definition similar (c : call) : answer c -> answer c -> Prop :=
  match c with
  | CGetActive _ _ | CListBooks _ _ | CGetAllWatermarks | CCountWatchedAddresses | CGetBalanceSummary _ _
  | CUpsertAddress _ | CSetBackfill _ _ _ _ | CUpsertBook _ | CDeleteBook _ _ _ | CGetWatermark _ _ | CReplayWatermark _ _
  | CReconcileAny _ _ | CGetRecentEvents _ _ _ _ _ => similar_results any_error
  | CRequestReplay _ | CDryRunPurge _ => similar_results same_finality
  | CHasPipeline _ _ | CHasAdapter _ _ | CHealthSnapshots => eq
  end.

(** Programs that make the same calls and give the same response to similar answers. *)
Inductive alike : program -> program -> Prop :=
| alike_reply r : alike (Reply r) (Reply r)
| alike_act c k k' : (forall a b, similar c a b -> alike (k a) (k' b)) -> alike (Act c k) (Act c k').

Lemma alike_respond o o' p q : (forall c, similar c (o c) (o' c)) -> alike p q -> respond o p = respond o' q.
Proof. intros Ho. induction 1 as [|c k k' _ IH]; simpl; [done|]. apply IH, Ho. Qed.

Lemma alike_or_internal {A} (a b : result go_error A) k : similar_results any_error a b ->
  (forall x, alike (k x) (k x)) -> alike (or_internal a k) (or_internal b k).
Proof. intros Hs Hk. destruct a, b; simpl in *; try done; [by subst|constructor]. Qed.

Lemma alike_replay_response (a b : result go_error (option PurgeResult)) :
  similar_results same_finality a b -> alike (replay_response a) (replay_response b).
Proof.
  intros Hs. destruct a, b; simpl in *; try done; [subst; constructor|].
  rewrite Hs. destruct (is_finalized_error _); constructor.
Qed.

Ltac likewise :=
  repeat first
    [ apply alike_reply
    | apply alike_act; intros ? ? ?; cbn [similar answer] in *
    | apply alike_or_internal; [done|intros ?]
    | apply alike_replay_response; done
    | progress unfold requireChainNetworkQuery, decodeJSONBody, require_valid, require_dependency, reply, error
    | match goal with
      | H : ?a = ?b |- alike _ _ => is_var b; subst b
      | |- alike (if ?b then _ else _) _ => destruct b
      | |- alike (match ?o with Some _ => _ | None => _ end) _ => destruct o
      | H : similar_results _ ?a ?b |- alike (match ?a with Ok _ => _ | Err _ => _ end) _ =>
          destruct a, b; simpl in H; try done
      | |- alike (let '(_, _) := ?p in _) _ => destruct p
      end ].

Lemma routes_alike s r method path h : (method, path, h) ∈ @routes Health Run Balance Event -> alike (h s r) (h s r).
Proof.
  intros Hin. unfold routes in Hin.
  repeat (apply elem_of_cons in Hin as [[= -> -> ->]|Hin]); [..|by apply elem_of_nil in Hin];
    unfold_handler; likewise.
Qed.

(** Also: nothing of an error of a repository or service reaches the client: two runs whose
    answers differ only in what went wrong give the same response, except that a replay tells
    whether the block is finalized. *)
Theorem errors_hidden s r o o' : (forall c, similar c (o c) (o' c)) ->
  respond o (Handler s r) = respond o' (Handler s r).
Proof.
  intros Ho. apply alike_respond; [done|].
  assert (Hmux : alike (adminMux s r) (adminMux s r)).
  { unfold adminMux. destruct (List.find _ _) as [[[method path] h]|] eqn:Hf.
    - apply List.find_some in Hf as [Hin _]. apply list_elem_of_In in Hin. by eapply routes_alike.
    - destruct (existsb _ _); constructor. }
  unfold Handler, authMiddleware, static_files, handleDashboardIndex.
  repeat match goal with |- alike (if ?b then _ else _) _ => destruct b end; first [exact Hmux|constructor].
Qed.
End Programs.

(** ** Effects on the tables *)

Lemma serves {Health Run Balance Event} s r method path (h : handler Health Run Balance Event) :
  List.find (fun '(m, p, _) => str_eqb p path && method_matches m method) routes = Some (method, path, h) ->
  has_prefix path "/admin/v1/" = true -> hr_Method r = method -> hr_Path r = path -> authorised s r ->
  Handler s r = h s r.
Proof.
  intros Hf Hprefix Hm Hp Ha. unfold Handler. rewrite Hp, Hprefix. unfold authMiddleware, adminMux. rewrite Hp, Hm, Hf.
  destruct (str_empty (s_authToken s)) eqn:Ht; [done|].
  destruct Ha as [Ha|Ha]; [by rewrite Ha in Ht|].
  rewrite Ha. unfold str_eqb. by rewrite String.eqb_refl.
Qed.

Section Tables.
Context {Health Run Balance Event : Type} (oracle : forall c, @answer Health Run Balance Event c).
Context (fails : call -> option go_error) (name_le : relation AddressBookEntry) `{!RelDecision name_le}.
Abbreviation execute := (execute oracle fails name_le).

Definition watched_path : string := "/admin/v1/watched-addresses".
Definition backfill_path : string := "/admin/v1/backfill".

(** A request to add an address and one to list the addresses of its chain. *)
Definition adds (r : AdminServer.request) (chain network address : string) : Prop :=
  hr_Method r = "POST" /\ hr_Path r = watched_path /\
  (hr_Body r ≫= read_addWatchedAddressRequest) = Some {| wr_Chain := chain; wr_Network := network; wr_Address := address |}.

Definition lists (r : AdminServer.request) (chain network : string) : Prop :=
  hr_Method r = "GET" /\ hr_Path r = watched_path /\ hr_Query r "chain" = chain /\ hr_Query r "network" = network.

Lemma upsert_listed t addr : wa_IsActive addr = true ->
  exists w, w ∈ WatchedAddressRepo.GetActive (WatchedAddressRepo.Upsert t addr) (wa_Chain addr) (wa_Network addr) /\
    wa_Address w = wa_Address addr.
Proof.
  intros Hact. unfold WatchedAddressRepo.Upsert, WatchedAddressRepo.GetActive, WatchedAddressRepo.of_chain.
  case_bool_decide as Hin.
  - apply list_elem_of_fmap in Hin as (w & Hk & Hw). exists (WatchedAddressRepo.set_active true w).
    unfold WatchedAddressRepo.key_of in Hk. injection Hk as Hc Hn Ha. split; [|done].
    apply list_elem_of_filter. simpl. rewrite Hc, Hn, !String.eqb_refl. split; [done|].
    apply list_elem_of_fmap. exists w. split; [|done]. unfold WatchedAddressRepo.key_of.
    rewrite decide_True by congruence. by rewrite Hact.
  - exists (WatchedAddressRepo.set_backfill None addr). split; [|done]. apply list_elem_of_filter. simpl.
    rewrite !String.eqb_refl, Hact. split; [done|]. apply elem_of_app. right. apply list_elem_of_here.
Qed.

(** Also: an address that was added with status 201 is in the list of the active addresses of its
    chain and network when that is asked for next. *)
Theorem added_is_listed s post get chain network address t t' :
  authorised s post -> authorised s get -> adds post chain network address -> lists get chain network ->
  execute (Handler s post) t = ({| rs_Status := 201; rs_Body := BSuccess |}, t') ->
  fails (CGetActive chain network) = None ->
  exists l w, execute (Handler s get) t' = ({| rs_Status := 200; rs_Body := BWatched l |}, t') /\
    w ∈ l /\ wp_Address w = address /\ wp_Active w = true.
Proof.
  intros Hpost Hget (Hm & Hp & Hbody) (Hm' & Hp' & Hchain & Hnetwork) Hrun Hok.
  rewrite (serves s post "POST" watched_path (fun _ => handleAddWatchedAddress)) in Hrun by done.
  rewrite (serves s get "GET" watched_path (fun _ => handleListWatchedAddresses)) by done.
  unfold handleAddWatchedAddress, decodeJSONBody in Hrun. rewrite Hbody in Hrun. cbn [wr_Chain wr_Network wr_Address] in Hrun.
  destruct (str_empty chain || str_empty network || str_empty address) eqn:Hempty; [by injection Hrun|].
  unfold require_valid in Hrun. destruct (validateChainNetwork chain network) eqn:Hv; [|by injection Hrun].
  apply orb_false_iff in Hempty as [[Hc Hn]%orb_false_iff Ha].
  unfold handleListWatchedAddresses, requireChainNetworkQuery. rewrite Hchain, Hnetwork, Hc, Hn, Hv. simpl.
  unfold attempt. rewrite Hok. simpl in Hrun |- *. unfold attempt in Hrun.
  destruct (fails (CUpsertAddress _)); simpl in Hrun; [by injection Hrun|]. injection Hrun as <-. simpl.
  edestruct (upsert_listed (tb_watched t)) as (w & Hw & Haddr); [shelve|].
  eexists _, _. split; [reflexivity|]. split; [apply list_elem_of_fmap; exists w; split; [reflexivity|exact Hw]|].
  simpl in *. split; [done|].
  apply list_elem_of_filter in Hw as [Hact _]. by apply andb_true_iff in Hact as [_ ?].
  Unshelve. done.
Qed.

(** A request to backfill addresses. *)
Definition backfills (r : AdminServer.request) (chain network : string) (addresses : list string) (fromBlock : Z) : Prop :=
  hr_Method r = "POST" /\ hr_Path r = backfill_path /\ validateChainNetwork chain network = true /\ 0 <= fromBlock /\
  1 <= Z.of_nat (length addresses) <= 1000 /\
  exists reason, (hr_Body r ≫= read_backfillRequest) = Some {| br_Chain := chain; br_Network := network;
    br_Addresses := addresses; br_FromBlock := Some fromBlock; br_Reason := reason |}.

(** Also: a backfill request is answered with the number of addresses it names, also when none of
    them is an active address of the chain and nothing is flagged. *)
Theorem backfill_counts_unwatched s r chain network addresses fromBlock t :
  authorised s r -> backfills r chain network addresses fromBlock ->
  fails (CSetBackfill chain network addresses fromBlock) = None ->
  (forall w, w ∈ WatchedAddressRepo.GetActive (tb_watched t) chain network -> wa_Address w ∉ addresses) ->
  execute (Handler s r) t =
    ({| rs_Status := 200; rs_Body := BBackfill fromBlock (Z.of_nat (length addresses)) |}, t).
Proof.
  intros Ha (Hm & Hp & Hv & Hfrom & Hlen & reason & Hbody) Hok Hnone.
  rewrite (serves s r "POST" backfill_path (fun _ => handleBackfill)) by done.
  unfold handleBackfill, decodeJSONBody. rewrite Hbody. cbn [br_FromBlock br_Chain br_Network br_Addresses].
  assert (str_empty chain = false /\ str_empty network = false) as [-> ->].
  { unfold validateChainNetwork in Hv. apply andb_true_iff in Hv as [Hc Hn]. by destruct chain, network. }
  replace (length addresses =? 0)%nat with false by (symmetry; apply Nat.eqb_neq; lia). cbn [orb].
  rewrite (proj2 (Z.ltb_ge fromBlock 0)), (proj2 (Z.ltb_ge 1000 (Z.of_nat (length addresses)))) by lia.
  unfold require_valid. rewrite Hv. simpl. unfold attempt. rewrite Hok. simpl. f_equal.
  destruct t as [watched books]. unfold on_watched. simpl in *. f_equal.
  destruct addresses as [|a l]; [simpl in Hlen; lia|]. simpl.
  rewrite <- (list_fmap_id watched) at 2. apply list_fmap_ext. intros i w Hw.
  destruct (WatchedAddressRepo.of_chain chain network w) eqn:Hoc; simpl; [|done].
  destruct (wa_IsActive w) eqn:Hact; [|by rewrite andb_false_r]. rewrite andb_true_r.
  match goal with |- (if ?b then _ else _) = _ => destruct b eqn:Hin end; [|done].
  exfalso. apply (Hnone w).
  - apply list_elem_of_filter. rewrite Hoc, Hact. split; [done|]. by eapply list_elem_of_lookup_2.
  - change (existsb (String.eqb (wa_Address w)) (a :: l) = true) in Hin. apply existsb_exists in Hin as (x & Hx & Heq).
    apply String.eqb_eq in Heq as ->. by apply list_elem_of_In.
Qed.
End Tables.

(** ** Authentication of the stack *)

Lemma bearer_is_not_basic token : BasicAuth ("Bearer " +:+ token) = None.
Proof. reflexivity. Qed.

Section Stack.
Context {Health Run Balance Event : Type} (oracle : forall c, @answer Health Run Balance Event c).
Context {L : Type} {rate_limiter : RateLimiter L}.

(** Also: with a user, a password and a token configured no request to the API gets through: both
    middlewares read the same header, one wants it to start with Basic and the other with
    Bearer. *)
Theorem both_auth_locks_out c r w now (m : gmap string (limiterEntry L)) :
  srv_AdminAuthUser c <> EmptyString -> srv_AdminAuthPass c <> EmptyString -> srv_AdminAuthToken c <> EmptyString ->
  has_prefix (hr_Path r) "/admin/v1/" = true ->
  let rs := (admin_stack c oracle r w now m).1.1 in
  rs = {| rs_Status := 401; rs_Body := BEmpty |} \/ rs = {| rs_Status := 401; rs_Body := BError "Unauthorized" |} \/
  rs = too_many.
Proof.
  intros Hu Hp Ht Hpath rs.
  assert (Hinner : basicAuthMiddleware (srv_AdminAuthUser c) (srv_AdminAuthPass c) (hr_Authorization r) = true ->
    (AuditMiddleware oracle Handler (admin_server c) r).1 = {| rs_Status := 401; rs_Body := BError "Unauthorized" |}).
  { intros Hb. unfold AuditMiddleware, Handler, authMiddleware. rewrite Hpath. cbn [s_authToken admin_server fst].
    rewrite (proj2 (String.eqb_neq _ _) Ht : str_empty _ = false).
    destruct (str_eqb (hr_Authorization r) _) eqn:Heq; [|by rewrite orb_true_r].
    apply String.eqb_eq in Heq. unfold basicAuthMiddleware in Hb. by rewrite Heq, bearer_is_not_basic in Hb. }
  subst rs. unfold admin_stack.
  rewrite (proj2 (String.eqb_neq _ _) Hu : str_empty _ = false), (proj2 (String.eqb_neq _ _) Hp : str_empty _ = false).
  cbn [negb andb]. destruct (basicAuthMiddleware _ _ _); [|by left].
  specialize (Hinner eq_refl). destruct (srv_AdminRateLimitEnabled c); [|by right; left].
  destruct (Wrap w now now m) as [[] m']; [by right; left|by right; right].
Qed.

(** Also: with a user but neither a password nor a token the start takes the admin API for
    protected, and every request that the rate limit lets through is served whatever
    credentials it has. *)
Theorem user_without_password_open cfg r w now (m : gmap string (limiterEntry L)) :
  let c := cfg_Server cfg in
  srv_AdminAuthUser c <> EmptyString -> srv_AdminAuthPass c = EmptyString -> srv_AdminAuthToken c = EmptyString ->
  srv_AdminRateLimitEnabled c = false \/ (Wrap w now now m).1 = true ->
  admin_unprotected cfg = false /\ authorised (admin_server c) r /\
  (admin_stack c oracle r w now m).1 = AuditMiddleware oracle Handler (admin_server c) r.
Proof.
  intros c Hu Hp Ht Hlimit. split_and!.
  - unfold admin_unprotected. fold c. rewrite (proj2 (String.eqb_neq _ _) Hu : str_empty _ = false). by rewrite andb_false_r.
  - by left.
  - unfold admin_stack. rewrite Hp, andb_false_r. destruct (srv_AdminRateLimitEnabled c); [|done].
    destruct Hlimit as [?|Hok]; [done|]. destruct (Wrap w now now m) as [[] m']; done.
Qed.
End Stack.

(** ** Witnesses *)

Module AdminExamples.
Definition oracle (err : go_error) (c : call) : @answer unit unit unit unit c :=
  match c with
  | CHasPipeline _ _ | CHasAdapter _ _ => true
  | CHealthSnapshots => tt
  | CGetActive _ _ | CUpsertAddress _ | CSetBackfill _ _ _ _ | CGetWatermark _ _ | CRequestReplay _ | CDryRunPurge _
  | CReplayWatermark _ _ | CReconcileAny _ _ | CListBooks _ _ | CUpsertBook _ | CDeleteBook _ _ _ | CGetAllWatermarks
  | CCountWatchedAddresses | CGetBalanceSummary _ _ | CGetRecentEvents _ _ _ _ _ => Err err
  end.

Definition server : Server :=
  {| s_replayReq := true; s_healthProvider := true; s_reconcileReq := true; s_addressBookRepo := true;
     s_dashboardRepo := true; s_authToken := "secret" |}.

Definition request (method path authorization : string) (body : option json) : AdminServer.request :=
  {| hr_Method := method; hr_Path := path; hr_Authorization := authorization; hr_Body := body;
     hr_Query := fun k => if str_eqb k "chain" then "base" else if str_eqb k "network" then "mainnet" else "" |}.

Definition post_address : AdminServer.request :=
  request "POST" watched_path "Bearer secret"
    (Some (JObject [("chain", JString "base"); ("network", JString "mainnet"); ("address", JString "0xaa")])).
Definition get_addresses : AdminServer.request := request "GET" watched_path "Bearer secret" None.
Definition post_backfill : AdminServer.request :=
  request "POST" backfill_path "Bearer secret"
    (Some (JObject [("chain", JString "base"); ("network", JString "mainnet"); ("addresses", JArray [JString "0xbb"]);
                    ("from_block", JNumber "7")])).
Definition replay_request : AdminServer.request :=
  request "POST" "/admin/v1/replay" "Bearer secret"
    (Some (JObject [("chain", JString "base"); ("network", JString "mainnet"); ("from_block", JNumber "7")])).

Definition no_tables : tables := {| tb_watched := []; tb_books := [] |}.
Definition any_order (x y : AddressBookEntry) : Prop := True.
#[export] Instance any_order_dec : RelDecision any_order := fun _ _ => left I.

#[export] Instance always_allow : RateLimiter unit := { new_limiter _ := tt; allow _ _ := (true, tt) }.
Definition wired : AdminRateLimit.request := wire post_address "192.0.2.1:99" "" "".

Definition protected_twice : ServerConfig :=
  {| srv_HealthPort := 8080; srv_MetricsAuthUser := ""; srv_MetricsAuthPass := ""; srv_AdminAddr := ":9090";
     srv_AdminAuthUser := "admin"; srv_AdminAuthPass := "pass"; srv_AdminAuthToken := "secret";
     srv_AdminRateLimitEnabled := true; srv_AdminRequireAuth := true |}.
Definition with_server (c : Config) (srv : ServerConfig) : Config :=
  mkConfig (cfg_DB c) (cfg_Sidecar c) (cfg_Solana c) (cfg_Base c) (cfg_Ethereum c) (cfg_BTC c) (cfg_Polygon c)
    (cfg_Arbitrum c) (cfg_BSC c) (cfg_Runtime c) (cfg_Pipeline c) srv (cfg_Log c) (cfg_Tracing c) (cfg_Alert c)
    (cfg_Reconciliation c) (cfg_ReorgDetector c).
Definition user_only : Config :=
  with_server zero_Config
    {| srv_HealthPort := 8080; srv_MetricsAuthUser := ""; srv_MetricsAuthPass := ""; srv_AdminAddr := ":9090";
       srv_AdminAuthUser := "admin"; srv_AdminAuthPass := ""; srv_AdminAuthToken := "";
       srv_AdminRateLimitEnabled := true; srv_AdminRequireAuth := true |}.

Example basic_header : BasicAuth "Basic YWRtaW46cGFzcw==" = Some ("admin", "pass").
Proof. vm_compute. reflexivity. Qed.
End AdminExamples.
Import AdminExamples.

Lemma errors_hidden_witness :
  respond (oracle ECanceled) (Handler server replay_request) = respond (oracle (EMsg "dial tcp 10.0.0.7:5432")) (Handler server replay_request).
Proof.
  refine (errors_hidden server replay_request (oracle ECanceled) (oracle (EMsg "dial tcp 10.0.0.7:5432")) _).
  intros []; cbv; trivial.
Defined.

Lemma added_is_listed_witness :
  exists l w, execute (oracle ECanceled) (fun _ => None) any_order (Handler server get_addresses)
      (execute (oracle ECanceled) (fun _ => None) any_order (Handler server post_address) no_tables).2 =
    ({| rs_Status := 200; rs_Body := BWatched l |},
     (execute (oracle ECanceled) (fun _ => None) any_order (Handler server post_address) no_tables).2) /\
    w ∈ l /\ wp_Address w = "0xaa" /\ wp_Active w = true.
Proof.
  refine (added_is_listed (oracle ECanceled) (fun _ => None) any_order server post_address get_addresses "base" "mainnet" "0xaa"
    no_tables _ _ _ _ _ _ eq_refl); [by right|by right|by split_and!|by split_and!|reflexivity].
Defined.

Lemma backfill_counts_unwatched_witness :
  execute (oracle ECanceled) (fun _ => None) any_order (Handler server post_backfill) no_tables =
  ({| rs_Status := 200; rs_Body := BBackfill 7 1 |}, no_tables).
Proof.
  refine (backfill_counts_unwatched (oracle ECanceled) (fun _ => None) any_order server post_backfill "base" "mainnet" ["0xbb"] 7
    no_tables _ _ eq_refl _); [by right| |by intros w ?%elem_of_nil].
  split_and!; try reflexivity; try (vm_compute; discriminate). by exists "".
Defined.

Lemma both_auth_locks_out_witness :
  let rs := (admin_stack protected_twice (oracle ECanceled) post_address wired 5 ∅).1.1 in
  rs = {| rs_Status := 401; rs_Body := BEmpty |} \/ rs = {| rs_Status := 401; rs_Body := BError "Unauthorized" |} \/
  rs = too_many.
Proof.
  refine (both_auth_locks_out (oracle ECanceled) protected_twice post_address wired 5 ∅ _ _ _ eq_refl); discriminate.
Defined.

Lemma user_without_password_open_witness :
  admin_unprotected user_only = false /\ authorised (admin_server (cfg_Server user_only)) post_address /\
  (admin_stack (cfg_Server user_only) (oracle ECanceled) post_address wired 5 ∅).1 =
  AuditMiddleware (oracle ECanceled) Handler (admin_server (cfg_Server user_only)) post_address.
Proof.
  refine (user_without_password_open (oracle ECanceled) user_only post_address wired 5 ∅ _ eq_refl eq_refl (or_intror eq_refl)).
  discriminate.
Defined.
