(* ===== verification/Registry.v ===== *)
(** * The pipelines behind the admin API: [internal/pipeline/registry.go],
    [internal/pipeline/registry_replay_adapter.go]

    The registry maps chain and network to the running pipeline, and gives the admin API the
    calls it makes for replays and health.  A replay is run by the loop of its pipeline
    ([Lifecycle]) between two runs, when its stages are gone; here it is the purge of
    [Replay] on the tables, which the loop has taken or not when the caller stops waiting.
    Programs of the API run against the registry and the tables. *)

From Stdlib Require Import ZArith String Ascii Lia.
From stdpp Require Import base option strings gmap list.
From S2P Require Import Prelude Retry Domain Store Effects Replay Json JsonTree Net AdminServer AdminStack.

Open Scope list_scope.
Open Scope Z_scope.

(** ** The registry *)

Section Registry.
(** A pipeline, what it was configured for, and the snapshot of its health. *)
Context {P Snapshot : Type} (cfg_Chain : P -> Chain) (cfg_Network : P -> Network) (snapshot : P -> Snapshot).

#[local] Abbreviation registry := (gmap string P).

Definition key_of (chain : Chain) (network : Network) : string := chain +:+ ":" +:+ network.
Definition NewRegistry : registry := ∅.
Definition Register (r : registry) (p : P) : registry := <[key_of (cfg_Chain p) (cfg_Network p) := p]> r.
Definition Get (r : registry) (chain : Chain) (network : Network) : option P := r !! key_of chain network.

(** In whatever order the map is visited. *)
Definition AllPipelines (visit : registry -> list P) (r : registry) : list P := visit r.
Definition HealthSnapshots (visit : registry -> list P) (r : registry) : list Snapshot := snapshot <$> visit r.

(** ** The adapter *)

Definition HasPipeline (r : registry) (chain : Chain) (network : Network) : bool :=
  match Get r chain network with Some _ => true | None => false end.

(** [Pipeline.RequestReplay] waits for the loop: it gets the reply, or its context ends
    first, before or after the loop has taken the request. *)
Inductive wait := Replied | GaveUp (taken : bool) (err : go_error).

Context {C : Type} (E : env) (waits : P -> PurgeRequest -> wait).

Definition Pipeline_RequestReplay (p : P) (req : PurgeRequest) : M C (option PurgeResult) := fun w =>
  match waits p req with
  | Replied => bind (PurgeFromBlock E req) (fun res => ret (Some res)) w
  | GaveUp taken err => (Err err, if taken then (PurgeFromBlock E req w).2 else w)
  end.

Definition RequestReplay (r : registry) (req : PurgeRequest) : M C (option PurgeResult) :=
  match Get r (pr_Chain req) (pr_Network req) with
  | None => ret None
  | Some p => Pipeline_RequestReplay p req
  end.

Definition as_dry_run (req : PurgeRequest) : PurgeRequest :=
  {| pr_Chain := pr_Chain req; pr_Network := pr_Network req; pr_FromBlock := pr_FromBlock req; pr_DryRun := true;
     pr_Force := pr_Force req; pr_Reason := pr_Reason req |}.

Definition DryRunPurge (req : PurgeRequest) : M C (option PurgeResult) :=
  bind (PurgeFromBlock E (as_dry_run req)) (fun res => ret (Some res)).

(** The heartbeat of a watermark is another column of its row. *)
Context (heartbeat : Chain -> Network -> Z).

Definition ReplayWatermark (chain : Chain) (network : Network) : M C (option PipelineWatermark) :=
  query_committed E (fun d =>
    (fun seq => {| wm_Chain := chain; wm_Network := network; wm_IngestedSequence := seq;
                   wm_LastHeartbeatAt := heartbeat chain network |}) <$> WatermarkRepo.GetWatermark d chain network).

(** ** Programs of the API *)

Context {Health Run Balance Event : Type} (oracle : forall c, @answer Health Run Balance Event c).

Definition ask (r : registry) (c : call) (w : world C) : @answer Health Run Balance Event c * world C :=
  match c with
  | CHasPipeline chain network => (HasPipeline r chain network, w)
  | CRequestReplay req => RequestReplay r req w
  | CDryRunPurge req => DryRunPurge req w
  | CReplayWatermark chain network => ReplayWatermark chain network w
  | c => (oracle c, w)
  end.

Fixpoint serve (r : registry) (p : program Health Run Balance Event) (w : world C)
    : response Health Run Balance Event * world C :=
  match p with
  | Reply rs => (rs, w)
  | Act c k => let '(a, w') := ask r c w in serve r (k a) w'
  end.
End Registry.
