(* ===== verification/RegistryProofs.v ===== *)
(** * The admin API over the pipelines

    What a request to the admin API does to the tables of the ledger, whichever pipelines are
    registered and whatever fails: nothing, or one purge that was authorised, checked and
    confirmed. *)

From Stdlib Require Import ZArith String Ascii Lia.
From stdpp Require Import base option strings gmap list.
From S2P Require Import Prelude Retry Domain Store Ledger Effects Replay Json JsonTree Net AdminRateLimit AdminServer AdminStack AdminProofs Registry.

Open Scope list_scope.
Open Scope Z_scope.

Lemma purge_dry {C} (E : env) req (w : world C) : pr_DryRun req = true -> w_db (PurgeFromBlock E req w).2 = w_db w.
Proof.
  intros Hd. assert (Hin : in_tx (C:=C) (PurgeFromBlock E req)); [|apply Hin].
  apply (PurgeFromBlock_by E (fun m => in_tx m)); [auto with eff..|]. rewrite Hd. auto with eff.
Qed.

Section Api.
Context {P Health Run Balance Event : Type} {C : Type} (E : env) (waits : P -> PurgeRequest -> wait).
Context (heartbeat : Chain -> Network -> Z) (oracle : forall c, @answer Health Run Balance Event c) (r : gmap string P).
#[local] Abbreviation do_ask := (ask E waits heartbeat oracle r).
#[local] Abbreviation do_serve := (serve E waits heartbeat oracle r).

(** The tables as a purge leaves them. *)
Definition purged_by (req : PurgeRequest) (w w' : world C) : Prop :=
  HasPipeline r (pr_Chain req) (pr_Network req) = true /\
  exists w1 : world C, w_db w1 = w_db w /\ w_db w' = w_db (PurgeFromBlock E req w1).2.

Lemma ask_effect c (w : world C) :
  w_db (do_ask c w).2 = w_db w \/ exists req, c = CRequestReplay req /\ purged_by req w (do_ask c w).2.
Proof.
  destruct c; simpl; auto.
  - unfold RequestReplay, purged_by, HasPipeline. destruct (Get r _ _) as [p|] eqn:Hget; [|by left].
    unfold Pipeline_RequestReplay. destruct (waits p req) as [|[] err]; simpl.
    + right. exists req. rewrite Hget. split_and!; try done. exists w. split; [done|]. unfold bind.
      by destruct (PurgeFromBlock E req w) as [[res|e] w'].
    + right. exists req. rewrite Hget. split_and!; try done. by exists w.
    + by left.
  - left. unfold DryRunPurge, bind. pose proof (purge_dry E (as_dry_run req) w eq_refl) as Hd.
    by destruct (PurgeFromBlock E (as_dry_run req) w) as [[res|e] w'].
  - left. unfold ReplayWatermark, query_committed. by destruct (env_fault _ _).
Qed.

(** A request of the API: its replay, if the tables change. *)
Record replayed (s : Server) (rq : AdminServer.request) (req : PurgeRequest) : Prop := {
  re_authorised : authorised s rq;
  re_method : hr_Method rq = "POST"%string;
  re_valid : valid_purge req;
  re_real : pr_DryRun req = false;
  re_confirmed : confirmed rq (CRequestReplay req)
}.

Lemma serve_effect s rq p : forall h (w : world C), always (guarded s rq) h p ->
  w_db (do_serve p w).2 = w_db w \/
  exists req, (length h <= 1)%nat /\ replayed s rq req /\ purged_by req w (do_serve p w).2.
Proof.
  induction p as [rs|c k IH]; intros h w; [by left|]. intros [Hg Hk]. cbn [serve].
  pose proof (ask_effect c w) as Ha. destruct (do_ask c w) as [a w1]. simpl in Ha.
  specialize (IH a (h ++ [existT c a]) w1 (Hk a)). rewrite length_app in IH. simpl in IH.
  destruct Ha as [Ha|(req & -> & Hreg & w2 & Hw2 & Hw1)].
  - destruct IH as [->|(req & Hlen & Hr & Hreg & w2 & Hw2 & Hw')]; [by left|]. right. exists req.
    split; [lia|]. split; [done|]. split; [done|]. exists w2. split; [congruence|done].
  - destruct Hg as (Hauth & Hm & (Hv & Hd & Hh) & Hc). rewrite Hh in IH |- *. simpl in IH.
    destruct IH as [Hsame|(? & Hlen & _)]; [|lia]. right. exists req. split; [simpl; lia|].
    split; [by constructor; auto|]. split; [done|]. exists w2. split; [done|congruence].
Qed.

(** The purge meets at most one applied event of each address and token, as in
    [purge_keeps_ledger]. *)
Definition one_per_key (req : PurgeRequest) (d : db) : Prop :=
  NoDup (event_key <$> filter (fun e => applied e = true) (rollback_rows (pr_Chain req) (pr_Network req) (pr_FromBlock req) d)).

(** C12: A request to the admin API, whatever it holds, whichever pipelines are registered,
    whatever call fails and whenever the caller gives up, leaves the tables of the ledger as
    they are, or does to them what one purge does; and then the request had the token, was a
    POST, named a registered pipeline and a block, was no dry run, and confirmed that it
    overrides finality if it does.  Balances that were the sum of the events are so afterwards
    if no two applied events from the block on belong to one (address, token); with two of
    them a purge reverses only one ([purge_reverses_one_delta] of [Replay]). *)
Theorem api_keeps_ledger `{!EnvOk E} (s : Server) (rq : AdminServer.request) (w : world C) :
  ids_ok (w_db w) -> Forall row_canonical (db_events (w_db w)) -> ledger_ok (w_db w) ->
  let w' := (do_serve (Handler s rq) w).2 in
  w_db w' = w_db w \/
  exists req, replayed s rq req /\ purged_by req w w' /\ (one_per_key req (w_db w) -> ledger_ok (w_db w')).
Proof.
  intros Hids Hcanon Hledger w'.
  destruct (serve_effect s rq (Handler s rq) [] w (handler_guarded s rq)) as [Hsame|(req & _ & Hr & Hp)]; [by left|].
  right. exists req. split; [done|]. split; [done|]. intros Hkeys. destruct Hp as (_ & w1 & Hw1 & Hw'). unfold w'. rewrite Hw'.
  destruct (PurgeFromBlock_lands E req ledger_ok (w_db w)
    (executePurge_lands E req (w_db w) Hids Hcanon Hledger Hkeys) w1 Hw1) as [->|?]; [by rewrite Hw1|done].
Qed.
End Api.

(** ** Requests *)

Definition replay_body (dry force : bool) : json :=
  JObject [("chain", JString "base"); ("network", JString "mainnet"); ("from_block", JNumber "9");
           ("dry_run", JBool dry); ("force", JBool force); ("reason", JString "test")].

Definition replay_post (dry force : bool) : AdminServer.request :=
  {| hr_Method := "POST"; hr_Path := "/admin/v1/replay"; hr_Query := fun _ => EmptyString; hr_Authorization := EmptyString;
     hr_Body := Some (replay_body dry force) |}.

Definition open_server : Server :=
  {| s_replayReq := true; s_healthProvider := true; s_reconcileReq := true; s_addressBookRepo := true;
     s_dashboardRepo := true; s_authToken := EmptyString |}.

Definition quiet_oracle (c : call) : @answer unit unit unit unit c :=
  match c with
  | CHasPipeline _ _ | CHasAdapter _ _ => false
  | CHealthSnapshots => tt
  | CGetActive _ _ | CUpsertAddress _ | CSetBackfill _ _ _ _ | CUpsertBook _ | CDeleteBook _ _ _ | CGetWatermark _ _
  | CReplayWatermark _ _ | CRequestReplay _ | CDryRunPurge _ | CReconcileAny _ _ | CListBooks _ _ | CGetAllWatermarks
  | CCountWatchedAddresses | CGetBalanceSummary _ _ | CGetRecentEvents _ _ _ _ _ => Err (EMsg "off")
  end.

Definition base_registry : gmap string unit := Register (fun _ => "base") (fun _ => "mainnet") NewRegistry tt.

Definition served (rq : AdminServer.request) :=
  serve calm (fun _ _ => Replied) (fun _ _ => 0) quiet_oracle base_registry (Handler open_server rq)
    (world_of tt (sample_db sample_rows 10)).

(** A replay from block 9 purges it, and the balances follow; a forced one that is not
    confirmed is refused. *)
Lemma api_keeps_ledger_witness :
  rs_Status (served (replay_post false false)).1 = 200 /\
  rs_Status (served (replay_post false true)).1 = 400 /\
  ledger_ok (w_db (served (replay_post false false)).2).
Proof.
  split; [vm_compute; reflexivity|]. split; [vm_compute; reflexivity|].
  destruct (api_keeps_ledger calm (fun _ _ => Replied) (fun _ _ => 0) quiet_oracle base_registry open_server
    (replay_post false false) (world_of tt (sample_db sample_rows 10))
    (sample_ids_ok 10) (sample_canonical 10) sample_ledger_ok) as [Hsame|(req & [_ _ _ _ Hbody] & _ & Hl)].
  - apply (f_equal (fun d => length (db_events d))) in Hsame. vm_compute in Hsame. discriminate Hsame.
  - apply Hl. destruct Hbody as (body & Hbody & Hchain & Hnetwork & Hfrom & _). vm_compute in Hbody.
    injection Hbody as <-. cbn in Hchain, Hnetwork, Hfrom. injection Hfrom as Hfrom.
    unfold one_per_key. rewrite Hchain, Hnetwork, <- Hfrom. apply (bool_decide_unpack _). vm_compute. exact I.
Defined.
