(* ===== verification/Database.v ===== *)
(** * The database connection and the migrations: [internal/store/postgres/db.go]

    The statement timeout of the connection, the settings of the pool, and the migrations,
    which a table records.  The schema is the names of the migrations whose statements ran,
    in order; calls to the database fail with or without effect. *)

From Stdlib Require Import ZArith String Ascii Lia Sorted.
From stdpp Require Import base option strings gmap sorting list.
From S2P Require Import Prelude Config Retry Store.

Open Scope list_scope.
Open Scope Z_scope.
Open Scope go_scope.

(** ** The connection *)

Definition dbStatementTimeoutDefaultMS : Z := 30000.
Definition dbStatementTimeoutMinMS : Z := 0.
Definition dbStatementTimeoutMaxMS : Z := 3600000.

Record DBSettings := {
  ds_URL : string; ds_MaxOpenConns : Z; ds_MaxIdleConns : Z; ds_ConnMaxLifetime : Z; ds_ConnMaxIdleTime : Z;
  ds_StatementTimeoutMS : Z
}.

Definition getEnvIntBounded (env : Env) (key : string) (fallback lo hi : Z) : result go_error Z :=
  let v := trim_space (default EmptyString (env key)) in
  if str_empty v then Ok fallback
  else
    match parse_int64 v with
    | None => Err (EMsg "must be an integer")
    | Some value =>
        if (value <? lo) || (hi <? value) then Err (EMsg ("must be within [" +:+ show_Z lo +:+ ", " +:+ show_Z hi +:+ "]"))
        else Ok value
    end.

Definition resolveStatementTimeoutMS (env : Env) (cfg : DBSettings) : result go_error Z :=
  if negb (ds_StatementTimeoutMS cfg =? 0) then
    if (ds_StatementTimeoutMS cfg <? dbStatementTimeoutMinMS) || (dbStatementTimeoutMaxMS <? ds_StatementTimeoutMS cfg)
    then Err (EMsg ("statement timeout " +:+ show_Z (ds_StatementTimeoutMS cfg) +:+ " out of allowed range [" +:+
                    show_Z dbStatementTimeoutMinMS +:+ ", " +:+ show_Z dbStatementTimeoutMaxMS +:+ "]"))
    else Ok (ds_StatementTimeoutMS cfg)
  else
    match getEnvIntBounded env "DB_STATEMENT_TIMEOUT_MS" dbStatementTimeoutDefaultMS dbStatementTimeoutMinMS
            dbStatementTimeoutMaxMS with
    | Ok ms => Ok ms
    | Err err => Err (EWrap "DB_STATEMENT_TIMEOUT_MS" err)
    end.

Definition appendStatementTimeout (url : string) (timeoutMS : Z) : string :=
  url +:+ (if contains url "?" then "&" else "?") +:+ "options=-c%20statement_timeout%3D" +:+ show_Z timeoutMS.

Record pool := { po_URL : string; po_MaxOpen : Z; po_MaxIdle : Z; po_Lifetime : Z; po_IdleTime : Z }.

(** [open_] and [ping] are the errors of the driver, if any. *)
Definition New (env : Env) (open_ : string -> option go_error) (ping : pool -> option go_error) (cfg : DBSettings)
    : result go_error pool :=
  match resolveStatementTimeoutMS env cfg with
  | Err err => Err (EWrap "resolve statement timeout" err)
  | Ok ms =>
      let connURL := if 0 <? ms then appendStatementTimeout (ds_URL cfg) ms else ds_URL cfg in
      match open_ connURL with
      | Some err => Err (EWrap "open db" err)
      | None =>
          let db := {| po_URL := connURL; po_MaxOpen := ds_MaxOpenConns cfg; po_MaxIdle := ds_MaxIdleConns cfg;
                       po_Lifetime := ds_ConnMaxLifetime cfg;
                       po_IdleTime := if 0 <? ds_ConnMaxIdleTime cfg then ds_ConnMaxIdleTime cfg else 120 * Second |} in
          match ping db with Some err => Err (EWrap "ping db" err) | None => Ok db end
      end
  end.

(** ** Migrations *)

(** A call works, or fails, with its effect or without. *)
Inductive fault := Works | Fails (applied : bool) (err : go_error).

(** What [schema_migrations] records, and the migrations whose statements ran. *)
Record schema := { sc_recorded : gset string; sc_executed : list string }.

Definition executed (version : string) (s : schema) : schema :=
  {| sc_recorded := sc_recorded s; sc_executed := sc_executed s ++ [version] |}.
Definition recorded (version : string) (s : schema) : schema :=
  {| sc_recorded := {[version]} ∪ sc_recorded s; sc_executed := sc_executed s |}.

(** The [n]th call with effect [f]. *)
Definition attempt (faults : nat -> fault) (text : string) (f : schema -> schema) (n : nat) (s : schema)
    : result go_error unit * nat * schema :=
  match faults n with
  | Works => (Ok tt, S n, f s)
  | Fails applied err => (Err (EWrap text err), S n, if applied then f s else s)
  end.

(** One migration: is it recorded, its file, the lock timeout, its statements, the record. *)
Definition run_one (faults : nat -> fault) (unread : string -> option go_error) (version : string) (n : nat) (s : schema)
    : result go_error unit * nat * schema :=
  match attempt faults ("check migration " +:+ version) id n s with
  | (Err err, n, s) => (Err err, n, s)
  | (Ok _, n, s) =>
      if decide (version ∈ sc_recorded s) then (Ok tt, n, s)
      else
        match unread version with
        | Some err => (Err (EWrap ("read migration " +:+ version) err), n, s)
        | None =>
            match attempt faults ("set lock_timeout for migration " +:+ version) id n s with
            | (Err err, n, s) => (Err err, n, s)
            | (Ok _, n, s) =>
                match attempt faults ("exec migration " +:+ version) (executed version) n s with
                | (Err err, n, s) => (Err err, n, s)
                | (Ok _, n, s) => attempt faults ("record migration " +:+ version) (recorded version) n s
                end
            end
        end
  end.

Fixpoint run_all (faults : nat -> fault) (unread : string -> option go_error) (versions : list string) (n : nat) (s : schema)
    : result go_error unit * nat * schema :=
  match versions with
  | [] => (Ok tt, n, s)
  | version :: rest =>
      match run_one faults unread version n s with
      | (Err err, n, s) => (Err err, n, s)
      | (Ok _, n, s) => run_all faults unread rest n s
      end
  end.

Definition string_le (a b : string) : Prop := String.leb a b = true.
#[export] Instance string_le_dec : RelDecision string_le := fun a b => decide (String.leb a b = true).

(** The migrations of the directory, in the order of their names. *)
Definition RunMigrations (faults : nat -> fault) (unread : string -> option go_error) (files : list string) (s : schema)
    : result go_error unit * schema :=
  match attempt faults "create schema_migrations" id 0 s with
  | (Err err, _, s) => (Err err, s)
  | (Ok _, n, s) => let '(r, _, s) := run_all faults unread (merge_sort string_le files) n s in (r, s)
  end.

(** Runs of the process, each with its own failures. *)
Definition runs (files : list string) (s : schema) (l : list ((nat -> fault) * (string -> option go_error))) : schema :=
  foldl (fun s '(faults, unread) => (RunMigrations faults unread files s).2) s l.

Definition empty_schema : schema := {| sc_recorded := ∅; sc_executed := [] |}.

(** ** Properties *)

Lemma split_unique {A} (v : A) a : forall a' b b', NoDup (a ++ v :: b) -> a ++ v :: b = a' ++ v :: b' -> a = a'.
Proof.
  induction a as [|x a IH]; intros [|x' a'] b b' Hnd Heq; simpl in *; [done| | |].
  - injection Heq as <- ->. apply NoDup_cons in Hnd as [Hv _]. set_solver.
  - injection Heq as -> _. apply NoDup_cons in Hnd as [Hv _]. set_solver.
  - injection Heq as <- Heq. apply NoDup_cons in Hnd as [_ Hnd]. f_equal. by eapply IH.
Qed.

Section Order.
Context (versions : list string) (Hnodup : NoDup versions).

(** What was recorded was executed, and what was executed was executed after everything
    before it in the order was. *)
Record in_order (s : schema) : Prop := {
  io_recorded : forall v, v ∈ sc_recorded s -> v ∈ sc_executed s;
  io_earlier : forall l1 v l2 a b u, sc_executed s = l1 ++ v :: l2 -> versions = a ++ v :: b -> u ∈ a -> u ∈ l1
}.

Lemma in_order_recorded v s : in_order s -> v ∈ sc_executed s -> in_order (recorded v s).
Proof. intros [Hr He] Hv. split; [|exact He]. intros u. simpl. set_solver. Qed.

Lemma in_order_executed v a b s : in_order s -> versions = a ++ v :: b -> (forall u, u ∈ a -> u ∈ sc_executed s) ->
  in_order (executed v s).
Proof.
  intros [Hr He] Hv Ha. split; simpl; [set_solver|]. intros l1 x l2 a' b' u Heq Hx Hu.
  destruct l2 as [|y l2 _] using rev_ind.
  - apply app_inj_tail in Heq as [<- <-]. apply Ha. rewrite Hv in Hx.
    assert (a = a') as ->; [|done]. eapply split_unique; [|exact Hx]. by rewrite <- Hv.
  - rewrite app_comm_cons, app_assoc in Heq. apply app_inj_tail in Heq as [Heq _]. by eapply He.
Qed.

(** The state during a run: what the run has passed is recorded. *)
Definition passed (a : list string) (s : schema) : Prop := in_order s /\ forall u, u ∈ a -> u ∈ sc_recorded s.

Lemma run_one_order faults unread a v b n s : versions = a ++ v :: b -> passed a s ->
  match run_one faults unread v n s with
  | (Ok _, _, s') => passed (a ++ [v]) s'
  | (Err _, _, s') => in_order s'
  end.
Proof.
  intros Hv [Ho Ha].
  assert (Hex : in_order (executed v s)) by (eapply in_order_executed; [done..|]; intros u Hu; by apply Ho, Ha).
  assert (Hrec : in_order (recorded v (executed v s))) by (apply in_order_recorded; [done|simpl; set_solver]).
  assert (Hdone : passed (a ++ [v]) (recorded v (executed v s))) by (split; [done|simpl; set_solver]).
  unfold run_one, attempt. repeat case_match; simplify_eq; try done; try (split; [done|set_solver]).
Qed.

Lemma run_all_order faults unread rest : forall a n s, versions = a ++ rest -> passed a s ->
  match run_all faults unread rest n s with
  | (Ok _, _, s') => passed versions s'
  | (Err _, _, s') => in_order s'
  end.
Proof.
  induction rest as [|v rest IH]; intros a n s Hv Hp; simpl; [by rewrite Hv, app_nil_r|].
  pose proof (run_one_order faults unread a v rest n s Hv Hp) as H1.
  destruct (run_one _ _ _ _ _) as [[[[]|err] n'] s']; [|done]. apply (IH (a ++ [v])); [|done]. by rewrite <- app_assoc.
Qed.
End Order.

Lemma RunMigrations_order faults unread files s : NoDup files -> in_order (merge_sort string_le files) s ->
  in_order (merge_sort string_le files) (RunMigrations faults unread files s).2 /\
  ((RunMigrations faults unread files s).1 = Ok tt -> forall v, v ∈ files -> v ∈ sc_recorded (RunMigrations faults unread files s).2).
Proof.
  intros Hnd Ho. set (vs := merge_sort string_le files).
  assert (Hvs : NoDup vs) by (unfold vs; by rewrite merge_sort_Permutation).
  unfold RunMigrations, attempt. fold vs. destruct (faults 0%nat) as [|applied err]; [|by destruct applied].
  pose proof (run_all_order vs Hvs faults unread vs [] 1 s eq_refl) as H.
  destruct (run_all _ _ _ _ _) as [[[[]|err] n'] s']; simpl in *.
  - destruct H as [H1 H2]; [split; [done|set_solver]|]. split; [done|]. intros _ v Hv. apply H2. unfold vs.
    by rewrite merge_sort_Permutation.
  - split; [apply H; split; [done|set_solver]|done].
Qed.

Lemma runs_order files l : forall s, NoDup files -> in_order (merge_sort string_le files) s ->
  in_order (merge_sort string_le files) (runs files s l).
Proof.
  unfold runs. induction l as [|[f u] l IH]; intros s Hnd Hs; [done|]. apply IH; [done|]. by apply RunMigrations_order.
Qed.

Lemma empty_in_order versions : in_order versions empty_schema.
Proof. split; [set_solver|]. intros l1 v l2 a b u Heq. by destruct l1. Qed.

(** C40: However often the process starts and whatever fails, a migration runs only after all
    migrations before it in the order of their names have run, a recorded one has run, and a
    start that reports success leaves all of them run and recorded. *)
Theorem migrations_in_order (files : list string) (l : list ((nat -> fault) * (string -> option go_error))) faults unread :
  NoDup files ->
  let s := runs files empty_schema l in
  let s' := (RunMigrations faults unread files s).2 in
  in_order (merge_sort string_le files) s /\
  ((RunMigrations faults unread files s).1 = Ok tt -> forall v, v ∈ files -> v ∈ sc_recorded s' /\ v ∈ sc_executed s').
Proof.
  intros Hnd s s'. assert (Ho : in_order (merge_sort string_le files) s) by (apply runs_order; [done|apply empty_in_order]).
  destruct (RunMigrations_order faults unread files s Hnd Ho) as [Ho' Hall]. split; [done|].
  intros Hok v Hv. split; [|apply Ho']; by apply Hall.
Qed.

(** Without failures a run executes what is not recorded, once and in order. *)
Definition missing (s : schema) (versions : list string) : list string := filter (fun v => v ∉ sc_recorded s) versions.

Lemma schema_eq s s' : sc_recorded s = sc_recorded s' -> sc_executed s = sc_executed s' -> s = s'.
Proof. destruct s, s'. simpl. congruence. Qed.

Lemma filter_agree {A} (P Q : A -> Prop) `{!forall x, Decision (P x), !forall x, Decision (Q x)} (l : list A) :
  (forall x, x ∈ l -> P x <-> Q x) -> filter P l = filter Q l.
Proof.
  intros Hpq. induction l as [|x l IH]; [done|]. rewrite !filter_cons, IH by set_solver.
  specialize (Hpq x ltac:(left)).
  destruct (decide (P x)), (decide (Q x)); naive_solver.
Qed.

(** What a quiet run leaves. *)
Definition caught_up (versions : list string) (s : schema) : schema :=
  {| sc_recorded := list_to_set versions ∪ sc_recorded s; sc_executed := sc_executed s ++ missing s versions |}.

Lemma caught_up_cons v vs s : v ∉ vs ->
  caught_up (v :: vs) s = caught_up vs (if decide (v ∈ sc_recorded s) then s else recorded v (executed v s)).
Proof.
  intros Hv. unfold caught_up, missing. destruct (decide (v ∈ sc_recorded s)) as [Hr|Hr]; apply schema_eq; simpl.
  - set_solver.
  - by rewrite filter_cons_False by naive_solver.
  - set_solver.
  - rewrite filter_cons_True, <- app_assoc by done. simpl. do 2 f_equal. apply filter_agree.
    intros u Hu. set_solver.
Qed.

Lemma run_all_quiet versions : forall n s, NoDup versions ->
  exists n', run_all (fun _ => Works) (fun _ => None) versions n s = (Ok tt, n', caught_up versions s).
Proof.
  induction versions as [|v vs IH]; intros n s Hnd.
  { exists n. simpl. f_equal. apply schema_eq; simpl; [set_solver|by rewrite app_nil_r]. }
  apply NoDup_cons in Hnd as [Hv Hnd]. rewrite caught_up_cons by done. simpl. unfold run_one, attempt. simpl.
  destruct (decide (v ∈ sc_recorded s)) as [Hr|Hr]; apply IH; done.
Qed.

(** Also: A run without failures executes the migrations that are not recorded, each once and in
    order, and the next run executes nothing. *)
Theorem migrations_complete (files : list string) (s : schema) : NoDup files ->
  let run s := RunMigrations (fun _ => Works) (fun _ => None) files s in
  let vs := merge_sort string_le files in
  run s = (Ok tt, caught_up vs s) /\ sc_executed (run (run s).2).2 = sc_executed (run s).2.
Proof.
  intros Hnd run vs. assert (Hvs : NoDup vs) by (unfold vs; by rewrite merge_sort_Permutation).
  assert (Hrun : forall s, run s = (Ok tt, caught_up vs s)).
  { intros s0. unfold run, RunMigrations, attempt. simpl. fold vs. by destruct (run_all_quiet vs 1 s0 Hvs) as [n' ->]. }
  split; [done|]. rewrite !Hrun. cbn [snd]. set (s1 := caught_up vs s). simpl.
  assert (missing s1 vs = []) as ->; [|apply app_nil_r]. unfold missing.
  assert (Hin : forall v, v ∈ vs -> v ∈ sc_recorded s1) by (intros v Hv; simpl; set_solver). revert Hin. generalize vs.
  intros l Hin. induction l as [|v l IH]; [done|]. rewrite filter_cons_False by (intros Hv; apply Hv, Hin; set_solver).
  apply IH. set_solver.
Qed.

(** Also: The statements of a migration and its record are two calls: when the second one is
    lost, the migration runs again. *)
Theorem migration_runs_twice (version : string) (s : schema) err :
  version ∉ sc_recorded s -> version ∉ sc_executed s ->
  let lost n := if (n =? 4)%nat then Fails false err else Works in
  let '(r, s') := RunMigrations lost (fun _ => None) [version] s in
  r = Err (EWrap ("record migration " +:+ version) err) /\
  sc_executed (RunMigrations (fun _ => Works) (fun _ => None) [version] s').2 = sc_executed s ++ [version; version].
Proof.
  intros Hrec Hex lost. unfold RunMigrations, attempt, run_all, run_one. simpl.
  rewrite decide_False by done. simpl. split; [done|]. rewrite decide_False by done. simpl. by rewrite <- app_assoc.
Qed.

(** ** Witnesses *)

Definition sample_files : list string := ["002_tables.up.sql"; "001_create.up.sql"]%string.

(** The second migration fails at its record, the next start finishes. *)
Definition sample_lost (n : nat) : fault := if (n =? 8)%nat then Fails false (EMsg "connection reset") else Works.

Lemma migrations_in_order_witness :
  let s := runs sample_files empty_schema [(sample_lost, fun _ => None)] in
  sc_executed s = ["001_create.up.sql"; "002_tables.up.sql"]%string /\ in_order (merge_sort string_le sample_files) s /\
  sc_executed (RunMigrations (fun _ => Works) (fun _ => None) sample_files s).2 =
    ["001_create.up.sql"; "002_tables.up.sql"; "002_tables.up.sql"]%string.
Proof.
  split; [vm_compute; reflexivity|]. split; [|vm_compute; reflexivity].
  assert (Hnd : NoDup sample_files) by (apply (bool_decide_unpack _); vm_compute; exact I).
  exact (proj1 (migrations_in_order sample_files [(sample_lost, fun _ => None)] (fun _ => Works) (fun _ => None) Hnd)).
Defined.

Lemma migrations_complete_witness :
  (RunMigrations (fun _ => Works) (fun _ => None) sample_files empty_schema).1 = Ok tt.
Proof.
  assert (Hnd : NoDup sample_files) by (apply (bool_decide_unpack _); vm_compute; exact I).
  exact (f_equal fst (proj1 (migrations_complete sample_files empty_schema Hnd))).
Defined.

Lemma migration_runs_twice_witness :
  let s' := (RunMigrations (fun n => if (n =? 4)%nat then Fails false (EMsg "reset") else Works) (fun _ => None)
    ["001_create.up.sql"%string] empty_schema).2 in
  sc_executed (RunMigrations (fun _ => Works) (fun _ => None) ["001_create.up.sql"%string] s').2 =
    ["001_create.up.sql"; "001_create.up.sql"]%string.
Proof.
  exact (proj2 (migration_runs_twice "001_create.up.sql" empty_schema (EMsg "reset")
    (not_elem_of_empty _) (not_elem_of_nil _))).
Defined.

Example timeout_appended :
  appendStatementTimeout "postgres://db/custody?sslmode=disable" 30000 =
    "postgres://db/custody?sslmode=disable&options=-c%20statement_timeout%3D30000"%string.
Proof. reflexivity. Qed.
