(* ===== verification/Dashboard.v ===== *)
(** * Reads of the dashboard and of the runtime configuration:
    [internal/store/postgres/dashboard_repo.go], [runtime_config_repo.go]

    The queries on the tables of [Store] and [AddressIndex].  The order the database gives
    to rows that its ORDER BY leaves open is an argument; creation times are not modelled, so
    the order among the events of a block is open too. *)

From Stdlib Require Import ZArith String Lia.
From stdpp Require Import base option strings gmap list.
From S2P Require Import Prelude Retry Domain Store AddressIndex.

Open Scope list_scope.
Open Scope Z_scope.

(** ** Tokens by identifier *)

Definition token_by_id (d : db) (id : uuid) : option Token :=
  (fun kv => kv.2.1.2) <$> List.find (fun kv => (kv.2.1.1 =? id)%N) (map_to_list (db_tokens d)).

Definition token_symbol (t : option Token) : string := from_option tk_Symbol EmptyString t.
Definition token_name (t : option Token) : string := from_option tk_Name EmptyString t.
Definition token_decimals (t : option Token) : Z := from_option tk_Decimals 0 t.

(** ** [GetBalanceSummary] *)

Record DashboardTokenBalance := {
  tb_TokenSymbol : string; tb_TokenName : string; tb_Decimals : Z; tb_Amount : string; tb_BalanceType : string
}.
Record DashboardAddressBalance := {
  ab_Address : string; ab_Label : option string; ab_WalletID : option string; ab_Balances : list DashboardTokenBalance
}.

(** A row of the join: the watched address, and the token balance with what COALESCE makes of
    a missing one. *)
Record summary_row := { sr_watched : WatchedAddress; sr_balance : DashboardTokenBalance }.

Definition no_balance : DashboardTokenBalance :=
  {| tb_TokenSymbol := EmptyString; tb_TokenName := EmptyString; tb_Decimals := 0; tb_Amount := "0"; tb_BalanceType := EmptyString |}.

Definition balance_of (d : db) (b : balance_pk * balance_row) : DashboardTokenBalance :=
  let '((_, _, _, id, balanceType), row) := b in
  let t := token_by_id d id in
  {| tb_TokenSymbol := token_symbol t; tb_TokenName := token_name t; tb_Decimals := token_decimals t;
     tb_Amount := show_Z (bal_amount row); tb_BalanceType := balanceType |}.

Definition has_address (wa : WatchedAddress) (b : balance_pk * balance_row) : bool :=
  let '((chain, network, address, _, _), _) := b in
  String.eqb chain (wa_Chain wa) && String.eqb network (wa_Network wa) && String.eqb address (wa_Address wa).

Definition balances_of (d : db) (wa : WatchedAddress) : list DashboardTokenBalance :=
  balance_of d <$> filter (fun b => has_address wa b = true) (map_to_list (db_balances d)).

Definition join_row (d : db) (wa : WatchedAddress) : list summary_row :=
  (fun b => {| sr_watched := wa; sr_balance := b |}) <$>
    match balances_of d wa with [] => [no_balance] | l => l end.

(** The rows are gathered by address, in the order of the first one. *)
Definition gathered : Type := gmap string DashboardAddressBalance * list string.

Definition add_balance (b : DashboardTokenBalance) (ab : DashboardAddressBalance) : DashboardAddressBalance :=
  if str_empty (tb_TokenSymbol b) then ab
  else {| ab_Address := ab_Address ab; ab_Label := ab_Label ab; ab_WalletID := ab_WalletID ab;
          ab_Balances := ab_Balances ab ++ [b] |}.

Definition new_entry (wa : WatchedAddress) : DashboardAddressBalance :=
  {| ab_Address := wa_Address wa; ab_Label := wa_Label wa; ab_WalletID := wa_WalletID wa; ab_Balances := [] |}.

Definition gather (g : gathered) (row : summary_row) : gathered :=
  let '(addrMap, order) := g in
  let wa := sr_watched row in
  let address := wa_Address wa in
  match addrMap !! address with
  | Some ab => (<[address := add_balance (sr_balance row) ab]> addrMap, order)
  | None => (<[address := add_balance (sr_balance row) (new_entry wa)]> addrMap, order ++ [address])
  end.

(** [sort] orders the rows by address and symbol. *)
Definition GetBalanceSummary (sort : list summary_row -> list summary_row) (d : db) (watched : WatchedAddressRepo.table)
    (chain : Chain) (network : Network) : list DashboardAddressBalance :=
  let '(addrMap, order) := foldl gather (∅, []) (sort (WatchedAddressRepo.GetActive watched chain network ≫= join_row d)) in
  omap (fun address => addrMap !! address) order.

(** ** [GetRecentEvents] *)

Record DashboardEvent := {
  de_TxHash : string; de_Address : string; de_CounterpartyAddress : string; de_ActivityType : ActivityType; de_Delta : string;
  de_TokenSymbol : string; de_Decimals : Z; de_BlockCursor : Z; de_BlockTime : option Z; de_FinalityState : string
}.

Definition dashboard_event (d : db) (r : event_row) : DashboardEvent :=
  let be := ev_cols r in
  let t := token_by_id d (be_TokenID be) in
  {| de_TxHash := be_TxHash be; de_Address := be_Address be; de_CounterpartyAddress := be_CounterpartyAddress be;
     de_ActivityType := be_ActivityType be; de_Delta := be_Delta be; de_TokenSymbol := token_symbol t;
     de_Decimals := token_decimals t; de_BlockCursor := be_BlockCursor be; de_BlockTime := be_BlockTime be;
     de_FinalityState := be_FinalityState be |}.

Definition event_matches (chain : Chain) (network : Network) (address : string) (r : event_row) : bool :=
  let be := ev_cols r in
  String.eqb (be_Chain be) chain && String.eqb (be_Network be) network &&
  (str_empty address || String.eqb (be_Address be) address).

Definition matching_events (d : db) (chain : Chain) (network : Network) (address : string) : list event_row :=
  filter (fun r => event_matches chain network address r = true) (db_events d).

Definition page_limit (limit : Z) : Z := if (limit <=? 0) || (200 <? limit) then 50 else limit.

(** The total comes with the rows of the page. *)
Definition GetRecentEvents (sort : list event_row -> list event_row) (d : db) (chain : Chain) (network : Network)
    (address : string) (limit offset : Z) : list DashboardEvent * Z :=
  let rows := sort (matching_events d chain network address) in
  let offset := if offset <? 0 then 0 else offset in
  let page := take (Z.to_nat (page_limit limit)) (drop (Z.to_nat offset) rows) in
  (dashboard_event d <$> page, match page with [] => 0 | _ => Z.of_nat (length rows) end).

(** ** The other reads *)

Definition GetAllWatermarks (sort : list (Chain * Network * Z) -> list (Chain * Network * Z)) (d : db)
    : list (Chain * Network * Z) :=
  sort ((fun kv => (kv.1.1, kv.1.2, kv.2)) <$> map_to_list (db_watermarks d)).

Definition CountWatchedAddresses (watched : WatchedAddressRepo.table) : Z :=
  Z.of_nat (length (filter (fun wa => wa_IsActive wa = true) watched)).

Record runtime_config := { rc_chain : Chain; rc_network : Network; rc_key : string; rc_value : string; rc_active : bool }.

(** [RuntimeConfigRepo.GetActive] *)
Definition GetActiveConfigs (table : list runtime_config) (chain : Chain) (network : Network) : gmap string string :=
  foldl (fun m r => <[rc_key r := rc_value r]> m) ∅
    (filter (fun r => String.eqb (rc_chain r) chain && String.eqb (rc_network r) network && rc_active r = true) table).
