(* ===== verification/DashboardProofs.v ===== *)
(** * What the dashboard shows

    The summary has every active address once, with the balances of its tokens that have a
    symbol; the pages of the events put together are the events. *)

From Stdlib Require Import ZArith String Lia.
From stdpp Require Import base option strings gmap sorting list.
From S2P Require Import Prelude Retry Domain Store Effects Replay AddressIndex Dashboard.

Open Scope list_scope.
Open Scope Z_scope.

(** ** Gathering rows *)

Definition row_address (row : summary_row) : string := wa_Address (sr_watched row).
Definition named (b : DashboardTokenBalance) : bool := negb (str_empty (tb_TokenSymbol b)).
Definition rows_at (a : string) (l : list summary_row) : list summary_row := filter (fun row => row_address row = a) l.

Definition entry_of (l : list summary_row) : option DashboardAddressBalance :=
  match l with
  | [] => None
  | row :: _ => Some {| ab_Address := row_address row; ab_Label := wa_Label (sr_watched row);
                        ab_WalletID := wa_WalletID (sr_watched row);
                        ab_Balances := filter (fun b => named b = true) (sr_balance <$> l) |}
  end.

Lemma entry_of_snoc l row : entry_of (l ++ [row]) =
  Some (add_balance (sr_balance row) (default (new_entry (sr_watched row)) (entry_of l))).
Proof.
  unfold add_balance, named. destruct l as [|r l]; simpl.
  - rewrite filter_cons. unfold named. by destruct (str_empty _).
  - rewrite !filter_cons, fmap_app, filter_app. simpl. rewrite filter_cons, filter_nil. unfold named.
    destruct (str_empty (tb_TokenSymbol (sr_balance row))); simpl; destruct (decide _); by rewrite ?app_nil_r.
Qed.

Lemma rows_at_snoc a l row : rows_at a (l ++ [row]) = rows_at a l ++ (if decide (row_address row = a) then [row] else []).
Proof. unfold rows_at. by rewrite filter_app. Qed.

Lemma entry_of_none l : entry_of l = None <-> l = [].
Proof. by destruct l. Qed.

Lemma gather_spec l : let '(m, order) := foldl gather (∅, []) l in
  (forall a, m !! a = entry_of (rows_at a l)) /\ NoDup order /\ (forall a, a ∈ order <-> rows_at a l <> []).
Proof.
  induction l as [|row l IH] using rev_ind.
  { split_and!; [intros a; by rewrite lookup_empty|constructor|intros a; split; [by intros ?%elem_of_nil|done]]. }
  rewrite foldl_app. simpl. destruct (foldl gather (∅, []) l) as [m order]. destruct IH as (Hm & Hnd & Hord).
  unfold gather. change (wa_Address (sr_watched row)) with (row_address row). rewrite Hm. set (x := row_address row).
  assert (Hmap : forall a, <[x := add_balance (sr_balance row) (default (new_entry (sr_watched row)) (entry_of (rows_at x l)))]> m !! a =
    entry_of (rows_at a (l ++ [row]))).
  { intros a. rewrite rows_at_snoc. fold x. destruct (decide (x = a)) as [<-|Hne].
    - by rewrite lookup_insert_eq, entry_of_snoc.
    - by rewrite lookup_insert_ne, app_nil_r. }
  destruct (entry_of (rows_at x l)) as [ab|] eqn:He; simpl in Hmap; (split; [exact Hmap|]).
  - split; [done|]. intros a. rewrite rows_at_snoc, Hord. fold x. destruct (decide (x = a)) as [<-|_]; [|by rewrite app_nil_r].
    split; [by destruct (rows_at x l)|]. intros _ Hn. by rewrite Hn in He.
  - apply entry_of_none in He. split.
    + apply NoDup_app. split_and!; [done| |apply NoDup_singleton]. intros a Ha ->%list_elem_of_singleton.
      by apply Hord in Ha.
    + intros a. rewrite rows_at_snoc, elem_of_app, Hord, list_elem_of_singleton. fold x.
      destruct (decide (x = a)) as [<-|Hne]; [split; [by destruct (rows_at x l)|by right]|].
      rewrite app_nil_r. naive_solver.
Qed.

(** ** The rows of an address *)

Lemma join_row_watched d wa row : row ∈ join_row d wa -> sr_watched row = wa.
Proof. unfold join_row. by intros (b & -> & _)%list_elem_of_fmap. Qed.

Lemma rows_at_join d wa : rows_at (wa_Address wa) (join_row d wa) = join_row d wa.
Proof.
  assert (H : forall l, (forall row, row ∈ l -> sr_watched row = wa) -> rows_at (wa_Address wa) l = l).
  { induction l as [|row l IH]; intros Hl; [done|]. unfold rows_at. rewrite filter_cons_True.
    - f_equal. apply IH. set_solver.
    - unfold row_address. f_equal. apply Hl. set_solver. }
  apply H, join_row_watched.
Qed.

Lemma rows_at_other d wa a : wa_Address wa <> a -> rows_at a (join_row d wa) = [].
Proof.
  intros Hne. assert (H : forall l, (forall row, row ∈ l -> sr_watched row = wa) -> rows_at a l = []).
  { induction l as [|row l IH]; intros Hl; [done|]. unfold rows_at. rewrite filter_cons_False.
    - apply IH. set_solver.
    - unfold row_address. rewrite Hl by set_solver. done. }
  apply H, join_row_watched.
Qed.

Lemma rows_at_app a l l' : rows_at a (l ++ l') = rows_at a l ++ rows_at a l'.
Proof. apply filter_app. Qed.

Lemma rows_at_absent d (L : list WatchedAddress) a : a ∉ (wa_Address <$> L) -> rows_at a (L ≫= join_row d) = [].
Proof.
  induction L as [|y L IH]; intros Ha; [done|]. rewrite fmap_cons in Ha. apply not_elem_of_cons in Ha as [Hne Ha].
  by rewrite bind_cons, rows_at_app, (IH Ha), rows_at_other.
Qed.

Lemma rows_at_bind d (L : list WatchedAddress) wa : NoDup (wa_Address <$> L) -> wa ∈ L ->
  rows_at (wa_Address wa) (L ≫= join_row d) = join_row d wa.
Proof.
  induction L as [|x L IH]; intros Hnd Hin; [by apply elem_of_nil in Hin|]. rewrite fmap_cons in Hnd.
  apply NoDup_cons in Hnd as [Hx Hnd]. rewrite bind_cons, rows_at_app. apply elem_of_cons in Hin as [->|Hin].
  - by rewrite rows_at_join, rows_at_absent, app_nil_r.
  - rewrite rows_at_other, IH; [done..|]. intros Heq. apply Hx. rewrite Heq. by apply list_elem_of_fmap_2.
Qed.

Lemma join_row_nonempty d wa : join_row d wa <> [].
Proof. unfold join_row. by destruct (balances_of d wa). Qed.

Lemma join_row_named d wa : filter (fun b => named b = true) (sr_balance <$> join_row d wa) =
  filter (fun b => named b = true) (balances_of d wa).
Proof.
  unfold join_row. rewrite <- list_fmap_compose. destruct (balances_of d wa) as [|b l]; [done|].
  f_equal. rewrite <- (list_fmap_id (b :: l)) at 2. by apply list_fmap_ext.
Qed.

Lemma active_addresses watched chain network : NoDup (WatchedAddressRepo.key_of <$> watched) ->
  NoDup (wa_Address <$> WatchedAddressRepo.GetActive watched chain network).
Proof.
  intros Hu. apply (NoDup_fmap_1 (fun a => (chain, network, a))). rewrite <- list_fmap_compose.
  assert (Heq : (fun wa => (chain, network, wa_Address wa)) <$> WatchedAddressRepo.GetActive watched chain network =
    WatchedAddressRepo.key_of <$> WatchedAddressRepo.GetActive watched chain network).
  { apply list_fmap_ext. intros i wa Hwa%list_elem_of_lookup_2. unfold WatchedAddressRepo.GetActive in Hwa.
    apply list_elem_of_filter in Hwa as [[Hc _]%andb_true_iff _]. unfold WatchedAddressRepo.of_chain in Hc.
    apply andb_true_iff in Hc as [Hc%String.eqb_eq Hn%String.eqb_eq]. unfold WatchedAddressRepo.key_of. congruence. }
  unfold compose. rewrite Heq. eapply sublist_NoDup; [exact Hu|]. apply fmap_sublist, sublist_filter.
Qed.

(** ** What the queries return *)

(** Also: The summary of the balances has every active watched address of the chain once, with
    its label and wallet, and its balances are the stored ones of its tokens that have a
    symbol; balances of other tokens are not shown. *)
Theorem balance_summary_exact (sort : list summary_row -> list summary_row) (d : db) (watched : WatchedAddressRepo.table)
    (chain : Chain) (network : Network) :
  (forall l, sort l ≡ₚ l) -> NoDup (WatchedAddressRepo.key_of <$> watched) ->
  let summary := GetBalanceSummary sort d watched chain network in
  let active := WatchedAddressRepo.GetActive watched chain network in
  ab_Address <$> summary ≡ₚ wa_Address <$> active /\
  forall ab, ab ∈ summary -> exists wa, wa ∈ active /\ ab_Address ab = wa_Address wa /\ ab_Label ab = wa_Label wa /\
    ab_WalletID ab = wa_WalletID wa /\ ab_Balances ab ≡ₚ filter (fun b => named b = true) (balances_of d wa).
Proof.
  intros Hsort Hu summary active. pose proof (active_addresses watched chain network Hu) as Hnd. fold active in Hnd.
  unfold summary, GetBalanceSummary. fold active. set (rows := active ≫= join_row d).
  pose proof (gather_spec (sort rows)) as Hg. destruct (foldl gather (∅, []) (sort rows)) as [m order].
  destruct Hg as (Hm & Hndo & Hord).
  assert (Hat : forall a, rows_at a (sort rows) ≡ₚ rows_at a rows) by (intros a; unfold rows_at; by rewrite Hsort).
  assert (Hmem : forall a, a ∈ order <-> a ∈ (wa_Address <$> active)).
  { intros a. rewrite Hord. split.
    - intros Hne. destruct (decide (a ∈ wa_Address <$> active)) as [|Hno]; [done|]. exfalso. apply Hne.
      apply Permutation_nil. by rewrite Hat; unfold rows; rewrite rows_at_absent.
    - intros (wa & -> & Hwa)%list_elem_of_fmap Hn. pose proof (Hat (wa_Address wa)) as Hp. rewrite Hn in Hp.
      unfold rows in Hp. rewrite rows_at_bind in Hp by done. apply Permutation_nil in Hp. by apply join_row_nonempty in Hp. }
  assert (Hentry : forall a, a ∈ order -> exists ab wa, m !! a = Some ab /\ wa ∈ active /\ wa_Address wa = a /\
    ab_Address ab = a /\ ab_Label ab = wa_Label wa /\ ab_WalletID ab = wa_WalletID wa /\
    ab_Balances ab ≡ₚ filter (fun b => named b = true) (balances_of d wa)).
  { intros a Ha. pose proof Ha as (wa & -> & Hwa)%Hmem%list_elem_of_fmap. rewrite Hm.
    pose proof (Hat (wa_Address wa)) as Hp. unfold rows in Hp. rewrite rows_at_bind in Hp by done.
    fold rows in Hp. destruct (rows_at (wa_Address wa) (sort rows)) as [|row l] eqn:Hrows; [by apply Hord in Ha|].
    assert (Hrow : sr_watched row = wa) by (apply (join_row_watched d); rewrite <- Hp; left).
    exists {| ab_Address := row_address row; ab_Label := wa_Label (sr_watched row); ab_WalletID := wa_WalletID (sr_watched row);
              ab_Balances := filter (fun b => named b = true) (sr_balance <$> row :: l) |}, wa.
    rewrite <- join_row_named. unfold row_address at 2. cbn [ab_Address ab_Label ab_WalletID ab_Balances]. rewrite !Hrow.
    split; [cbn [entry_of]; by rewrite Hrow|]. split_and!; [done..|]. by rewrite Hp. }
  assert (Homap : ab_Address <$> omap (fun a => m !! a) order = order).
  { clear Hord Hmem Hndo. induction order as [|a l IH]; [done|]. simpl.
    destruct (Hentry a ltac:(left)) as (ab & wa & -> & _ & _ & Ha & _). simpl. rewrite Ha. f_equal. apply IH. set_solver. }
  split; [rewrite Homap; by apply NoDup_Permutation|].
  intros ab (a & Ha & Hma)%list_elem_of_omap. destruct (Hentry a Ha) as (ab' & wa & Hab & Hwa & <- & H).
  rewrite Hma in Hab. injection Hab as <-. exists wa. split; [done|]. exact H.
Qed.

Definition sample_watched (address : string) (active : bool) : WatchedAddress :=
  {| wa_Chain := "base"; wa_Network := "mainnet"; wa_Address := address; wa_WalletID := None; wa_OrganizationID := None;
     wa_Label := Some "cold"%string; wa_IsActive := active; wa_Source := "db"; wa_BackfillFromBlock := None |}.

Lemma balance_summary_exact_witness :
  let watched := [sample_watched "alice" true; sample_watched "bob" false; sample_watched "carol" true] in
  let summary := GetBalanceSummary (fun l => l) (sample_db sample_rows 10) watched "base" "mainnet" in
  ab_Address <$> summary ≡ₚ wa_Address <$> WatchedAddressRepo.GetActive watched "base" "mainnet".
Proof.
  intros watched summary.
  refine (proj1 (balance_summary_exact (fun l => l) (sample_db sample_rows 10) watched "base" "mainnet" _ _)).
  - reflexivity.
  - apply (bool_decide_unpack _). vm_compute. exact I.
Defined.

Example summary_of_sample :
  ab_Address <$> GetBalanceSummary (fun l => l) (sample_db sample_rows 10)
    [sample_watched "alice" true; sample_watched "bob" false; sample_watched "carol" true] "base" "mainnet" =
  ["alice"; "carol"]%string.
Proof. vm_compute. reflexivity. Qed.

(** ** Pages *)

Lemma page_limit_id n : 1 <= n <= 200 -> page_limit n = n.
Proof. intros Hn. unfold page_limit. destruct (Z.leb_spec n 0), (Z.ltb_spec 200 n); simpl; lia. Qed.

Lemma concat_pages {A B} (f : A -> B) (n : nat) (l : list A) k :
  concat ((fun i => f <$> take n (drop (i * n) l)) <$> seq 0 k) = f <$> take (k * n) l.
Proof.
  induction k as [|k IH]; [done|]. rewrite seq_S, fmap_app, concat_app, IH. simpl. rewrite app_nil_r.
  rewrite <- fmap_app, (Nat.add_comm n), <- take_take_drop. done.
Qed.

(** Also: The pages of a size the endpoint accepts, put together, are all matching events, each
    once and in the order of the database; the total is their number on every page that is
    not empty and zero beyond; and a size above 200 gives pages of 50. *)
Theorem events_paged (sort : list event_row -> list event_row) (d : db) (chain : Chain) (network : Network) (address : string)
    (n : Z) (k : nat) :
  1 <= n <= 200 ->
  let all := sort (matching_events d chain network address) in
  let page i := GetRecentEvents sort d chain network address n (Z.of_nat i * n) in
  (Z.of_nat (length all) <= Z.of_nat k * n -> concat (fst <$> (page <$> seq 0 k)) = dashboard_event d <$> all) /\
  (forall i, (page i).2 = if Z.of_nat i * n <? Z.of_nat (length all) then Z.of_nat (length all) else 0) /\
  (forall big offset, 200 < big ->
     GetRecentEvents sort d chain network address big offset = GetRecentEvents sort d chain network address 50 offset).
Proof.
  intros Hn all page. set (m := Z.to_nat n).
  assert (Hpage : forall i, page i = let p := take m (drop (i * m) all) in
    (dashboard_event d <$> p, match p with [] => 0 | _ => Z.of_nat (length all) end)).
  { intros i. unfold page, GetRecentEvents. fold all. rewrite page_limit_id by done.
    destruct (Z.ltb_spec (Z.of_nat i * n) 0); [lia|].
    by replace (Z.to_nat (Z.of_nat i * n)) with (i * m)%nat by (unfold m; lia). }
  split_and!.
  - intros Hk. rewrite <- list_fmap_compose.
    rewrite (list_fmap_ext _ (fun i => dashboard_event d <$> take m (drop (i * m) all))) by (intros i x _; unfold compose; by rewrite Hpage).
    rewrite concat_pages, take_ge by (unfold m; lia). done.
  - intros i. rewrite Hpage. cbn zeta. cbn [snd]. pose proof (length_take (drop (i * m) all) m) as Hlen.
    rewrite length_drop in Hlen. destruct (take m (drop (i * m) all)); simpl in Hlen;
      destruct (Z.ltb_spec (Z.of_nat i * n) (Z.of_nat (length all))); unfold m in *; lia.
  - intros big offset Hbig. unfold GetRecentEvents, page_limit. destruct (Z.leb_spec big 0), (Z.ltb_spec 200 big); simpl; lia || done.
Qed.

Lemma events_paged_witness :
  concat (fst <$> ((fun i => GetRecentEvents (fun l => l) (sample_db sample_rows 10) "base" "mainnet" EmptyString 1 (Z.of_nat i * 1)) <$> seq 0 2)) =
  dashboard_event (sample_db sample_rows 10) <$> matching_events (sample_db sample_rows 10) "base" "mainnet" EmptyString /\
  length (matching_events (sample_db sample_rows 10) "base" "mainnet" EmptyString) = 2%nat.
Proof.
  split; [|vm_compute; reflexivity].
  refine (proj1 (events_paged (fun l => l) (sample_db sample_rows 10) "base" "mainnet" EmptyString 1 2 _) _).
  - split; vm_compute; discriminate.
  - vm_compute. discriminate.
Defined.
