(* ===== verification/RpcClient.v ===== *)
(** * JSON-RPC over HTTP: [internal/chain/*/rpc/client.go], [internal/chain/ratelimit/limiter.go]

    The three chains have the same client: a request is posted, its response decoded; a batch
    is posted as an array, and its responses, in whatever order they come, are matched to the
    requests by their identifiers.  What the HTTP client returns for a posted value is an
    argument, as are the text of JSON errors and the limiter's reservations. *)

From Stdlib Require Import ZArith String Ascii Lia.
From stdpp Require Import base option strings gmap list.
From S2P Require Import Prelude Retry JsonTree.

Open Scope Z_scope.
Open Scope go_scope.

(** ** Rate limiter and error classes *)

(** [Limiter.Wait]: the delay of the reservation, if it was granted, and what ends the context
    during the delay. *)
Definition Wait (reservation : option Z) (done : option go_error) : option go_error :=
  match reservation with
  | None => Some (EMsg "rate: cannot reserve token")
  | Some delay => if 0 <? delay then done else None
  end.

Definition ClassifyRPCError (err : option go_error) : string :=
  match err with
  | None => "ok"
  | Some err =>
      let lower := to_lower (error_text err) in
      if contains_any lower ["timeout"; "deadline exceeded"] then "timeout"
      else if contains_any lower ["rate limit"; "429"; "too many requests"] then "rate_limited"
      else if contains_any lower ["500"; "502"; "503"; "internal server error"] then "server_error"
      else if contains_any lower ["connection refused"; "connection reset"; "network is unreachable"; "no such host";
                                  "broken pipe"; "eof"] then "network_error"
      else "client_error"
  end.

(** ** Messages *)

Record Request := { rq_ID : Z; rq_Method : string; rq_Params : list json }.
Record RPCError := { re_Code : Z; re_Message : string }.
Record Response := { rs_ID : Z; rs_Result : RawMessage; rs_Error : option RPCError }.

Definition request_json (r : Request) : json :=
  JObject [("jsonrpc", JString "2.0"); ("id", JNumber (show_Z (rq_ID r))); ("method", JString (rq_Method r));
           ("params", JArray (rq_Params r))].

Definition read_RPCError : json -> option RPCError := read_struct (fun ms =>
  code ← read_int64 (field "code" ms); message ← read_string (field "message" ms);
  Some {| re_Code := code; re_Message := message |}).

Definition read_Response : json -> option Response := read_struct (fun ms =>
  _ ← read_string (field "jsonrpc" ms); id ← read_int64 (field "id" ms); err ← read_ptr read_RPCError (field "error" ms);
  Some {| rs_ID := id; rs_Result := field "result" ms; rs_Error := err |}).

(** What comes back for a posted value: the request fails, its body cannot be read, another
    status than 200, or a body, [None] when it is not JSON. *)
Inductive http_result :=
| HttpFailed (err : go_error)
| HttpUnread (err : go_error)
| HttpStatus (code : Z) (body : string)
| HttpOk (body : option json).

Definition newRequest (id : Z) (method : string) (params : list json) : Request :=
  {| rq_ID := wrap64 (id + 1); rq_Method := method; rq_Params := params |}.

(** ** Calls *)

Section Client.
Context (post : json -> http_result) (wait : Z -> option go_error).
Context (typed_error : RPCError -> go_error) (json_error : go_error).

Definition wrap {A} (text : string) (r : result go_error A) : result go_error A :=
  match r with Ok a => Ok a | Err err => Err (EWrap text err) end.

Definition unmarshal {A} (read : json -> option A) (raw : RawMessage) : result go_error A :=
  match raw ≫= read with Some a => Ok a | None => Err json_error end.

(** The body of a successful post. *)
Definition posted (prefix : string) (body : json) : result go_error (option json) :=
  match post body with
  | HttpFailed err => Err (EWrap (prefix +:+ "http request") err)
  | HttpUnread err => Err (EWrap ("read " +:+ prefix +:+ "response") err)
  | HttpStatus code text => Err (EMsg ("http status " +:+ show_Z code +:+ ": " +:+ text))
  | HttpOk body => Ok body
  end.

(** [id] is the counter of the client before the call. *)
Definition call (id : Z) (method : string) (params : list json) : result go_error RawMessage :=
  match wait id with
  | Some err => Err (EWrap "rate limiter" err)
  | None =>
      let! body := posted "" (request_json (newRequest id method params)) in
      let! rpcResp := wrap "unmarshal response" (unmarshal read_Response body) in
      match rs_Error rpcResp with Some err => Err (typed_error err) | None => Ok (rs_Result rpcResp) end
  end.

Fixpoint in_order (responseByID : gmap Z Response) (requests : list Request) : result go_error (list Response) :=
  match requests with
  | [] => Ok []
  | req :: requests' =>
      match responseByID !! rq_ID req with
      | None => Err (EMsg ("missing batch response id=" +:+ show_Z (rq_ID req) +:+ " method=" +:+ rq_Method req))
      | Some rpcResp => let! ordered := in_order responseByID requests' in Ok (rpcResp :: ordered)
      end
  end.

Definition by_id (responses : list Response) : gmap Z Response :=
  foldl (fun m r => <[rs_ID r := r]> m) ∅ responses.

(** Batches are not limited. *)
Definition callBatch (requests : list Request) : result go_error (list Response) :=
  if (length requests =? 0)%nat then Ok []
  else
    let! body := posted "batch " (JArray (request_json <$> requests)) in
    let! rpcResps := wrap "unmarshal batch response" (unmarshal (fun j => read_slice read_Response (Some j)) body) in
    in_order (by_id rpcResps) requests.

(** ** The shapes of the methods *)

(** A result that may be null. *)
Definition nullable {A} (read : json -> option A) (text : string) (raw : RawMessage) : result go_error (option A) :=
  match raw with
  | Some JNull => Ok None
  | _ => let! a := wrap text (unmarshal read raw) in Ok (Some a)
  end.

Definition required {A} (read : json -> option A) (text : string) (raw : RawMessage) : result go_error A :=
  wrap text (unmarshal read raw).

(** A single request and what is made of its result. *)
Definition single {A} (id : Z) (method : string) (params : list json) (text : string) (decode : RawMessage -> result go_error A)
    : result go_error A :=
  let! raw := wrap text (call id method params) in decode raw.

Fixpoint each_result {X A} (label : X -> string) (decode : X -> RawMessage -> result go_error A) (xs : list X)
    (responses : list Response) : result go_error (list A) :=
  match xs, responses with
  | x :: xs', r :: responses' =>
      match rs_Error r with
      | Some err => Err (EWrap (label x) (typed_error err))
      | None =>
          let! a := decode x (rs_Result r) in
          let! as_ := each_result label decode xs' responses' in
          Ok (a :: as_)
      end
  | _, _ => Ok []
  end.

(** The requests of a batch take the identifiers after the counter. *)
Fixpoint batch_requests {X} (id : Z) (method : string) (params : X -> list json) (xs : list X) : list Request :=
  match xs with
  | [] => []
  | x :: xs' => newRequest id method (params x) :: batch_requests (wrap64 (id + 1)) method params xs'
  end.

Definition batch {X A} (id : Z) (method : string) (params : X -> list json) (label : X -> string)
    (decode : X -> RawMessage -> result go_error A) (xs : list X) : result go_error (list A) :=
  if (length xs =? 0)%nat then Ok []
  else
    let! responses := wrap (method +:+ " batch") (callBatch (batch_requests id method params xs)) in
    each_result label decode xs responses.
End Client.

(** ** An honest node

    A node answers a request with a result or an error, under the identifier of the request;
    a batch it answers with the answers of its requests, in any order, or not at all. *)

Section Honest.
Context (post : json -> http_result) (wait : Z -> option go_error).
Context (typed_error : RPCError -> go_error) (json_error : go_error).
Context (node : string -> list json -> RPCError + json).

Definition answer_json (r : Request) : json :=
  JObject (("jsonrpc", JString "2.0") :: ("id", JNumber (show_Z (rq_ID r))) ::
    match node (rq_Method r) (rq_Params r) with
    | inl err => [("error", JObject [("code", JNumber (show_Z (re_Code err))); ("message", JString (re_Message err))])]
    | inr j => [("result", j)]
    end).

Definition answer_of (r : Request) : Response :=
  match node (rq_Method r) (rq_Params r) with
  | inl err => {| rs_ID := rq_ID r; rs_Result := None; rs_Error := Some err |}
  | inr j => {| rs_ID := rq_ID r; rs_Result := Some j; rs_Error := None |}
  end.

#[local] Arguments answer_json : simpl never.
#[local] Arguments answer_of : simpl never.
#[local] Arguments read_Response : simpl never.

Record honest : Prop := {
  honest_wait : forall id, wait id = None;
  honest_codes : forall method params err, node method params = inl err -> in_int64 (re_Code err);
  honest_one : forall r, post (request_json r) = HttpOk (Some (answer_json r));
  honest_many : forall rs body, post (JArray (request_json <$> rs)) = HttpOk body ->
    exists answers, body = Some (JArray answers) /\ answers ≡ₚ answer_json <$> rs
}.
Context (Hhonest : honest).

Lemma read_int64_show z : in_int64 z -> read_int64 (Some (JNumber (show_Z z))) = Some z.
Proof.
  intros [Hlo Hhi]. unfold read_int64, read_int64_ptr. simpl. unfold parse_int64. rewrite parse_show.
  by rewrite (proj2 (Z.leb_le _ _) Hlo), (proj2 (Z.leb_le _ _) Hhi).
Qed.

Lemma read_answer r : in_int64 (rq_ID r) -> read_Response (answer_json r) = Some (answer_of r).
Proof.
  intros Hid. unfold answer_json, answer_of, read_Response. cbn [read_struct].
  destruct (node (rq_Method r) (rq_Params r)) as [err|j] eqn:Hn.
  - change (field "jsonrpc" _) with (Some (JString "2.0")). change (field "id" _) with (Some (JNumber (show_Z (rq_ID r)))).
    change (field "error" _) with (Some (JObject [("code", JNumber (show_Z (re_Code err))); ("message", JString (re_Message err))])).
    change (field "result" _) with (@None json). rewrite read_int64_show by done. simpl. unfold read_RPCError. cbn [read_struct].
    change (field "code" _) with (Some (JNumber (show_Z (re_Code err)))).
    change (field "message" _) with (Some (JString (re_Message err))).
    rewrite read_int64_show by (by eapply honest_codes). simpl. by destruct err.
  - change (field "jsonrpc" _) with (Some (JString "2.0")). change (field "id" _) with (Some (JNumber (show_Z (rq_ID r)))).
    change (field "error" _) with (@None json). change (field "result" _) with (Some j). by rewrite read_int64_show.
Qed.

Lemma call_honest id method params :
  call post wait typed_error json_error id method params =
  match node method params with inl err => Err (typed_error err) | inr j => Ok (Some j) end.
Proof.
  unfold call, posted. rewrite (honest_wait Hhonest), (honest_one Hhonest). unfold unmarshal.
  cbn -[answer_json read_Response answer_of newRequest]. rewrite read_answer by apply wrap64_range. simpl. unfold answer_of. simpl. by destruct (node method params).
Qed.

(** Matching by identifier restores the order of the requests. *)
Lemma by_id_lookup responses r : NoDup (rs_ID <$> responses) -> r ∈ responses -> by_id responses !! rs_ID r = Some r.
Proof.
  unfold by_id. generalize (∅ : gmap Z Response). induction responses as [|x l IH]; intros m Hnd Hin; [by apply elem_of_nil in Hin|].
  simpl in Hnd. apply NoDup_cons in Hnd as [Hx Hnd]. simpl. apply elem_of_cons in Hin as [->|Hin]; [|by apply IH].
  assert (Hkeep : forall l' (m' : gmap Z Response), rs_ID x ∉ (rs_ID <$> l') ->
    foldl (fun m r => <[rs_ID r := r]> m) m' l' !! rs_ID x = m' !! rs_ID x).
  { induction l' as [|y l' IH']; intros m' Hl'; [done|]. simpl in *. apply not_elem_of_cons in Hl' as [Hne Hl'].
    rewrite IH' by done. by rewrite lookup_insert_ne. }
  by rewrite Hkeep, lookup_insert_eq.
Qed.

Lemma in_order_complete m requests responses :
  Forall2 (fun req r => m !! rq_ID req = Some r) requests responses -> in_order m requests = Ok responses.
Proof. induction 1 as [|req r requests responses Hm _ IH]; [done|]. simpl. by rewrite Hm, IH. Qed.

Lemma read_answers rs answers : Forall (fun r => in_int64 (rq_ID r)) rs -> answers ≡ₚ answer_json <$> rs ->
  exists responses, mapM read_Response answers = Some responses /\ responses ≡ₚ answer_of <$> rs.
Proof.
  intros Hids Hperm. apply Permutation_map_inv in Hperm as (rs' & -> & Hrs).
  exists (answer_of <$> rs'). split; [|by apply fmap_Permutation].
  rewrite Hrs in Hids. clear Hrs. induction Hids as [|r l Hr _ IH]; [done|]. simpl. by rewrite read_answer, IH.
Qed.

Lemma in_order_answers requests responses : NoDup (rq_ID <$> requests) -> responses ≡ₚ answer_of <$> requests ->
  in_order (by_id responses) requests = Ok (answer_of <$> requests).
Proof.
  intros Hnd Hperm. apply in_order_complete.
  assert (Hid : forall r, rs_ID (answer_of r) = rq_ID r) by (intros r; unfold answer_of; by destruct (node _ _)).
  assert (Hnd' : NoDup (rs_ID <$> responses)).
  { rewrite Hperm, <- list_fmap_compose. by rewrite (list_fmap_ext _ rq_ID) by (intros; apply Hid). }
  assert (Hall : forall r, r ∈ requests -> by_id responses !! rq_ID r = Some (answer_of r)).
  { intros r Hr. rewrite <- Hid. apply by_id_lookup; [done|]. rewrite Hperm. by apply list_elem_of_fmap_2. }
  clear Hperm Hnd Hnd'. induction requests as [|r l IH]; constructor.
  - apply Hall, list_elem_of_here.
  - apply IH. intros x Hx. by apply Hall, list_elem_of_further.
Qed.

Lemma callBatch_answers requests body : Forall (fun r => in_int64 (rq_ID r)) requests -> NoDup (rq_ID <$> requests) ->
  post (JArray (request_json <$> requests)) = HttpOk body -> callBatch post json_error requests = Ok (answer_of <$> requests).
Proof.
  intros Hids Hnd Hp. unfold callBatch. destruct (Nat.eqb_spec (length requests) 0) as [Hnil|_]; [by destruct requests|].
  unfold posted. rewrite Hp. simpl. destruct (honest_many Hhonest _ _ Hp) as (answers & -> & Hperm).
  destruct (read_answers requests answers Hids Hperm) as (responses & Hread & Hresp).
  unfold unmarshal. simpl. rewrite Hread. simpl. by rewrite in_order_answers.
Qed.

Lemma callBatch_honest requests ordered : Forall (fun r => in_int64 (rq_ID r)) requests -> NoDup (rq_ID <$> requests) ->
  callBatch post json_error requests = Ok ordered -> ordered = answer_of <$> requests.
Proof.
  intros Hids Hnd H. destruct (post (JArray (request_json <$> requests))) as [| | |body] eqn:Hp.
  4: { rewrite (callBatch_answers _ body) in H by done. congruence. }
  all: revert H; unfold callBatch, posted; rewrite Hp; by destruct requests; [intros [= <-]|].
Qed.

(** The identifiers of a batch that stays below the largest one. *)
Lemma batch_ids {X} (params : X -> list json) method xs id : 0 <= id -> id + Z.of_nat (length xs) <= max_int64 ->
  rq_ID <$> batch_requests id method params xs = seqZ (id + 1) (Z.of_nat (length xs)).
Proof.
  revert id. induction xs as [|x xs IH]; intros id Hlo Hhi; [done|].
  cbn [batch_requests length] in *. rewrite seqZ_cons by lia.
  assert (wrap64 (id + 1) = id + 1) as Hw by (apply wrap64_id; unfold in_int64, min_int64, max_int64 in *; lia).
  simpl. rewrite Hw. f_equal. rewrite IH by lia. f_equal; lia.
Qed.

Lemma batch_ids_in {X} (params : X -> list json) method xs id : 0 <= id -> id + Z.of_nat (length xs) <= max_int64 ->
  Forall (fun r => in_int64 (rq_ID r)) (batch_requests id method params xs) /\
  NoDup (rq_ID <$> batch_requests id method params xs).
Proof.
  intros Hlo Hhi. pose proof (batch_ids params method xs id Hlo Hhi) as Hids. rewrite Hids. split; [|apply NoDup_seqZ].
  apply Forall_forall. intros r Hr. apply (list_elem_of_fmap_2 rq_ID) in Hr. rewrite Hids in Hr.
  apply elem_of_seqZ in Hr. unfold in_int64, min_int64 in *. lia.
Qed.

Lemma each_result_spec {X A} (label : X -> string) (decode : X -> RawMessage -> result go_error A)
    (params : X -> list json) method xs : forall id as_,
  each_result typed_error label decode xs (answer_of <$> batch_requests id method params xs) = Ok as_ <->
  Forall2 (fun x a => exists j, node method (params x) = inr j /\ decode x (Some j) = Ok a) xs as_.
Proof.
  induction xs as [|x xs IH]; intros id as_; simpl.
  { split; [intros [= <-]; constructor|by intros ->%Forall2_nil_inv_l]. }
  unfold answer_of at 1 2. simpl. split.
  - destruct (node method (params x)) as [err|j] eqn:Hn; simpl; [done|].
    intros (a & Ha & H)%rbind_ok. apply rbind_ok in H as (l & Hl & [= <-]).
    constructor; [by exists j|by eapply IH].
  - intros (a & l & (j & -> & Ha) & Hl & ->)%Forall2_cons_inv_l. simpl. rewrite Ha. simpl.
    by rewrite (proj2 (IH _ _) Hl).
Qed.

(** Every entry of a batch is what the node gives for its own request. *)
Lemma batch_honest {X A} id method (params : X -> list json) label (decode : X -> RawMessage -> result go_error A) xs as_ :
  0 <= id -> id + Z.of_nat (length xs) <= max_int64 ->
  batch post typed_error json_error id method params label decode xs = Ok as_ ->
  Forall2 (fun x a => exists j, node method (params x) = inr j /\ decode x (Some j) = Ok a) xs as_.
Proof.
  intros Hlo Hhi. unfold batch. destruct (Nat.eqb_spec (length xs) 0) as [Hnil|_].
  { destruct xs; [intros [= <-]; constructor|done]. }
  intros (responses & Hb & Heach)%rbind_ok. destruct (batch_ids_in params method xs id Hlo Hhi) as [Hids Hnd].
  assert (Hcall : callBatch post json_error (batch_requests id method params xs) = Ok responses)
    by (unfold wrap in Hb; by destruct (callBatch _ _ _)).
  apply callBatch_honest in Hcall as ->; [|done..]. by eapply each_result_spec.
Qed.

(** When the node answers the batch, the batch succeeds if its requests would. *)
Lemma batch_complete {X A} id method (params : X -> list json) label (decode : X -> RawMessage -> result go_error A) xs as_ body :
  0 <= id -> id + Z.of_nat (length xs) <= max_int64 ->
  post (JArray (request_json <$> batch_requests id method params xs)) = HttpOk body ->
  Forall2 (fun x a => exists j, node method (params x) = inr j /\ decode x (Some j) = Ok a) xs as_ ->
  batch post typed_error json_error id method params label decode xs = Ok as_.
Proof.
  intros Hlo Hhi Hp Hall. unfold batch. destruct (Nat.eqb_spec (length xs) 0) as [Hnil|_].
  { destruct xs; [|done]. by apply Forall2_nil_inv_l in Hall as ->. }
  destruct (batch_ids_in params method xs id Hlo Hhi) as [Hids Hnd].
  rewrite (callBatch_answers _ body) by done. simpl. by apply each_result_spec.
Qed.

(** ** One at a time *)

Lemma single_ok {A} id method params text (decode : RawMessage -> result go_error A) a :
  single post wait typed_error json_error id method params text decode = Ok a <-> exists j, node method params = inr j /\ decode (Some j) = Ok a.
Proof. unfold single. rewrite call_honest. destruct (node method params) as [err|j]; simpl; naive_solver. Qed.

(** The batch is answered. *)
Definition answered {X} (id : Z) (method : string) (params : X -> list json) (xs : list X) : Prop :=
  exists body, post (JArray (request_json <$> batch_requests id method params xs)) = HttpOk body.

Lemma batch_iff {X A} id method (params : X -> list json) label (decode decode1 : X -> RawMessage -> result go_error A)
    (text : X -> string) xs as_ :
  (forall x j a, decode x (Some j) = Ok a <-> decode1 x (Some j) = Ok a) ->
  0 <= id -> id + Z.of_nat (length xs) <= max_int64 -> answered id method params xs ->
  batch post typed_error json_error id method params label decode xs = Ok as_ <->
  Forall2 (fun x a => forall id', single post wait typed_error json_error id' method (params x) (text x) (decode1 x) = Ok a) xs as_.
Proof.
  intros Hsame Hlo Hhi [body Hp]. split.
  - intros H%batch_honest; [|done..]. eapply Forall2_impl; [exact H|]. intros x a (j & Hj & Ha) id'.
    apply single_ok. exists j. split; [done|by apply Hsame].
  - intros H. eapply batch_complete; [done..|]. eapply Forall2_impl; [exact H|]. intros x a Hx.
    destruct (proj1 (single_ok _ _ _ _ _ _) (Hx 0)) as (j & Hj & Ha). exists j. split; [done|by apply Hsame].
Qed.

(** Errors aside, what is read does not depend on the text of the errors. *)
Lemma nullable_same {A} (read : json -> option A) text text' j a :
  nullable json_error read text (Some j) = Ok a <-> nullable json_error read text' (Some j) = Ok a.
Proof. unfold nullable, unmarshal. simpl. by destruct j; try done; destruct (read _). Qed.

Lemma required_same {A} (read : json -> option A) text text' j a :
  required json_error read text (Some j) = Ok a <-> required json_error read text' (Some j) = Ok a.
Proof. unfold required, unmarshal. simpl. by destruct (read j). Qed.
End Honest.

(** A node over HTTP: it answers batches last request first. *)
Definition node_answer (node : string -> list json -> RPCError + json) (j : json) : json :=
  match j with
  | JObject [_; (_, JNumber id); (_, JString method); (_, JArray params)] =>
      JObject (("jsonrpc", JString "2.0") :: ("id", JNumber id) ::
        match node method params with
        | inl err => [("error", JObject [("code", JNumber (show_Z (re_Code err))); ("message", JString (re_Message err))])]
        | inr j => [("result", j)]
        end)
  | j => j
  end.

Definition node_post (node : string -> list json -> RPCError + json) (j : json) : http_result :=
  HttpOk (Some match j with JArray l => JArray (reverse (node_answer node <$> l)) | j => node_answer node j end).

Lemma node_post_honest node : (forall method params err, node method params = inl err -> in_int64 (re_Code err)) ->
  honest (node_post node) (fun _ => None) node.
Proof.
  intros Hcodes. split; [done|done|done|]. intros rs body [= <-]. eexists. split; [done|].
  by rewrite reverse_Permutation, <- list_fmap_compose.
Qed.
