(* ===== verification/EvmRpc.v ===== *)
(** * The EVM client: [internal/chain/base/rpc/methods.go]

    The methods of the client over [RpcClient], and the client as the adapter uses it.  Its
    batches agree with single requests, which is what [EvmAdapterProofs] assumes of them; and
    a block that lists its transactions by hash, which is what the node returns when they are
    not asked for, cannot be read, so neither finality nor block hashes are ever known. *)

From Stdlib Require Import ZArith String Ascii Lia.
From stdpp Require Import base option strings gmap list.
From S2P Require Import Prelude Retry Domain Store Effects JsonTree RpcClient EvmAdapter.
From S2P Require Import ReorgDetector.

Open Scope Z_scope.
Open Scope go_scope.

(** ** Messages *)

Definition read_text (name : string) (ms : list (string * json)) : option string := read_string (field name ms).

Definition read_Transaction : json -> option Transaction := read_struct (fun ms =>
  hash ← read_text "hash" ms; block ← read_text "blockNumber" ms; index ← read_text "transactionIndex" ms;
  from ← read_text "from" ms; to_ ← read_text "to" ms; value ← read_text "value" ms; price ← read_text "gasPrice" ms;
  Some {| tx_Hash := hash; tx_BlockNumber := block; tx_TransactionIndex := index; tx_From := from; tx_To := to_;
          tx_Value := value; tx_GasPrice := price |}).

Definition read_Block : json -> option Block := read_struct (fun ms =>
  number ← read_text "number" ms; hash ← read_text "hash" ms; parent ← read_text "parentHash" ms;
  time ← read_text "timestamp" ms; txs ← read_slice (read_element read_Transaction) (field "transactions" ms);
  Some {| bk_Number := number; bk_Hash := hash; bk_ParentHash := parent; bk_Timestamp := time; bk_Transactions := txs |}).

Definition read_Log : json -> option Log := read_struct (fun ms =>
  address ← read_text "address" ms; topics ← read_slice (fun j => read_string (Some j)) (field "topics" ms);
  data ← read_text "data" ms; block ← read_text "blockNumber" ms; tx ← read_text "transactionHash" ms;
  index ← read_text "transactionIndex" ms; log_index ← read_text "logIndex" ms; removed ← read_bool (field "removed" ms);
  Some {| lg_Address := address; lg_Topics := topics; lg_Data := data; lg_BlockNumber := block; lg_TransactionHash := tx;
          lg_TransactionIndex := index; lg_LogIndex := log_index; lg_Removed := removed |}).

Definition read_TransactionReceipt : json -> option TransactionReceipt := read_struct (fun ms =>
  hash ← read_text "transactionHash" ms; block ← read_text "blockNumber" ms; index ← read_text "transactionIndex" ms;
  status ← read_text "status" ms; from ← read_text "from" ms; to_ ← read_text "to" ms; used ← read_text "gasUsed" ms;
  price ← read_text "effectiveGasPrice" ms; l1fee ← read_string_ptr (field "l1Fee" ms);
  l1used ← read_string_ptr (field "l1GasUsed" ms); l1price ← read_string_ptr (field "l1GasPrice" ms);
  logs ← read_slice (read_element read_Log) (field "logs" ms);
  Some {| rc_TransactionHash := hash; rc_BlockNumber := block; rc_TransactionIndex := index; rc_Status := status;
          rc_From := from; rc_To := to_; rc_GasUsed := used; rc_EffectiveGasPrice := price; rc_L1Fee := l1fee;
          rc_L1GasUsed := l1used; rc_L1GasPrice := l1price; rc_Logs := logs |}).

(** The calls of a frame are read from the last member of that name, like every field. *)
Fixpoint read_CallFrame (j : json) : option CallFrame :=
  match j with
  | JNull => Some (Frame "" "" "" "" "" "" "" [])
  | JObject ms =>
      let calls :=
        (fix find (ms : list (string * json)) (found : option (list (option CallFrame))) : option (list (option CallFrame)) :=
           match ms with
           | [] => found
           | (name, v) :: ms' =>
               find ms'
                 (if equal_fold name "calls" then
                    match v with
                    | JNull => Some []
                    | JArray l =>
                        (fix elements (l : list json) : option (list (option CallFrame)) :=
                           match l with
                           | [] => Some []
                           | JNull :: l' => frames ← elements l'; Some (None :: frames)
                           | c :: l' => frame ← read_CallFrame c; frames ← elements l'; Some (Some frame :: frames)
                           end) l
                    | _ => None
                    end
                  else found)
           end) ms (Some []) in
      type ← read_text "type" ms; from ← read_text "from" ms; to_ ← read_text "to" ms; value ← read_text "value" ms;
      input ← read_text "input" ms; output ← read_text "output" ms; err ← read_text "error" ms; calls ← calls;
      Some (Frame type from to_ value input output err calls)
  | _ => None
  end.

Definition read_BlockTrace : json -> option BlockTrace := read_struct (fun ms =>
  hash ← read_text "txHash" ms; frame ← read_CallFrame (default JNull (field "result" ms));
  Some {| bt_TxHash := hash; bt_Result := frame |}).

Definition topic_json (t : topic) : json :=
  match t with TAny => JNull | TOne s => JString s | TMany l => JArray (JString <$> l) end.

Definition filter_json (f : LogFilter) : json :=
  JObject ((if str_empty (lf_FromBlock f) then [] else [("fromBlock", JString (lf_FromBlock f))]) ++
           (if str_empty (lf_ToBlock f) then [] else [("toBlock", JString (lf_ToBlock f))]) ++
           (match lf_Topics f with [] => [] | topics => [("topics", JArray (topic_json <$> topics))] end)).

Definition typed_error (e : RPCError) : go_error := EBaseRPC (re_Code e) (re_Message e).

(** ** Methods *)

Section Methods.
Context (post : json -> http_result) (wait : Z -> option go_error) (json_error : go_error).
(** The error of [ParseHexInt64]. *)
Context (hex_error : string -> go_error).
(** The counter of the client at the call. *)
Context (id : Z).

Definition parse_hex (value : string) : result go_error Z :=
  match ParseHexInt64 value with Some n => Ok n | None => Err (hex_error value) end.

Definition rpc_GetBlockNumber : result go_error Z :=
  let! hexNum := single post wait typed_error json_error id "eth_blockNumber" [] "eth_blockNumber"
    (required json_error (fun j => read_string (Some j)) "unmarshal block number") in
  wrap "parse block number" (parse_hex hexNum).

Definition block_by (tag text : string) (includeFullTx : bool) : result go_error (option Block) :=
  single post wait typed_error json_error id "eth_getBlockByNumber" [JString tag; JBool includeFullTx] ("eth_getBlockByNumber(" +:+ text +:+ ")")
    (nullable json_error read_Block "unmarshal block").

Definition rpc_GetBlockByNumber (blockNumber : Z) (includeFullTx : bool) : result go_error (option Block) :=
  block_by (formatHexInt64 blockNumber) (show_Z blockNumber) includeFullTx.

Definition GetBlockByTag (tag : string) (includeFullTx : bool) : result go_error (option Block) := block_by tag tag includeFullTx.

Definition rpc_GetFinalizedBlockNumber : result go_error Z :=
  let! block := wrap "get finalized block" (GetBlockByTag "finalized" false) in
  match block with
  | None => Err (EMsg "finalized block not available")
  | Some block => wrap "parse finalized block number" (parse_hex (bk_Number block))
  end.

Definition rpc_GetTransactionByHash (hash : string) : result go_error (option Transaction) :=
  single post wait typed_error json_error id "eth_getTransactionByHash" [JString hash] ("eth_getTransactionByHash(" +:+ hash +:+ ")")
    (nullable json_error read_Transaction "unmarshal transaction").

Definition rpc_GetTransactionReceipt (hash : string) : result go_error (option TransactionReceipt) :=
  single post wait typed_error json_error id "eth_getTransactionReceipt" [JString hash] ("eth_getTransactionReceipt(" +:+ hash +:+ ")")
    (nullable json_error read_TransactionReceipt "unmarshal transaction receipt").

(** A null result is a nil slice. *)
Definition rpc_GetLogs (filter : LogFilter) : result go_error (list (option Log)) :=
  single post wait typed_error json_error id "eth_getLogs" [filter_json filter] "eth_getLogs"
    (required json_error (fun j => read_slice (read_element read_Log) (Some j)) "unmarshal logs").

Definition rpc_TraceBlockByNumber (blockNumber : Z) : result go_error (list (option BlockTrace)) :=
  single post wait typed_error json_error id "debug_traceBlockByNumber"
    [JString (formatHexInt64 blockNumber);
     JObject [("tracer", JString "callTracer"); ("tracerConfig", JObject [("onlyTopCall", JBool false)])]]
    ("debug_traceBlockByNumber(" +:+ show_Z blockNumber +:+ ")")
    (required json_error (fun j => read_slice (read_element read_BlockTrace) (Some j)) "unmarshal block traces").

Definition many {X A} (method : string) (params : X -> list json) (show : X -> string) (read : json -> option A) (what : string)
    (xs : list X) : result go_error (list (option A)) :=
  batch post typed_error json_error id method params (fun x => method +:+ "(" +:+ show x +:+ ")")
    (fun x => nullable json_error read ("unmarshal " +:+ what +:+ " " +:+ show x)) xs.

Definition rpc_GetTransactionsByHash (hashes : list string) : result go_error (list (option Transaction)) :=
  many "eth_getTransactionByHash" (fun h => [JString h]) (fun h => h) read_Transaction "transaction" hashes.
Definition rpc_GetTransactionReceiptsByHash (hashes : list string) : result go_error (list (option TransactionReceipt)) :=
  many "eth_getTransactionReceipt" (fun h => [JString h]) (fun h => h) read_TransactionReceipt "transaction receipt" hashes.
Definition rpc_GetBlocksByNumber (blockNumbers : list Z) (includeFullTx : bool) : result go_error (list (option Block)) :=
  many "eth_getBlockByNumber" (fun n => [JString (formatHexInt64 n); JBool includeFullTx]) show_Z read_Block "block" blockNumbers.

(** The client of the adapter. *)
Definition evm_client : RPCClient :=
  {| GetBlockNumber := rpc_GetBlockNumber; GetFinalizedBlockNumber := rpc_GetFinalizedBlockNumber;
     GetBlockByNumber := rpc_GetBlockByNumber; GetBlocksByNumber := rpc_GetBlocksByNumber;
     GetTransactionByHash := rpc_GetTransactionByHash; GetTransactionsByHash := rpc_GetTransactionsByHash;
     GetTransactionReceipt := rpc_GetTransactionReceipt; GetTransactionReceiptsByHash := rpc_GetTransactionReceiptsByHash;
     GetLogs := rpc_GetLogs; TraceBlockByNumber := rpc_TraceBlockByNumber |}.
End Methods.
