(* ===== verification/EvmRpcProofs.v ===== *)
(** * What the EVM client does not read

    A block that lists its transactions by hash cannot be read, and so neither block hashes
    nor the finalized block are ever known where they are asked for. *)

From Stdlib Require Import ZArith String Ascii Lia.
From stdpp Require Import base option strings gmap list.
From S2P Require Import Prelude Retry Domain Store Effects JsonTree RpcClient EvmAdapter EvmRpc ReorgDetector.

Open Scope Z_scope.
Open Scope go_scope.

Section Client.
Context {post : json -> http_result} {wait : Z -> option go_error} {json_error : go_error}.
Context {node : string -> list json -> RPCError + json}.
Context (Hhonest : honest post wait node).

(** ** Blocks that list hashes *)

(** The block of an answer lists a transaction by its hash. *)
Definition lists_hashes (j : json) : Prop :=
  exists ms l h, j = JObject ms /\ field "transactions" ms = Some (JArray l) /\ JString h ∈ l.

Lemma mapM_none {A B} (f : A -> option B) l x : x ∈ l -> f x = None -> mapM f l = None.
Proof.
  induction 1 as [x l|x y l Hx IH]; intros Hf; simpl; [by rewrite Hf|]. destruct (f y); simpl; [|done]. by rewrite IH.
Qed.

Lemma lists_hashes_unread j : lists_hashes j -> j <> JNull /\ read_Block j = None.
Proof.
  intros (ms & l & h & -> & Hf & Hin). split; [done|]. unfold read_Block. cbn [read_struct]. rewrite Hf.
  cbn [read_slice]. rewrite (mapM_none _ _ _ Hin eq_refl).
  by repeat match goal with |- context [read_text ?n ms] => destruct (read_text n ms); simpl end.
Qed.

(** Without the transactions the node lists their hashes, in every block that has any. *)
Definition hashes_listed (tags : string -> Prop) : Prop :=
  forall tag, tags tag -> exists j, node "eth_getBlockByNumber" [JString tag; JBool false] = inr j /\ lists_hashes j.

Lemma block_by_unread tags tag text id : hashes_listed tags -> tags tag ->
  exists err, block_by post wait json_error id tag text false = Err err.
Proof.
  intros Hl Htag. destruct (Hl tag Htag) as (j & Hj & [Hnull Hread]%lists_hashes_unread).
  unfold block_by, single. rewrite (call_honest _ _ _ _ _ Hhonest), Hj. simpl. unfold nullable, unmarshal. simpl. rewrite Hread.
  destruct j; try done; by eexists.
Qed.

Lemma scan_unanswered A blocks : forall m d, Forall (unanswered A) blocks -> fst (fst (scan A blocks m d)) = None.
Proof.
  induction blocks as [|b blocks IH]; intros m d; [done|]. intros [[err Hb] Hall]%Forall_cons. simpl.
  case_bool_decide; [by apply IH|]. unfold verifyBlock. rewrite Hb. by apply IH.
Qed.

Lemma check_unanswered A blocks send d :
  verifyParentHashChain (limit_depth (d_maxCheckDepth d) blocks) = None ->
  Forall (unanswered A) (limit_depth (d_maxCheckDepth d) blocks) -> fst (ReorgDetector.check A (Ok blocks) send d) = Ok [].
Proof.
  intros Hchain Hall. unfold ReorgDetector.check. destruct blocks as [|b0 bs]; [done|]. rewrite Hchain.
  destruct (limit_depth _ _) as [|tip rest]; [done|]. apply Forall_cons in Hall as [[err Htip] Hall].
  unfold verifyBlock. rewrite Htip. simpl.
  pose proof (scan_unanswered A rest ∅ (set_rpc_errs (d_consecutiveRPCErrs d ⊕ 1) d) Hall) as Hs.
  by destruct (scan _ _ _ _) as [[[[b h]|] m] d'].
Qed.

Context {hex_error : string -> go_error}.

(** C25: Where the indexer asks for a block without its transactions, to compare hashes and to
    learn the finalized block, a node that lists the hashes of the transactions, as nodes do,
    is not understood: the block is read as if its transactions were objects, and fails.  So
    when each of the indexed blocks the check asks for, and the finalized block, lists at
    least one transaction hash, no hash is known; if the indexed blocks do not contradict each
    other either, the periodic check finds no reorganization whatever the chain holds, and the
    finalizer fails and promotes nothing. *)
Theorem hash_blocks_unreadable (ids : Z -> Z) (id : Z) blocks send d e f t :
  hashes_listed (fun tag => tag = "finalized"%string \/ exists b, b ∈ blocks /\ tag = formatHexInt64 (ib_BlockNumber b)) ->
  verifyParentHashChain (limit_depth (d_maxCheckDepth d) blocks) = None ->
  let client i := evm_client post wait json_error hex_error i in
  let A n := EvmAdapter.GetBlockHash (client (ids n)) n in
  fe_finalized e = EvmAdapter.GetFinalizedBlockNumber (client id) ->
  Forall (unanswered A) blocks /\ fst (ReorgDetector.check A (Ok blocks) send d) = Ok [] /\
  exists err, finalizer_check e f t = (Err err, f, t).
Proof.
  intros Hl Hchain client A Hfin.
  assert (Hall : Forall (unanswered A) blocks).
  { apply Forall_forall. intros b Hb. unfold unanswered, A, EvmAdapter.GetBlockHash. simpl. unfold rpc_GetBlockByNumber.
    destruct (block_by_unread _ (formatHexInt64 (ib_BlockNumber b)) (show_Z (ib_BlockNumber b)) (ids (ib_BlockNumber b)) Hl)
      as [err ->]; [by eauto|by eexists]. }
  split_and!.
  - done.
  - apply check_unanswered; [done|]. apply Forall_forall. intros b Hb%limit_depth_elem.
    by eapply (proj1 (Forall_forall _ _) Hall).
  - unfold finalizer_check. rewrite Hfin. simpl. unfold rpc_GetFinalizedBlockNumber, GetBlockByTag.
    destruct (block_by_unread _ "finalized" "finalized" id Hl) as [err ->]; [by left|by eexists].
Qed.
End Client.

(** ** A node *)

Definition example_block : json :=
  JObject [("number", JString "0x5"); ("hash", JString "0xbb"); ("parentHash", JString "0xaa"); ("timestamp", JString "0x1");
           ("transactions", JArray [JString "0xcc"])].

Definition example_node (method : string) (params : list json) : RPCError + json :=
  if String.eqb method "eth_getBlockByNumber" then inr example_block
  else if String.eqb method "eth_getTransactionByHash" then inr (JObject [("hash", JString "0xcc")])
  else inr JNull.

Lemma example_honest : honest (node_post example_node) (fun _ => None) example_node.
Proof.
  apply node_post_honest. intros method params err. unfold example_node. by repeat case_match.
Qed.

Definition example_indexed : IndexedBlock :=
  {| ib_Chain := "base"; ib_Network := "mainnet"; ib_BlockNumber := 5; ib_BlockHash := "0xdead"; ib_ParentHash := "0xaa";
     ib_FinalityState := "pending"; ib_BlockTime := None |}.

(** A chain that has another block 5, asked by a detector that has indexed [0xdead]. *)
Lemma hash_blocks_unreadable_witness :
  let client i := evm_client (node_post example_node) (fun _ => None) (EMsg "json") (fun s => EMsg s) i in
  fst (ReorgDetector.check (fun n => EvmAdapter.GetBlockHash (client n) n) (Ok [example_indexed]) (Ok ())
         (ReorgDetector.New "base" "mainnet")) = Ok [].
Proof.
  refine (proj1 (proj2 (hash_blocks_unreadable (hex_error := fun s => EMsg s) (json_error := EMsg "json") example_honest (fun n => n) 0 [example_indexed] (Ok ())
    (ReorgDetector.New "base" "mainnet") {| fe_finalized := _; fe_send := Ok (); fe_prune := None |}
    (NewFinalizer "base" "mainnet" []) _ _ _ eq_refl))); [exact empty_db| |vm_compute; reflexivity].
  intros tag _. exists example_block. split; [reflexivity|]. do 3 eexists. split_and!; [reflexivity|reflexivity|].
  apply elem_of_cons. left. reflexivity.
Defined.
