(* ===== verification/BtcRpc.v ===== *)
(** * The Bitcoin client: [internal/chain/btc/rpc/methods.go]

    The methods of the client over [RpcClient], and the client as the adapter uses it. *)

From Stdlib Require Import ZArith String Ascii Lia.
From stdpp Require Import base option strings gmap list.
From S2P Require Import Prelude Retry NormalizerDecode JsonTree RpcClient BtcAdapter.

Open Scope Z_scope.
Open Scope go_scope.

(** ** Messages *)

Definition text_of (name : string) (ms : list (string * json)) : option string := read_string (field name ms).
Definition int_of (name : string) (ms : list (string * json)) : option Z := read_int64 (field name ms).

(** A number as JSON writes it. *)
Definition skip_digits (s : string) : string := (span_digits s).2.

Definition valid_exponent (s : string) : bool :=
  match s with
  | String e (String c s') =>
      if str_eqb (String e "") "e" || str_eqb (String e "") "E" then
        if str_eqb (String c "") "+" || str_eqb (String c "") "-"
        then negb (str_empty s') && str_empty (skip_digits s')
        else str_empty (skip_digits (String c s'))
      else false
  | _ => str_empty s
  end.

Definition valid_fraction (s : string) : bool :=
  match s with
  | String p (String c s') =>
      if str_eqb (String p "") "." && is_digit c then valid_exponent (skip_digits s') else valid_exponent s
  | _ => valid_exponent s
  end.

Definition isValidNumber (s : string) : bool :=
  let unsigned := match s with String c s' => if str_eqb (String c "") "-" then s' else s | EmptyString => s end in
  match unsigned with
  | EmptyString => false
  | String c s' =>
      if str_eqb (String c "") "0" then valid_fraction s'
      else is_digit c && valid_fraction (skip_digits s')
  end.

(** Into a [json.Number]: a number, or a string that holds one. *)
Definition read_number (j : option json) : option string :=
  match j with
  | None | Some JNull => Some ""
  | Some (JNumber text) => Some text
  | Some (JString text) => if isValidNumber text then Some text else None
  | Some _ => None
  end.

(** A struct that is a field: left zero when absent. *)
Definition read_nested {A} (read : json -> option A) (j : option json) : option A := read (default JNull j).

Definition read_ScriptPubKey : json -> option ScriptPubKey := read_struct (fun ms =>
  address ← text_of "address" ms; addresses ← read_slice (fun j => read_string (Some j)) (field "addresses" ms);
  type ← text_of "type" ms;
  Some {| sp_Address := address; sp_Addresses := addresses; sp_Type := type |}).

Definition read_Prevout : json -> option Prevout := read_struct (fun ms =>
  value ← read_number (field "value" ms); script ← read_nested read_ScriptPubKey (field "scriptPubKey" ms);
  Some {| pv_Value := value; pv_ScriptPubKey := script |}).

Definition read_Vin : json -> option Vin := read_struct (fun ms =>
  txid ← text_of "txid" ms; vout ← int_of "vout" ms; coinbase ← text_of "coinbase" ms;
  prevout ← read_ptr read_Prevout (field "prevout" ms);
  Some {| vi_Txid := txid; vi_Vout := vout; vi_Coinbase := coinbase; vi_Prevout := prevout |}).

Definition read_Vout : json -> option Vout := read_struct (fun ms =>
  value ← read_number (field "value" ms); n ← int_of "n" ms; script ← read_nested read_ScriptPubKey (field "scriptPubKey" ms);
  Some {| vo_Value := value; vo_N := n; vo_ScriptPubKey := script |}).

Definition read_Transaction : json -> option Transaction := read_struct (fun ms =>
  txid ← text_of "txid" ms; hash ← text_of "hash" ms; block ← text_of "blockhash" ms; blocktime ← int_of "blocktime" ms;
  time ← int_of "time" ms; confirmations ← int_of "confirmations" ms;
  vin ← read_slice (read_element read_Vin) (field "vin" ms); vout ← read_slice (read_element read_Vout) (field "vout" ms);
  Some {| tx_Txid := txid; tx_Hash := hash; tx_Blockhash := block; tx_Blocktime := blocktime; tx_Time := time;
          tx_Confirmations := confirmations; tx_Vin := vin; tx_Vout := vout |}).

Definition read_Block : json -> option Block := read_struct (fun ms =>
  hash ← text_of "hash" ms; height ← int_of "height" ms; time ← int_of "time" ms;
  previous ← text_of "previousblockhash" ms; txs ← read_slice (read_element read_Transaction) (field "tx" ms);
  Some {| bk_Hash := hash; bk_Height := height; bk_Time := time; bk_PreviousBlockHash := previous; bk_Tx := txs |}).

Definition read_BlockHeader : json -> option BlockHeader := read_struct (fun ms =>
  hash ← text_of "hash" ms; height ← int_of "height" ms; previous ← text_of "previousblockhash" ms; time ← int_of "time" ms;
  Some {| bh_Hash := hash; bh_Height := height; bh_PreviousBlockHash := previous; bh_Time := time |}).

(** No caller looks into the error of this client. *)
Definition typed_error (e : RPCError) : go_error := EMsg (re_Message e).

(** ** Methods *)

Section Methods.
Context (post : json -> http_result) (wait : Z -> option go_error) (json_error : go_error).
(** The counter of the client at the call. *)
Context (id : Z).

Definition rpc_GetBlockCount : result go_error Z :=
  single post wait typed_error json_error id "getblockcount" [] "getblockcount" (required json_error (fun j => read_int64 (Some j)) "unmarshal block count").

Definition read_hash (text : string) : RawMessage -> result go_error string :=
  required json_error (fun j => read_string (Some j)) text.

Definition rpc_GetBlockHash (height : Z) : result go_error string :=
  single post wait typed_error json_error id "getblockhash" [JNumber (show_Z height)] ("getblockhash(" +:+ show_Z height +:+ ")") (read_hash "unmarshal block hash").

Definition rpc_GetBlockHashes (heights : list Z) : result go_error (list string) :=
  batch post typed_error json_error id "getblockhash" (fun h => [JNumber (show_Z h)])
    (fun h => "getblockhash(" +:+ show_Z h +:+ ")") (fun h => read_hash ("unmarshal block hash " +:+ show_Z h)) heights.

Definition rpc_GetBlock (hash : string) (verbosity : Z) : result go_error (option Block) :=
  single post wait typed_error json_error id "getblock" [JString hash; JNumber (show_Z verbosity)] ("getblock(" +:+ hash +:+ ")")
    (nullable json_error read_Block "unmarshal block").

Definition rpc_GetBlocks (hashes : list string) (verbosity : Z) : result go_error (list (option Block)) :=
  batch post typed_error json_error id "getblock" (fun hash => [JString hash; JNumber (show_Z verbosity)])
    (fun hash => "getblock(" +:+ hash +:+ ")") (fun hash => nullable json_error read_Block ("unmarshal block " +:+ hash)) hashes.

Definition rpc_GetBlockHeader (hash : string) : result go_error (option BlockHeader) :=
  single post wait typed_error json_error id "getblockheader" [JString hash; JBool true] ("getblockheader(" +:+ hash +:+ ")")
    (nullable json_error read_BlockHeader "unmarshal block header").

Definition rpc_GetRawTransactionVerbose (txid : string) : result go_error (option Transaction) :=
  single post wait typed_error json_error id "getrawtransaction" [JString txid; JBool true] ("getrawtransaction(" +:+ txid +:+ ")")
    (nullable json_error read_Transaction "unmarshal transaction").

Definition rpc_GetRawTransactionsVerbose (txids : list string) : result go_error (list (option Transaction)) :=
  batch post typed_error json_error id "getrawtransaction" (fun txid => [JString txid; JBool true])
    (fun txid => "getrawtransaction(" +:+ txid +:+ ")")
    (fun txid => nullable json_error read_Transaction ("unmarshal transaction " +:+ txid)) txids.

(** The client of the adapter. *)
Definition btc_client : RPCClient :=
  {| GetBlockCount := rpc_GetBlockCount; BtcAdapter.rpc_GetBlockHash := rpc_GetBlockHash;
     GetBlockHashes := rpc_GetBlockHashes; GetBlock := rpc_GetBlock; GetBlocks := rpc_GetBlocks;
     GetBlockHeader := rpc_GetBlockHeader; GetRawTransactionVerbose := rpc_GetRawTransactionVerbose;
     GetRawTransactionsVerbose := rpc_GetRawTransactionsVerbose |}.
End Methods.
