(* ===== verification/SolanaRpc.v ===== *)
(** * The Solana client: [internal/chain/solana/rpc/methods.go]

    The methods of the client over [RpcClient], and the client as the adapter uses it.
    Objects of parameters have their members in the order of their names, as maps are
    written. *)

From Stdlib Require Import ZArith String Ascii Lia.
From stdpp Require Import base option strings gmap list.
From S2P Require Import Prelude Retry JsonTree RpcClient SolanaAdapter.

Open Scope Z_scope.
Open Scope go_scope.

(** ** Messages *)

(** The error, memo and status of a signature are decoded and not used. *)
Definition read_SignatureInfo : json -> option rpcSignatureInfo := read_struct (fun ms =>
  signature ← read_string (field "signature" ms); slot ← read_int64 (field "slot" ms);
  time ← read_int64_ptr (field "blockTime" ms); _ ← read_string_ptr (field "memo" ms);
  _ ← read_string_ptr (field "confirmationStatus" ms);
  Some {| si_Signature := signature; si_Slot := slot; si_BlockTime := time |}).

Definition read_BlockTransaction : json -> option BlockTransaction := read_struct (fun ms =>
  Some {| bx_Transaction := field "transaction" ms; bx_Meta := field "meta" ms |}).

Definition read_BlockResult : json -> option BlockResult := read_struct (fun ms =>
  _ ← read_string (field "blockhash" ms); _ ← read_string (field "previousBlockhash" ms); _ ← read_int64 (field "parentSlot" ms);
  time ← read_int64_ptr (field "blockTime" ms); txs ← read_slice read_BlockTransaction (field "transactions" ms);
  Some {| br_BlockTime := time; br_Transactions := txs |}).

Definition typed_error (e : RPCError) : go_error := ESolanaRPC (re_Code e) (re_Message e).

Definition buildGetTransactionParams (signature : string) : list json :=
  [JString signature;
   JObject [("commitment", JString "confirmed"); ("encoding", JString "jsonParsed"); ("maxSupportedTransactionVersion", JNumber "0")]].

Definition signatures_config (opts : GetSignaturesOpts) : json :=
  JObject ((if str_empty (go_Before opts) then [] else [("before", JString (go_Before opts))]) ++
           [("commitment", JString "confirmed")] ++
           (if 0 <? go_Limit opts then [("limit", JNumber (show_Z (go_Limit opts)))] else []) ++
           (if str_empty (go_Until opts) then [] else [("until", JString (go_Until opts))])).

(** The options of [GetBlock]; empty ones take the default. *)
Record GetBlockOpts := { gb_Commitment : string; gb_TransactionDetails : string }.

Definition or_default (d : string) (s : string) : string := if str_empty s then d else s.

Definition block_config (opts : option GetBlockOpts) : json :=
  JObject [("commitment", JString (from_option (fun o => or_default "confirmed" (gb_Commitment o)) "confirmed" opts));
           ("encoding", JString "jsonParsed"); ("maxSupportedTransactionVersion", JNumber "0");
           ("transactionDetails", JString (from_option (fun o => or_default "full" (gb_TransactionDetails o)) "full" opts))].

(** ** Methods *)

Section Methods.
Context (post : json -> http_result) (wait : Z -> option go_error) (json_error : go_error).
(** The counter of the client at the call. *)
Context (id : Z).

Definition rpc_GetSlot (commitment : string) : result go_error Z :=
  single post wait typed_error json_error id "getSlot" [JObject [("commitment", JString commitment)]] "getSlot"
    (required json_error (fun j => read_int64 (Some j)) "unmarshal slot").

Definition rpc_GetSignaturesForAddress (address : string) (opts : GetSignaturesOpts) : result go_error (list rpcSignatureInfo) :=
  single post wait typed_error json_error id "getSignaturesForAddress" [JString address; signatures_config opts] "getSignaturesForAddress"
    (required json_error (fun j => read_slice read_SignatureInfo (Some j)) "unmarshal signatures").

Definition rpc_GetTransaction (signature : string) : result go_error RawMessage :=
  single post wait typed_error json_error id "getTransaction" (buildGetTransactionParams signature) ("getTransaction(" +:+ signature +:+ ")") (fun raw => Ok raw).

Definition rpc_GetTransactions (signatures : list string) : result go_error (list RawMessage) :=
  batch post typed_error json_error id "getTransaction" buildGetTransactionParams
    (fun signature => "getTransaction(" +:+ signature +:+ ")") (fun _ raw => Ok raw) signatures.

(** A skipped slot is null, or has no result at all. *)
Definition rpc_GetBlock (slot : Z) (opts : option GetBlockOpts) : result go_error (option BlockResult) :=
  single post wait typed_error json_error id "getBlock" [JNumber (show_Z slot); block_config opts] ("getBlock(" +:+ show_Z slot +:+ ")")
    (fun raw => match raw with
                | None => Ok None
                | Some j => nullable json_error read_BlockResult ("unmarshal block(" +:+ show_Z slot +:+ ")") (Some j)
                end).

(** The client of the adapter, which passes no options to [GetBlock]. *)
Definition solana_client : RPCClient :=
  {| GetSlot := rpc_GetSlot; GetSignaturesForAddress := rpc_GetSignaturesForAddress; GetTransaction := rpc_GetTransaction;
     GetTransactions := Some rpc_GetTransactions; GetBlock := fun slot => rpc_GetBlock slot None |}.
End Methods.
