(* ===== verification/RpcProofs.v ===== *)
(** * Batches of the three clients

    Over a node that answers batches as it answers requests, the methods for many blocks,
    transactions or receipts return what the methods for one return: what the theorems
    about the adapters assume of their clients. *)

From Stdlib Require Import ZArith String Ascii Lia.
From stdpp Require Import base option strings gmap list.
From S2P Require Import Prelude Retry JsonTree RpcClient EvmAdapter EvmRpc EvmRpcProofs BtcAdapter BtcRpc SolanaAdapter SolanaRpc.

Open Scope Z_scope.
Open Scope go_scope.

(** Asking for all and asking for each. *)
Definition pointwise {X A} (all : result go_error (list A)) (each : X -> result go_error A -> Prop) (xs : list X) : Prop :=
  forall as_, all = Ok as_ <-> Forall2 (fun x a => each x (Ok a)) xs as_.

Section Clients.
Context {post : json -> http_result} {wait : Z -> option go_error} {json_error : go_error}.
Context {node : string -> list json -> RPCError + json}.
Context (Hhonest : honest post wait node).
Context (id : Z) (Hlo : 0 <= id).

#[local] Ltac batches :=
  intros Hans as_; eapply (batch_iff _ _ _ _ _ Hhonest); [|done..];
  intros; first [apply nullable_same|apply required_same|done].

(** C24: In each of the three clients, asking the node for many blocks, hashes, transactions or
    receipts in one batch is the same as asking for each alone: in whatever order the
    answers come, an answered batch succeeds exactly when every single request would, at any
    value of the client's counter, and its results are theirs in the order of the
    question. *)
Theorem batches_lawful (nums : list Z) (full : bool) (verbosity : Z) (hashes : list string) :
  id + Z.of_nat (length nums) <= max_int64 -> id + Z.of_nat (length hashes) <= max_int64 ->
  (answered post id "eth_getBlockByNumber" (fun n => [JString (formatHexInt64 n); JBool full]) nums ->
   pointwise (rpc_GetBlocksByNumber post json_error id nums full)
     (fun n r => forall id', rpc_GetBlockByNumber post wait json_error id' n full = r) nums) /\
  (answered post id "eth_getTransactionByHash" (fun h => [JString h]) hashes ->
   pointwise (rpc_GetTransactionsByHash post json_error id hashes)
     (fun h r => forall id', rpc_GetTransactionByHash post wait json_error id' h = r) hashes) /\
  (answered post id "eth_getTransactionReceipt" (fun h => [JString h]) hashes ->
   pointwise (rpc_GetTransactionReceiptsByHash post json_error id hashes)
     (fun h r => forall id', rpc_GetTransactionReceipt post wait json_error id' h = r) hashes) /\
  (answered post id "getblockhash" (fun n => [JNumber (show_Z n)]) nums ->
   pointwise (rpc_GetBlockHashes post json_error id nums)
     (fun n r => forall id', BtcRpc.rpc_GetBlockHash post wait json_error id' n = r) nums) /\
  (answered post id "getblock" (fun h => [JString h; JNumber (show_Z verbosity)]) hashes ->
   pointwise (rpc_GetBlocks post json_error id hashes verbosity)
     (fun h r => forall id', BtcRpc.rpc_GetBlock post wait json_error id' h verbosity = r) hashes) /\
  (answered post id "getrawtransaction" (fun h => [JString h; JBool true]) hashes ->
   pointwise (rpc_GetRawTransactionsVerbose post json_error id hashes)
     (fun h r => forall id', rpc_GetRawTransactionVerbose post wait json_error id' h = r) hashes) /\
  (answered post id "getTransaction" buildGetTransactionParams hashes ->
   pointwise (rpc_GetTransactions post json_error id hashes)
     (fun h r => forall id', rpc_GetTransaction post wait json_error id' h = r) hashes).
Proof. intros Hnums Hhashes. split_and!; batches. Qed.
End Clients.

Lemma batches_lawful_witness :
  let seen := Some (EvmAdapter.Build_Transaction "0xcc" "" "" "" "" "" "") in
  rpc_GetTransactionsByHash (node_post example_node) (EMsg "json") 7 ["0xcc"; "0xdd"] = Ok [seen; seen] /\
  rpc_GetTransactionByHash (node_post example_node) (fun _ => None) (EMsg "json") 3 "0xdd" = Ok seen.
Proof.
  intros seen.
  assert (Hans : answered (node_post example_node) 7 "eth_getTransactionByHash" (fun h => [JString h]) ["0xcc"; "0xdd"])
    by (eexists; reflexivity).
  assert (H1 : 0 <= 7) by lia. assert (H2 : 7 + Z.of_nat (@length Z []) <= max_int64) by (vm_compute; discriminate).
  assert (H3 : 7 + Z.of_nat (length ["0xcc"; "0xdd"]) <= max_int64) by (vm_compute; discriminate).
  pose proof (batches_lawful (json_error := EMsg "json") example_honest 7 H1 [] false 1 ["0xcc"; "0xdd"] H2 H3) as (_ & Htx & _).
  assert (Hb : rpc_GetTransactionsByHash (node_post example_node) (EMsg "json") 7 ["0xcc"; "0xdd"] = Ok [seen; seen])
    by (vm_compute; reflexivity).
  split; [exact Hb|].
  destruct (proj1 (Forall2_cons _ _ _ _ _) (proj1 (Htx Hans _) Hb)) as [_ H].
  destruct (proj1 (Forall2_cons _ _ _ _ _) H) as [Hone _]. exact (Hone 3).
Defined.
