(* ===== verification/Wiring.v ===== *)
(** * The stages of a run: [runPipeline] of [internal/pipeline/pipeline.go] and the
    constructors of the normalizer and the ingester

    From the settings of a pipeline and what it was given (the kind of its adapter, the
    repositories and services that are there) to the stages a run starts: the coordinator,
    the fetcher, the normalizer and the ingester, and the watcher of the configuration, the
    reorg detector and the finalizer where they can run.  Of collaborators that are only
    passed on the model has whether they are set. *)

From Stdlib Require Import ZArith Lia Ascii String.
From stdpp Require Import base option list strings gmap.
From S2P Require Import Prelude Retry Float64 Config Domain Cache Breaker AddressIndex AutoTune RuntimeSignals Coordinator ReorgDetector FetcherRules Fetcher Normalizer IngesterRules ConfigWatcher Startup.

Open Scope list_scope.
Open Scope Z_scope.

(** [time.Duration(n) * unit] *)
Definition millis (n : Z) : Z := wrap64 (n * Millisecond).
Definition seconds (n : Z) : Z := wrap64 (n * Second).

(** An option that is given only when its condition holds. *)
Definition opt_if {O} (b : bool) (o : O) : list O := if b then [o] else [].

(** ** [normalizer.New] *)
Module NormalizerStage.

Record Normalizer := {
  n_sidecarAddr : string; n_sidecarTimeout : Z; n_workerCount : Z; n_maxMsgSizeMB : Z; n_retry : retry_config;
  n_tlsEnabled : bool; n_tlsCA : string; n_tlsCert : string; n_tlsKey : string; n_breaker : Breaker.Config
}.

Definition WithTLS (enabled : bool) (caPath certPath keyPath : string) (n : Normalizer) : Normalizer :=
  {| n_sidecarAddr := n_sidecarAddr n; n_sidecarTimeout := n_sidecarTimeout n; n_workerCount := n_workerCount n;
     n_maxMsgSizeMB := n_maxMsgSizeMB n; n_retry := n_retry n; n_tlsEnabled := enabled; n_tlsCA := caPath;
     n_tlsCert := certPath; n_tlsKey := keyPath; n_breaker := n_breaker n |}.

Definition WithRetryConfig (maxAttempts delayInitial delayMax : Z) (n : Normalizer) : Normalizer :=
  {| n_sidecarAddr := n_sidecarAddr n; n_sidecarTimeout := n_sidecarTimeout n; n_workerCount := n_workerCount n;
     n_maxMsgSizeMB := n_maxMsgSizeMB n;
     n_retry := {| rc_maxAttempts := maxAttempts; rc_delayStart := delayInitial; rc_delayMax := delayMax |};
     n_tlsEnabled := n_tlsEnabled n; n_tlsCA := n_tlsCA n; n_tlsCert := n_tlsCert n; n_tlsKey := n_tlsKey n;
     n_breaker := n_breaker n |}.

Definition WithCircuitBreaker (failureThreshold successThreshold openTimeout : Z) (n : Normalizer) : Normalizer :=
  {| n_sidecarAddr := n_sidecarAddr n; n_sidecarTimeout := n_sidecarTimeout n; n_workerCount := n_workerCount n;
     n_maxMsgSizeMB := n_maxMsgSizeMB n; n_retry := n_retry n; n_tlsEnabled := n_tlsEnabled n; n_tlsCA := n_tlsCA n;
     n_tlsCert := n_tlsCert n; n_tlsKey := n_tlsKey n;
     n_breaker := {| cfg_FailureThreshold := failureThreshold; cfg_SuccessThreshold := successThreshold;
                     cfg_OpenTimeout := openTimeout |} |}.

Definition WithMaxMsgSizeMB (mb : Z) (n : Normalizer) : Normalizer :=
  if 0 <? mb then
    {| n_sidecarAddr := n_sidecarAddr n; n_sidecarTimeout := n_sidecarTimeout n; n_workerCount := n_workerCount n;
       n_maxMsgSizeMB := mb; n_retry := n_retry n; n_tlsEnabled := n_tlsEnabled n; n_tlsCA := n_tlsCA n;
       n_tlsCert := n_tlsCert n; n_tlsKey := n_tlsKey n; n_breaker := n_breaker n |}
  else n.

Definition New (sidecarAddr : string) (sidecarTimeout workerCount : Z) (opts : list (Normalizer -> Normalizer)) : Normalizer :=
  foldl (fun n opt => opt n)
    {| n_sidecarAddr := sidecarAddr; n_sidecarTimeout := sidecarTimeout; n_workerCount := workerCount; n_maxMsgSizeMB := 0;
       n_retry := default_retry; n_tlsEnabled := false; n_tlsCA := ""; n_tlsCert := ""; n_tlsKey := "";
       n_breaker := {| cfg_FailureThreshold := 0; cfg_SuccessThreshold := 0; cfg_OpenTimeout := 0 |} |} opts.

(** What the files of the credentials hold. *)
Record files := { pem_ok : string -> result go_error bool; key_pair : string -> string -> option go_error }.

Inductive credentials := Insecure | TLS (mutual : bool).

Definition buildTransportCredentials (fs : files) (n : Normalizer) : result go_error credentials :=
  if negb (n_tlsEnabled n) then Ok Insecure
  else
    match pem_ok fs (n_tlsCA n) with
    | Err err => Err (EWrap ("read CA cert " +:+ n_tlsCA n) err)
    | Ok false => Err (EMsg ("failed to parse CA cert " +:+ n_tlsCA n))
    | Ok true =>
        if negb (str_empty (n_tlsCert n)) && negb (str_empty (n_tlsKey n)) then
          match key_pair fs (n_tlsCert n) (n_tlsKey n) with
          | Some err => Err (EWrap "load client cert/key" err)
          | None => Ok (TLS true)
          end
        else Ok (TLS false)
    end.

(** The largest message, in bytes. *)
Definition maxMsgSize (n : Normalizer) : Z :=
  wrap64 ((if n_maxMsgSizeMB n <=? 0 then 64 else n_maxMsgSizeMB n) * 1024 * 1024).

(** The start of [Run]: the credentials, the breaker and the number of workers. *)
Definition Run {C} (fs : files) (n : Normalizer) (floor : C) : result go_error (credentials * nstate (C := C) * Z) :=
  match buildTransportCredentials fs n with
  | Err err => Err (EWrap "build transport credentials" err)
  | Ok creds => Ok (creds, start_breaker (n_breaker n) {| ns_breaker := None; ns_floor := floor |}, n_workerCount n)
  end.
End NormalizerStage.

(** ** [ingester.New] *)
Module IngesterStage.

Definition defaultProcessRetryMaxAttempts : Z := 3.
Definition defaultRetryDelayInitial : Z := 100 * Millisecond.
Definition defaultRetryDelayMax : Z := Second.
Definition defaultDeniedCacheCapacity : Z := 10000.
Definition defaultDeniedCacheTTL : Z := 300 * Second.
Definition defaultBlockScanAddrCacheTTL : Z := 30 * Second.

Abbreviation index := (TieredIndex (ShardedLRU string (option WatchedAddress))).

(** The options that are set, and the settings of retries and caches. *)
Record collaborators := {
  co_reorgCh : bool; co_finalityCh : bool; co_blockRepo : bool; co_autoTuneSignals : bool;
  co_commitInterleaver : bool; co_replayService : bool; co_watchedAddrRepo : bool
}.
Record Ingester := {
  i_with : collaborators; i_addressIndex : option index; i_retryMaxAttempts : Z; i_retryDelayStart : Z; i_retryDelayMax : Z;
  i_deniedCache : ShardedLRU string bool; i_blockScanAddrCacheTTL : Z
}.

Definition on_with (f : collaborators -> collaborators) (i : Ingester) : Ingester :=
  {| i_with := f (i_with i); i_addressIndex := i_addressIndex i; i_retryMaxAttempts := i_retryMaxAttempts i;
     i_retryDelayStart := i_retryDelayStart i; i_retryDelayMax := i_retryDelayMax i; i_deniedCache := i_deniedCache i;
     i_blockScanAddrCacheTTL := i_blockScanAddrCacheTTL i |}.

(** Every pipeline has an interleaver, without a skew when it is the only one. *)
Definition WithCommitInterleaver : Ingester -> Ingester := on_with (fun c =>
  {| co_reorgCh := co_reorgCh c; co_finalityCh := co_finalityCh c; co_blockRepo := co_blockRepo c;
     co_autoTuneSignals := co_autoTuneSignals c; co_commitInterleaver := true; co_replayService := co_replayService c;
     co_watchedAddrRepo := co_watchedAddrRepo c |}).
Definition WithAutoTuneSignalSink : Ingester -> Ingester := on_with (fun c =>
  {| co_reorgCh := co_reorgCh c; co_finalityCh := co_finalityCh c; co_blockRepo := co_blockRepo c;
     co_autoTuneSignals := true; co_commitInterleaver := co_commitInterleaver c; co_replayService := co_replayService c;
     co_watchedAddrRepo := co_watchedAddrRepo c |}).
Definition WithReorgChannel : Ingester -> Ingester := on_with (fun c =>
  {| co_reorgCh := true; co_finalityCh := co_finalityCh c; co_blockRepo := co_blockRepo c;
     co_autoTuneSignals := co_autoTuneSignals c; co_commitInterleaver := co_commitInterleaver c;
     co_replayService := co_replayService c; co_watchedAddrRepo := co_watchedAddrRepo c |}).
Definition WithFinalityChannel : Ingester -> Ingester := on_with (fun c =>
  {| co_reorgCh := co_reorgCh c; co_finalityCh := true; co_blockRepo := co_blockRepo c;
     co_autoTuneSignals := co_autoTuneSignals c; co_commitInterleaver := co_commitInterleaver c;
     co_replayService := co_replayService c; co_watchedAddrRepo := co_watchedAddrRepo c |}).
Definition WithIndexedBlockRepo : Ingester -> Ingester := on_with (fun c =>
  {| co_reorgCh := co_reorgCh c; co_finalityCh := co_finalityCh c; co_blockRepo := true;
     co_autoTuneSignals := co_autoTuneSignals c; co_commitInterleaver := co_commitInterleaver c;
     co_replayService := co_replayService c; co_watchedAddrRepo := co_watchedAddrRepo c |}).
Definition WithReplayService : Ingester -> Ingester := on_with (fun c =>
  {| co_reorgCh := co_reorgCh c; co_finalityCh := co_finalityCh c; co_blockRepo := co_blockRepo c;
     co_autoTuneSignals := co_autoTuneSignals c; co_commitInterleaver := co_commitInterleaver c; co_replayService := true;
     co_watchedAddrRepo := co_watchedAddrRepo c |}).
Definition WithWatchedAddressRepo : Ingester -> Ingester := on_with (fun c =>
  {| co_reorgCh := co_reorgCh c; co_finalityCh := co_finalityCh c; co_blockRepo := co_blockRepo c;
     co_autoTuneSignals := co_autoTuneSignals c; co_commitInterleaver := co_commitInterleaver c;
     co_replayService := co_replayService c; co_watchedAddrRepo := true |}).

Definition WithAddressIndex (idx : index) (i : Ingester) : Ingester :=
  {| i_with := i_with i; i_addressIndex := Some idx; i_retryMaxAttempts := i_retryMaxAttempts i;
     i_retryDelayStart := i_retryDelayStart i; i_retryDelayMax := i_retryDelayMax i; i_deniedCache := i_deniedCache i;
     i_blockScanAddrCacheTTL := i_blockScanAddrCacheTTL i |}.
Definition WithRetryConfig (maxAttempts delayInitial delayMax : Z) (i : Ingester) : Ingester :=
  {| i_with := i_with i; i_addressIndex := i_addressIndex i; i_retryMaxAttempts := maxAttempts;
     i_retryDelayStart := delayInitial; i_retryDelayMax := delayMax; i_deniedCache := i_deniedCache i;
     i_blockScanAddrCacheTTL := i_blockScanAddrCacheTTL i |}.
Definition denied_cache (capacity ttl : Z) : ShardedLRU string bool := NewShardedLRU capacity ttl (fun k => k).
Definition WithDeniedCacheConfig (capacity ttl : Z) (i : Ingester) : Ingester :=
  {| i_with := i_with i; i_addressIndex := i_addressIndex i; i_retryMaxAttempts := i_retryMaxAttempts i;
     i_retryDelayStart := i_retryDelayStart i; i_retryDelayMax := i_retryDelayMax i;
     i_deniedCache := denied_cache capacity ttl; i_blockScanAddrCacheTTL := i_blockScanAddrCacheTTL i |}.
Definition WithBlockScanAddrCacheTTL (ttl : Z) (i : Ingester) : Ingester :=
  {| i_with := i_with i; i_addressIndex := i_addressIndex i; i_retryMaxAttempts := i_retryMaxAttempts i;
     i_retryDelayStart := i_retryDelayStart i; i_retryDelayMax := i_retryDelayMax i; i_deniedCache := i_deniedCache i;
     i_blockScanAddrCacheTTL := ttl |}.

Definition New (opts : list (Ingester -> Ingester)) : Ingester :=
  foldl (fun i opt => opt i)
    {| i_with := {| co_reorgCh := false; co_finalityCh := false; co_blockRepo := false; co_autoTuneSignals := false;
                    co_commitInterleaver := false; co_replayService := false; co_watchedAddrRepo := false |};
       i_addressIndex := None; i_retryMaxAttempts := defaultProcessRetryMaxAttempts;
       i_retryDelayStart := defaultRetryDelayInitial; i_retryDelayMax := defaultRetryDelayMax;
       i_deniedCache := denied_cache defaultDeniedCacheCapacity defaultDeniedCacheTTL;
       i_blockScanAddrCacheTTL := defaultBlockScanAddrCacheTTL |} opts.
End IngesterStage.

(** ** The stages *)

(** What the pipeline was given: the interfaces its adapter has, the repositories and the
    service that are set, and the table of watched addresses as the run starts. *)
Record given := {
  g_blockScan : bool; g_reorgAware : bool; g_indexedBlock : bool; g_runtimeConfig : bool; g_replayService : bool;
  g_now : Z; g_queryOk : bool; g_watched : WatchedAddressRepo.table
}.

Record stages := {
  st_coordinator : Coordinator.Coordinator;
  st_fetcher : fetch_config; st_shared : fshared (LRU string Z);
  st_normalizer : NormalizerStage.Normalizer;
  st_ingester : IngesterStage.Ingester;
  st_watcher : option ConfigWatcher.ConfigWatcher;
  st_detector : option (Detector * Z);
  st_finalizer : option (Finalizer * Z)
}.

(** The defaults of [finalizer.New] and [reorgdetector.New]. *)
Definition finalizer_interval (interval : Z) : Z := if interval <=? 0 then 60 * Second else interval.
Definition detector_interval (interval : Z) : Z := if interval <=? 0 then 30 * Second else interval.

Definition autotune_config (a : AutoTuneSettings) : AutoTuneConfig :=
  {| cfg_Enabled := at_Enabled a; cfg_MinBatchSize := at_MinBatchSize a; cfg_MaxBatchSize := at_MaxBatchSize a;
     cfg_StepUp := at_StepUp a; cfg_StepDown := at_StepDown a; cfg_LagHighWatermark := at_LagHighWatermark a;
     cfg_LagLowWatermark := at_LagLowWatermark a; cfg_QueueHighWatermarkPct := at_QueueHighWatermarkPct a;
     cfg_QueueLowWatermarkPct := at_QueueLowWatermarkPct a; cfg_HysteresisTicks := at_HysteresisTicks a;
     cfg_CooldownTicks := 0; cfg_TelemetryStaleTicks := at_TelemetryStaleTicks a;
     cfg_TelemetryRecoveryTicks := at_TelemetryRecoveryTicks a;
     cfg_OperatorOverrideBatchSize := at_OperatorOverrideBatch a;
     cfg_OperatorReleaseHoldTicks := at_OperatorReleaseHoldTicks a; cfg_PolicyVersion := at_PolicyVersion a;
     cfg_PolicyManifestDigest := at_PolicyManifestDigest a;
     cfg_PolicyManifestRefreshEpoch := at_PolicyManifestRefreshEpoch a;
     cfg_PolicyActivationHoldTicks := at_PolicyActivationHoldTicks a |}.

Definition coordinator_stage (p : PipelineSettings) (g : given) : Coordinator.Coordinator :=
  let coord := WithAutoTune (autotune_config (ps_CoordinatorAutoTune p))
    (WithHeadProvider (Coordinator.New (ps_Chain p) (ps_Network p) (ps_BatchSize p) (ps_IndexingInterval p))) in
  if g_blockScan g then
    let coord := WithBlockScanMode coord in
    let coord := if 0 <? ps_MaxInitialLookbackBlocks p
                 then Coordinator.WithMaxInitialLookbackBlocks (ps_MaxInitialLookbackBlocks p) coord else coord in
    WithBackfillChannel coord
  else coord.

Definition fetcher_options (f : FetcherStageConfig) : list (fetch_config -> fetch_config) :=
  opt_if (0 <? fs_RetryMaxAttempts f)
    (Fetcher.WithRetryConfig (fs_RetryMaxAttempts f) (millis (fs_BackoffInitialMs f)) (millis (fs_BackoffMaxMs f))) ++
  opt_if (0 <? fs_AdaptiveMinBatch f) (WithAdaptiveMinBatch (fs_AdaptiveMinBatch f)) ++
  opt_if (0 <? fs_BoundaryOverlapLookahead f) (WithBoundaryOverlapLookahead (fs_BoundaryOverlapLookahead f)) ++
  opt_if (0 <? fs_BlockScanMaxBatchTxs f) (WithBlockScanMaxBatchTxs (fs_BlockScanMaxBatchTxs f)) ++
  [Fetcher.WithCircuitBreaker (cb_FailureThreshold (fs_CircuitBreaker f)) (cb_SuccessThreshold (fs_CircuitBreaker f))
     (millis (cb_OpenTimeoutMs (fs_CircuitBreaker f)))].

Definition fetcher_stage (p : PipelineSettings) : fetch_config :=
  Fetcher.New (ps_FetchWorkers p) (fetcher_options (ps_Fetcher p)).

Definition normalizer_options (p : PipelineSettings) : list (NormalizerStage.Normalizer -> NormalizerStage.Normalizer) :=
  let n := ps_Normalizer p in
  [NormalizerStage.WithTLS (ps_SidecarTLSEnabled p) (ps_SidecarTLSCA p) (ps_SidecarTLSCert p) (ps_SidecarTLSKey p);
   NormalizerStage.WithMaxMsgSizeMB (ps_SidecarMaxMsgSizeMB p)] ++
  opt_if (0 <? ns_RetryMaxAttempts n)
    (NormalizerStage.WithRetryConfig (ns_RetryMaxAttempts n) (millis (ns_RetryDelayInitialMs n)) (millis (ns_RetryDelayMaxMs n))) ++
  [NormalizerStage.WithCircuitBreaker (cb_FailureThreshold (ns_CircuitBreaker n)) (cb_SuccessThreshold (ns_CircuitBreaker n))
     (millis (cb_OpenTimeoutMs (ns_CircuitBreaker n)))].

Definition normalizer_stage (p : PipelineSettings) : NormalizerStage.Normalizer :=
  NormalizerStage.New (ps_SidecarAddr p) (ps_SidecarTimeout p) (ps_NormalizerWorkers p) (normalizer_options p).

Section Stages.
(** The sizes of a Bloom filter for a rate of false positives, in floating point. *)
Context (sizing : float64 -> Z -> Z * Z).

(** [addressindex.NewTieredIndex] with its defaults, and its first reload, which may fail. *)
Definition address_index (p : PipelineSettings) (g : given) : IngesterStage.index :=
  let cfg := ps_AddressIndex p in
  let expected := if ai_BloomExpectedItems cfg <=? 0 then 10000000 else ai_BloomExpectedItems cfg in
  let fpr := if f64_leb (ai_BloomFPR cfg) f64_zero then f64_ratio false 1 1000 else ai_BloomFPR cfg in
  let capacity := if ai_LRUCapacity cfg <=? 0 then 100000 else ai_LRUCapacity cfg in
  let ttl := if seconds (ai_LRUTTLSec cfg) <=? 0 then 600 * Second else seconds (ai_LRUTTLSec cfg) in
  (Reload (sizing fpr) expected (g_now g) (g_queryOk g) (g_watched g)
     (NewTieredIndex (NewShardedLRU capacity ttl (fun k => k))) (ps_Chain p) (ps_Network p)).2.

Definition ingester_options (p : PipelineSettings) (g : given) : list (IngesterStage.Ingester -> IngesterStage.Ingester) :=
  let i := ps_Ingester p in
  [IngesterStage.WithCommitInterleaver; IngesterStage.WithAutoTuneSignalSink;
   IngesterStage.WithReorgChannel; IngesterStage.WithFinalityChannel] ++
  opt_if (0 <? is_RetryMaxAttempts i)
    (IngesterStage.WithRetryConfig (is_RetryMaxAttempts i) (millis (is_RetryDelayInitialMs i)) (millis (is_RetryDelayMaxMs i))) ++
  opt_if (0 <? is_DeniedCacheCapacity i)
    (IngesterStage.WithDeniedCacheConfig (is_DeniedCacheCapacity i) (seconds (is_DeniedCacheTTLSec i))) ++
  opt_if (0 <? is_BlockScanAddrCacheTTLSec i) (IngesterStage.WithBlockScanAddrCacheTTL (seconds (is_BlockScanAddrCacheTTLSec i))) ++
  opt_if (g_indexedBlock g) IngesterStage.WithIndexedBlockRepo ++
  opt_if (g_replayService g) IngesterStage.WithReplayService ++
  (if g_blockScan g then [IngesterStage.WithAddressIndex (address_index p g); IngesterStage.WithWatchedAddressRepo] else []).

Definition ingester_stage (p : PipelineSettings) (g : given) : IngesterStage.Ingester := IngesterStage.New (ingester_options p g).

Definition detector_stage (p : PipelineSettings) : Detector * Z :=
  (WithAlerter ((if 0 <? ps_ReorgDetectorMaxCheckDepth p then WithMaxCheckDepth (ps_ReorgDetectorMaxCheckDepth p) else id)
     (ReorgDetector.New (ps_Chain p) (ps_Network p))), detector_interval (ps_ReorgDetectorInterval p)).

Definition finalizer_stage (p : PipelineSettings) : Finalizer * Z :=
  (NewFinalizer (ps_Chain p) (ps_Network p)
     (opt_if (0 <? ps_IndexedBlocksRetention p) (WithRetentionBlocks (ps_IndexedBlocksRetention p))),
   finalizer_interval (ps_FinalizerInterval p)).

(** Every pipeline has an alerter. *)
Definition runPipeline (p : PipelineSettings) (g : given) : stages :=
  let reorg := g_reorgAware g && g_indexedBlock g in
  {| st_coordinator := coordinator_stage p g; st_fetcher := fetcher_stage p;
     st_shared := start_shared (fetcher_stage p) (Some NewRuntimeSignalRegistry);
     st_normalizer := normalizer_stage p; st_ingester := ingester_stage p g;
     st_watcher := if g_runtimeConfig g
                   then Some (NewConfigWatcher (seconds (cw_IntervalSec (ps_ConfigWatcher p)))) else None;
     st_detector := if reorg then Some (detector_stage p) else None;
     st_finalizer := if reorg then Some (finalizer_stage p) else None |}.
End Stages.

(** [time.NewTicker] panics on an interval that is not positive: the tickers of a run. *)
Definition tickers (s : stages) : list Z :=
  c_intervalNs (st_coordinator s) :: 5 * Second :: (cw_interval <$> option_list (st_watcher s)) ++
  (snd <$> option_list (st_detector s)) ++ (snd <$> option_list (st_finalizer s)).

Definition panics (s : stages) : bool := existsb (fun d => d <=? 0) (tickers s).
