(* ===== verification/WiringProofs.v ===== *)
(** * What a run starts with

    The stages of a pipeline that a start produced have settings the theorems about the
    stages ask for, consumers for the events of the detector and the finalizer, and an
    address index that knows the addresses of the environment. *)

From Stdlib Require Import ZArith Lia Ascii String.
From stdpp Require Import base option list strings gmap.
From S2P Require Import Prelude Retry Float64 Config ConfigProofs Domain Cache Breaker AddressIndex AutoTune RuntimeSignals Coordinator ReorgDetector FetcherRules Fetcher Normalizer IngesterRules ConfigWatcher Startup StartupProofs Wiring.

Open Scope list_scope.
Open Scope Z_scope.

(** ** Options *)

(** An option list that keeps a property of what it is applied to. *)
Lemma foldl_opts {T} (P : T -> Prop) (opts : list (T -> T)) (x : T) :
  P x -> Forall (fun o => forall y, P y -> P (o y)) opts -> P (foldl (fun y o => o y) x opts).
Proof. intros Hx Hopts. revert x Hx. induction Hopts; intros x' Hx'; simpl; auto. Qed.

Lemma Forall_opt_if {T} (P : T -> Prop) b (o : T) : (b = true -> P o) -> Forall P (opt_if b o).
Proof. intros H. destruct b; simpl; auto. Qed.

(** Options are taken apart, each with its condition. *)
Ltac each_option :=
  repeat match goal with
  | |- Forall _ (_ ++ _) => apply Forall_app; split
  | |- Forall _ (_ :: _) => apply Forall_cons; split
  | |- Forall _ [] => apply Forall_nil; exact I
  | |- Forall _ (opt_if _ _) => apply Forall_opt_if; let H := fresh "Hopt" in intros H; rewrite ?Z.ltb_lt in H
  end; try (intros y Hy).

Definition fetcher_ready (f : fetch_config) : Prop :=
  1 <= f_workerCount f <= 100 /\ 1 <= f_retryMaxAttempts f /\ 1 <= f_adaptiveMinBatch f /\
  0 <= f_boundaryOverlapLookahead f /\ 0 <= f_blockScanMaxBatchTxs f.

Lemma fetcher_stage_ready p : 1 <= ps_FetchWorkers p <= 100 -> fetcher_ready (fetcher_stage p).
Proof.
  intros Hw. unfold fetcher_stage, Fetcher.New. apply foldl_opts.
  - unfold fetcher_ready. cbn. destruct (Z.leb_spec (ps_FetchWorkers p) 0); [lia|].
    unfold defaultRetryMaxAttempts, defaultAdaptiveMinBatch. lia.
  - unfold fetcher_options. each_option; unfold fetcher_ready in *; cbn; lia.
Qed.

Definition normalizer_ready (p : PipelineSettings) (n : NormalizerStage.Normalizer) : Prop :=
  NormalizerStage.n_workerCount n = ps_NormalizerWorkers p /\ 1 <= rc_maxAttempts (NormalizerStage.n_retry n).

Lemma normalizer_stage_ready p :
  normalizer_ready p (normalizer_stage p) /\ NormalizerStage.n_tlsEnabled (normalizer_stage p) = ps_SidecarTLSEnabled p /\
  NormalizerStage.n_tlsCA (normalizer_stage p) = ps_SidecarTLSCA p.
Proof.
  split.
  - unfold normalizer_stage, NormalizerStage.New. apply foldl_opts; [split; [done|by vm_compute]|].
    unfold normalizer_options. each_option; unfold normalizer_ready, NormalizerStage.WithMaxMsgSizeMB in *; repeat case_match; cbn; naive_solver lia.
  - unfold normalizer_stage, NormalizerStage.New, normalizer_options, NormalizerStage.WithMaxMsgSizeMB, opt_if. cbn.
    by repeat case_match.
Qed.

Definition ingester_ready (i : IngesterStage.Ingester) : Prop :=
  1 <= IngesterStage.i_retryMaxAttempts i /\ sharded_ok (IngesterStage.i_deniedCache i).

Lemma ingester_stage_ready sizing p g : ingester_ready (ingester_stage sizing p g).
Proof.
  unfold ingester_stage, IngesterStage.New. apply foldl_opts.
  { split; [by vm_compute|apply NewShardedLRUWithCount_ok]. }
  unfold ingester_options. each_option; unfold ingester_ready in *; try (cbn; naive_solver lia).
  - split; [apply Hy|apply NewShardedLRUWithCount_ok].
  - destruct (g_blockScan g); each_option; exact Hy.
Qed.

Lemma ingester_collaborators sizing p g :
  let i := ingester_stage sizing p g in let c := IngesterStage.i_with i in
  IngesterStage.co_reorgCh c = true /\ IngesterStage.co_finalityCh c = true /\ IngesterStage.co_blockRepo c = g_indexedBlock g /\
  IngesterStage.co_replayService c = g_replayService g /\ IngesterStage.co_watchedAddrRepo c = g_blockScan g /\
  IngesterStage.i_addressIndex i = if g_blockScan g then Some (address_index sizing p g) else None.
Proof.
  unfold ingester_stage, IngesterStage.New, ingester_options, opt_if. cbn.
  destruct (0 <? _), (0 <? _), (0 <? _), (g_indexedBlock g), (g_replayService g), (g_blockScan g); by cbn.
Qed.

(** ** The index of a run *)

Lemma sharded_new_empty {V} cap ttl (now : Z) (k : string) :
  holds now (NewShardedLRU cap ttl (fun k => k) : ShardedLRU string V) k = None.
Proof.
  change (sharded_holds now (NewShardedLRU cap ttl (fun k => k) : ShardedLRU string V) k = None).
  unfold sharded_holds. destruct (_ !! _) as [c|] eqn:Hc; [|done].
  unfold NewShardedLRU, NewShardedLRUWithCount in Hc. cbn [shards] in Hc. by apply lookup_replicate in Hc as [-> _].
Qed.

Lemma address_index_coherent sizing p g :
  (forall fpr x, 0 < x -> 0 < (sizing fpr x).1) -> NoDup (WatchedAddressRepo.key_of <$> g_watched g) ->
  coherent (ps_Chain p) (ps_Network p) (g_watched g) (g_now g) (address_index sizing p g).
Proof.
  intros Hsize Hu. unfold address_index. apply Reload_coherent; [done|by apply Hsize|].
  apply coherent_new; [apply NewShardedLRUWithCount_ok|intros now k; apply sharded_new_empty].
Qed.

Lemma active_row t chain network a : active_in t (chain, network, a) ->
  exists row, row ∈ WatchedAddressRepo.GetActive t chain network /\ wa_Address row = a.
Proof.
  intros (row & Hin & Hkey & Hact). exists row. unfold WatchedAddressRepo.key_of in Hkey. injection Hkey as <- <- <-.
  split; [|done]. unfold WatchedAddressRepo.GetActive. apply list_elem_of_filter. split; [|done].
  unfold WatchedAddressRepo.of_chain. by rewrite !String.eqb_refl, Hact.
Qed.

Lemma sync_unique w chain network l t t' e :
  syncWatchedAddresses w chain network l t = (e, t') -> NoDup (WatchedAddressRepo.key_of <$> t) ->
  NoDup (WatchedAddressRepo.key_of <$> t').
Proof.
  revert t. induction l as [|a l IH]; intros t; simpl; [by intros [= _ <-]|].
  destruct (w_upsert w _); [|by intros [= _ <-]]. intros H Hu. eapply IH; [exact H|]. by apply Upsert_unique.
Qed.

Lemma sync_targets_unique w l t t' e :
  sync_targets w l t = (e, t') -> NoDup (WatchedAddressRepo.key_of <$> t) -> NoDup (WatchedAddressRepo.key_of <$> t').
Proof.
  revert t. induction l as [|tg l IH]; intros t; simpl; [by intros [= _ <-]|].
  destruct (syncWatchedAddresses w _ _ _ t) as [[x|] t1] eqn:Hs; intros H Hu.
  - injection H as _ <-. by eapply sync_unique.
  - eapply IH; [exact H|]. by eapply sync_unique.
Qed.

(** ** Tickers *)

Lemma coordinator_interval p g : c_intervalNs (coordinator_stage p g) = ps_IndexingInterval p.
Proof.
  unfold coordinator_stage, WithAutoTune, withAutoTune, Wiring.opt_if. destruct (warm_seed _ _) as [[[? ?] ?] ?].
  by destruct (g_blockScan g), (0 <? ps_MaxInitialLookbackBlocks p).
Qed.

Lemma positive_interval d default : 0 < default -> ((if d <=? 0 then default else d) <=? 0) = false.
Proof. intros H. apply Z.leb_gt. destruct (Z.leb_spec d 0); lia. Qed.

Lemma only_coordinator_panics sizing p g : panics (runPipeline sizing p g) = (ps_IndexingInterval p <=? 0).
Proof.
  unfold panics, tickers, runPipeline, finalizer_stage, detector_stage, finalizer_interval, detector_interval, NewConfigWatcher.
  cbn [st_coordinator st_watcher st_detector st_finalizer existsb]. rewrite coordinator_interval.
  destruct (g_runtimeConfig g), (g_reorgAware g && g_indexedBlock g); simpl;
    by rewrite ?positive_interval, ?orb_false_r by (vm_compute; reflexivity).
Qed.

(** ** A run of a started pipeline *)

Record stages_ready (tg : runtimeTarget) (ps : PipelineSettings) (g : given) (s : stages) : Prop := {
  sr_fetcher : fetcher_ready (st_fetcher s);
  sr_normalizer : 1 <= NormalizerStage.n_workerCount (st_normalizer s) <= 100 /\
                  1 <= rc_maxAttempts (NormalizerStage.n_retry (st_normalizer s)) /\
                  (NormalizerStage.n_tlsEnabled (st_normalizer s) = true -> NormalizerStage.n_tlsCA (st_normalizer s) <> "");
  sr_ingester : ingester_ready (st_ingester s);
  sr_events : IngesterStage.co_reorgCh (IngesterStage.i_with (st_ingester s)) = true /\
              IngesterStage.co_finalityCh (IngesterStage.i_with (st_ingester s)) = true /\
              (st_detector s <> None -> IngesterStage.co_blockRepo (IngesterStage.i_with (st_ingester s)) = true) /\
              (st_finalizer s <> None <-> st_detector s <> None);
  sr_index : g_blockScan g = true -> exists idx, IngesterStage.i_addressIndex (st_ingester s) = Some idx /\
    forall a t db_ok, a ∈ rt_target_watched tg -> g_now g <= t ->
      (Contains t db_ok (g_watched g) idx (rt_target_chain tg) (rt_target_network tg) a).1 = true;
  sr_tickers : panics s = (ps_IndexingInterval ps <=? 0)
}.

(** C16: Whatever loads and starts, and whatever interfaces and repositories a pipeline has, a
    run starts stages that can work: workers, attempts and batch bounds are positive, a
    sidecar over TLS has its authority, the detector and the finalizer run together and only
    with an ingester that receives their events and has the blocks; where blocks are scanned
    the address index accepts every address of the environment, also when the database does
    not answer.  Only the coordinator's ticker can panic, exactly when the indexing interval
    is not positive, which the validation of the configuration lets through. *)
Theorem run_stages_ready sizing w h t plan t' tg ps g :
  (forall fpr x, 0 < x -> 0 < (sizing fpr x).1) -> NoDup (WatchedAddressRepo.key_of <$> t) ->
  yaml_typed h -> run_start w h t = (Ok plan, t') -> (tg, ps) ∈ plan -> g_watched g = t' ->
  stages_ready tg ps g (runPipeline sizing ps g).
Proof.
  intros Hsize Hu Hy (cfg & targets & Hl & _ & _ & _ & Hsync & ->)%run_start_inv Hin Hg.
  apply list_elem_of_fmap in Hin as (tg' & [= -> ->] & Htg).
  pose proof (loaded_well_formed h cfg Hy Hl) as Hwf. set (ps := buildPipelineConfig _ _ _ _).
  assert (Hu' : NoDup (WatchedAddressRepo.key_of <$> g_watched g)) by (rewrite Hg; by eapply sync_targets_unique).
  destruct (ingester_collaborators sizing ps g) as (Hreorg & Hfin & Hblocks & _ & _ & Hidx).
  split.
  - apply fetcher_stage_ready. apply (wf_workers _ _ Hwf).
  - destruct (normalizer_stage_ready ps) as ([Hwk Hatt] & Htls & Hca). simpl. rewrite Hwk, Htls, Hca.
    split_and!; [apply (wf_workers _ _ Hwf)..|done|]. apply (wf_tls _ _ Hwf).
  - apply ingester_stage_ready.
  - cbn [st_ingester st_detector st_finalizer runPipeline]. rewrite Hreorg, Hfin, Hblocks. split_and!; [done..| |].
    + destruct (g_reorgAware g), (g_indexedBlock g); naive_solver.
    + by destruct (g_reorgAware g && g_indexedBlock g).
  - intros Hscan. rewrite Hscan in Hidx. exists (address_index sizing ps g). split; [exact Hidx|].
    intros a now db_ok Ha Hnow. apply sync_targets_active in Hsync as [_ Hact].
    specialize (Hact tg' a Htg Ha). rewrite <- Hg in Hact. apply active_row in Hact as (row & Hrow & <-).
    pose proof (address_index_coherent sizing ps g Hsize Hu') as Hco. eapply coherent_later in Hco; [|exact Hnow].
    by eapply (Contains_coherent _ _ _ Hu' now _ db_ok _ Hco).
  - apply only_coordinator_panics.
Qed.

(** ** The sample start *)

Definition sample_sizing (_ : float64) (x : Z) : Z * Z := (8 * x, 2).

Definition sample_given (t : WatchedAddressRepo.table) : given :=
  {| g_blockScan := true; g_reorgAware := true; g_indexedBlock := true; g_runtimeConfig := true; g_replayService := true;
     g_now := 0; g_queryOk := true; g_watched := t |}.

Lemma sample_watched t : g_watched (sample_given t) = t.
Proof. reflexivity. Qed.

Lemma run_stages_ready_witness : exists tg ps, (tg, ps) ∈ start_plan /\
  stages_ready tg ps (sample_given started.2) (runPipeline sample_sizing ps (sample_given started.2)).
Proof.
  destruct start_plan as [|[tg ps] rest] eqn:Hplan; [exfalso; vm_compute in Hplan; discriminate|].
  assert (Hin : (tg, ps) ∈ start_plan) by (rewrite Hplan; apply elem_of_cons; left; reflexivity).
  exists tg, ps. split; [apply elem_of_cons; left; reflexivity|].
  refine (run_stages_ready sample_sizing sample_world start_host [] start_plan started.2 tg ps (sample_given started.2)
    _ (NoDup_nil_2) start_typed start_eq Hin (sample_watched _)).
  intros fpr x Hx. unfold sample_sizing. simpl. lia.
Defined.

(** A negative interval loads, starts, and panics in every run. *)
Example negative_interval :
  let env key := if str_eqb key "INDEXING_INTERVAL_MS" then Some "-1" else start_env key in
  let h := {| h_env := env; h_read := fun _ => FileMissing; h_yaml := fun _ _ => None |} in
  match run_start sample_world h [] with
  | (Ok plan, t') => (fun p => panics (runPipeline sample_sizing p.2 (sample_given []))) <$> plan
  | _ => []
  end = [true; true].
Proof. vm_compute. reflexivity. Qed.
